(* ===== verification/_CoqProject ===== *)
-Q . S2P
Prelude.v
Bytes.v
Types.v
Externals.v
Petgraph.v
Hashing.v
Work.v
Merkle.v
Transactions.v
Blocks.v
Storage.v
UtxoProcessor.v
Overlay.v
Transition.v
TxIndex.v
Difficulty.v
Dependencies.v
Validator.v
ChainIndex.v
Engine.v
Consensus.v
Float64.v
GraphWalk.v
MempoolGraph.v
Mempool.v
MempoolFacts.v
MempoolProps.v
Acceptance.v
Miner.v
Wallet.v
Wire.v
Sync.v
Rocks.v
Simulation.v
RocksStore.v
RocksWrites.v
RocksNode.v
RocksOpen.v
Node.v
Runtime.v
Network.v
NetworkProps.v
Http.v
HttpProps.v
Seeds.v
Strategy.v
Txgen.v
Accounts.v
Backup.v
Chaingen.v
ChaingenProps.v
GenRun.v
WalletFile.v
WalletClient.v
Repl.v
WalletNode.v
