(* ===== verification/Prelude.v ===== *)
(** * Verification of the Stryi chain node

    A Rocq model of the consensus core, the mempool, the miner, the synchronisation and the
    event loop of the node, the wallet and the generator of test chains, with the theorems
    that make them correct. Paths below are relative to [src/crates/].

    ** The program and the files that model it

    - Data and primitives ([stryi_core/src]): Types.v (transactions, blocks, UTXOs, errors),
      Bytes.v (bytes, arrays, integer codecs), Hashing.v ([hash.rs], [address.rs],
      [block/block_hash.rs]), Work.v ([difficulty.rs], [difficulty/asert.rs],
      [consensus/rules.rs]), Merkle.v ([merkletree.rs]), Transactions.v ([transactions/]),
      Blocks.v ([block/mod.rs], [block/mining.rs]).
    - Storage: Storage.v has the storage traits as type classes with the laws a UTXO store
      promises, and the in-memory backend; UtxoProcessor.v applies and rewinds blocks on any
      lawful store; Overlay.v is the fork overlay over a snapshot; Transition.v stages and
      commits genesis, append and reorganization; TxIndex.v follows the transaction index
      along a history of transitions.
    - Consensus: Difficulty.v, Dependencies.v and Validator.v are the validation pipeline,
      Acceptance.v its converse; ChainIndex.v and Engine.v are the chain index, the fork
      registry and the engine, a state and error monad over its fields; Consensus.v relates
      the engine to the abstract ledger.
    - Mempool ([stryi_core/src/mempool]): GraphWalk.v and MempoolGraph.v are the dependency
      tracker, Float64.v its fee rates, Mempool.v the pool; MempoolFacts.v and MempoolProps.v
      prove what it promises.
    - Node ([stryi_node/src]): Miner.v ([miner/]), Wire.v ([grpc.rs]), Sync.v ([node/lca.rs],
      [node/ibd.rs], [node/remote_peer.rs]), Node.v ([bootstrap.rs], [node/sync.rs]),
      Runtime.v ([node/consensus_runtime.rs], [node/event_loop.rs]).
    - Network ([stryi_network/src]): Network.v has the signed service records
      ([services.rs]), the table of peers ([peer.rs]) and the manager's commands and events
      ([manager.rs], [event.rs]); NetworkProps.v proves what the manager guarantees.
    - HTTP API ([stryi_node/src/http]): Http.v has every handler, its answers and errors;
      HttpProps.v proves them exact on the selected chain and the same on both backends.
    - RocksDB backend ([stryi_storage/src]): Rocks.v has every read and write of the column
      families, the handle and the checks on opening. Simulation.v compares two backends that
      answer alike, up to the errors one of them adds, through every reader and writer of the
      consensus core; RocksStore.v says what tables hold an in-memory state and RocksWrites.v
      that every write keeps them so; RocksNode.v and RocksOpen.v draw the consequences.
    - Wallet ([stryi_wallet/src]): Wallet.v ([tx_builder.rs]), WalletFile.v ([keys.rs] and the
      commands that change the file), WalletClient.v ([api_client.rs], [tx_wait.rs] and the
      commands that ask a node), Repl.v ([repl.rs], [main.rs]); WalletNode.v joins the wallet
      with the HTTP API of a node.
    - Generator of test chains ([stryi_devkit/src/chaingen]): Seeds.v ([seed.rs],
      [seed_schedule.rs]), Strategy.v ([strategy.rs]), Txgen.v ([txgen.rs]), Accounts.v
      ([state.rs], [funding_account.rs] and the core's [private_key.rs]), Backup.v (the file of
      the keys) and Chaingen.v ([config.rs], [init.rs], [blockgen.rs], [mod.rs]); ChaingenProps.v
      is about one block and GenRun.v about a whole run.

    The parts meet at interfaces. A block from the miner, the network or a synchronisation
    reaches [ConsensusRuntime] (Runtime.v), which feeds it to [on_block] (Engine.v); the engine
    validates it against a storage snapshot or a fork overlay, both instances of the classes
    of Storage.v, commits one [ChainTransition] and updates its index; the runtime then drops
    the confirmed transactions from the pool and tells the subscribers, among them the miner.
    A transaction reaches the pool through the HTTP API or the network.

    ** Abstract specifications and refinement

    A ledger is a list of blocks; [ledger_view] is the UTXO set of replaying it and
    [ledger_work] its work (Transition.v). [refines m l] says that the store [m] holds exactly
    the ledger [l]; [represents e l] (Consensus.v) adds that the engine's index is that of [l]
    and that each tracked fork is a branch of [l] no heavier than it. The refinement theorems say
    that every transition and every call of [on_block] moves from a ledger to the one the
    specification gives. [pool_ok p R] (MempoolFacts.v) says that the indexes and the graph of the
    pool agree with its transactions, [R] being the dependency relation. [runtime_ok]
    (Runtime.v) joins the two for a running node, and [generating g e l st] (GenRun.v) the engine
    with the records of the generator. [tables_hold s m] (RocksNode.v) says that the
    RocksDB tables are the in-memory state [m], address index included; with the simulation it
    carries the theorems about the in-memory backend over to a node on RocksDB.

    ** The theorems

    - Fork choice and ledger: the selected chain refines fork choice, stays the heaviest of
      what is tracked, survives restarts; transitions, undo and overlays are exact.
    - RocksDB: a transition or a block either does what the in-memory backend does or returns
      a storage error and leaves the tables alone; what a successful opening has checked of
      whatever was on the disk, and that a store of a chain opens again.
    - Validation: what an accepted block guarantees, that supply stays within the subsidy,
      that validation is independent of the schedule of the parallel workers, and that a
      block meeting the stated conditions is accepted, so that the miner's candidates are.
    - Mempool: the invariant under every operation and the restoration of the pool's own
      snapshots, and the exact effect of each.
    - Synchronisation: encodings and served ranges, the common ancestor search, termination
      and safety of the download against any peer, with the blocks fed in the order in which
      they were requested and answered, and that it reaches an honest heavier peer.
    - Node: the invariant of the event loop under any sequence of events whose blocks create
      new outputs.
    - Network: services are attributed to the peer that signed them, the table of peers
      follows the connections, a fetch of the pool is answered once, by the response or the
      failure of its request, and what one node publishes another receives.
    - HTTP API: a transaction is found exactly when it is on the chain or in the pool, an
      accepted submission has entered the pool, balances and blocks are those of the chain.
    - Generator: the filling of a block ends, its blocks are valid, so that a run extends the
      chain by the blocks it is to add unless it is stopped from outside; the records of the
      generator stay those of the chain; the backup of the keys changes no file.
    - Wallet: a key is lost only by deleting its address, whatever the disk refuses; a session
      changes the file only as its commands do; the wait for a confirmation ends; a payment
      sent from coins that cover it enters the pool of the node.
    - Primitives: work and thresholds within their widths, Merkle proofs, header encoding,
      block hash, payments of the wallet.
    Where the code does not keep what it means to, a theorem shows the behaviour as it is
    (repeated payments, relayed orphans, dependent transactions in the pool and others).

    ** Conventions

    - Machine integers are [Z]; arithmetic that the code leaves unchecked wraps at its width
      ([wrap w]), as the release profile does; [checked_], [saturating_] operations keep their
      meaning. [f64] is the binary64 of the Standard Library's specification floats.
    - Errors are values of the source's enums ([result E A]). Error texts are the templates of
      their [format!] strings, without the interpolated values.
    - A panic the code can reach is an error value where the model returns one, and is named in
      the comment of the definition otherwise.
    - The mutexes and snapshots of the storage become state passing: every step reads and
      writes whole states. The interleavings that the locks allow are explicit: sequences of
      events (Runtime.v), the later states a stream reads (Wire.v), the order in which workers
      take the transactions of a group (Validator.v). The steps of two workers inside one
      transaction are not interleaved.
    - The iteration order of hash maps is a parameter ([HashIteration] in Prelude.v).
    - The clock, the polls of a cancellation token, random nonces, user prompts, what peers
      answer and what discovery returns are arguments, so theorems hold for all of them.
    - Third-party code is a class of operations with the documented laws the theorems need:
      BLAKE3, HashX, hex, SEC1, ECDSA and the transaction encoding (Externals.v), petgraph (Petgraph.v),
      postcard (Wire.v, Rocks.v), RocksDB (Rocks.v, its laws in RocksStore.v), libp2p (Network.v, its laws
      in NetworkProps.v), the HTTP and JSON libraries and the clock of the wallet (WalletFile.v,
      WalletClient.v, their laws in WalletNode.v). Each class has a concrete instance, on which the witnesses run.

    ** Standing conditions

    - The code accepts a block that repeats a payment without inputs, and then overwrites its
      outputs and cannot be rewound any more ([overwritten_output_stops_rewind],
      [repeated_payment_is_fatal]). So the theorems about sequences of blocks assume that the
      outputs of a block are new where it attaches, unless the block spends them ([fresh_on],
      [all_fresh], [events_fine]), or that no transaction is twice on a chain ([history]);
      what they say is about every block that meets it, valid or not.
    - A transaction that spends an output of its own hash is excluded where the pool is
      concerned ([no_self_spend]): there is none unless the hash has a fixed point.
    - The wallet and the builder of blocks add amounts without checks; their theorems bound
      the values by 2^62 in sum and the number of coins by 2^24.

    ** Fuel

    Loops that are not structural take fuel, and a theorem shows that the fuel given by the
    calling definition suffices: the rewind loop of the engine takes the height of the fork
    point below the tip ([rewind_fuel_enough]); the collection of the canonical ancestry one
    step per height ([startup_represents]); the execution groups one per transaction
    ([execution_groups_total]); the graph walks of the pool one per node or edge
    (GraphWalk.v); the ancestor search 65 rounds, since it halves a 64-bit range
    ([find_lca_correct]); the downloads one per height, since each batch advances
    ([run_ibd_safe]); peer discovery its number of retries; the filling of a generated block the
    attempts left for each payment ([filling_terminates]); the binary search one per element;
    the names of a backup one per file of the directory ([backup_preserves]); the wait for a
    confirmation one poll per second of its timeout ([wait_ends]).

    ** Not modelled

    The line editor of the wallet and what it prints. The options, panics and failure callback of the RocksDB handle; its flag of a failed read
    is set by the handling of the fatal error the read returns. The settings of the libp2p
    behaviours and the transport; the routing of the HTTP server; the command lines of the node and of the
    generator, configuration files and TLS; logging and metrics. They are input and output around third-party event loops
    and files. *)
From stdpp Require Export base tactics option list numbers gmap sets strings countable sorting.
From Stdlib Require Export ZArith Lia.
From Stdlib Require Strings.Byte.

#[global] Open Scope Z_scope.

(** * Results: Rust's [Result<A, E>] *)

Inductive result (E A : Type) : Type :=
| Ok (a : A)
| Err (e : E).
Arguments Ok {E A} a.
Arguments Err {E A} e.

#[export] Instance result_ret (E : Type) : MRet (result E) := fun A a => Ok a.
#[export] Instance result_bind (E : Type) : MBind (result E) :=
  fun A B k m => match m with Ok a => k a | Err e => Err e end.
#[export] Instance result_fmap (E : Type) : FMap (result E) :=
  fun A B f m => match m with Ok a => Ok (f a) | Err e => Err e end.

#[export] Instance result_eq_dec (E A : Type) `{EqDecision E} `{EqDecision A} :
  EqDecision (result E A).
Proof. solve_decision. Defined.

(** [Result::map_err] and [Option::ok_or]. *)
Definition map_err {E F A : Type} (f : E -> F) (m : result E A) : result F A :=
  match m with Ok a => Ok a | Err e => Err (f e) end.

Definition ok_or {E A : Type} (o : option A) (e : E) : result E A :=
  match o with Some a => Ok a | None => Err e end.

Definition is_ok {E A : Type} (m : result E A) : bool :=
  match m with Ok _ => true | Err _ => false end.

(** [if cond { return Err(e) }]. *)
Definition ensure {E : Type} (b : bool) (e : E) : result E unit :=
  if b then Ok tt else Err e.

(** A [for] loop whose body can return early with an error. *)
Fixpoint fold_res {E S A : Type} (f : S -> A -> result E S) (s : S) (l : list A) : result E S :=
  match l with
  | [] => Ok s
  | a :: l => s' ← f s a; fold_res f s' l
  end.

Section Results.
Context {E S A B : Type}.
Implicit Types (m : result E A) (k : A -> result E B) (l : list A).

Lemma bind_Ok m k b : (m ≫= k) = Ok b <-> exists a, m = Ok a /\ k a = Ok b.
Proof. destruct m; cbn; naive_solver. Qed.

Lemma bind_Err m k e :
  (m ≫= k) = Err e <-> m = Err e \/ exists a, m = Ok a /\ k a = Err e.
Proof. destruct m; cbn; naive_solver. Qed.

Lemma ok_or_Ok (o : option A) (e : E) a : ok_or o e = Ok a <-> o = Some a.
Proof. destruct o; cbn; naive_solver. Qed.

Lemma ok_or_Err (o : option A) (e e' : E) : ok_or o e = Err e' <-> o = None /\ e = e'.
Proof. destruct o; cbn; naive_solver. Qed.

Lemma ensure_Ok (b : bool) (e : E) u : ensure b e = Ok u <-> b = true.
Proof. destruct b, u; cbn; naive_solver. Qed.

Lemma ensure_Err (b : bool) (e e' : E) : ensure b e = Err e' <-> b = false /\ e = e'.
Proof. destruct b; cbn; naive_solver. Qed.

Lemma map_err_Ok {F} (f : E -> F) m a : map_err f m = Ok a <-> m = Ok a.
Proof. destruct m; cbn; naive_solver. Qed.

Lemma map_err_Err {F} (f : E -> F) m e : map_err f m = Err e <-> exists e', m = Err e' /\ f e' = e.
Proof. destruct m; cbn; naive_solver. Qed.

Lemma fold_res_app (f : S -> A -> result E S) s l1 l2 :
  fold_res f s (l1 ++ l2) = (s' ← fold_res f s l1; fold_res f s' l2).
Proof. revert s; induction l1 as [|a l1 IH]; intros s; cbn; [done|]. destruct (f s a); cbn; auto. Qed.

Lemma fold_res_inv (f : S -> A -> result E S) (I : S -> Prop) s l s' :
  I s -> (forall s1 a s2, a ∈ l -> I s1 -> f s1 a = Ok s2 -> I s2) ->
  fold_res f s l = Ok s' -> I s'.
Proof.
  revert s; induction l as [|a l IH]; intros s Hs Hstep; cbn; [naive_solver|].
  destruct (f s a) as [s1|] eqn:Hf; cbn; [|done].
  intros Hl. apply (IH s1); [| |done].
  - apply (Hstep s a s1); [set_solver|done|done].
  - intros s2 x s3 Hx. apply Hstep. set_solver.
Qed.
End Results.

(** Decompose every hypothesis of the shape [<result computation> = Ok _ / Err _]. *)
Ltac res_step :=
  match goal with
  | H : (_ ≫= _) = Ok _ |- _ =>
      let x := fresh "r" in let Hx := fresh "Hr" in
      apply bind_Ok in H as (x & Hx & H); cbn beta in H
  | H : ok_or _ _ = Ok _ |- _ => apply ok_or_Ok in H
  | H : ensure _ _ = Ok _ |- _ => apply ensure_Ok in H
  | H : map_err _ _ = Ok _ |- _ => apply map_err_Ok in H
  | H : mret _ = Ok _ |- _ => injection H as H
  | H : Ok _ = Ok _ |- _ => injection H as H
  | H : Err _ = Ok _ |- _ => discriminate H
  | H : Ok _ = Err _ |- _ => discriminate H
  | x : unit |- _ => destruct x
  end.
Ltac res_inv := repeat (res_step; simplify_eq).

(** Boolean guards to propositions. *)
Ltac bool_inv :=
  repeat match goal with
  | H : andb _ _ = true |- _ => apply andb_prop in H as [? H]
  | H : orb _ _ = false |- _ => apply orb_false_elim in H as [? H]
  | H : negb _ = true |- _ => apply negb_true_iff in H
  | H : negb _ = false |- _ => apply negb_false_iff in H
  | H : bool_decide _ = true |- _ => apply bool_decide_eq_true in H
  | H : bool_decide _ = false |- _ => apply bool_decide_eq_false in H
  | H : (_ =? _) = true |- _ => apply Z.eqb_eq in H
  | H : (_ =? _) = false |- _ => apply Z.eqb_neq in H
  | H : (_ <? _) = true |- _ => apply Z.ltb_lt in H
  | H : (_ <? _) = false |- _ => apply Z.ltb_ge in H
  | H : (_ <=? _) = true |- _ => apply Z.leb_le in H
  | H : (_ <=? _) = false |- _ => apply Z.leb_gt in H
  end.

(** * Machine integers

    A [w]-bit unsigned integer is a [Z] with [in_uint w]. The release profile of
    the workspace wraps on overflow; the [checked_], [saturating_] operations are
    the methods the code calls explicitly. *)

Definition in_uint (w x : Z) : Prop := 0 <= x < 2 ^ w.
Abbreviation in_u16 := (in_uint 16).
Abbreviation in_u32 := (in_uint 32).
Abbreviation in_u64 := (in_uint 64).
Abbreviation in_u256 := (in_uint 256).
Abbreviation in_u512 := (in_uint 512).

Definition wrap (w x : Z) : Z := x mod 2 ^ w.

Definition uint_max (w : Z) : Z := 2 ^ w - 1.

Definition checked_add (w x y : Z) : option Z :=
  if x + y <? 2 ^ w then Some (x + y) else None.
Definition checked_sub (x y : Z) : option Z :=
  if y <=? x then Some (x - y) else None.
Definition saturating_add (w x y : Z) : Z := Z.min (x + y) (uint_max w).
Definition saturating_sub (x y : Z) : Z := Z.max (x - y) 0.
Definition saturating_mul (w x y : Z) : Z := Z.min (x * y) (uint_max w).

#[export] Instance in_uint_dec w x : Decision (in_uint w x).
Proof. unfold in_uint. apply _. Defined.

Section MachineInts.
Context (w : Z).

Lemma wrap_range x : 0 <= w -> in_uint w (wrap w x).
Proof. intros. apply Z.mod_pos_bound. apply Z.pow_pos_nonneg; lia. Qed.

Lemma wrap_small x : in_uint w x -> wrap w x = x.
Proof. apply Z.mod_small. Qed.

Lemma checked_add_Some x y z : checked_add w x y = Some z <-> z = x + y /\ x + y < 2 ^ w.
Proof. unfold checked_add. destruct (Z.ltb_spec (x + y) (2 ^ w)); naive_solver lia. Qed.

Lemma checked_add_None x y : checked_add w x y = None <-> 2 ^ w <= x + y.
Proof. unfold checked_add. destruct (Z.ltb_spec (x + y) (2 ^ w)); naive_solver lia. Qed.

Lemma checked_sub_Some x y z : checked_sub x y = Some z <-> z = x - y /\ y <= x.
Proof. unfold checked_sub. destruct (Z.leb_spec y x); naive_solver lia. Qed.
End MachineInts.

(** * Sums over lists and finite maps *)

Definition zsum (l : list Z) : Z := foldr Z.add 0 l.

Lemma zsum_app l1 l2 : zsum (l1 ++ l2) = zsum l1 + zsum l2.
Proof. unfold zsum. induction l1 as [|x l1 IH]; cbn in *; lia. Qed.

Lemma zsum_cons x l : zsum (x :: l) = x + zsum l.
Proof. reflexivity. Qed.

Lemma zsum_nonneg l : Forall (fun x => 0 <= x) l -> 0 <= zsum l.
Proof. unfold zsum. induction 1 as [|x l Hx _ IH]; cbn in *; lia. Qed.

#[export] Instance zsum_perm : Proper (Permutation ==> eq) zsum.
Proof. intros l1 l2 H. unfold zsum. induction H; cbn in *; lia. Qed.

Section MapSum.
Context {K : Type} `{Countable K} {V : Type} (f : V -> Z).
Implicit Types (m : gmap K V).

Definition map_zsum (m : gmap K V) : Z := zsum (f <$> (map_to_list m).*2).

Lemma map_zsum_empty : map_zsum ∅ = 0.
Proof. unfold map_zsum. by rewrite map_to_list_empty. Qed.

Lemma map_zsum_insert m k v : m !! k = None -> map_zsum (<[k:=v]> m) = f v + map_zsum m.
Proof. intros Hk. unfold map_zsum. by rewrite (map_to_list_insert m k v Hk). Qed.

Lemma map_zsum_delete m k v : m !! k = Some v -> map_zsum (delete k m) = map_zsum m - f v.
Proof.
  intros Hk. rewrite <-(insert_delete_id m k v Hk) at 2.
  rewrite map_zsum_insert by apply lookup_delete_eq. lia.
Qed.

Lemma map_zsum_nonneg m : map_Forall (fun _ v => 0 <= f v) m -> 0 <= map_zsum m.
Proof.
  induction m as [|k v m Hk IH] using map_ind; intros Hm.
  - by rewrite map_zsum_empty.
  - apply map_Forall_insert in Hm as [Hv Hm]; [|done].
    rewrite map_zsum_insert by done. specialize (IH Hm). lia.
Qed.

Lemma map_zsum_insert_le m k v :
  map_Forall (fun _ v => 0 <= f v) m -> map_zsum (<[k:=v]> m) <= f v + map_zsum m.
Proof.
  intros Hm. destruct (m !! k) as [v'|] eqn:Hk.
  - rewrite <-insert_delete_eq. rewrite map_zsum_insert by apply lookup_delete_eq.
    rewrite (map_zsum_delete m k v') by done. specialize (Hm k v' Hk). cbn in Hm. lia.
  - rewrite map_zsum_insert by done. lia.
Qed.
End MapSum.

(** * Batched map updates: [HashMap::extend] and repeated [remove] *)

Section MapBatch.
Context {K : Type} `{Countable K} {V : Type}.
Implicit Types (m : gmap K V) (l : list (K * V)) (ks : list K).

Definition put_all (m : gmap K V) (l : list (K * V)) : gmap K V :=
  foldl (fun m kv => <[kv.1 := kv.2]> m) m l.
Definition remove_all (m : gmap K V) (ks : list K) : gmap K V :=
  foldl (fun m k => delete k m) m ks.

Lemma put_all_app m l1 l2 : put_all m (l1 ++ l2) = put_all (put_all m l1) l2.
Proof. apply foldl_app. Qed.

Lemma put_all_nodup m l : NoDup l.*1 -> put_all m l = list_to_map l ∪ m.
Proof.
  revert m. induction l as [|[k v] l IH]; intros m Hnd; cbn; [by rewrite (left_id_L ∅ (∪))|].
  apply NoDup_cons in Hnd as [Hk Hnd]. cbn in Hk.
  change (put_all (<[k:=v]> m) l = <[k:=v]> (list_to_map l) ∪ m).
  rewrite IH by done. rewrite <-insert_union_r by (by apply not_elem_of_list_to_map_1).
  by rewrite insert_union_l.
Qed.

Lemma put_all_map m (m2 : gmap K V) : put_all m (map_to_list m2) = m2 ∪ m.
Proof. rewrite put_all_nodup by apply NoDup_fst_map_to_list. by rewrite list_to_map_to_list. Qed.

Lemma put_all_lookup_notin m l k : k ∉ l.*1 -> put_all m l !! k = m !! k.
Proof.
  revert m. induction l as [|[k' v] l IH]; intros m Hk; cbn in *; [done|].
  change (put_all (<[k':=v]> m) l !! k = m !! k).
  rewrite IH by set_solver. apply lookup_insert_ne. set_solver.
Qed.

Lemma remove_all_lookup m ks k : remove_all m ks !! k = if decide (k ∈ ks) then None else m !! k.
Proof.
  revert m. induction ks as [|k' ks IH]; intros m; cbn.
  - by rewrite decide_False by set_solver.
  - change (remove_all (delete k' m) ks !! k = if decide (k ∈ k' :: ks) then None else m !! k).
    rewrite IH. destruct (decide (k = k')) as [->|Hne].
    + rewrite (decide_True _ _ (P := k' ∈ k' :: ks)) by set_solver.
      case_decide; [done|]. apply lookup_delete_eq.
    + rewrite lookup_delete_ne by done. repeat case_decide; set_solver.
Qed.

Lemma remove_all_set m ks : remove_all m ks = filter (fun kv => kv.1 ∉ ks) m.
Proof.
  apply map_eq. intros k. rewrite remove_all_lookup.
  rewrite map_lookup_filter. destruct (m !! k) as [v|] eqn:Hk; cbn; repeat case_decide; cbn.
  all: try done.
  all: by rewrite ?option_guard_False, ?option_guard_True.
Qed.
End MapBatch.

(** * [slice::chunks] *)

Fixpoint chunks_aux {A} (fuel n : nat) (l : list A) : list (list A) :=
  match fuel, l with
  | S fuel, _ :: _ => take n l :: chunks_aux fuel n (drop n l)
  | _, _ => []
  end.
Definition chunks {A} (n : nat) (l : list A) : list (list A) := chunks_aux (length l) n l.

Section Chunks.
Context {A : Type} (n : nat).
Implicit Types l : list A.

Lemma chunks_aux_enough f1 f2 l :
  (0 < n)%nat -> (length l <= f1)%nat -> (length l <= f2)%nat -> chunks_aux f1 n l = chunks_aux f2 n l.
Proof.
  intros Hn. revert f2 l. induction f1 as [|f1 IH]; intros f2 l H1 H2.
  - destruct l; [|cbn in H1; lia]. by destruct f2.
  - destruct f2 as [|f2]; [destruct l; [done|cbn in H2; lia]|].
    destruct l as [|a l]; [done|]. cbn [chunks_aux]. f_equal.
    apply IH; rewrite length_drop; cbn in *; lia.
Qed.

Lemma chunks_step l : (0 < n)%nat -> l <> [] -> chunks n l = take n l :: chunks n (drop n l).
Proof.
  intros Hn Hl. unfold chunks. destruct l as [|a l]; [done|]. cbn [length chunks_aux]. f_equal.
  apply chunks_aux_enough; [done| |]; rewrite length_drop; cbn; lia.
Qed.

Lemma chunks_nil : chunks n (@nil A) = [].
Proof. done. Qed.
End Chunks.

(** * Sorted lists by position *)

Lemma StronglySorted_lookup_lt {A} (R : A -> A -> Prop) l i j x y :
  StronglySorted R l -> l !! i = Some x -> l !! j = Some y -> (i < j)%nat -> R x y.
Proof.
  intros Hs. revert i j. induction Hs as [|a l Hs IH Hf]; intros i j Hi Hj Hlt; [done|].
  destruct j as [|j]; [lia|]. destruct i as [|i]; cbn in *.
  - injection Hi as ->. rewrite Forall_forall in Hf. apply Hf. by apply list_elem_of_lookup_2 in Hj.
  - apply (IH i j); [done|done|lia].
Qed.

(** * Iteration of hash maps and sets *)

(** The order in which a [HashMap] or [DashMap] yields its entries: some order, each once. *)
Class HashIteration := {
  hash_iter : forall {K : Type} `{Countable K} {V : Type}, gmap K V -> list (K * V);
}.
Class HashIterationLaws `{HashIteration} : Prop := {
  hash_iter_perm {K : Type} `{Countable K} {V : Type} (m : gmap K V) : hash_iter m ≡ₚ map_to_list m;
}.

(** A [HashSet] is a map to units. *)
Definition set_iter `{HashIteration} {K : Type} `{Countable K} (s : gset K) : list K :=
  (hash_iter (gset_to_gmap tt s)).*1.

Section HashIteration.
Context `{HashIterationLaws} {K : Type} `{Countable K}.

Lemma elem_of_hash_iter {V} (m : gmap K V) k v : (k, v) ∈ hash_iter m <-> m !! k = Some v.
Proof. by rewrite hash_iter_perm, elem_of_map_to_list. Qed.

Lemma hash_iter_nodup {V} (m : gmap K V) : NoDup (hash_iter m).*1.
Proof. rewrite hash_iter_perm. apply NoDup_fst_map_to_list. Qed.

Lemma elem_of_set_iter (s : gset K) k : k ∈ set_iter s <-> k ∈ s.
Proof.
  unfold set_iter. rewrite list_elem_of_fmap. split.
  - intros ([k' []] & -> & Hin). apply elem_of_hash_iter, lookup_gset_to_gmap_Some in Hin as [Hin _]. done.
  - intros Hin. exists (k, tt). split; [done|]. apply elem_of_hash_iter. by apply lookup_gset_to_gmap_Some.
Qed.

Lemma set_iter_nodup (s : gset K) : NoDup (set_iter s).
Proof. apply hash_iter_nodup. Qed.
End HashIteration.

(** The order of the finite map's own enumeration. *)
Module MapOrder.
#[export] Instance map_order : HashIteration := {| hash_iter _ _ _ _ m := map_to_list m |}.
#[export] Instance map_order_laws : HashIterationLaws.
Proof. split. done. Qed.
End MapOrder.
