(* ===== verification/Bytes.v ===== *)
(** Bytes: the byte type, fixed-size arrays [[u8; N]], and the little- and
    big-endian codecs of unsigned integers ([to_le_bytes], [from_le_slice],
    [from_be_slice]) with their round trips. *)
From S2P Require Import Prelude.
From Stdlib Require Import Strings.Byte.

Abbreviation byte := Byte.byte.

#[export] Instance byte_eq_dec : EqDecision byte := Byte.byte_eq_dec.
#[export] Instance byte_countable : Countable byte :=
  inj_countable Byte.to_N Byte.of_N Byte.of_to_N.

(** The value of a [u8], and [z as u8]. *)
Definition byte_val (b : byte) : Z := Z.of_N (Byte.to_N b).
Definition byte_of (z : Z) : byte := default x00 (Byte.of_N (Z.to_N (z mod 256))).

Lemma byte_val_range b : 0 <= byte_val b < 256.
Proof. unfold byte_val. pose proof (Byte.to_N_bounded b). lia. Qed.

Lemma byte_val_of z : byte_val (byte_of z) = z mod 256.
Proof.
  unfold byte_val, byte_of. pose proof (Z.mod_pos_bound z 256 ltac:(lia)) as Hr.
  destruct (Byte.of_N (Z.to_N (z mod 256))) as [b|] eqn:Hb; cbn.
  - apply Byte.to_of_N in Hb. lia.
  - apply Byte.of_N_None_iff in Hb. lia.
Qed.

Lemma byte_of_val b : byte_of (byte_val b) = b.
Proof.
  unfold byte_of. rewrite Z.mod_small by apply byte_val_range.
  unfold byte_val. rewrite N2Z.id, Byte.of_to_N. done.
Qed.

(** * Fixed-size arrays *)

Record array (n : nat) : Type := mk_array {
  arr : list byte;
  arr_len : bool_decide (length arr = n);
}.
Arguments mk_array {n} _ _.
Arguments arr {n} _.

Lemma array_length {n} (a : array n) : length (arr a) = n.
Proof. destruct a as [l Hl]. exact (bool_decide_unpack _ Hl). Qed.

Lemma array_eq {n} (a b : array n) : arr a = arr b -> a = b.
Proof.
  destruct a as [l Hl], b as [l' Hl']; cbn. intros ->. f_equal. apply proof_irrel.
Qed.

(** [<[u8; N]>::try_from(slice)] *)
Definition array_of (n : nat) (l : list byte) : option (array n) :=
  match decide (length l = n) with
  | left H => Some (mk_array l (bool_decide_pack _ H))
  | right _ => None
  end.

Lemma array_of_Some n l a : array_of n l = Some a <-> arr a = l.
Proof.
  unfold array_of. split.
  - destruct (decide (length l = n)); naive_solver.
  - intros <-. destruct (decide _) as [H|H].
    + f_equal. by apply array_eq.
    + by destruct H; apply array_length.
Qed.

Lemma array_of_None n l : array_of n l = None <-> length l <> n.
Proof. unfold array_of. destruct (decide (length l = n)); naive_solver. Qed.

Lemma array_of_arr {n} (a : array n) : array_of n (arr a) = Some a.
Proof. by apply array_of_Some. Qed.

#[export] Instance array_eq_dec n : EqDecision (array n).
Proof.
  intros a b. destruct (decide (arr a = arr b)) as [H|H].
  - left. by apply array_eq.
  - right. by intros ->.
Defined.

(** [[0u8; N]] *)
Definition zeros (n : nat) : array n :=
  mk_array (replicate n x00) (bool_decide_pack _ (length_replicate n x00)).

(** * Integer codecs *)

Fixpoint le_bytes (n : nat) (z : Z) : list byte :=
  match n with
  | O => []
  | S n => byte_of z :: le_bytes n (z / 256)
  end.

Fixpoint le_val (l : list byte) : Z :=
  match l with
  | [] => 0
  | b :: l => byte_val b + 256 * le_val l
  end.

Definition be_bytes (n : nat) (z : Z) : list byte := rev (le_bytes n z).
Definition be_val (l : list byte) : Z := le_val (rev l).

Lemma le_bytes_length n z : length (le_bytes n z) = n.
Proof. revert z; induction n as [|n IH]; intros z; cbn; [done|]. by rewrite IH. Qed.

Lemma le_val_bytes n z : le_val (le_bytes n z) = z mod 256 ^ Z.of_nat n.
Proof.
  revert z; induction n as [|n IH]; intros z; cbn [le_bytes le_val].
  - by rewrite Z.mod_1_r.
  - rewrite byte_val_of, IH, Nat2Z.inj_succ, Z.pow_succ_r by lia.
    rewrite Z.rem_mul_r by (apply Z.pow_nonzero || apply Z.pow_pos_nonneg || idtac; lia). done.
Qed.

Lemma le_val_range l : 0 <= le_val l < 256 ^ Z.of_nat (length l).
Proof.
  induction l as [|b l IH]; cbn [le_val length]; [cbn; lia|].
  rewrite Nat2Z.inj_succ, Z.pow_succ_r by lia. pose proof (byte_val_range b). lia.
Qed.

Lemma le_bytes_val l : le_bytes (length l) (le_val l) = l.
Proof.
  induction l as [|b l IH]; cbn [le_val le_bytes length]; [done|].
  pose proof (byte_val_range b) as Hb. f_equal.
  - rewrite <-(byte_of_val b) at 2. unfold byte_of. do 3 f_equal.
    rewrite Z.mul_comm, Z.mod_add by lia. done.
  - rewrite Z.mul_comm, Z.div_add by lia. rewrite Z.div_small by lia. done.
Qed.

Lemma le_val_bytes_small n z : 0 <= z < 256 ^ Z.of_nat n -> le_val (le_bytes n z) = z.
Proof. intros. rewrite le_val_bytes. by apply Z.mod_small. Qed.

Lemma le_bytes_inj n z1 z2 :
  0 <= z1 < 256 ^ Z.of_nat n -> 0 <= z2 < 256 ^ Z.of_nat n ->
  le_bytes n z1 = le_bytes n z2 -> z1 = z2.
Proof.
  intros H1 H2 Heq. rewrite <-(le_val_bytes_small n z1), <-(le_val_bytes_small n z2) by done.
  by rewrite Heq.
Qed.

Lemma le_val_inj l1 l2 : length l1 = length l2 -> le_val l1 = le_val l2 -> l1 = l2.
Proof. intros Hl Hv. rewrite <-(le_bytes_val l1), <-(le_bytes_val l2). by rewrite Hl, Hv. Qed.

Lemma be_val_range l : 0 <= be_val l < 256 ^ Z.of_nat (length l).
Proof. unfold be_val. rewrite <-(length_rev l). apply le_val_range. Qed.

Lemma be_val_bytes n z : be_val (be_bytes n z) = z mod 256 ^ Z.of_nat n.
Proof. unfold be_val, be_bytes. rewrite rev_involutive. apply le_val_bytes. Qed.

Lemma pow256 n : 256 ^ Z.of_nat n = 2 ^ (8 * Z.of_nat n).
Proof. change 256 with (2 ^ 8). rewrite <-Z.pow_mul_r by lia. done. Qed.

(** The bytes of an [array] seen as an integer below [2^(8n)]. *)
Definition array_le (n : nat) (z : Z) : array n :=
  mk_array (le_bytes n z) (bool_decide_pack _ (le_bytes_length n z)).

Lemma array_le_val {n} (a : array n) : array_le n (le_val (arr a)) = a.
Proof.
  apply array_eq. cbn. rewrite <-(array_length a) at 1. apply le_bytes_val.
Qed.

#[export] Instance array_countable n : Countable (array n) :=
  inj_countable' (fun a => le_val (arr a)) (array_le n) array_le_val.

Lemma array_le_inj n z1 z2 :
  0 <= z1 < 256 ^ Z.of_nat n -> 0 <= z2 < 256 ^ Z.of_nat n ->
  array_le n z1 = array_le n z2 -> z1 = z2.
Proof. intros H1 H2 Heq. apply (le_bytes_inj n); [done|done|]. exact (f_equal arr Heq). Qed.
