(* ===== verification/Types.v ===== *)
(** Types: the data of [stryi_core]. Typed hashes, transactions, blocks, UTXOs,
    the genesis parameters, undo records and the two error enums, with decidable
    equality and countability so that they can key the maps and sets of the code. *)
From S2P Require Import Prelude Bytes.

(** * Typed hashes ([hash.rs])

    A [HashKind] fixes the digest size and the display prefix. [Hash K] is the
    digest tagged with its kind. *)

Record HashKind := mk_HashKind { hk_size : nat; hk_prefix : string }.

Record Hash (K : HashKind) := mk_Hash { hash_data : array (hk_size K) }.
Arguments mk_Hash {K} _.
Arguments hash_data {K} _.

#[export] Instance Hash_eq_dec K : EqDecision (Hash K).
Proof. solve_decision. Defined.
#[export] Instance Hash_countable K : Countable (Hash K) :=
  inj_countable' hash_data mk_Hash ltac:(by intros []).

Definition BlockHashKind : HashKind := mk_HashKind 32 "Bx".
Definition TransactionHasher : HashKind := mk_HashKind 32 "Tx".
Definition AddressHasher : HashKind := mk_HashKind 20 "@".
Definition MerkleRootHashKind : HashKind := mk_HashKind 32 "MKR".

Abbreviation BlockHash := (Hash BlockHashKind).
Abbreviation TransactionHash := (Hash TransactionHasher).
Abbreviation AccountAddress := (Hash AddressHasher).
Abbreviation MerkleHash := (Hash MerkleRootHashKind).

(** [BlockHash::empty()] and [MerkleHash::empty()]: all-zero digests. *)
Definition BlockHash_empty : BlockHash := @mk_Hash BlockHashKind (zeros 32).
Definition MerkleHash_empty : MerkleHash := @mk_Hash MerkleRootHashKind (zeros 32).

(** * Transactions ([transactions/mod.rs], [transactions/utxo.rs]) *)

Record OutPoint := mk_OutPoint { txid : TransactionHash; vout : Z }.

Record TransactionIn := mk_TransactionIn { previous_output : OutPoint; sequence : Z }.

Record TransactionOut := mk_TransactionOut { value : Z; recipient : AccountAddress }.

Record UTXO := mk_UTXO {
  utxo_txid : TransactionHash;
  utxo_vout : Z;
  utxo_value : Z;
  owner : AccountAddress;
}.

Inductive TransactionKind :=
| Coinbase (height : Z) (parent : BlockHash)
| Genesis
| Payment.

Record TransactionData := mk_TransactionData {
  tx_version : Z;
  kind : TransactionKind;
  inputs : list TransactionIn;
  outputs : list TransactionOut;
}.

(** A 65-byte recoverable signature: recovery id, then [r] and [s]. *)
Abbreviation StryiSignature := (array 65).

Record Transaction := mk_Transaction { tx_data : TransactionData; signature : StryiSignature }.

#[export] Instance OutPoint_eq_dec : EqDecision OutPoint.
Proof. solve_decision. Defined.
#[export] Instance OutPoint_countable : Countable OutPoint :=
  inj_countable' (fun o => (txid o, vout o)) (fun p => mk_OutPoint p.1 p.2) ltac:(by intros []).
#[export] Instance TransactionIn_eq_dec : EqDecision TransactionIn.
Proof. solve_decision. Defined.
#[export] Instance TransactionIn_countable : Countable TransactionIn :=
  inj_countable' (fun i => (previous_output i, sequence i)) (fun p => mk_TransactionIn p.1 p.2)
    ltac:(by intros []).
#[export] Instance TransactionOut_eq_dec : EqDecision TransactionOut.
Proof. solve_decision. Defined.
#[export] Instance TransactionOut_countable : Countable TransactionOut :=
  inj_countable' (fun o => (value o, recipient o)) (fun p => mk_TransactionOut p.1 p.2)
    ltac:(by intros []).
#[export] Instance UTXO_eq_dec : EqDecision UTXO.
Proof. solve_decision. Defined.
#[export] Instance UTXO_countable : Countable UTXO :=
  inj_countable' (fun u => (utxo_txid u, utxo_vout u, utxo_value u, owner u))
    (fun '(t, v, x, o) => mk_UTXO t v x o) ltac:(by intros []).
#[export] Instance TransactionKind_eq_dec : EqDecision TransactionKind.
Proof. solve_decision. Defined.
#[export] Instance TransactionKind_countable : Countable TransactionKind :=
  inj_countable'
    (fun k => match k with Coinbase h p => inl (h, p) | Genesis => inr true | Payment => inr false end)
    (fun s => match s with inl (h, p) => Coinbase h p | inr true => Genesis | inr false => Payment end)
    ltac:(by intros []).
#[export] Instance TransactionData_eq_dec : EqDecision TransactionData.
Proof. solve_decision. Defined.
#[export] Instance TransactionData_countable : Countable TransactionData :=
  inj_countable' (fun d => (tx_version d, kind d, inputs d, outputs d))
    (fun '(v, k, i, o) => mk_TransactionData v k i o) ltac:(by intros []).
#[export] Instance Transaction_eq_dec : EqDecision Transaction.
Proof. solve_decision. Defined.
#[export] Instance Transaction_countable : Countable Transaction :=
  inj_countable' (fun t => (tx_data t, signature t)) (fun p => mk_Transaction p.1 p.2)
    ltac:(by intros []).

Definition is_payment (t : Transaction) : bool := bool_decide (kind (tx_data t) = Payment).

(** [matches!(kind, TransactionKind::Coinbase { .. })] *)
Definition is_coinbase (t : Transaction) : bool :=
  match kind (tx_data t) with Coinbase _ _ => true | _ => false end.

(** * Consensus parameters ([difficulty.rs], [consensus/rules.rs]) *)

Record PowParams := mk_PowParams {
  target_spacing_secs : Z;
  half_life_secs : Z;
  initial_hash_threshold : Z;
  max_hash_threshold : Z;
}.

Record ConsensusConsts := mk_ConsensusConsts {
  pow : PowParams;
  initial_subsidy : Z;
  decay_interval : Z;
  decay_step : Z;
}.

Record GenesisState := mk_GenesisState { consensus_consts : ConsensusConsts }.

(** * Blocks ([block/mod.rs]) *)

Record BlockHeader := mk_BlockHeader {
  version : Z;
  merkle_root_hash : MerkleHash;
  previous_block_hash : BlockHash;
  height : Z;
  hash_threshold : Z;
  timestamp : Z;
  nonce : Z;
  genesis_state : option GenesisState;
}.

Record Block := mk_Block { header : BlockHeader; transactions : list Transaction }.

#[export] Instance PowParams_eq_dec : EqDecision PowParams.
Proof. solve_decision. Defined.
#[export] Instance ConsensusConsts_eq_dec : EqDecision ConsensusConsts.
Proof. solve_decision. Defined.
#[export] Instance GenesisState_eq_dec : EqDecision GenesisState.
Proof. solve_decision. Defined.
#[export] Instance BlockHeader_eq_dec : EqDecision BlockHeader.
Proof. solve_decision. Defined.
#[export] Instance Block_eq_dec : EqDecision Block.
Proof. solve_decision. Defined.

(** [BlockHeader::is_genesis] and [Block::is_genesis]. *)
Definition header_is_genesis (h : BlockHeader) : bool := bool_decide (is_Some (genesis_state h)).
Definition is_genesis (b : Block) : bool := bool_decide (is_Some (genesis_state (header b))).

(** The machine types of the header fields ([u16], [u64], [U256], [u64], [u32]). *)
Definition header_typed (h : BlockHeader) : Prop :=
  in_u16 (version h) /\ in_u64 (height h) /\ in_u256 (hash_threshold h) /\
  in_u64 (timestamp h) /\ in_u32 (nonce h).

(** * Undo records ([undo.rs]) *)

Record BlockUndo := mk_BlockUndo {
  spent_utxos : gset (OutPoint * UTXO);
  created_outpoints : gset OutPoint;
}.

#[export] Instance BlockUndo_eq_dec : EqDecision BlockUndo.
Proof. solve_decision. Defined.

(** * Errors ([storage/mod.rs], [error.rs])

    Backend causes ([dyn Error]) and foreign error values are carried as their
    rendered text; a message built with [format!] is its template. *)

Inductive StorageError :=
| UtxoNotFound (op : OutPoint)
| BlockNotFound (h : BlockHash)
| HeightMissing (h : Z)
| Uninitialized
| InvalidRange (start stop : Z)
| InvalidTransition (msg : string)
| UnsupportedSchema (v : Z)
| Corruption (msg : string)
| Backend (operation source : string)
| Commit (source : string)
| Unhealthy.

(** [StorageError::is_fatal] *)
Definition storage_is_fatal (e : StorageError) : bool :=
  match e with
  | Corruption _ | Backend _ _ | Commit _ | Unhealthy => true
  | _ => false
  end.

Inductive StorageLayer := LUtxo | LBlock | LStats | LUndo | LOther.

Inductive StryiCoreError :=
| InvalidPrefix (expected actual : string)
| InvalidHex (e : string)
| InvalidLength (expected actual : Z)
| TxInvalidSignature
| TxMissingUtxo (txid : TransactionHash) (vout : Z)
| TxWrongOwner (expected actual : AccountAddress)
| TxInsufficientInputValue (input_sum output_sum : Z)
| TxDoubleSpend (txid : TransactionHash) (vout : Z)
| InvalidSignature (msg : string)
| InvalidPrivateKey (msg : string)
| ConsensusValidationFailed (details : string)
| ConsensusBlockApplyingFailed (details : string)
| ConsensusDifficultyAdjustmentFailed (details : string)
| ConsensusChainSelectionFailed (details : string)
| ConsensusInvalidCoinbaseAmount (max_expected actual : Z)
| InvalidDifficultyValue (details : string)
| TransactionDependencyError (msg : string)
| CannotBuildChainIndex (msg : string)
| CoreStorageError (layer : StorageLayer) (err : StorageError)
| Other (msg : string).

#[export] Instance StorageError_eq_dec : EqDecision StorageError.
Proof. solve_decision. Defined.
#[export] Instance StorageLayer_eq_dec : EqDecision StorageLayer.
Proof. solve_decision. Defined.
#[export] Instance StryiCoreError_eq_dec : EqDecision StryiCoreError.
Proof. solve_decision. Defined.

(** [StryiCoreError::is_fatal] *)
Definition core_is_fatal (e : StryiCoreError) : bool :=
  match e with CoreStorageError _ err => storage_is_fatal err | _ => false end.

(** [error.to_string()] of a core error, the text a storage error keeps when it
    wraps one. Only the variants the storage layer wraps carry their text. *)
Definition core_error_text (e : StryiCoreError) : string :=
  match e with
  | ConsensusValidationFailed d => "Block validation failed: " +:+ d
  | ConsensusChainSelectionFailed d => "Chain selection failed: " +:+ d
  | InvalidDifficultyValue d => "Invalid difficulty value : " +:+ d
  | _ => ""
  end.
