(* ===== verification/Externals.v ===== *)
(** Externals: the third-party crates the core calls, as one typeclass of
    operations, their documented behaviour as classes of laws, and a concrete
    instance ([Toy]) on which the witnesses are evaluated. *)
From S2P Require Import Prelude Bytes Types.

(** The outcome of [HashX::new(seed)]. *)
Inductive hashx_outcome (P : Type) :=
| HashXBuilt (p : P)
| HashXProgramConstraints
| HashXOtherError.
Arguments HashXBuilt {P} _.
Arguments HashXProgramConstraints {P}.
Arguments HashXOtherError {P}.

Class Externals := {
  (** blake3: [update] the bytes, then [finalize_xof] into [n] bytes. *)
  blake3_xof : forall n : nat, list byte -> array n;

  (** hashx: program compilation and evaluation. [hashx_retries data] bounds the
      number of re-hashes the crate needs before it accepts a seed. *)
  HashX : Type;
  hashx_new : list byte -> hashx_outcome HashX;
  hashx_hash_to_bytes : HashX -> Z -> array 32;
  hashx_retries : list byte -> nat;

  (** hex: [encode], and [decode] with the crate's error rendered as text. *)
  hex_encode : list byte -> string;
  hex_decode : string -> result string (list byte);

  (** postcard: [to_stdvec] of the two derived [Serialize] types that are hashed. *)
  postcard_tx_data : TransactionData -> list byte;
  postcard_tx : Transaction -> list byte;

  (** k256 ECDSA. *)
  SigningKey : Type;
  VerifyingKey : Type;
  EcdsaSignature : Type;
  RecoveryId : Type;
  verifying_key : SigningKey -> VerifyingKey;
  sign_prehash_recoverable : SigningKey -> list byte -> EcdsaSignature * RecoveryId;
  recid_to_byte : RecoveryId -> byte;
  recid_try_from : byte -> option RecoveryId;
  sig_to_bytes : EcdsaSignature -> array 64;
  sig_from_slice : list byte -> option EcdsaSignature;
  verify_prehash : VerifyingKey -> list byte -> EcdsaSignature -> result string unit;
  recover_from_prehash : list byte -> EcdsaSignature -> RecoveryId -> result string VerifyingKey;
  to_sec1_bytes : VerifyingKey -> list byte;
}.

(** [blake3::hash] *)
Definition blake3_hash `{Externals} (data : list byte) : array 32 := blake3_xof 32 data.

(** Decoding inverts encoding, and encoding emits two characters per byte. *)
Class HexLaws `{Externals} : Prop := {
  hex_decode_encode l : hex_decode (hex_encode l) = Ok l;
  hex_decode_length s l : hex_decode s = Ok l -> String.length s = (2 * length l)%nat;
}.

(** A seed is either accepted or "weak"; within [hashx_retries] re-hashes an
    accepted one is reached. *)
Class HashXLaws `{Externals} : Prop := {
  hashx_no_other seed : hashx_new seed <> HashXOtherError;
  hashx_accepts data :
    exists k p, (k <= hashx_retries data)%nat /\
      hashx_new (Nat.iter k (fun s => arr (blake3_hash s)) (arr (blake3_hash data))) = HashXBuilt p;
}.

(** Recovery ids and signatures survive their byte forms; a fresh signature
    verifies and recovers the signer's key. *)
Class EcdsaLaws `{Externals} : Prop := {
  recid_roundtrip r : recid_try_from (recid_to_byte r) = Some r;
  sig_roundtrip s : sig_from_slice (arr (sig_to_bytes s)) = Some s;
  sign_verifies k m :
    verify_prehash (verifying_key k) m (sign_prehash_recoverable k m).1 = Ok tt;
  sign_recovers k m :
    recover_from_prehash m (sign_prehash_recoverable k m).1 (sign_prehash_recoverable k m).2
      = Ok (verifying_key k);
}.

(** * A concrete instance *)

Module Toy.
(** A polynomial digest, an always-accepting program compiler, real hex, an
    injective serialization through the countable encoding, and a signature
    scheme whose signature names the key. *)
Definition digest (n : nat) (l : list byte) : array n :=
  let mask := Z.ones (8 * Z.of_nat n) in
  array_le n (foldl (fun acc b => Z.land (acc * 257 + byte_val b + 1) mask) 7 l).

Definition hex_digit (z : Z) : Ascii.ascii :=
  Ascii.ascii_of_N (Z.to_N (if z <? 10 then z + 48 else z + 87)).

Definition hex_value (a : Ascii.ascii) : option Z :=
  let n := Z.of_N (Ascii.N_of_ascii a) in
  if (48 <=? n) && (n <? 58) then Some (n - 48)
  else if (97 <=? n) && (n <? 103) then Some (n - 87)
  else if (65 <=? n) && (n <? 71) then Some (n - 55)
  else None.

Fixpoint encode_hex (l : list byte) : string :=
  match l with
  | [] => ""
  | b :: l => String (hex_digit (byte_val b / 16)) (String (hex_digit (byte_val b mod 16)) (encode_hex l))
  end.

Fixpoint decode_hex (s : string) : result string (list byte) :=
  match s with
  | EmptyString => Ok []
  | String a (String b s) =>
      match hex_value a, hex_value b with
      | Some x, Some y => l ← decode_hex s; mret (byte_of (x * 16 + y) :: l)
      | _, _ => Err "Invalid character"
      end
  | _ => Err "Odd number of digits"
  end.

Fixpoint pos_bits (p : positive) : list bool :=
  match p with xH => [true] | xO p => false :: pos_bits p | xI p => true :: pos_bits p end.

Fixpoint pack_bits (l : list bool) : list byte :=
  match l with
  | a :: b :: c :: d :: e :: f :: g :: h :: l =>
      Byte.of_bits (a, (b, (c, (d, (e, (f, (g, h))))))) :: pack_bits l
  | _ => [byte_of (foldr (fun (b : bool) acc => 2 * acc + (if b then 1 else 0)) 0 l)]
  end.

Definition serialize {A} `{Countable A} (x : A) : list byte := pack_bits (pos_bits (encode x)).

#[export] Instance externals : Externals := {|
  blake3_xof := digest;
  HashX := Z;
  hashx_new seed := HashXBuilt (le_val seed);
  hashx_hash_to_bytes p x := array_le 32 (p * 31 + x);
  hashx_retries _ := 0%nat;
  hex_encode := encode_hex;
  hex_decode := decode_hex;
  postcard_tx_data := serialize;
  postcard_tx := serialize;
  SigningKey := byte;
  VerifyingKey := byte;
  EcdsaSignature := array 64;
  RecoveryId := bool;
  verifying_key k := k;
  sign_prehash_recoverable k _ := (array_le 64 (byte_val k), true);
  recid_to_byte r := if r then Byte.x01 else Byte.x00;
  recid_try_from b := if Byte.eqb b Byte.x01 then Some true
                      else if Byte.eqb b Byte.x00 then Some false else None;
  sig_to_bytes s := s;
  sig_from_slice := array_of 64;
  verify_prehash k _ s := if bool_decide (s = array_le 64 (byte_val k)) then Ok tt
                          else Err "signature error";
  recover_from_prehash _ s _ := Ok (byte_of (le_val (arr s)));
  to_sec1_bytes k := [k];
|}.

Lemma hex_digit_value z : 0 <= z < 16 -> hex_value (hex_digit z) = Some z.
Proof.
  revert z. apply (Forall_seqZ (fun z => hex_value (hex_digit z) = Some z) 0 16).
  apply (bool_decide_unpack _). vm_compute. exact I.
Qed.

Lemma decode_encode_hex l : decode_hex (encode_hex l) = Ok l.
Proof.
  induction l as [|b l IH]; [done|]. cbn [encode_hex decode_hex].
  pose proof (byte_val_range b) as Hb.
  rewrite !hex_digit_value; cycle 1.
  { apply Z.mod_pos_bound. lia. }
  { split; [apply Z.div_pos; lia|apply Z.div_lt_upper_bound; lia]. }
  rewrite IH. cbn. rewrite (Z.mul_comm _ 16), <-Z.div_mod by lia. by rewrite byte_of_val.
Qed.

#[export] Instance hex_laws : HexLaws.
Proof.
  split; [apply decode_encode_hex|]. cbn.
  fix IH 1. intros [|a [|b s]] l; cbn; intros Hd; [naive_solver|naive_solver|].
  destruct (hex_value a), (hex_value b); try done.
  destruct (decode_hex s) as [l'|] eqn:Hs; cbn in Hd; [|done].
  injection Hd as <-. cbn. rewrite (IH s l' Hs). lia.
Qed.

#[export] Instance hashx_laws : HashXLaws.
Proof. split; [done|]. intros data. exists 0%nat. cbn. eauto. Qed.

#[export] Instance ecdsa_laws : EcdsaLaws.
Proof.
  split.
  - by intros [].
  - apply array_of_arr.
  - intros k m.
    change ((if bool_decide (array_le 64 (byte_val k) = array_le 64 (byte_val k))
             then Ok tt else Err "signature error") = (Ok tt : result string unit)).
    by rewrite bool_decide_eq_true_2.
  - intros k m.
    change (Ok (byte_of (le_val (le_bytes 64 (byte_val k)))) = (Ok k : result string byte)).
    f_equal. rewrite le_val_bytes_small; [apply byte_of_val|].
    pose proof (byte_val_range k). assert (256 <= 256 ^ Z.of_nat 64); [|lia].
    replace 256 with (256 ^ 1) at 1 by done. apply Z.pow_le_mono_r; lia.
Qed.
End Toy.
