(* ===== verification/Petgraph.v ===== *)
(** Petgraph: the directed graphs of the petgraph crate as classes of operations with the
    laws the program relies on, and an edge-list instance. *)
From S2P Require Import Prelude.

(** petgraph's [DiGraph<W, ()>]. *)
Class PetGraph (W : Type) := {
  DiGraph : Type;
  NodeIndex : Type;
  graph_new : DiGraph;
  add_node : DiGraph -> W -> NodeIndex * DiGraph;
  add_edge : DiGraph -> NodeIndex -> NodeIndex -> DiGraph;
  graph_node_indices : DiGraph -> list NodeIndex;
  node_weight : DiGraph -> NodeIndex -> option W;
  (** the sources of [edges_directed(node, Incoming)] *)
  incoming_sources : DiGraph -> NodeIndex -> list NodeIndex;
}.
Arguments DiGraph W {_}.
Arguments NodeIndex W {_}.

(** A new node gets an unused index and its weight and has no edges; an edge adds its
    source to the incoming sources of its target and changes nothing else. *)
Class PetGraphLaws (W : Type) `{PetGraph W} : Prop := {
  indices_new : graph_node_indices graph_new = [];
  indices_add_node g w :
    (add_node g w).1 ∉ graph_node_indices g /\
    graph_node_indices (add_node g w).2 = graph_node_indices g ++ [(add_node g w).1];
  indices_add_edge g a b : graph_node_indices (add_edge g a b) = graph_node_indices g;
  weight_add_node g w : node_weight (add_node g w).2 (add_node g w).1 = Some w;
  weight_add_node_other g w n :
    n ∈ graph_node_indices g -> node_weight (add_node g w).2 n = node_weight g n;
  weight_add_edge g a b n : node_weight (add_edge g a b) n = node_weight g n;
  incoming_add_node g w : incoming_sources (add_node g w).2 (add_node g w).1 = [];
  incoming_add_node_other g w n :
    n ∈ graph_node_indices g -> incoming_sources (add_node g w).2 n = incoming_sources g n;
  incoming_add_edge g a b n s :
    a ∈ graph_node_indices g -> b ∈ graph_node_indices g ->
    s ∈ incoming_sources (add_edge g a b) n <-> s ∈ incoming_sources g n \/ (s = a /\ n = b);
}.

(** The operations of a graph that also loses nodes and is walked in both directions. *)
Class PetGraphEdit (W : Type) `{PetGraph W} := {
  NodeIndex_eq_dec :: EqDecision (NodeIndex W);
  NodeIndex_countable :: Countable (NodeIndex W);
  remove_node : DiGraph W -> NodeIndex W -> DiGraph W;
  (** the targets of [edges_directed(node, Outgoing)] *)
  outgoing_targets : DiGraph W -> NodeIndex W -> list (NodeIndex W);
}.

(** Removing a node invalidates the last index, whose node takes over the removed one. *)
Definition moved `{PetGraphEdit W} (last removed n : NodeIndex W) : NodeIndex W :=
  if decide (n = last) then removed else n.

Class PetGraphEditLaws (W : Type) `{PetGraphEdit W} : Prop := {
  indices_nodup g : NoDup (graph_node_indices g);
  incoming_ends g n s : s ∈ incoming_sources g n ->
    n ∈ graph_node_indices g /\ s ∈ graph_node_indices g;
  outgoing_incoming g a b : b ∈ outgoing_targets g a <-> a ∈ incoming_sources g b;
  remove_node_moves g a : a ∈ graph_node_indices g ->
    exists l last,
      graph_node_indices g = l ++ [last] /\ graph_node_indices (remove_node g a) = l /\
      (forall n, n ∈ graph_node_indices g -> n <> a ->
         node_weight (remove_node g a) (moved last a n) = node_weight g n) /\
      (forall n s, n ∈ graph_node_indices g -> n <> a ->
         s ∈ incoming_sources (remove_node g a) (moved last a n) <->
         exists m, m ∈ incoming_sources g n /\ m <> a /\ s = moved last a m);
}.

(** The edge-list instance: node [i] is the [i]-th weight; edges are kept newest first,
    which is the order in which petgraph walks them. *)
Module ListGraph.
Definition rename_last (last removed n : nat) : nat := if decide (n = last) then removed else n.

(** [Vec::swap_remove] on the weights. *)
Definition swap_remove {A} (l : list A) (i : nat) : list A :=
  match last l with
  | Some x => take (length l - 1) (<[i := x]> l)
  | None => []
  end.

(** The edges between nodes of the graph. *)
Definition valid_edges {W} (g : list W * list (nat * nat)) : list (nat * nat) :=
  filter (fun e => (e.1 < length g.1)%nat /\ (e.2 < length g.1)%nat) g.2.

#[export] Instance list_graph {W} : PetGraph W := {|
  DiGraph := list W * list (nat * nat);
  NodeIndex := nat;
  graph_new := ([], []);
  add_node g w := (length g.1, (g.1 ++ [w], valid_edges g));
  add_edge g a b := (g.1, (a, b) :: g.2);
  graph_node_indices g := seq 0 (length g.1);
  node_weight g n := g.1 !! n;
  incoming_sources g n := (filter (fun e => e.2 = n) (valid_edges g)).*1;
|}.

Lemma valid_edges_add_node {W} (g : list W * list (nat * nat)) w :
  valid_edges (g.1 ++ [w], valid_edges g) = valid_edges g.
Proof.
  assert (forall e, e ∈ valid_edges g -> (e.1 < length (g.1 ++ [w]))%nat /\ (e.2 < length (g.1 ++ [w]))%nat) as Hall.
  { intros e He. apply list_elem_of_filter in He as [He _]. rewrite length_app. lia. }
  unfold valid_edges at 1. cbn [fst snd]. revert Hall. generalize (valid_edges g). intros l Hall.
  induction l as [|e l IH]; [done|]. rewrite filter_cons_True by (apply Hall; set_solver).
  f_equal. apply IH. intros x Hx. apply Hall. set_solver.
Qed.

Lemma elem_of_valid_edges {W} (g : list W * list (nat * nat)) s t :
  (s, t) ∈ valid_edges g <-> (s < length g.1)%nat /\ (t < length g.1)%nat /\ (s, t) ∈ g.2.
Proof. unfold valid_edges. rewrite list_elem_of_filter. cbn. naive_solver. Qed.

Lemma elem_of_incoming {W} (g : list W * list (nat * nat)) n s :
  s ∈ incoming_sources g n <-> (s, n) ∈ valid_edges g.
Proof.
  cbn. rewrite list_elem_of_fmap. split.
  - intros ([x y] & -> & Hin). apply list_elem_of_filter in Hin as [Heq Hin]. cbn in *. by subst.
  - intros Hin. exists (s, n). split; [done|]. by apply list_elem_of_filter.
Qed.

#[export] Instance list_graph_laws {W} : PetGraphLaws W.
Proof.
  split.
  - done.
  - intros g w. cbn. rewrite elem_of_seq, length_app, seq_app. cbn. split; [lia|done].
  - done.
  - intros g w. cbn. by rewrite list_lookup_middle.
  - intros g w n Hn. apply elem_of_seq in Hn. cbn. by rewrite lookup_app_l by lia.
  - done.
  - intros g w. apply elem_of_nil_inv. intros s Hs. apply elem_of_incoming in Hs. cbn [add_node list_graph snd fst] in Hs.
    rewrite valid_edges_add_node in Hs. apply elem_of_valid_edges in Hs. lia.
  - intros g w n Hn. cbn [incoming_sources add_node list_graph snd]. by rewrite valid_edges_add_node.
  - intros g a b n s Ha Hb. apply elem_of_seq in Ha, Hb. rewrite !elem_of_incoming, !elem_of_valid_edges.
    cbn. rewrite elem_of_cons. naive_solver lia.
Qed.

#[export] Instance list_graph_edit {W} : PetGraphEdit W := {|
  remove_node g a :=
    (swap_remove g.1 a,
     (fun e => (rename_last (length g.1 - 1) a e.1, rename_last (length g.1 - 1) a e.2)) <$>
       filter (fun e => e.1 <> a /\ e.2 <> a) (valid_edges g));
  outgoing_targets g a := (filter (fun e => e.1 = a) (valid_edges g)).*2;
|}.

Lemma swap_remove_length {A} (l : list A) i : length (swap_remove l i) = (length l - 1)%nat.
Proof.
  unfold swap_remove. destruct (last l) as [x|] eqn:Hl.
  - rewrite length_take, length_insert. lia.
  - apply last_None in Hl as ->. done.
Qed.

Lemma swap_remove_lookup {A} (l : list A) i n :
  (i < length l)%nat -> (n < length l)%nat -> n <> i ->
  swap_remove l i !! rename_last (length l - 1) i n = l !! n.
Proof.
  intros Hi Hn Hne. unfold swap_remove, rename_last.
  destruct (last l) as [x|] eqn:Hl; [|apply last_None in Hl as ->; cbn in Hi; lia].
  rewrite last_lookup in Hl.
  case_decide as Heq.
  - rewrite lookup_take_lt by lia. rewrite list_lookup_insert_eq by lia. subst n. rewrite <-Hl. f_equal. lia.
  - rewrite lookup_take_lt by lia. by rewrite list_lookup_insert_ne.
Qed.

Lemma elem_of_outgoing {W} (g : list W * list (nat * nat)) n t :
  t ∈ outgoing_targets g n <-> (n, t) ∈ valid_edges g.
Proof.
  cbn. rewrite list_elem_of_fmap. split.
  - intros ([x y] & -> & Hin). apply list_elem_of_filter in Hin as [Heq Hin]. cbn in *. by subst.
  - intros Hin. exists (n, t). split; [done|]. by apply list_elem_of_filter.
Qed.

Lemma elem_of_remaining {W} (g : list W * list (nat * nat)) a s t :
  (s, t) ∈ (remove_node g a).2 <->
  exists x y, (x, y) ∈ valid_edges g /\ x <> a /\ y <> a /\
    s = rename_last (length g.1 - 1) a x /\ t = rename_last (length g.1 - 1) a y.
Proof.
  cbn [remove_node list_graph_edit snd]. rewrite list_elem_of_fmap. split.
  - intros ([x y] & [= -> ->] & Hin). apply list_elem_of_filter in Hin as [[Hx Hy] Hin]. by exists x, y.
  - intros (x & y & Hin & Hx & Hy & -> & ->). exists (x, y). split; [done|]. by apply list_elem_of_filter.
Qed.

#[export] Instance list_graph_edit_laws {W} : PetGraphEditLaws W.
Proof.
  split.
  - intros g. apply NoDup_seq.
  - intros g n s Hs. apply elem_of_incoming, elem_of_valid_edges in Hs. cbn. rewrite !elem_of_seq. lia.
  - intros g a b. by rewrite elem_of_outgoing, elem_of_incoming.
  - intros g a Ha. apply elem_of_seq in Ha. cbn [graph_node_indices list_graph] in *.
    exists (seq 0 (length g.1 - 1)), (length g.1 - 1)%nat. split_and!.
    + replace (seq 0 (length g.1)) with (seq 0 (S (length g.1 - 1))) by (f_equal; lia). apply seq_S.
    + cbn. by rewrite swap_remove_length.
    + intros n Hn Hne. apply elem_of_seq in Hn. apply swap_remove_lookup; lia.
    + intros n s Hn Hne. apply elem_of_seq in Hn. rewrite elem_of_incoming, elem_of_valid_edges, elem_of_remaining.
      cbn [remove_node list_graph_edit fst]. rewrite swap_remove_length. unfold moved, rename_last. split.
      * intros (_ & _ & x & y & Hxy & Hx & Hy & -> & Heq). exists x. rewrite elem_of_incoming.
        pose proof Hxy as Hv. apply elem_of_valid_edges in Hv as (Hvx & Hvy & _).
        assert (y = n) as ->; [|done]. revert Heq. repeat case_decide; lia.
      * intros (m & Hm & Hma & ->). rewrite elem_of_incoming in Hm.
        pose proof Hm as Hv. apply elem_of_valid_edges in Hv as (Hvx & Hvy & _).
        split_and!; [case_decide; lia|case_decide; lia|]. by exists m, n.
Qed.
End ListGraph.
