(* ===== verification/Hashing.v ===== *)
(** Hashing: construction, parsing and printing of typed hashes ([hash.rs],
    [address.rs], [transactions/hash.rs]) and the HashX + BLAKE3 block hash
    ([block/block_hash.rs]). *)
From S2P Require Import Prelude Bytes Types Externals.

Section Hashing.
Context {X : Externals}.

(** [HashKind::hash], the default method: BLAKE3 in XOF mode, [SIZE] bytes. *)
Definition HashKind_hash (K : HashKind) (public_key : list byte) : array (hk_size K) :=
  blake3_xof (hk_size K) public_key.

(** [Hash::new] for the kinds that keep the default method. *)
Definition Hash_new (K : HashKind) (input : list byte) : Hash K :=
  mk_Hash (HashKind_hash K input).

(** [TryFrom<&[u8]> for Hash<K>] *)
Definition Hash_try_from (K : HashKind) (v : list byte) : result StryiCoreError (Hash K) :=
  match array_of (hk_size K) v with
  | None => Err (InvalidLength (Z.of_nat (hk_size K)) (Z.of_nat (length v)))
  | Some a => Ok (mk_Hash a)
  end.

(** [Display for Hash<K>]: the prefix followed by the hex digits. *)
Definition Hash_to_string {K} (h : Hash K) : string :=
  hk_prefix K +:+ hex_encode (arr (hash_data h)).

(** [str::starts_with], [&s[n..]] and [s.chars().take(n)] on byte strings. *)
Definition starts_with (s p : string) : bool := String.prefix p s.
Definition str_from (s : string) (n : nat) : string := String.substring n (String.length s - n) s.
Definition str_take (s : string) (n : nat) : string := String.substring 0 n s.

(** [Hash::from_hash_string] *)
Definition from_hash_string (K : HashKind) (s : string) : result StryiCoreError (Hash K) :=
  if negb (starts_with s (hk_prefix K)) then
    Err (InvalidPrefix (hk_prefix K) (str_take s (String.length (hk_prefix K))))
  else
    bytes ← map_err InvalidHex (hex_decode (str_from s (String.length (hk_prefix K))));
    Hash_try_from K bytes.

(** [AccountAddress::from_public_key]: the digest of the key is hashed again
    by [Self::new]. *)
Definition from_public_key (vk : VerifyingKey) : AccountAddress :=
  Hash_new AddressHasher (arr (HashKind_hash AddressHasher (to_sec1_bytes vk))).

(** ** Block hash

    The seed loop, with the crate's retry bound as fuel. [None] stands for the
    [unreachable!] panic and for an exhausted bound. *)
Fixpoint build_hashx (fuel : nat) (seed : list byte) : option HashX :=
  match hashx_new seed with
  | HashXBuilt hx => Some hx
  | HashXProgramConstraints =>
      match fuel with
      | O => None
      | S fuel => build_hashx fuel (arr (blake3_hash seed))
      end
  | HashXOtherError => None
  end.

(** One step of [for &byte in data.iter()]: state is
    [(input_u64, byte_count, bytes fed to the blender)]. *)
Definition chunk_step (hx : HashX) (st : Z * Z * list byte) (b : byte) : Z * Z * list byte :=
  let '(input_u64, byte_count, fed) := st in
  let input_u64 := Z.lor input_u64 (wrap 64 (Z.shiftl (byte_val b) (8 * (byte_count mod 8)))) in
  let byte_count := byte_count + 1 in
  if byte_count mod 8 =? 0
  then (0, byte_count, fed ++ arr (hashx_hash_to_bytes hx input_u64))
  else (input_u64, byte_count, fed).

Definition chunk_digests (hx : HashX) (data : list byte) : list byte :=
  let '(input_u64, byte_count, fed) := foldl (chunk_step hx) (0, 0, []) data in
  if byte_count mod 8 =? 0 then fed else fed ++ arr (hashx_hash_to_bytes hx input_u64).

(** [BlockHashKind::hash] *)
Definition BlockHashKind_hash (data : list byte) : option (array 32) :=
  hx ← build_hashx (hashx_retries data) (arr (blake3_hash data));
  Some (blake3_hash (chunk_digests hx data)).

(** [BlockHash::new]. The fallback is never taken, see [BlockHashKind_hash_total]. *)
Definition BlockHash_new (data : list byte) : BlockHash :=
  @mk_Hash BlockHashKind (default (zeros 32) (BlockHashKind_hash data)).

(** [From<BlockHash> for U256] and [BlockHash::meets_threshold]. *)
Definition BlockHash_to_u256 (h : BlockHash) : Z := be_val (arr (hash_data h)).
Definition meets_threshold (h : BlockHash) (threshold : Z) : bool :=
  BlockHash_to_u256 h <=? threshold.

(** ** Lemmas *)

Lemma prefix_app p s : String.prefix p (p +:+ s) = true.
Proof.
  induction p as [|a p IH]; [by destruct s|].
  change ((if Ascii.ascii_dec a a then String.prefix p (p +:+ s) else false) = true).
  destruct (Ascii.ascii_dec a a); [exact IH|done].
Qed.

Lemma str_length_app s1 s2 : String.length (s1 +:+ s2) = (String.length s1 + String.length s2)%nat.
Proof. induction s1 as [|a s1 IH]; [done|]. exact (f_equal S IH). Qed.

Lemma substring_all s : String.substring 0 (String.length s) s = s.
Proof. induction s; cbn; [done|]. by f_equal. Qed.

Lemma substring_skip p s n :
  String.substring (String.length p) n (p +:+ s) = String.substring 0 n s.
Proof. induction p as [|a p IH]; [done|]. exact IH. Qed.

Lemma str_from_app p s : str_from (p +:+ s) (String.length p) = s.
Proof.
  unfold str_from. rewrite substring_skip, str_length_app.
  replace (_ + _ - _)%nat with (String.length s) by lia. apply substring_all.
Qed.

Lemma prefix_split p s : String.prefix p s = true -> s = p +:+ str_from s (String.length p).
Proof.
  revert s. induction p as [|a p IH]; intros s Hp.
  - unfold str_from. cbn. by rewrite Nat.sub_0_r, substring_all.
  - destruct s as [|b s]; cbn in Hp; [done|].
    destruct (Ascii.ascii_dec a b) as [->|]; [|done].
    exact (f_equal (String b) (IH s Hp)).
Qed.

Lemma Hash_try_from_Ok K v h : Hash_try_from K v = Ok h <-> arr (hash_data h) = v.
Proof.
  unfold Hash_try_from. destruct (array_of _ v) as [a|] eqn:Ha.
  - apply array_of_Some in Ha. split; [by intros [= <-]|].
    intros Hh. f_equal. destruct h as [b]; cbn in *. f_equal. apply array_eq. congruence.
  - apply array_of_None in Ha. split; [done|]. intros <-. by rewrite array_length in Ha.
Qed.

Lemma from_hash_string_inv K s h :
  from_hash_string K s = Ok h ->
  exists t, s = hk_prefix K +:+ t /\ hex_decode t = Ok (arr (hash_data h)).
Proof.
  unfold from_hash_string, starts_with.
  destruct (String.prefix (hk_prefix K) s) eqn:Hp; cbn [negb]; [|done].
  intros H. res_inv. apply Hash_try_from_Ok in H. subst.
  eexists. split; [by apply prefix_split|done].
Qed.
End Hashing.

(** Seeds reached by repeated re-hashing. *)
Definition rehash `{Externals} (k : nat) (seed : list byte) : list byte :=
  Nat.iter k (fun s => arr (blake3_hash s)) seed.

Lemma rehash_S `{Externals} k seed : rehash k (arr (blake3_hash seed)) = rehash (S k) seed.
Proof. unfold rehash. by rewrite Nat.iter_succ_r. Qed.

Section BlockHashTheory.
Context {X : Externals} `{!HashXLaws}.

(** The loop stops at the first accepted seed. *)
Lemma build_hashx_spec fuel seed hx :
  build_hashx fuel seed = Some hx <->
  exists k, (k <= fuel)%nat /\ hashx_new (rehash k seed) = HashXBuilt hx /\
    forall j, (j < k)%nat -> hashx_new (rehash j seed) = HashXProgramConstraints.
Proof.
  revert seed. induction fuel as [|fuel IH]; intros seed; cbn.
  - destruct (hashx_new seed) eqn:Hs; split; try naive_solver; try lia.
    + intros [= <-]. exists 0%nat. split; [lia|]. split; [done|lia].
    + intros (k & Hk & Hb & _). replace k with 0%nat in Hb by lia. cbn in Hb. congruence.
    + intros (k & Hk & Hb & _). replace k with 0%nat in Hb by lia. cbn in Hb. congruence.
    + intros (k & Hk & Hb & _). replace k with 0%nat in Hb by lia. cbn in Hb. congruence.
  - destruct (hashx_new seed) as [p| |] eqn:Hs.
    + split.
      * intros [= <-]. exists 0%nat. split; [lia|]. split; [done|lia].
      * intros ([|k] & Hk & Hb & Hw); [cbn in Hb; congruence|].
        specialize (Hw 0%nat ltac:(lia)). cbn in Hw. congruence.
    + rewrite IH. split.
      * intros (k & Hk & Hb & Hw). exists (S k). rewrite <-rehash_S. split; [lia|].
        split; [done|]. intros [|j] Hj; [done|]. rewrite <-rehash_S. apply Hw. lia.
      * intros ([|k] & Hk & Hb & Hw); [cbn in Hb; congruence|].
        exists k. rewrite rehash_S. split; [lia|]. split; [done|].
        intros j Hj. rewrite rehash_S. apply Hw. lia.
    + by destruct (hashx_no_other seed).
Qed.

Lemma build_hashx_reaches k fuel seed p :
  (k <= fuel)%nat -> hashx_new (rehash k seed) = HashXBuilt p ->
  exists hx, build_hashx fuel seed = Some hx.
Proof.
  revert fuel seed. induction k as [|k IH]; intros fuel seed Hk Hp.
  - cbn in Hp. destruct fuel; cbn; rewrite Hp; eauto.
  - destruct fuel as [|fuel]; [lia|]. cbn. destruct (hashx_new seed) eqn:Hs; [eauto| |].
    + apply IH; [lia|]. by rewrite rehash_S.
    + by destruct (hashx_no_other seed).
Qed.

Lemma build_hashx_total data :
  exists hx, build_hashx (hashx_retries data) (arr (blake3_hash data)) = Some hx.
Proof.
  destruct (hashx_accepts data) as (k & p & Hk & Hp). by eapply build_hashx_reaches.
Qed.

(** More fuel never changes the program that is built. *)
Lemma build_hashx_fuel fuel fuel' seed hx :
  (fuel <= fuel')%nat -> build_hashx fuel seed = Some hx -> build_hashx fuel' seed = Some hx.
Proof.
  intros Hle. rewrite !build_hashx_spec. intros (k & Hk & Hrest). exists k. split; [lia|done].
Qed.
End BlockHashTheory.

(** * The chunk loop feeds one digest per 8-byte little-endian word *)

Section ChunkLoop.
Context {X : Externals} (hx : HashX).

(** Reference: the digests of the zero-padded little-endian words. *)
Definition word_digests (data : list byte) : list byte :=
  mjoin ((fun c => arr (hashx_hash_to_bytes hx (le_val c))) <$> chunks 8 data).

Lemma le_val_snoc l b : le_val (l ++ [b]) = le_val l + byte_val b * 256 ^ Z.of_nat (length l).
Proof.
  induction l as [|a l IH]; cbn [app le_val length]; [cbn; lia|].
  rewrite IH, Nat2Z.inj_succ, Z.pow_succ_r by lia. ring.
Qed.

Lemma le_val_or l b :
  Z.lor (le_val l) (Z.shiftl (byte_val b) (8 * Z.of_nat (length l))) = le_val (l ++ [b]).
Proof.
  rewrite le_val_snoc, pow256, Z.shiftl_mul_pow2 by lia.
  set (k := 8 * Z.of_nat (length l)). pose proof (le_val_range l) as [H0 H1].
  rewrite pow256 in H1. fold k in H1.
  assert (Z.land (le_val l) (byte_val b * 2 ^ k) = 0) as Hland.
  { apply Z.bits_inj'. intros i Hi. rewrite Z.land_spec, Z.bits_0.
    destruct (decide (i < k)) as [Hlt|Hge].
    - rewrite Z.mul_pow2_bits_low by lia. apply andb_false_r.
    - rewrite <-(Z.mod_small (le_val l) (2 ^ k)) by lia.
      rewrite Z.mod_pow2_bits_high by lia. done. }
  rewrite <-Z.lxor_lor, <-Z.add_nocarry_lxor by done. done.
Qed.

Lemma chunk_shift_range b k :
  0 <= k < 8 -> in_uint 64 (Z.shiftl (byte_val b) (8 * k)).
Proof.
  intros Hk. pose proof (byte_val_range b). rewrite Z.shiftl_mul_pow2 by lia.
  split; [apply Z.mul_nonneg_nonneg; [lia|apply Z.pow_nonneg; lia]|].
  apply Z.lt_le_trans with (256 * 2 ^ (8 * k)).
  - apply Z.mul_lt_mono_pos_r; [apply Z.pow_pos_nonneg|]; lia.
  - change 256 with (2 ^ 8). rewrite <-Z.pow_add_r by lia. apply Z.pow_le_mono_r; lia.
Qed.

Lemma mod8 m k : 0 <= k < 8 -> (8 * m + k) mod 8 = k.
Proof. intros. rewrite Z.add_comm, Z.mul_comm, Z.mod_add, Z.mod_small; lia. Qed.

Lemma chunk_step_at pre m fed b :
  (length pre < 8)%nat ->
  chunk_step hx (le_val pre, 8 * m + Z.of_nat (length pre), fed) b =
    if decide (length pre = 7)%nat
    then (0, 8 * (m + 1), fed ++ arr (hashx_hash_to_bytes hx (le_val (pre ++ [b]))))
    else (le_val (pre ++ [b]), 8 * m + Z.of_nat (length (pre ++ [b])), fed).
Proof.
  intros Hl. unfold chunk_step. rewrite mod8 by lia.
  rewrite wrap_small by (apply chunk_shift_range; lia). rewrite le_val_or.
  rewrite length_app, Nat2Z.inj_add. cbn [length]. case_decide as Hd.
  - replace (8 * m + Z.of_nat (length pre) + 1) with (8 * (m + 1) + 0) by lia.
    rewrite mod8 by lia. f_equal. f_equal. lia.
  - rewrite <-Z.add_assoc, mod8 by lia.
    destruct (Z.eqb_spec (Z.of_nat (length pre) + 1) 0); [lia|]. done.
Qed.

Lemma chunk_steps_partial c pre m fed :
  (length pre + length c < 8)%nat ->
  foldl (chunk_step hx) (le_val pre, 8 * m + Z.of_nat (length pre), fed) c
  = (le_val (pre ++ c), 8 * m + Z.of_nat (length (pre ++ c)), fed).
Proof.
  revert pre. induction c as [|b c IH]; intros pre Hl; cbn [foldl]; [by rewrite app_nil_r|].
  cbn [length] in Hl. rewrite chunk_step_at, decide_False by lia.
  rewrite IH by (rewrite length_app; cbn [length]; lia). by rewrite <-app_assoc.
Qed.

Lemma chunk_steps_full c m fed :
  (length c = 8)%nat ->
  foldl (chunk_step hx) (0, 8 * m, fed) c
  = (0, 8 * (m + 1), fed ++ arr (hashx_hash_to_bytes hx (le_val c))).
Proof.
  intros Hc. destruct (exists_last (l := c)) as (pre & b & ->); [by intros ->|].
  rewrite length_app in Hc. cbn [length] in Hc. rewrite foldl_snoc.
  pose proof (chunk_steps_partial pre [] m fed ltac:(cbn [length]; lia)) as Hp.
  cbn [length le_val app Z.of_nat] in Hp. rewrite Z.add_0_r in Hp. rewrite Hp.
  rewrite chunk_step_at, decide_True by lia. done.
Qed.

Lemma chunk_steps_fed data m fed :
  let '(u, n, fed') := foldl (chunk_step hx) (0, 8 * m, fed) data in
  (if n mod 8 =? 0 then fed' else fed' ++ arr (hashx_hash_to_bytes hx u))
  = fed ++ word_digests data.
Proof.
  remember (length data) as k eqn:Hk. revert data m fed Hk.
  induction k as [k IH] using lt_wf_ind. intros data m fed Hk.
  destruct (decide (length data < 8)%nat) as [Hs|Hs].
  - pose proof (chunk_steps_partial data [] m fed ltac:(cbn [length]; lia)) as Hp.
    cbn [length le_val app Z.of_nat] in Hp. rewrite Z.add_0_r in Hp. rewrite Hp.
    rewrite mod8 by lia. unfold word_digests.
    destruct data as [|b data]; [by rewrite chunks_nil, app_nil_r|].
    destruct (Z.eqb_spec (Z.of_nat (length (b :: data))) 0); [cbn [length] in *; lia|].
    rewrite chunks_step, take_ge, drop_ge, chunks_nil by (done || lia).
    cbn. by rewrite app_nil_r.
  - assert (data <> []) as Hne by (intros ->; cbn in Hs; lia).
    replace (foldl (chunk_step hx) (0, 8 * m, fed) data)
      with (foldl (chunk_step hx) (0, 8 * (m + 1), fed ++ arr (hashx_hash_to_bytes hx (le_val (take 8 data))))
              (drop 8 data)).
    2: { rewrite <-(chunk_steps_full (take 8 data) m fed) by (rewrite length_take; lia).
         by rewrite <-foldl_app, take_drop. }
    specialize (IH (length (drop 8 data)) ltac:(rewrite length_drop; lia) (drop 8 data) (m + 1)
      (fed ++ arr (hashx_hash_to_bytes hx (le_val (take 8 data)))) eq_refl).
    destruct (foldl _ _ (drop 8 data)) as [[u n] fed']. etrans; [exact IH|].
    unfold word_digests. rewrite (chunks_step 8 data) by (done || lia).
    cbn. by rewrite <-app_assoc.
Qed.

Lemma chunk_digests_words data : chunk_digests hx data = word_digests data.
Proof.
  pose proof (chunk_steps_fed data 0 []) as H. rewrite Z.mul_0_r in H.
  unfold chunk_digests. destruct (foldl _ _ _) as [[u n] fed]. exact H.
Qed.
End ChunkLoop.

(** * Properties *)

Section HashingProperties.
Context {X : Externals}.

(** The textual form of a typed hash round-trips, and the parser accepts exactly
    the prefix of the kind followed by a hex string of exactly [SIZE] bytes. *)
Theorem hash_string_roundtrip `{!HexLaws} K (h : Hash K) s :
  from_hash_string K (Hash_to_string h) = Ok h /\
  (from_hash_string K s = Ok h <->
   exists t, s = hk_prefix K +:+ t /\ hex_decode t = Ok (arr (hash_data h))).
Proof.
  assert (forall t, hex_decode t = Ok (arr (hash_data h)) ->
    from_hash_string K (hk_prefix K +:+ t) = Ok h) as Hparse.
  { intros t Ht. unfold from_hash_string, starts_with. rewrite prefix_app, str_from_app, Ht.
    cbn. by apply Hash_try_from_Ok. }
  split; [apply Hparse, hex_decode_encode|]. split; [apply from_hash_string_inv|].
  intros (t & -> & Ht). by apply Hparse.
Qed.

(** The seed loop of the block hash always ends with a program, namely the one
    compiled from the first accepted seed, and the digest is BLAKE3 of the HashX
    outputs of the zero-padded little-endian 8-byte words of the input. *)
Theorem block_hash_reference `{!HashXLaws} data :
  exists k hx,
    hashx_new (rehash k (arr (blake3_hash data))) = HashXBuilt hx /\
    (forall j, (j < k)%nat ->
      hashx_new (rehash j (arr (blake3_hash data))) = HashXProgramConstraints) /\
    BlockHashKind_hash data = Some (blake3_hash (word_digests hx data)) /\
    hash_data (BlockHash_new data) = blake3_hash (word_digests hx data).
Proof.
  destruct (build_hashx_total data) as [hx Hhx].
  pose proof (proj1 (build_hashx_spec _ _ _) Hhx) as (k & _ & Hk & Hj).
  exists k, hx. split; [done|]. split; [done|].
  unfold BlockHash_new, BlockHashKind_hash. rewrite Hhx. cbn. by rewrite chunk_digests_words.
Qed.
End HashingProperties.

Section HashingWitnesses.
Import Toy.

Lemma hash_string_roundtrip_witness :
  from_hash_string AddressHasher (Hash_to_string (Hash_new AddressHasher [Byte.x01])) =
    Ok (Hash_new AddressHasher [Byte.x01]).
Proof. apply (hash_string_roundtrip AddressHasher (Hash_new AddressHasher [Byte.x01]) ""). Defined.

Lemma block_hash_reference_witness :
  exists hx : Z, BlockHashKind_hash [Byte.x01] = Some (blake3_hash (word_digests hx [Byte.x01])).
Proof.
  destruct (block_hash_reference [Byte.x01]) as (k & hx & _ & _ & H & _).
  exists hx. exact H.
Defined.
End HashingWitnesses.
