(* ===== verification/Work.v ===== *)
(** Work: proof-of-work arithmetic that needs no chain view ([difficulty.rs],
    [difficulty/asert.rs], [consensus/rules.rs]): block work, threshold and work
    codecs, the ASERT target schedule, parameter validation and the subsidy. *)
From S2P Require Import Prelude Bytes Types.

(** [space / (target + 1)] in [U512]: [target + 1] does not wrap there. *)
Definition block_work (target : Z) : Z :=
  let space := Z.shiftl 1 256 in
  let divisor := wrap 512 (target + 1) in
  space / divisor.

Definition add_work (parent work : Z) : result StryiCoreError Z :=
  ok_or (checked_add 512 parent work) (ConsensusChainSelectionFailed "chain work overflow").

(** ** Wire codecs *)

Definition threshold_from_bytes (bytes : list byte) : result string Z :=
  if negb (length bytes =? 32)%nat then Err "hash_threshold must contain exactly 32 bytes"
  else Ok (le_val bytes).

Definition threshold_to_bytes (v : Z) : array 32 := array_le 32 v.

Definition chain_work_from_bytes (bytes : list byte) : result string Z :=
  if negb (length bytes =? 64)%nat then Err "chain_work must contain exactly 64 bytes"
  else Ok (le_val bytes).

Definition chain_work_to_bytes (v : Z) : array 64 := array_le 64 v.

(** ** ASERT

    [FRACTION_BITS = 16]. The [i128] and [u128] intermediate values are written
    without wrap-around; [asert_no_overflow] shows they fit. *)

Definition FRACTION_BITS : Z := 16.
Definition FRACTION_SCALE : Z := 65536.

(** [factor], the fixed-point approximation of [2^(fraction / 65536)]. *)
Definition asert_factor (fraction : Z) : Z :=
  FRACTION_SCALE +
    Z.shiftr (195766423245049 * fraction
              + 971821376 * fraction * fraction
              + 5127 * fraction * fraction * fraction
              + Z.shiftl 1 47) 48.

(** [exponent]: division truncating toward zero. *)
Definition asert_exponent (drift half_life : Z) : Z := Z.quot (drift * FRACTION_SCALE) half_life.

(** [scaled_target] shifted by the whole half-lives: [U512] shifts, the left one
    dropping the bits above 512. *)
Definition asert_target (initial exponent : Z) : Z :=
  let whole_half_lives := exponent / FRACTION_SCALE in
  let fraction := exponent mod FRACTION_SCALE in
  let scaled_target := initial * asert_factor fraction in
  if FRACTION_BITS <=? whole_half_lives
  then wrap 512 (Z.shiftl scaled_target (whole_half_lives - FRACTION_BITS))
  else Z.shiftr scaled_target (FRACTION_BITS - whole_half_lives).

Definition asert_upper (initial drift half_life_secs cap : Z) : option Z :=
  if (initial =? 0) || (cap =? 0) || (cap <? initial) || (half_life_secs =? 0) then None
  else
    let cutoff := 256 * half_life_secs in
    if cutoff <=? drift then Some cap
    else if drift <=? - cutoff then Some 1
    else
      let target := asert_target initial (asert_exponent drift half_life_secs) in
      if target =? 0 then Some 1
      else if cap <? target then Some cap
      else if target <? 2 ^ 256 then Some target else None.

(** ** Parameters *)

Definition PowParams_validate (p : PowParams) : result StryiCoreError unit :=
  _ ← ensure (negb (target_spacing_secs p =? 0))
        (InvalidDifficultyValue "target_spacing_secs must be positive");
  _ ← ensure (negb (half_life_secs p =? 0))
        (InvalidDifficultyValue "half_life_secs must be positive");
  _ ← ensure (negb (initial_hash_threshold p =? 0))
        (InvalidDifficultyValue "initial_hash_threshold must be positive");
  _ ← ensure (negb (max_hash_threshold p =? 0))
        (InvalidDifficultyValue "max_hash_threshold must be positive");
  ensure (initial_hash_threshold p <=? max_hash_threshold p)
    (InvalidDifficultyValue "initial_hash_threshold must not exceed max_hash_threshold").

(** [PowParams::default] and [ConsensusConsts::default], the testing defaults. *)
Definition PowParams_default : PowParams :=
  mk_PowParams 10 3600 (Z.shiftr (uint_max 256) 1) (Z.shiftr (uint_max 256) 1).

Definition ConsensusConsts_default : ConsensusConsts :=
  mk_ConsensusConsts PowParams_default 1000 10 10.

(** [ConsensusConsts::block_subsidy] *)
Definition block_subsidy (c : ConsensusConsts) (height : Z) : Z :=
  if decay_interval c =? 0 then initial_subsidy c
  else
    let steps := height / decay_interval c in
    saturating_sub (initial_subsidy c) (saturating_mul 64 steps (decay_step c)).

(** * Source test vectors *)

Example asert_whole_half_lives_vectors :
  map (fun d => asert_upper 1000000 d 3600 10000000) [-7200; -3600; 0; 3600; 7200] =
  [Some 250000; Some 500000; Some 1000000; Some 2000000; Some 4000000].
Proof. reflexivity. Qed.

Example asert_fractional_vectors :
  map (fun d => asert_upper 1000000 d 3600 10000000) [-1800; -1; 1; 1800] =
  [Some 707046; Some 999809; Some 1000198; Some 1414093].
Proof. reflexivity. Qed.

Example block_work_vectors :
  map block_work [0; 1; 2 ^ 254 - 1; 2 ^ 254; 2 ^ 255 - 1; 2 ^ 255; uint_max 256] =
  [2 ^ 256; 2 ^ 255; 4; 3; 2; 1; 1].
Proof. vm_compute. reflexivity. Qed.

(** * Lemmas on ASERT *)

Record asert_params (initial half_life cap : Z) : Prop := {
  ap_initial : 0 < initial <= cap;
  ap_cap : cap < 2 ^ 256;
  ap_half_life : 0 < half_life < 2 ^ 32;
}.

Lemma shiftr_mono x y n : 0 <= n -> x <= y -> Z.shiftr x n <= Z.shiftr y n.
Proof.
  intros Hn Hxy. rewrite !Z.shiftr_div_pow2 by done.
  apply Z.div_le_mono; [apply Z.pow_pos_nonneg; lia|done].
Qed.

Lemma asert_factor_mono f g : 0 <= f <= g -> asert_factor f <= asert_factor g.
Proof.
  intros [H0 Hfg]. unfold asert_factor. apply Z.add_le_mono_l, shiftr_mono; [lia|].
  assert (f * f <= g * g) by (apply Z.mul_le_mono_nonneg; lia).
  assert (f * f * f <= g * g * g) by (apply Z.mul_le_mono_nonneg; nia). nia.
Qed.

Lemma asert_factor_range f : 0 <= f < FRACTION_SCALE -> FRACTION_SCALE <= asert_factor f < 2 * FRACTION_SCALE.
Proof.
  unfold FRACTION_SCALE. intros Hf.
  pose proof (asert_factor_mono 0 f ltac:(lia)) as Hlo.
  pose proof (asert_factor_mono f 65535 ltac:(lia)) as Hhi.
  change (asert_factor 0) with 65536 in Hlo. change (asert_factor 65535) with 131071 in Hhi. lia.
Qed.

Lemma asert_exponent_range drift h :
  0 < h -> - (256 * h) < drift < 256 * h ->
  - (256 * FRACTION_SCALE) < asert_exponent drift h < 256 * FRACTION_SCALE.
Proof.
  unfold asert_exponent, FRACTION_SCALE. intros Hh Hd.
  assert (forall d, 0 <= d < 256 * h -> 0 <= Z.quot (d * 65536) h < 256 * 65536) as Hpos.
  { intros d Hd'. rewrite Z.quot_div_nonneg by lia.
    split; [apply Z.div_pos; lia|apply Z.div_lt_upper_bound; lia]. }
  destruct (decide (0 <= drift)); [specialize (Hpos drift); lia|].
  specialize (Hpos (- drift)). rewrite Z.mul_opp_l, Z.quot_opp_l in Hpos by lia. lia.
Qed.

Lemma asert_exponent_mono d d' h : 0 < h -> d <= d' -> asert_exponent d h <= asert_exponent d' h.
Proof. intros. apply Z.quot_le_mono; [lia|]. unfold FRACTION_SCALE. lia. Qed.

(** The common scale: [asert_target] is [asert_scaled / 2^272]. *)
Definition asert_scaled (initial e : Z) : Z :=
  initial * asert_factor (e mod FRACTION_SCALE) * 2 ^ (e / FRACTION_SCALE + 256).

Lemma exponent_split e :
  - (256 * FRACTION_SCALE) < e < 256 * FRACTION_SCALE ->
  -256 <= e / FRACTION_SCALE < 256 /\ 0 <= e mod FRACTION_SCALE < FRACTION_SCALE.
Proof.
  unfold FRACTION_SCALE. intros He. pose proof (Z.mod_pos_bound e 65536 ltac:(lia)).
  pose proof (Z.div_mod e 65536 ltac:(lia)). lia.
Qed.

Lemma asert_scaled_target_bound initial e :
  0 < initial < 2 ^ 256 -> - (256 * FRACTION_SCALE) < e < 256 * FRACTION_SCALE ->
  0 < initial * asert_factor (e mod FRACTION_SCALE) < 2 ^ 273.
Proof.
  intros Hi He. destruct (exponent_split e He) as [_ Hf].
  pose proof (asert_factor_range _ Hf). unfold FRACTION_SCALE in *.
  change (2 ^ 273) with (2 ^ 256 * 131072). nia.
Qed.

Lemma asert_target_scaled initial e :
  0 < initial < 2 ^ 256 -> - (256 * FRACTION_SCALE) < e < 256 * FRACTION_SCALE ->
  asert_target initial e = asert_scaled initial e / 2 ^ 272.
Proof.
  intros Hi He. pose proof (asert_scaled_target_bound initial e Hi He) as Hb.
  destruct (exponent_split e He) as [Hw _].
  unfold asert_target, asert_scaled, FRACTION_BITS. cbv zeta.
  set (x := initial * _) in *. set (w := e / FRACTION_SCALE) in *.
  destruct (Z.leb_spec 16 w).
  - rewrite Z.shiftl_mul_pow2 by lia. rewrite wrap_small.
    + replace (w + 256) with (w - 16 + 272) by lia. rewrite Z.pow_add_r, Z.mul_assoc by lia.
      rewrite Z.div_mul; [done|]. by apply Z.pow_nonzero.
    + split; [apply Z.mul_nonneg_nonneg; [lia|apply Z.pow_nonneg; lia]|].
      apply Z.lt_le_trans with (2 ^ 273 * 2 ^ (w - 16)).
      * apply Z.mul_lt_mono_pos_r; [apply Z.pow_pos_nonneg|]; lia.
      * rewrite <-Z.pow_add_r by lia. apply Z.pow_le_mono_r; lia.
  - rewrite Z.shiftr_div_pow2 by lia.
    replace 272 with ((16 - w) + (w + 256)) by lia.
    rewrite (Z.pow_add_r 2 (16 - w) (w + 256)) by lia.
    rewrite Z.div_mul_cancel_r; [done| |]; apply Z.pow_nonzero; lia.
Qed.

Lemma asert_scaled_mono initial e e' :
  0 < initial -> - (256 * FRACTION_SCALE) < e -> e <= e' -> e' < 256 * FRACTION_SCALE ->
  asert_scaled initial e <= asert_scaled initial e'.
Proof.
  intros Hi He Hle He'.
  destruct (exponent_split e ltac:(lia)) as [Hw Hf].
  destruct (exponent_split e' ltac:(lia)) as [Hw' Hf'].
  assert (e / FRACTION_SCALE <= e' / FRACTION_SCALE) as Hww by (apply Z.div_le_mono; [done|lia]).
  unfold asert_scaled. destruct (decide (e / FRACTION_SCALE = e' / FRACTION_SCALE)) as [Heq|Hne].
  - rewrite Heq. apply Z.mul_le_mono_nonneg_r; [apply Z.pow_nonneg; lia|].
    apply Z.mul_le_mono_nonneg_l, asert_factor_mono; [lia|].
    pose proof (Z.div_mod e FRACTION_SCALE ltac:(done)).
    pose proof (Z.div_mod e' FRACTION_SCALE ltac:(done)). split; [lia|]. rewrite Heq in *. lia.
  - pose proof (asert_factor_range _ Hf) as Hr. pose proof (asert_factor_range _ Hf') as Hr'.
    apply Z.le_trans with (initial * (2 * FRACTION_SCALE) * 2 ^ (e / FRACTION_SCALE + 256)).
    { apply Z.mul_le_mono_nonneg_r; [apply Z.pow_nonneg; lia|]. apply Z.mul_le_mono_nonneg_l; lia. }
    replace (initial * (2 * FRACTION_SCALE) * 2 ^ (e / FRACTION_SCALE + 256))
      with (initial * FRACTION_SCALE * 2 ^ (e / FRACTION_SCALE + 256 + 1))
      by (rewrite (Z.pow_add_r 2 _ 1) by lia; ring).
    apply Z.le_trans with (initial * FRACTION_SCALE * 2 ^ (e' / FRACTION_SCALE + 256)).
    + apply Z.mul_le_mono_nonneg_l; [unfold FRACTION_SCALE; lia|]. apply Z.pow_le_mono_r; lia.
    + apply Z.mul_le_mono_nonneg_r; [apply Z.pow_nonneg; lia|]. apply Z.mul_le_mono_nonneg_l; lia.
Qed.

Lemma asert_target_mono initial e e' :
  0 < initial < 2 ^ 256 -> - (256 * FRACTION_SCALE) < e -> e <= e' -> e' < 256 * FRACTION_SCALE ->
  0 <= asert_target initial e <= asert_target initial e'.
Proof.
  intros Hi He Hle He'. rewrite !asert_target_scaled by lia. split.
  - apply Z.div_pos; [|by apply Z.pow_pos_nonneg].
    pose proof (asert_scaled_target_bound initial e Hi ltac:(lia)).
    apply Z.mul_nonneg_nonneg; [lia|]. apply Z.pow_nonneg. lia.
  - apply Z.div_le_mono; [by apply Z.pow_pos_nonneg|]. apply asert_scaled_mono; lia.
Qed.

(** The code's result as a clamp. *)
Lemma asert_upper_clamp initial drift h cap :
  asert_params initial h cap ->
  asert_upper initial drift h cap =
    Some (if 256 * h <=? drift then cap
          else if drift <=? - (256 * h) then 1
          else Z.max 1 (Z.min cap (asert_target initial (asert_exponent drift h)))).
Proof.
  intros [Hi Hc Hh]. unfold asert_upper. cbv zeta.
  destruct (Z.eqb_spec initial 0), (Z.eqb_spec cap 0), (Z.ltb_spec cap initial), (Z.eqb_spec h 0);
    try lia; cbn [orb].
  destruct (Z.leb_spec (256 * h) drift); [done|].
  destruct (Z.leb_spec drift (- (256 * h))); [done|].
  pose proof (asert_exponent_range drift h ltac:(lia) ltac:(lia)) as He.
  pose proof (asert_target_mono initial _ _ ltac:(lia) (proj1 He) (Z.le_refl _) (proj2 He)) as [Hpos _].
  destruct (Z.eqb_spec (asert_target initial (asert_exponent drift h)) 0) as [->|];
    [f_equal; lia|].
  destruct (Z.ltb_spec cap (asert_target initial (asert_exponent drift h))); [f_equal; lia|].
  destruct (Z.ltb_spec (asert_target initial (asert_exponent drift h)) (2 ^ 256)); [f_equal; lia|lia].
Qed.

Lemma asert_upper_None initial drift h cap :
  0 <= initial -> 0 <= cap < 2 ^ 256 -> 0 <= h < 2 ^ 32 ->
  asert_upper initial drift h cap = None <-> ~ asert_params initial h cap.
Proof.
  intros Hi Hc Hh. split.
  - intros Hn Hp. rewrite asert_upper_clamp in Hn; done.
  - intros Hn. unfold asert_upper.
    destruct (Z.eqb_spec initial 0), (Z.eqb_spec cap 0), (Z.ltb_spec cap initial), (Z.eqb_spec h 0); try done.
    destruct Hn. split; lia.
Qed.

Lemma asert_upper_range initial drift h cap :
  asert_params initial h cap -> exists t, asert_upper initial drift h cap = Some t /\ 1 <= t <= cap.
Proof.
  intros Hp. rewrite asert_upper_clamp by done. destruct Hp as [Hi _ _].
  eexists. split; [done|]. repeat case_match; lia.
Qed.

Lemma asert_exponent_half_lives k h : 0 < h -> asert_exponent (k * h) h = k * FRACTION_SCALE.
Proof.
  intros Hh. unfold asert_exponent. replace (k * h * FRACTION_SCALE) with (k * FRACTION_SCALE * h) by ring.
  apply Z.quot_mul. lia.
Qed.

Lemma asert_target_half_lives initial k :
  0 < initial < 2 ^ 256 -> -256 < k < 256 ->
  asert_target initial (k * FRACTION_SCALE) = Z.shiftl initial k.
Proof.
  intros Hi Hk. rewrite asert_target_scaled by (unfold FRACTION_SCALE; lia).
  unfold asert_scaled. rewrite Z.div_mul, Z.mod_mul by done. change (asert_factor 0) with (2 ^ 16).
  replace (initial * 2 ^ 16 * 2 ^ (k + 256)) with (initial * 2 ^ (k + 272))
    by (rewrite <-Z.mul_assoc, <-Z.pow_add_r by lia; do 2 f_equal; lia).
  destruct (decide (0 <= k)).
  - rewrite Z.shiftl_mul_pow2 by lia. rewrite Z.pow_add_r, Z.mul_assoc by lia.
    by rewrite Z.div_mul.
  - rewrite <-(Z.opp_involutive k) at 2. rewrite Z.shiftl_opp_r, Z.shiftr_div_pow2 by lia.
    replace 272 with ((- k) + (k + 272)) at 2 by lia.
    rewrite (Z.pow_add_r 2 (- k) (k + 272)) by lia.
    rewrite Z.div_mul_cancel_r; [done| |]; apply Z.pow_nonzero; lia.
Qed.

(** * Lemmas on work *)

Lemma block_work_div t : in_u256 t -> block_work t = 2 ^ 256 / (t + 1).
Proof.
  intros Ht. unfold block_work. cbv zeta. rewrite wrap_small; [done|].
  split; [unfold in_uint in *; lia|]. assert (2 ^ 256 < 2 ^ 512) by done. unfold in_uint in *. lia.
Qed.

Lemma block_work_pos t : in_u256 t -> 1 <= block_work t <= 2 ^ 256.
Proof.
  intros Ht. rewrite block_work_div by done. unfold in_uint in Ht. split.
  - apply Z.div_le_lower_bound; lia.
  - apply Z.div_le_upper_bound; nia.
Qed.

Lemma add_work_Ok p w s : add_work p w = Ok s <-> s = p + w /\ p + w < 2 ^ 512.
Proof. unfold add_work. by rewrite ok_or_Ok, checked_add_Some. Qed.

Lemma PowParams_validate_Ok p :
  PowParams_validate p = Ok tt <->
  target_spacing_secs p <> 0 /\ half_life_secs p <> 0 /\ initial_hash_threshold p <> 0 /\
  max_hash_threshold p <> 0 /\ initial_hash_threshold p <= max_hash_threshold p.
Proof.
  unfold PowParams_validate.
  destruct (Z.eqb_spec (target_spacing_secs p) 0), (Z.eqb_spec (half_life_secs p) 0),
    (Z.eqb_spec (initial_hash_threshold p) 0), (Z.eqb_spec (max_hash_threshold p) 0),
    (Z.leb_spec (initial_hash_threshold p) (max_hash_threshold p)); cbn;
    split; try done; lia.
Qed.

(** * Properties *)

(** C39: for valid parameters the ASERT schedule always yields a target between 1 and
    the cap (the final narrowing to [U256] never fails), and it returns [None] exactly
    on the documented invalid parameters. *)
Theorem asert_total_bounded initial drift h cap :
  0 <= initial -> 0 <= cap < 2 ^ 256 -> 0 <= h < 2 ^ 32 ->
  (asert_upper initial drift h cap = None <->
     initial = 0 \/ cap = 0 \/ cap < initial \/ h = 0) /\
  (forall t, asert_upper initial drift h cap = Some t -> 1 <= t <= cap).
Proof.
  intros Hi Hc Hh. split.
  - rewrite asert_upper_None by done. split.
    + intros Hn. destruct (decide (0 < initial <= cap /\ 0 < h)); [|lia].
      destruct Hn. split; lia.
    + intros Hbad [? ? ?]. lia.
  - intros t Ht. assert (asert_params initial h cap) as Hp.
    { destruct (decide (0 < initial <= cap /\ 0 < h)); [split; lia|].
      assert (asert_upper initial drift h cap = None) by
        (rewrite asert_upper_None by done; intros [? ? ?]; lia). congruence. }
    destruct (asert_upper_range initial drift h cap Hp) as (t' & Ht' & Hr). congruence.
Qed.

Lemma asert_total_bounded_witness :
  (0 <= 1000000 /\ 0 <= 10000000 < 2 ^ 256 /\ 0 <= 3600 < 2 ^ 32) /\
  forall t, asert_upper 1000000 (-1800) 3600 10000000 = Some t -> 1 <= t <= 10000000.
Proof. split; [lia|]. apply (asert_total_bounded 1000000 (-1800) 3600 10000000); lia. Defined.

(** The schedule is monotone: a chain further behind its timetable never gets a
    harder target. *)
Theorem asert_monotone initial d d' h cap t t' :
  asert_params initial h cap -> d <= d' ->
  asert_upper initial d h cap = Some t -> asert_upper initial d' h cap = Some t' -> t <= t'.
Proof.
  intros Hp Hd. rewrite !asert_upper_clamp by done. destruct Hp as [Hi Hc Hh].
  intros [= <-] [= <-].
  destruct (Z.leb_spec (256 * h) d), (Z.leb_spec (256 * h) d'),
    (Z.leb_spec d (- (256 * h))), (Z.leb_spec d' (- (256 * h))); try lia.
  pose proof (asert_exponent_range d h ltac:(lia) ltac:(lia)) as He.
  pose proof (asert_exponent_range d' h ltac:(lia) ltac:(lia)) as He'.
  pose proof (asert_target_mono initial _ _ ltac:(lia) (proj1 He)
    (asert_exponent_mono d d' h ltac:(lia) Hd) (proj2 He')). lia.
Qed.

Lemma asert_monotone_witness : 707046 <= 1414093.
Proof.
  apply (asert_monotone 1000000 (-1800) 1800 3600 10000000); [split; lia|lia|reflexivity|reflexivity].
Defined.

(** After exactly [k] half-lives of drift the target is the initial one shifted by
    [k] bits, clamped to [1 .. cap]: it doubles per half-life behind schedule and
    halves (rounding down) per half-life ahead. *)
Lemma asert_half_lives initial k h cap :
  asert_params initial h cap -> -256 < k < 256 ->
  asert_upper initial (k * h) h cap = Some (Z.max 1 (Z.min cap (Z.shiftl initial k))).
Proof.
  intros Hp Hk. rewrite asert_upper_clamp by done. destruct Hp as [Hi Hc Hh].
  destruct (Z.leb_spec (256 * h) (k * h)); [nia|].
  destruct (Z.leb_spec (k * h) (- (256 * h))); [nia|].
  rewrite asert_exponent_half_lives, asert_target_half_lives by lia. done.
Qed.

(** No intermediate value of the ASERT computation leaves its machine type: the
    [i128] product, the [u128] polynomial, the [u64] factor and the [U512] target. *)
Lemma asert_no_overflow initial drift h cap f :
  asert_params initial h cap -> - (256 * h) < drift < 256 * h -> 0 <= f < FRACTION_SCALE ->
  - 2 ^ 127 <= drift * FRACTION_SCALE < 2 ^ 127 /\
  195766423245049 * f + 971821376 * f * f + 5127 * f * f * f + Z.shiftl 1 47 < 2 ^ 128 /\
  in_u64 (asert_factor f) /\
  initial * asert_factor f < 2 ^ 512 /\
  (let w := asert_exponent drift h / FRACTION_SCALE in
   FRACTION_BITS <= w -> initial * asert_factor f * 2 ^ (w - FRACTION_BITS) < 2 ^ 512).
Proof.
  intros [Hi Hc Hh] Hd Hf. pose proof (asert_factor_range f Hf) as Hr.
  unfold FRACTION_SCALE, FRACTION_BITS in *.
  assert (initial * asert_factor f < 2 ^ 273) as Hx by (change (2 ^ 273) with (2 ^ 256 * 131072); nia).
  split; [lia|]. split.
  { change (Z.shiftl 1 47) with 140737488355328.
    assert (f * f <= 65536 * 65536) by nia. assert (f * f * f <= 65536 * 65536 * 65536) by nia.
    change (2 ^ 128) with 340282366920938463463374607431768211456. nia. }
  split; [split; [lia|]; assert (131072 < 2 ^ 64) by done; lia|].
  split; [assert (2 ^ 273 < 2 ^ 512) by done; lia|].
  cbv zeta. intros Hw. pose proof (asert_exponent_range drift h ltac:(lia) ltac:(lia)) as He.
  apply exponent_split in He as [He _]. unfold FRACTION_SCALE in He.
  apply Z.lt_le_trans with (2 ^ 273 * 2 ^ (asert_exponent drift h / 65536 - 16)).
  - apply Z.mul_lt_mono_pos_r; [apply Z.pow_pos_nonneg|]; lia.
  - rewrite <-Z.pow_add_r by lia. apply Z.pow_le_mono_r; lia.
Qed.

(** Block work is the floored inverse success probability [2^256 / (target + 1)]
    computed without wrap-around: between 1 and [2^256], antitone in the target, and
    accumulating it fails exactly when the sum leaves [U512]. *)
Theorem block_work_spec t t' p :
  in_u256 t -> in_u256 t' -> t <= t' ->
  block_work t * (t + 1) <= 2 ^ 256 < (block_work t + 1) * (t + 1) /\
  1 <= block_work t <= 2 ^ 256 /\
  block_work t' <= block_work t /\
  (add_work p (block_work t) = Ok (p + block_work t) <-> p + block_work t < 2 ^ 512).
Proof.
  intros Ht Ht' Hle. pose proof (block_work_pos t Ht). split; [|split; [done|split]].
  - rewrite block_work_div by done. unfold in_uint in *.
    pose proof (Z.div_mod (2 ^ 256) (t + 1) ltac:(lia)).
    pose proof (Z.mod_pos_bound (2 ^ 256) (t + 1) ltac:(lia)). lia.
  - rewrite !block_work_div by done. unfold in_uint in *. apply Z.div_le_compat_l; lia.
  - rewrite add_work_Ok. tauto.
Qed.

Lemma block_work_spec_witness : block_work 7 <= block_work 3.
Proof. apply (block_work_spec 3 7 0); [split; [lia|done]|split; [lia|done]|lia]. Defined.

(** The little-endian codecs of thresholds and chain work are inverse bijections
    between the integers of the type and the byte strings of its exact length. *)
Lemma work_codecs_roundtrip v w bytes bytes' :
  in_u256 v -> in_u512 w ->
  threshold_from_bytes (arr (threshold_to_bytes v)) = Ok v /\
  chain_work_from_bytes (arr (chain_work_to_bytes w)) = Ok w /\
  (threshold_from_bytes bytes = Ok v <-> arr (threshold_to_bytes v) = bytes) /\
  (chain_work_from_bytes bytes' = Ok w <-> arr (chain_work_to_bytes w) = bytes').
Proof.
  intros Hv Hw.
  assert (forall n x, in_uint (8 * Z.of_nat n) x -> le_val (le_bytes n x) = x) as Hle.
  { intros n x Hx. apply le_val_bytes_small. by rewrite pow256. }
  assert (forall b, threshold_from_bytes b = Ok v <-> arr (threshold_to_bytes v) = b) as HT.
  { intros b. unfold threshold_from_bytes, threshold_to_bytes. cbn [arr array_le].
    destruct (Nat.eqb_spec (length b) 32) as [Hl|Hl]; cbn [negb].
    - split; [intros [= <-]; rewrite <-Hl; apply le_bytes_val|].
      intros <-. f_equal. by apply Hle.
    - split; [done|]. intros <-. by rewrite le_bytes_length in Hl. }
  assert (forall b, chain_work_from_bytes b = Ok w <-> arr (chain_work_to_bytes w) = b) as HW.
  { intros b. unfold chain_work_from_bytes, chain_work_to_bytes. cbn [arr array_le].
    destruct (Nat.eqb_spec (length b) 64) as [Hl|Hl]; cbn [negb].
    - split; [intros [= <-]; rewrite <-Hl; apply le_bytes_val|].
      intros <-. f_equal. by apply Hle.
    - split; [done|]. intros <-. by rewrite le_bytes_length in Hl. }
  split; [by apply HT|]. split; [by apply HW|]. by split.
Qed.

(** The subsidy is [max 0 (initial - floor(height / interval) * step)], the
    documented formula, despite saturating arithmetic; it never exceeds the initial
    subsidy and never grows with the height. *)
Theorem block_subsidy_linear_decay c h h' :
  in_u64 (initial_subsidy c) -> 0 <= decay_interval c -> 0 <= decay_step c -> 0 <= h <= h' ->
  block_subsidy c h =
    (if decide (decay_interval c = 0) then initial_subsidy c
     else Z.max 0 (initial_subsidy c - h / decay_interval c * decay_step c)) /\
  0 <= block_subsidy c h' <= block_subsidy c h /\
  block_subsidy c h <= initial_subsidy c.
Proof.
  intros Hi Hd Hs Hh. unfold in_uint in Hi.
  assert (forall x, 0 <= x -> block_subsidy c x =
    if decide (decay_interval c = 0) then initial_subsidy c
    else Z.max 0 (initial_subsidy c - x / decay_interval c * decay_step c)) as Hf.
  { intros x Hx. unfold block_subsidy, saturating_sub, saturating_mul, uint_max.
    destruct (Z.eqb_spec (decay_interval c) 0) as [He|He]; case_decide; try done.
    cbv zeta. assert (0 <= x / decay_interval c * decay_step c).
    { apply Z.mul_nonneg_nonneg; [apply Z.div_pos; lia|done]. } lia. }
  split; [apply Hf; lia|]. rewrite !Hf by lia. case_decide as He; [lia|].
  assert (0 <= h / decay_interval c) by (apply Z.div_pos; lia).
  assert (h / decay_interval c <= h' / decay_interval c) by (apply Z.div_le_mono; lia).
  nia.
Qed.

Lemma block_subsidy_linear_decay_witness :
  0 <= block_subsidy ConsensusConsts_default 25 <= block_subsidy ConsensusConsts_default 7.
Proof.
  apply (block_subsidy_linear_decay ConsensusConsts_default 7 25); [split; [cbn; lia|done]|cbn; lia|cbn; lia|lia].
Defined.
