(* ===== verification/Merkle.v ===== *)
(** Merkle: the Merkle tree of a block, its proofs and their verification
    ([merkletree.rs]). *)
From S2P Require Import Prelude Bytes Types Externals Hashing.

(** [struct MerkleTree] and [struct MerkleProof] *)
Record MerkleTree := mk_MerkleTree { levels : list (list MerkleHash); root : option MerkleHash }.
Record MerkleProof := mk_MerkleProof { sibling_hashes : list MerkleHash; leaf_index : nat }.

Section Merkle.
Context {X : Externals}.

(** The leaf hash; [try_from] of a 32-byte digest cannot fail. *)
Definition leaf_hash (data : list byte) : MerkleHash :=
  @mk_Hash MerkleRootHashKind (HashKind_hash MerkleRootHashKind data).

(** [MerkleTree::combine_hashes] *)
Definition combine_hashes (l r : MerkleHash) : MerkleHash :=
  @mk_Hash MerkleRootHashKind (blake3_hash (arr (hash_data l) ++ arr (hash_data r))).

(** An odd level repeats its last node. *)
Definition pad_level (level : list MerkleHash) : list MerkleHash :=
  if Nat.even (length level) then level
  else match last level with Some h => level ++ [h] | None => level end.

(** [chunks(2)] of the padded level, combined pairwise; a padded level has no
    incomplete pair ([next_level_lookup]). *)
Definition next_level (level : list MerkleHash) : list MerkleHash :=
  (fun pair => match pair with
               | [l; r] => combine_hashes l r
               | _ => MerkleHash_empty
               end) <$> chunks 2 (pad_level level).

(** [while current_level.len() > 1]: the levels pushed above the given one, and
    the final level. *)
Fixpoint build_levels (fuel : nat) (current : list MerkleHash) : list (list MerkleHash) * list MerkleHash :=
  match fuel with
  | O => ([], current)
  | S fuel =>
      if (1 <? length current)%nat then
        let next := next_level current in
        let '(above, final) := build_levels fuel next in
        (next :: above, final)
      else ([], current)
  end.

(** [MerkleTree::new]; the number of leaves is enough fuel. *)
Definition MerkleTree_new (leaves_data : list (list byte)) : MerkleTree :=
  let current_level := leaf_hash <$> leaves_data in
  match current_level with
  | [] => mk_MerkleTree [] None
  | _ =>
      let '(above, final) := build_levels (length current_level) current_level in
      mk_MerkleTree (current_level :: above) (head final)
  end.

(** [MerkleTree::root_hash] *)
Definition root_hash (t : MerkleTree) : option MerkleHash := root t.

(** The sibling at one level: the neighbour, or the last node when it is missing. *)
Definition sibling_at (level : list MerkleHash) (index : nat) : option MerkleHash :=
  let sibling_index := if Nat.even index then (index + 1)%nat else (index - 1)%nat in
  if (sibling_index <? length level)%nat then level !! sibling_index else last level.

(** The loop of [generate_proof] over all levels but the root. *)
Fixpoint collect_siblings (ls : list (list MerkleHash)) (index : nat) : option (list MerkleHash) :=
  match ls with
  | [] => Some []
  | level :: ls =>
      s ← sibling_at level index;
      rest ← collect_siblings ls (index / 2)%nat;
      Some (s :: rest)
  end.

(** [MerkleTree::generate_proof] *)
Definition generate_proof (t : MerkleTree) (leaf_index : nat) : option MerkleProof :=
  match levels t with
  | [] => None
  | leaves :: _ =>
      if (length leaves <=? leaf_index)%nat then None
      else
        siblings ← collect_siblings (take (length (levels t) - 1) (levels t)) leaf_index;
        Some (mk_MerkleProof siblings leaf_index)
  end.

(** The loop of [verify] from a leaf hash to the root. *)
Fixpoint fold_path (h : MerkleHash) (index : nat) (siblings : list MerkleHash) : MerkleHash :=
  match siblings with
  | [] => h
  | s :: siblings =>
      fold_path (if Nat.even index then combine_hashes h s else combine_hashes s h)
        (index / 2)%nat siblings
  end.

(** [MerkleProof::verify] *)
Definition verify (p : MerkleProof) (leaf_data : list byte) (expected_root : MerkleHash) : bool :=
  bool_decide (fold_path (leaf_hash leaf_data) (leaf_index p) (sibling_hashes p) = expected_root).

(** [calc_merkle_root] *)
Definition calc_merkle_root (txs : list Transaction) : MerkleHash :=
  match txs with
  | [] => MerkleHash_empty
  | _ => default MerkleHash_empty (root_hash (MerkleTree_new (postcard_tx <$> txs)))
  end.

(** [Block::compute_merkle_root] *)
Definition compute_merkle_root (txs : list Transaction) : MerkleHash :=
  default MerkleHash_empty (root_hash (MerkleTree_new (postcard_tx <$> txs))).

(** ** Lemmas *)

Lemma pad_level_even level : Nat.even (length (pad_level level)) = true.
Proof.
  unfold pad_level. destruct (Nat.even (length level)) eqn:He; [done|].
  destruct (last level) as [h|] eqn:Hl.
  - rewrite length_app, Nat.add_1_r, Nat.even_succ, <-Nat.negb_even, He. done.
  - by apply last_None in Hl as ->.
Qed.

Lemma pad_level_length level : length (pad_level level) = (2 * ((length level + 1) / 2))%nat.
Proof.
  unfold pad_level. destruct (Nat.even (length level)) eqn:He.
  - apply Nat.even_spec in He as [k Hk]. rewrite Hk.
    replace (2 * k + 1)%nat with (1 + k * 2)%nat by lia. by rewrite Nat.div_add.
  - destruct (last level) as [h|] eqn:Hl.
    + rewrite length_app. cbn [length].
      assert (Nat.odd (length level) = true) as Ho by (by rewrite <-Nat.negb_even, He).
      apply Nat.odd_spec in Ho as [k Hk]. rewrite Hk.
      replace (2 * k + 1 + 1)%nat with ((k + 1) * 2)%nat by lia. rewrite Nat.div_mul by lia. lia.
    + apply last_None in Hl as ->. done.
Qed.

Lemma chunks_pairs (l : list MerkleHash) i :
  Nat.even (length l) = true ->
  length (chunks 2 l) = (length l / 2)%nat /\
  ((2 * i + 1 < length l)%nat -> exists a b, l !! (2 * i)%nat = Some a /\
     l !! (2 * i + 1)%nat = Some b /\ chunks 2 l !! i = Some [a; b]).
Proof.
  intros He. apply Nat.even_spec in He as [k Hk]. revert l i Hk.
  induction k as [|k IH]; intros l i Hk.
  - destruct l; [|cbn in Hk; lia]. split; [done|]. cbn. lia.
  - destruct l as [|a [|b l]]; [cbn in Hk; lia|cbn in Hk; lia|]. cbn [length] in *.
    assert (chunks 2 (a :: b :: l) = [a; b] :: chunks 2 l) as -> by (by rewrite chunks_step by (done || lia)).
    destruct (IH l (i - 1)%nat ltac:(lia)) as [Hlen Hget]. split.
    + cbn [length]. rewrite Hlen. replace (S (S (length l))) with (length l + 1 * 2)%nat by lia.
      rewrite Nat.div_add by lia. lia.
    + intros Hi. destruct i as [|i]; [by exists a, b|].
      destruct (Hget ltac:(lia)) as (x & y & Hx & Hy & Hc). exists x, y.
      replace (S i - 1)%nat with i in * by lia.
      replace (2 * S i)%nat with (S (S (2 * i))) by lia.
      replace (2 * S i + 1)%nat with (S (S (2 * i + 1))) by lia. cbn. auto.
Qed.

Lemma next_level_length level : length (next_level level) = ((length level + 1) / 2)%nat.
Proof.
  unfold next_level. rewrite length_fmap.
  destruct (chunks_pairs (pad_level level) 0 (pad_level_even level)) as [-> _].
  rewrite pad_level_length, Nat.mul_comm. by apply Nat.div_mul.
Qed.

Lemma pad_level_sibling level i h :
  level !! i = Some h -> exists s, sibling_at level i = Some s /\
    pad_level level !! i = Some h /\
    pad_level level !! (if Nat.even i then i + 1 else i - 1)%nat = Some s.
Proof.
  intros Hi. pose proof (lookup_lt_Some _ _ _ Hi) as Hlt.
  assert (pad_level level !! i = Some h) as Hpi.
  { unfold pad_level. destruct (Nat.even (length level)); [done|].
    destruct (last level); [|done]. by rewrite lookup_app_l. }
  unfold sibling_at. set (j := (if Nat.even i then i + 1 else i - 1)%nat).
  destruct (Nat.ltb_spec j (length level)) as [Hj|Hj].
  - apply lookup_lt_is_Some in Hj as [s Hs]. exists s. split; [done|]. split; [done|].
    unfold pad_level. destruct (Nat.even (length level)); [done|].
    destruct (last level); [|done]. rewrite lookup_app_l; [done|]. by eapply lookup_lt_Some.
  - destruct (Nat.even i) eqn:He; [|lia].
    assert (length level = i + 1)%nat as Hl by lia.
    assert (Nat.even (length level) = false) as Hodd
      by (rewrite Hl, Nat.add_1_r, Nat.even_succ, <-Nat.negb_even, He; done).
    assert (last level = Some h) as Hlast
      by (rewrite last_lookup, Hl; replace (pred (i + 1)) with i by lia; done).
    exists h. split; [done|]. split; [done|]. unfold pad_level. rewrite Hodd, Hlast.
    rewrite lookup_app_r by lia. subst j. by replace (i + 1 - length level)%nat with 0%nat by lia.
Qed.

(** One step of the path: the parent of node [i] combines it with its sibling. *)
Lemma next_level_lookup level i h :
  level !! i = Some h -> exists s, sibling_at level i = Some s /\
    next_level level !! (i / 2)%nat =
      Some (if Nat.even i then combine_hashes h s else combine_hashes s h).
Proof.
  intros Hi. destruct (pad_level_sibling level i h Hi) as (s & Hs & Hpi & Hps).
  exists s. split; [done|]. pose proof (lookup_lt_Some _ _ _ Hps) as Hlt.
  pose proof (lookup_lt_Some _ _ _ Hpi) as Hlt'.
  unfold next_level. rewrite list_lookup_fmap.
  assert (i = 2 * (i / 2) + (if Nat.even i then 0 else 1))%nat as Hsplit.
  { destruct (Nat.even i) eqn:He.
    - apply Nat.even_spec in He as [k ->]. rewrite Nat.mul_comm, Nat.div_mul by lia. lia.
    - assert (Nat.odd i = true) as Ho by (by rewrite <-Nat.negb_even, He).
      apply Nat.odd_spec in Ho as [k ->].
      replace (2 * k + 1)%nat with (1 + k * 2)%nat by lia. rewrite Nat.div_add by lia.
      change (1 / 2)%nat with 0%nat. lia. }
  destruct (chunks_pairs (pad_level level) (i / 2)%nat (pad_level_even level)) as [_ Hc].
  destruct (Nat.even i) eqn:He.
  - destruct Hc as (a & b & Ha & Hb & ->); [lia|].
    replace (2 * (i / 2))%nat with i in Ha, Hb by lia. cbn. congruence.
  - destruct Hc as (a & b & Ha & Hb & ->); [lia|].
    replace (2 * (i / 2))%nat with (i - 1)%nat in Ha, Hb by lia.
    replace (i - 1 + 1)%nat with i in Hb by lia. cbn. congruence.
Qed.

(** The loop ends with a single node and every level is built from the one below. *)
Fixpoint levels_chain (level : list MerkleHash) (above : list (list MerkleHash)) : Prop :=
  match above with
  | [] => length level = 1%nat
  | next :: above => (1 < length level)%nat /\ next = next_level level /\ levels_chain next above
  end.

Lemma build_levels_chain fuel current :
  (0 < length current <= fuel)%nat ->
  exists above r, build_levels fuel current = (above, [r]) /\ levels_chain current above /\
    last (current :: above) = Some [r].
Proof.
  revert current. induction fuel as [|fuel IH]; intros current Hl; [lia|]. cbn [build_levels].
  destruct (Nat.ltb_spec 1 (length current)) as [H1|H1].
  - pose proof (next_level_length current) as Hn.
    assert ((length current + 1) / 2 < length current)%nat by (apply Nat.div_lt_upper_bound; lia).
    assert (0 < (length current + 1) / 2)%nat by (apply Nat.div_str_pos; lia).
    destruct (IH (next_level current)) as (above & r & -> & Hc & Hlast); [lia|].
    exists (next_level current :: above), r. split; [done|]. split; [cbn; auto|].
    by rewrite last_cons, Hlast.
  - destruct current as [|r [|? ?]]; cbn in *; try lia. exists [], r. done.
Qed.

Lemma levels_chain_det level above above' r r' :
  levels_chain level above -> levels_chain level above' ->
  last (level :: above) = Some [r] -> last (level :: above') = Some [r'] -> r = r'.
Proof.
  revert level above'. induction above as [|n above IH]; intros level above' Hc Hc' Hl Hl'.
  - destruct above' as [|n' above']; [cbn in *; congruence|].
    cbn in Hc. destruct Hc' as [Hlt _]. lia.
  - destruct Hc as (Hlt & -> & Hc). destruct above' as [|n' above']; [cbn in Hc'; lia|].
    destruct Hc' as (_ & -> & Hc'). rewrite last_cons_cons in Hl, Hl'. eauto.
Qed.

Lemma collect_fold level above i h r :
  levels_chain level above -> last (level :: above) = Some [r] -> level !! i = Some h ->
  exists ss, collect_siblings (take (length above) (level :: above)) i = Some ss /\
    length ss = length above /\ fold_path h i ss = r.
Proof.
  revert level i h. induction above as [|next above IH]; intros level i h Hc Hlast Hi.
  - cbn in Hlast. injection Hlast as ->. exists [].
    split; [done|]. split; [done|]. cbn. destruct i; cbn in Hi; [congruence|done].
  - destruct Hc as (Hl & -> & Hc). rewrite last_cons_cons in Hlast.
    destruct (next_level_lookup level i h Hi) as (s & Hs & Hnext).
    destruct (IH _ _ _ Hc Hlast Hnext) as (ss & Hss & Hlen & Hf).
    exists (s :: ss). split; [|by cbn; rewrite Hlen].
    change (take (length (next_level level :: above)) (level :: next_level level :: above))
      with (level :: take (length above) (next_level level :: above)).
    cbn [collect_siblings]. rewrite Hs. cbn [mbind option_bind]. by rewrite Hss.
Qed.

Lemma MerkleTree_new_shape leaves :
  leaves <> [] -> exists above r,
    MerkleTree_new leaves = mk_MerkleTree ((leaf_hash <$> leaves) :: above) (Some r) /\
    levels_chain (leaf_hash <$> leaves) above /\
    last ((leaf_hash <$> leaves) :: above) = Some [r].
Proof.
  intros Hne. unfold MerkleTree_new.
  destruct (build_levels_chain (length (leaf_hash <$> leaves)) (leaf_hash <$> leaves))
    as (above & r & Hb & Hc & Hl).
  { rewrite length_fmap. destruct leaves; [done|cbn; lia]. }
  rewrite Hb. exists above, r. split; [|done].
  by destruct leaves.
Qed.

(** Two distinct preimages of one digest. *)
Definition collision : Prop := exists x y, x <> y /\ blake3_hash x = blake3_hash y.

Lemma combine_inj l r l' r' :
  combine_hashes l r = combine_hashes l' r' -> (l = l' /\ r = r') \/ collision.
Proof.
  intros H. injection H as H. destruct (decide (arr (hash_data l) ++ arr (hash_data r) =
    arr (hash_data l') ++ arr (hash_data r'))) as [Heq|Hne].
  - left. apply app_inj_1 in Heq as [Hl Hr]; [|by rewrite !array_length].
    apply array_eq in Hl, Hr. destruct l, r, l', r'; cbn in *. by subst.
  - right. by eexists _, _.
Qed.

Lemma leaf_inj d d' : leaf_hash d = leaf_hash d' -> d = d' \/ collision.
Proof.
  intros H. injection H as H. destruct (decide (d = d')); [by left|].
  right. exists d, d'. split; [done|]. exact H.
Qed.

Lemma fold_path_inj ss ss' h h' i :
  length ss = length ss' -> fold_path h i ss = fold_path h' i ss' ->
  (h = h' /\ ss = ss') \/ collision.
Proof.
  revert ss' h h' i. induction ss as [|s ss IH]; intros [|s' ss'] h h' i Hl Hf; try done; [by left|].
  cbn in *. destruct (IH ss' _ _ _ ltac:(lia) Hf) as [[Hc ->]|]; [|by right].
  destruct (Nat.even i); apply combine_inj in Hc as [[-> ->]|]; auto.
Qed.
(** The two root computations of the code base agree. *)
Lemma merkle_roots_agree txs : calc_merkle_root txs = compute_merkle_root txs.
Proof. by destruct txs. Qed.

(** The padding rule makes the root ambiguous: repeating the last transaction of an
    odd list of at least three leaves the root unchanged. *)
Lemma merkle_duplicate_last txs t :
  Nat.odd (length (txs ++ [t])) = true -> (1 < length (txs ++ [t]))%nat ->
  compute_merkle_root ((txs ++ [t]) ++ [t]) = compute_merkle_root (txs ++ [t]).
Proof.
  intros Ho Hl. unfold compute_merkle_root, MerkleTree_new.
  set (l := leaf_hash <$> (postcard_tx <$> txs ++ [t])).
  assert (leaf_hash <$> (postcard_tx <$> (txs ++ [t]) ++ [t]) = pad_level l) as ->.
  { unfold pad_level, l. rewrite !length_fmap, <-Nat.negb_odd, Ho. cbn [negb].
    rewrite !fmap_app. simpl. by rewrite last_snoc. }
  assert (next_level (pad_level l) = next_level l) as Hn.
  { unfold next_level. unfold pad_level at 1. by rewrite pad_level_even. }
  assert (length l = length (txs ++ [t])) as Hll by (by unfold l; rewrite !length_fmap).
  assert (length (pad_level l) = S (length l)) as Hlp.
  { unfold pad_level. rewrite Hll, <-Nat.negb_odd, Ho. cbn [negb].
    destruct (last l) as [h|] eqn:Hlast; [rewrite length_app; simpl; lia|].
    apply last_None in Hlast. rewrite Hlast in Hll. cbn in Hll. lia. }
  pose proof (next_level_length l) as Hnl.
  assert ((length l + 1) / 2 < length l)%nat by (apply Nat.div_lt_upper_bound; lia).
  assert (0 < (length l + 1) / 2)%nat by (apply Nat.div_str_pos; lia).
  destruct (build_levels_chain (length l) (next_level l)) as (a1 & r1 & Hb1 & Hc1 & Hl1); [lia|].
  destruct (build_levels_chain (length l - 1) (next_level l)) as (a2 & r2 & Hb2 & Hc2 & Hl2); [lia|].
  assert (r1 = r2) as -> by (exact (levels_chain_det _ _ _ _ _ Hc1 Hc2 Hl1 Hl2)).
  destruct (pad_level l) as [|x pl] eqn:Hpl; [cbn in Hlp; lia|].
  destruct l as [|y l'] eqn:Hl'; [cbn in Hll; lia|].
  rewrite Hlp. cbn [build_levels]. rewrite Hlp.
  destruct (Nat.ltb_spec 1 (S (length (y :: l')))); [|cbn in *; lia].
  rewrite Hn, Hb1. replace (length (y :: l') - 1)%nat with (length l') in Hb2 by (cbn; lia).
  cbn [length build_levels] in *.
  destruct (Nat.ltb_spec 1 (S (length l'))); [|lia]. by rewrite Hb2.
Qed.
End Merkle.

(** * Properties *)

Section MerkleProperties.
Context {X : Externals}.

(** Every leaf of a non-empty tree has a proof, and that proof verifies against
    the root; no proof exists past the last leaf. *)
Theorem merkle_proof_complete leaves i data :
  leaves !! i = Some data ->
  exists r p, root_hash (MerkleTree_new leaves) = Some r /\
    generate_proof (MerkleTree_new leaves) i = Some p /\ verify p data r = true /\
    (forall j, (length leaves <= j)%nat -> generate_proof (MerkleTree_new leaves) j = None).
Proof.
  intros Hi. destruct (MerkleTree_new_shape leaves) as (above & r & Hnew & Hc & Hlast);
    [by intros ->|].
  destruct (collect_fold _ _ i (leaf_hash data) r Hc Hlast) as (ss & Hss & _ & Hf).
  { by rewrite list_lookup_fmap, Hi. }
  exists r, (mk_MerkleProof ss i). rewrite Hnew. unfold generate_proof. cbn [levels root_hash root].
  rewrite length_fmap. split; [done|]. split; [|split].
  - destruct (Nat.leb_spec (length leaves) i); [apply lookup_lt_Some in Hi; lia|].
    cbn [length]. rewrite Nat.sub_succ, Nat.sub_0_r, Hss. done.
  - apply bool_decide_eq_true. exact Hf.
  - intros j Hj. destruct (Nat.leb_spec (length leaves) j); [done|lia].
Qed.

(** A proof of the tree's depth that verifies for an in-range index proves the
    leaf at that index, unless it exhibits a BLAKE3 collision. *)
Theorem merkle_proof_sound leaves r p p' data data' :
  root_hash (MerkleTree_new leaves) = Some r ->
  leaves !! leaf_index p = Some data ->
  generate_proof (MerkleTree_new leaves) (leaf_index p) = Some p' ->
  length (sibling_hashes p) = length (sibling_hashes p') ->
  verify p data' r = true ->
  (data' = data /\ sibling_hashes p = sibling_hashes p') \/ collision.
Proof.
  intros Hr Hi Hp' Hlen Hv.
  destruct (MerkleTree_new_shape leaves) as (above & r' & Hnew & Hc & Hlast); [by intros ->|].
  rewrite Hnew in *. cbn in Hr. injection Hr as <-.
  destruct (collect_fold _ _ (leaf_index p) (leaf_hash data) r' Hc Hlast) as (ss & Hss & Hls & Hf).
  { by rewrite list_lookup_fmap, Hi. }
  unfold generate_proof in Hp'. cbn [levels] in Hp'. rewrite length_fmap in Hp'.
  destruct (Nat.leb_spec (length leaves) (leaf_index p)); [done|].
  cbn [length] in Hp'. rewrite Nat.sub_succ, Nat.sub_0_r, Hss in Hp'. injection Hp' as <-.
  apply bool_decide_eq_true in Hv. rewrite <-Hf in Hv. cbn in Hlen.
  apply fold_path_inj in Hv as [[Hleaf ->]|]; [|by right|done].
  apply leaf_inj in Hleaf as [->|]; auto.
Qed.

End MerkleProperties.

Section MerkleWitnesses.
Import Toy.

Definition demo_leaves : list (list byte) := [[Byte.x01]; [Byte.x02]; [Byte.x03]].

Lemma merkle_proof_complete_witness :
  exists r p, root_hash (MerkleTree_new demo_leaves) = Some r /\ verify p [Byte.x03] r = true.
Proof.
  destruct (merkle_proof_complete demo_leaves 2 [Byte.x03] eq_refl) as (r & p & Hr & _ & Hv & _).
  exists r, p. split; [exact Hr|exact Hv].
Defined.

Definition demo_proof : MerkleProof :=
  default (mk_MerkleProof [] 0) (generate_proof (MerkleTree_new demo_leaves) 1).
Definition demo_root : MerkleHash :=
  default MerkleHash_empty (root_hash (MerkleTree_new demo_leaves)).

Lemma merkle_proof_sound_witness :
  ([Byte.x02] = [Byte.x02] /\ sibling_hashes demo_proof = sibling_hashes demo_proof) \/ collision.
Proof.
  apply (merkle_proof_sound demo_leaves demo_root demo_proof demo_proof [Byte.x02] [Byte.x02]);
    vm_compute; reflexivity.
Defined.
End MerkleWitnesses.
