(* ===== verification/Transactions.v ===== *)
(** Transactions: identity, signing and signature recovery
    ([transactions/mod.rs], [transactions/signature.rs]), the fee policy
    ([transactions/fee_policy.rs]) and the size estimate ([transactions/size.rs]). *)
From S2P Require Import Prelude Bytes Types Externals Hashing.

(** Prepend a byte to an array. *)
Definition array_cons {n} (b : byte) (a : array n) : array (S n) :=
  mk_array (b :: arr a) (bool_decide_pack _ (f_equal S (array_length a))).

(** * Size and fees. [usize] is 64 bits wide; the release build wraps. *)

Definition BASE_SIZE : Z := 91.
Definition SINGLE_INPUT_SIZE : Z := 69.
Definition SINGLE_OUTPUT_SIZE : Z := 43.
Definition VEC_LEN_OVERHEAD : Z := 1.

(** [estimate_transaction_size] *)
Definition estimate_transaction_size (num_inputs num_outputs : Z) : Z :=
  let size := BASE_SIZE in
  let size := wrap 64 (size + wrap 64 (num_inputs * SINGLE_INPUT_SIZE)) in
  let size := wrap 64 (size + wrap 64 (num_outputs * SINGLE_OUTPUT_SIZE)) in
  let size := if (0 <? num_inputs) || (0 <? num_outputs)
              then wrap 64 (size + VEC_LEN_OVERHEAD) else size in
  if 1 <? num_outputs then wrap 64 (size + wrap 64 ((num_outputs - 1) * 2)) else size.

Record FeePolicy := mk_FeePolicy {
  fixed_fee : Z;
  input_cost : Z;
  output_cost : Z;
  byte_cost : Z;
}.

(** [FeePolicy::default] *)
Definition FeePolicy_default : FeePolicy := mk_FeePolicy 1000 500 250 10.

Section Transactions.
Context {X : Externals}.

(** [TransactionData::hash] *)
Definition tx_hash (d : TransactionData) : TransactionHash :=
  Hash_new TransactionHasher (postcard_tx_data d).

(** [TransactionData::sign] *)
Definition sign (d : TransactionData) (k : SigningKey) : Transaction :=
  let msg_bytes := arr (hash_data (tx_hash d)) in
  let '(sig, recid) := sign_prehash_recoverable k msg_bytes in
  mk_Transaction d (array_cons (recid_to_byte recid) (sig_to_bytes sig)).

(** [StryiSignature::extract_signature_parts] *)
Definition extract_signature_parts (s : StryiSignature) :
    result StryiCoreError (RecoveryId * EcdsaSignature) :=
  recovery_id ← ok_or (b ← arr s !! 0%nat; recid_try_from b)
    (InvalidSignature "Cannot restore Recovery Id from signature.");
  sig ← ok_or (sig_from_slice (drop 1 (arr s)))
    (InvalidSignature "Failed to construct Signature object from bytes.");
  mret (recovery_id, sig).

(** [Transaction::verify_signature] *)
Definition verify_signature (t : Transaction) (vk : VerifyingKey) : result StryiCoreError unit :=
  match kind (tx_data t) with
  | Genesis | Coinbase _ _ => Ok tt
  | Payment =>
      let msg_bytes := arr (hash_data (tx_hash (tx_data t))) in
      parts ← extract_signature_parts (signature t);
      map_err (fun e => InvalidSignature ("Signature verification failed: " +:+ e))
        (verify_prehash vk msg_bytes parts.2)
  end.

(** [Transaction::recover_public_key] *)
Definition recover_public_key (t : Transaction) : result StryiCoreError VerifyingKey :=
  let msg_bytes := arr (hash_data (tx_hash (tx_data t))) in
  parts ← extract_signature_parts (signature t);
  map_err (fun e => InvalidSignature ("Cannot recover key from signature: " +:+ e))
    (recover_from_prehash msg_bytes parts.2 parts.1).

(** [Transaction::new_unsigned] *)
Definition new_unsigned (d : TransactionData) : Transaction := mk_Transaction d (zeros 65).

(** [Transaction::serialized_size] *)
Definition serialized_size (t : Transaction) : Z := Z.of_nat (length (postcard_tx t)).

(** [FeePolicy::estimate_fee] *)
Definition estimate_fee (p : FeePolicy) (num_inputs num_outputs : Z) : Z :=
  let size := estimate_transaction_size num_inputs num_outputs in
  wrap 64 (wrap 64 (wrap 64 (fixed_fee p + wrap 64 (num_inputs * input_cost p))
    + wrap 64 (num_outputs * output_cost p)) + wrap 64 (size * byte_cost p)).

(** [FeeCalculator::calculate_fee] *)
Definition calculate_fee (p : FeePolicy) (t : Transaction) : Z :=
  let tx_bytes := serialized_size t in
  wrap 64 (wrap 64 (wrap 64 (fixed_fee p
    + wrap 64 (input_cost p * Z.of_nat (length (inputs (tx_data t)))))
    + wrap 64 (output_cost p * Z.of_nat (length (outputs (tx_data t)))))
    + wrap 64 (byte_cost p * tx_bytes)).

(** [FeeCalculator::is_fee_sufficient] *)
Definition is_fee_sufficient (p : FeePolicy) (t : Transaction) (provided_fee : Z) : bool :=
  calculate_fee p t <=? provided_fee.

(** ** Lemmas *)

Lemma extract_signed `{!EcdsaLaws} d k :
  extract_signature_parts (signature (sign d k)) =
    Ok ((sign_prehash_recoverable k (arr (hash_data (tx_hash d)))).2,
        (sign_prehash_recoverable k (arr (hash_data (tx_hash d)))).1).
Proof.
  unfold sign. destruct (sign_prehash_recoverable k _) as [sig recid] eqn:Hs.
  unfold extract_signature_parts. cbn. rewrite recid_roundtrip. cbn.
  change (drop 0 ?l) with l. rewrite sig_roundtrip. done.
Qed.

Lemma sign_recovers_data `{!EcdsaLaws} d k :
  kind d = Payment -> tx_data (sign d k) = d /\ recover_public_key (sign d k) = Ok (verifying_key k).
Proof.
  intros Hk. assert (tx_data (sign d k) = d) as Hd by
    (unfold sign; by destruct (sign_prehash_recoverable k _)).
  split; [done|]. unfold recover_public_key. rewrite Hd, (extract_signed d k). cbn. by rewrite sign_recovers.
Qed.

(** Signing keeps the payload, and the signature of a payment verifies under the
    signer's key and recovers exactly that key, so the recovered address is the
    signer's. *)
Theorem sign_recover_roundtrip `{!EcdsaLaws} d k :
  kind d = Payment ->
  tx_data (sign d k) = d /\
  verify_signature (sign d k) (verifying_key k) = Ok tt /\
  recover_public_key (sign d k) = Ok (verifying_key k).
Proof.
  intros Hk. destruct (sign_recovers_data d k Hk) as [Hd Hr]. split; [done|]. split; [|done].
  unfold verify_signature. rewrite Hd, Hk, (extract_signed d k). cbn. by rewrite sign_verifies.
Qed.
End Transactions.

Section TransactionWitnesses.
Import Toy.

Lemma sign_recover_roundtrip_witness :
  let d := mk_TransactionData 1 Payment [] [] in
  tx_data (sign (X := externals) d Byte.x07) = d /\
  verify_signature (sign (X := externals) d Byte.x07) (verifying_key (Externals := externals) Byte.x07) = Ok tt /\
  recover_public_key (sign (X := externals) d Byte.x07) = Ok (verifying_key (Externals := externals) Byte.x07).
Proof.
  apply (@sign_recover_roundtrip externals ecdsa_laws (mk_TransactionData 1 Payment [] []) Byte.x07).
  reflexivity.
Defined.
End TransactionWitnesses.
