(* ===== verification/Blocks.v ===== *)
(** Blocks: header encoding, block identity and work, genesis construction, the
    genesis shape check and mining ([block/mod.rs], [block/mining.rs] and the shape
    checks of [storage/mod.rs]). *)
From S2P Require Import Prelude Bytes Types Externals Hashing Work Merkle Transactions.

Definition HEADER_HASH_SIZE : nat := 119.
Definition NONCE_OFFSET : nat := 114.

(** [buf[off..off + bs.len()].copy_from_slice(bs)] *)
Definition copy_at (off : nat) (bs buf : list byte) : list byte :=
  take off buf ++ bs ++ drop (off + length bs) buf.

(** [BlockHeader::to_hash_bytes] *)
Definition to_hash_bytes (h : BlockHeader) : list byte :=
  let buf := replicate HEADER_HASH_SIZE Byte.x00 in
  let buf := copy_at 0 (le_bytes 2 (version h)) buf in
  let buf := copy_at 2 (arr (hash_data (merkle_root_hash h))) buf in
  let buf := copy_at 34 (arr (hash_data (previous_block_hash h))) buf in
  let buf := copy_at 66 (le_bytes 8 (height h)) buf in
  let buf := copy_at 74 (arr (threshold_to_bytes (hash_threshold h))) buf in
  let buf := copy_at 106 (le_bytes 8 (timestamp h)) buf in
  let buf := copy_at NONCE_OFFSET (le_bytes 4 (nonce h)) buf in
  copy_at 118 [if header_is_genesis h then Byte.x01 else Byte.x00] buf.

(** [verify_genesis_header_work_shape] and [verify_genesis_work_shape] *)
Definition genesis_shape_error : StryiCoreError :=
  ConsensusValidationFailed "Genesis marker is only valid on a height-0 block with an empty previous hash, zero threshold, timestamp and nonce".

Definition verify_genesis_header_work_shape (h : BlockHeader) : result StryiCoreError unit :=
  if header_is_genesis h &&
     (negb (height h =? 0) || negb (bool_decide (previous_block_hash h = BlockHash_empty))
      || negb (hash_threshold h =? 0) || negb (timestamp h =? 0) || negb (nonce h =? 0))
  then Err genesis_shape_error
  else Ok tt.

Definition verify_genesis_work_shape (b : Block) : result StryiCoreError unit :=
  verify_genesis_header_work_shape (header b).

Definition set_nonce (h : BlockHeader) (n : Z) : BlockHeader :=
  mk_BlockHeader (version h) (merkle_root_hash h) (previous_block_hash h) (height h)
    (hash_threshold h) (timestamp h) n (genesis_state h).

Definition set_merkle_root (h : BlockHeader) (m : MerkleHash) : BlockHeader :=
  mk_BlockHeader (version h) m (previous_block_hash h) (height h)
    (hash_threshold h) (timestamp h) (nonce h) (genesis_state h).

Section Blocks.
Context {X : Externals}.

(** [Block::new] *)
Definition Block_new (transactions : list Transaction) (previous_block_hash : BlockHash)
    (height hash_threshold timestamp version : Z) : Block :=
  mk_Block (mk_BlockHeader version (compute_merkle_root transactions) previous_block_hash height
    hash_threshold timestamp 0 None) transactions.

(** The order of genesis outputs: descending balance, then ascending address bytes. *)
Fixpoint bytes_le (a b : list byte) : bool :=
  match a, b with
  | [], _ => true
  | _ :: _, [] => false
  | x :: a, y :: b => (byte_val x <? byte_val y) || ((byte_val x =? byte_val y) && bytes_le a b)
  end.

Definition allocation_le (a b : AccountAddress * Z) : Prop :=
  b.2 < a.2 \/ (b.2 = a.2 /\ bytes_le (arr (hash_data a.1)) (arr (hash_data b.1)) = true).

#[export] Instance allocation_le_dec : RelDecision allocation_le.
Proof. intros a b. unfold allocation_le. apply _. Defined.

(** [Block::new_genesis] *)
Definition new_genesis (version : Z) (wanted_balances : gmap AccountAddress Z)
    (gs : GenesisState) : Block :=
  let wanted_balances_vec := merge_sort allocation_le (map_to_list wanted_balances) in
  let tx_outs := (fun ab => mk_TransactionOut ab.2 ab.1) <$> wanted_balances_vec in
  let transaction := mk_Transaction (mk_TransactionData version Genesis [] tx_outs) (zeros 65) in
  mk_Block (mk_BlockHeader version (compute_merkle_root [transaction]) BlockHash_empty 0 0 0 0 (Some gs))
    [transaction].

(** [Block::update_merkle_root] *)
Definition update_merkle_root (b : Block) : Block :=
  mk_Block (set_merkle_root (header b) (compute_merkle_root (transactions b))) (transactions b).

(** [Block::block_hash] *)
Definition block_hash (b : Block) : BlockHash :=
  if is_genesis b then BlockHash_empty else BlockHash_new (to_hash_bytes (header b)).

(** [Block::work] and [verified_block_work] *)
Definition work (b : Block) : Z :=
  if is_genesis b then 0 else block_work (hash_threshold (header b)).

Definition verified_block_work (b : Block) : result StryiCoreError Z :=
  _ ← verify_genesis_work_shape b;
  mret (work b).

(** [Block::miner_address] *)
Definition miner_address (b : Block) : option AccountAddress :=
  if is_genesis b then None
  else match transactions b with
       | [] => None
       | first_tx :: _ =>
           if negb (is_coinbase first_tx) then None
           else if negb (length (outputs (tx_data first_tx)) =? 1)%nat then None
           else recipient <$> head (outputs (tx_data first_tx))
       end.

(** [Block::validate_proof_of_work] and [Block::is_merkle_root_valid] *)
Definition validate_proof_of_work (b : Block) : bool :=
  meets_threshold (block_hash b) (hash_threshold (header b)).

Definition is_merkle_root_valid (b : Block) : bool :=
  bool_decide (compute_merkle_root (transactions b) = merkle_root_hash (header b)).

(** [mine_block_memcpy]: each element of [batches] is the list of random candidates
    of one loop iteration for which [should_stop] answered [false]; the list ends
    when it answers [true]. [find_any] is rayon's unordered search over the
    successful candidates. *)
Fixpoint mine_block_memcpy (find_any : list Z -> option Z) (b : Block)
    (batches : list (list Z)) : bool * Block :=
  let threshold := hash_threshold (header b) in
  let base_buf := to_hash_bytes (header b) in
  match batches with
  | [] => (false, b)
  | candidates :: batches =>
      let hits := filter (fun candidate =>
        meets_threshold (BlockHash_new (copy_at NONCE_OFFSET (le_bytes 4 candidate) base_buf))
          threshold = true) candidates in
      match find_any hits with
      | Some n => (true, mk_Block (set_nonce (header b) n) (transactions b))
      | None => mine_block_memcpy find_any b batches
      end
  end.
End Blocks.

(** * The header layout *)

Lemma copy_at_fill pre bs k off :
  length pre = off -> (length bs <= k)%nat ->
  copy_at off bs (pre ++ replicate k Byte.x00) = (pre ++ bs) ++ replicate (k - length bs) Byte.x00.
Proof.
  intros <- Hk. unfold copy_at. rewrite take_app_length, <-app_assoc. do 2 f_equal.
  rewrite <-drop_drop, drop_app_length, drop_replicate. done.
Qed.

Definition header_fields (h : BlockHeader) : list byte :=
  ((((((le_bytes 2 (version h) ++ arr (hash_data (merkle_root_hash h)))
    ++ arr (hash_data (previous_block_hash h))) ++ le_bytes 8 (height h))
    ++ arr (threshold_to_bytes (hash_threshold h))) ++ le_bytes 8 (timestamp h)))
    ++ le_bytes 4 (nonce h).

Lemma hash_length {K} (h : Hash K) : length (arr (hash_data h)) = hk_size K.
Proof. apply array_length. Qed.

Lemma header_fields_length h : length (header_fields h) = 118%nat.
Proof. unfold header_fields. by rewrite !length_app, !le_bytes_length, !hash_length, array_length. Qed.

Lemma to_hash_bytes_layout h :
  to_hash_bytes h = header_fields h ++ [if header_is_genesis h then Byte.x01 else Byte.x00].
Proof.
  assert (forall n z, length (le_bytes n z) = n) as Hle by apply le_bytes_length.
  assert (length (arr (hash_data (merkle_root_hash h))) = 32%nat) as Hm by exact (hash_length (merkle_root_hash h)).
  assert (length (arr (hash_data (previous_block_hash h))) = 32%nat) as Hp by exact (hash_length (previous_block_hash h)).
  assert (length (arr (threshold_to_bytes (hash_threshold h))) = 32%nat) as Ht by apply array_length.
  unfold to_hash_bytes, HEADER_HASH_SIZE, NONCE_OFFSET. cbv zeta.
  rewrite <-(app_nil_l (replicate 119 Byte.x00)).
  do 8 (rewrite copy_at_fill; cycle 1;
    [by rewrite ?length_app, ?Hle, ?Hm, ?Hp, ?Ht
    |rewrite ?Hle, ?Hm, ?Hp, ?Ht; cbn [length]; lia|]).
  rewrite !Hle, Hm, Hp, Ht. change (replicate _ Byte.x00) with (@nil byte). by rewrite app_nil_r.
Qed.

Lemma to_hash_bytes_length h : length (to_hash_bytes h) = HEADER_HASH_SIZE.
Proof. rewrite to_hash_bytes_layout, length_app, header_fields_length. done. Qed.

Lemma hash_eq {K} (h1 h2 : Hash K) : arr (hash_data h1) = arr (hash_data h2) -> h1 = h2.
Proof. destruct h1, h2; cbn. intros H. f_equal. by apply array_eq. Qed.

Lemma header_fields_inj h1 h2 :
  header_typed h1 -> header_typed h2 -> header_fields h1 = header_fields h2 ->
  version h1 = version h2 /\ merkle_root_hash h1 = merkle_root_hash h2 /\
  previous_block_hash h1 = previous_block_hash h2 /\ height h1 = height h2 /\
  hash_threshold h1 = hash_threshold h2 /\ timestamp h1 = timestamp h2 /\ nonce h1 = nonce h2.
Proof.
  intros (Hv1 & Hh1 & Ht1 & Hs1 & Hn1) (Hv2 & Hh2 & Ht2 & Hs2 & Hn2) Heq.
  unfold header_fields in Heq.
  apply app_inj_2 in Heq as [Heq Hn]; [|by rewrite !le_bytes_length].
  apply app_inj_2 in Heq as [Heq Hs]; [|by rewrite !le_bytes_length].
  apply app_inj_2 in Heq as [Heq Ht]; [|by rewrite !array_length].
  apply app_inj_2 in Heq as [Heq Hh]; [|by rewrite !le_bytes_length].
  apply app_inj_2 in Heq as [Heq Hp]; [|by rewrite !hash_length].
  apply app_inj_2 in Heq as [Hv Hm]; [|by rewrite !hash_length].
  apply hash_eq in Hm, Hp.
  apply le_bytes_inj in Hv, Hh, Hs, Hn; [|done..].
  apply le_bytes_inj in Ht; [|done..]. done.
Qed.

(** The hashed form of a header is 119 bytes and identifies every hashed field and the
    genesis marker: two headers with fields of their machine types have equal bytes
    exactly when they agree on all of them. The genesis parameters themselves are not
    part of it. *)
Theorem header_encoding_injective h1 h2 :
  header_typed h1 -> header_typed h2 ->
  length (to_hash_bytes h1) = HEADER_HASH_SIZE /\
  (to_hash_bytes h1 = to_hash_bytes h2 <->
   version h1 = version h2 /\ merkle_root_hash h1 = merkle_root_hash h2 /\
   previous_block_hash h1 = previous_block_hash h2 /\ height h1 = height h2 /\
   hash_threshold h1 = hash_threshold h2 /\ timestamp h1 = timestamp h2 /\ nonce h1 = nonce h2 /\
   header_is_genesis h1 = header_is_genesis h2).
Proof.
  intros H1 H2. split; [apply to_hash_bytes_length|]. rewrite !to_hash_bytes_layout. split.
  - intros Heq. apply app_inj_2 in Heq as [Heq Hg]; [|done].
    apply header_fields_inj in Heq; [|done..]. destruct_and! Heq. split_and!; try done.
    by destruct (header_is_genesis h1), (header_is_genesis h2).
  - intros (Hv & Hm & Hp & Hh & Ht & Hs & Hn & Hg). unfold header_fields.
    by rewrite Hv, Hm, Hp, Hh, Ht, Hs, Hn, Hg.
Qed.

(** Two headers that differ in the nonce only. *)
Definition toy_header (n : Z) : BlockHeader :=
  mk_BlockHeader 1 MerkleHash_empty BlockHash_empty 5 1000 1700000000 n None.

Lemma header_encoding_injective_witness :
  length (to_hash_bytes (toy_header 7)) = HEADER_HASH_SIZE /\
  (to_hash_bytes (toy_header 7) = to_hash_bytes (toy_header 8) <-> 7 = 8).
Proof.
  destruct (header_encoding_injective (toy_header 7) (toy_header 8)) as [Hl [Heq Hback]];
    [vm_compute; intuition congruence..|].
  split; [exact Hl|]. split; [intros H; apply (Heq H)|intros [=]].
Defined.

(** ** Mining *)

Lemma copy_nonce h n :
  copy_at NONCE_OFFSET (le_bytes 4 n) (to_hash_bytes h) = to_hash_bytes (set_nonce h n).
Proof.
  rewrite !to_hash_bytes_layout. unfold header_fields, copy_at, NONCE_OFFSET. cbn [set_nonce version
    merkle_root_hash previous_block_hash height hash_threshold timestamp nonce].
  match goal with |- context [(?p ++ le_bytes 4 (nonce h)) ++ _] => set (pre := p) end.
  assert (length pre = 114%nat) as Hp
    by (unfold pre; rewrite !length_app, !le_bytes_length, !hash_length, array_length; done).
  rewrite <-!app_assoc. rewrite <-Hp at 1. rewrite take_app_length. do 2 f_equal.
  rewrite le_bytes_length, <-Hp, <-drop_drop, drop_app_length.
  rewrite <-(le_bytes_length 4 (nonce h)) at 1. by rewrite drop_app_length.
Qed.

Section Mining.
Context {X : Externals} (find_any : list Z -> option Z).
(** rayon's [find_any]: some hit if there is one. *)
Hypothesis find_any_Some : forall l n, find_any l = Some n -> n ∈ l.
Hypothesis find_any_None : forall l, find_any l = None -> l = [].

(** Mining a block that is not genesis succeeds exactly when one of the nonces it
    tries before it is stopped meets the threshold; on success the block differs from
    the template only in its nonce, which is one of the candidates, and its proof of
    work validates; when stopped it returns the template unchanged. *)
Theorem mining_correct b batches :
  is_genesis b = false ->
  match mine_block_memcpy find_any b batches with
  | (true, b') =>
      exists candidates n, candidates ∈ batches /\ n ∈ candidates /\
        b' = mk_Block (set_nonce (header b) n) (transactions b) /\
        validate_proof_of_work b' = true
  | (false, b') =>
      b' = b /\
      Forall (Forall (fun n => validate_proof_of_work
        (mk_Block (set_nonce (header b) n) (transactions b)) = false)) batches
  end.
Proof.
  intros Hg.
  assert (forall n, validate_proof_of_work (mk_Block (set_nonce (header b) n) (transactions b)) =
    meets_threshold (BlockHash_new (copy_at NONCE_OFFSET (le_bytes 4 n) (to_hash_bytes (header b))))
      (hash_threshold (header b))) as Hpow.
  { intros n. rewrite copy_nonce. unfold validate_proof_of_work, block_hash.
    unfold is_genesis in *. cbn [header set_nonce genesis_state hash_threshold]. by rewrite Hg. }
  induction batches as [|candidates batches IH]; cbn [mine_block_memcpy]; [by split|].
  match goal with |- context [find_any ?l] => set (hits := l) end.
  destruct (find_any hits) as [n|] eqn:Hf.
  - apply find_any_Some in Hf. apply list_elem_of_filter in Hf as [Hn Hc].
    exists candidates, n. rewrite Hpow. split_and!; [set_solver|done..].
  - apply find_any_None in Hf.
    destruct (mine_block_memcpy find_any b batches) as [[] b'].
    + destruct IH as (cs & n & Hcs & IH). exists cs, n. split; [set_solver|done].
    + destruct IH as [-> IH]. split; [done|]. constructor; [|done].
      apply Forall_forall. intros n Hn. rewrite Hpow.
      apply not_true_iff_false. intros Hm.
      assert (n ∈ hits) as Hin by (by apply list_elem_of_filter).
      rewrite Hf in Hin. set_solver.
Qed.
End Mining.

(** ** Genesis and verified work *)

Section GenesisFacts.
Context {X : Externals}.

Lemma new_genesis_is_genesis v bal gs : is_genesis (new_genesis v bal gs) = true.
Proof. unfold is_genesis. apply bool_decide_eq_true_2. cbn. eauto. Qed.

Lemma is_merkle_root_valid_true b :
  is_merkle_root_valid b = true <-> compute_merkle_root (transactions b) = merkle_root_hash (header b).
Proof. apply bool_decide_eq_true. Qed.

(** Every block built by the constructors commits to its transactions. *)
Lemma Block_new_merkle_valid ts p h th s v : is_merkle_root_valid (Block_new ts p h th s v) = true.
Proof. by apply is_merkle_root_valid_true. Qed.

Lemma update_merkle_root_valid b : is_merkle_root_valid (update_merkle_root b) = true.
Proof. by apply is_merkle_root_valid_true. Qed.

Lemma verify_shape_Ok b :
  verify_genesis_work_shape b = Ok tt <->
  (is_genesis b = true ->
   height (header b) = 0 /\ previous_block_hash (header b) = BlockHash_empty /\
   hash_threshold (header b) = 0 /\ timestamp (header b) = 0 /\ nonce (header b) = 0).
Proof.
  unfold verify_genesis_work_shape, verify_genesis_header_work_shape.
  change (header_is_genesis (header b)) with (is_genesis b).
  destruct (is_genesis b); cbn [andb]; [|split; done].
  destruct (height (header b) =? 0) eqn:H1, (bool_decide (previous_block_hash (header b) = BlockHash_empty)) eqn:H2,
    (hash_threshold (header b) =? 0) eqn:H3, (timestamp (header b) =? 0) eqn:H4, (nonce (header b) =? 0) eqn:H5;
    cbn [negb orb]; bool_inv; (split; [try done; intros _ _; by split_and!|]);
    intros Hs; try done; destruct (Hs eq_refl) as (?&?&?&?&?); done.
Qed.

(** The verified work of a block. A block with the genesis marker is accepted only in
    the genesis shape (height zero, empty parent, zero threshold, timestamp and nonce)
    and then counts zero work; any other block counts the work of its threshold, which
    is positive and fits 512 bits. So no block obtains free work through the marker. *)
Theorem verified_block_work_spec b w :
  in_u256 (hash_threshold (header b)) ->
  verified_block_work b = Ok w <->
  (is_genesis b = true /\ w = 0 /\ height (header b) = 0 /\
    previous_block_hash (header b) = BlockHash_empty /\
    hash_threshold (header b) = 0 /\ timestamp (header b) = 0 /\ nonce (header b) = 0) \/
  (is_genesis b = false /\ w = block_work (hash_threshold (header b)) /\ 0 < w < 2 ^ 512).
Proof.
  intros Ht. unfold verified_block_work, work.
  pose proof (block_work_pos _ Ht) as Hpos.
  pose proof (verify_shape_Ok b) as Hs. destruct (verify_genesis_work_shape b) as [[]|e] eqn:He; cbn.
  - destruct (is_genesis b); split.
    + intros [= <-]. left. split; [done|]. split; [done|]. by apply Hs.
    + intros [(_ & -> & _)|[? _]]; done.
    + intros [= <-]. right. split; [done|]. split; [done|]. lia.
    + intros [[? _]|(_ & -> & _)]; done.
  - split; [done|]. intros [(Hg & _ & Hrest)|[Hg _]]; exfalso.
    + assert (Err e = Ok tt :> result StryiCoreError unit) by (apply Hs; intros _; exact Hrest). done.
    + assert (Err e = Ok tt :> result StryiCoreError unit) by (apply Hs; rewrite Hg; done). done.
Qed.

Lemma allocations_total (l l' : list (AccountAddress * Z)) :
  l ≡ₚ l' -> zsum (snd <$> l) = zsum (snd <$> l').
Proof. by intros ->. Qed.

(** The constructed genesis block is well formed and allocates exactly the requested
    balances: it passes the genesis shape check with zero work and the empty hash,
    commits to its only transaction, has no inputs, and its outputs are a permutation
    of the requested balances sorted by descending amount, so that the amounts add up
    to the requested total whatever order the balances were given in. *)
Theorem new_genesis_correct v bal gs :
  let b := new_genesis v bal gs in
  verified_block_work b = Ok 0 /\ block_hash b = BlockHash_empty /\
  is_merkle_root_valid b = true /\ miner_address b = None /\
  exists t, transactions b = [t] /\ kind (tx_data t) = Genesis /\ inputs (tx_data t) = [] /\
    ((fun o => (recipient o, value o)) <$> outputs (tx_data t)) ≡ₚ map_to_list bal /\
    StronglySorted (fun x y => y <= x) (value <$> outputs (tx_data t)) /\
    zsum (value <$> outputs (tx_data t)) = map_zsum id bal.
Proof.
  cbv zeta. pose proof (new_genesis_is_genesis v bal gs) as Hg.
  assert (verify_genesis_work_shape (new_genesis v bal gs) = Ok tt) as Hs by (by apply verify_shape_Ok).
  split_and!.
  - unfold verified_block_work, work. rewrite Hs, Hg. done.
  - unfold block_hash. by rewrite Hg.
  - by apply is_merkle_root_valid_true.
  - unfold miner_address. by rewrite Hg.
  - eexists. split; [reflexivity|]. cbn [tx_data kind inputs outputs].
    pose proof (merge_sort_Permutation allocation_le (map_to_list bal)) as Hp.
    assert (Total allocation_le) as Htot.
    { intros [a x] [a' x']. unfold allocation_le; cbn.
      destruct (Z.lt_trichotomy x x') as [?|[->|?]]; [by right; left| |by left; left].
      assert (forall l l', bytes_le l l' = true \/ bytes_le l' l = true) as Hb.
      { induction l as [|c l IH]; intros [|c' l']; cbn; try (by auto).
        destruct (Z.ltb_spec (byte_val c) (byte_val c')), (Z.ltb_spec (byte_val c') (byte_val c)),
          (Z.eqb_spec (byte_val c) (byte_val c')), (Z.eqb_spec (byte_val c') (byte_val c));
          cbn; try lia; auto. }
      destruct (Hb (arr (hash_data a)) (arr (hash_data a'))); [left|right]; right; done. }
    pose proof (Sorted_merge_sort allocation_le (map_to_list bal)) as Hsort.
    split_and!; [done..| | |].
    + rewrite <-list_fmap_compose. etrans; [|exact Hp].
      apply reflexive_eq. rewrite <-(list_fmap_id (merge_sort _ _)) at 2.
      apply list_fmap_ext. intros ? [] _. done.
    + rewrite <-list_fmap_compose. apply Sorted_StronglySorted; [intros ???; lia|].
      apply (Sorted_fmap _ allocation_le); [|done].
      intros [] [] Hle. unfold allocation_le in Hle. cbn in *. lia.
    + rewrite <-list_fmap_compose. unfold map_zsum. rewrite list_fmap_id.
      apply allocations_total in Hp. exact Hp.
Qed.
End GenesisFacts.

Section BlockWitnesses.
Import Toy.

Lemma mining_correct_witness :
  let b := mk_Block (mk_BlockHeader 1 MerkleHash_empty BlockHash_empty 1 (2 ^ 256 - 1) 9 0 None) [] in
  exists b', mine_block_memcpy head b [[3]] = (true, b') /\ validate_proof_of_work b' = true.
Proof.
  intros b.
  pose proof (mining_correct head
    ltac:(by intros [|x l] n [= ->]; set_solver) ltac:(by intros []) b [[3]] eq_refl) as H.
  assert ((mine_block_memcpy head b [[3]]).1 = true) as Hm by (vm_compute; exact eq_refl).
  destruct (mine_block_memcpy head b [[3]]) as [ok b']. cbn [fst] in Hm. subst ok.
  destruct H as (_ & _ & _ & _ & _ & Hv). exists b'. exact (conj eq_refl Hv).
Defined.

Lemma verified_block_work_spec_witness :
  let b := mk_Block (mk_BlockHeader 1 MerkleHash_empty BlockHash_empty 1 1 9 0 None) [] in
  exists w, verified_block_work b = Ok w /\ w = 2 ^ 255.
Proof.
  exists (2 ^ 255). split; [|reflexivity].
  apply verified_block_work_spec; [by vm_compute|]. right.
  split; [reflexivity|]. split; vm_compute; [reflexivity|]. by split.
Defined.
End BlockWitnesses.
