(* ===== verification/Storage.v ===== *)
(** Storage: the storage traits of [storage/mod.rs] as typeclasses, with their
    default methods as definitions over them; the laws a UTXO store promises to its
    clients; and the in-memory backend of [storage/in_memory.rs] as their first
    implementation. A write method returns the changed store or an error; on an error
    the caller drops the transaction, so no store is returned. *)
From S2P Require Import Prelude Bytes Types Externals Hashing Transactions Blocks.

(** * Stored records *)

Record BlockIndexData := mk_BlockIndexData {
  parent_hash : BlockHash;
  index_height : Z;
  index_chain_work : Z;
}.

Record TransactionIndexData := mk_TransactionIndexData {
  location_block_hash : BlockHash;
  location_block_height : Z;
  tx_index : Z;
}.

Record ConfirmedTransaction := mk_ConfirmedTransaction {
  transaction : Transaction;
  location : TransactionIndexData;
}.

Record ChainState := mk_ChainState {
  latest_block : Z * BlockHash;
  last_update_time : Z;
  blocks_count : Z;
  chain_work : Z;
}.

Record ChainMetadata := mk_ChainMetadata {
  schema_version : Z;
  chain_name : string;
  protocol_version : Z;
  created_unix_ts : Z;
}.

#[export] Instance BlockIndexData_eq_dec : EqDecision BlockIndexData.
Proof. solve_decision. Defined.
#[export] Instance TransactionIndexData_eq_dec : EqDecision TransactionIndexData.
Proof. solve_decision. Defined.
#[export] Instance ChainState_eq_dec : EqDecision ChainState.
Proof. solve_decision. Defined.
#[export] Instance ChainMetadata_eq_dec : EqDecision ChainMetadata.
Proof. solve_decision. Defined.

(** [ForkDbDelta] ([consensus/forks/overlay.rs]) *)
Record ForkDbDelta := mk_ForkDbDelta {
  expected_head : Z * BlockHash;
  common_ancestor : BlockHash;
  detached : list (Z * BlockHash);
  delta_blocks : list (Block * BlockUndo);
  delta_utxos : list (OutPoint * UTXO);
  delta_removed_utxos : list OutPoint;
}.

Inductive ChainTransition :=
| TGenesis (block : Block) (metadata : ChainMetadata)
| TAppend (block : Block)
| TReorganize (delta : ForkDbDelta).

Record ChainTransitionResult := mk_ChainTransitionResult {
  new_head : Z * BlockHash;
  result_chain_work : Z;
  result_detached : list (Z * BlockHash);
}.

(** * The traits *)

Class UtxoStorage (S : Type) := {
  get_utxo : S -> OutPoint -> result StorageError (option UTXO);
  get_utxos_for_address : S -> AccountAddress -> result StorageError (gmap OutPoint UTXO);
}.

Class BlockStorage (S : Type) := {
  get_block_hash_by_height : S -> Z -> result StorageError (option BlockHash);
  get_block_by_hash : S -> BlockHash -> result StorageError (option Block);
  get_block_by_height : S -> Z -> result StorageError (option Block);
  get_block_header_by_hash : S -> BlockHash -> result StorageError (option BlockHeader);
  get_block_index : S -> BlockHash -> result StorageError (option BlockIndexData);
  get_transaction : S -> TransactionHash -> result StorageError (option ConfirmedTransaction);
}.

Class StorageStats (S : Type) := {
  chain_state : S -> result StorageError (option ChainState);
  metadata : S -> result StorageError (option ChainMetadata);
}.

Class UndoStorage (S : Type) := {
  get_block_undo : S -> BlockHash -> result StorageError (option BlockUndo);
}.

Class StorageRead (S : Type) := {
  #[global] read_utxos :: UtxoStorage S;
  #[global] read_blocks :: BlockStorage S;
  #[global] read_stats :: StorageStats S;
  #[global] read_undo :: UndoStorage S;
}.

Class UtxoWrite (S : Type) `{UtxoStorage S} := {
  batch_put_utxos : S -> list (OutPoint * UTXO) -> result StorageError S;
  batch_remove_utxos : S -> list OutPoint -> result StorageError S;
}.

Class StorageWrite (S : Type) `{StorageRead S} := {
  #[global] write_utxos :: UtxoWrite S;
  put_block : S -> Block -> BlockIndexData -> result StorageError S;
  remove_canonical_block : S -> Block -> result StorageError S;
  put_block_undo : S -> BlockHash -> BlockUndo -> result StorageError S;
  put_chain_state : S -> ChainState -> result StorageError S;
  put_metadata : S -> ChainMetadata -> result StorageError S;
}.

(** ** Default methods *)

Section Defaults.
Context {S : Type}.

(** [batch_get_utxos] *)
Definition batch_get_utxos `{UtxoStorage S} (s : S) (outpoints : list OutPoint) :
    result StorageError (gmap OutPoint UTXO) :=
  fold_res (fun acc outpoint =>
    found ← get_utxo s outpoint;
    utxo ← ok_or found (UtxoNotFound outpoint);
    mret (<[outpoint := utxo]> acc)) ∅ outpoints.

(** [get_block_header_by_hash], where a backend does not override it. *)
Definition default_get_block_header_by_hash
    (get_block_by_hash : S -> BlockHash -> result StorageError (option Block))
    (s : S) (hash : BlockHash) : result StorageError (option BlockHeader) :=
  found ← get_block_by_hash s hash;
  mret (option_map header found).

(** [batch_get_blocks_by_hashes] *)
Definition batch_get_blocks_by_hashes `{BlockStorage S} (s : S) (hashes : list BlockHash) :
    result StorageError (gmap BlockHash Block) :=
  fold_res (fun acc hash =>
    found ← get_block_by_hash s hash;
    block ← ok_or found (BlockNotFound hash);
    mret (<[hash := block]> acc)) ∅ hashes.

(** [batch_get_blocks_by_heights] *)
Definition batch_get_blocks_by_heights `{BlockStorage S} (s : S) (heights : list Z) :
    result StorageError (gmap Z Block) :=
  fold_res (fun acc height =>
    found ← get_block_by_height s height;
    block ← ok_or found (HeightMissing height);
    mret (<[height := block]> acc)) ∅ heights.

(** [blocks_range]: the inclusive range [start ..= stop]. *)
Definition blocks_range `{BlockStorage S} (s : S) (start stop : Z) :
    result StorageError (gmap Z Block) :=
  if stop <? start then Err (InvalidRange start stop)
  else batch_get_blocks_by_heights s (seqZ start (stop - start + 1)).

(** [block_exists] *)
Definition block_exists `{BlockStorage S} (s : S) (hash : BlockHash) : result StorageError bool :=
  found ← get_block_header_by_hash s hash;
  mret (bool_decide (is_Some found)).

(** [tip], [last_updated], [block_count] and [chain_work] *)
Definition stat `{StorageStats S} {A} (f : ChainState -> A) (s : S) : result StorageError A :=
  current ← chain_state s;
  state ← ok_or current Uninitialized;
  mret (f state).

Definition tip `{StorageStats S} (s : S) := stat latest_block s.
Definition last_updated `{StorageStats S} (s : S) := stat last_update_time s.
Definition block_count `{StorageStats S} (s : S) := stat blocks_count s.
Definition total_chain_work `{StorageStats S} (s : S) := stat chain_work s.
End Defaults.

(** * The promise of a UTXO store

    A store denotes a finite map. Reads answer from it, [batch_put_utxos] overwrites
    entries, and [batch_remove_utxos] removes entries that must all be present,
    reporting the first absent one. *)

Definition first_missing (m : gmap OutPoint UTXO) (ops : list OutPoint) : option OutPoint :=
  head (filter (fun op => m !! op = None) ops).

Class UtxoReadLaws (S : Type) `{UtxoStorage S} := {
  utxo_view : S -> gmap OutPoint UTXO;
  get_utxo_view s op : get_utxo s op = Ok (utxo_view s !! op);
  address_view s a :
    get_utxos_for_address s a = Ok (filter (fun kv => owner kv.2 = a) (utxo_view s));
}.

Class UtxoWriteLaws (S : Type) `{UtxoWrite S} := {
  #[global] write_read_laws :: UtxoReadLaws S;
  put_view s l :
    exists s', batch_put_utxos s l = Ok s' /\ utxo_view s' = put_all (utxo_view s) l;
  remove_view s ops :
    match first_missing (utxo_view s) ops with
    | Some op => batch_remove_utxos s ops = Err (UtxoNotFound op)
    | None => exists s', batch_remove_utxos s ops = Ok s' /\
        utxo_view s' = remove_all (utxo_view s) ops
    end;
}.

Lemma first_missing_None m ops : first_missing m ops = None <-> Forall (fun op => is_Some (m !! op)) ops.
Proof.
  unfold first_missing. induction ops as [|op ops IH]; [split; [constructor|done]|].
  rewrite filter_cons, Forall_cons. destruct (m !! op) as [u|] eqn:Hop; cbn.
  - case_decide; [done|]. rewrite IH. naive_solver.
  - case_decide; [|done]. cbn. split; [done|]. intros [[? ?] _]. done.
Qed.

Lemma first_missing_Some m ops op :
  first_missing m ops = Some op -> op ∈ ops /\ m !! op = None.
Proof.
  unfold first_missing. intros Hh.
  destruct (filter _ ops) as [|op' l] eqn:Hf; [done|]. cbn in Hh. injection Hh as ->.
  assert (op ∈ filter (fun op => m !! op = None) ops) as Hin by (rewrite Hf; set_solver).
  apply list_elem_of_filter in Hin. naive_solver.
Qed.

Section Batch.
Context {S : Type} `{UtxoReadLaws S}.

Lemma batch_get_acc s ops acc :
  fold_res (fun acc outpoint =>
    found ← get_utxo s outpoint;
    utxo ← ok_or found (UtxoNotFound outpoint);
    mret (<[outpoint := utxo]> acc)) acc ops =
  match first_missing (utxo_view s) ops with
  | Some op => Err (UtxoNotFound op)
  | None => Ok (put_all acc (omap (fun op => (op,.) <$> utxo_view s !! op) ops))
  end.
Proof.
  revert acc. unfold first_missing. induction ops as [|op ops IH]; intros acc; [done|].
  rewrite filter_cons. cbn [fold_res omap list_omap]. rewrite get_utxo_view. cbn.
  destruct (utxo_view s !! op) as [u|] eqn:Hop; cbn; case_decide; try done.
Qed.

(** A batch read reports the first absent outpoint, or the requested part of the view. *)
Lemma batch_get_view s ops :
  match first_missing (utxo_view s) ops with
  | Some op => batch_get_utxos s ops = Err (UtxoNotFound op)
  | None => exists m, batch_get_utxos s ops = Ok m /\
      forall op, m !! op = if decide (op ∈ ops) then utxo_view s !! op else None
  end.
Proof.
  unfold batch_get_utxos. rewrite batch_get_acc.
  destruct (first_missing (utxo_view s) ops) as [op|] eqn:Hm; [done|].
  eexists; split; [reflexivity|]. apply first_missing_None in Hm. intros op.
  assert (forall acc, put_all acc (omap (fun op => (op,.) <$> utxo_view s !! op) ops) !! op =
    if decide (op ∈ ops) then utxo_view s !! op else acc !! op) as Hg.
  { clear -Hm. induction Hm as [|op' ops [u Hu] Hm IH]; intros acc.
    - by rewrite decide_False by set_solver.
    - cbn [omap list_omap]. rewrite Hu. cbn. fold (put_all (<[op':=u]> acc)).
      match goal with |- foldl _ ?a ?l !! _ = _ => change (put_all a l !! op = if decide (op ∈ op' :: ops) then utxo_view s !! op else acc !! op) end.
      rewrite IH. destruct (decide (op = op')) as [->|Hne].
      + rewrite (decide_True _ _ (P := op' ∈ op' :: ops)) by set_solver.
        case_decide; [done|]. by rewrite lookup_insert_eq.
      + rewrite lookup_insert_ne by done. repeat case_decide; set_solver. }
  rewrite Hg. by rewrite lookup_empty.
Qed.
End Batch.

(** * The in-memory backend ([storage/in_memory.rs]) *)

Record MemoryView := mk_MemoryView {
  utxos : gmap OutPoint UTXO;
  blocks : gmap BlockHash Block;
  heights : gmap Z BlockHash;
  indexes : gmap BlockHash BlockIndexData;
  tx_locations : gmap TransactionHash TransactionIndexData;
  undos : gmap BlockHash BlockUndo;
  state : option ChainState;
  view_metadata : option ChainMetadata;
}.

(** [MemoryView::default] *)
Definition MemoryView_default : MemoryView := mk_MemoryView ∅ ∅ ∅ ∅ ∅ ∅ None None.

Section InMemory.
Context {X : Externals}.
Implicit Types (m : MemoryView).

Definition memory_get_utxos_for_address m (address : AccountAddress) :
    result StorageError (gmap OutPoint UTXO) :=
  Ok (filter (fun kv => owner kv.2 = address) (utxos m)).

Definition memory_get_block_by_height m (height : Z) : result StorageError (option Block) :=
  match heights m !! height with
  | None => Ok None
  | Some hash =>
      block ← ok_or (blocks m !! hash)
        (Corruption "Height {height} references missing block {hash}");
      mret (Some block)
  end.

Definition memory_get_transaction m (hash : TransactionHash) :
    result StorageError (option ConfirmedTransaction) :=
  match tx_locations m !! hash with
  | None => Ok None
  | Some location =>
      block ← ok_or (blocks m !! location_block_hash location)
        (Corruption "Transaction {hash} references absent block {location.block_hash}");
      transaction ← ok_or
        (transaction ← transactions block !! Z.to_nat (tx_index location);
         guard (block_hash block = location_block_hash location /\
                height (header block) = location_block_height location /\
                tx_hash (tx_data transaction) = hash);;
         mret transaction)
        (Corruption "Transaction {hash} does not match block {location.block_hash} index {location.tx_index}");
      mret (Some (mk_ConfirmedTransaction transaction location))
  end.

#[export] Instance memory_utxo_storage : UtxoStorage MemoryView := {
  get_utxo m outpoint := Ok (utxos m !! outpoint);
  get_utxos_for_address := memory_get_utxos_for_address;
}.

#[export] Instance memory_block_storage : BlockStorage MemoryView := {
  get_block_hash_by_height m height := Ok (heights m !! height);
  get_block_by_hash m hash := Ok (blocks m !! hash);
  get_block_by_height := memory_get_block_by_height;
  get_block_header_by_hash :=
    default_get_block_header_by_hash (fun m hash => Ok (blocks m !! hash));
  get_block_index m hash := Ok (indexes m !! hash);
  get_transaction := memory_get_transaction;
}.

#[export] Instance memory_stats : StorageStats MemoryView := {
  chain_state m := Ok (state m);
  metadata m := Ok (view_metadata m);
}.

#[export] Instance memory_undo : UndoStorage MemoryView := {
  get_block_undo m hash := Ok (undos m !! hash);
}.

#[export] Instance memory_read : StorageRead MemoryView := Build_StorageRead _ _ _ _ _.

Definition set_utxos m (u : gmap OutPoint UTXO) : MemoryView :=
  mk_MemoryView u (blocks m) (heights m) (indexes m) (tx_locations m) (undos m) (state m)
    (view_metadata m).

Definition memory_batch_put_utxos m (l : list (OutPoint * UTXO)) : result StorageError MemoryView :=
  Ok (set_utxos m (put_all (utxos m) l)).

Definition memory_batch_remove_utxos m (outpoints : list OutPoint) :
    result StorageError MemoryView :=
  _ ← fold_res (fun _ outpoint =>
        if bool_decide (is_Some (utxos m !! outpoint)) then Ok tt
        else Err (UtxoNotFound outpoint)) tt outpoints;
  mret (set_utxos m (remove_all (utxos m) outpoints)).

#[export] Instance memory_utxo_write : UtxoWrite MemoryView := {
  batch_put_utxos := memory_batch_put_utxos;
  batch_remove_utxos := memory_batch_remove_utxos;
}.

(** One step of the transaction index loop of [put_block]. *)
Definition index_transaction (block : Block)
    (acc : gmap TransactionHash TransactionIndexData) (entry : nat * Transaction) :
    result StorageError (gmap TransactionHash TransactionIndexData) :=
  if 2 ^ 32 <=? Z.of_nat entry.1 then Err (InvalidTransition "Transaction index overflow")
  else Ok (<[tx_hash (tx_data entry.2) :=
             mk_TransactionIndexData (block_hash block) (height (header block)) (Z.of_nat entry.1)]> acc).

Definition memory_put_block m (block : Block) (index : BlockIndexData) :
    result StorageError MemoryView :=
  let hash := block_hash block in
  txs ← fold_res (index_transaction block) (tx_locations m)
          (imap (fun i t => (i, t)) (transactions block));
  mret (mk_MemoryView (utxos m) (<[hash := block]> (blocks m))
    (<[height (header block) := hash]> (heights m)) (<[hash := index]> (indexes m)) txs
    (undos m) (state m) (view_metadata m)).

(** One step of the transaction loop of [remove_canonical_block]. *)
Definition unindex_transaction (hash : BlockHash)
    (acc : gmap TransactionHash TransactionIndexData) (t : Transaction) :
    gmap TransactionHash TransactionIndexData :=
  let id := tx_hash (tx_data t) in
  if bool_decide (location_block_hash <$> acc !! id = Some hash) then delete id acc else acc.

Definition memory_remove_canonical_block m (block : Block) : result StorageError MemoryView :=
  let hash := block_hash block in
  _ ← ensure (bool_decide (heights m !! height (header block) = Some hash))
        (Corruption "Detached block is outside canonical heights");
  mret (mk_MemoryView (utxos m) (blocks m) (delete (height (header block)) (heights m))
    (indexes m) (foldl (unindex_transaction hash) (tx_locations m) (transactions block))
    (undos m) (state m) (view_metadata m)).

Definition memory_put_block_undo m (hash : BlockHash) (undo : BlockUndo) :
    result StorageError MemoryView :=
  Ok (mk_MemoryView (utxos m) (blocks m) (heights m) (indexes m) (tx_locations m)
    (<[hash := undo]> (undos m)) (state m) (view_metadata m)).

Definition memory_put_chain_state m (s : ChainState) : result StorageError MemoryView :=
  Ok (mk_MemoryView (utxos m) (blocks m) (heights m) (indexes m) (tx_locations m) (undos m)
    (Some s) (view_metadata m)).

Definition memory_put_metadata m (md : ChainMetadata) : result StorageError MemoryView :=
  Ok (mk_MemoryView (utxos m) (blocks m) (heights m) (indexes m) (tx_locations m) (undos m)
    (state m) (Some md)).

#[export] Instance memory_write : StorageWrite MemoryView := {
  write_utxos := memory_utxo_write;
  put_block := memory_put_block;
  remove_canonical_block := memory_remove_canonical_block;
  put_block_undo := memory_put_block_undo;
  put_chain_state := memory_put_chain_state;
  put_metadata := memory_put_metadata;
}.

(** [StryiInMemoryStorage::update]: the callback works on a clone, committed only when
    it succeeds. [guard] is the content of the mutex. *)
Definition update {T} (guard : MemoryView)
    (callback : MemoryView -> result StorageError (T * MemoryView)) :
    result StorageError T * MemoryView :=
  match callback guard with
  | Ok (r, pending) => (Ok r, pending)
  | Err e => (Err e, guard)
  end.

(** ** The backend keeps the promise of a UTXO store *)

#[export] Instance memory_read_laws : UtxoReadLaws MemoryView.
Proof. by refine {| utxo_view := utxos |}. Defined.

Lemma memory_remove_check m ops :
  fold_res (fun (_ : unit) outpoint =>
    if bool_decide (is_Some (utxos m !! outpoint)) then Ok tt
    else Err (UtxoNotFound outpoint)) tt ops =
  match first_missing (utxos m) ops with Some op => Err (UtxoNotFound op) | None => Ok tt end.
Proof.
  unfold first_missing. induction ops as [|op ops IH]; [done|].
  rewrite filter_cons. cbn [fold_res]. destruct (utxos m !! op) as [u|] eqn:Hop.
  - rewrite bool_decide_eq_true_2 by eauto. case_decide; [done|]. exact IH.
  - rewrite bool_decide_eq_false_2 by (intros [? ?]; done). case_decide; done.
Qed.

#[export] Instance memory_write_laws : UtxoWriteLaws MemoryView.
Proof.
  refine {| write_read_laws := memory_read_laws |}.
  - intros m l. eexists; split; reflexivity.
  - intros m ops. cbn [batch_remove_utxos memory_utxo_write utxo_view memory_read_laws].
    unfold memory_batch_remove_utxos. rewrite memory_remove_check.
    destruct (first_missing (utxos m) ops); cbn; [done|]. eexists; split; reflexivity.
Defined.
End InMemory.

(** * Facts *)

Section Collect.
Context {E K V : Type} `{Countable K} (get : K -> result E (option V)) (missing : K -> E).

Lemma collect_acc ks (acc m : gmap K V) :
  fold_res (fun acc k => found ← get k; v ← ok_or found (missing k); mret (<[k := v]> acc)) acc ks
    = Ok m ->
  (forall k, k ∈ ks -> exists v, get k = Ok (Some v) /\ m !! k = Some v) /\
  (forall k, k ∉ ks -> m !! k = acc !! k).
Proof.
  revert acc. induction ks as [|k ks IH]; intros acc; cbn [fold_res].
  { intros [= <-]. split; set_solver. }
  intros Hf. destruct (get k) as [[v|]|] eqn:Hg; cbn in Hf; [|done..].
  unfold mret, result_ret in Hf. cbn in Hf. apply IH in Hf as [Hin Hout]. split.
  - intros k' Hk'. destruct (decide (k' ∈ ks)) as [Hks|Hks]; [by apply Hin|].
    assert (k' = k) as -> by set_solver. exists v. split; [done|].
    rewrite Hout by done. by rewrite lookup_insert_eq.
  - intros k' Hk'. rewrite Hout by set_solver. apply lookup_insert_ne. set_solver.
Qed.

Lemma collect_total ks (acc : gmap K V) :
  (forall k, k ∈ ks -> exists v, get k = Ok (Some v)) ->
  exists m, fold_res (fun acc k =>
    found ← get k; v ← ok_or found (missing k); mret (<[k := v]> acc)) acc ks = Ok m.
Proof.
  revert acc. induction ks as [|k ks IH]; intros acc Hall; cbn [fold_res]; [eauto|].
  destruct (Hall k) as [v Hv]; [set_solver|]. rewrite Hv. cbn.
  apply IH. set_solver.
Qed.
End Collect.

Section RangeFacts.
Context {S : Type} `{BlockStorage S}.

(** A block range read returns exactly the blocks of every height of the inclusive
    range, and only when the range is ordered and every height is present; an inverted
    range is refused, and a present single height is a valid range. *)
Lemma blocks_range_spec s start stop m :
  blocks_range s start stop = Ok m <->
  start <= stop /\
  (forall h, start <= h <= stop -> exists b, get_block_by_height s h = Ok (Some b)) /\
  (forall h b, m !! h = Some b <-> start <= h <= stop /\ get_block_by_height s h = Ok (Some b)).
Proof.
  unfold blocks_range, batch_get_blocks_by_heights.
  assert (forall h, h ∈ seqZ start (stop - start + 1) <-> start <= h <= stop) as Hin
    by (intros h; rewrite elem_of_seqZ; lia).
  destruct (Z.ltb_spec stop start) as [Hlt|Hle].
  { split; [done|]. intros [? _]. lia. }
  split.
  - intros Hc. apply collect_acc in Hc as [Hc Hout]. split; [done|]. split.
    + intros h Hh. apply Hin, Hc in Hh as (b & Hb & _). eauto.
    + intros h b. destruct (decide (start <= h <= stop)) as [Hh|Hh].
      * pose proof Hh as Hh'. apply Hin, Hc in Hh as (b' & Hb & Hm). rewrite Hm, Hb. naive_solver.
      * rewrite Hout by (by rewrite Hin). rewrite lookup_empty. naive_solver.
  - intros (_ & Hall & Hm).
    destruct (collect_total (get_block_by_height s) HeightMissing
      (seqZ start (stop - start + 1)) ∅) as [m' Hm'].
    { intros h Hh. apply Hall. by apply Hin. }
    rewrite Hm'. f_equal. apply collect_acc in Hm' as [Hc Hout].
    apply map_eq. intros h. apply option_eq. intros b. rewrite Hm.
    destruct (decide (start <= h <= stop)) as [Hh|Hh].
    + pose proof Hh as Hh'. apply Hin, Hc in Hh as (b' & Hb & Hm'). rewrite Hm', Hb. naive_solver.
    + rewrite Hout by (by rewrite Hin). rewrite lookup_empty. naive_solver.
Qed.
End RangeFacts.

Section InMemoryFacts.
Context {X : Externals}.

Abbreviation txid_of t := (tx_hash (tx_data t)).

Lemma index_cons b acc n t l :
  fold_res (index_transaction b) acc (imap (fun i t => (n + i, t)%nat) (t :: l)) =
  (acc' ← index_transaction b acc (n, t);
   fold_res (index_transaction b) acc' (imap (fun i t => (S n + i, t)%nat) l)).
Proof.
  cbn [imap fold_res]. rewrite Nat.add_0_r. destruct (index_transaction b acc (n, t)); [|done].
  cbn [mbind result_bind]. f_equal. apply imap_ext. intros; cbn. f_equal. lia.
Qed.

Lemma index_transaction_Ok b acc n t acc' :
  index_transaction b acc (n, t) = Ok acc' ->
  acc' = <[txid_of t := mk_TransactionIndexData (block_hash b) (height (header b)) (Z.of_nat n)]> acc.
Proof. unfold index_transaction. case_match; [done|]. by intros [= <-]. Qed.

Lemma index_fold_out b acc l n acc' id :
  fold_res (index_transaction b) acc (imap (fun i t => (n + i, t)%nat) l) = Ok acc' ->
  id ∉ ((fun t => txid_of t) <$> l) -> acc' !! id = acc !! id.
Proof.
  revert n acc. induction l as [|t l IH]; intros n acc; [by intros [= <-]|].
  rewrite index_cons. intros Hf Hid. apply bind_Ok in Hf as (acc1 & H1 & Hf).
  apply index_transaction_Ok in H1 as ->.
  rewrite (IH _ _ Hf) by set_solver. apply lookup_insert_ne. set_solver.
Qed.

Lemma index_fold b acc l n acc' :
  fold_res (index_transaction b) acc (imap (fun i t => (n + i, t)%nat) l) = Ok acc' ->
  NoDup ((fun t => txid_of t) <$> l) ->
  forall i t, l !! i = Some t ->
    acc' !! txid_of t = Some (mk_TransactionIndexData (block_hash b) (height (header b)) (Z.of_nat (n + i))).
Proof.
  revert n acc. induction l as [|t l IH]; intros n acc Hf Hnd i t' Hi; [done|].
  rewrite index_cons in Hf. apply bind_Ok in Hf as (acc1 & H1 & Hf).
  apply index_transaction_Ok in H1 as ->.
  apply NoDup_cons in Hnd as [Ht Hnd]. destruct i as [|i].
  - cbn in Hi. injection Hi as ->. rewrite (index_fold_out _ _ _ _ _ _ Hf) by done.
    rewrite lookup_insert_eq, Nat.add_0_r. done.
  - cbn in Hi. rewrite (IH _ _ Hf Hnd i t' Hi). do 2 f_equal. lia.
Qed.

(** The transaction index with the transactions of a block, and without them. *)
Definition index_block (b : Block) (locations : gmap TransactionHash TransactionIndexData) :
    gmap TransactionHash TransactionIndexData :=
  foldl (fun acc entry =>
      <[txid_of entry.2 := mk_TransactionIndexData (block_hash b) (height (header b)) (Z.of_nat entry.1)]> acc)
    locations (imap (fun i t => (i, t)) (transactions b)).

Definition unindex_block (b : Block) (locations : gmap TransactionHash TransactionIndexData) :
    gmap TransactionHash TransactionIndexData :=
  foldl (unindex_transaction (block_hash b)) locations (transactions b).

Lemma index_fold_block b acc acc' :
  fold_res (index_transaction b) acc (imap (fun i t => (i, t)) (transactions b)) = Ok acc' -> acc' = index_block b acc.
Proof.
  unfold index_block. generalize (imap (fun i t => (i, t)) (transactions b)) as entries.
  intros entries. revert acc. induction entries as [|[i t] entries IH]; intros acc; cbn [fold_res foldl]; [by intros [= <-]|].
  intros Hf. apply bind_Ok in Hf as (acc1 & H1 & Hf). apply index_transaction_Ok in H1 as ->. by apply IH.
Qed.

Lemma unindex_fold hash l acc id :
  foldl (unindex_transaction hash) acc l !! id =
    if decide (id ∈ ((fun t => txid_of t) <$> l) /\ location_block_hash <$> acc !! id = Some hash)
    then None else acc !! id.
Proof.
  revert acc. induction l as [|t l IH]; intros acc; cbn [foldl fmap list_fmap].
  { rewrite decide_False by set_solver. done. }
  rewrite IH. unfold unindex_transaction.
  destruct (bool_decide _) eqn:Hb; bool_inv.
  - destruct (decide (id = txid_of t)) as [->|Hne].
    + rewrite lookup_delete_eq. rewrite (decide_True _ _ (conj (list_elem_of_here _ _) Hb)).
      by case_decide.
    + rewrite lookup_delete_ne by done. repeat case_decide; set_solver.
  - destruct (decide (id = txid_of t)) as [->|Hne]; repeat case_decide; set_solver.
Qed.

(** In the in-memory backend a stored block with distinct transactions resolves every
    one of its transactions to the block and its position; detaching the block hides
    all of them and its height again, while the body and the work index stay
    readable by hash. *)
Theorem put_block_lookup m b index m' :
  put_block m b index = Ok m' -> NoDup ((fun t => txid_of t) <$> transactions b) ->
  (forall i t, transactions b !! i = Some t ->
    get_transaction m' (txid_of t) = Ok (Some (mk_ConfirmedTransaction t
      (mk_TransactionIndexData (block_hash b) (height (header b)) (Z.of_nat i))))) /\
  get_block_by_height m' (height (header b)) = Ok (Some b) /\
  exists m'', remove_canonical_block m' b = Ok m'' /\
    get_block_by_height m'' (height (header b)) = Ok None /\
    (forall t, t ∈ transactions b -> get_transaction m'' (txid_of t) = Ok None) /\
    get_block_by_hash m'' (block_hash b) = Ok (Some b) /\
    get_block_index m'' (block_hash b) = Ok (Some index).
Proof.
  cbn. unfold memory_put_block. intros Hp Hnd. res_inv.
  rename r into locs. pose proof (index_fold b _ _ 0 _ Hr Hnd) as Hloc.
  split; [|split].
  - intros i t Hi. unfold memory_get_transaction. cbn [tx_locations blocks].
    rewrite (Hloc i t Hi). cbn. rewrite lookup_insert_eq. cbn. rewrite Nat2Z.id, Hi. cbn.
    rewrite option_guard_True by done. done.
  - unfold memory_get_block_by_height. cbn. rewrite lookup_insert_eq. cbn.
    by rewrite lookup_insert_eq.
  - eexists. unfold memory_remove_canonical_block. cbn [heights].
    rewrite lookup_insert_eq, bool_decide_eq_true_2 by done. cbn. split; [reflexivity|].
    split_and!.
    + unfold memory_get_block_by_height. cbn. by rewrite lookup_delete_eq.
    + intros t Ht. unfold memory_get_transaction. cbn [tx_locations].
      rewrite unindex_fold. apply list_elem_of_lookup in Ht as [i Hi].
      rewrite decide_True; [done|]. split; [apply list_elem_of_fmap; exists t; split; [done|by apply (list_elem_of_lookup_2 _ i)]|].
      by rewrite (Hloc i t Hi).
    + cbn. by rewrite lookup_insert_eq.
    + cbn. by rewrite lookup_insert_eq.
Qed.
End InMemoryFacts.

Section StorageWitnesses.
Import Toy.

Definition toy_storage_block : Block :=
  mk_Block (mk_BlockHeader 1 MerkleHash_empty BlockHash_empty 1 1 9 0 None)
    [new_unsigned (mk_TransactionData 1 (Coinbase 1 BlockHash_empty) [] [])].

Lemma put_block_lookup_witness :
  let index := mk_BlockIndexData BlockHash_empty 1 5 in
  exists m', put_block MemoryView_default toy_storage_block index = Ok m' /\
    get_block_by_height m' 1 = Ok (Some toy_storage_block).
Proof.
  intros index.
  destruct (put_block MemoryView_default toy_storage_block index) as [m'|e] eqn:Hp.
  - exists m'. split; [reflexivity|].
    apply (put_block_lookup MemoryView_default toy_storage_block index m' Hp).
    apply NoDup_singleton.
  - cbn in Hp. unfold memory_put_block in Hp. cbn in Hp. discriminate Hp.
Defined.
End StorageWitnesses.
