(* ===== verification/UtxoProcessor.v ===== *)
(** UtxoProcessor: applying a block to a UTXO store and reverting it
    ([transactions/utxo_processor.rs]), and the stand-alone undo builder ([undo.rs]).
    The theorems are proved against the laws of a UTXO store, for every backend that
    has them. *)
From S2P Require Import Prelude Bytes Types Externals Hashing Transactions Blocks Storage.

Section Definitions.
Context {X : Externals}.

(** The outputs a transaction creates; [vout as u32] truncates the position. *)
Definition tx_created (t : Transaction) : list (OutPoint * UTXO) :=
  let txid := tx_hash (tx_data t) in
  imap (fun vout output =>
    let op := mk_OutPoint txid (wrap 32 (Z.of_nat vout)) in
    (op, mk_UTXO txid (Types.vout op) (value output) (recipient output))) (outputs (tx_data t)).

(** One iteration of the input loop: an output created in this block is consumed in
    place, any other is an external input. *)
Definition spend_input (acc : gmap OutPoint UTXO * list OutPoint) (i : TransactionIn) :
    gmap OutPoint UTXO * list OutPoint :=
  let op := previous_output i in
  match acc.1 !! op with
  | Some _ => (delete op acc.1, acc.2)
  | None => (acc.1, acc.2 ++ [op])
  end.

(** One iteration of the transaction loop of [apply_block]. *)
Definition block_step (acc : gmap OutPoint UTXO * list OutPoint) (t : Transaction) :
    gmap OutPoint UTXO * list OutPoint :=
  let acc := if is_payment t then foldl spend_input acc (inputs (tx_data t)) else acc in
  (put_all acc.1 (tx_created t), acc.2).

Definition block_effect (b : Block) : gmap OutPoint UTXO * list OutPoint :=
  foldl block_step (∅, []) (transactions b).

(** The loop that moves the fetched UTXOs into the undo record. *)
Definition take_existing (acc : gmap OutPoint UTXO * gset (OutPoint * UTXO)) (op : OutPoint) :
    result StorageError (gmap OutPoint UTXO * gset (OutPoint * UTXO)) :=
  utxo ← ok_or (acc.1 !! op) (UtxoNotFound op);
  mret (delete op acc.1, {[ (op, utxo) ]} ∪ acc.2).

(** [UtxoProcessor::apply_block] *)
Definition apply_block {S} `{UtxoWrite S} (block : Block) (utxo_storage : S) :
    result StorageError (BlockUndo * S) :=
  let '(created_utxos, external_inputs) := block_effect block in
  staged ←
    (if bool_decide (external_inputs = []) then Ok (∅, utxo_storage)
     else
       existing ← batch_get_utxos utxo_storage external_inputs;
       taken ← fold_res take_existing (existing, ∅) external_inputs;
       utxo_storage ← batch_remove_utxos utxo_storage external_inputs;
       mret (taken.2, utxo_storage));
  utxo_storage ←
    (if bool_decide (created_utxos = ∅) then Ok staged.2
     else batch_put_utxos staged.2 (map_to_list created_utxos));
  mret (mk_BlockUndo staged.1 (dom created_utxos), utxo_storage).

(** [UtxoProcessor::rewind_block] *)
Definition rewind_block {S} `{UtxoWrite S} (undo : BlockUndo) (utxo_storage : S) :
    result StorageError S :=
  utxo_storage ← batch_remove_utxos utxo_storage (elements (created_outpoints undo));
  batch_put_utxos utxo_storage (elements (spent_utxos undo)).

(** [process_inputs], [process_outputs] and [Block::create_undo] of [undo.rs]; the
    asynchronous lookup is the function it computes. *)
Definition process_inputs (utxo_lookup : OutPoint -> option UTXO) (t : Transaction)
    (spent : gset (OutPoint * UTXO)) : result StryiCoreError (gset (OutPoint * UTXO)) :=
  fold_res (fun spent input =>
    utxo ← ok_or (utxo_lookup (previous_output input))
      (TxMissingUtxo (txid (previous_output input)) (vout (previous_output input)));
    mret ({[ (previous_output input, utxo) ]} ∪ spent)) spent (inputs (tx_data t)).

Definition process_outputs (t : Transaction) (created : gset OutPoint) : gset OutPoint :=
  foldl (fun created entry => {[ entry.1 ]} ∪ created) created (tx_created t).

Definition create_undo (block : Block) (utxo_lookup : OutPoint -> option UTXO) :
    result StryiCoreError BlockUndo :=
  sets ← fold_res (fun acc t =>
    spent ← process_inputs utxo_lookup t acc.1;
    mret (spent, process_outputs t acc.2)) (∅, ∅) (transactions block);
  mret (mk_BlockUndo sets.1 sets.2).
End Definitions.

(** * The effect of a block on a UTXO map

    What a successful application does to the map and records for undo, and the map a
    rewind leaves. *)

Definition applied_view `{X : Externals} (b : Block) (m : gmap OutPoint UTXO) (undo : BlockUndo)
    (m' : gmap OutPoint UTXO) : Prop :=
  let '(created, ext) := block_effect b in
  NoDup ext /\ Forall (fun op => is_Some (m !! op)) ext /\
  (forall op u, (op, u) ∈ spent_utxos undo <-> op ∈ ext /\ m !! op = Some u) /\
  created_outpoints undo = dom created /\
  m' = created ∪ remove_all m ext.

Definition rewound_view (m : gmap OutPoint UTXO) (undo : BlockUndo) : gmap OutPoint UTXO :=
  put_all (remove_all m (elements (created_outpoints undo))) (elements (spent_utxos undo)).

(** No output of the block overwrites an entry the block leaves unspent. *)
Definition fresh_outputs `{X : Externals} (b : Block) (m : gmap OutPoint UTXO) : Prop :=
  forall op, op ∈ dom (block_effect b).1 -> m !! op = None \/ op ∈ (block_effect b).2.

Section Views.
Context {X : Externals}.
Implicit Types (m : gmap OutPoint UTXO).

(** The entries of an undo record, one per outpoint, put back over a map. *)
Lemma put_spent undo ext m m0 :
  (forall op u, (op, u) ∈ spent_utxos undo <-> op ∈ ext /\ m !! op = Some u) ->
  Forall (fun op => is_Some (m !! op)) ext ->
  forall op, put_all m0 (elements (spent_utxos undo)) !! op =
    if decide (op ∈ ext) then m !! op else m0 !! op.
Proof.
  intros Hsp Hall op.
  assert (NoDup (elements (spent_utxos undo)).*1) as Hnd.
  { apply NoDup_fmap_fst; [|apply NoDup_elements]. intros k u1 u2 Hu1 Hu2.
    apply elem_of_elements, Hsp in Hu1. apply elem_of_elements, Hsp in Hu2. naive_solver. }
  rewrite put_all_nodup by done. case_decide as Hin.
  - rewrite Forall_forall in Hall. destruct (Hall _ Hin) as [u Hu]. rewrite Hu.
    apply lookup_union_Some_l, elem_of_list_to_map_1; [done|].
    apply elem_of_elements, Hsp. done.
  - rewrite lookup_union_r; [done|]. apply not_elem_of_list_to_map_1.
    intros Hc. apply list_elem_of_fmap in Hc as ([op' u] & Hop & Hc). cbn in Hop. subst op'.
    apply elem_of_elements, Hsp in Hc. naive_solver.
Qed.

Lemma applied_created b m undo m' :
  applied_view b m undo m' -> created_outpoints undo = dom (block_effect b).1.
Proof. unfold applied_view. destruct (block_effect b); cbn. naive_solver. Qed.

Lemma rewound_lookup b m undo m' op :
  applied_view b m undo m' ->
  rewound_view m' undo !! op =
    if decide (op ∈ (block_effect b).2) then m !! op
    else if decide (op ∈ dom (block_effect b).1) then None
    else m !! op.
Proof.
  unfold applied_view, rewound_view. destruct (block_effect b) as [created ext]; cbn [fst snd].
  intros (Hnd & Hall & Hsp & Hcr & ->).
  rewrite (put_spent _ ext m) by done. case_decide as Hext; [done|].
  rewrite remove_all_lookup. case_decide as Hc.
  - apply elem_of_elements in Hc. rewrite Hcr in Hc. by rewrite decide_True.
  - rewrite elem_of_elements, Hcr in Hc. rewrite decide_False by done.
    rewrite lookup_union_r by (by apply not_elem_of_dom).
    rewrite remove_all_lookup. by rewrite decide_False.
Qed.

Lemma rewound_fresh b m undo m' :
  applied_view b m undo m' -> fresh_outputs b m -> rewound_view m' undo = m.
Proof.
  intros Ha Hf. apply map_eq. intros op. rewrite (rewound_lookup _ _ _ _ _ Ha).
  repeat case_decide; try done. destruct (Hf op); [done|by symmetry|done].
Qed.

Lemma rewound_present b m undo m' :
  applied_view b m undo m' ->
  first_missing m' (elements (created_outpoints undo)) = None.
Proof.
  unfold applied_view. destruct (block_effect b) as [created ext]; cbn [fst snd].
  intros (_ & _ & _ & Hcr & ->). apply first_missing_None, Forall_forall. intros op Hop.
  apply elem_of_elements in Hop. rewrite Hcr in Hop. apply elem_of_dom in Hop as [u Hu].
  exists u. by apply lookup_union_Some_l.
Qed.
End Views.

(** * Applying a block *)

Section Apply.
Context {X : Externals} {S : Type} `{UtxoWriteLaws S}.
Implicit Types (s : S) (m : gmap OutPoint UTXO) (ops : list OutPoint).

Lemma take_existing_eq m acc op :
  take_existing (m, acc) op =
    match m !! op with
    | Some u => Ok (delete op m, {[ (op, u) ]} ∪ acc)
    | None => Err (UtxoNotFound op)
    end.
Proof. unfold take_existing. cbn. by destruct (m !! op). Qed.

Lemma take_existing_fold ops m acc :
  match fold_res take_existing (m, acc) ops with
  | Ok taken =>
      NoDup ops /\ Forall (fun op => is_Some (m !! op)) ops /\
      forall op u, (op, u) ∈ taken.2 <-> (op, u) ∈ acc \/ (op ∈ ops /\ m !! op = Some u)
  | Err e => exists op, op ∈ ops /\ e = UtxoNotFound op /\ (m !! op = None \/ ~ NoDup ops)
  end.
Proof.
  revert m acc. induction ops as [|op ops IH]; intros m acc; cbn [fold_res].
  { split_and!; [apply NoDup_nil_2|apply Forall_nil_2|set_solver]. }
  rewrite take_existing_eq. destruct (m !! op) as [u|] eqn:Hop; cbn [mbind result_bind].
  2: { exists op. split_and!; [set_solver|done|by left]. }
  specialize (IH (delete op m) ({[ (op, u) ]} ∪ acc)).
  destruct (fold_res _ _ _) as [taken|e].
  - destruct IH as (Hnd & Hall & Hin). rewrite Forall_forall in Hall.
    assert (op ∉ ops) as Hni.
    { intros Hc. apply Hall in Hc as [? Hc]. by rewrite lookup_delete_eq in Hc. }
    split_and!.
    + by constructor.
    + constructor; [eauto|]. apply Forall_forall. intros op' Hop'.
      destruct (Hall _ Hop') as [v Hv]. apply lookup_delete_Some in Hv as [_ Hv]. eauto.
    + intros op' u'. rewrite Hin. destruct (decide (op' = op)) as [->|Hne].
      * rewrite lookup_delete_eq. rewrite Hop. set_solver.
      * rewrite lookup_delete_ne by done. set_solver.
  - destruct IH as (op' & Hin & -> & Hwhy). exists op'. split_and!; [set_solver|done|].
    destruct (decide (op' = op)) as [->|Hne].
    + right. intros Hnd. apply NoDup_cons in Hnd. naive_solver.
    + rewrite lookup_delete_ne in Hwhy by done. destruct Hwhy as [?|Hnd]; [by left|right].
      intros Hc. apply NoDup_cons in Hc. naive_solver.
Qed.

(** What a successful application of a block does to the store and records for undo. *)
Definition applied (b : Block) (s : S) (undo : BlockUndo) (s' : S) : Prop :=
  applied_view b (utxo_view s) undo (utxo_view s').

Lemma put_created s created :
  exists s', (if bool_decide (created = ∅) then Ok s else batch_put_utxos s (map_to_list created)) = Ok s' /\
    utxo_view s' = created ∪ utxo_view s.
Proof.
  case_bool_decide as Hc.
  - exists s. split; [done|]. by rewrite Hc, (left_id_L ∅ (∪)).
  - destruct (put_view s (map_to_list created)) as (s' & -> & Hv). exists s'.
    by rewrite Hv, put_all_map.
Qed.

Lemma apply_block_cases b s :
  match apply_block b s with
  | Ok (undo, s') => applied b s undo s'
  | Err e => exists op, op ∈ (block_effect b).2 /\ e = UtxoNotFound op /\
      (utxo_view s !! op = None \/ ~ NoDup (block_effect b).2)
  end.
Proof.
  unfold apply_block, applied, applied_view. destruct (block_effect b) as [created ext]. cbn [snd].
  destruct (bool_decide (ext = [])) eqn:Hext; bool_inv.
  { subst ext. cbn [mbind result_bind fst snd].
    destruct (put_created s created) as (s' & -> & Hv). cbn.
    split_and!; [apply NoDup_nil_2|apply Forall_nil_2|set_solver|done|done]. }
  pose proof (batch_get_view s ext) as Hget.
  destruct (first_missing (utxo_view s) ext) as [op|] eqn:Hmiss.
  { rewrite Hget. cbn. apply first_missing_Some in Hmiss. naive_solver. }
  destruct Hget as (m & -> & Hm). cbn [mbind result_bind].
  apply first_missing_None in Hmiss as Hall.
  pose proof (take_existing_fold ext m ∅) as Htake.
  destruct (fold_res _ _ _) as [taken|e]; cbn [mbind result_bind].
  - pose proof (remove_view s ext) as Hrem. rewrite Hmiss in Hrem.
    destruct Hrem as (s1 & -> & Hv1). cbn [mbind result_bind mret result_ret fst snd].
    destruct (put_created s1 created) as (s' & -> & Hv). cbn.
    destruct Htake as (Hnd & _ & Htake). split_and!; [done|done| |done|by rewrite Hv, Hv1].
    intros op u. rewrite Htake, Hm. case_decide; set_solver.
  - destruct Htake as (op & Hop & -> & Hwhy). exists op. split_and!; [done|done|].
    rewrite Hm, decide_True in Hwhy by done. done.
Qed.

Lemma apply_block_Ok b s undo s' : apply_block b s = Ok (undo, s') -> applied b s undo s'.
Proof. intros Ha. pose proof (apply_block_cases b s) as Hc. by rewrite Ha in Hc. Qed.

(** C14: applying a block to a UTXO store succeeds exactly when the outpoints it takes
    from outside the block are pairwise distinct and all present; the store then
    holds the block's surviving outputs over the old entries less those inputs, and
    the undo record holds exactly the removed entries with their values and the
    created outpoints. Otherwise it reports an absent or repeated outpoint. *)
Theorem apply_block_correct b s :
  let '(created, ext) := block_effect b in
  match apply_block b s with
  | Ok (undo, s') =>
      NoDup ext /\ Forall (fun op => is_Some (utxo_view s !! op)) ext /\
      (forall op u, (op, u) ∈ spent_utxos undo <-> op ∈ ext /\ utxo_view s !! op = Some u) /\
      created_outpoints undo = dom created /\
      utxo_view s' = created ∪ remove_all (utxo_view s) ext
  | Err e => exists op, op ∈ ext /\ e = UtxoNotFound op /\ (utxo_view s !! op = None \/ ~ NoDup ext)
  end.
Proof.
  pose proof (apply_block_cases b s) as Hc. unfold applied, applied_view in Hc.
  destruct (block_effect b) as [created ext]. exact Hc.
Qed.

(** ** Reverting a block *)

(** A rewind either leaves the rewound view or reports a created outpoint that is gone. *)
Lemma rewind_view undo s :
  match first_missing (utxo_view s) (elements (created_outpoints undo)) with
  | Some op => rewind_block undo s = Err (UtxoNotFound op)
  | None => exists s', rewind_block undo s = Ok s' /\ utxo_view s' = rewound_view (utxo_view s) undo
  end.
Proof.
  unfold rewind_block. pose proof (remove_view s (elements (created_outpoints undo))) as Hrem.
  destruct (first_missing _ _) as [op|]; [by rewrite Hrem|].
  destruct Hrem as (s1 & -> & Hv1). cbn [mbind result_bind].
  destruct (put_view s1 (elements (spent_utxos undo))) as (s' & Hput & Hv).
  exists s'. split; [done|]. unfold rewound_view. by rewrite Hv, Hv1.
Qed.

(** C15: reverting an applied block with its undo record always succeeds and restores the
    UTXO set to its exact state before the block if and only if the block overwrote no
    unspent entry it did not spend, that is if its new outpoints were fresh. *)
Theorem rewind_restores b s undo s' :
  apply_block b s = Ok (undo, s') ->
  exists s'', rewind_block undo s' = Ok s'' /\
    (utxo_view s'' = utxo_view s <->
     forall op, op ∈ created_outpoints undo ->
       utxo_view s !! op = None \/ op ∈ (block_effect b).2).
Proof.
  intros Ha. apply apply_block_Ok in Ha. unfold applied in Ha.
  pose proof (rewind_view undo s') as Hr. rewrite (rewound_present _ _ _ _ Ha) in Hr.
  destruct Hr as (s'' & Hr & Hv). exists s''. split; [done|]. rewrite Hv.
  rewrite (applied_created _ _ _ _ Ha). split.
  - intros Heq op Hop. pose proof (rewound_lookup _ _ _ _ op Ha) as Hl. rewrite Heq in Hl.
    destruct (decide (op ∈ (block_effect b).2)); [by right|left]. by rewrite decide_True in Hl.
  - intros Hf. exact (rewound_fresh _ _ _ _ Ha Hf).
Qed.

(** ** Overwritten outputs *)

(** Blocks applied one after the other, with their undo records, the newest first, and the
    blocks of some records reverted in this order. *)
Fixpoint apply_chain (bs : list Block) s : result StorageError (list BlockUndo * S) :=
  match bs with
  | [] => Ok ([], s)
  | b :: bs =>
      first ← apply_block b s;
      rest ← apply_chain bs first.2;
      mret (rest.1 ++ [first.1], rest.2)
  end.
Definition rewind_chain (undos : list BlockUndo) s : result StorageError S :=
  fold_res (fun s undo => rewind_block undo s) s undos.

(** The records do not name the outpoint among what their blocks spent. *)
Definition unspent_by (op : OutPoint) (undos : list BlockUndo) : Prop :=
  Forall (fun undo => forall u, (op, u) ∉ spent_utxos undo) undos.

Lemma apply_block_creates b s undo s' op :
  apply_block b s = Ok (undo, s') -> op ∈ created_outpoints undo -> is_Some (utxo_view s' !! op).
Proof.
  intros Ha%apply_block_Ok Hop. unfold applied, applied_view in Ha.
  destruct (block_effect b) as [created ext]. destruct Ha as (_ & _ & _ & Hcr & ->).
  apply lookup_union_is_Some. left. rewrite Hcr in Hop. by apply elem_of_dom in Hop.
Qed.

Lemma apply_block_keeps b s undo s' op :
  apply_block b s = Ok (undo, s') -> unspent_by op [undo] -> is_Some (utxo_view s !! op) -> is_Some (utxo_view s' !! op).
Proof.
  intros Ha%apply_block_Ok Hl%Forall_inv [u Hu]. unfold applied, applied_view in Ha.
  destruct (block_effect b) as [created ext]. destruct Ha as (_ & _ & Hsp & _ & ->).
  apply lookup_union_is_Some. right.
  rewrite remove_all_lookup, decide_False by (intros Hin; apply (Hl u), Hsp; done). by eexists.
Qed.

Lemma apply_chain_keeps bs s undos s' op :
  apply_chain bs s = Ok (undos, s') -> unspent_by op undos -> is_Some (utxo_view s !! op) -> is_Some (utxo_view s' !! op).
Proof.
  revert s undos. induction bs as [|b bs IH]; intros s undos; cbn [apply_chain].
  { by intros [= _ ->]. }
  intros ([undo s1] & Ha & ([undos' s2] & Hc & [= <- <-])%bind_Ok)%bind_Ok. cbn [fst snd] in *.
  intros [Hl Hu]%Forall_app Hop. apply (IH s1 undos' Hc Hl). by apply (apply_block_keeps b s undo).
Qed.

(** An outpoint that no record puts back stays absent while blocks are reverted. *)
Lemma rewind_chain_absent undos undo s op :
  unspent_by op undos -> utxo_view s !! op = None -> op ∈ created_outpoints undo ->
  exists op', rewind_chain (undos ++ [undo]) s = Err (UtxoNotFound op').
Proof.
  unfold rewind_chain. revert s. induction undos as [|u undos IH]; intros s Hl Hs Hop; cbn [app fold_res].
  - pose proof (rewind_view undo s) as Hr. destruct (first_missing _ _) as [op'|] eqn:Hm.
    + exists op'. by rewrite Hr.
    + exfalso. apply first_missing_None in Hm. rewrite Forall_forall in Hm.
      destruct (Hm op) as [x Hx]; [by apply elem_of_elements|congruence].
  - apply Forall_cons in Hl as [Hu Hl]. pose proof (rewind_view u s) as Hr. destruct (first_missing _ _) as [op'|].
    + exists op'. by rewrite Hr.
    + destruct Hr as (s' & -> & Hv). cbn [mbind result_bind]. apply IH; [done| |done]. rewrite Hv. unfold rewound_view.
      rewrite put_all_lookup_notin.
      * rewrite remove_all_lookup. by case_decide.
      * intros Hin. apply list_elem_of_fmap in Hin as ([op' x] & -> & Hin). apply elem_of_elements in Hin. by apply (Hu x).
Qed.

(** C40: An overwritten output can never be rewound. Suppose a block is applied that creates an
    output, then blocks that do not spend it, and then a block that creates the same output
    again without spending the first one; [apply_block] accepts such a block like any other
    (a payment without inputs that is repeated is a case). Then the output was still there,
    so it was overwritten; reverting the last block removes it instead of bringing the first
    one back; and reverting all the blocks, newest first, down to the one that first created
    it fails with a missing output: the chain cannot be rewound past that block any more. *)
Theorem overwritten_output_stops_rewind op first s undo1 s1 between undos s2 again undo2 s3 :
  apply_block first s = Ok (undo1, s1) -> op ∈ created_outpoints undo1 ->
  apply_chain between s1 = Ok (undos, s2) -> unspent_by op undos ->
  apply_block again s2 = Ok (undo2, s3) -> op ∈ created_outpoints undo2 -> op ∉ (block_effect again).2 ->
  is_Some (utxo_view s2 !! op) /\
  (exists s', rewind_block undo2 s3 = Ok s' /\ utxo_view s' !! op = None) /\
  exists op', rewind_chain (undo2 :: undos ++ [undo1]) s3 = Err (UtxoNotFound op').
Proof.
  intros Ha1 Hop1 Hb Hl Ha2 Hop2 Hext. split.
  { apply (apply_chain_keeps between s1 undos s2 op Hb Hl). by apply (apply_block_creates first s undo1). }
  apply apply_block_Ok in Ha2. unfold applied in Ha2.
  pose proof (rewind_view undo2 s3) as Hr. rewrite (rewound_present _ _ _ _ Ha2) in Hr. destruct Hr as (s' & Hr & Hv).
  assert (utxo_view s' !! op = None) as Habs.
  { rewrite Hv, (rewound_lookup _ _ _ _ op Ha2), decide_False by done.
    rewrite decide_True; [done|]. by rewrite <-(applied_created _ _ _ _ Ha2). }
  split; [by exists s'|]. unfold rewind_chain. cbn [fold_res]. rewrite Hr. cbn [mbind result_bind].
  by apply rewind_chain_absent with op.
Qed.
End Apply.

(** * Blocks that spend none of their own outputs *)

Section External.
Context {X : Externals}.
Implicit Types (ts : list Transaction).

(** All outputs of a list of transactions, and all outpoints its payments spend. *)
Definition created_list ts : list (OutPoint * UTXO) := ts ≫= tx_created.
Definition spent_by (t : Transaction) : list OutPoint :=
  if is_payment t then previous_output <$> inputs (tx_data t) else [].
Definition spent_list ts : list OutPoint := ts ≫= spent_by.

Lemma spend_external created ext ins :
  (forall i, i ∈ ins -> created !! previous_output i = None) ->
  foldl spend_input (created, ext) ins = (created, ext ++ (previous_output <$> ins)).
Proof.
  revert ext. induction ins as [|i ins IH]; intros ext Hi; cbn [foldl fmap list_fmap].
  { by rewrite app_nil_r. }
  unfold spend_input at 2. cbn [fst snd]. rewrite Hi by set_solver.
  rewrite IH by set_solver. by rewrite <-app_assoc.
Qed.

Lemma block_steps_external ts created ext :
  (forall op, op ∈ spent_list ts -> op ∉ dom created /\ op ∉ (created_list ts).*1) ->
  foldl block_step (created, ext) ts = (put_all created (created_list ts), ext ++ spent_list ts).
Proof.
  revert created ext. induction ts as [|t ts IH]; intros created ext Hout; cbn [foldl].
  { by rewrite app_nil_r. }
  unfold created_list, spent_list in *. cbn [mbind list_bind] in *.
  assert (block_step (created, ext) t = (put_all created (tx_created t), ext ++ spent_by t)) as Hstep.
  { unfold block_step, spent_by in *. destruct (is_payment t); [|by rewrite app_nil_r].
    rewrite spend_external; [done|]. intros i Hi.
    apply not_elem_of_dom. apply Hout. apply elem_of_app. left. set_solver. }
  rewrite Hstep, IH.
  - by rewrite put_all_app, app_assoc.
  - intros op Hop. rewrite fmap_app in Hout. destruct (Hout op) as [Hc Hl]; [set_solver|].
    split; [|set_solver]. apply not_elem_of_dom. rewrite put_all_lookup_notin by set_solver.
    by apply not_elem_of_dom.
Qed.

Lemma block_effect_external b :
  (forall op, op ∈ spent_list (transactions b) -> op ∉ (created_list (transactions b)).*1) ->
  block_effect b = (put_all ∅ (created_list (transactions b)), spent_list (transactions b)).
Proof.
  intros Hout. unfold block_effect. rewrite block_steps_external; [done|].
  intros op Hop. rewrite dom_empty_L. set_solver.
Qed.

Lemma put_all_dom (m : gmap OutPoint UTXO) l : dom (put_all m l) = dom m ∪ list_to_set l.*1.
Proof.
  revert m. induction l as [|[k v] l IH]; intros m; cbn; [set_solver|].
  change (dom (put_all (<[k:=v]> m) l) = dom m ∪ ({[k]} ∪ list_to_set l.*1)).
  rewrite IH, dom_insert_L. set_solver.
Qed.

Lemma process_outputs_eq t created :
  process_outputs t created = created ∪ list_to_set (tx_created t).*1.
Proof.
  unfold process_outputs. generalize (tx_created t) as l. intros l. revert created.
  induction l as [|e l IH]; intros created; cbn; [set_solver|]. rewrite IH. set_solver.
Qed.

Lemma process_inputs_Ok (look : OutPoint -> option UTXO) t spent :
  (forall i, i ∈ inputs (tx_data t) -> is_Some (look (previous_output i))) ->
  exists spent', process_inputs look t spent = Ok spent' /\
    forall op u, (op, u) ∈ spent' <-> (op, u) ∈ spent \/
      (op ∈ (previous_output <$> inputs (tx_data t)) /\ look op = Some u).
Proof.
  unfold process_inputs. generalize (inputs (tx_data t)) as l. intros l. revert spent.
  induction l as [|i l IH]; intros spent Hall; cbn [fold_res].
  { exists spent. split; [done|]. set_solver. }
  destruct (Hall i) as [u Hu]; [set_solver|]. rewrite Hu.
  cbn [ok_or mbind result_bind mret result_ret].
  destruct (IH ({[ (previous_output i, u) ]} ∪ spent)) as (spent' & Hf & Hin); [set_solver|].
  exists spent'. split; [done|]. intros op u'. rewrite Hin.
  rewrite elem_of_union, elem_of_singleton. set_unfold. naive_solver congruence.
Qed.

Lemma create_undo_sets (look : OutPoint -> option UTXO) ts acc :
  (forall t i, t ∈ ts -> i ∈ inputs (tx_data t) -> is_Some (look (previous_output i))) ->
  exists acc', fold_res (fun acc t =>
      spent ← process_inputs look t acc.1; mret (spent, process_outputs t acc.2)) acc ts = Ok acc' /\
    acc'.2 = acc.2 ∪ list_to_set (created_list ts).*1 /\
    forall op u, (op, u) ∈ acc'.1 <-> (op, u) ∈ acc.1 \/
      (op ∈ (ts ≫= fun t => previous_output <$> inputs (tx_data t)) /\ look op = Some u).
Proof.
  revert acc. induction ts as [|t ts IH]; intros acc Hall; cbn [fold_res].
  { exists acc. split_and!; [done|set_solver|set_solver]. }
  destruct (process_inputs_Ok look t acc.1) as (spent' & -> & Hin); [set_solver|].
  cbn [mbind result_bind mret result_ret].
  destruct (IH (spent', process_outputs t acc.2)) as (acc' & -> & Hcr & Hsp); [set_solver|].
  exists acc'. split; [done|]. cbn [fst snd] in *. split.
  - rewrite Hcr, process_outputs_eq. unfold created_list. cbn [mbind list_bind].
    rewrite fmap_app, list_to_set_app_L. set_solver.
  - intros op u. rewrite Hsp, Hin. cbn [mbind list_bind]. rewrite elem_of_app. naive_solver.
Qed.
End External.

Section CreateUndo.
Context {X : Externals} {S : Type} `{UtxoWriteLaws S}.

(** For a block whose payments spend only outputs that existed before it and whose
    other transactions have no inputs, the stand-alone undo builder run on the
    pre-block state produces exactly the undo record that applying the block returns. *)
Lemma create_undo_agrees b (s s' : S) undo :
  (forall t, t ∈ transactions b -> is_payment t = false -> inputs (tx_data t) = []) ->
  (forall op, op ∈ spent_list (transactions b) -> op ∉ (created_list (transactions b)).*1) ->
  apply_block b s = Ok (undo, s') ->
  create_undo b (fun op => utxo_view s !! op) = Ok undo.
Proof.
  intros Hpay Hout Ha. apply apply_block_Ok in Ha. unfold applied, applied_view in Ha.
  rewrite block_effect_external in Ha by done.
  destruct Ha as (_ & Hall & Hsp & Hcr & _). rewrite Forall_forall in Hall.
  assert (forall t, t ∈ transactions b -> spent_by t = previous_output <$> inputs (tx_data t)) as Hby.
  { intros t Ht. unfold spent_by. destruct (is_payment t) eqn:Hp; [done|]. by rewrite (Hpay t). }
  assert (spent_list (transactions b) =
    (transactions b ≫= fun t => previous_output <$> inputs (tx_data t))) as Hlist.
  { unfold spent_list. clear -Hby. induction (transactions b) as [|t ts IH]; [done|].
    cbn [mbind list_bind]. rewrite Hby by set_solver. f_equal. apply IH. set_solver. }
  destruct (create_undo_sets (fun op => utxo_view s !! op) (transactions b) (∅, ∅))
    as (acc & Hf & Hc & Hs).
  { intros t i Ht Hi. apply Hall. apply list_elem_of_bind. exists t. split; [|done].
    rewrite Hby by done. set_solver. }
  unfold create_undo. rewrite Hf. cbn. f_equal. destruct undo as [sp cr]; cbn in *. f_equal.
  - apply set_eq. intros [op u]. rewrite Hs, Hsp, Hlist. set_solver.
  - rewrite Hc, Hcr, put_all_dom. set_solver.
Qed.
End CreateUndo.

(** * The total value of the UTXO set *)

Section Totals.
Implicit Types (m : gmap OutPoint UTXO).

Definition total_value m : Z := map_zsum utxo_value m.
Definition nonneg_values m : Prop := map_Forall (fun _ u => 0 <= utxo_value u) m.

(** The value a store holds at an outpoint, and over a list of outpoints. *)
Definition value_at m op : Z := match m !! op with Some u => utxo_value u | None => 0 end.

Lemma nonneg_delete m op : nonneg_values m -> nonneg_values (delete op m).
Proof. intros Hm. by apply map_Forall_delete. Qed.

Lemma total_remove_all m ops :
  NoDup ops -> Forall (fun op => is_Some (m !! op)) ops ->
  total_value (remove_all m ops) = total_value m - zsum (value_at m <$> ops).
Proof.
  unfold remove_all. revert m. induction ops as [|op ops IH]; intros m Hnd Hall; cbn [foldl fmap list_fmap].
  { unfold zsum. cbn. lia. }
  apply NoDup_cons in Hnd as [Hop Hnd]. apply Forall_cons in Hall as [[u Hu] Hall].
  rewrite IH; [|done|].
  - unfold total_value. rewrite (map_zsum_delete _ _ _ u) by done. rewrite zsum_cons.
    unfold value_at at 2. rewrite Hu.
    rewrite (list_fmap_ext (value_at (delete op m)) (value_at m) ops); [lia|].
    intros i x Hx. unfold value_at. rewrite lookup_delete_ne; [done|].
    intros ->. by apply list_elem_of_lookup_2 in Hx.
  - eapply Forall_impl; [apply Forall_and; split; [exact Hall|]|].
    + apply Forall_forall. intros x Hx. exact (fun Heq : op = x => Hop (eq_ind_r (fun o => o ∈ ops) Hx Heq)).
    + cbn. intros x [Hx Hne]. by rewrite lookup_delete_ne.
Qed.

Lemma total_put_all m l :
  nonneg_values m -> Forall (fun e => 0 <= utxo_value e.2) l ->
  total_value (put_all m l) <= total_value m + zsum ((fun e => utxo_value e.2) <$> l) /\
  nonneg_values (put_all m l).
Proof.
  unfold put_all. revert m. induction l as [|[op u] l IH]; intros m Hm Hl; cbn [foldl fmap list_fmap].
  { unfold zsum. cbn. split; [lia|done]. }
  apply Forall_cons in Hl as [Hu Hl]. cbn [fst snd] in *.
  destruct (IH (<[op:=u]> m)) as [Hle Hnn]; [by apply map_Forall_insert_2|done|].
  split; [|done]. etrans; [exact Hle|]. rewrite zsum_cons.
  pose proof (map_zsum_insert_le utxo_value m op u Hm). unfold total_value in *. lia.
Qed.

Lemma total_put_all_fresh m l :
  NoDup l.*1 -> (forall e, e ∈ l -> m !! e.1 = None) ->
  total_value (put_all m l) = total_value m + zsum ((fun e => utxo_value e.2) <$> l).
Proof.
  unfold put_all. revert m. induction l as [|[op u] l IH]; intros m Hnd Hm; cbn [foldl fmap list_fmap].
  { unfold zsum. cbn. lia. }
  apply NoDup_cons in Hnd as [Hop Hnd]. cbn [fst snd] in *. rewrite IH; [|done|].
  - rewrite zsum_cons. unfold total_value. rewrite map_zsum_insert by (apply (Hm (op, u)); set_solver). lia.
  - intros e He. rewrite lookup_insert_ne; [apply Hm; set_solver|].
    intros ->. apply Hop. apply list_elem_of_fmap. by exists e.
Qed.

Lemma nonneg_remove_all m ops : nonneg_values m -> nonneg_values (remove_all m ops).
Proof.
  unfold remove_all. revert m. induction ops as [|op ops IH]; intros m Hm; [done|].
  apply IH. by apply nonneg_delete.
Qed.

Lemma tx_created_values `{X : Externals} t :
  ((fun e => utxo_value e.2) <$> tx_created t) = value <$> outputs (tx_data t).
Proof.
  unfold tx_created. apply list_eq. intros i. rewrite !list_lookup_fmap, list_lookup_imap.
  by destruct (outputs (tx_data t) !! i).
Qed.

Lemma created_list_values `{X : Externals} ts :
  zsum ((fun e => utxo_value e.2) <$> created_list ts) =
  zsum ((fun t => zsum (value <$> outputs (tx_data t))) <$> ts).
Proof.
  unfold created_list. induction ts as [|t ts IH]; [done|].
  cbn [mbind list_bind fmap list_fmap]. rewrite fmap_app, zsum_app, zsum_cons, tx_created_values.
  f_equal. exact IH.
Qed.

Lemma created_list_nonneg `{X : Externals} ts :
  Forall (fun t => Forall (fun o => 0 <= value o) (outputs (tx_data t))) ts ->
  Forall (fun e : OutPoint * UTXO => 0 <= utxo_value e.2) (created_list ts).
Proof.
  rewrite !Forall_forall. intros Hout e He.
  apply list_elem_of_bind in He as (t & He & Ht). specialize (Hout t Ht).
  rewrite Forall_forall in Hout.
  apply (list_elem_of_fmap_2 (fun e => utxo_value e.2)) in He. rewrite tx_created_values in He.
  apply list_elem_of_fmap in He as (o & -> & Ho). by apply Hout.
Qed.

Lemma spent_list_values `{X : Externals} (f : OutPoint -> Z) ts :
  zsum (f <$> spent_list ts) = zsum ((fun t => zsum (f <$> spent_by t)) <$> ts).
Proof.
  unfold spent_list. induction ts as [|t ts IH]; [done|].
  cbn [mbind list_bind fmap list_fmap]. rewrite fmap_app, zsum_app, zsum_cons.
  f_equal. exact IH.
Qed.
End Totals.

Section TotalChange.
Context {X : Externals} {S : Type} `{UtxoWriteLaws S}.

(** Applying a block that spends none of its own outputs changes the total value by at
    most the outputs less the spent inputs, and never makes a value negative. *)
Lemma apply_total_le b (s s' : S) undo :
  nonneg_values (utxo_view s) ->
  Forall (fun t => Forall (fun o => 0 <= value o) (outputs (tx_data t))) (transactions b) ->
  (forall op, op ∈ spent_list (transactions b) -> op ∉ (created_list (transactions b)).*1) ->
  apply_block b s = Ok (undo, s') ->
  nonneg_values (utxo_view s') /\
  total_value (utxo_view s') <= total_value (utxo_view s)
    - zsum ((fun t => zsum (value_at (utxo_view s) <$> spent_by t)) <$> transactions b)
    + zsum ((fun t => zsum (value <$> outputs (tx_data t))) <$> transactions b).
Proof.
  intros Hnn Hout Hext Ha. apply apply_block_Ok in Ha. unfold applied, applied_view in Ha.
  rewrite block_effect_external in Ha by done.
  destruct Ha as (Hnd & Hall & _ & _ & Hv).
  assert (Forall (fun e : OutPoint * UTXO => 0 <= utxo_value e.2) (created_list (transactions b))) as Hcr. by (by apply created_list_nonneg).
  assert (put_all ∅ (created_list (transactions b)) ∪ remove_all (utxo_view s) (spent_list (transactions b))
    = put_all (remove_all (utxo_view s) (spent_list (transactions b)))
        (map_to_list (put_all ∅ (created_list (transactions b))))) as Heq by (by rewrite put_all_map).
  rewrite Hv.
  destruct (total_put_all ∅ (created_list (transactions b))) as [Hle Hnn0];
    [apply map_Forall_empty|done|].
  destruct (total_put_all (remove_all (utxo_view s) (spent_list (transactions b)))
    (map_to_list (put_all ∅ (created_list (transactions b))))) as [Hle1 Hnn1].
  { by apply nonneg_remove_all. }
  { apply map_Forall_to_list in Hnn0. eapply Forall_impl; [exact Hnn0|]. by intros []. }
  rewrite Heq. split; [done|]. etrans; [exact Hle1|].
  rewrite total_remove_all by done. rewrite spent_list_values.
  rewrite created_list_values in Hle.
  assert (zsum ((fun e : OutPoint * UTXO => utxo_value e.2) <$> map_to_list (put_all ∅ (created_list (transactions b))))
    = total_value (put_all ∅ (created_list (transactions b)))) as ->.
  { unfold total_value, map_zsum. rewrite <-list_fmap_compose. done. }
  change (total_value ∅) with 0 in Hle. lia.
Qed.
End TotalChange.

Section UtxoWitnesses.
Import Toy.

Definition toy_owner : AccountAddress := @mk_Hash AddressHasher (zeros 20).
Definition toy_txid : TransactionHash := @mk_Hash TransactionHasher (zeros 32).
Definition toy_op : OutPoint := mk_OutPoint toy_txid 0.
Definition toy_payment : Transaction :=
  new_unsigned (mk_TransactionData 1 Payment [mk_TransactionIn toy_op 0]
    [mk_TransactionOut 30 toy_owner; mk_TransactionOut 12 toy_owner]).
Definition toy_payment_block : Block :=
  mk_Block (mk_BlockHeader 1 MerkleHash_empty BlockHash_empty 1 1 9 0 None) [toy_payment].
Definition toy_store : MemoryView :=
  set_utxos MemoryView_default {[ toy_op := mk_UTXO toy_txid 0 50 toy_owner ]}.

Definition toy_applied : result StorageError (BlockUndo * MemoryView) :=
  @apply_block externals MemoryView memory_utxo_storage memory_utxo_write
    toy_payment_block toy_store.

Lemma toy_applied_ok : is_ok toy_applied = true.
Proof. vm_compute. reflexivity. Qed.

Lemma toy_external op :
  op ∈ spent_list (transactions toy_payment_block) ->
  op ∉ (created_list (transactions toy_payment_block)).*1.
Proof.
  revert op. apply Forall_forall. apply (bool_decide_unpack _). vm_compute. exact I.
Qed.

Lemma rewind_restores_witness :
  exists undo s' s'', toy_applied = Ok (undo, s') /\ rewind_block undo s' = Ok s'' /\
    utxo_view s'' = utxo_view toy_store.
Proof.
  destruct toy_applied as [[undo s']|e] eqn:Ha.
  - destruct (@rewind_restores externals MemoryView memory_utxo_storage memory_utxo_write
      memory_write_laws toy_payment_block toy_store undo s' Ha) as (s'' & Hr & Heq).
    exists undo, s', s''. split; [reflexivity|]. split; [exact Hr|]. apply Heq.
    intros op Hop.
    apply (@apply_block_Ok externals MemoryView memory_utxo_storage memory_utxo_write
      memory_write_laws) in Ha.
    unfold applied, applied_view in Ha. rewrite block_effect_external in Ha by exact toy_external.
    destruct Ha as (_ & _ & _ & Hcr & _). rewrite Hcr, put_all_dom in Hop.
    left. assert (Forall (fun op => utxo_view toy_store !! op = None)
      (elements (dom (∅ : gmap OutPoint UTXO) ∪
        (list_to_set (created_list (transactions toy_payment_block)).*1 : gset OutPoint)))) as Hf
      by (apply (bool_decide_unpack _); vm_compute; exact I).
    rewrite Forall_forall in Hf. apply Hf. by apply elem_of_elements.
  - exfalso. pose proof toy_applied_ok as Hok. rewrite Ha in Hok. discriminate Hok.
Defined.

(** A payment without inputs, confirmed twice. *)
Definition toy_free : Transaction := new_unsigned (mk_TransactionData 1 Payment [] [mk_TransactionOut 0 toy_owner]).
Definition toy_free_block : Block :=
  mk_Block (mk_BlockHeader 1 MerkleHash_empty BlockHash_empty 1 1 9 0 None) [toy_free].
Definition toy_free_op : OutPoint := mk_OutPoint (@tx_hash externals (tx_data toy_free)) 0.

Notation toy_apply := (@apply_block externals MemoryView memory_utxo_storage memory_utxo_write toy_free_block).

Lemma toy_free_applies s :
  exists undo s', toy_apply s = Ok (undo, s') /\ toy_free_op ∈ created_outpoints undo.
Proof.
  assert ((@block_effect externals toy_free_block).2 = []) as He by (vm_compute; reflexivity).
  assert (toy_free_op ∈ dom (@block_effect externals toy_free_block).1) as Hd by (apply (bool_decide_unpack _); vm_compute; exact I).
  pose proof (@apply_block_cases externals MemoryView memory_utxo_storage memory_utxo_write memory_write_laws toy_free_block s) as Hc.
  destruct (toy_apply s) as [[undo s']|e].
  - unfold applied, applied_view in Hc. destruct (@block_effect externals toy_free_block) as [created ext]. cbn [fst snd] in *.
    subst ext. destruct Hc as (_ & _ & _ & Hcr & _). exists undo, s'. split; [reflexivity|]. rewrite Hcr. exact Hd.
  - destruct Hc as (op & Hop & _). rewrite He in Hop. by apply not_elem_of_nil in Hop.
Qed.

Lemma overwritten_output_stops_rewind_witness : exists undo1 undo2 s2 op',
  @rewind_chain MemoryView memory_utxo_storage memory_utxo_write [undo2; undo1] s2 = Err (UtxoNotFound op').
Proof.
  destruct (toy_free_applies toy_store) as (undo1 & s1 & H1 & Hop1).
  destruct (toy_free_applies s1) as (undo2 & s2 & H2 & Hop2).
  destruct (@overwritten_output_stops_rewind externals MemoryView memory_utxo_storage memory_utxo_write memory_write_laws
    toy_free_op toy_free_block toy_store undo1 s1 [] [] s1 toy_free_block undo2 s2 H1 Hop1 eq_refl (Forall_nil_2 _) H2 Hop2)
    as (_ & _ & Hf).
  - assert ((@block_effect externals toy_free_block).2 = []) as He by (vm_compute; reflexivity).
    rewrite He. apply not_elem_of_nil.
  - exists undo1, undo2, s2. exact Hf.
Defined.
End UtxoWitnesses.
