(* ===== verification/Overlay.v ===== *)
(** Overlay: the in-memory overlay that rewinds canonical blocks and replays a fork on
    top of a storage snapshot, and the net delta it produces
    ([consensus/forks/overlay.rs]). The overlay is itself a lawful UTXO store. *)
From S2P Require Import Prelude Bytes Types Externals Hashing Transactions Blocks Storage UtxoProcessor.

Record ForkDbOverlay (DB : Type) := mk_ForkDbOverlay {
  base : DB;
  ov_common_ancestor : Z * BlockHash;
  ov_expected_head : Z * BlockHash;
  rewind_tip : Z * BlockHash;
  branch_tip : Z * BlockHash;
  ov_utxos : gmap OutPoint UTXO;
  removed_utxos : gset OutPoint;
  ov_blocks : gmap BlockHash (Block * BlockUndo);
  ov_heights : gmap Z BlockHash;
  ov_detached : list (Z * BlockHash);
}.
Arguments mk_ForkDbOverlay {DB}.
Arguments base {DB} _.
Arguments ov_common_ancestor {DB} _.
Arguments ov_expected_head {DB} _.
Arguments rewind_tip {DB} _.
Arguments branch_tip {DB} _.
Arguments ov_utxos {DB} _.
Arguments removed_utxos {DB} _.
Arguments ov_blocks {DB} _.
Arguments ov_heights {DB} _.
Arguments ov_detached {DB} _.

(** The order of delta blocks: ascending height. *)
Definition height_le (a b : Block * BlockUndo) : Prop := height (header a.1) <= height (header b.1).
#[export] Instance height_le_dec : RelDecision height_le.
Proof. intros a b. unfold height_le. apply _. Defined.
#[export] Instance height_le_total : Total height_le.
Proof. intros a b. unfold height_le. lia. Qed.
#[export] Instance height_le_trans : Transitive height_le.
Proof. intros a b c. unfold height_le. lia. Qed.

Section Overlay.
Context {X : Externals} {DB : Type} `{StorageRead DB}.
Abbreviation overlay := (ForkDbOverlay DB).
Implicit Types (ov : overlay).

(** ** Reads *)

Definition overlay_get_utxo ov (outpoint : OutPoint) : result StorageError (option UTXO) :=
  match ov_utxos ov !! outpoint with
  | Some utxo => Ok (Some utxo)
  | None =>
      if bool_decide (outpoint ∈ removed_utxos ov) then Ok None
      else get_utxo (base ov) outpoint
  end.

Definition overlay_get_utxos_for_address ov (address : AccountAddress) :
    result StorageError (gmap OutPoint UTXO) :=
  found ← get_utxos_for_address (base ov) address;
  let kept := filter (fun kv => kv.1 ∉ removed_utxos ov /\ ov_utxos ov !! kv.1 = None) found in
  mret (filter (fun kv => owner kv.2 = address) (ov_utxos ov) ∪ kept).

#[export] Instance overlay_utxo_storage : UtxoStorage overlay := {
  get_utxo := overlay_get_utxo;
  get_utxos_for_address := overlay_get_utxos_for_address;
}.

Definition overlay_get_block_by_hash ov (hash : BlockHash) : result StorageError (option Block) :=
  match ov_blocks ov !! hash with
  | Some (block, _) => Ok (Some block)
  | None => get_block_by_hash (base ov) hash
  end.

Definition overlay_get_block_hash_by_height ov (height : Z) :
    result StorageError (option BlockHash) :=
  match ov_heights ov !! height with
  | Some hash => Ok (Some hash)
  | None =>
      if (ov_common_ancestor ov).1 <? height then Ok None
      else get_block_hash_by_height (base ov) height
  end.

Definition overlay_get_block_by_height ov (height : Z) : result StorageError (option Block) :=
  match ov_heights ov !! height with
  | Some hash => overlay_get_block_by_hash ov hash
  | None =>
      if (ov_common_ancestor ov).1 <? height then Ok None
      else get_block_by_height (base ov) height
  end.

Definition overlay_get_block_header_by_hash ov (hash : BlockHash) :
    result StorageError (option BlockHeader) :=
  match ov_blocks ov !! hash with
  | Some (block, _) => Ok (Some (header block))
  | None => get_block_header_by_hash (base ov) hash
  end.

Definition overlay_get_transaction ov (hash : TransactionHash) :
    result StorageError (option ConfirmedTransaction) :=
  found ← get_transaction (base ov) hash;
  mret (record ← found;
        guard (location_block_height (location record) <= (ov_common_ancestor ov).1);;
        Some record).

#[export] Instance overlay_block_storage : BlockStorage overlay := {
  get_block_hash_by_height := overlay_get_block_hash_by_height;
  get_block_by_hash := overlay_get_block_by_hash;
  get_block_by_height := overlay_get_block_by_height;
  get_block_header_by_hash := overlay_get_block_header_by_hash;
  get_block_index ov hash := get_block_index (base ov) hash;
  get_transaction := overlay_get_transaction;
}.

(** ** Writes *)

Definition set_overlay_utxos ov (u : gmap OutPoint UTXO) (r : gset OutPoint) : overlay :=
  mk_ForkDbOverlay (base ov) (ov_common_ancestor ov) (ov_expected_head ov) (rewind_tip ov)
    (branch_tip ov) u r (ov_blocks ov) (ov_heights ov) (ov_detached ov).

Definition overlay_batch_put_utxos ov (l : list (OutPoint * UTXO)) : result StorageError overlay :=
  Ok (set_overlay_utxos ov (put_all (ov_utxos ov) l) (removed_utxos ov)).

Definition overlay_batch_remove_utxos ov (outpoints : list OutPoint) :
    result StorageError overlay :=
  _ ← fold_res (fun _ outpoint =>
        found ← get_utxo ov outpoint;
        if bool_decide (is_Some found) then Ok tt else Err (UtxoNotFound outpoint)) tt outpoints;
  mret (set_overlay_utxos ov (remove_all (ov_utxos ov) outpoints)
    (foldl (fun r outpoint => {[ outpoint ]} ∪ r) (removed_utxos ov) outpoints)).

#[export] Instance overlay_utxo_write : UtxoWrite overlay := {
  batch_put_utxos := overlay_batch_put_utxos;
  batch_remove_utxos := overlay_batch_remove_utxos;
}.

(** ** Construction, rewind, replay and delta *)

(** [ForkDbOverlay::new] *)
Definition overlay_new (db : DB) (ancestor : BlockHash) : result StorageError overlay :=
  found ← get_block_by_hash db ancestor;
  block ← ok_or found (BlockNotFound ancestor);
  expected_head ← tip db;
  _ ← ensure (bool_decide (block_hash block = ancestor))
        (Corruption "Fork ancestor body does not match its key");
  let outside := InvalidTransition "Fork ancestor is outside the canonical chain" in
  _ ← ensure (negb (expected_head.1 <? height (header block))) outside;
  canonical ← get_block_hash_by_height db (height (header block));
  _ ← ensure (bool_decide (canonical = Some ancestor)) outside;
  let common_ancestor := (height (header block), ancestor) in
  mret (mk_ForkDbOverlay db common_ancestor expected_head expected_head common_ancestor
    ∅ ∅ ∅ ∅ []).

(** The error of a rewind whose undo names an absent output. *)
Definition rewind_error (error : StorageError) : StorageError :=
  match error with
  | UtxoNotFound _ => Corruption "Undo references missing UTXO {outpoint:?}"
  | other => other
  end.

(** [ForkDbOverlay::rewind_block] *)
Definition overlay_rewind_block ov : result StorageError overlay :=
  if negb (bool_decide (ov_blocks ov = ∅)) || ((rewind_tip ov).1 <=? (ov_common_ancestor ov).1)
  then Err (InvalidTransition "Cannot rewind past the fork ancestor or after replay")
  else
    let '(height, hash) := rewind_tip ov in
    found ← get_block_by_hash (base ov) hash;
    block ← ok_or found (Corruption "Canonical block {hash} is absent");
    let disagree := Corruption "Canonical ancestry and height mappings disagree" in
    _ ← ensure (bool_decide (block_hash block = hash) && (Types.height (header block) =? height)) disagree;
    canonical ← get_block_hash_by_height (base ov) height;
    _ ← ensure (bool_decide (canonical = Some hash)) disagree;
    found_undo ← get_block_undo (base ov) hash;
    undo ← ok_or found_undo (Corruption "Canonical undo {hash} is absent");
    ov ← map_err rewind_error (rewind_block undo ov);
    mret (mk_ForkDbOverlay (base ov) (ov_common_ancestor ov) (ov_expected_head ov)
      (height - 1, previous_block_hash (header block)) (branch_tip ov) (ov_utxos ov)
      (removed_utxos ov) (ov_blocks ov) (ov_heights ov) (ov_detached ov ++ [(height, hash)])).

(** [ForkDbOverlay::replay_block] *)
Definition overlay_replay_block ov (block : Block) : result StorageError overlay :=
  _ ← map_err (fun error => InvalidTransition (core_error_text error)) (verify_genesis_work_shape block);
  if negb (bool_decide (rewind_tip ov = ov_common_ancestor ov))
     || header_is_genesis (header block)
     || (hash_threshold (header block) =? 0)
     || negb (bool_decide (previous_block_hash (header block) = (branch_tip ov).2))
     || negb (bool_decide (checked_add 64 (branch_tip ov).1 1 = Some (height (header block))))
  then Err (InvalidTransition "Fork replay must extend the rewound ancestor or its replacement prefix")
  else
    applied ← apply_block block ov;
    let '(undo, ov) := applied in
    let hash := block_hash block in
    mret (mk_ForkDbOverlay (base ov) (ov_common_ancestor ov) (ov_expected_head ov)
      (rewind_tip ov) (height (header block), hash) (ov_utxos ov) (removed_utxos ov)
      (<[hash := (block, undo)]> (ov_blocks ov)) (<[height (header block) := hash]> (ov_heights ov))
      (ov_detached ov)).

(** The two filter loops of [into_delta]. *)
Definition keep_removed ov (acc : list OutPoint) (outpoint : OutPoint) :
    result StorageError (list OutPoint) :=
  if bool_decide (ov_utxos ov !! outpoint = None) then
    found ← get_utxo (base ov) outpoint;
    mret (if bool_decide (is_Some found) then acc ++ [outpoint] else acc)
  else Ok acc.

Definition keep_changed ov (acc : list (OutPoint * UTXO)) (entry : OutPoint * UTXO) :
    result StorageError (list (OutPoint * UTXO)) :=
  found ← get_utxo (base ov) entry.1;
  mret (if bool_decide (found = Some entry.2) then acc else acc ++ [entry]).

(** [ForkDbOverlay::into_delta] *)
Definition into_delta ov : result StorageError ForkDbDelta :=
  if negb (bool_decide (rewind_tip ov = ov_common_ancestor ov)) || bool_decide (ov_blocks ov = ∅)
  then Err (InvalidTransition "Fork delta requires a complete rewind and a nonempty replacement")
  else
    removed ← fold_res (keep_removed ov) [] (elements (removed_utxos ov));
    changed ← fold_res (keep_changed ov) [] (map_to_list (ov_utxos ov));
    let blocks := merge_sort height_le (map_to_list (ov_blocks ov)).*2 in
    mret (mk_ForkDbDelta (ov_expected_head ov) (ov_common_ancestor ov).2 (ov_detached ov)
      blocks changed removed).
End Overlay.

(** * The overlay is a lawful UTXO store *)

Section OverlayLaws.
Context {X : Externals} {DB : Type} `{StorageRead DB} `{!UtxoReadLaws DB}.
Implicit Types (ov : ForkDbOverlay DB).

Definition overlay_view ov : gmap OutPoint UTXO :=
  ov_utxos ov ∪ filter (fun kv => kv.1 ∉ removed_utxos ov) (utxo_view (base ov)).

Lemma overlay_view_lookup ov op :
  overlay_view ov !! op =
    match ov_utxos ov !! op with
    | Some u => Some u
    | None => if decide (op ∈ removed_utxos ov) then None else utxo_view (base ov) !! op
    end.
Proof.
  unfold overlay_view. destruct (ov_utxos ov !! op) as [u|] eqn:Hu.
  - by apply lookup_union_Some_l.
  - rewrite lookup_union_r by done. rewrite map_lookup_filter.
    destruct (utxo_view (base ov) !! op); cbn; [|by case_decide].
    case_decide; [rewrite option_guard_False|rewrite option_guard_True]; naive_solver.
Qed.

Lemma overlay_get_view ov op : get_utxo ov op = Ok (overlay_view ov !! op).
Proof.
  cbn. unfold overlay_get_utxo. rewrite overlay_view_lookup.
  destruct (ov_utxos ov !! op); [done|]. rewrite get_utxo_view.
  by destruct (decide (op ∈ removed_utxos ov)) as [Hr|Hr];
    [rewrite bool_decide_eq_true_2 by done|rewrite bool_decide_eq_false_2 by done].
Qed.

#[export] Instance overlay_read_laws : UtxoReadLaws (ForkDbOverlay DB).
Proof.
  refine {| utxo_view := overlay_view |}; [exact overlay_get_view|].
  intros ov a. cbn. unfold overlay_get_utxos_for_address. rewrite address_view. cbn. unfold mret, result_ret.
  f_equal. apply map_eq. intros op. rewrite map_lookup_filter, overlay_view_lookup.
  apply option_eq. intros u. rewrite lookup_union_Some_raw, !map_lookup_filter_Some, map_lookup_filter_None. cbn.
  destruct (ov_utxos ov !! op) as [u'|] eqn:Hu; cbn.
  - destruct (decide (owner u' = a)); [rewrite option_guard_True by done|rewrite option_guard_False by done];
      naive_solver.
  - case_decide as Hr; cbn; [naive_solver|].
    destruct (utxo_view (base ov) !! op) as [v|] eqn:Hv; cbn; [|naive_solver].
    destruct (decide (owner v = a)); [rewrite option_guard_True by done|rewrite option_guard_False by done];
      naive_solver.
Defined.

Lemma overlay_remove_check ov ops :
  fold_res (fun (_ : unit) outpoint =>
    found ← get_utxo ov outpoint;
    if bool_decide (is_Some found) then Ok tt else Err (UtxoNotFound outpoint)) tt ops =
  match first_missing (overlay_view ov) ops with Some op => Err (UtxoNotFound op) | None => Ok tt end.
Proof.
  unfold first_missing. induction ops as [|op ops IH]; [done|].
  rewrite filter_cons. cbn [fold_res]. rewrite overlay_get_view. cbn [mbind result_bind].
  destruct (overlay_view ov !! op) as [u|] eqn:Hop.
  - rewrite bool_decide_eq_true_2 by eauto. case_decide; [done|]. exact IH.
  - rewrite bool_decide_eq_false_2 by (intros [? ?]; done). case_decide; done.
Qed.

Lemma mark_removed (r : gset OutPoint) ops :
  foldl (fun r outpoint => {[ outpoint ]} ∪ r) r ops = r ∪ list_to_set ops.
Proof.
  revert r. induction ops as [|op ops IH]; intros r; cbn; [set_solver|]. rewrite IH. set_solver.
Qed.

#[export] Instance overlay_write_laws : UtxoWriteLaws (ForkDbOverlay DB).
Proof.
  refine {| write_read_laws := overlay_read_laws |}.
  - intros ov l. eexists; split; [reflexivity|]. cbn. apply map_eq. intros op.
    unfold overlay_view. cbn.
    assert (forall m m0 : gmap OutPoint UTXO, put_all (m ∪ m0) l = put_all m l ∪ m0) as Hput.
    { clear. unfold put_all. induction l as [|[k v] l IH]; intros m m0; [done|]. cbn.
      rewrite insert_union_l. apply IH. }
    by rewrite Hput.
  - intros ov ops. cbn [batch_remove_utxos overlay_utxo_write utxo_view overlay_read_laws].
    unfold overlay_batch_remove_utxos. rewrite overlay_remove_check.
    destruct (first_missing (overlay_view ov) ops); cbn; [done|]. eexists; split; [reflexivity|].
    apply map_eq. intros op. rewrite remove_all_lookup, !overlay_view_lookup. cbn.
    rewrite mark_removed, remove_all_lookup.
    destruct (decide (op ∈ ops)) as [Hin|Hin].
    + rewrite decide_True by set_solver. done.
    + destruct (ov_utxos ov !! op); [done|]. repeat case_decide; set_solver.
Defined.
End OverlayLaws.

(** * The delta *)

Section Delta.
Context {X : Externals} {DB : Type} `{StorageRead DB} `{!UtxoReadLaws DB}.
Implicit Types (ov : ForkDbOverlay DB).

Lemma keep_removed_eq ov acc op :
  keep_removed ov acc op =
    Ok (if decide (ov_utxos ov !! op = None /\ is_Some (utxo_view (base ov) !! op))
        then acc ++ [op] else acc).
Proof.
  unfold keep_removed. rewrite get_utxo_view. cbn [mbind result_bind mret result_ret].
  repeat case_bool_decide; case_decide; naive_solver.
Qed.

Lemma keep_changed_eq ov acc e :
  keep_changed ov acc e =
    Ok (if decide (utxo_view (base ov) !! e.1 <> Some e.2) then acc ++ [e] else acc).
Proof.
  unfold keep_changed. rewrite get_utxo_view. cbn [mbind result_bind mret result_ret].
  case_bool_decide; case_decide; naive_solver.
Qed.

Lemma keep_removed_fold ov ops acc :
  fold_res (keep_removed ov) acc ops =
    Ok (acc ++ filter (fun op => ov_utxos ov !! op = None /\ is_Some (utxo_view (base ov) !! op)) ops).
Proof.
  revert acc. induction ops as [|op ops IH]; intros acc; cbn [fold_res].
  { by rewrite app_nil_r. }
  rewrite keep_removed_eq, filter_cons. cbn [mbind result_bind]. rewrite IH.
  case_decide; [by rewrite <-app_assoc|done].
Qed.

Lemma keep_changed_fold ov l acc :
  fold_res (keep_changed ov) acc l =
    Ok (acc ++ filter (fun e => utxo_view (base ov) !! e.1 <> Some e.2) l).
Proof.
  revert acc. induction l as [|e l IH]; intros acc; cbn [fold_res].
  { by rewrite app_nil_r. }
  rewrite keep_changed_eq, filter_cons. cbn [mbind result_bind]. rewrite IH.
  case_decide; [by rewrite <-app_assoc|done].
Qed.

Definition delta_ready ov : Prop :=
  rewind_tip ov = ov_common_ancestor ov /\ ov_blocks ov <> ∅.

Lemma into_delta_eq ov :
  delta_ready ov ->
  into_delta ov = Ok (mk_ForkDbDelta (ov_expected_head ov) (ov_common_ancestor ov).2 (ov_detached ov)
    (merge_sort height_le (map_to_list (ov_blocks ov)).*2)
    (filter (fun e => utxo_view (base ov) !! e.1 <> Some e.2) (map_to_list (ov_utxos ov)))
    (filter (fun op => ov_utxos ov !! op = None /\ is_Some (utxo_view (base ov) !! op))
      (elements (removed_utxos ov)))).
Proof.
  intros [Ht Hb]. unfold into_delta. rewrite bool_decide_eq_true_2 by done.
  rewrite bool_decide_eq_false_2 by done. cbn [negb orb].
  rewrite keep_removed_fold. cbn [mbind result_bind]. by rewrite keep_changed_fold.
Qed.

Lemma into_delta_ready ov d : into_delta ov = Ok d -> delta_ready ov.
Proof.
  unfold into_delta, delta_ready.
  destruct (decide (rewind_tip ov = ov_common_ancestor ov)) as [Ht|Ht];
    [rewrite bool_decide_eq_true_2 by done|by rewrite bool_decide_eq_false_2 by done].
  destruct (decide (ov_blocks ov = ∅)) as [Hb|Hb]; [by rewrite bool_decide_eq_true_2 by done|done].
Qed.

(** Removing and putting the delta turns the base view into the overlay view, and every
    removed outpoint is there to remove. *)
Lemma delta_view ov d :
  into_delta ov = Ok d ->
  Forall (fun op => is_Some (utxo_view (base ov) !! op)) (delta_removed_utxos d) /\
  put_all (remove_all (utxo_view (base ov)) (delta_removed_utxos d)) (delta_utxos d) = overlay_view ov.
Proof.
  intros Hd. pose proof (into_delta_ready _ _ Hd) as Hr. rewrite (into_delta_eq _ Hr) in Hd.
  injection Hd as <-. cbn [delta_removed_utxos delta_utxos]. split.
  { apply Forall_forall. intros op Hop. apply list_elem_of_filter in Hop. naive_solver. }
  set (changed := filter _ (map_to_list (ov_utxos ov))).
  assert (NoDup changed.*1) as Hnd.
  { apply NoDup_fmap_fst; [|apply NoDup_filter, NoDup_map_to_list].
    intros op u1 u2 Hu1 Hu2. apply list_elem_of_filter in Hu1 as [_ Hu1].
    apply list_elem_of_filter in Hu2 as [_ Hu2]. apply elem_of_map_to_list in Hu1, Hu2. congruence. }
  rewrite put_all_nodup by done. apply map_eq. intros op. rewrite overlay_view_lookup.
  destruct (ov_utxos ov !! op) as [u|] eqn:Hu.
  - destruct (decide (utxo_view (base ov) !! op = Some u)) as [Hb|Hb].
    + rewrite lookup_union_r.
      * rewrite remove_all_lookup, decide_False; [done|].
        intros Hc. apply list_elem_of_filter in Hc. naive_solver.
      * apply not_elem_of_list_to_map_1. intros Hc.
        apply list_elem_of_fmap in Hc as ([op' u'] & Hop & Hc). cbn in Hop. subst op'.
        apply list_elem_of_filter in Hc as [Hne Hc]. apply elem_of_map_to_list in Hc. naive_solver.
    + apply lookup_union_Some_l, elem_of_list_to_map_1; [done|].
      apply list_elem_of_filter. split; [done|]. by apply elem_of_map_to_list.
  - rewrite lookup_union_r.
    2: { apply not_elem_of_list_to_map_1. intros Hc.
         apply list_elem_of_fmap in Hc as ([op' u'] & Hop & Hc). cbn in Hop. subst op'.
         apply list_elem_of_filter in Hc as [_ Hc]. apply elem_of_map_to_list in Hc. naive_solver. }
    rewrite remove_all_lookup. destruct (decide (op ∈ removed_utxos ov)) as [Hrem|Hrem].
    + case_decide as Hc; [done|]. destruct (utxo_view (base ov) !! op) eqn:Hb; [|done].
      exfalso. apply Hc. apply list_elem_of_filter. rewrite Hb, elem_of_elements. naive_solver.
    + rewrite decide_False; [done|]. intros Hc. apply list_elem_of_filter in Hc as [_ Hc].
      by apply elem_of_elements in Hc.
Qed.

(** The delta of an overlay is its net effect. Applied to any store holding the base
    UTXO set (removals first, then puts) it never fails and yields exactly the UTXO
    set the overlay shows; it lists no removal of an entry the base does not hold or
    the overlay still shows, and no put that the base already has. *)
Theorem into_delta_correct {S} `{UtxoWriteLaws S} ov d (s : S) :
  into_delta ov = Ok d -> utxo_view s = utxo_view (base ov) ->
  (exists s1 s2, batch_remove_utxos s (delta_removed_utxos d) = Ok s1 /\
    batch_put_utxos s1 (delta_utxos d) = Ok s2 /\ utxo_view s2 = utxo_view ov) /\
  (forall op, op ∈ delta_removed_utxos d ->
    is_Some (utxo_view (base ov) !! op) /\ utxo_view ov !! op = None) /\
  (forall op u, (op, u) ∈ delta_utxos d ->
    utxo_view (base ov) !! op <> Some u /\ utxo_view ov !! op = Some u).
Proof.
  intros Hd Hs. pose proof (delta_view _ _ Hd) as [Hall Hv]. split_and!.
  - pose proof (remove_view s (delta_removed_utxos d)) as Hrem. rewrite Hs in Hrem.
    rewrite (proj2 (first_missing_None _ _) Hall) in Hrem. destruct Hrem as (s1 & Hr & Hv1).
    destruct (put_view s1 (delta_utxos d)) as (s2 & Hp & Hv2).
    exists s1, s2. split_and!; [done|done|]. rewrite Hv2, Hv1. exact Hv.
  - pose proof (into_delta_ready _ _ Hd) as Hr. rewrite (into_delta_eq _ Hr) in Hd. injection Hd as <-.
    cbn. intros op Hop. apply list_elem_of_filter in Hop as [[Hn Hs'] Hop].
    split; [done|]. apply elem_of_elements in Hop. rewrite overlay_view_lookup, Hn. by rewrite decide_True.
  - pose proof (into_delta_ready _ _ Hd) as Hr. rewrite (into_delta_eq _ Hr) in Hd. injection Hd as <-.
    cbn. intros op u Hop. apply list_elem_of_filter in Hop as [Hne Hop].
    apply elem_of_map_to_list in Hop. split; [done|]. by rewrite overlay_view_lookup, Hop.
Qed.
End Delta.

(** * Rewinding and replaying *)

Section Chain.
Context {X : Externals}.

(** A parent-first list of blocks that extends a tip: each block names the previous hash
    and the next height. *)
Fixpoint extends (tip : Z * BlockHash) (bs : list Block) : Prop :=
  match bs with
  | [] => True
  | b :: bs =>
      previous_block_hash (header b) = tip.2 /\ height (header b) = tip.1 + 1 /\
      extends (height (header b), block_hash b) bs
  end.

(** The tip after such a list. *)
Definition tip_after (tip : Z * BlockHash) (bs : list Block) : Z * BlockHash :=
  foldl (fun _ b => (height (header b), block_hash b)) tip bs.

Lemma extends_snoc tip bs b :
  extends tip (bs ++ [b]) <->
  extends tip bs /\ previous_block_hash (header b) = (tip_after tip bs).2 /\
  height (header b) = (tip_after tip bs).1 + 1.
Proof.
  unfold tip_after. revert tip. induction bs as [|b' bs IH]; intros tip; cbn; [naive_solver|].
  rewrite IH. naive_solver.
Qed.

Lemma tip_after_snoc tip bs b : tip_after tip (bs ++ [b]) = (height (header b), block_hash b).
Proof. unfold tip_after. by rewrite foldl_app. Qed.

Lemma extends_heights tip bs : extends tip bs ->
  StronglySorted (fun a b => height (header a) < height (header b)) bs /\
  Forall (fun b => tip.1 < height (header b)) bs.
Proof.
  revert tip. induction bs as [|b bs IH]; intros tip; cbn; [by repeat constructor|].
  intros (_ & Hh & He). apply IH in He as [Hs Hf]. cbn in Hf. split.
  - by constructor.
  - constructor; [lia|]. eapply Forall_impl; [exact Hf|]. cbn. lia.
Qed.

(** Applying a parent-first list of blocks with their undo records. *)
Fixpoint applied_views (m : gmap OutPoint UTXO) (bs : list (Block * BlockUndo))
    (m' : gmap OutPoint UTXO) : Prop :=
  match bs with
  | [] => m' = m
  | (b, u) :: bs => exists m1, applied_view b m u m1 /\ applied_views m1 bs m'
  end.

Lemma applied_views_snoc m bs b u m' :
  applied_views m (bs ++ [(b, u)]) m' <->
  exists m1, applied_views m bs m1 /\ applied_view b m1 u m'.
Proof.
  revert m. induction bs as [|[b' u'] bs IH]; intros m; cbn.
  - split; [intros (m1 & Ha & ->); eauto|intros (m1 & -> & Ha); eauto].
  - setoid_rewrite IH. naive_solver.
Qed.
End Chain.

Section Steps.
Context {X : Externals} {DB : Type} `{StorageRead DB} `{!UtxoReadLaws DB}.
Implicit Types (ov : ForkDbOverlay DB).

(** The whole effect of a successful rewind. *)
Lemma overlay_rewind_Ok ov ov' :
  overlay_rewind_block ov = Ok ov' ->
  ov_blocks ov = ∅ /\ (ov_common_ancestor ov).1 < (rewind_tip ov).1 /\
  exists block undo,
    get_block_by_hash (base ov) (rewind_tip ov).2 = Ok (Some block) /\
    block_hash block = (rewind_tip ov).2 /\ height (header block) = (rewind_tip ov).1 /\
    get_block_hash_by_height (base ov) (rewind_tip ov).1 = Ok (Some (rewind_tip ov).2) /\
    get_block_undo (base ov) (rewind_tip ov).2 = Ok (Some undo) /\
    overlay_view ov' = rewound_view (overlay_view ov) undo /\
    exists u r, ov' = mk_ForkDbOverlay (base ov) (ov_common_ancestor ov) (ov_expected_head ov)
      ((rewind_tip ov).1 - 1, previous_block_hash (header block)) (branch_tip ov) u r
      ∅ (ov_heights ov) (ov_detached ov ++ [rewind_tip ov]).
Proof.
  unfold overlay_rewind_block.
  destruct (decide (ov_blocks ov = ∅)) as [Hb|Hb];
    [rewrite bool_decide_eq_true_2 by done|by rewrite bool_decide_eq_false_2 by done].
  destruct (Z.leb_spec (rewind_tip ov).1 (ov_common_ancestor ov).1) as [Hle|Hlt]; [done|].
  cbn [negb orb]. destruct (rewind_tip ov) as [h hash] eqn:Htip. cbn [fst snd] in *.
  intros Hr. apply bind_Ok in Hr as (found & Hfound & Hr). apply bind_Ok in Hr as (block & Hblock & Hr).
  apply ok_or_Ok in Hblock as ->. apply bind_Ok in Hr as ([] & Hb1 & Hr). apply ensure_Ok in Hb1.
  apply bind_Ok in Hr as (canon & Hcanon & Hr). apply bind_Ok in Hr as ([] & Hb2 & Hr).
  apply ensure_Ok in Hb2. apply bind_Ok in Hr as (fu & Hfu & Hr). apply bind_Ok in Hr as (undo & Hu & Hr).
  apply ok_or_Ok in Hu as ->. apply bind_Ok in Hr as (ov1 & Hrw & Hr). apply map_err_Ok in Hrw.
  injection Hr as <-. bool_inv. subst. split; [done|]. split; [done|].
  exists block, undo. do 5 (split; [done|]).
  pose proof (rewind_view undo ov) as Hv. cbn [utxo_view write_read_laws overlay_write_laws overlay_read_laws] in Hv.
  destruct (first_missing _ _) as [op|]; [by rewrite Hrw in Hv|].
  destruct Hv as (ov2 & Hv1 & Hview). rewrite Hrw in Hv1. injection Hv1 as <-. rename Hrw into Hv1.
  split; [unfold overlay_view in *; cbn; exact Hview|]. clear Hview.
  unfold rewind_block in Hv1. apply bind_Ok in Hv1 as (ov3 & Hrm & Hput).
  cbn in Hrm, Hput. unfold overlay_batch_remove_utxos in Hrm. unfold overlay_batch_put_utxos in Hput.
  apply bind_Ok in Hrm as ([] & _ & Hrm). injection Hrm as <-. injection Hput as <-.
  cbn. rewrite Hb. eauto.
Qed.
End Steps.

Section Replay.
Context {X : Externals} {DB : Type} `{StorageRead DB} `{!UtxoReadLaws DB}.
Implicit Types (ov : ForkDbOverlay DB).

Definition add_block (m : gmap BlockHash (Block * BlockUndo)) (e : Block * BlockUndo) :=
  <[block_hash e.1 := e]> m.

(** The whole effect of a successful replay. *)
Lemma overlay_replay_Ok ov b ov' :
  overlay_replay_block ov b = Ok ov' ->
  rewind_tip ov = ov_common_ancestor ov /\ is_genesis b = false /\
  hash_threshold (header b) <> 0 /\
  previous_block_hash (header b) = (branch_tip ov).2 /\
  height (header b) = (branch_tip ov).1 + 1 /\ height (header b) < 2 ^ 64 /\
  exists undo, applied_view b (overlay_view ov) undo (overlay_view ov') /\
    exists u r, ov' = mk_ForkDbOverlay (base ov) (ov_common_ancestor ov) (ov_expected_head ov)
      (rewind_tip ov) (height (header b), block_hash b) u r (add_block (ov_blocks ov) (b, undo))
      (<[height (header b) := block_hash b]> (ov_heights ov)) (ov_detached ov).
Proof.
  unfold overlay_replay_block. intros Hr. apply bind_Ok in Hr as ([] & _ & Hr).
  destruct (_ || _) eqn:Hg in Hr; [done|]. bool_inv.
  apply bind_Ok in Hr as ([undo ov1] & Ha & Hr). injection Hr as <-.
  match goal with Hc : checked_add _ _ _ = Some _ |- _ => apply checked_add_Some in Hc as [Hh Hlt] end.
  do 5 (split; [done|]). split; [lia|].
  pose proof (apply_block_Ok b ov undo ov1 Ha) as Happ. exists undo. split.
  { unfold applied in Happ. cbn [utxo_view write_read_laws overlay_write_laws overlay_read_laws] in Happ.
    unfold overlay_view in *. exact Happ. }
  clear Happ. unfold apply_block in Ha. destruct (block_effect b) as [created ext].
  apply bind_Ok in Ha as ([sp ov2] & Hs & Ha). apply bind_Ok in Ha as (ov3 & Hp & Ha).
  injection Ha as <- <-.
  assert (exists u r, ov2 = set_overlay_utxos ov u r) as (u & r & ->).
  { destruct (bool_decide (ext = [])).
    - injection Hs as <- <-. exists (ov_utxos ov), (removed_utxos ov). by destruct ov.
    - apply bind_Ok in Hs as (ex & _ & Hs). apply bind_Ok in Hs as (tk & _ & Hs).
      apply bind_Ok in Hs as (ov4 & Hrm & Hs). injection Hs as <- <-.
      cbn in Hrm. unfold overlay_batch_remove_utxos in Hrm.
      apply bind_Ok in Hrm as ([] & _ & Hrm). injection Hrm as <-. eauto. }
  assert (exists u r, ov3 = set_overlay_utxos ov u r) as (u' & r' & ->).
  { cbn [snd] in Hp. case_bool_decide; [injection Hp as <-; eauto|].
    cbn in Hp. injection Hp as <-. cbn. eauto. }
  cbn. eauto.
Qed.

(** The same for a list of blocks. *)
Lemma overlay_replays_Ok bs ov ov' :
  fold_res overlay_replay_block ov bs = Ok ov' ->
  (bs <> [] -> rewind_tip ov = ov_common_ancestor ov) /\
  extends (branch_tip ov) bs /\
  Forall (fun b => is_genesis b = false /\ hash_threshold (header b) <> 0 /\ height (header b) < 2 ^ 64) bs /\
  exists undos, length undos = length bs /\
    applied_views (overlay_view ov) (zip bs undos) (overlay_view ov') /\
    base ov' = base ov /\ ov_common_ancestor ov' = ov_common_ancestor ov /\
    ov_expected_head ov' = ov_expected_head ov /\ rewind_tip ov' = rewind_tip ov /\
    ov_detached ov' = ov_detached ov /\ branch_tip ov' = tip_after (branch_tip ov) bs /\
    ov_blocks ov' = foldl add_block (ov_blocks ov) (zip bs undos).
Proof.
  revert ov. induction bs as [|b bs IH]; intros ov; cbn [fold_res].
  { intros [= <-]. split_and!; [done|done|constructor|]. by exists []. }
  intros Hr. apply bind_Ok in Hr as (ov1 & H1 & Hr).
  apply overlay_replay_Ok in H1 as (Htip & Hg & Ht & Hp & Hh & Hlt & undo & Happ & u & r & ->).
  apply IH in Hr as (_ & He & Hf & undos & Hlen & Happs & Hb & Hca & Hhd & Hrt & Hdt & Hbt & Hbl).
  cbn in *. split_and!; [done|done|done|done|by constructor|].
  exists (undo :: undos). cbn. split; [by rewrite Hlen|]. split; [eauto|]. done.
Qed.

Lemma add_blocks_nonempty m l : m <> ∅ \/ l <> [] -> foldl add_block m l <> ∅.
Proof.
  revert m. induction l as [|e l IH]; intros m; cbn; [naive_solver|]. intros _. apply IH. left.
  apply insert_non_empty.
Qed.

Lemma add_blocks_list l :
  NoDup (block_hash ∘ fst <$> l) ->
  map_to_list (foldl add_block ∅ l) ≡ₚ ((fun e => (block_hash e.1, e)) <$> l).
Proof.
  intros Hnd.
  assert (foldl add_block ∅ l = list_to_map ((fun e => (block_hash e.1, e)) <$> l)) as ->.
  { assert (forall m, foldl add_block m l = put_all m ((fun e => (block_hash e.1, e)) <$> l)) as ->.
    { clear. induction l as [|e l IH]; intros m; cbn; [done|]. apply IH. }
    rewrite put_all_nodup by (by rewrite <-list_fmap_compose). apply (right_id_L ∅ (∪)). }
  apply map_to_list_to_map. by rewrite <-list_fmap_compose.
Qed.

(** The blocks a delta lists are the replayed ones in replay order. *)
Lemma replayed_blocks_sorted tip bs undos :
  length undos = length bs -> extends tip bs -> NoDup (block_hash <$> bs) ->
  merge_sort height_le (map_to_list (foldl add_block ∅ (zip bs undos))).*2 = zip bs undos.
Proof.
  intros Hlen He Hnd. apply extends_heights in He as [Hs _].
  assert ((zip bs undos).*1 = bs) as Hfst by (apply fst_zip; lia).
  assert (map_to_list (foldl add_block ∅ (zip bs undos)) ≡ₚ
    ((fun e => (block_hash e.1, e)) <$> zip bs undos)) as Hp.
  { apply add_blocks_list. rewrite list_fmap_compose, Hfst. done. }
  assert (StronglySorted (fun a b : Block * BlockUndo => height (header a.1) < height (header b.1)) (zip bs undos)) as Hz.
  { clear -Hs Hlen. revert undos Hlen. induction Hs as [|b bs Hs IH Hf]; intros [|u undos] Hlen; cbn; try constructor.
    - apply IH. cbn in Hlen. lia.
    - apply Forall_forall. intros [b' u'] Hin. apply elem_of_zip_l in Hin.
      rewrite Forall_forall in Hf. by apply Hf. }
  apply (StronglySorted_unique_strong height_le).
  - intros x1 x2 H1 H2 Hle1 Hle2. unfold height_le in *.
    rewrite merge_sort_Permutation, Hp in H1. rewrite <-list_fmap_compose in H1.
    apply list_elem_of_fmap in H1 as (x1' & -> & H1). cbn in *.
    apply list_elem_of_lookup in H1 as [i Hi]. apply list_elem_of_lookup in H2 as [j Hj].
    destruct (Nat.lt_trichotomy i j) as [Hij|[->|Hij]]; [|congruence|].
    + pose proof (StronglySorted_lookup_lt _ _ _ _ _ _ Hz Hi Hj Hij) as Hlt. cbn in Hlt. lia.
    + pose proof (StronglySorted_lookup_lt _ _ _ _ _ _ Hz Hj Hi Hij) as Hlt. cbn in Hlt. lia.
  - apply (StronglySorted_merge_sort height_le).
  - clear -Hz. induction Hz as [|e l Hz IH Hf]; constructor; [done|].
    eapply Forall_impl; [exact Hf|]. unfold height_le. cbn. intros. lia.
  - rewrite merge_sort_Permutation, Hp, <-list_fmap_compose. apply reflexive_eq.
    rewrite <-(list_fmap_id (zip bs undos)) at 2. by apply list_fmap_ext.
Qed.
End Replay.

(** * The whole preparation of a fork *)

Section Prepared.
Context {X : Externals} {DB : Type} `{StorageRead DB} `{!UtxoReadLaws DB}.
Implicit Types (ov : ForkDbOverlay DB) (db : DB).

(** A run of rewinds, with the blocks and undo records they read, tip first. *)
Inductive rewinds : ForkDbOverlay DB -> list (Block * BlockUndo) -> ForkDbOverlay DB -> Prop :=
| rewinds_done ov : rewinds ov [] ov
| rewinds_step ov ov1 ov' b u l :
    overlay_rewind_block ov = Ok ov1 ->
    get_block_by_hash (base ov) (rewind_tip ov).2 = Ok (Some b) ->
    get_block_undo (base ov) (rewind_tip ov).2 = Ok (Some u) ->
    rewinds ov1 l ov' ->
    rewinds ov ((b, u) :: l) ov'.

(** The UTXO set after reverting a list of blocks, tip first. *)
Definition rewound_views (m : gmap OutPoint UTXO) (l : list (Block * BlockUndo)) :=
  foldl (fun m e => rewound_view m e.2) m l.

(** The position below a list of blocks read tip first. *)
Definition below (tip : Z * BlockHash) (l : list (Block * BlockUndo)) : Z * BlockHash :=
  foldl (fun t e => (t.1 - 1, previous_block_hash (header e.1))) tip l.

Lemma rewinds_Ok ov l ov' :
  rewinds ov l ov' ->
  overlay_view ov' = rewound_views (overlay_view ov) l /\
  base ov' = base ov /\ ov_common_ancestor ov' = ov_common_ancestor ov /\
  ov_expected_head ov' = ov_expected_head ov /\ branch_tip ov' = branch_tip ov /\
  ov_blocks ov' = ov_blocks ov /\ rewind_tip ov' = below (rewind_tip ov) l /\
  ov_detached ov' = ov_detached ov ++ ((fun e => (height (header e.1), block_hash e.1)) <$> l) /\
  forall i e, l !! i = Some e ->
    (height (header e.1), block_hash e.1) = below (rewind_tip ov) (take i l).
Proof.
  induction 1 as [ov|ov ov1 ov' b u l Hr Hb Hu Hl IH].
  { split_and!; try done. by rewrite app_nil_r. }
  apply overlay_rewind_Ok in Hr
    as (Hblocks & _ & b' & u' & Hb' & Hhash & Hh & _ & Hu' & Hview & uu & r & Hov).
  rewrite Hb in Hb'. injection Hb' as <-. rewrite Hu in Hu'. injection Hu' as <-.
  rewrite Hov in *.
  cbn [base ov_common_ancestor ov_expected_head rewind_tip branch_tip ov_blocks ov_detached] in IH.
  destruct IH as (Hv & Hbase & Hca & Heh & Hbt & Hbl & Hrt & Hdet & Hpos).
  split_and!; try done.
  - rewrite Hv, Hview. done.
  - by rewrite Hbl, Hblocks.
  - rewrite Hdet, <-app_assoc. cbn. rewrite Hh, Hhash. by destruct (rewind_tip ov).
  - intros [|i] e He; cbn in *.
    + injection He as <-. cbn. rewrite Hh, Hhash. by destruct (rewind_tip ov).
    + by apply Hpos.
Qed.

Lemma overlay_new_Ok db anc ov :
  overlay_new db anc = Ok ov ->
  exists block head, get_block_by_hash db anc = Ok (Some block) /\ block_hash block = anc /\
    tip db = Ok head /\ height (header block) <= head.1 /\
    get_block_hash_by_height db (height (header block)) = Ok (Some anc) /\
    ov = mk_ForkDbOverlay db (height (header block), anc) head head (height (header block), anc)
      ∅ ∅ ∅ ∅ [].
Proof.
  unfold overlay_new. intros Hn. apply bind_Ok in Hn as (found & Hf & Hn).
  apply bind_Ok in Hn as (block & Hb & Hn). apply ok_or_Ok in Hb as ->.
  apply bind_Ok in Hn as (head & Hh & Hn). apply bind_Ok in Hn as ([] & H1 & Hn).
  apply ensure_Ok in H1. apply bind_Ok in Hn as ([] & H2 & Hn). apply ensure_Ok in H2.
  apply bind_Ok in Hn as (canon & Hc & Hn). apply bind_Ok in Hn as ([] & H3 & Hn).
  apply ensure_Ok in H3. bool_inv. subst. injection Hn as <-. exists block, head. done.
Qed.

Lemma overlay_new_view db anc ov : overlay_new db anc = Ok ov -> overlay_view ov = utxo_view db.
Proof.
  intros (block & head & _ & _ & _ & _ & _ & ->)%overlay_new_Ok.
  apply map_eq. intros op. rewrite overlay_view_lookup. cbn. rewrite lookup_empty. done.
Qed.

(** A prepared reorganization has the right shape and content. After rewinding
    canonical blocks from the tip and replaying fork blocks with distinct hashes, the
    delta expects the tip it started from, names the requested ancestor, lists the
    rewound blocks tip first along their parent links down to the ancestor, and lists
    the fork blocks parent first, linked from the ancestor; the UTXO set it produces
    is the base set with the rewound blocks reverted and the fork blocks applied. *)
Theorem prepared_delta_correct db anc ov0 ov1 ov2 l bs d :
  overlay_new db anc = Ok ov0 -> rewinds ov0 l ov1 ->
  fold_res overlay_replay_block ov1 bs = Ok ov2 -> into_delta ov2 = Ok d ->
  NoDup (block_hash <$> bs) ->
  exists head anc_height undos,
    tip db = Ok head /\ expected_head d = head /\ common_ancestor d = anc /\
    below head l = (anc_height, anc) /\
    detached d = ((fun e => (height (header e.1), block_hash e.1)) <$> l) /\
    extends (anc_height, anc) bs /\ bs <> [] /\
    length undos = length bs /\ delta_blocks d = zip bs undos /\
    applied_views (rewound_views (utxo_view db) l) (zip bs undos) (utxo_view ov2) /\
    put_all (remove_all (utxo_view db) (delta_removed_utxos d)) (delta_utxos d) = utxo_view ov2.
Proof.
  intros Hn Hrw Hrp Hd Hnd. pose proof (overlay_new_view _ _ _ Hn) as Hv0.
  apply overlay_new_Ok in Hn as (block & head & Hb & _ & Htip & _ & _ & ->).
  apply rewinds_Ok in Hrw as (Hv1 & Hbase1 & Hca1 & Heh1 & Hbt1 & Hbl1 & Hrt1 & Hdet1 & _).
  apply overlay_replays_Ok in Hrp
    as (_ & He & _ & undos & Hlen & Happ & Hbase & Hca & Heh & Hrt & Hdet & Hbt & Hbl).
  pose proof (delta_view _ _ Hd) as [_ Hput].
  pose proof (into_delta_ready _ _ Hd) as Hready. rewrite (into_delta_eq _ Hready) in Hd.
  injection Hd as <-. destruct Hready as [Hready Hne]. cbn in *.
  exists head, (height (header block)), undos.
  rewrite Hbt1 in He. rewrite Hbl1 in Hbl.
  split_and!; try done.
  - by rewrite Heh, Heh1.
  - by rewrite Hca, Hca1.
  - by rewrite <-Hrt1, <-Hrt, Hready, Hca, Hca1.
  - by rewrite Hdet, Hdet1.
  - intros ->. cbn in Hbl. by rewrite Hbl in Hne.
  - rewrite Hbl. by apply (replayed_blocks_sorted (height (header block), anc)).
  - by rewrite Hv1, Hv0 in Happ.
  - rewrite Hbase, Hbase1 in *. exact Hput.
Qed.
End Prepared.

Section OverlayWitnesses.
Import Toy.

(** A chain of a genesis block and one canonical block whose undo record removes the
    single output it created, and a rival block that spends the older output. *)
Definition toy_canonical : Block :=
  mk_Block (mk_BlockHeader 1 MerkleHash_empty BlockHash_empty 1 5 9 0 None) [].
Definition toy_old : OutPoint := mk_OutPoint toy_txid 7.
Definition toy_base : MemoryView :=
  let h1 := block_hash toy_canonical in
  mk_MemoryView
    (<[toy_op := mk_UTXO toy_txid 0 50 toy_owner]> {[ toy_old := mk_UTXO toy_txid 7 8 toy_owner ]})
    (<[h1 := toy_canonical]> {[ BlockHash_empty := new_genesis 1 ∅ (mk_GenesisState (mk_ConsensusConsts (mk_PowParams 1 1 1 1) 1 1 1)) ]})
    (<[1 := h1]> {[ 0 := BlockHash_empty ]}) ∅ ∅
    {[ h1 := mk_BlockUndo ∅ {[ toy_old ]} ]}
    (Some (mk_ChainState (1, h1) 9 2 1)) None.

Definition toy_prepare : result StorageError
    (ForkDbOverlay MemoryView * ForkDbOverlay MemoryView * ForkDbOverlay MemoryView * ForkDbDelta) :=
  ov0 ← overlay_new toy_base BlockHash_empty;
  ov1 ← overlay_rewind_block ov0;
  ov2 ← fold_res overlay_replay_block ov1 [toy_payment_block];
  d ← into_delta ov2;
  mret (ov0, ov1, ov2, d).

Lemma toy_prepare_ok : is_ok toy_prepare = true.
Proof. vm_compute. reflexivity. Qed.

Lemma toy_prepare_steps :
  exists ov0 ov1 ov2 d, overlay_new toy_base BlockHash_empty = Ok ov0 /\
    overlay_rewind_block ov0 = Ok ov1 /\
    fold_res overlay_replay_block ov1 [toy_payment_block] = Ok ov2 /\ into_delta ov2 = Ok d.
Proof.
  pose proof toy_prepare_ok as Hok. destruct toy_prepare as [[[[ov0 ov1] ov2] d]|] eqn:Hp; [|done].
  unfold toy_prepare in Hp. apply bind_Ok in Hp as (x0 & H0 & Hp). apply bind_Ok in Hp as (x1 & H1 & Hp).
  apply bind_Ok in Hp as (x2 & H2 & Hp). apply bind_Ok in Hp as (x3 & H3 & Hp).
  exists x0, x1, x2, x3. exact (conj H0 (conj H1 (conj H2 H3))).
Qed.

Lemma into_delta_correct_witness :
  exists (ov : ForkDbOverlay MemoryView) d s1 s2, into_delta ov = Ok d /\
    batch_remove_utxos (base ov) (delta_removed_utxos d) = Ok s1 /\
    batch_put_utxos s1 (delta_utxos d) = Ok s2 /\ utxo_view s2 = utxo_view ov.
Proof.
  destruct toy_prepare_steps as (ov0 & ov1 & ov2 & d & _ & _ & _ & Hd).
  destruct (into_delta_correct ov2 d (base ov2) Hd eq_refl) as [(s1 & s2 & Hr & Hp & Hv) _].
  exists ov2, d, s1, s2. exact (conj Hd (conj Hr (conj Hp Hv))).
Defined.

Lemma prepared_delta_correct_witness :
  exists d, common_ancestor d = BlockHash_empty /\ length (detached d) = 1%nat /\
    length (delta_blocks d) = 1%nat.
Proof.
  destruct toy_prepare_steps as (ov0 & ov1 & ov2 & d & H0 & H1 & H2 & Hd).
  pose proof (overlay_rewind_Ok _ _ H1) as (_ & _ & b & u & Hb & _ & _ & _ & Hu & _ & _).
  pose proof (rewinds_step ov0 ov1 ov1 b u [] H1 Hb Hu (rewinds_done ov1)) as Hrw.
  destruct (prepared_delta_correct toy_base BlockHash_empty ov0 ov1 ov2 [(b, u)] [toy_payment_block] d
    H0 Hrw H2 Hd (NoDup_singleton _)) as (head & ah & undos & _ & _ & Hanc & _ & Hdet & _ & _ & Hlen & Hbl & _).
  exists d. split; [exact Hanc|]. rewrite Hdet, Hbl. split; [reflexivity|].
  destruct undos as [|u' [|]]; [discriminate Hlen|reflexivity|discriminate Hlen].
Defined.
End OverlayWitnesses.
