(* ===== verification/Transition.v ===== *)
(** Transition: staging the three chain transitions over any storage transaction
    ([storage/transition.rs]), and the refinement of the in-memory backend to an
    abstract ledger: a list of blocks whose UTXO set is the effect of replaying it. *)
From S2P Require Import Prelude Bytes Types Externals Hashing Work Merkle Transactions Blocks Storage UtxoProcessor Overlay.

Record StagedTransition := mk_StagedTransition {
  staged_state : ChainState;
  staged_detached : list (Z * BlockHash);
}.

Definition set_latest (s : ChainState) (latest : Z * BlockHash) : ChainState :=
  mk_ChainState latest (last_update_time s) (blocks_count s) (chain_work s).
Definition set_chain_work (s : ChainState) (w : Z) : ChainState :=
  mk_ChainState (latest_block s) (last_update_time s) (blocks_count s) w.

Section Transition.
Context {X : Externals}.

Abbreviation invalid_core e := (InvalidTransition (core_error_text e)).

(** [extended_state] *)
Definition extended_state (state : ChainState) (block : Block) : result StorageError ChainState :=
  _ ← map_err (fun e => invalid_core e) (verify_genesis_work_shape block);
  if header_is_genesis (header block)
     || (hash_threshold (header block) =? 0)
     || negb (bool_decide (previous_block_hash (header block) = (latest_block state).2))
     || negb (bool_decide (checked_add 64 (latest_block state).1 1 = Some (height (header block))))
  then Err (InvalidTransition "Block must extend the current canonical tip")
  else
    chain_work ← map_err (fun e => invalid_core e) (add_work (chain_work state) (work block));
    blocks_count ← ok_or (checked_add 64 (height (header block)) 1)
      (InvalidTransition "Block count overflow");
    mret (mk_ChainState (height (header block), block_hash block) (timestamp (header block))
      blocks_count chain_work).

(** The recipients loop of [validate_genesis]. *)
Definition allocation_step (recipients : gset AccountAddress) (output : TransactionOut) :
    result StorageError (gset AccountAddress) :=
  if (value output =? 0) || bool_decide (recipient output ∈ recipients)
  then Err (InvalidTransition "Genesis allocations must be positive with unique recipients")
  else Ok ({[ recipient output ]} ∪ recipients).

(** [validate_genesis] *)
Definition validate_genesis (block : Block) : result StorageError unit :=
  _ ← map_err (fun e => invalid_core e) (verify_genesis_work_shape block);
  genesis ← ok_or (genesis_state (header block)) (InvalidTransition "Genesis marker is absent");
  _ ← map_err (fun e => invalid_core e) (PowParams_validate (pow (consensus_consts genesis)));
  let one_tx := InvalidTransition "Genesis must have a valid merkle root and one transaction" in
  _ ← ensure (is_merkle_root_valid block) one_tx;
  match transactions block with
  | [transaction] =>
      if negb (bool_decide (kind (tx_data transaction) = Genesis))
         || negb (bool_decide (inputs (tx_data transaction) = []))
         || bool_decide (outputs (tx_data transaction) = [])
      then Err (InvalidTransition "Genesis must have one allocation transaction without inputs")
      else
        _ ← fold_res allocation_step ∅ (outputs (tx_data transaction));
        mret tt
  | _ => Err one_tx
  end.

Section Stage.
Context {S : Type} `{StorageRead S} `{!StorageWrite S}.

(** [verify_current_state] *)
Definition verify_current_state (storage : S) (state : ChainState) : result StorageError unit :=
  md ← metadata storage;
  _ ← ensure (bool_decide (is_Some md)) (Corruption "Initialized storage has no metadata");
  found_header ← get_block_header_by_hash storage (latest_block state).2;
  header ← ok_or found_header (Corruption "Canonical tip body is absent");
  found_canonical ← get_block_hash_by_height storage (latest_block state).1;
  canonical ← ok_or found_canonical (Corruption "Canonical tip height is absent");
  found_index ← get_block_index storage (latest_block state).2;
  index ← ok_or found_index (Corruption "Canonical tip index is absent");
  if negb (height header =? (latest_block state).1)
     || negb (bool_decide (canonical = (latest_block state).2))
     || negb (index_height index =? (latest_block state).1)
     || negb (bool_decide (parent_hash index = previous_block_hash header))
     || negb (index_chain_work index =? chain_work state)
     || negb (bool_decide (checked_add 64 (latest_block state).1 1 = Some (blocks_count state)))
  then Err (Corruption "Canonical tip, index and chain state disagree")
  else Ok tt.

(** [attach_block] *)
Definition attach_block (storage : S) (state : ChainState) (block : Block) :
    result StorageError (ChainState * S) :=
  next_state ← extended_state state block;
  let index := mk_BlockIndexData (previous_block_hash (header block)) (height (header block))
                 (chain_work next_state) in
  applied ← apply_block block storage;
  storage ← put_block applied.2 block index;
  storage ← put_block_undo storage (block_hash block) applied.1;
  mret (next_state, storage).

(** [stage_genesis] *)
Definition stage_genesis (storage : S) (current : option ChainState) (block : Block)
    (md : ChainMetadata) : result StorageError (StagedTransition * S) :=
  _ ← validate_genesis block;
  match current with
  | Some state =>
      found ← get_block_by_height storage 0;
      saved ← ok_or found (Corruption "Initialized storage has no genesis");
      found_metadata ← metadata storage;
      saved_metadata ← ok_or found_metadata (Corruption "Initialized storage has no metadata");
      if negb (bool_decide (saved = block))
         || negb (schema_version saved_metadata =? schema_version md)
         || negb (bool_decide (chain_name saved_metadata = chain_name md))
         || negb (protocol_version saved_metadata =? protocol_version md)
      then Err (InvalidTransition "Genesis or chain configuration does not match stored chain")
      else
        _ ← verify_current_state storage state;
        mret (mk_StagedTransition state [], storage)
  | None =>
      found_metadata ← metadata storage;
      initialized ←
        (if bool_decide (is_Some found_metadata) then Ok true
         else found ← get_block_by_height storage 0; mret (bool_decide (is_Some found)));
      if (initialized : bool) then Err (Corruption "Genesis exists without chain state")
      else
        let index := mk_BlockIndexData (previous_block_hash (header block)) 0 0 in
        storage ← put_block storage block index;
        applied ← apply_block block storage;
        storage ← put_metadata applied.2 md;
        let state := mk_ChainState (0, block_hash block) (timestamp (header block)) 1 0 in
        storage ← put_chain_state storage state;
        mret (mk_StagedTransition state [], storage)
  end.

(** [stage_append] *)
Definition stage_append (storage : S) (current : option ChainState) (block : Block) :
    result StorageError (StagedTransition * S) :=
  state ← ok_or current Uninitialized;
  _ ← verify_current_state storage state;
  attached ← attach_block storage state block;
  storage ← put_chain_state attached.2 attached.1;
  mret (mk_StagedTransition attached.1 [], storage).

(** [canonical_ancestor] *)
Definition canonical_ancestor (storage : S) (common_ancestor : BlockHash) :
    result StorageError (Block * BlockIndexData) :=
  found ← get_block_by_hash storage common_ancestor;
  ancestor ← ok_or found (BlockNotFound common_ancestor);
  found_canonical ← get_block_hash_by_height storage (height (header ancestor));
  canonical ← ok_or found_canonical (Corruption "Common ancestor height is absent");
  _ ← ensure (bool_decide (block_hash ancestor = common_ancestor))
        (Corruption "Common ancestor body does not match its key");
  if negb (bool_decide (canonical = common_ancestor)) then
    found_body ← get_block_by_hash storage canonical;
    canonical_block ← ok_or found_body (Corruption "Common ancestor height body is absent");
    _ ← ensure (height (header canonical_block) =? height (header ancestor))
          (Corruption "Common ancestor height references a block at another height");
    Err (InvalidTransition "Common ancestor is outside the canonical chain")
  else
    found_index ← get_block_index storage common_ancestor;
    index ← ok_or found_index (Corruption "Common ancestor index is absent");
    _ ← ensure ((index_height index =? height (header ancestor))
                 && bool_decide (parent_hash index = previous_block_hash (header ancestor)))
          (Corruption "Common ancestor index does not match its block");
    mret (ancestor, index).

(** The loop of [detach_to_ancestor]. Each iteration lowers the tip height by one and
    the loop stops at the ancestor's height, so that many iterations are enough
    ([detach_fuel_enough]). *)
Fixpoint detach_loop (fuel : nat) (ancestor_height : Z) (common_ancestor : BlockHash)
    (storage : S) (latest : Z * BlockHash) (detached : list (Z * BlockHash)) :
    result StorageError (S * (Z * BlockHash) * list (Z * BlockHash)) :=
  if bool_decide (latest.2 = common_ancestor) then Ok (storage, latest, detached)
  else if latest.1 <=? ancestor_height then
    Err (InvalidTransition "Common ancestor is not in tip ancestry")
  else
    let hash := latest.2 in
    found ← get_block_by_hash storage hash;
    block ← ok_or found (Corruption "Canonical block {hash} is absent");
    found_canonical ← get_block_hash_by_height storage latest.1;
    canonical ← ok_or found_canonical (Corruption "Canonical height {state.latest_block.0} is absent");
    _ ← ensure (bool_decide (block_hash block = hash)
                 && (height (header block) =? latest.1)
                 && bool_decide (canonical = hash))
          (Corruption "Canonical tip mappings disagree");
    storage ← remove_canonical_block storage block;
    match fuel with
    | O => Err (Corruption "detach_loop: out of fuel")
    | Datatypes.S fuel =>
        detach_loop fuel ancestor_height common_ancestor storage
          (height (header block) - 1, previous_block_hash (header block))
          (detached ++ [(height (header block), hash)])
    end.

(** [detach_to_ancestor] *)
Definition detach_to_ancestor (storage : S) (state : ChainState) (ancestor : Block)
    (common_ancestor : BlockHash) :
    result StorageError (S * ChainState * list (Z * BlockHash)) :=
  let fuel := Z.to_nat ((latest_block state).1 - height (header ancestor)) in
  r ← detach_loop fuel (height (header ancestor)) common_ancestor storage (latest_block state) [];
  mret (r.1.1, set_latest state r.1.2, r.2).

(** One iteration of the attach loop of [stage_reorganization]. *)
Definition attach_prepared (acc : ChainState * S) (entry : Block * BlockUndo) :
    result StorageError (ChainState * S) :=
  let '(block, undo) := entry in
  state ← extended_state acc.1 block;
  let index := mk_BlockIndexData (previous_block_hash (header block)) (height (header block))
                 (chain_work state) in
  storage ← put_block acc.2 block index;
  storage ← put_block_undo storage (block_hash block) undo;
  mret (state, storage).

(** [stage_reorganization] *)
Definition stage_reorganization (storage : S) (current : option ChainState) (delta : ForkDbDelta) :
    result StorageError (StagedTransition * S) :=
  state ← ok_or current Uninitialized;
  _ ← verify_current_state storage state;
  _ ← ensure (bool_decide (latest_block state = expected_head delta))
        (InvalidTransition "Canonical tip changed after fork preparation");
  found ← canonical_ancestor storage (common_ancestor delta);
  let '(ancestor, ancestor_index) := found in
  r ← detach_to_ancestor storage state ancestor (common_ancestor delta);
  let '(storage, state, det) := r in
  _ ← ensure (bool_decide (det = detached delta) && negb (bool_decide (delta_blocks delta = [])))
        (InvalidTransition "Prepared fork does not replace the expected canonical suffix");
  let state := set_chain_work state (index_chain_work ancestor_index) in
  storage ← batch_remove_utxos storage (delta_removed_utxos delta);
  storage ← batch_put_utxos storage (delta_utxos delta);
  attached ← fold_res attach_prepared (state, storage) (delta_blocks delta);
  storage ← put_chain_state attached.2 attached.1;
  mret (mk_StagedTransition attached.1 det, storage).

(** [apply_transition] *)
Definition apply_transition (storage : S) (transition : ChainTransition) :
    result StorageError (ChainTransitionResult * S) :=
  current ← chain_state storage;
  staged ←
    match transition with
    | TGenesis block md => stage_genesis storage current block md
    | TAppend block => stage_append storage current block
    | TReorganize delta => stage_reorganization storage current delta
    end;
  mret (mk_ChainTransitionResult (latest_block (staged_state staged.1))
          (chain_work (staged_state staged.1)) (staged_detached staged.1), staged.2).
End Stage.

(** [FullNodeStorage::apply_transition] of the in-memory backend. *)
Definition memory_apply_transition (m : MemoryView) (t : ChainTransition) :
    result StorageError ChainTransitionResult * MemoryView :=
  update m (fun pending => apply_transition pending t).
End Transition.

(** * Termination of the detach loop *)

Section DetachTermination.
Context {X : Externals} {S : Type} `{StorageRead S} `{!StorageWrite S}.

Lemma detach_fuel_irrelevant (fuel1 fuel2 : nat) h anc (s : S) latest det :
  latest.1 - h <= Z.of_nat fuel1 -> latest.1 - h <= Z.of_nat fuel2 ->
  detach_loop fuel1 h anc s latest det = detach_loop fuel2 h anc s latest det.
Proof.
  revert fuel2 s latest det. induction fuel1 as [|fuel1 IH]; intros [|fuel2] s latest det H1 H2; [done| | |];
    cbn [detach_loop]; destruct (bool_decide (latest.2 = anc)); try done;
    destruct (Z.leb_spec latest.1 h) as [Hle|Hlt]; try done; try lia.
  destruct (get_block_by_hash s latest.2) as [[b|]|]; [|done..].
  destruct (get_block_hash_by_height s latest.1) as [[c|]|]; [|done..].
  cbn [mbind result_bind ok_or].
  destruct (bool_decide (block_hash b = latest.2) && (height (header b) =? latest.1)
    && bool_decide (c = latest.2)) eqn:Hg; [|done]. cbn [ensure mbind result_bind].
  destruct (remove_canonical_block s b) as [s'|]; [|done]. cbn [mbind result_bind].
  bool_inv. apply IH; cbn [fst]; lia.
Qed.

(** Detaching terminates within the height distance between the tip and the ancestor:
    with at least that much fuel the result no longer depends on the fuel, for any
    storage backend, so the out-of-fuel branch is never the outcome. *)
Lemma detach_fuel_enough (fuel : nat) (s : S) state ancestor anc :
  (latest_block state).1 - height (header ancestor) <= Z.of_nat fuel ->
  detach_to_ancestor s state ancestor anc =
    (r ← detach_loop fuel (height (header ancestor)) anc s (latest_block state) [];
     mret (r.1.1, set_latest state r.1.2, r.2)).
Proof.
  intros Hf. unfold detach_to_ancestor.
  rewrite (detach_fuel_irrelevant _ fuel); [done|lia|done].
Qed.
End DetachTermination.

(** * The abstract ledger

    A chain is a list of blocks, genesis first. Its UTXO set is the replay of the list
    and its work the sum of the works. *)

Section Ledger.
Context {X : Externals}.
Implicit Types (l : list Block) (m : gmap OutPoint UTXO).

Definition block_view m (b : Block) : gmap OutPoint UTXO :=
  (block_effect b).1 ∪ remove_all m (block_effect b).2.

Definition ledger_view l : gmap OutPoint UTXO := foldl block_view ∅ l.

Definition ledger_work l : Z := zsum (work <$> l).

Definition last_block l (d : Block) : Block := default d (last l).

(** A well-shaped chain: a genesis block in the genesis shape, then ordinary blocks that
    extend it one by one with heights in [u64]. *)
Definition chain_shape l : Prop :=
  match l with
  | [] => False
  | g :: rest =>
      is_genesis g = true /\ verify_genesis_work_shape g = Ok tt /\
      extends (0, block_hash g) rest /\
      Forall (fun b => is_genesis b = false /\ hash_threshold (header b) <> 0 /\
                       height (header b) < 2 ^ 64 - 1) rest
  end.

Lemma applied_view_eq b m u m' : applied_view b m u m' -> m' = block_view m b.
Proof. unfold applied_view, block_view. destruct (block_effect b). naive_solver. Qed.

Lemma ledger_view_snoc l b : ledger_view (l ++ [b]) = block_view (ledger_view l) b.
Proof. unfold ledger_view. by rewrite foldl_app. Qed.

Lemma ledger_work_snoc l b : ledger_work (l ++ [b]) = ledger_work l + work b.
Proof.
  unfold ledger_work. rewrite fmap_app, zsum_app. cbn [fmap list_fmap]. rewrite zsum_cons.
  change (zsum []) with 0. lia.
Qed.

Lemma extends_lookup tip l i b :
  extends tip l -> l !! i = Some b ->
  height (header b) = tip.1 + 1 + Z.of_nat i /\
  previous_block_hash (header b) =
    match i with O => tip.2 | Datatypes.S j => default tip.2 (block_hash <$> l !! j) end.
Proof.
  revert tip i. induction l as [|b0 l IH]; intros tip i; [done|]. cbn [extends].
  intros (Hp & Hh & He) Hi. destruct i as [|i]; cbn in Hi.
  - injection Hi as <-. split; [lia|done].
  - destruct (IH _ _ He Hi) as [H1 H2]. cbn in H1, H2. split; [lia|].
    rewrite H2. destruct i as [|i]; [done|].
    change ((b0 :: l) !! Datatypes.S i) with (l !! i).
    destruct (l !! i) as [b'|] eqn:Hb'; [done|].
    apply lookup_ge_None in Hb'. apply lookup_lt_Some in Hi. lia.
Qed.

(** In a chain the height of a block is its position and its parent the block before. *)
Lemma chain_height l i b : chain_shape l -> l !! i = Some b -> height (header b) = Z.of_nat i.
Proof.
  destruct l as [|g rest]; [done|]. intros (Hg & Hs & He & Hf) Hi. destruct i as [|i]; cbn in Hi.
  - injection Hi as <-. apply verify_shape_Ok in Hs; [|done]. lia.
  - destruct (extends_lookup _ _ _ _ He Hi) as [Hh _]. cbn in Hh. lia.
Qed.

Lemma chain_parent l i b p :
  chain_shape l -> l !! Datatypes.S i = Some b -> l !! i = Some p ->
  previous_block_hash (header b) = block_hash p.
Proof.
  destruct l as [|g rest]; [done|]. intros (Hg & Hs & He & Hf) Hi Hp. cbn in Hi.
  destruct (extends_lookup _ _ _ _ He Hi) as [_ Hprev]. rewrite Hprev.
  destruct i as [|i]; [cbn in Hp; by injection Hp as ->|].
  change ((g :: rest) !! Datatypes.S i) with (rest !! i) in Hp. by rewrite Hp.
Qed.

Lemma chain_bound l : chain_shape l -> Z.of_nat (length l) < 2 ^ 64.
Proof.
  intros Hs. destruct (last l) as [b|] eqn:Hl; [|by apply last_None in Hl as ->].
  rewrite last_lookup in Hl. pose proof (chain_height _ _ _ Hs Hl) as Hh.
  destruct l as [|g [|b0 rest]]; [done|cbn; lia|]. destruct Hs as (_ & _ & _ & Hf).
  cbn in Hl. rewrite Forall_forall in Hf.
  assert (b ∈ b0 :: rest) as Hin by (by apply list_elem_of_lookup_2 in Hl).
  apply Hf in Hin as (_ & _ & Hlt). cbn in Hh |- *. lia.
Qed.

Lemma tip_after_last g rest :
  tip_after (0, block_hash g) rest =
    match last rest with Some b => (height (header b), block_hash b) | None => (0, block_hash g) end.
Proof.
  destruct rest as [|b rest _] using rev_ind; [done|]. by rewrite tip_after_snoc, last_snoc.
Qed.

Lemma chain_shape_snoc l b t :
  chain_shape l -> last l = Some t ->
  chain_shape (l ++ [b]) <->
  (previous_block_hash (header b) = block_hash t /\ height (header b) = height (header t) + 1 /\
   is_genesis b = false /\ hash_threshold (header b) <> 0 /\ height (header b) < 2 ^ 64 - 1).
Proof.
  intros Hs Hl. pose proof Hs as Hs'. destruct l as [|g rest]; [done|].
  destruct Hs as (Hg & Hv & He & Hf). cbn [chain_shape app].
  rewrite extends_snoc, Forall_app, Forall_singleton, tip_after_last.
  assert (match last rest with Some b => (height (header b), block_hash b) | None => (0, block_hash g) end
    = (height (header t), block_hash t)) as ->.
  { rewrite last_cons in Hl. destruct (last rest); injection Hl as ->; [done|].
    by rewrite (chain_height _ 0 t Hs' eq_refl). }
  cbn. naive_solver.
Qed.

Lemma chain_shape_prefix l n : chain_shape l -> (0 < n)%nat -> chain_shape (take n l).
Proof.
  destruct l as [|g rest]; [done|]. intros (Hg & Hs & He & Hf) Hn. destruct n as [|n]; [lia|].
  cbn. split_and!; [done|done| |by apply Forall_take].
  clear -He. revert n He. generalize (0, block_hash g) as tip. induction rest as [|b rest IH]; intros tip n He;
    [by rewrite take_nil|]. destruct n as [|n]; [done|]. cbn in *. naive_solver.
Qed.
End Ledger.

(** * The in-memory backend refines the ledger *)

Section Refinement.
Context {X : Externals}.
Implicit Types (m : MemoryView) (l : list Block).

Definition height_lookup l (h : Z) : option BlockHash :=
  if decide (0 <= h) then block_hash <$> l !! Z.to_nat h else None.

Definition position (b : Block) : Z * BlockHash := (height (header b), block_hash b).

Definition tip_state l (t : Block) : ChainState :=
  mk_ChainState (position t) (timestamp (header t)) (Z.of_nat (length l)) (ledger_work l).

(** The block records of a store agree with a chain: height mappings, bodies, work index
    and undo records. Entries of detached blocks may remain by hash. *)
Record records m l : Prop := {
  rc_shape : chain_shape l;
  rc_nodup : NoDup (block_hash <$> l);
  rc_work n : ledger_work (take n l) < 2 ^ 512;
  rc_heights h : heights m !! h = height_lookup l h;
  rc_blocks b : b ∈ l -> blocks m !! block_hash b = Some b;
  rc_indexes i b : l !! i = Some b ->
    indexes m !! block_hash b = Some (mk_BlockIndexData (previous_block_hash (header b))
      (Z.of_nat i) (ledger_work (take (Datatypes.S i) l)));
  rc_undos i b : l !! i = Some b -> (0 < i)%nat ->
    exists u, undos m !! block_hash b = Some u /\
      applied_view b (ledger_view (take i l)) u (ledger_view (take (Datatypes.S i) l)) /\
      fresh_outputs b (ledger_view (take i l));
}.

(** The place of a transaction on a chain, and an index of transactions all of whose entries
    are such places, and one that has every transaction of the chain. *)
Definition location_on l (hash : TransactionHash) (location : TransactionIndexData) : Prop :=
  exists i b j t, l !! i = Some b /\ transactions b !! j = Some t /\ tx_hash (tx_data t) = hash /\
    location = mk_TransactionIndexData (block_hash b) (Z.of_nat i) (Z.of_nat j).

Definition located l (locations : gmap TransactionHash TransactionIndexData) : Prop :=
  forall hash location, locations !! hash = Some location -> location_on l hash location.

Definition indexes_all l (locations : gmap TransactionHash TransactionIndexData) : Prop :=
  forall hash location, location_on l hash location -> locations !! hash = Some location.

(** The abstraction relation: the selected chain of the store is [l], its UTXO set is the
    replay of [l], what the transaction index lists is on [l], and the chain state and
    metadata are present and describe [l]. *)
Record refines m l : Prop := {
  rf_records : records m l;
  rf_located : located l (tx_locations m);
  rf_utxos : utxos m = ledger_view l;
  rf_state : exists t, last l = Some t /\ state m = Some (tip_state l t);
  rf_metadata : is_Some (view_metadata m);
}.

Lemma height_lookup_nat l i : height_lookup l (Z.of_nat i) = block_hash <$> l !! i.
Proof. unfold height_lookup. rewrite decide_True by lia. by rewrite Nat2Z.id. Qed.

Lemma height_lookup_snoc l b h :
  height_lookup (l ++ [b]) h =
    if decide (h = Z.of_nat (length l)) then Some (block_hash b) else height_lookup l h.
Proof.
  unfold height_lookup. repeat case_decide; try lia; try done.
  - subst. by rewrite Nat2Z.id, list_lookup_middle by done.
  - destruct (decide (Z.to_nat h < length l)%nat) as [Hlt|Hge].
    + by rewrite lookup_app_l.
    + rewrite lookup_app_r by lia. rewrite (lookup_ge_None_2 l) by lia.
      rewrite lookup_ge_None_2; [done|cbn; lia].
Qed.

Lemma last_position l t : chain_shape l -> last l = Some t -> height (header t) = Z.of_nat (length l) - 1.
Proof.
  intros Hs Hl. rewrite last_lookup in Hl. rewrite (chain_height _ _ _ Hs Hl).
  apply lookup_lt_Some in Hl. lia.
Qed.

Lemma take_last l i : (i = length l - 1)%nat -> l <> [] -> take (Datatypes.S i) l = l.
Proof. intros -> Hl. apply take_ge. destruct l; [done|cbn; lia]. Qed.

Lemma last_lookup_nat l t : last l = Some t -> l !! (length l - 1)%nat = Some t.
Proof. rewrite last_lookup. intros <-. f_equal. lia. Qed.

Lemma refines_verify m l t :
  refines m l -> last l = Some t -> verify_current_state m (tip_state l t) = Ok tt.
Proof.
  intros R Hl. pose proof (rf_records _ _ R) as C. pose proof (rc_shape _ _ C) as Hs.
  pose proof (last_position _ _ Hs Hl) as Hh.
  pose proof (chain_bound _ Hs) as Hb. destruct (rf_metadata _ _ R) as [md Hmd].
  pose proof (last_lookup_nat _ _ Hl) as Hi. assert (l <> []) as Hne by (by intros ->).
  assert (0 < length l)%nat as Hpos by (destruct l; [done|cbn; lia]).
  pose proof (rc_blocks _ _ C t (list_elem_of_lookup_2 _ _ _ Hi)) as Hbl.
  pose proof (rc_heights _ _ C (height (header t))) as Hhe.
  pose proof (rc_indexes _ _ C _ _ Hi) as Hix. rewrite take_last in Hix by done.
  unfold verify_current_state. cbn. rewrite Hmd. cbn.
  unfold default_get_block_header_by_hash. rewrite Hbl. cbn.
  rewrite Hhe. rewrite Hh at 1. replace (Z.of_nat (length l) - 1) with (Z.of_nat (length l - 1)) at 1 by lia.
  rewrite height_lookup_nat, Hi. cbn. rewrite Hix. cbn.
  rewrite !bool_decide_eq_true_2, Z.eqb_refl; try done.
  - replace (Z.of_nat (length l - 1)) with (height (header t)) by lia.
    by rewrite !Z.eqb_refl.
  - unfold checked_add. rewrite Hh. destruct (Z.ltb_spec (Z.of_nat (length l) - 1 + 1) (2 ^ 64)); [|lia].
    f_equal. lia.
Qed.

Lemma records_work m l : records m l -> ledger_work l < 2 ^ 512.
Proof. intros C. pose proof (rc_work _ _ C (length l)) as Hw. by rewrite firstn_all in Hw. Qed.

(** ** Writes of blocks *)

(** What [put_block] and the undo write leave of a store. *)
Definition stored m (b : Block) (index : BlockIndexData) (u : BlockUndo) m' : Prop :=
  utxos m' = utxos m /\ blocks m' = <[block_hash b := b]> (blocks m) /\
  heights m' = <[height (header b) := block_hash b]> (heights m) /\
  indexes m' = <[block_hash b := index]> (indexes m) /\
  undos m' = <[block_hash b := u]> (undos m) /\
  state m' = state m /\ view_metadata m' = view_metadata m.

Definition put_both m b index u : result StorageError MemoryView :=
  m1 ← put_block m b index; put_block_undo m1 (block_hash b) u.

Lemma put_both_stored m b index u m' : put_both m b index u = Ok m' -> stored m b index u m'.
Proof.
  intros Hp. apply bind_Ok in Hp as (m1 & H1 & Hu). cbn in H1, Hu. injection Hu as <-.
  unfold memory_put_block in H1. apply bind_Ok in H1 as (locs & _ & H1). by injection H1 as <-.
Qed.

Lemma put_both_locations m b index u m' :
  put_both m b index u = Ok m' -> tx_locations m' = index_block b (tx_locations m).
Proof.
  intros Hp. apply bind_Ok in Hp as (m1 & H1 & Hu). cbn in H1, Hu. injection Hu as <-.
  unfold memory_put_block in H1. apply bind_Ok in H1 as (locs & Hl & H1). injection H1 as <-.
  by apply index_fold_block in Hl.
Qed.

Lemma put_both_total m b index u :
  Z.of_nat (length (transactions b)) <= 2 ^ 32 -> exists m', put_both m b index u = Ok m'.
Proof.
  intros Hlen. unfold put_both. cbn [put_block memory_write]. unfold memory_put_block.
  assert (forall ts n acc, Z.of_nat (n + length ts) <= 2 ^ 32 ->
    exists acc', fold_res (index_transaction b) acc (imap (fun i t => (n + i, t)%nat) ts) = Ok acc') as Hidx.
  { induction ts as [|t ts IH]; intros n acc Hn; [by eexists|]. rewrite index_cons.
    cbn [length] in Hn. destruct (index_transaction b acc (n, t)) as [acc1|] eqn:Hit;
      cbn [mbind result_bind]; [apply IH; lia|]. unfold index_transaction in Hit. cbn [fst] in Hit.
    destruct (Z.leb_spec (2 ^ 32) (Z.of_nat n)); [lia|done]. }
  destruct (Hidx (transactions b) 0%nat (tx_locations m) Hlen) as (acc & Hacc). cbn in Hacc.
  rewrite Hacc. cbn. eauto.
Qed.

Lemma put_both_too_long m b index u m' :
  put_both m b index u = Ok m' -> Z.of_nat (length (transactions b)) <= 2 ^ 32.
Proof.
  intros Hp. apply bind_Ok in Hp as (m1 & H1 & _). cbn in H1. unfold memory_put_block in H1.
  apply bind_Ok in H1 as (locs & H1 & _).
  assert (forall ts n acc acc', fold_res (index_transaction b) acc (imap (fun i t => (n + i, t)%nat) ts) = Ok acc' ->
    ts <> [] -> Z.of_nat (n + length ts) <= 2 ^ 32) as Hidx.
  { clear. induction ts as [|t ts IH]; intros n acc acc' Hf Hne; [done|]. rewrite index_cons in Hf.
    apply bind_Ok in Hf as (acc1 & H1 & Hf). unfold index_transaction in H1. cbn [fst] in H1.
    destruct (Z.leb_spec (2 ^ 32) (Z.of_nat n)); [done|].
    destruct ts as [|t' ts]; [cbn; lia|]. apply IH in Hf; [|done]. cbn [length] in *. lia. }
  destruct (transactions b) as [|t ts] eqn:Ht; [cbn; lia|]. rewrite <-Ht in *.
  apply (Hidx _ 0%nat) in H1; [lia|]. by rewrite Ht.
Qed.

(** ** The transaction index along a chain *)

(** Detaching the blocks of [removed], in this order, then attaching those of [added]. *)
Definition relocate (removed added : list Block) (locations : gmap TransactionHash TransactionIndexData) :
    gmap TransactionHash TransactionIndexData :=
  foldl (fun locations b => index_block b locations)
    (foldl (fun locations b => unindex_block b locations) locations removed) added.

Lemma index_block_lookup b locations hash location :
  index_block b locations !! hash = Some location ->
  locations !! hash = Some location \/
  exists j t, transactions b !! j = Some t /\ tx_hash (tx_data t) = hash /\
    location = mk_TransactionIndexData (block_hash b) (height (header b)) (Z.of_nat j).
Proof.
  unfold index_block. intros Hl.
  assert (forall entries (acc : gmap TransactionHash TransactionIndexData), (forall e, e ∈ entries -> transactions b !! e.1 = Some e.2) ->
    foldl (fun acc entry => <[tx_hash (tx_data entry.2) :=
      mk_TransactionIndexData (block_hash b) (height (header b)) (Z.of_nat entry.1)]> acc) acc entries !! hash = Some location ->
    acc !! hash = Some location \/ exists j t, transactions b !! j = Some t /\ tx_hash (tx_data t) = hash /\
      location = mk_TransactionIndexData (block_hash b) (height (header b)) (Z.of_nat j)) as Hgen.
  { clear. induction entries as [|[j t] entries IH]; intros acc He Hl; [by left|]. cbn [foldl fst snd] in Hl.
    apply IH in Hl as [Hl|Hl]; [|by right|intros e Hin; apply He; by right].
    apply lookup_insert_Some in Hl as [[Heq <-]|[_ Hl]]; [|by left]. right.
    exists j, t. split_and!; [|done|done]. apply (He (j, t)). by left. }
  apply Hgen in Hl; [done|]. intros e (i & t & -> & Ht)%elem_of_lookup_imap. done.
Qed.

Lemma located_snoc l b locations :
  chain_shape (l ++ [b]) -> located l locations -> located (l ++ [b]) (index_block b locations).
Proof.
  intros Hs Hl hash location [H|(j & t & Ht & Hh & ->)]%index_block_lookup.
  - destruct (Hl _ _ H) as (i & b' & j & t & Hi & Hrest). exists i, b', j, t. split; [by apply lookup_app_l_Some|done].
  - exists (length l), b, j, t. split_and!; [by apply list_lookup_middle|done|done|].
    by rewrite (chain_height _ (length l) _ Hs) by (by apply list_lookup_middle).
Qed.

Lemma located_unindex l b locations :
  NoDup (block_hash <$> (l ++ [b])) -> located (l ++ [b]) locations -> located l (unindex_block b locations).
Proof.
  intros Hnd Hl hash location. unfold unindex_block. rewrite unindex_fold. case_decide as Hd; [done|]. intros H.
  destruct (Hl _ _ H) as (i & b' & j & t & Hi & Ht & Hh & ->). exists i, b', j, t. split; [|done].
  apply lookup_app_Some in Hi as [Hi|[Hge Hi]]; [done|]. apply list_lookup_singleton_Some in Hi as [_ ->].
  destruct Hd. split; [|by rewrite H]. apply list_elem_of_fmap. exists t. split; [done|]. by apply (list_elem_of_lookup_2 _ j).
Qed.

Lemma located_relocate l n bs locations :
  NoDup (block_hash <$> l) -> chain_shape (take n l ++ bs) -> located l locations ->
  located (take n l ++ bs) (relocate (rev (drop n l)) bs locations).
Proof.
  intros Hnd Hs Hl. unfold relocate.
  assert (located (take n l) (foldl (fun locations b => unindex_block b locations) locations (rev (drop n l)))) as Hcut.
  { rewrite <-(take_drop n l) in Hnd, Hl. revert Hnd Hl. generalize (take n l) as k. generalize (drop n l) as x. clear.
    intros x k. revert locations. induction x as [|b x IH] using rev_ind; intros locations Hnd Hl; [by rewrite app_nil_r in Hl|].
    rewrite rev_unit. cbn [foldl]. rewrite app_assoc in Hnd, Hl. apply IH; [|by apply located_unindex].
    rewrite fmap_app in Hnd. by apply NoDup_app in Hnd as [? _]. }
  revert Hcut Hs. generalize (take n l) as k. generalize (foldl (fun locations b => unindex_block b locations) locations (rev (drop n l))) as ls.
  clear. induction bs as [|b bs IH]; intros ls k Hcut Hs; [by rewrite app_nil_r|]. cbn [foldl].
  replace (k ++ b :: bs) with ((k ++ [b]) ++ bs) in * by (by rewrite <-app_assoc). apply IH; [|done].
  apply located_snoc; [|done].
  replace (k ++ [b]) with (take (length (k ++ [b])) ((k ++ [b]) ++ bs)) by (by rewrite take_app_length).
  apply chain_shape_prefix; [done|]. rewrite length_app. cbn. lia.
Qed.

(** ** Extending the records of a chain *)

Lemma records_snoc m l b u m' :
  records m l -> chain_shape (l ++ [b]) -> block_hash b ∉ (block_hash <$> l) ->
  ledger_work (l ++ [b]) < 2 ^ 512 ->
  applied_view b (ledger_view l) u (ledger_view (l ++ [b])) -> fresh_outputs b (ledger_view l) ->
  stored m b (mk_BlockIndexData (previous_block_hash (header b)) (height (header b))
    (ledger_work (l ++ [b]))) u m' ->
  records m' (l ++ [b]).
Proof.
  intros C Hs Hnew Hw Ha Hf (_ & Hbl & Hhe & Hix & Hun & _ & _).
  assert (height (header b) = Z.of_nat (length l)) as Hh
    by (by apply (chain_height _ _ _ Hs), list_lookup_middle).
  assert (forall b', b' ∈ l -> block_hash b' <> block_hash b) as Hne.
  { intros b' Hb' Heq. apply Hnew. rewrite <-Heq. by apply list_elem_of_fmap_2. }
  assert (forall i b', (l ++ [b]) !! i = Some b' -> (i = length l /\ b' = b) \/
    ((i < length l)%nat /\ l !! i = Some b' /\ block_hash b' <> block_hash b)) as Hcases.
  { intros i b' Hi. apply lookup_app_Some in Hi as [Hi|[Hge Hi]].
    - right. split_and!; [by apply lookup_lt_Some in Hi|done|]. apply Hne. by apply list_elem_of_lookup_2 in Hi.
    - left. apply list_lookup_singleton_Some in Hi as [? ->]. split; [lia|done]. }
  split; [done| | | | | |].
  2: { intros n. destruct (decide (n <= length l)%nat) as [Hn|Hn].
       - rewrite take_app_le by done. apply C.
       - by rewrite take_ge by (rewrite length_app; cbn; lia). }
  - rewrite fmap_app. apply NoDup_app. split_and!; [apply C| |apply NoDup_singleton].
    intros h Hin Hin'. cbn in Hin'. apply list_elem_of_singleton in Hin' as ->. done.
  - intros h. rewrite Hhe, height_lookup_snoc, Hh. case_decide as Hd.
    + subst. by rewrite lookup_insert_eq.
    + rewrite lookup_insert_ne by done. apply C.
  - intros b' Hb'. rewrite Hbl. apply elem_of_app in Hb' as [Hb'|Hb'].
    + rewrite lookup_insert_ne by (intros Heq; by apply (Hne b' Hb')). by apply C.
    + apply list_elem_of_singleton in Hb' as ->. by rewrite lookup_insert_eq.
  - intros i b' Hi. rewrite Hix. destruct (Hcases _ _ Hi) as [[-> ->]|(Hlt & Hi' & Hneq)].
    + rewrite lookup_insert_eq, Hh. by rewrite take_ge by (rewrite length_app; cbn; lia).
    + rewrite lookup_insert_ne by done. rewrite take_app_le by lia. by apply C.
  - intros i b' Hi Hpos. rewrite Hun. destruct (Hcases _ _ Hi) as [[-> ->]|(Hlt & Hi' & Hneq)].
    + exists u. rewrite lookup_insert_eq. split; [done|].
      rewrite take_app_length, take_ge by (rewrite length_app; cbn; lia). done.
    + rewrite lookup_insert_ne by done. rewrite !take_app_le by lia. by apply (rc_undos _ _ C i b').
Qed.

Lemma extended_state_spec l t b s' :
  chain_shape l -> last l = Some t -> ledger_work l < 2 ^ 512 ->
  extended_state (tip_state l t) b = Ok s' <->
  chain_shape (l ++ [b]) /\ ledger_work (l ++ [b]) < 2 ^ 512 /\ s' = tip_state (l ++ [b]) b.
Proof.
  intros Hs Hl Hw. pose proof (last_position _ _ Hs Hl) as Hh.
  rewrite (chain_shape_snoc l b t) by done. rewrite ledger_work_snoc.
  unfold extended_state. cbn [tip_state latest_block position fst snd chain_work].
  change (header_is_genesis (header b)) with (is_genesis b).
  pose proof (verify_shape_Ok b) as Hv.
  destruct (is_genesis b) eqn:Hg.
  { split; [|naive_solver]. intros He. apply bind_Ok in He as (u & _ & He). done. }
  destruct (verify_genesis_work_shape b) as [[]|]; 
    [clear Hv|discriminate (proj2 Hv ltac:(intros ?; discriminate))].
  cbn [map_err mbind result_bind orb].
  destruct (Z.eqb_spec (hash_threshold (header b)) 0) as [Ht|Ht]; [split; [done|naive_solver]|].
  destruct (decide (previous_block_hash (header b) = block_hash t)) as [Hp|Hp];
    [rewrite bool_decide_eq_true_2 by done|rewrite bool_decide_eq_false_2 by done; split; [done|naive_solver]].
  destruct (decide (checked_add 64 (height (header t)) 1 = Some (height (header b)))) as [Hc|Hc];
    [rewrite bool_decide_eq_true_2 by done|rewrite bool_decide_eq_false_2 by done].
  2: { split; [done|]. intros ((_ & Hhb & _ & _ & Hlt) & _). destruct Hc. apply checked_add_Some. lia. }
  apply checked_add_Some in Hc as [Hc Hc']. cbn [negb orb]. split.
  - intros He. apply bind_Ok in He as (w & Hwk & He). apply map_err_Ok, add_work_Ok in Hwk as [-> Hlt].
    apply bind_Ok in He as (n & Hn & He). apply ok_or_Ok, checked_add_Some in Hn as [-> Hn].
    injection He as <-. split_and!; try done; try lia. unfold tip_state. rewrite ledger_work_snoc.
    f_equal. rewrite length_app. cbn. lia.
  - intros ((_ & _ & _ & _ & Hlt) & Hlw & ->).
    assert (add_work (ledger_work l) (work b) = Ok (ledger_work l + work b)) as -> by (by apply add_work_Ok).
    cbn [map_err mbind result_bind].
    assert (checked_add 64 (height (header b)) 1 = Some (height (header b) + 1)) as -> by (apply checked_add_Some; lia).
    cbn. unfold tip_state. rewrite ledger_work_snoc. unfold mret, result_ret. do 2 f_equal.
    rewrite length_app. cbn. lia.
Qed.
End Refinement.

(** * Appending *)

Section Append.
Context {X : Externals}.
Implicit Types (m : MemoryView) (l : list Block).

Abbreviation apply_memory b m := (@apply_block X MemoryView read_utxos write_utxos b m).

(** The inputs a block takes from outside are distinct and present. *)
Definition spendable (b : Block) (v : gmap OutPoint UTXO) : Prop :=
  NoDup (block_effect b).2 /\ Forall (fun op => is_Some (v !! op)) (block_effect b).2.

Lemma apply_memory_Ok b m u m' :
  apply_memory b m = Ok (u, m') ->
  m' = set_utxos m (block_view (utxos m) b) /\
  applied_view b (utxos m) u (block_view (utxos m) b) /\ spendable b (utxos m).
Proof.
  intros Ha. pose proof (apply_block_Ok (S := MemoryView) b m u m' Ha) as Happ.
  unfold applied in Happ. cbn [utxo_view memory_read_laws write_read_laws memory_write_laws] in Happ.
  pose proof (applied_view_eq _ _ _ _ Happ) as Hv. rewrite Hv in Happ.
  assert (exists v, m' = set_utxos m v) as (v & ->).
  { clear -Ha. unfold apply_block in Ha. destruct (block_effect b) as [created ext].
    apply bind_Ok in Ha as ([sp m2] & Hs & Ha). apply bind_Ok in Ha as (m3 & Hp & Ha). injection Ha as <- <-.
    assert (exists v, m2 = set_utxos m v) as (v & ->).
    { destruct (bool_decide (ext = [])).
      - injection Hs as <- <-. exists (utxos m). by destruct m.
      - apply bind_Ok in Hs as (ex & _ & Hs). apply bind_Ok in Hs as (tk & _ & Hs).
        apply bind_Ok in Hs as (m4 & Hrm & Hs). injection Hs as <- <-.
        cbn in Hrm. unfold memory_batch_remove_utxos in Hrm.
        apply bind_Ok in Hrm as ([] & _ & Hrm). injection Hrm as <-. eauto. }
    cbn [snd] in Hp. case_bool_decide; [injection Hp as <-; eauto|].
    cbn in Hp. injection Hp as <-. eauto. }
  cbn in Hv. subst v. split_and!; [done|done|]. unfold spendable. unfold applied_view in Happ.
  destruct (block_effect b). naive_solver.
Qed.

Lemma apply_memory_total b m :
  spendable b (utxos m) -> exists u, apply_memory b m = Ok (u, set_utxos m (block_view (utxos m) b)).
Proof.
  intros [Hnd Hall]. pose proof (apply_block_cases (S := MemoryView) b m) as Hc.
  change (@apply_block _ _ _ _ b m) with (apply_memory b m) in Hc.
  destruct (apply_memory b m) as [[u m']|e] eqn:Ha.
  - apply apply_memory_Ok in Ha as (-> & _ & _). eauto.
  - exfalso. destruct Hc as (op & Hop & _ & [Hno|Hno]); [|done].
    rewrite Forall_forall in Hall. destruct (Hall op Hop) as [? Hs]. cbn in Hno. congruence.
Qed.

Lemma records_eq m m' l :
  blocks m' = blocks m -> heights m' = heights m -> indexes m' = indexes m -> undos m' = undos m ->
  records m l -> records m' l.
Proof. intros Hb Hh Hi Hu []. split; rewrite ?Hb, ?Hh, ?Hi, ?Hu; done. Qed.

Lemma attach_memory m l t b :
  refines m l -> last l = Some t -> block_hash b ∉ (block_hash <$> l) ->
  fresh_outputs b (ledger_view l) ->
  match attach_block m (tip_state l t) b with
  | Ok (s', m') =>
      chain_shape (l ++ [b]) /\ ledger_work (l ++ [b]) < 2 ^ 512 /\ spendable b (ledger_view l) /\
      Z.of_nat (length (transactions b)) <= 2 ^ 32 /\
      s' = tip_state (l ++ [b]) b /\ records m' (l ++ [b]) /\ utxos m' = ledger_view (l ++ [b]) /\
      view_metadata m' = view_metadata m /\ tx_locations m' = index_block b (tx_locations m)
  | Err _ =>
      ~ (chain_shape (l ++ [b]) /\ ledger_work (l ++ [b]) < 2 ^ 512 /\ spendable b (ledger_view l) /\
         Z.of_nat (length (transactions b)) <= 2 ^ 32)
  end.
Proof.
  intros R Hl Hnew Hfresh. pose proof (rf_records _ _ R) as C.
  pose proof (extended_state_spec l t b) as Hext.
  specialize (fun s' => Hext s' (rc_shape _ _ C) Hl (records_work _ _ C)).
  unfold attach_block. destruct (extended_state (tip_state l t) b) as [s'|e] eqn:He; cbn [mbind result_bind].
  2: { intros (Hs & Hw & _). by discriminate (proj2 (Hext _) (conj Hs (conj Hw eq_refl))). }
  destruct (proj1 (Hext s') eq_refl) as (Hs & Hw & ->). clear Hext.
  destruct (apply_memory b m) as [[u m1]|e] eqn:Ha; cbn [mbind result_bind fst snd].
  2: { intros (_ & _ & Hsp & _). rewrite <-(rf_utxos _ _ R) in Hsp.
       destruct (apply_memory_total _ _ Hsp) as (u & Hu). congruence. }
  apply apply_memory_Ok in Ha as (-> & Ha & Hsp). rewrite (rf_utxos _ _ R), <-ledger_view_snoc in *.
  set (index := mk_BlockIndexData _ _ _). set (m1 := set_utxos m _).
  change (match (m2 ← put_block m1 b index; m3 ← put_block_undo m2 (block_hash b) u; mret (tip_state (l ++ [b]) b, m3)) with
    | Ok (s', m') => chain_shape (l ++ [b]) /\ ledger_work (l ++ [b]) < 2 ^ 512 /\ spendable b (ledger_view l) /\
      Z.of_nat (length (transactions b)) <= 2 ^ 32 /\
      s' = tip_state (l ++ [b]) b /\ records m' (l ++ [b]) /\ utxos m' = ledger_view (l ++ [b]) /\
      view_metadata m' = view_metadata m /\ tx_locations m' = index_block b (tx_locations m)
    | Err _ => ~ (chain_shape (l ++ [b]) /\ ledger_work (l ++ [b]) < 2 ^ 512 /\ spendable b (ledger_view l) /\
         Z.of_nat (length (transactions b)) <= 2 ^ 32) end).
  assert (forall F, (m2 ← put_block m1 b index; m3 ← put_block_undo m2 (block_hash b) u; F m3) =
    (m3 ← put_both m1 b index u; F m3) :> result StorageError (ChainState * MemoryView)) as ->.
  { intros F. unfold put_both. by destruct (put_block m1 b index). }
  destruct (put_both m1 b index u) as [m3|e] eqn:Hp; cbn [mbind result_bind].
  2: { intros (_ & _ & _ & Hlen). destruct (put_both_total m1 b index u Hlen). congruence. }
  pose proof (put_both_too_long _ _ _ _ _ Hp) as Hlen. pose proof (put_both_locations _ _ _ _ _ Hp) as Hloc.
  apply put_both_stored in Hp. cbn [mret result_ret]. split_and!; try done.
  - apply (records_snoc m1 l b u m3); try done. by apply (records_eq m).
  - destruct Hp as (-> & _). done.
  - destruct Hp as (_ & _ & _ & _ & _ & _ & ->). done.
Qed.

(** The abstract precondition of an append. *)
Definition appendable l (b : Block) : Prop :=
  chain_shape (l ++ [b]) /\ ledger_work (l ++ [b]) < 2 ^ 512 /\ spendable b (ledger_view l) /\
  Z.of_nat (length (transactions b)) <= 2 ^ 32.

Lemma append_memory m l b :
  refines m l -> block_hash b ∉ (block_hash <$> l) -> fresh_outputs b (ledger_view l) ->
  match apply_transition m (TAppend b) with
  | Ok (r, m') => appendable l b /\ refines m' (l ++ [b]) /\
      r = mk_ChainTransitionResult (position b) (ledger_work (l ++ [b])) [] /\
      tx_locations m' = index_block b (tx_locations m)
  | Err _ => ~ appendable l b
  end.
Proof.
  intros R Hnew Hfresh. destruct (rf_state _ _ R) as (t & Hl & Hst).
  unfold apply_transition. cbn [chain_state memory_stats read_stats memory_read mbind result_bind].
  rewrite Hst. unfold stage_append. cbn [ok_or mbind result_bind].
  rewrite (refines_verify _ _ _ R Hl). cbn [mbind result_bind].
  pose proof (attach_memory m l t b R Hl Hnew Hfresh) as Hat.
  destruct (attach_block m (tip_state l t) b) as [[s' m']|e]; cbn [mbind result_bind]; [|exact Hat].
  destruct Hat as (Hs & Hw & Hsp & Hlen & -> & C & Hu & Hmd & Hloc). cbn.
  split; [done|]. split; [|done]. split.
  - by apply (records_eq m').
  - cbn. rewrite Hloc. apply located_snoc; [done|apply R].
  - done.
  - exists b. by rewrite last_snoc.
  - cbn. rewrite Hmd. apply R.
Qed.

(** Appending refines the ledger. On a store whose selected chain is [l], the append of
    a block with a new hash and fresh outputs succeeds exactly when the block extends
    the chain (parent, next height, no genesis marker, non-zero threshold), the total
    work fits 512 bits, and its external inputs are distinct and unspent (and it has
    at most [2^32] transactions); the store then represents [l] followed by the block,
    and the reported head and work are those of that list. Otherwise nothing changes. *)
Theorem append_refines_ledger m l b :
  refines m l -> block_hash b ∉ (block_hash <$> l) -> fresh_outputs b (ledger_view l) ->
  match memory_apply_transition m (TAppend b) with
  | (Ok r, m') => appendable l b /\ refines m' (l ++ [b]) /\
      r = mk_ChainTransitionResult (position b) (ledger_work (l ++ [b])) []
  | (Err _, m') => ~ appendable l b /\ m' = m
  end.
Proof.
  intros R Hnew Hfresh. pose proof (append_memory m l b R Hnew Hfresh) as Ha.
  unfold memory_apply_transition, update.
  destruct (apply_transition m (TAppend b)) as [[r m']|e]; [|done]. destruct Ha as (? & ? & ? & _). done.
Qed.
End Append.

(** * Genesis *)

Section GenesisTransition.
Context {X : Externals}.
Implicit Types (m : MemoryView) (l : list Block).

Lemma allocations_Ok seen outs seen' :
  fold_res allocation_step seen outs = Ok seen' ->
  Forall (fun o => value o <> 0) outs /\ NoDup (recipient <$> outs) /\
  Forall (fun o => recipient o ∉ seen) outs.
Proof.
  revert seen. induction outs as [|o outs IH]; intros seen Hf; cbn [fold_res] in Hf.
  { split_and!; constructor. }
  apply bind_Ok in Hf as (seen1 & H1 & Hf). unfold allocation_step in H1.
  destruct (_ || _) eqn:Hg in H1; [done|]. injection H1 as <-. bool_inv.
  apply IH in Hf as (Hv & Hnd & Hs). rewrite Forall_forall in Hs. split_and!.
  - by constructor.
  - apply NoDup_cons_2; [|done]. intros Hin. apply list_elem_of_fmap in Hin as (o' & Heq & Ho').
    specialize (Hs o' Ho'). set_solver.
  - constructor; [done|]. apply Forall_forall. intros o' Ho'. specialize (Hs o' Ho'). set_solver.
Qed.

Lemma recipients_distinct_total seen outs :
  Forall (fun o => value o <> 0) outs -> NoDup (recipient <$> outs) ->
  Forall (fun o => recipient o ∉ seen) outs ->
  exists seen', fold_res allocation_step seen outs = Ok seen'.
Proof.
  intros Hv. revert seen. induction Hv as [|o outs Ho Hv IH]; intros seen Hnd Hs; cbn [fold_res]; [eauto|].
  apply NoDup_cons in Hnd as [Hn Hnd]. apply Forall_cons in Hs as [Hso Hs].
  assert (allocation_step seen o = Ok ({[ recipient o ]} ∪ seen)) as ->.
  { unfold allocation_step. rewrite (proj2 (Z.eqb_neq _ _) Ho), bool_decide_eq_false_2 by done. done. }
  cbn [mbind result_bind]. apply IH; [done|]. apply Forall_forall. intros o' Ho'.
  rewrite Forall_forall in Hs. specialize (Hs o' Ho').
  assert (recipient o' <> recipient o); [|set_solver].
  intros Heq. apply Hn. rewrite <-Heq. by apply list_elem_of_fmap_2.
Qed.

(** The genesis blocks storage accepts. *)
Definition valid_genesis (b : Block) : Prop :=
  verify_genesis_work_shape b = Ok tt /\ is_merkle_root_valid b = true /\
  (exists gs, genesis_state (header b) = Some gs /\ PowParams_validate (pow (consensus_consts gs)) = Ok tt) /\
  exists t, transactions b = [t] /\ kind (tx_data t) = Genesis /\ inputs (tx_data t) = [] /\
    outputs (tx_data t) <> [] /\ Forall (fun o => value o <> 0) (outputs (tx_data t)) /\
    NoDup (recipient <$> outputs (tx_data t)).

Lemma validate_genesis_iff b : validate_genesis b = Ok tt <-> valid_genesis b.
Proof.
  unfold validate_genesis, valid_genesis. split.
  - intros Hv. apply bind_Ok in Hv as ([] & Hs & Hv). apply map_err_Ok in Hs.
    apply bind_Ok in Hv as (gs & Hg & Hv). apply ok_or_Ok in Hg.
    apply bind_Ok in Hv as ([] & Hp & Hv). apply map_err_Ok in Hp.
    apply bind_Ok in Hv as ([] & Hm & Hv). apply ensure_Ok in Hm.
    destruct (transactions b) as [|t [|]] eqn:Ht; [done| |done].
    destruct (_ || _) eqn:Hb in Hv; [done|]. bool_inv.
    apply bind_Ok in Hv as (seen & Hf & _). apply allocations_Ok in Hf as (Hv & Hnd & _).
    split_and!; [done|done|by exists gs|]. exists t. done.
  - intros (Hs & Hm & (gs & Hg & Hp) & t & Ht & Hk & Hi & Ho & Hv & Hnd).
    rewrite Hs, Hg, Hm, Ht. cbn [map_err mbind result_bind ok_or ensure]. rewrite Hp.
    cbn [map_err mbind result_bind]. rewrite Hk, Hi.
    rewrite !bool_decide_eq_true_2 by done. rewrite bool_decide_eq_false_2 by done. cbn [negb orb].
    destruct (recipients_distinct_total ∅ (outputs (tx_data t))) as (seen & ->); [done|done| |done].
    apply Forall_forall. set_solver.
Qed.

(** A constructed genesis block is accepted by storage exactly when its difficulty
    parameters validate and it allocates at least one balance, all of them positive. *)
Theorem new_genesis_validates v bal gs :
  validate_genesis (new_genesis v bal gs) = Ok tt <->
  PowParams_validate (pow (consensus_consts gs)) = Ok tt /\ bal <> ∅ /\
  map_Forall (fun _ x => x <> 0) bal.
Proof.
  rewrite validate_genesis_iff. unfold valid_genesis.
  set (sorted := merge_sort allocation_le (map_to_list bal)).
  pose proof (merge_sort_Permutation allocation_le (map_to_list bal)) as Hp. fold sorted in Hp.
  assert (transactions (new_genesis v bal gs) = [mk_Transaction (mk_TransactionData v Genesis []
    ((fun ab => mk_TransactionOut ab.2 ab.1) <$> sorted)) (zeros 65)]) as Ht by done.
  assert (Forall (fun o => value o <> 0) ((fun ab => mk_TransactionOut ab.2 ab.1) <$> sorted) <->
    map_Forall (fun _ x => x <> 0) bal) as Hval.
  { rewrite Forall_fmap, map_Forall_to_list. rewrite <-Hp. apply Forall_proper; [|done]. by intros []. }
  split.
  - intros (_ & _ & (gs' & Hg & Hpow) & t & Ht' & _ & _ & Ho & Hv & _).
    injection Hg as <-. rewrite Ht in Ht'. injection Ht' as <-. cbn [tx_data outputs] in *.
    split_and!; [done| |by apply Hval]. intros Hempty. apply Ho.
    rewrite Hempty, map_to_list_empty in Hp. apply Permutation_nil_r in Hp. by rewrite Hp.
  - intros (Hpow & Hne & Hv). split_and!.
    + apply verify_shape_Ok. intros _. by split_and!.
    + by apply is_merkle_root_valid_true.
    + by exists gs.
    + eexists. split; [exact Ht|]. cbn [tx_data kind inputs outputs].
      split_and!; [done|done| |by apply Hval|].
      * intros Heq. apply fmap_nil_inv in Heq. rewrite Heq in Hp.
        apply Permutation_nil_l in Hp. symmetry in Hp. by apply map_to_list_empty_iff in Hp.
      * rewrite <-list_fmap_compose.
        change (NoDup (fst <$> sorted)). rewrite Hp. apply NoDup_fst_map_to_list.
Qed.

Lemma genesis_effect t b :
  transactions b = [t] -> kind (tx_data t) = Genesis -> (block_effect b).2 = [].
Proof.
  intros Ht Hk. unfold block_effect. rewrite Ht. cbn. unfold block_step, is_payment.
  rewrite Hk, bool_decide_eq_false_2 by done. done.
Qed.

Lemma genesis_init g md :
  valid_genesis g ->
  exists m, apply_transition MemoryView_default (TGenesis g md) =
      Ok (mk_ChainTransitionResult (0, block_hash g) 0 [], m) /\
    refines m [g] /\ view_metadata m = Some md /\ tx_locations m = index_block g ∅.
Proof.
  intros Hv. pose proof (proj2 (validate_genesis_iff g) Hv) as Hval.
  destruct Hv as (Hs & _ & (gs & Hg & _) & t & Ht & Hk & _).
  assert (is_genesis g = true) as Hgen by (unfold is_genesis; rewrite Hg; by apply bool_decide_eq_true_2).
  pose proof (proj1 (verify_shape_Ok g) Hs Hgen) as (Hh & _ & _ & _ & _).
  pose proof (genesis_effect t g Ht Hk) as Hext.
  unfold apply_transition. cbn [chain_state read_stats memory_read memory_stats mbind result_bind MemoryView_default state].
  unfold stage_genesis. rewrite Hval. cbn [mbind result_bind].
  cbn [metadata read_stats memory_read memory_stats MemoryView_default view_metadata mbind result_bind].
  rewrite bool_decide_eq_false_2 by (by intros [? ?]).
  cbn [get_block_by_height read_blocks memory_read memory_block_storage]. unfold memory_get_block_by_height.
  cbn [heights MemoryView_default]. rewrite lookup_empty. cbn [mbind result_bind mret result_ret].
  rewrite bool_decide_eq_false_2 by (by intros [? ?]).
  set (index := mk_BlockIndexData _ 0 0).
  destruct (put_both_total MemoryView_default g index (mk_BlockUndo ∅ ∅)) as (m1 & Hput); [by rewrite Ht|].
  pose proof (put_both_stored _ _ _ _ _ Hput) as (Hu & Hb & Hhe & Hix & _ & _ & Hmd).
  pose proof (put_both_locations _ _ _ _ _ Hput) as Hloc.
  apply bind_Ok in Hput as (m2 & -> & Hput). cbn in Hput. injection Hput as <-.
  cbn [mbind result_bind]. cbn in Hu, Hb, Hhe, Hix, Hmd.
  destruct (apply_memory_total g m2) as (u & Hap).
  { split; rewrite Hext; [apply NoDup_nil_2|apply Forall_nil_2]. }
  rewrite Hap. cbn [mbind result_bind fst snd]. cbn. eexists. split; [reflexivity|].
  cbn in Hloc. split; [|split; [done|exact Hloc]].
  split; [| | | |done].
  - split.
    + cbn. split_and!; try done.
    + apply NoDup_singleton.
    + intros [|n]; [done|]. cbn. rewrite take_nil. unfold ledger_work. cbn. unfold work.
      by rewrite Hgen.
    + intros h. cbn. rewrite Hhe. unfold height_lookup. rewrite Hh.
      destruct (decide (h = 0)) as [->|Hne]; [by rewrite lookup_insert_eq|].
      rewrite lookup_insert_ne, lookup_empty by done. case_decide; [|done].
      destruct (Z.to_nat h) eqn:Hn; [lia|done].
    + cbn. intros b Hin. apply list_elem_of_singleton in Hin as ->. by rewrite Hb, lookup_insert_eq.
    + intros i b Hi. apply list_lookup_singleton_Some in Hi as [-> ->]. cbn.
      rewrite Hix, lookup_insert_eq. unfold index, ledger_work. cbn. unfold work. rewrite Hgen. done.
    + intros i b Hi Hpos. apply list_lookup_singleton_Some in Hi as [-> ->]. lia.
  - cbn. rewrite Hloc. intros hash location [Hl|(j & t' & Ht' & Hid & ->)]%index_block_lookup; [done|].
    exists 0%nat, g, j, t'. by rewrite Hh.
  - cbn. by rewrite Hu.
  - exists g. split; [done|]. cbn. unfold tip_state, position, ledger_work. cbn. unfold work.
    rewrite Hgen, Hh. done.
Qed.

(** Initialization, on an empty and on an initialized store. *)
Lemma genesis_commits g md :
  (validate_genesis g = Ok tt ->
    exists m, memory_apply_transition MemoryView_default (TGenesis g md) =
        (Ok (mk_ChainTransitionResult (0, block_hash g) 0 []), m) /\ refines m [g]) /\
  (forall m l md0, refines m l -> view_metadata m = Some md0 ->
    let '(r, m') := memory_apply_transition m (TGenesis g md) in
    m' = m /\
    (is_ok r = true <-> validate_genesis g = Ok tt /\ head l = Some g /\
      schema_version md0 = schema_version md /\ chain_name md0 = chain_name md /\
      protocol_version md0 = protocol_version md)).
Proof.
  split.
  - intros Hv. apply validate_genesis_iff in Hv. destruct (genesis_init g md Hv) as (m & Ha & R & _).
    exists m. unfold memory_apply_transition, update. rewrite Ha. done.
  - intros m l md0 R Hmd. destruct (rf_state _ _ R) as (t & Hl & Hst).
    pose proof (rf_records _ _ R) as C.
    destruct l as [|g0 rest]; [by destruct (rc_shape _ _ C)|].
    unfold memory_apply_transition, update, apply_transition.
    cbn [chain_state memory_stats read_stats memory_read mbind result_bind]. rewrite Hst.
    unfold stage_genesis. destruct (validate_genesis g) as [[]|e]; cbn [mbind result_bind is_ok head]; [|split; [done|naive_solver]].
    cbn [get_block_by_height read_blocks memory_read memory_block_storage]. unfold memory_get_block_by_height.
    rewrite (rc_heights _ _ C 0). change (height_lookup (g0 :: rest) 0) with (Some (block_hash g0)). cbv iota.
    rewrite (rc_blocks _ _ C g0) by set_solver. cbn [ok_or mbind result_bind mret result_ret].
    cbn [metadata read_stats memory_read memory_stats]. rewrite Hmd. cbn [ok_or mbind result_bind].
    rewrite (refines_verify _ _ _ R Hl).
    destruct (decide (g0 = g)) as [->|Hne];
      [rewrite bool_decide_eq_true_2 by done|rewrite bool_decide_eq_false_2 by done; cbn; split; [done|naive_solver]].
    destruct (Z.eqb_spec (schema_version md0) (schema_version md)); cbn [negb orb]; [|cbn; split; [done|naive_solver]].
    destruct (decide (chain_name md0 = chain_name md)) as [Hc|Hc];
      [rewrite bool_decide_eq_true_2 by done|rewrite bool_decide_eq_false_2 by done; cbn; split; [done|naive_solver]].
    destruct (Z.eqb_spec (protocol_version md0) (protocol_version md)); cbn [negb orb]; cbn; split; try done; naive_solver.
Qed.

(** Initialization. On empty storage a valid genesis block is accepted and the store
    then represents the chain of that block alone. On a store that already represents a
    chain, genesis is accepted again only as the very same block with the same schema,
    name and protocol, and no initialization attempt changes an initialized store. *)
Theorem genesis_transition g md :
  (validate_genesis g = Ok tt ->
    exists m, memory_apply_transition MemoryView_default (TGenesis g md) =
        (Ok (mk_ChainTransitionResult (0, block_hash g) 0 []), m) /\ refines m [g]) /\
  (forall m l md0, refines m l -> view_metadata m = Some md0 ->
    let '(r, m') := memory_apply_transition m (TGenesis g md) in
    m' = m /\
    (is_ok r = true <-> validate_genesis g = Ok tt /\ head l = Some g /\
      schema_version md0 = schema_version md /\ chain_name md0 = chain_name md /\
      protocol_version md0 = protocol_version md)).
Proof. apply genesis_commits. Qed.
End GenesisTransition.

(** * Reorganizing *)

Section Detach.
Context {X : Externals}.
Implicit Types (m : MemoryView) (l : list Block).

(** Everything but the height and transaction mappings is the same. *)
Definition same_data m m' : Prop :=
  utxos m' = utxos m /\ blocks m' = blocks m /\ indexes m' = indexes m /\ undos m' = undos m /\
  state m' = state m /\ view_metadata m' = view_metadata m.

Lemma same_data_trans m1 m2 m3 : same_data m1 m2 -> same_data m2 m3 -> same_data m1 m3.
Proof. unfold same_data. intuition congruence. Qed.

Lemma hash_inj l i j b1 b2 :
  NoDup (block_hash <$> l) -> l !! i = Some b1 -> l !! j = Some b2 -> block_hash b1 = block_hash b2 -> i = j.
Proof.
  intros Hnd H1 H2 Heq. apply (NoDup_lookup _ _ _ (block_hash b1) Hnd); rewrite list_lookup_fmap.
  - by rewrite H1.
  - by rewrite H2, Heq.
Qed.

Lemma height_lookup_drop_last l n b :
  l !! n = Some b ->
  forall h, height_lookup (take n l) h =
    if decide (h = Z.of_nat n) then None else height_lookup (take (Datatypes.S n) l) h.
Proof.
  intros Hn h. rewrite (take_S_r _ _ _ Hn), height_lookup_snoc.
  apply lookup_lt_Some in Hn. rewrite length_take_le by lia.
  case_decide as Hd; [|done]. subst. rewrite height_lookup_nat.
  by rewrite lookup_take_ge by lia.
Qed.

Lemma rev_take_S {A} (x : list A) j t :
  x !! j = Some t -> rev (take (Datatypes.S j) x) = t :: rev (take j x).
Proof. intros Hj. rewrite (take_S_r _ _ _ Hj), rev_app_distr. done. Qed.

Lemma detach_loop_ok m l k a :
  records m l -> l !! k = Some a ->
  forall (j fuel : nat) m1 t det,
    (j <= fuel)%nat -> l !! (k + j)%nat = Some t -> same_data m m1 ->
    (forall h, heights m1 !! h = height_lookup (take (Datatypes.S (k + j)) l) h) ->
    exists m2, detach_loop fuel (Z.of_nat k) (block_hash a) m1 (position t) det =
        Ok (m2, position a, det ++ (position <$> rev (take j (drop (Datatypes.S k) l)))) /\
      same_data m m2 /\ (forall h, heights m2 !! h = height_lookup (take (Datatypes.S k) l) h) /\
      tx_locations m2 = foldl (fun locations b => unindex_block b locations) (tx_locations m1)
                          (rev (take j (drop (Datatypes.S k) l))).
Proof.
  intros C Ha. induction j as [|j IH]; intros fuel m1 t det Hfuel Ht Hsame Hhe.
  - rewrite Nat.add_0_r in *. rewrite Ha in Ht. injection Ht as <-.
    exists m1. split_and!; try done. destruct fuel; cbn [detach_loop position snd];
      rewrite bool_decide_eq_true_2 by done; by rewrite take_0, app_nil_r.
  - destruct fuel as [|fuel]; [lia|]. cbn [detach_loop position fst snd].
    pose proof (chain_height _ _ _ (rc_shape _ _ C) Ht) as Hh.
    rewrite bool_decide_eq_false_2 by (intros Heq; pose proof (hash_inj _ _ _ _ _ (rc_nodup _ _ C) Ht Ha Heq); lia).
    rewrite (proj2 (Z.leb_gt _ _)) by lia.
    destruct Hsame as (Hu & Hb & Hix & Hun & Hst & Hmd).
    assert (blocks m1 !! block_hash t = Some t) as Hbt.
    { rewrite Hb. apply (rc_blocks _ _ C). by apply list_elem_of_lookup_2 in Ht. }
    assert (heights m1 !! height (header t) = Some (block_hash t)) as Hht.
    { rewrite Hhe, Hh, height_lookup_nat, lookup_take_lt by lia. by rewrite Ht. }
    cbn [get_block_by_hash get_block_hash_by_height read_blocks memory_read memory_block_storage].
    rewrite Hbt, Hht. cbn [ok_or mbind result_bind]. rewrite !bool_decide_eq_true_2, Z.eqb_refl by done. cbn [andb ensure mbind result_bind].
    cbn [remove_canonical_block memory_write]. unfold memory_remove_canonical_block.
    rewrite Hht, bool_decide_eq_true_2 by done. cbn [ensure mbind result_bind mret result_ret].
    assert (is_Some (l !! (k + j)%nat)) as [p Hp].
    { apply lookup_lt_is_Some. apply lookup_lt_Some in Ht. lia. }
    assert (position p = (height (header t) - 1, previous_block_hash (header t))) as Hpos.
    { unfold position. rewrite (chain_height _ _ _ (rc_shape _ _ C) Hp), Hh.
      rewrite (chain_parent l (k + j) t p (rc_shape _ _ C)); [f_equal; lia| |done]. rewrite <-Ht. f_equal. lia. }
    rewrite <-Hpos.
    match goal with |- exists _, detach_loop _ _ _ ?mm _ _ = _ /\ _ /\ _ => set (m1' := mm) end.
    destruct (IH fuel m1' p (det ++ [(height (header t), block_hash t)])) as (m2 & -> & Hs2 & Hh2 & Hl2);
      [lia|done|done| |].
    + intros h. unfold m1'. cbn [heights]. rewrite (height_lookup_drop_last l (Datatypes.S (k + j)) t)
        by (rewrite <-Ht; f_equal; lia).
      replace (Datatypes.S (Datatypes.S (k + j))) with (Datatypes.S (k + Datatypes.S j)) by lia.
      rewrite <-Hhe. rewrite Hh. replace (Z.of_nat (k + Datatypes.S j)) with (Z.of_nat (Datatypes.S (k + j))) by lia.
      case_decide as Hd; [by subst; rewrite lookup_delete_eq|by rewrite lookup_delete_ne].
    + rewrite (rev_take_S _ _ t) by (rewrite lookup_drop, <-Ht; f_equal; lia).
      exists m2. split_and!; [|done|done|exact Hl2]. do 2 f_equal. cbn [fmap list_fmap]. by rewrite <-app_assoc.
Qed.

(** Cutting a chain keeps its records, once the heights above are gone. *)
Lemma records_prefix m m' l n :
  records m l -> (0 < n)%nat -> same_data m m' ->
  (forall h, heights m' !! h = height_lookup (take n l) h) -> records m' (take n l).
Proof.
  intros C Hn (Hu & Hb & Hix & Hun & Hst & Hmd) Hhe.
  assert (forall i b, take n l !! i = Some b -> (i < n)%nat /\ l !! i = Some b) as Hl.
  { intros i b Hi. apply lookup_take_Some in Hi. tauto. }
  split.
  - by apply chain_shape_prefix; [apply C|].
  - rewrite fmap_take. eapply sublist_NoDup; [apply C|apply sublist_take].
  - intros n'. rewrite take_take. apply C.
  - done.
  - intros b Hin. rewrite Hb. apply C. by apply elem_of_take in Hin as (i & Hi & _); apply list_elem_of_lookup_2 in Hi.
  - intros i b Hi. apply Hl in Hi as [Hlt Hi]. rewrite Hix, take_take, Nat.min_l by lia. by apply C.
  - intros i b Hi Hpos. apply Hl in Hi as [Hlt Hi]. rewrite Hun, !take_take, !Nat.min_l by lia.
    by apply (rc_undos _ _ C).
Qed.
End Detach.

Section Branches.
Context {X : Externals}.
Implicit Types (m : MemoryView) (l : list Block).

(** A list of blocks that can replace what follows the prefix [l]: each is appendable in
    turn, with a hash that is new to the chain and fresh outputs. *)
Fixpoint branch l (bs : list Block) : Prop :=
  match bs with
  | [] => True
  | b :: bs =>
      appendable l b /\ block_hash b ∉ (block_hash <$> l) /\ fresh_outputs b (ledger_view l) /\
      branch (l ++ [b]) bs
  end.

Lemma branch_nodup l bs :
  branch l bs -> NoDup (block_hash <$> bs) /\
    (forall h, h ∈ (block_hash <$> bs) -> h ∉ (block_hash <$> l)).
Proof.
  revert l. induction bs as [|b bs IH]; intros l; cbn [branch fmap list_fmap].
  { intros _. split; [apply NoDup_nil_2|set_solver]. }
  intros (_ & Hnew & _ & Hb). apply IH in Hb as [Hnd Hout]. rewrite fmap_app in Hout. split.
  - apply NoDup_cons_2; [|done]. intros Hin. apply (Hout _ Hin). set_solver.
  - set_solver.
Qed.

Lemma spendable_applied b v u v' : applied_view b v u v' -> spendable b v.
Proof. unfold applied_view, spendable. destruct (block_effect b). naive_solver. Qed.

(** ** Storage side: attaching prepared blocks *)

Lemma extended_state_frame s1 s2 b :
  latest_block s1 = latest_block s2 -> chain_work s1 = chain_work s2 ->
  extended_state s1 b = extended_state s2 b.
Proof. unfold extended_state. by intros -> ->. Qed.

Lemma attach_prepared_ok bs undos l m s t :
  length undos = length bs -> branch l bs ->
  applied_views (ledger_view l) (zip bs undos) (ledger_view (l ++ bs)) ->
  records m l -> last l = Some t -> latest_block s = position t -> chain_work s = ledger_work l ->
  exists s' m', fold_res attach_prepared (s, m) (zip bs undos) = Ok (s', m') /\
    records m' (l ++ bs) /\ utxos m' = utxos m /\ view_metadata m' = view_metadata m /\
    tx_locations m' = foldl (fun locations b => index_block b locations) (tx_locations m) bs /\
    (bs <> [] -> exists t', last (l ++ bs) = Some t' /\ s' = tip_state (l ++ bs) t').
Proof.
  revert undos l m s t. induction bs as [|b bs IH]; intros [|u undos] l m s t Hlen Hbr Hap C Hl Hs Hw;
    cbn [zip zip_with fold_res]; try done.
  { exists s, m. rewrite app_nil_r. done. }
  destruct Hbr as ((Hsh & Hwk & Hsp & Hn) & Hnew & Hfr & Hbr). destruct Hap as (v1 & Ha & Hap).
  pose proof (applied_view_eq _ _ _ _ Ha) as ->. rewrite <-ledger_view_snoc in *.
  replace (l ++ b :: bs) with ((l ++ [b]) ++ bs) in * by (by rewrite <-app_assoc).
  assert (extended_state s b = Ok (tip_state (l ++ [b]) b)) as He.
  { rewrite (extended_state_frame s (tip_state l t)) by done.
    by apply extended_state_spec; [apply C|done|by apply (records_work m)|]. }
  unfold attach_prepared at 2. cbn [fst snd]. rewrite He. cbn [mbind result_bind chain_work tip_state].
  set (index := mk_BlockIndexData _ _ _).
  destruct (put_both_total m b index u Hn) as (m1 & Hput).
  pose proof (put_both_stored _ _ _ _ _ Hput) as Hst. pose proof (put_both_locations _ _ _ _ _ Hput) as Hloc.
  apply bind_Ok in Hput as (m0 & -> & Hput). cbn [mbind result_bind]. rewrite Hput. cbn [mbind result_bind mret result_ret].
  pose proof (records_snoc m l b u m1 C Hsh Hnew Hwk Ha Hfr Hst) as C1.
  destruct (IH undos (l ++ [b]) m1 (tip_state (l ++ [b]) b) b) as (s' & m' & Hfold & C' & Hu & Hmd & Hloc' & Htip);
    [cbn in Hlen; lia|done|done|done|by rewrite last_snoc|done|done|].
  destruct Hst as (Hu1 & _ & _ & _ & _ & _ & Hmd1).
  rewrite Hfold. exists s', m'. split_and!; [done|done|congruence|congruence|by rewrite Hloc', Hloc|]. intros _.
  destruct bs as [|b' bs]; [|by apply Htip].
  exists b. rewrite app_nil_r in *. rewrite last_snoc. split; [done|].
  destruct undos; [|done]. cbn in *. congruence.
Qed.

Lemma canonical_ancestor_ok m l k a :
  records m l -> l !! k = Some a ->
  canonical_ancestor m (block_hash a) =
    Ok (a, mk_BlockIndexData (previous_block_hash (header a)) (Z.of_nat k)
             (ledger_work (take (Datatypes.S k) l))).
Proof.
  intros C Ha. pose proof (chain_height _ _ _ (rc_shape _ _ C) Ha) as Hh. unfold canonical_ancestor.
  cbn [get_block_by_hash get_block_hash_by_height get_block_index read_blocks memory_read memory_block_storage].
  rewrite (rc_blocks _ _ C) by (by apply list_elem_of_lookup_2 in Ha). cbn [mbind result_bind ok_or].
  rewrite Hh, (rc_heights _ _ C), height_lookup_nat, Ha. cbn [fmap option_fmap option_map mbind result_bind ok_or].
  rewrite bool_decide_eq_true_2 by done. cbn [ensure mbind result_bind negb].
  rewrite (rc_indexes _ _ C k a Ha). cbn [mbind result_bind ok_or index_height parent_hash].
  rewrite Z.eqb_refl, bool_decide_eq_true_2 by done. done.
Qed.

(** [d] replaces the blocks of [l] above [a], its block [k], by the branch [bs], whose undo
    records are [undos]. *)
Record branch_delta l k a bs undos d : Prop := {
  bd_length : length undos = length bs;
  bd_applied : applied_views (ledger_view (take (Datatypes.S k) l)) (zip bs undos)
    (ledger_view (take (Datatypes.S k) l ++ bs));
  bd_head : Some (expected_head d) = position <$> last l;
  bd_ancestor : common_ancestor d = block_hash a;
  bd_detached : detached d = (position <$> rev (drop (Datatypes.S k) l));
  bd_blocks : delta_blocks d = zip bs undos;
  bd_removed : Forall (fun op => is_Some (ledger_view l !! op)) (delta_removed_utxos d);
  bd_utxos : put_all (remove_all (ledger_view l) (delta_removed_utxos d)) (delta_utxos d) =
    ledger_view (take (Datatypes.S k) l ++ bs);
}.

(** Committing such a delta on a store of [l]. *)
Lemma reorganize_memory m l k a bs undos d :
  refines m l -> l !! k = Some a -> bs <> [] -> branch (take (Datatypes.S k) l) bs -> branch_delta l k a bs undos d ->
  exists m' t', apply_transition m (TReorganize d) =
      Ok (mk_ChainTransitionResult (position t') (ledger_work (take (Datatypes.S k) l ++ bs)) (detached d), m') /\
    last (take (Datatypes.S k) l ++ bs) = Some t' /\ refines m' (take (Datatypes.S k) l ++ bs) /\
    tx_locations m' = relocate (rev (drop (Datatypes.S k) l)) bs (tx_locations m).
Proof.
  intros R Ha Hne Hbr [Hlen Hap Hhead Hanc Hdet Hblocks Hrem Hput].
  pose proof (rf_records _ _ R) as C. destruct (rf_state _ _ R) as (t & Hl & Hst).
  rewrite Hl in Hhead. injection Hhead as Hhead.
  pose proof (chain_height _ _ _ (rc_shape _ _ C) Ha) as Hh.
  pose proof (last_position _ _ (rc_shape _ _ C) Hl) as Hht.
  assert (k < length l)%nat as Hk by (by apply lookup_lt_Some in Ha).
  unfold apply_transition. cbn [chain_state memory_stats read_stats memory_read mbind result_bind].
  rewrite Hst. unfold stage_reorganization. cbn [ok_or mbind result_bind].
  rewrite (refines_verify _ _ _ R Hl). cbn [mbind result_bind tip_state latest_block].
  rewrite Hhead, (bool_decide_eq_true_2 (position t = position t)) by done.
  cbn [ensure mbind result_bind].
  rewrite Hanc, (canonical_ancestor_ok m l k a C Ha). cbn [mbind result_bind].
  unfold detach_to_ancestor. cbn [tip_state latest_block position fst].
  destruct (detach_loop_ok m l k a C Ha (length l - Datatypes.S k)
    (Z.to_nat (height (header t) - height (header a))) m t []) as (m2 & Hloop & Hs2 & Hh2 & Hl2).
  { lia. }
  { rewrite <-(last_lookup_nat _ _ Hl). f_equal. lia. }
  { done. }
  { intros h. rewrite take_ge by lia. apply C. }
  rewrite <-Hh in Hloop. rewrite Hloop. cbn [mbind result_bind mret result_ret fst snd app].
  rewrite take_ge in Hl2 |- * by (rewrite length_drop; lia). rewrite Hdet.
  match goal with |- context [bool_decide (?x = ?x)] => rewrite (bool_decide_eq_true_2 (x = x)) by done end.
  assert (delta_blocks d <> []) as Hdne.
  { rewrite Hblocks. destruct bs as [|b bs]; [done|]. destruct undos; done. }
  rewrite (bool_decide_eq_false_2 (delta_blocks d = [])) by done.
  cbn [andb negb ensure mbind result_bind index_chain_work].
  assert (records m2 (take (Datatypes.S k) l)) as C2 by (by apply (records_prefix m); [done|lia|..]).
  pose proof (remove_view (S := MemoryView) m2 (delta_removed_utxos d)) as Hr.
  cbn [utxo_view memory_read_laws write_read_laws memory_write_laws] in Hr.
  destruct Hs2 as (Hu2 & Hb2 & Hix2 & Hun2 & Hst2 & Hmd2). rewrite Hu2, (rf_utxos _ _ R) in Hr.
  rewrite (proj2 (first_missing_None _ _) Hrem) in Hr. destruct Hr as (m3 & Hr & Hv3).
  cbn [batch_remove_utxos batch_put_utxos write_utxos memory_write memory_utxo_write] in Hr |- *.
  rewrite Hr. cbn [mbind result_bind].
  unfold memory_batch_remove_utxos in Hr. apply bind_Ok in Hr as (x0 & _ & Hr). injection Hr as <-.
  unfold memory_batch_put_utxos. cbn [mbind result_bind].
  match goal with |- context [fold_res attach_prepared (?s0, ?m0) _] => set (st0 := s0); set (m4 := m0) end.
  assert (last (take (Datatypes.S k) l) = Some a) as Hla by (rewrite (take_S_r _ _ _ Ha); apply last_snoc).
  rewrite Hblocks.
  destruct (attach_prepared_ok bs undos (take (Datatypes.S k) l) m4 st0 a)
    as (s' & m' & -> & C' & Hu' & Hmd' & Hloc' & Htip); [done|done|done|by apply (records_eq m2)|done|done|done|].
  destruct (Htip Hne) as (t' & Hlt' & ->). cbn. eexists _, t'. split; [reflexivity|]. split; [done|].
  assert (tx_locations m' = relocate (rev (drop (Datatypes.S k) l)) bs (tx_locations m)) as Hl'
    by (rewrite Hloc'; unfold m4; cbn; by rewrite Hl2).
  split; [|exact Hl']. split.
  - by apply (records_eq m').
  - cbn. rewrite Hl'. apply located_relocate; [apply C|apply C'|apply R].
  - cbn. rewrite Hu'. unfold m4. cbn. cbn in Hv3. rewrite Hv3. exact Hput.
  - exists t'. done.
  - cbn. rewrite Hmd'. unfold m4. cbn. rewrite Hmd2. apply R.
Qed.
End Branches.

Section OverlayOnMemory.
Context {X : Externals}.
Implicit Types (m : MemoryView) (l : list Block) (ov : ForkDbOverlay MemoryView).

(** Rewinding an overlay over a canonical chain succeeds down to the ancestor. *)
Lemma rewinds_total m l k a ov :
  records m l -> l !! k = Some a -> base ov = m -> ov_blocks ov = ∅ ->
  ov_common_ancestor ov = position a ->
  forall (j : nat) t ov1, l !! (k + j)%nat = Some t ->
    base ov1 = m -> ov_blocks ov1 = ∅ -> ov_common_ancestor ov1 = position a ->
    rewind_tip ov1 = position t -> overlay_view ov1 = ledger_view (take (Datatypes.S (k + j)) l) ->
    exists bl ov2, rewinds ov1 bl ov2 /\ bl.*1 = rev (take j (drop (Datatypes.S k) l)) /\
      rewind_tip ov2 = position a /\ overlay_view ov2 = ledger_view (take (Datatypes.S k) l).
Proof.
  intros C Ha _ _ _. induction j as [|j IH]; intros t ov1 Ht Hb Hbl Hca Hrt Hv.
  { rewrite Nat.add_0_r in *. rewrite Ha in Ht. injection Ht as <-.
    exists [], ov1. split_and!; try done. constructor. }
  pose proof (chain_height _ _ _ (rc_shape _ _ C) Ht) as Hh.
  pose proof (chain_height _ _ _ (rc_shape _ _ C) Ha) as Hha.
  destruct (rc_undos _ _ C _ _ Ht ltac:(lia)) as (u & Hu & Happ & Hfr).
  assert (is_Some (l !! (k + j)%nat)) as [p Hp].
  { apply lookup_lt_is_Some. apply lookup_lt_Some in Ht. lia. }
  assert (position p = (height (header t) - 1, previous_block_hash (header t))) as Hpos.
  { unfold position. rewrite (chain_height _ _ _ (rc_shape _ _ C) Hp), Hh.
    rewrite (chain_parent l (k + j) t p (rc_shape _ _ C)); [f_equal; lia| |done]. rewrite <-Ht. f_equal. lia. }
  assert (@get_block_by_hash MemoryView read_blocks (base ov1) (rewind_tip ov1).2 = Ok (Some t)) as Hget.
  { rewrite Hb, Hrt. cbn. by rewrite (rc_blocks _ _ C) by (by apply list_elem_of_lookup_2 in Ht). }
  assert (@get_block_undo MemoryView read_undo (base ov1) (rewind_tip ov1).2 = Ok (Some u)) as Hgu.
  { rewrite Hb, Hrt. cbn. by rewrite Hu. }
  assert (exists ov', overlay_rewind_block ov1 = Ok ov') as [ov' Hrw].
  { unfold overlay_rewind_block. rewrite Hbl, bool_decide_eq_true_2 by done.
    rewrite Hrt, Hca. cbn [position fst snd negb orb]. rewrite (proj2 (Z.leb_gt _ _)) by lia.
    rewrite Hrt in Hget, Hgu. cbn [position snd] in Hget, Hgu. rewrite Hget, Hgu.
    cbn [ok_or mbind result_bind]. rewrite bool_decide_eq_true_2, Z.eqb_refl by done.
    cbn [andb ensure mbind result_bind].
    assert (@get_block_hash_by_height MemoryView read_blocks (base ov1) (height (header t)) = Ok (Some (block_hash t))) as ->.
    { rewrite Hb. cbn. rewrite (rc_heights _ _ C), Hh, height_lookup_nat, Ht. done. }
    cbn [mbind result_bind]. rewrite bool_decide_eq_true_2 by done. cbn [ensure mbind result_bind ok_or].
    pose proof (rewind_view (S := ForkDbOverlay MemoryView) u ov1) as Hrv.
    cbn [utxo_view write_read_laws overlay_write_laws overlay_read_laws] in Hrv. rewrite Hv in Hrv.
    rewrite (rewound_present _ _ _ _ Happ) in Hrv. destruct Hrv as (ov' & Hr & _).
    change (rewind_block u ov1) with (rewind_block u ov1) in Hr. rewrite Hr. cbn. eauto. }
  pose proof (overlay_rewind_Ok _ _ Hrw) as (_ & _ & b' & u' & Hb' & _ & _ & _ & Hu' & Hview & uu & r & Hov).
  rewrite Hget in Hb'. injection Hb' as <-. rewrite Hgu in Hu'. injection Hu' as <-.
  rewrite Hv, (rewound_fresh _ _ _ _ Happ Hfr) in Hview.
  destruct (IH p ov') as (bl & ov2 & Hrws & Hfst & Htip & Hv2); [done|by rewrite Hov|by rewrite Hov|by rewrite Hov| | |].
  { rewrite Hov. cbn. rewrite Hrt. cbn. by rewrite Hpos. }
  { rewrite Hview. f_equal. f_equal. lia. }
  exists ((t, u) :: bl), ov2. split_and!; [by eapply rewinds_step| |done|done].
  cbn. rewrite Hfst. rewrite (rev_take_S _ _ t); [done|]. rewrite lookup_drop, <-Ht. f_equal. lia.
Qed.

(** Replaying a branch succeeds. *)
Lemma replays_total l bs ov t :
  branch l bs -> last l = Some t -> rewind_tip ov = ov_common_ancestor ov ->
  branch_tip ov = position t -> overlay_view ov = ledger_view l -> chain_shape l ->
  exists ov', fold_res overlay_replay_block ov bs = Ok ov' /\ overlay_view ov' = ledger_view (l ++ bs).
Proof.
  revert l ov t. induction bs as [|b bs IH]; intros l ov t; cbn [branch fold_res].
  { intros. exists ov. by rewrite app_nil_r. }
  intros ((Hsh & Hwk & Hsp & Hn) & Hnew & Hfr & Hbr) Hl Hrt Hbt Hv Hs.
  pose proof (proj1 (chain_shape_snoc l b t Hs Hl) Hsh) as (Hp & Hh & Hg & Ht & Hlt).
  assert (verify_genesis_work_shape b = Ok tt) as Hshape.
  { apply verify_shape_Ok. by rewrite Hg. }
  pose proof (apply_block_cases (S := ForkDbOverlay MemoryView) b ov) as Hc.
  destruct (apply_block b ov) as [[u ov1]|e] eqn:Ha.
  2: { exfalso. destruct Hc as (op & Hop & _ & Hwhy). destruct Hsp as [Hnd Hall].
       cbn [utxo_view write_read_laws overlay_write_laws overlay_read_laws] in Hwhy. rewrite Hv in Hwhy.
       destruct Hwhy as [Hwhy|Hwhy]; [|done]. rewrite Forall_forall in Hall.
       destruct (Hall op Hop). congruence. }
  unfold applied in Hc. cbn [utxo_view write_read_laws overlay_write_laws overlay_read_laws] in Hc.
  apply applied_view_eq in Hc. rewrite Hv, <-ledger_view_snoc in Hc.
  assert (overlay_replay_block ov b = Ok (mk_ForkDbOverlay (base ov1) (ov_common_ancestor ov1)
    (ov_expected_head ov1) (rewind_tip ov1) (height (header b), block_hash b) (ov_utxos ov1) (removed_utxos ov1)
    (<[block_hash b := (b, u)]> (ov_blocks ov1)) (<[height (header b) := block_hash b]> (ov_heights ov1))
    (ov_detached ov1))) as Hone.
  { unfold overlay_replay_block. rewrite Hshape. cbn [map_err mbind result_bind].
    change (header_is_genesis (header b)) with (is_genesis b). rewrite Hg, Hrt, Hbt.
    rewrite (bool_decide_eq_true_2 (ov_common_ancestor ov = ov_common_ancestor ov)) by done.
    rewrite (proj2 (Z.eqb_neq _ _) Ht). cbn [position fst snd negb orb].
    rewrite (bool_decide_eq_true_2 (previous_block_hash (header b) = block_hash t)) by done.
    rewrite (bool_decide_eq_true_2 (checked_add 64 _ 1 = _)) by (apply checked_add_Some; lia).
    cbn [negb orb]. rewrite Ha. done. }
  pose proof (overlay_replay_Ok _ _ _ Hone) as (_ & _ & _ & _ & _ & _ & u' & _ & uu & r & Hov).
  rewrite Hone. cbn [mbind result_bind].
  destruct (IH (l ++ [b]) (mk_ForkDbOverlay (base ov1) (ov_common_ancestor ov1)
    (ov_expected_head ov1) (rewind_tip ov1) (height (header b), block_hash b) (ov_utxos ov1) (removed_utxos ov1)
    (<[block_hash b := (b, u)]> (ov_blocks ov1)) (<[height (header b) := block_hash b]> (ov_heights ov1))
    (ov_detached ov1)) b) as (ov' & Hf & Hv'); [done|by rewrite last_snoc| |done| |done|].
  - injection Hov as H1 H2 H3 H4 H5 H6 H7 H8 H9. cbn. by rewrite H2, H4.
  - exact Hc.
  - exists ov'. split; [exact Hf|]. by rewrite Hv', <-app_assoc.
Qed.
End OverlayOnMemory.

Section Reorganize.
Context {X : Externals}.
Implicit Types (m : MemoryView) (l : list Block).

Lemma applied_views_ledger bs undos l v :
  length undos = length bs -> applied_views (ledger_view l) (zip bs undos) v -> v = ledger_view (l ++ bs).
Proof.
  revert undos l. induction bs as [|b bs IH]; intros [|u undos] l Hlen; cbn; try done.
  { intros ->. by rewrite app_nil_r. }
  intros (v1 & Ha & Hap). apply applied_view_eq in Ha as ->. rewrite <-ledger_view_snoc in Hap.
  apply IH in Hap; [|cbn in Hlen; lia]. by rewrite <-app_assoc in Hap.
Qed.

Lemma zip_fst_rev (bl : list (Block * BlockUndo)) :
  (fun e : Block * BlockUndo => (height (header e.1), block_hash e.1)) <$> bl = position <$> bl.*1.
Proof. rewrite <-list_fmap_compose. done. Qed.

(** An overlay on a store representing [l], created at a block of [l] and rewound over all
    the blocks above it, tip first, shows the ledger that ends at that block. *)
Lemma overlay_at_ancestor m l k a t :
  refines m l -> l !! k = Some a -> last l = Some t ->
  exists ov0 bl ov1,
    overlay_new m (block_hash a) = Ok ov0 /\ rewinds ov0 bl ov1 /\
    bl.*1 = rev (drop (Datatypes.S k) l) /\
    rewind_tip ov0 = position t /\ ov_common_ancestor ov0 = position a /\
    overlay_view ov1 = ledger_view (take (Datatypes.S k) l) /\
    base ov1 = m /\ ov_common_ancestor ov1 = position a /\ ov_expected_head ov1 = position t /\
    rewind_tip ov1 = position a /\ branch_tip ov1 = position a /\
    ov_blocks ov1 = ∅ /\ ov_detached ov1 = (position <$> rev (drop (Datatypes.S k) l)).
Proof.
  intros R Ha Hl. pose proof (rf_records _ _ R) as C. destruct (rf_state _ _ R) as (t0 & Hl0 & Hst).
  rewrite Hl in Hl0. injection Hl0 as <-.
  pose proof (chain_height _ _ _ (rc_shape _ _ C) Ha) as Hha.
  pose proof (last_position _ _ (rc_shape _ _ C) Hl) as Hht.
  assert (k < length l)%nat as Hk by (by apply lookup_lt_Some in Ha).
  assert (overlay_new m (block_hash a) =
    Ok (mk_ForkDbOverlay m (position a) (position t) (position t) (position a) ∅ ∅ ∅ ∅ [])) as Hnew.
  { unfold overlay_new, tip, stat.
    cbn [get_block_by_hash get_block_hash_by_height chain_state read_blocks read_stats memory_read
      memory_block_storage memory_stats].
    rewrite (rc_blocks _ _ C) by (by apply list_elem_of_lookup_2 in Ha). rewrite Hst.
    cbn [mbind result_bind ok_or mret result_ret tip_state latest_block position fst].
    rewrite (bool_decide_eq_true_2 (block_hash a = block_hash a)) by done. rewrite (proj2 (Z.ltb_ge _ _)) by lia.
    cbn [ensure mbind result_bind negb].
    rewrite (rc_heights _ _ C), Hha, height_lookup_nat, Ha. cbn [fmap option_fmap option_map].
    rewrite bool_decide_eq_true_2 by done. cbn. unfold position. by rewrite Hha. }
  destruct (rewinds_total m l k a (mk_ForkDbOverlay m (position a) (position t) (position t) (position a) ∅ ∅ ∅ ∅ [])
    C Ha eq_refl eq_refl eq_refl (length l - Datatypes.S k) t
    (mk_ForkDbOverlay m (position a) (position t) (position t) (position a) ∅ ∅ ∅ ∅ []))
    as (bl & ov1 & Hrw & Hfst & Htip1 & Hv1); [|done|done|done|done| |].
  { rewrite <-(last_lookup_nat _ _ Hl). f_equal. lia. }
  { rewrite (overlay_new_view _ _ _ Hnew). cbn [utxo_view memory_read_laws]. rewrite (rf_utxos _ _ R).
    by rewrite take_ge by lia. }
  rewrite (take_ge (drop _ _)) in Hfst by (rewrite length_drop; lia).
  pose proof (rewinds_Ok _ _ _ Hrw) as (_ & Hbase1 & Hca1 & Heh1 & Hbt1 & Hbl1 & _ & Hdet1 & _).
  cbn in Hbase1, Hca1, Heh1, Hbt1, Hbl1, Hdet1.
  eexists _, bl, ov1. split_and!; try done. by rewrite Hdet1, zip_fst_rev, Hfst.
Qed.

(** From such an overlay any non-empty branch is replayed, and storage accepts the delta. *)
Lemma reorganize_prepared m l k a t bs ov1 :
  refines m l -> l !! k = Some a -> last l = Some t -> bs <> [] -> branch (take (Datatypes.S k) l) bs ->
  overlay_view ov1 = ledger_view (take (Datatypes.S k) l) ->
  base ov1 = m -> ov_common_ancestor ov1 = position a -> ov_expected_head ov1 = position t ->
  rewind_tip ov1 = position a -> branch_tip ov1 = position a ->
  ov_blocks ov1 = ∅ -> ov_detached ov1 = (position <$> rev (drop (Datatypes.S k) l)) ->
  exists ov2 d m' t',
    fold_res overlay_replay_block ov1 bs = Ok ov2 /\ into_delta ov2 = Ok d /\
    last (take (Datatypes.S k) l ++ bs) = Some t' /\
    memory_apply_transition m (TReorganize d) =
      (Ok (mk_ChainTransitionResult (position t') (ledger_work (take (Datatypes.S k) l ++ bs))
             (position <$> rev (drop (Datatypes.S k) l))), m') /\
    refines m' (take (Datatypes.S k) l ++ bs) /\ exists undos, branch_delta l k a bs undos d.
Proof.
  intros R Ha Hl Hne Hbr Hv1 Hbase1 Hca1 Heh1 Htip1 Hbt1 Hbl1 Hdet1. pose proof (rf_records _ _ R) as C.
  destruct (replays_total (take (Datatypes.S k) l) bs ov1 a) as (ov2 & Hrp & Hv2); [done| |congruence|done|done| |].
  { rewrite (take_S_r _ _ _ Ha). apply last_snoc. }
  { apply chain_shape_prefix; [apply C|lia]. }
  pose proof (overlay_replays_Ok _ _ _ Hrp) as (_ & Hext & _ & undos & Hlen & Hap & Hbase & Hca & Heh & Hrt & Hdet & _ & Hbl).
  destruct (branch_nodup _ _ Hbr) as [Hnd _].
  assert (delta_ready ov2) as Hready.
  { split; [congruence|]. rewrite Hbl. apply add_blocks_nonempty. right.
    destruct bs as [|b bs]; [done|]. by destruct undos. }
  pose proof (into_delta_eq _ Hready) as Hd.
  rewrite Hbl, Hbl1, (replayed_blocks_sorted (branch_tip ov1) bs undos Hlen Hext Hnd) in Hd.
  match type of Hd with _ = Ok ?dd => set (d := dd) in * end.
  assert (Some (expected_head d) = position <$> last l) as Hd1 by (rewrite Hl; cbn; congruence).
  assert (common_ancestor d = block_hash a) as Hd2 by (cbn; by rewrite Hca, Hca1).
  assert (detached d = (position <$> rev (drop (Datatypes.S k) l))) as Hd3 by (cbn; by rewrite Hdet, Hdet1).
  assert (delta_blocks d = zip bs undos) as Hd4 by done.
  clearbody d. pose proof (delta_view _ _ Hd) as [Hall Hput].
  rewrite Hv1 in Hap. pose proof (applied_views_ledger _ _ _ _ Hlen Hap) as Hledger.
  rewrite Hledger in Hap, Hput. rewrite Hbase, Hbase1 in Hall, Hput.
  cbn [utxo_view memory_read_laws] in Hall, Hput. rewrite (rf_utxos _ _ R) in Hall, Hput.
  assert (branch_delta l k a bs undos d) as Hbd by (by split).
  destruct (reorganize_memory m l k a bs undos d R Ha Hne Hbr Hbd) as (m' & t' & Happly & Hlast & R' & _).
  exists ov2, d, m', t'. split_and!; try done; [|by exists undos].
  unfold memory_apply_transition, update. by rewrite Happly, Hd3.
Qed.

(** C3: a reorganization prepared from the current chain always commits, and refines the
    ledger. On a store representing [l], for any ancestor in [l] and any non-empty branch
    of acceptable blocks on top of it: the overlay can be created, rewound exactly over
    the blocks above the ancestor, tip first, and the branch replayed; the delta it
    yields is accepted by storage, and the store then represents the prefix up to the
    ancestor followed by the branch, so its UTXO set is the one of having appended the
    branch in the first place. The detached blocks and the new head are reported. *)
Theorem reorganization_refines_ledger m l k a bs :
  refines m l -> l !! k = Some a -> bs <> [] -> branch (take (Datatypes.S k) l) bs ->
  exists ov0 bl ov1 ov2 d m' t',
    overlay_new m (block_hash a) = Ok ov0 /\
    rewinds ov0 bl ov1 /\ bl.*1 = rev (drop (Datatypes.S k) l) /\
    fold_res overlay_replay_block ov1 bs = Ok ov2 /\ into_delta ov2 = Ok d /\
    last (take (Datatypes.S k) l ++ bs) = Some t' /\
    memory_apply_transition m (TReorganize d) =
      (Ok (mk_ChainTransitionResult (position t') (ledger_work (take (Datatypes.S k) l ++ bs))
             (position <$> rev (drop (Datatypes.S k) l))), m') /\
    refines m' (take (Datatypes.S k) l ++ bs).
Proof.
  intros R Ha Hne Hbr. destruct (rf_state _ _ R) as (t & Hl & _).
  destruct (overlay_at_ancestor m l k a t R Ha Hl)
    as (ov0 & bl & ov1 & Hnew & Hrw & Hfst & _ & _ & Hv & Hb & Hca & Heh & Hrt & Hbt & Hbl & Hdet).
  destruct (reorganize_prepared m l k a t bs ov1 R Ha Hl Hne Hbr Hv Hb Hca Heh Hrt Hbt Hbl Hdet)
    as (ov2 & d & m' & t' & Hrp & Hd & Hlast & Happ & R' & _).
  by exists ov0, bl, ov1, ov2, d, m', t'.
Qed.
End Reorganize.

Section TransitionWitnesses.
Import Toy.

Definition toy_genesis : Block :=
  new_genesis 1 {[ toy_owner := 50 ]}
    (mk_GenesisState (mk_ConsensusConsts (mk_PowParams 10 3600 5 9) 1000 10 10)).
Definition toy_metadata : ChainMetadata := mk_ChainMetadata 2 "toy" 1 0.
Definition toy_block (nonce : Z) : Block :=
  mk_Block (mk_BlockHeader 1 MerkleHash_empty BlockHash_empty 1 5 9 nonce None) [].

Lemma toy_genesis_valid : valid_genesis toy_genesis.
Proof.
  apply validate_genesis_iff. assert (is_ok (validate_genesis toy_genesis) = true) as H
    by (vm_compute; reflexivity).
  destruct (validate_genesis toy_genesis) as [[]|]; [reflexivity|discriminate H].
Qed.

Lemma toy_genesis_hash : block_hash toy_genesis = BlockHash_empty.
Proof. unfold block_hash, toy_genesis. by rewrite new_genesis_is_genesis. Qed.

Lemma toy_appendable n : n = 0 \/ n = 1 -> appendable [toy_genesis] (toy_block n) /\
  block_hash (toy_block n) ∉ (block_hash <$> [toy_genesis]) /\
  fresh_outputs (toy_block n) (ledger_view [toy_genesis]).
Proof.
  intros Hn. assert (block_effect (toy_block n) = (∅, [])) as Heff by reflexivity. split_and!.
  - split_and!.
    + apply (chain_shape_snoc [toy_genesis] _ toy_genesis);
        [split_and!; [reflexivity|by apply verify_shape_Ok|done|constructor]|done|].
      rewrite toy_genesis_hash. split_and!; done.
    + destruct Hn as [-> | ->]; vm_compute; reflexivity.
    + unfold spendable. rewrite Heff. split; [apply NoDup_nil_2|apply Forall_nil_2].
    + cbn. lia.
  - change (block_hash <$> [toy_genesis]) with [block_hash toy_genesis].
    rewrite toy_genesis_hash, list_elem_of_singleton.
    destruct Hn as [-> | ->]; apply (bool_decide_unpack _); vm_compute; exact I.
  - intros op. rewrite Heff. cbn [fst]. rewrite dom_empty_L. intros Hin. destruct (not_elem_of_empty op Hin).
Qed.

Lemma append_refines_ledger_witness :
  exists m m' r, refines m [toy_genesis] /\
    memory_apply_transition m (TAppend (toy_block 0)) = (Ok r, m') /\
    refines m' [toy_genesis; toy_block 0].
Proof.
  destruct (genesis_init toy_genesis toy_metadata toy_genesis_valid) as (m & _ & R & _).
  destruct (toy_appendable 0 (or_introl eq_refl)) as (Happ & Hnew & Hfresh).
  pose proof (append_refines_ledger m [toy_genesis] (toy_block 0) R Hnew Hfresh) as H.
  destruct (memory_apply_transition m (TAppend (toy_block 0))) as [[r|e] m'] eqn:Ht.
  - exists m, m', r. destruct H as (_ & R' & _). exact (conj R (conj Ht R')).
  - exfalso. exact (proj1 H Happ).
Defined.

Lemma reorganization_refines_ledger_witness :
  exists m d r m', refines m [toy_genesis; toy_block 0] /\
    memory_apply_transition m (TReorganize d) = (Ok r, m') /\ refines m' [toy_genesis; toy_block 1].
Proof.
  destruct (genesis_init toy_genesis toy_metadata toy_genesis_valid) as (m0 & _ & R0 & _).
  destruct (toy_appendable 0 (or_introl eq_refl)) as (Happ & Hnew & Hfresh).
  pose proof (append_memory m0 [toy_genesis] (toy_block 0) R0 Hnew Hfresh) as H0.
  destruct (apply_transition m0 (TAppend (toy_block 0))) as [[r0 m]|e]; [|destruct (H0 Happ)].
  destruct H0 as (_ & R & _). destruct (toy_appendable 1 (or_intror eq_refl)) as (Happ1 & Hnew1 & Hfresh1).
  destruct (reorganization_refines_ledger m [toy_genesis; toy_block 0] 0 toy_genesis [toy_block 1] R eq_refl
    ltac:(discriminate) (conj Happ1 (conj Hnew1 (conj Hfresh1 I))))
    as (ov0 & bl & ov1 & ov2 & d & m' & t' & _ & _ & _ & _ & _ & _ & Ht & R').
  eexists m, d, _, m'. exact (conj R (conj Ht R')).
Defined.
End TransitionWitnesses.
