(* ===== verification/TxIndex.v ===== *)
(** TxIndex: the transaction index of the in-memory backend along the history of its chain. *)
From S2P Require Import Prelude Bytes Types Externals Hashing Work Transactions Blocks Storage UtxoProcessor Overlay Transition.

Section TxIndex.
Context {X : Externals}.
Implicit Types (m : MemoryView) (l : list Block) (locations : gmap TransactionHash TransactionIndexData).

(** A confirmed transaction, with its place on a chain. *)
Definition confirmed_on l (hash : TransactionHash) (c : ConfirmedTransaction) : Prop :=
  exists i b j, l !! i = Some b /\ transactions b !! j = Some (transaction c) /\
    tx_hash (tx_data (transaction c)) = hash /\
    location c = mk_TransactionIndexData (block_hash b) (Z.of_nat i) (Z.of_nat j).

(** No transaction occurs twice. *)
Definition unique_ids l : Prop :=
  forall hash x y, location_on l hash x -> location_on l hash y -> x = y.

Lemma location_on_app l k hash location : location_on l hash location -> location_on (l ++ k) hash location.
Proof. intros (i & b & j & t & Hi & Hrest). exists i, b, j, t. split; [by apply lookup_app_l_Some|done]. Qed.

Lemma unique_ids_app l k : unique_ids (l ++ k) -> unique_ids l.
Proof. intros Hu hash x y Hx Hy. by apply (Hu hash); apply location_on_app. Qed.

(** A sound index of a chain without repetitions is complete when it has an entry for each
    of the chain's transactions. *)
Lemma indexes_all_dom l locations :
  unique_ids l -> located l locations ->
  (forall hash x, location_on l hash x -> is_Some (locations !! hash)) -> indexes_all l locations.
Proof.
  intros Hu Hl Hd hash x Hx. destruct (Hd _ _ Hx) as [y Hy]. rewrite Hy. f_equal. by apply (Hu hash); [apply Hl|].
Qed.

Lemma index_block_dom b locations hash :
  is_Some (locations !! hash) \/ hash ∈ ((fun t => tx_hash (tx_data t)) <$> transactions b) ->
  is_Some (index_block b locations !! hash).
Proof.
  unfold index_block.
  replace ((fun t => tx_hash (tx_data t)) <$> transactions b)
    with ((fun e => tx_hash (tx_data e.2)) <$> imap (fun i t => (i, t)) (transactions b)).
  2: { rewrite fmap_imap. generalize (transactions b) as ts. clear.
       intros ts. apply list_eq. intros i. rewrite list_lookup_imap, list_lookup_fmap. by destruct (ts !! i). }
  generalize (imap (fun i t => (i, t)) (transactions b)) as entries. intros entries. revert locations.
  induction entries as [|e entries IH]; intros locations; cbn [foldl fmap list_fmap].
  { intros [H|H]; [done|]. by apply not_elem_of_nil in H. }
  intros H. apply IH. destruct (decide (tx_hash (tx_data e.2) = hash)) as [Heq|Hne]; [left; rewrite Heq, lookup_insert_eq; by eexists|].
  rewrite lookup_insert_ne by done. destruct H as [H|H]; [by left|]. apply elem_of_cons in H as [H|H]; [by destruct Hne|by right].
Qed.

Lemma indexes_all_snoc l b locations :
  chain_shape (l ++ [b]) -> unique_ids (l ++ [b]) -> located l locations -> indexes_all l locations ->
  indexes_all (l ++ [b]) (index_block b locations).
Proof.
  intros Hs Hu Hl Hc. apply indexes_all_dom; [done|by apply located_snoc|].
  intros hash x (i & b' & j & t & Hi & Ht & Hh & ->). apply index_block_dom.
  apply lookup_app_Some in Hi as [Hi|[Hge Hi]].
  - left. rewrite (Hc hash (mk_TransactionIndexData (block_hash b') (Z.of_nat i) (Z.of_nat j))); [by eexists|]. by exists i, b', j, t.
  - right. apply list_lookup_singleton_Some in Hi as [_ ->]. apply list_elem_of_fmap. exists t. split; [done|].
    by apply (list_elem_of_lookup_2 _ j).
Qed.

Lemma indexes_all_unindex l b locations :
  NoDup (block_hash <$> (l ++ [b])) -> indexes_all (l ++ [b]) locations -> indexes_all l (unindex_block b locations).
Proof.
  intros Hnd Hc hash x Hx. pose proof (Hc _ _ (location_on_app _ [b] _ _ Hx)) as H.
  unfold unindex_block. rewrite unindex_fold, H. rewrite decide_False; [done|]. intros [_ Heq]. injection Heq as Heq.
  destruct Hx as (i & b' & j & t & Hi & _ & _ & ->). cbn in Heq. rewrite fmap_app in Hnd.
  apply NoDup_app in Hnd as (_ & Hnd & _). apply (Hnd (block_hash b')).
  - apply list_elem_of_fmap. exists b'. split; [done|]. by apply (list_elem_of_lookup_2 _ i).
  - rewrite Heq. apply list_elem_of_here.
Qed.

Lemma indexes_all_relocate l n bs locations :
  NoDup (block_hash <$> l) -> chain_shape (take n l ++ bs) -> unique_ids (take n l ++ bs) ->
  located l locations -> indexes_all l locations ->
  indexes_all (take n l ++ bs) (relocate (rev (drop n l)) bs locations).
Proof.
  intros Hnd Hs Hu Hl Hc. unfold relocate.
  assert (located (take n l) (foldl (fun locations b => unindex_block b locations) locations (rev (drop n l))) /\
    indexes_all (take n l) (foldl (fun locations b => unindex_block b locations) locations (rev (drop n l)))) as [Hcl Hcc].
  { clear Hs Hu. rewrite <-(take_drop n l) in Hnd, Hl, Hc. revert Hnd Hl Hc. generalize (take n l) as k. generalize (drop n l) as x. clear.
    intros x k. revert locations. induction x as [|b x IH] using rev_ind; intros locations Hnd Hl Hc; [by rewrite app_nil_r in *|].
    rewrite rev_unit. cbn [foldl]. rewrite app_assoc in Hnd, Hl, Hc.
    apply IH; [|by apply located_unindex|by apply indexes_all_unindex]. rewrite fmap_app in Hnd. by apply NoDup_app in Hnd as [? _]. }
  revert Hcl Hcc Hs Hu. generalize (take n l) as k.
  generalize (foldl (fun locations b => unindex_block b locations) locations (rev (drop n l))) as ls.
  clear. induction bs as [|b bs IH]; intros ls k Hcl Hcc Hs Hu; [by rewrite app_nil_r|]. cbn [foldl].
  replace (k ++ b :: bs) with ((k ++ [b]) ++ bs) in * by (by rewrite <-app_assoc).
  assert (chain_shape (k ++ [b])) as Hsk.
  { replace (k ++ [b]) with (take (length (k ++ [b])) ((k ++ [b]) ++ bs)) by (by rewrite take_app_length).
    apply chain_shape_prefix; [done|]. rewrite length_app. cbn. lia. }
  apply IH; [by apply located_snoc| |done|done]. apply indexes_all_snoc; [done|by apply unique_ids_app in Hu|done..].
Qed.

(** ** Lookups *)

(** The body of a located transaction is found, and matches its location. *)
Lemma get_transaction_located m l hash :
  refines m l ->
  match tx_locations m !! hash with
  | Some x => exists c, get_transaction m hash = Ok (Some c) /\ location c = x /\ confirmed_on l hash c
  | None => get_transaction m hash = Ok None
  end.
Proof.
  intros R. cbn. unfold memory_get_transaction. destruct (tx_locations m !! hash) as [x|] eqn:Hx; [|done].
  destruct (rf_located _ _ R _ _ Hx) as (i & b & j & t & Hi & Ht & Hh & ->). pose proof (rf_records _ _ R) as C.
  cbn [location_block_hash location_block_height tx_index].
  rewrite (rc_blocks _ _ C) by (by apply (list_elem_of_lookup_2 _ i)). cbn [ok_or mbind result_bind].
  rewrite Nat2Z.id, Ht. cbn [mbind option_bind]. rewrite option_guard_True; [|by rewrite (chain_height _ _ _ (rc_shape _ _ C) Hi)].
  cbn. eexists. split; [done|]. split; [done|]. by exists i, b, j.
Qed.

Lemma get_transaction_sound m l hash c :
  refines m l -> get_transaction m hash = Ok (Some c) -> confirmed_on l hash c.
Proof.
  intros R Hg. pose proof (get_transaction_located m l hash R) as H.
  destruct (tx_locations m !! hash); [|congruence]. destruct H as (c' & Hc & _ & Ho). congruence.
Qed.

Lemma get_transaction_total m l hash : refines m l -> exists r, get_transaction m hash = Ok r.
Proof.
  intros R. pose proof (get_transaction_located m l hash R) as H.
  destruct (tx_locations m !! hash); [destruct H as (c & H & _)|]; by eexists.
Qed.

Lemma get_transaction_exact m l hash c :
  refines m l -> indexes_all l (tx_locations m) ->
  get_transaction m hash = Ok (Some c) <-> confirmed_on l hash c.
Proof.
  intros R Hc. split; [by apply get_transaction_sound|]. intros (i & b & j & Hi & Ht & Hh & Hx).
  pose proof (get_transaction_located m l hash R) as H.
  rewrite (Hc hash (location c)) in H by (by exists i, b, j, (transaction c)).
  destruct H as (c' & Hg & Hxc & i' & b' & j' & Hi' & Ht' & Hh' & Hx').
  rewrite Hg. do 2 f_equal. rewrite Hxc, Hx in Hx'. injection Hx' as _ Hii Hjj.
  apply Nat2Z.inj in Hii as <-. apply Nat2Z.inj in Hjj as <-. simplify_eq. destruct c, c'. cbn in *. congruence.
Qed.

(** ** Histories *)

(** The stores that transitions lead to from an empty one, and their chains, as long as no
    transaction is on the chain twice. *)
Inductive history : MemoryView -> list Block -> Prop :=
| history_genesis g md r m :
    memory_apply_transition MemoryView_default (TGenesis g md) = (Ok r, m) -> unique_ids [g] -> history m [g]
| history_append m l b r m' :
    history m l -> block_hash b ∉ (block_hash <$> l) -> fresh_outputs b (ledger_view l) -> unique_ids (l ++ [b]) ->
    memory_apply_transition m (TAppend b) = (Ok r, m') -> history m' (l ++ [b])
| history_reorganize m l k a bs undos d r m' :
    history m l -> l !! k = Some a -> bs <> [] -> branch (take (S k) l) bs -> branch_delta l k a bs undos d ->
    unique_ids (take (S k) l ++ bs) ->
    memory_apply_transition m (TReorganize d) = (Ok r, m') -> history m' (take (S k) l ++ bs).

Lemma history_indexed m l : history m l -> refines m l /\ indexes_all l (tx_locations m).
Proof.
  induction 1 as [g md r m Ht Hu|m l b r m' Hh [R Hc] Hnew Hfresh Hu Ht|m l k a bs undos d r m' Hh [R Hc] Ha Hne Hbr Hbd Hu Ht].
  - destruct (validate_genesis g) as [[]|e] eqn:Hv.
    2: { unfold memory_apply_transition, update, apply_transition in Ht. cbn in Ht. unfold stage_genesis in Ht. by rewrite Hv in Ht. }
    apply validate_genesis_iff in Hv. destruct (genesis_init g md Hv) as (m1 & Ha & R & _ & Hloc).
    unfold memory_apply_transition, update in Ht. rewrite Ha in Ht. injection Ht as _ <-. split; [done|]. rewrite Hloc.
    apply (indexes_all_snoc []); [apply R|done| |].
    + intros hash x Hx. by rewrite lookup_empty in Hx.
    + intros hash x (i & b & j & t & Hi & _). by rewrite lookup_nil in Hi.
  - pose proof (append_memory m l b R Hnew Hfresh) as Hm. unfold memory_apply_transition, update in Ht.
    destruct (apply_transition m (TAppend b)) as [[r1 m1]|e]; [|done]. injection Ht as -> ->.
    destruct Hm as (_ & R' & _ & Hloc). split; [done|]. rewrite Hloc.
    apply indexes_all_snoc; [apply R'|done|apply R|done].
  - destruct (reorganize_memory m l k a bs undos d R Ha Hne Hbr Hbd) as (m1 & t' & Hm & _ & R' & Hloc).
    unfold memory_apply_transition, update in Ht. rewrite Hm in Ht. injection Ht as _ <-. split; [done|]. rewrite Hloc.
    apply indexes_all_relocate; [apply R|apply R'|done|apply R|done].
Qed.

(** C21: the transaction index is exact. After any sequence of transitions that starts from an
    empty store and never puts a transaction on the chain twice, looking a transaction up
    never fails, and finds it exactly when it is on the selected chain, with the block, the
    height and the position where it stands; a reorganization included, which hides what it
    detached and shows what it attached. *)
Theorem transaction_index_exact m l hash :
  history m l ->
  exists r, get_transaction m hash = Ok r /\ forall c, r = Some c <-> confirmed_on l hash c.
Proof.
  intros [R Hc]%history_indexed. destruct (get_transaction_total m l hash R) as [r Hr]. exists r. split; [done|].
  intros c. rewrite <-(get_transaction_exact m l hash c R Hc), Hr. split; [by intros ->|by intros [= ->]].
Qed.
End TxIndex.

Section TxIndexWitness.
Import Toy.

Lemma toy_unique n : unique_ids [toy_genesis; toy_block n].
Proof.
  assert (forall hash x, location_on [toy_genesis; toy_block n] hash x ->
    x = mk_TransactionIndexData (block_hash toy_genesis) 0 0) as H.
  { intros hash x (i & b & j & t & Hi & Ht & _ & ->). destruct i as [|[|]]; [| |done].
    - injection Hi as <-. destruct j as [|j]; [done|]. change (([] : list Transaction) !! j = Some t) in Ht.
      by rewrite lookup_nil in Ht.
    - injection Hi as <-. change (([] : list Transaction) !! j = Some t) in Ht. by rewrite lookup_nil in Ht. }
  intros hash x y Hx Hy. by rewrite (H _ _ Hx), (H _ _ Hy).
Qed.

Lemma toy_history : exists m, history m [toy_genesis; toy_block 1].
Proof.
  destruct (genesis_init toy_genesis toy_metadata toy_genesis_valid) as (m0 & H0 & R0 & _).
  assert (history m0 [toy_genesis]) as Hh0.
  { eapply (history_genesis toy_genesis toy_metadata); [unfold memory_apply_transition, update; by rewrite H0|].
    apply (unique_ids_app _ [toy_block 0]), toy_unique. }
  destruct (toy_appendable 0 (or_introl eq_refl)) as (Happ & Hnew & Hfresh).
  pose proof (append_memory m0 [toy_genesis] (toy_block 0) R0 Hnew Hfresh) as H1.
  destruct (apply_transition m0 (TAppend (toy_block 0))) as [[r1 m1]|e] eqn:Ht1; [|destruct (H1 Happ)].
  destruct H1 as (_ & R1 & _).
  assert (history m1 [toy_genesis; toy_block 0]) as Hh1.
  { apply (history_append m0 [toy_genesis] _ r1 m1 Hh0 Hnew Hfresh (toy_unique 0)).
    unfold memory_apply_transition, update. by rewrite Ht1. }
  destruct (toy_appendable 1 (or_intror eq_refl)) as (Happ1 & Hnew1 & Hfresh1).
  destruct (overlay_at_ancestor m1 _ 0 toy_genesis (toy_block 0) R1 eq_refl eq_refl)
    as (ov0 & bl & ov1 & _ & _ & _ & _ & _ & Hv & Hb & Hca & Heh & Hrt & Hbt & Hbl & Hdet).
  destruct (reorganize_prepared m1 _ 0 toy_genesis (toy_block 0) [toy_block 1] ov1 R1 eq_refl eq_refl
    ltac:(discriminate) (conj Happ1 (conj Hnew1 (conj Hfresh1 I))) Hv Hb Hca Heh Hrt Hbt Hbl Hdet)
    as (ov2 & d & m' & t' & _ & _ & _ & Ht & _ & undos & Hbd).
  exists m'. exact (history_reorganize m1 _ 0 toy_genesis [toy_block 1] undos d _ m' Hh1 eq_refl
    ltac:(discriminate) (conj Happ1 (conj Hnew1 (conj Hfresh1 I))) Hbd (toy_unique 1) Ht).
Qed.

Lemma transaction_index_exact_witness :
  exists (m : MemoryView) t, transactions toy_genesis = [t] /\
    get_transaction m (tx_hash (tx_data t)) =
      Ok (Some (mk_ConfirmedTransaction t (mk_TransactionIndexData (block_hash toy_genesis) 0 0))).
Proof.
  destruct toy_history as [m Hm]. destruct (transactions toy_genesis) as [|t ts] eqn:Ht; [discriminate Ht|].
  exists m, t. injection Ht as Ht <-.
  destruct (transaction_index_exact m _ (tx_hash (tx_data t)) Hm) as (r & Hr & Hc). split; [reflexivity|].
  rewrite Hr. f_equal. apply Hc. exists 0%nat, toy_genesis, 0%nat. rewrite <-Ht. split_and!; reflexivity.
Defined.
End TxIndexWitness.
