(* ===== verification/Difficulty.v ===== *)
(** Difficulty: reading branch headers, the median time past and the required hash
    threshold of the next block ([difficulty.rs]), and their values on a stored chain. *)
From S2P Require Import Prelude Bytes Types Externals Hashing Work Transactions Blocks Storage UtxoProcessor Overlay Transition.

Definition MAX_FUTURE_BLOCK_TIME_SECS : Z := 120.

Record DifficultyCalc := mk_DifficultyCalc { params : PowParams }.

(** [DifficultyCalc::new] *)
Definition DifficultyCalc_new (p : PowParams) : result StryiCoreError DifficultyCalc :=
  _ ← PowParams_validate p;
  mret (mk_DifficultyCalc p).

(** [verify_anchor] *)
Definition verify_anchor (calc : DifficultyCalc) (anchor : BlockHeader) : result StryiCoreError unit :=
  _ ← verify_genesis_header_work_shape anchor;
  _ ← ensure (negb (header_is_genesis anchor))
        (ConsensusValidationFailed "anchor block cannot have genesis shape");
  _ ← ensure (height anchor =? 1)
        (ConsensusValidationFailed "anchor block height is {anchor.height}, expected 1");
  _ ← ensure (bool_decide (previous_block_hash anchor = BlockHash_empty))
        (ConsensusValidationFailed "anchor block must have empty previous block hash");
  ensure (hash_threshold anchor =? initial_hash_threshold (params calc))
    (ConsensusValidationFailed "anchor block must use initial hash threshold").

Section Difficulty.
Context {S : Type} `{BlockStorage S}.

Abbreviation block_error := (CoreStorageError LBlock).

(** [read_required_header] *)
Definition read_required_header (state : S) (hash : BlockHash) : result StryiCoreError BlockHeader :=
  found ← map_err block_error (get_block_header_by_hash state hash);
  ok_or found (ConsensusValidationFailed "block {hash} is missing from the branch view").

(** [read_required_header_by_height] *)
Definition read_required_header_by_height (state : S) (h : Z) :
    result StryiCoreError (BlockHash * BlockHeader) :=
  found ← map_err block_error (get_block_hash_by_height state h);
  hash ← ok_or found (ConsensusValidationFailed "block at height {height} is missing from the branch view");
  header ← read_required_header state hash;
  _ ← ensure (height header =? h)
        (block_error (Corruption "block height does not match storage key {height}"));
  mret (hash, header).

(** The loop of [median_time_past]: [slots] is the number of free entries of the
    eleven-element array, so the loop stops when the last one is filled. *)
Fixpoint collect_timestamps (slots : nat) (state : S) (cursor : BlockHeader) :
    result StryiCoreError (list Z) :=
  _ ← verify_genesis_header_work_shape cursor;
  _ ← ensure (negb (negb (header_is_genesis cursor) && (height cursor =? 0)))
        (ConsensusValidationFailed "normal ancestor has height zero");
  match slots with
  | O => Ok [timestamp cursor]
  | Datatypes.S slots =>
      if header_is_genesis cursor then Ok [timestamp cursor]
      else
        previous ← read_required_header state (previous_block_hash cursor);
        _ ← ensure (bool_decide (checked_add 64 (height previous) 1 = Some (height cursor)))
              (ConsensusValidationFailed "broken timestamp ancestry");
        rest ← collect_timestamps slots state previous;
        mret (timestamp cursor :: rest)
  end.

(** [median_time_past]: ten more entries after the parent's. *)
Definition median_time_past (state : S) (parent : BlockHash) : result StryiCoreError Z :=
  cursor ← read_required_header state parent;
  timestamps ← collect_timestamps 10 state cursor;
  mret (default 0 (merge_sort Z.le timestamps !! (length timestamps / 2)%nat)).

(** [next_hash_threshold] *)
Definition next_hash_threshold (calc : DifficultyCalc) (state : S) (parent_hash : BlockHash) :
    result StryiCoreError Z :=
  parent ← read_required_header state parent_hash;
  _ ← verify_genesis_header_work_shape parent;
  if header_is_genesis parent then Ok (initial_hash_threshold (params calc))
  else if height parent =? 0 then Err (ConsensusValidationFailed "normal parent has height zero")
  else
    hash_at_height ← map_err block_error (get_block_hash_by_height state (height parent));
    if negb (bool_decide (hash_at_height = Some parent_hash)) then
      _ ← read_required_header_by_height state (height parent);
      Err (ConsensusValidationFailed "branch height {} mapped to block {mapped_hash} instead of parent {parent_hash}")
    else if height parent =? 1 then
      _ ← verify_anchor calc parent;
      mret (initial_hash_threshold (params calc))
    else
      found ← read_required_header_by_height state 1;
      let '(anchor_hash, anchor) := found in
      _ ← verify_anchor calc anchor;
      if (height parent =? 2) && negb (bool_decide (previous_block_hash parent = anchor_hash)) then
        Err (ConsensusValidationFailed "parent at height 2 previous block hash {} does not match anchor {anchor_hash}")
      else
        let elapsed := timestamp parent - timestamp anchor in
        let scheduled := target_spacing_secs (params calc) * (height parent - 1) in
        let drift := elapsed - scheduled in
        ok_or (asert_upper (initial_hash_threshold (params calc)) drift
                 (half_life_secs (params calc)) (max_hash_threshold (params calc)))
          (ConsensusDifficultyAdjustmentFailed "ASERT calculation returned None").

(** [load_rules_and_build_calc] *)
Definition load_rules_and_build_calc (db : S) : result StryiCoreError DifficultyCalc :=
  genesis_opt ← map_err block_error (get_block_by_height db 0);
  genesis_block ← ok_or genesis_opt (block_error (Corruption "genesis block not found (height 0)"));
  match genesis_state (header genesis_block) with
  | Some state => DifficultyCalc_new (pow (consensus_consts state))
  | None => Err (block_error (Corruption "`genesis_state` is None in the genesis block"))
  end.

(** The parameters the code builds a calculator from. *)
Definition calc_typed (calc : DifficultyCalc) : Prop :=
  PowParams_validate (params calc) = Ok tt /\
  0 <= initial_hash_threshold (params calc) /\ in_u256 (max_hash_threshold (params calc)) /\
  in_u32 (half_life_secs (params calc)).

(** Every threshold the calculator requires is positive and within the cap. *)
Lemma next_hash_threshold_range calc state parent_hash t :
  calc_typed calc -> next_hash_threshold calc state parent_hash = Ok t ->
  1 <= t <= max_hash_threshold (params calc).
Proof.
  intros (Hv & Hi & Hm & Hh). apply PowParams_validate_Ok in Hv as (_ & Hh0 & Hi0 & Hm0 & Hle).
  unfold next_hash_threshold. intros Hn.
  apply bind_Ok in Hn as (parent & _ & Hn). apply bind_Ok in Hn as (? & _ & Hn).
  case_match; [injection Hn as <-; lia|]. case_match; [done|].
  apply bind_Ok in Hn as (at_height & _ & Hn). case_match.
  { by apply bind_Ok in Hn as (? & _ & Hn). }
  case_match. { apply bind_Ok in Hn as (? & _ & Hn). injection Hn as <-. lia. }
  apply bind_Ok in Hn as ([ah a] & _ & Hn). apply bind_Ok in Hn as (? & _ & Hn).
  case_match; [done|]. apply ok_or_Ok in Hn.
  assert (asert_params (initial_hash_threshold (params calc)) (half_life_secs (params calc))
    (max_hash_threshold (params calc))) as Hp by (unfold in_uint in *; split; lia).
  destruct (asert_upper_range _ (timestamp parent - timestamp a - target_spacing_secs (params calc) * (height parent - 1)) _ _ Hp)
    as (t' & Ht' & Hr). congruence.
Qed.
End Difficulty.

(** * The upper median *)

Section Median.
Implicit Types (l : list Z).

Definition upper_median l : Z := default 0 (merge_sort Z.le l !! (length l / 2)%nat).

#[local] Instance Z_le_total : Total Z.le.
Proof. intros x y. lia. Qed.

Lemma filter_take_bound (P : Z -> Prop) `{forall x, Decision (P x)} l k :
  Forall (fun x => ~ P x) (drop k l) -> (length (filter P l) <= k)%nat.
Proof.
  intros Hd. rewrite <-(take_drop k l), filter_app.
  assert (filter P (drop k l) = []) as ->.
  { induction Hd as [|x l' Hx Hd IH]; [done|]. by rewrite filter_cons_False. }
  rewrite app_nil_r. etrans; [apply length_filter|]. apply firstn_le_length.
Qed.

Lemma filter_drop_bound (P : Z -> Prop) `{forall x, Decision (P x)} l k :
  (k <= length l)%nat -> Forall (fun x => ~ P x) (take k l) -> (length (filter P l) <= length l - k)%nat.
Proof.
  intros Hk Hd. rewrite <-(take_drop k l) at 1. rewrite filter_app.
  assert (filter P (take k l) = []) as ->.
  { induction Hd as [|x l' Hx Hd IH]; [done|]. by rewrite filter_cons_False. }
  cbn. etrans; [apply length_filter|]. by rewrite length_drop.
Qed.

(** The upper median of a non-empty list is one of its elements; at most half of the list
    (rounded down) is below it and at most half (rounded up, less itself) above. *)
Lemma upper_median_spec l :
  l <> [] ->
  upper_median l ∈ l /\
  (length (filter (fun x => (x < upper_median l)%Z) l) <= length l / 2)%nat /\
  (length (filter (fun x => (upper_median l < x)%Z) l) <= length l - 1 - length l / 2)%nat.
Proof.
  intros Hne. unfold upper_median.
  pose proof (merge_sort_Permutation Z.le l) as Hp.
  assert (StronglySorted Z.le (merge_sort Z.le l)) as Hs.
  { apply Sorted_StronglySorted; [intros ???; lia|]. apply Sorted_merge_sort, _. }
  set (s := merge_sort Z.le l) in *.
  assert (length s = length l) as Hlen by (by rewrite Hp).
  assert (0 < length l)%nat as Hpos by (destruct l; [done|cbn; lia]).
  assert (length l / 2 < length s)%nat as Hlt by (rewrite Hlen; apply Nat.div_lt; lia).
  destruct (lookup_lt_is_Some_2 s _ Hlt) as [v Hv]. rewrite Hv. cbn [default from_option id].
  split; [|split].
  - rewrite <-Hp. by apply list_elem_of_lookup_2 in Hv.
  - assert (length (filter (fun x => x < v) l) = length (filter (fun x => x < v) s)) as ->
      by (by rewrite Hp).
    apply filter_take_bound. apply Forall_lookup. intros j x Hx.
    rewrite lookup_drop in Hx. destruct (decide (j = 0)%nat) as [->|Hj].
    + rewrite Nat.add_0_r, Hv in Hx. injection Hx as ->. lia.
    + pose proof (StronglySorted_lookup_lt _ _ _ _ _ _ Hs Hv Hx ltac:(lia)). lia.
  - assert (length (filter (fun x => v < x) l) = length (filter (fun x => v < x) s)) as ->
      by (by rewrite Hp).
    replace (length l - 1 - length l / 2)%nat with (length s - Datatypes.S (length l / 2))%nat by lia.
    apply filter_drop_bound; [lia|]. apply Forall_lookup. intros j x Hx.
    apply lookup_take_Some in Hx as [Hx Hj]. destruct (decide (j = length l / 2)%nat) as [->|Hne'].
    + rewrite Hv in Hx. injection Hx as ->. lia.
    + pose proof (StronglySorted_lookup_lt _ _ _ _ _ _ Hs Hx Hv ltac:(lia)). lia.
Qed.
End Median.

(** * On a stored chain *)

Section OnChain.
Context {X : Externals}.
Implicit Types (m : MemoryView) (l : list Block).

Lemma read_header_chain m l i b :
  records m l -> l !! i = Some b -> read_required_header m (block_hash b) = Ok (header b).
Proof.
  intros C Hi. unfold read_required_header. cbn. unfold default_get_block_header_by_hash.
  rewrite (rc_blocks _ _ C) by (by apply list_elem_of_lookup_2 in Hi). done.
Qed.

Lemma chain_genesis_iff l i b : chain_shape l -> l !! i = Some b -> is_genesis b = true <-> i = 0%nat.
Proof.
  destruct l as [|g rest]; [done|]. intros (Hg & _ & _ & Hf) Hi. destruct i as [|i]; cbn in Hi.
  - by injection Hi as <-.
  - rewrite Forall_lookup in Hf. destruct (Hf _ _ Hi) as (Hn & _). rewrite Hn. done.
Qed.

Lemma chain_shape_ok l i b : chain_shape l -> l !! i = Some b -> verify_genesis_header_work_shape (header b) = Ok tt.
Proof.
  intros Hs Hi. change (verify_genesis_work_shape b = Ok tt). destruct l as [|g rest]; [done|].
  destruct Hs as (Hg & Hv & _ & Hf). destruct i as [|i]; cbn in Hi; [by injection Hi as <-|].
  rewrite Forall_lookup in Hf. destruct (Hf _ _ Hi) as (Hn & _).
  apply verify_shape_Ok. by rewrite Hn.
Qed.

(** The timestamps of up to [n] blocks ending at position [i], newest first. *)
Definition window (n i : nat) l : list Z :=
  (fun b => timestamp (header b)) <$> rev (drop (Datatypes.S i - n) (take (Datatypes.S i) l)).

Lemma window_step n i l b p :
  l !! Datatypes.S i = Some b -> l !! i = Some p ->
  window (Datatypes.S n) (Datatypes.S i) l = timestamp (header b) :: window n i l.
Proof.
  intros Hb Hp. unfold window. rewrite (take_S_r _ _ _ Hb). cbn [Nat.sub].
  rewrite drop_app_le by (rewrite length_take; apply lookup_lt_Some in Hb; lia).
  by rewrite rev_app_distr.
Qed.

Lemma collect_timestamps_chain m l n i b :
  records m l -> l !! i = Some b ->
  collect_timestamps n m (header b) = Ok (window (Datatypes.S n) i l).
Proof.
  intros C. pose proof (rc_shape _ _ C) as Hs. revert i b. induction n as [|n IH]; intros i b Hi;
    cbn [collect_timestamps]; rewrite (chain_shape_ok _ _ _ Hs Hi); cbn [mbind result_bind];
    change (header_is_genesis (header b)) with (is_genesis b);
    rewrite (chain_height _ _ _ Hs Hi);
    pose proof (chain_genesis_iff _ _ _ Hs Hi) as Hgen;
    assert (negb (negb (is_genesis b) && (Z.of_nat i =? 0)) = true) as -> by
      (destruct (is_genesis b), (Z.eqb_spec (Z.of_nat i) 0); try done; exfalso; naive_solver lia);
    cbn [ensure mbind result_bind].
  - unfold window. rewrite (take_S_r _ _ _ Hi). replace (Datatypes.S i - 1)%nat with i by lia.
    rewrite drop_app_length'; [done|]. rewrite length_take. apply lookup_lt_Some in Hi. lia.
  - destruct (is_genesis b) eqn:Hg.
    + assert (i = 0%nat) as -> by (by apply Hgen). unfold window. by rewrite (take_S_r _ _ _ Hi).
    + destruct i as [|i]; [discriminate (proj2 Hgen eq_refl)|].
      assert (is_Some (l !! i)) as [p Hp].
      { apply lookup_lt_is_Some. apply lookup_lt_Some in Hi. lia. }
      rewrite (chain_parent _ _ _ _ Hs Hi Hp), (read_header_chain m l i p C Hp). cbn [mbind result_bind].
      rewrite (chain_height _ _ _ Hs Hp).
      rewrite (bool_decide_eq_true_2 (checked_add 64 _ 1 = _)).
      2: { apply checked_add_Some. pose proof (chain_bound _ Hs). apply lookup_lt_Some in Hi. lia. }
      cbn [ensure mbind result_bind]. rewrite (IH i p Hp). cbn [mbind result_bind mret result_ret]. by rewrite (window_step _ _ _ b p).
Qed.

(** On a stored chain the median time past of any block is defined and is the upper
    median of the timestamps of the up to eleven blocks ending there: one of those
    timestamps, with at most half of them below it and fewer than half above. *)
Theorem median_time_past_chain m l i p :
  records m l -> l !! i = Some p ->
  exists v, median_time_past m (block_hash p) = Ok v /\ v ∈ window 11 i l /\
    (length (window 11 i l) = Nat.min 11 (Datatypes.S i))%nat /\
    (length (filter (fun x => (x < v)%Z) (window 11 i l)) <= length (window 11 i l) / 2)%nat /\
    (length (filter (fun x => (v < x)%Z) (window 11 i l)) <=
       length (window 11 i l) - 1 - length (window 11 i l) / 2)%nat.
Proof.
  intros C Hp. unfold median_time_past. rewrite (read_header_chain _ _ _ _ C Hp). cbn [mbind result_bind].
  rewrite (collect_timestamps_chain _ _ _ _ _ C Hp). cbn [mbind result_bind mret result_ret].
  assert (length (window 11 i l) = Nat.min 11 (Datatypes.S i))%nat as Hlen.
  { unfold window. rewrite length_fmap, length_rev, length_drop, length_take.
    apply lookup_lt_Some in Hp. lia. }
  assert (window 11 i l <> []) as Hne by (intros Heq; rewrite Heq in Hlen; cbn in Hlen; lia).
  eexists. split; [reflexivity|]. apply upper_median_spec in Hne as (Hin & Hlo & Hhi). done.
Qed.

(** The required threshold on a stored chain. *)
Lemma required_threshold_chain calc m l i p :
  records m l -> l !! i = Some p -> calc_typed calc ->
  (forall a, l !! 1%nat = Some a -> hash_threshold (header a) = initial_hash_threshold (params calc)) ->
  exists t, next_hash_threshold calc m (block_hash p) = Ok t /\
    1 <= t <= max_hash_threshold (params calc) /\
    ((i <= 1)%nat -> t = initial_hash_threshold (params calc)) /\
    (forall a, (1 < i)%nat -> l !! 1%nat = Some a ->
      asert_upper (initial_hash_threshold (params calc))
        (timestamp (header p) - timestamp (header a) - target_spacing_secs (params calc) * (Z.of_nat i - 1))
        (half_life_secs (params calc)) (max_hash_threshold (params calc)) = Some t).
Proof.
  intros C Hp Hcalc Hanchor. pose proof (rc_shape _ _ C) as Hs.
  enough (exists t, next_hash_threshold calc m (block_hash p) = Ok t /\
    ((i <= 1)%nat -> t = initial_hash_threshold (params calc)) /\
    (forall a, (1 < i)%nat -> l !! 1%nat = Some a ->
      asert_upper (initial_hash_threshold (params calc))
        (timestamp (header p) - timestamp (header a) - target_spacing_secs (params calc) * (Z.of_nat i - 1))
        (half_life_secs (params calc)) (max_hash_threshold (params calc)) = Some t)) as (t & Ht & H1 & H2).
  { pose proof (next_hash_threshold_range _ _ _ _ Hcalc Ht). exists t. split_and!; done || lia. }
  unfold next_hash_threshold. rewrite (read_header_chain _ _ _ _ C Hp). cbn [mbind result_bind].
  rewrite (chain_shape_ok _ _ _ Hs Hp). cbn [mbind result_bind].
  change (header_is_genesis (header p)) with (is_genesis p).
  pose proof (chain_genesis_iff _ _ _ Hs Hp) as Hgen. pose proof (chain_height _ _ _ Hs Hp) as Hh.
  destruct (is_genesis p) eqn:Hg.
  { assert (i = 0%nat) as -> by (by apply Hgen). eexists. split_and!; [done|done|lia]. }
  destruct (Z.eqb_spec (height (header p)) 0) as [Hz|_]; [exfalso; assert (i = 0%nat) by lia; naive_solver|].
  assert (forall j b, l !! j = Some b -> get_block_hash_by_height m (height (header b)) = Ok (Some (block_hash b))) as Hget.
  { intros j b Hj. cbn. rewrite (rc_heights _ _ C), (chain_height _ _ _ Hs Hj), height_lookup_nat, Hj. done. }
  rewrite (Hget _ _ Hp). cbn [map_err mbind result_bind]. rewrite bool_decide_eq_true_2 by done. cbn [negb].
  assert (is_Some (l !! 1%nat)) as [a Ha].
  { apply lookup_lt_is_Some. apply lookup_lt_Some in Hp. destruct i; [naive_solver|lia]. }
  assert (is_Some (l !! 0%nat)) as [g Hg0].
  { apply lookup_lt_is_Some. apply lookup_lt_Some in Hp. lia. }
  pose proof (chain_height _ _ _ Hs Ha) as Hha. change (Z.of_nat 1) with 1 in Hha.
  pose proof (Hget _ _ Ha) as Hget1. rewrite Hha in Hget1.
  assert (verify_anchor calc (header a) = Ok tt) as Hva.
  { unfold verify_anchor. rewrite (chain_shape_ok _ _ _ Hs Ha). cbn [mbind result_bind].
    change (header_is_genesis (header a)) with (is_genesis a).
    pose proof (chain_genesis_iff _ _ _ Hs Ha). destruct (is_genesis a); [naive_solver|].
    rewrite Hha. cbn [negb ensure mbind result_bind]. cbn [Z.eqb Z.of_nat Pos.of_succ_nat Pos.eqb ensure mbind result_bind].
    rewrite (chain_parent _ _ _ _ Hs Ha Hg0).
    rewrite bool_decide_eq_true_2
      by (unfold block_hash; by rewrite (proj2 (chain_genesis_iff _ _ _ Hs Hg0) eq_refl)).
    cbn [ensure mbind result_bind]. by rewrite (Hanchor _ Ha), Z.eqb_refl. }
  destruct (Z.eqb_spec (height (header p)) 1) as [H1|H1].
  { assert (i = 1%nat) as -> by lia. rewrite Ha in Hp. injection Hp as ->. rewrite Hva. cbn.
    eexists. split_and!; [done|done|lia]. }
  unfold read_required_header_by_height. rewrite Hget1. cbn [map_err mbind result_bind ok_or].
  rewrite (read_header_chain _ _ _ _ C Ha). cbn [mbind result_bind]. rewrite Hha.
  cbn [Z.eqb Z.of_nat Pos.of_succ_nat Pos.eqb ensure mbind result_bind mret result_ret]. rewrite Hva. cbn [mbind result_bind].
  assert ((height (header p) =? 2) && negb (bool_decide (previous_block_hash (header p) = block_hash a)) = false) as ->.
  { destruct (Z.eqb_spec (height (header p)) 2) as [H2|]; [|done].
    assert (i = 2%nat) as -> by lia. by rewrite (chain_parent _ _ _ _ Hs Hp Ha), bool_decide_eq_true_2. }
  destruct Hcalc as (Hv & Hi & Hm & Hhl). apply PowParams_validate_Ok in Hv as (_ & Hh0 & Hi0 & Hm0 & Hle).
  assert (asert_params (initial_hash_threshold (params calc)) (half_life_secs (params calc))
    (max_hash_threshold (params calc))) as Hpar by (unfold in_uint in *; split; lia).
  rewrite Hh. destruct (asert_upper_range _ (timestamp (header p) - timestamp (header a)
    - target_spacing_secs (params calc) * (Z.of_nat i - 1)) _ _ Hpar) as (t & Ht & _).
  rewrite Ht. exists t. split_and!; [done|lia|]. intros a' _ Ha'. rewrite Ha in Ha'. by injection Ha' as <-.
Qed.

(** C38: on a stored chain whose first block carries the initial threshold, the required
    threshold of a block after any stored block is defined, positive and at most the
    cap: it is the initial threshold for the first two blocks, and afterwards the ASERT
    target of the drift between the elapsed time since the first block and the
    schedule, whatever the blocks in between. *)
Theorem next_hash_threshold_chain calc m l i p :
  records m l -> l !! i = Some p -> calc_typed calc ->
  (forall a, l !! 1%nat = Some a -> hash_threshold (header a) = initial_hash_threshold (params calc)) ->
  exists t, next_hash_threshold calc m (block_hash p) = Ok t /\
    1 <= t <= max_hash_threshold (params calc) /\
    ((i <= 1)%nat -> t = initial_hash_threshold (params calc)) /\
    (forall a, (1 < i)%nat -> l !! 1%nat = Some a ->
      asert_upper (initial_hash_threshold (params calc))
        (timestamp (header p) - timestamp (header a) - target_spacing_secs (params calc) * (Z.of_nat i - 1))
        (half_life_secs (params calc)) (max_hash_threshold (params calc)) = Some t).
Proof. apply required_threshold_chain. Qed.
End OnChain.

Section DifficultyWitnesses.
Import Toy.

Lemma toy_chain : exists m, refines m [toy_genesis; toy_block 0].
Proof.
  destruct (genesis_init toy_genesis toy_metadata toy_genesis_valid) as (m0 & _ & R0 & _).
  destruct (toy_appendable 0 (or_introl eq_refl)) as (Happ & Hnew & Hfresh).
  pose proof (append_memory m0 [toy_genesis] (toy_block 0) R0 Hnew Hfresh) as H0.
  destruct (apply_transition m0 (TAppend (toy_block 0))) as [[r0 m]|e]; [|destruct (H0 Happ)].
  exists m. apply H0.
Qed.

Lemma median_time_past_chain_witness :
  exists m v, refines m [toy_genesis; toy_block 0] /\
    median_time_past m (block_hash (toy_block 0)) = Ok v.
Proof.
  destruct toy_chain as (m & R).
  destruct (median_time_past_chain m _ 1 (toy_block 0) (rf_records _ _ R) eq_refl) as (v & Hv & _).
  exists m, v. exact (conj R Hv).
Defined.

Definition toy_calc : DifficultyCalc := mk_DifficultyCalc (mk_PowParams 10 3600 5 9).

Lemma next_hash_threshold_chain_witness :
  exists m, refines m [toy_genesis; toy_block 0] /\
    next_hash_threshold toy_calc m (block_hash (toy_block 0)) = Ok 5.
Proof.
  destruct toy_chain as (m & R).
  destruct (next_hash_threshold_chain toy_calc m _ 1 (toy_block 0) (rf_records _ _ R) eq_refl)
    as (t & Ht & _ & H1 & _).
  - split; [reflexivity|]. cbn. unfold in_uint. lia.
  - intros a Ha. injection Ha as <-. reflexivity.
  - exists m. split; [exact R|]. rewrite Ht. rewrite (H1 (le_n 1)). reflexivity.
Defined.
End DifficultyWitnesses.
