(* ===== verification/Dependencies.v ===== *)
(** Dependencies: the in-block transaction dependency graph and its parallel execution
    groups ([dependencies.rs]). The petgraph crate is the class of
    Petgraph.v. *)
From S2P Require Import Prelude Bytes Types Externals Petgraph Hashing Transactions Blocks Storage UtxoProcessor.

Section Dependencies.
Context {X : Externals} {P : PetGraph nat}.

Record DependencyGraph := mk_DependencyGraph {
  output_index : gmap OutPoint nat;
  spent_outputs : gset OutPoint;
  external_inputs : gset OutPoint;
  graph : DiGraph nat;
  node_indices : list (NodeIndex nat);
}.

(** The node loop of [build]. *)
Definition add_tx_node (acc : DiGraph nat * list (NodeIndex nat)) (i : nat) : DiGraph nat * list (NodeIndex nat) :=
  let '(n, g) := add_node acc.1 i in (g, acc.2 ++ [n]).

(** The output loop of [build]. *)
Definition index_output (tx_idx : nat) (acc : gmap OutPoint nat) (outpoint : OutPoint) :
    result StryiCoreError (gmap OutPoint nat) :=
  match acc !! outpoint with
  | Some _ => Err (TransactionDependencyError "Duplicate output detected")
  | None => Ok (<[outpoint := tx_idx]> acc)
  end.

Definition index_outputs (acc : gmap OutPoint nat) (entry : nat * Transaction) :
    result StryiCoreError (gmap OutPoint nat) :=
  fold_res (index_output entry.1) acc (tx_created entry.2).*1.

(** The input loop of [build]: an edge for an in-block dependency, an external input
    otherwise. [node_indices[i]] is in range for every indexed transaction. *)
Definition add_input (index : gmap OutPoint nat) (nodes : list (NodeIndex nat)) (tx_idx : nat)
    (acc : DiGraph nat * gset OutPoint) (input : TransactionIn) : DiGraph nat * gset OutPoint :=
  match index !! previous_output input with
  | Some dep_tx_idx =>
      match nodes !! dep_tx_idx, nodes !! tx_idx with
      | Some source, Some target => (add_edge acc.1 source target, acc.2)
      | _, _ => acc
      end
  | None => (acc.1, {[ previous_output input ]} ∪ acc.2)
  end.

Definition add_inputs (index : gmap OutPoint nat) (nodes : list (NodeIndex nat))
    (acc : DiGraph nat * gset OutPoint) (entry : nat * Transaction) : DiGraph nat * gset OutPoint :=
  foldl (add_input index nodes entry.1) acc (inputs (tx_data entry.2)).

(** [block_data.transactions.iter().enumerate()] *)
Definition enumerate {A} (l : list A) : list (nat * A) := imap (fun i x => (i, x)) l.

(** [DependencyGraph::build] *)
Definition build (txs : list Transaction) : result StryiCoreError DependencyGraph :=
  let '(g, nodes) := foldl add_tx_node (graph_new, []) (seq 0 (length txs)) in
  index ← fold_res index_outputs ∅ (enumerate txs);
  let '(g, external) := foldl (add_inputs index nodes) (g, ∅) (enumerate txs) in
  mret (mk_DependencyGraph index ∅ external g nodes).

(** One input of [validate_order]. *)
Definition order_input (index : gmap OutPoint nat) (tx_idx : nat) (spent : gset OutPoint)
    (input : TransactionIn) : result StryiCoreError (gset OutPoint) :=
  if bool_decide (previous_output input ∈ spent)
  then Err (TransactionDependencyError "Double spend detected")
  else
    match index !! previous_output input with
    | Some dep_tx_idx =>
        if (tx_idx <=? dep_tx_idx)%nat
        then Err (TransactionDependencyError "Invalid transaction order")
        else Ok ({[ previous_output input ]} ∪ spent)
    | None => Ok ({[ previous_output input ]} ∪ spent)
    end.

(** [validate_order] *)
Definition validate_order (d : DependencyGraph) (txs : list Transaction) :
    result StryiCoreError DependencyGraph :=
  spent ← fold_res (fun spent entry =>
      fold_res (order_input (output_index d) entry.1) spent (inputs (tx_data entry.2)))
    (spent_outputs d) (enumerate txs);
  mret (mk_DependencyGraph (output_index d) spent (external_inputs d) (graph d) (node_indices d)).

(** [get_external_dependencies] *)
Definition get_external_dependencies (d : DependencyGraph) : gset OutPoint := external_inputs d.

(** [get_transaction_dependencies] *)
Definition get_transaction_dependencies (d : DependencyGraph) (tx_idx : nat) : list nat :=
  match node_indices d !! tx_idx with
  | None => []
  | Some n => omap (node_weight (graph d)) (incoming_sources (graph d) n)
  end.

(** The transactions whose dependencies are all processed. *)
Definition ready_group (d : DependencyGraph) (processed : gset nat) : list nat :=
  filter (fun idx : nat => idx ∉ processed /\
    Forall (fun dep => dep ∈ processed) (get_transaction_dependencies d idx))
    (seq 0 (length (node_indices d))).

(** The loop of [get_parallel_execution_groups], which goes on until everything is
    processed. [None] stands for a loop that has not ended within the fuel;
    [execution_groups_total] shows one round per transaction is enough after
    [validate_order]. *)
Fixpoint group_loop (fuel : nat) (d : DependencyGraph) (processed : gset nat)
    (result : list (list nat)) : option (list (list nat)) :=
  if (length (node_indices d) <=? size processed)%nat then Some result
  else
    match fuel with
    | O => None
    | Datatypes.S fuel =>
        let current_group := ready_group d processed in
        group_loop fuel d (processed ∪ list_to_set current_group)
          (if bool_decide (current_group = []) then result else result ++ [current_group])
    end.

Definition get_parallel_execution_groups (d : DependencyGraph) : option (list (list nat)) :=
  group_loop (length (node_indices d)) d ∅ [].
End Dependencies.

(** * What the graph contains *)

Lemma elem_of_enumerate {A} (l : list A) i x : (i, x) ∈ enumerate l <-> l !! i = Some x.
Proof.
  unfold enumerate. rewrite elem_of_lookup_imap. split.
  - intros (j & y & [= <- <-] & Hj). done.
  - intros Hl. eauto.
Qed.

Lemma enumerate_snd {A} (l : list A) : (enumerate l).*2 = l.
Proof. unfold enumerate. rewrite fmap_imap. apply list_eq. intros i. rewrite list_lookup_imap. by destruct (l !! i). Qed.

Lemma bind_enumerate {A B} (f : A -> list B) l : (enumerate l ≫= fun e => f e.2) = l ≫= f.
Proof.
  assert (forall es : list (nat * A), (es ≫= fun e => f e.2) = es.*2 ≫= f) as ->.
  { induction es as [|e es IH]; [done|]. cbn [fmap list_fmap mbind list_bind]. f_equal. exact IH. }
  by rewrite enumerate_snd.
Qed.

Section Graph.
Context {X : Externals} {P : PetGraph nat} `{!PetGraphLaws nat}.

(** A graph whose [i]-th node carries weight [i] and whose edges are [E]. *)
Record graph_ok (g : DiGraph nat) (nodes : list (NodeIndex nat)) (E : nat -> nat -> Prop) : Prop := {
  go_indices : graph_node_indices g = nodes;
  go_nodup : NoDup nodes;
  go_weight i n : nodes !! i = Some n -> node_weight g n = Some i;
  go_incoming i n s : nodes !! i = Some n ->
    s ∈ incoming_sources g n <-> exists j, nodes !! j = Some s /\ E j i;
}.

Lemma graph_ok_add_edge g nodes E a b na nb :
  graph_ok g nodes E -> nodes !! a = Some na -> nodes !! b = Some nb ->
  graph_ok (add_edge g na nb) nodes (fun j i => E j i \/ (j = a /\ i = b)).
Proof.
  intros [Hix Hnd Hw Hin] Ha Hb. split.
  - by rewrite indices_add_edge.
  - done.
  - intros i n Hn. rewrite weight_add_edge. by apply Hw.
  - intros i n s Hn. rewrite incoming_add_edge by (rewrite Hix; by eapply list_elem_of_lookup_2).
    rewrite (Hin i n s Hn). split.
    + intros [(j & Hj & HE)|[-> ->]]; [by eauto|]. exists a. split; [done|]. right.
      split; [done|]. by eapply NoDup_lookup.
    + intros (j & Hj & [HE|[-> ->]]); [by eauto|]. right. split; congruence.
Qed.

Lemma graph_ok_ext g nodes E E' :
  (forall j i, E j i <-> E' j i) -> graph_ok g nodes E -> graph_ok g nodes E'.
Proof.
  intros HE [Hix Hnd Hw Hin]. split; [done..|]. intros i n s Hn. rewrite (Hin i n s Hn).
  by setoid_rewrite HE.
Qed.

Lemma graph_ok_nodes n :
  let '(g, nodes) := foldl add_tx_node (graph_new, []) (seq 0 n) in
  length nodes = n /\ graph_ok g nodes (fun _ _ => False).
Proof.
  induction n as [|n IH].
  { cbn. split; [done|]. split; [apply indices_new|apply NoDup_nil_2|done..]. }
  rewrite seq_S, foldl_app. destruct (foldl _ _ _) as [g nodes]. cbn [foldl]. unfold add_tx_node.
  cbn [fst snd]. destruct IH as [Hlen [Hix Hnd Hw Hin]].
  pose proof (indices_add_node g (0 + n)%nat) as [Hnew Hix']. pose proof (weight_add_node g (0 + n)%nat) as Hwn.
  pose proof (incoming_add_node g (0 + n)%nat) as Hinn. pose proof (weight_add_node_other g (0 + n)%nat) as Hwo.
  pose proof (incoming_add_node_other g (0 + n)%nat) as Hino.
  destruct (add_node g (0 + n)%nat) as [x g']. cbn [fst snd] in *. rewrite Hix in *.
  split; [rewrite length_app; cbn; lia|].
  assert (forall i y, (nodes ++ [x]) !! i = Some y -> (y ∈ nodes /\ nodes !! i = Some y) \/ (i = n /\ y = x)) as Hc.
  { intros i y Hy. apply lookup_app_Some in Hy as [Hy|[Hge Hy]].
    - left. split; [by apply list_elem_of_lookup_2 in Hy|done].
    - apply list_lookup_singleton_Some in Hy as [? ->]. right. split; [lia|done]. }
  split.
  - done.
  - apply NoDup_app. split_and!; [done| |apply NoDup_singleton].
    intros y Hy Hy'. apply list_elem_of_singleton in Hy' as ->. done.
  - intros i y Hy. apply Hc in Hy as [[Hin' Hy]|[-> ->]]; [rewrite Hwo by done; by apply Hw|done].
  - intros i y s Hy. apply Hc in Hy as [[Hin' Hy]|[-> ->]].
    + rewrite Hino by done. rewrite (Hin _ _ _ Hy). naive_solver.
    + rewrite Hinn. set_solver.
Qed.

(** The output index of a list of numbered transactions. *)
Lemma index_output_fold i ops acc index :
  fold_res (index_output i) acc ops = Ok index ->
  NoDup ops /\ (forall op, op ∈ ops -> acc !! op = None) /\
  (forall op j, index !! op = Some j <-> acc !! op = Some j \/ (op ∈ ops /\ j = i)).
Proof.
  revert acc. induction ops as [|op ops IH]; intros acc Hf; cbn [fold_res] in Hf.
  { injection Hf as <-. split_and!; [apply NoDup_nil_2|set_solver|set_solver]. }
  apply bind_Ok in Hf as (acc1 & H1 & Hf). unfold index_output in H1.
  destruct (acc !! op) eqn:Hop; [done|]. injection H1 as <-.
  apply IH in Hf as (Hnd & Hnone & Hin).
  assert (op ∉ ops) as Hno.
  { intros Hc. specialize (Hnone _ Hc). by rewrite lookup_insert_eq in Hnone. }
  split_and!.
  - by apply NoDup_cons_2.
  - intros op' Hop'. destruct (decide (op' = op)) as [->|Hne]; [done|].
    rewrite <-(Hnone op') by set_solver. by rewrite lookup_insert_ne.
  - intros op' j. rewrite Hin. destruct (decide (op' = op)) as [->|Hne].
    + rewrite lookup_insert_eq, Hop. set_solver.
    + rewrite lookup_insert_ne by done. set_solver.
Qed.

Lemma index_outputs_fold es acc index :
  fold_res index_outputs acc es = Ok index ->
  NoDup (created_list es.*2).*1 /\
  (forall op, op ∈ (created_list es.*2).*1 -> acc !! op = None) /\
  (forall op j, index !! op = Some j <->
    acc !! op = Some j \/ exists t, (j, t) ∈ es /\ op ∈ (tx_created t).*1).
Proof.
  revert acc. induction es as [|[i t] es IH]; intros acc Hf; cbn [fold_res] in Hf.
  { injection Hf as <-. split_and!; [apply NoDup_nil_2|set_solver|set_solver]. }
  apply bind_Ok in Hf as (acc1 & H1 & Hf). unfold index_outputs in H1. cbn [fst snd] in H1.
  apply index_output_fold in H1 as (Hnd1 & Hnone1 & Hin1). apply IH in Hf as (Hnd & Hnone & Hin).
  unfold created_list in *. cbn [fmap list_fmap mbind list_bind snd]. rewrite fmap_app.
  assert (forall op, op ∈ (tx_created t).*1 -> acc1 !! op = Some i) as Hacc1 by (intros; apply Hin1; by right).
  split_and!.
  - apply NoDup_app. split_and!; [done| |done]. intros op Hop Hc. apply Hnone in Hc.
    rewrite (Hacc1 _ Hop) in Hc. done.
  - intros op Hop. apply elem_of_app in Hop as [Hop|Hop]; [by apply Hnone1|].
    apply Hnone in Hop. destruct (acc !! op) eqn:Ha; [|done].
    assert (acc1 !! op = Some n) by (apply Hin1; by left). congruence.
  - intros op j. rewrite Hin, Hin1. setoid_rewrite elem_of_cons. split.
    + intros [[?|[? ->]]|(t' & ? & ?)]; [by left|right; exists t; auto|right; exists t'; auto].
    + intros [?|(t' & [[= -> ->]|?] & ?)]; [by left; left|left; right; auto|right; eauto].
Qed.

(** The input loop adds the dependency edges and collects the external inputs. *)
Definition input_of (es : list (nat * Transaction)) (i : nat) (op : OutPoint) : Prop :=
  exists t inp, (i, t) ∈ es /\ inp ∈ inputs (tx_data t) /\ op = previous_output inp.

Lemma add_input_fold index nodes i ins g ext E :
  graph_ok g nodes E -> is_Some (nodes !! i) ->
  (forall op j, index !! op = Some j -> is_Some (nodes !! j)) ->
  let '(g', ext') := foldl (add_input index nodes i) (g, ext) ins in
  graph_ok g' nodes (fun j k => E j k \/
    (k = i /\ exists inp, inp ∈ ins /\ index !! previous_output inp = Some j)) /\
  (forall op, op ∈ ext' <-> op ∈ ext \/
    (index !! op = None /\ exists inp, inp ∈ ins /\ op = previous_output inp)).
Proof.
  intros Hg [ni Hi] Hidx. revert g ext E Hg. induction ins as [|inp ins IH]; intros g ext E Hg; cbn [foldl].
  { split; [|set_solver]. eapply graph_ok_ext; [|exact Hg]. set_solver. }
  unfold add_input at 2. cbn [fst snd]. destruct (index !! previous_output inp) as [j|] eqn:Hj.
  - destruct (Hidx _ _ Hj) as [nj Hnj]. rewrite Hnj, Hi.
    specialize (IH _ ext _ (graph_ok_add_edge _ _ _ _ _ _ _ Hg Hnj Hi)).
    destruct (foldl _ _ _) as [g' ext']. destruct IH as [Hg' Hext]. split.
    + eapply graph_ok_ext; [|exact Hg']. intros j' k. setoid_rewrite elem_of_cons.
      split; [|naive_solver].
      intros [[?|[-> ->]]|(-> & x & ? & ?)]; [by left|right; split; [done|]; exists inp; auto|
        right; split; [done|]; exists x; auto].
    + intros op. rewrite Hext. setoid_rewrite elem_of_cons. naive_solver.
  - specialize (IH _ ({[ previous_output inp ]} ∪ ext) _ Hg).
    destruct (foldl _ _ _) as [g' ext']. destruct IH as [Hg' Hext]. split.
    + eapply graph_ok_ext; [|exact Hg']. intros j' k. setoid_rewrite elem_of_cons. naive_solver.
    + intros op. rewrite Hext, elem_of_union, elem_of_singleton. setoid_rewrite elem_of_cons. naive_solver.
Qed.

Lemma add_inputs_fold index nodes es g ext E :
  graph_ok g nodes E -> (forall i t, (i, t) ∈ es -> is_Some (nodes !! i)) ->
  (forall op j, index !! op = Some j -> is_Some (nodes !! j)) ->
  let '(g', ext') := foldl (add_inputs index nodes) (g, ext) es in
  graph_ok g' nodes (fun j k => E j k \/ exists op, input_of es k op /\ index !! op = Some j) /\
  (forall op, op ∈ ext' <-> op ∈ ext \/ (index !! op = None /\ exists k, input_of es k op)).
Proof.
  intros Hg Hes Hidx. revert g ext E Hg. induction es as [|[i t] es IH]; intros g ext E Hg; cbn [foldl].
  { unfold input_of. split; [|set_solver]. eapply graph_ok_ext; [|exact Hg]. set_solver. }
  unfold add_inputs at 2. cbn [fst snd].
  pose proof (add_input_fold index nodes i (inputs (tx_data t)) g ext E Hg
    (Hes i t ltac:(set_solver)) Hidx) as H1.
  destruct (foldl (add_input index nodes i) (g, ext) _) as [g1 ext1]. destruct H1 as [Hg1 Hext1].
  assert (forall i0 t0, (i0, t0) ∈ es -> is_Some (nodes !! i0)) as Hes' by (intros i0 t0 H0; apply (Hes i0 t0); set_solver).
  specialize (IH Hes' g1 ext1 _ Hg1). destruct (foldl (add_inputs index nodes) _ _) as [g' ext'].
  destruct IH as [Hg' Hext'].
  assert (forall k op, input_of ((i, t) :: es) k op <->
    (k = i /\ exists inp, inp ∈ inputs (tx_data t) /\ op = previous_output inp) \/ input_of es k op) as Hio.
  { intros k op. unfold input_of. setoid_rewrite elem_of_cons. split.
    - intros (t' & inp & [[= -> ->]|?] & ? & ->); [left; eauto|right; eauto 6].
    - intros [(-> & inp & ? & ->)|(t' & inp & ? & ? & ->)]; [exists t, inp; auto|exists t', inp; auto]. }
  split.
  - eapply graph_ok_ext; [|exact Hg']. intros j k. setoid_rewrite Hio. naive_solver.
  - intros op. rewrite Hext', Hext1. setoid_rewrite Hio. naive_solver.
Qed.
End Graph.

(** * Building and ordering *)

Section Build.
Context {X : Externals} {P : PetGraph nat} `{!PetGraphLaws nat}.
Implicit Types (txs : list Transaction) (d : DependencyGraph).

(** Transaction [i] of the block spends [op]; [op] is created by transaction [j]. *)
Definition spends txs (i : nat) (op : OutPoint) : Prop :=
  exists t, txs !! i = Some t /\ op ∈ (previous_output <$> inputs (tx_data t)).
Definition creates txs (j : nat) (op : OutPoint) : Prop :=
  exists t, txs !! j = Some t /\ op ∈ (tx_created t).*1.

(** What a built graph says of a block. *)
Record graph_of txs d : Prop := {
  gf_unique : NoDup (created_list txs).*1;
  gf_index op j : output_index d !! op = Some j <-> creates txs j op;
  gf_external op : op ∈ external_inputs d <->
    (exists i, spends txs i op) /\ op ∉ (created_list txs).*1;
  gf_nodes : length (node_indices d) = length txs;
  gf_deps i j : j ∈ get_transaction_dependencies d i <->
    exists op, spends txs i op /\ creates txs j op;
}.

Lemma creates_list txs op : (exists j, creates txs j op) <-> op ∈ (created_list txs).*1.
Proof.
  unfold creates, created_list. split.
  - intros (j & t & Ht & Hop). apply list_elem_of_lookup_2 in Ht.
    apply list_elem_of_fmap in Hop as (e & -> & He). apply list_elem_of_fmap_2.
    apply list_elem_of_bind. eauto.
  - intros Hop. apply list_elem_of_fmap in Hop as (e & -> & He).
    apply list_elem_of_bind in He as (t & He & Ht). apply list_elem_of_lookup in Ht as [j Hj].
    exists j, t. split; [done|]. by apply list_elem_of_fmap_2.
Qed.

Lemma input_of_enumerate txs i op : input_of (enumerate txs) i op <-> spends txs i op.
Proof.
  unfold input_of, spends. setoid_rewrite elem_of_enumerate. split.
  - intros (t & inp & Ht & Hin & ->). exists t. split; [done|]. by apply list_elem_of_fmap_2.
  - intros (t & Ht & Hop). apply list_elem_of_fmap in Hop as (inp & -> & Hin). eauto.
Qed.

Lemma build_Ok txs d : build txs = Ok d -> graph_of txs d /\ spent_outputs d = ∅.
Proof.
  unfold build. pose proof (graph_ok_nodes (length txs)) as Hn.
  destruct (foldl add_tx_node _ _) as [g nodes]. destruct Hn as [Hlen Hg]. intros Hb.
  apply bind_Ok in Hb as (index & Hidx & Hb).
  apply index_outputs_fold in Hidx as (Hnd & _ & Hix). rewrite enumerate_snd in Hnd.
  assert (forall op j, index !! op = Some j <-> creates txs j op) as Hix'.
  { intros op j. rewrite Hix, lookup_empty. setoid_rewrite elem_of_enumerate. unfold creates. naive_solver. }
  assert (forall i t, (i, t) ∈ enumerate txs -> is_Some (nodes !! i)) as Hrange.
  { intros i t Ht. apply elem_of_enumerate, lookup_lt_Some in Ht. apply lookup_lt_is_Some. lia. }
  pose proof (add_inputs_fold index nodes (enumerate txs) g ∅ _ Hg Hrange) as Hf.
  destruct (foldl (add_inputs index nodes) _ _) as [g' ext]. injection Hb as <-.
  destruct Hf as [Hg' Hext].
  { intros op j Hj. apply Hix' in Hj as (t & Ht & _). apply lookup_lt_Some in Ht.
    apply lookup_lt_is_Some. lia. }
  split; [|done]. split; cbn.
  - done.
  - done.
  - intros op. rewrite Hext. setoid_rewrite input_of_enumerate. rewrite <-creates_list.
    destruct (index !! op) as [j|] eqn:Hj.
    + apply Hix' in Hj. split; [set_solver|]. intros [_ Hno]. destruct Hno. eauto.
    + split; [|set_solver]. intros [?|[_ [i Hi]]]; [set_solver|]. split; [eauto|].
      intros [j Hc]. apply Hix' in Hc. congruence.
  - done.
  - intros i j. unfold get_transaction_dependencies. cbn.
    destruct (nodes !! i) as [n|] eqn:Hi.
    + rewrite list_elem_of_omap. split.
      * intros (s & Hs & Hw). apply (go_incoming _ _ _ Hg' i n s Hi) in Hs as (j' & Hj' & [[]|(op & Hin & Hop)]).
        rewrite (go_weight _ _ _ Hg' _ _ Hj') in Hw. injection Hw as ->.
        exists op. by rewrite <-input_of_enumerate, <-Hix'.
      * intros (op & Hin & Hc). destruct Hc as (t & Ht & Hop).
        destruct (lookup_lt_is_Some_2 nodes j) as [s Hs]; [apply lookup_lt_Some in Ht; lia|].
        exists s. split; [|by apply (go_weight _ _ _ Hg')].
        apply (go_incoming _ _ _ Hg' i n s Hi). exists j. split; [done|]. right. exists op.
        rewrite input_of_enumerate, Hix'. unfold creates. eauto.
    + split; [set_solver|]. intros (op & (t & Ht & _) & _). apply lookup_lt_Some in Ht.
      apply lookup_ge_None in Hi. lia.
Qed.

(** The order check over a list of numbered transactions. *)
Lemma order_input_fold index i ins spent spent' :
  fold_res (order_input index i) spent ins = Ok spent' ->
  NoDup (previous_output <$> ins) /\
  (forall op, op ∈ (previous_output <$> ins) -> op ∉ spent) /\
  (forall op j, op ∈ (previous_output <$> ins) -> index !! op = Some j -> (j < i)%nat) /\
  (forall op, op ∈ spent' <-> op ∈ spent \/ op ∈ (previous_output <$> ins)).
Proof.
  revert spent. induction ins as [|inp ins IH]; intros spent Hf; cbn [fold_res fmap list_fmap] in *.
  { injection Hf as <-. split_and!; [apply NoDup_nil_2|set_solver..]. }
  apply bind_Ok in Hf as (spent1 & H1 & Hf).
  assert (previous_output inp ∉ spent /\ spent1 = {[ previous_output inp ]} ∪ spent /\
    forall j, index !! previous_output inp = Some j -> (j < i)%nat) as (Hni & -> & Hj).
  { unfold order_input in H1. case_bool_decide; [done|].
    destruct (index !! previous_output inp) as [j|].
    - destruct (Nat.leb_spec i j); [done|]. injection H1 as <-. naive_solver.
    - injection H1 as <-. naive_solver. }
  apply IH in Hf as (Hnd & Hout & Hlt & Hin). split_and!.
  - apply NoDup_cons_2; [|done]. intros Hc. apply (Hout _ Hc). set_solver.
  - set_solver.
  - intros op j Hop Hix. apply elem_of_cons in Hop as [->|Hop]; [by apply Hj|by apply (Hlt op)].
  - set_solver.
Qed.

Lemma order_fold index es spent spent' :
  fold_res (fun spent entry => fold_res (order_input index entry.1) spent (inputs (tx_data entry.2)))
    spent es = Ok spent' ->
  NoDup (es ≫= fun e => previous_output <$> inputs (tx_data e.2)) /\
  (forall op, op ∈ (es ≫= fun e => previous_output <$> inputs (tx_data e.2)) -> op ∉ spent) /\
  (forall i op j, input_of es i op -> index !! op = Some j -> (j < i)%nat).
Proof.
  revert spent. induction es as [|[i t] es IH]; intros spent Hf; cbn [fold_res mbind list_bind fst snd] in *.
  { split_and!; [apply NoDup_nil_2|set_solver|]. intros i op j (t & inp & Hin & _). set_solver. }
  apply bind_Ok in Hf as (spent1 & H1 & Hf). apply order_input_fold in H1 as (Hnd1 & Hout1 & Hlt1 & Hin1).
  apply IH in Hf as (Hnd & Hout & Hlt). split_and!.
  - apply NoDup_app. split_and!; [done| |done]. intros op Hop Hc. apply (Hout _ Hc), Hin1. by right.
  - intros op Hop. apply elem_of_app in Hop as [Hop|Hop]; [by apply Hout1|].
    intros Hs. apply (Hout _ Hop), Hin1. by left.
  - intros k op j (t' & inp & Hin & Hinp & ->) Hix. apply elem_of_cons in Hin as [[= -> ->]|Hin].
    + apply (Hlt1 (previous_output inp)); [by apply list_elem_of_fmap_2|done].
    + apply (Hlt k (previous_output inp)); [|done]. exists t', inp. done.
Qed.

Lemma validate_order_Ok txs d d' :
  graph_of txs d -> validate_order d txs = Ok d' ->
  graph_of txs d' /\ NoDup (txs ≫= fun t => previous_output <$> inputs (tx_data t)) /\
  forall i j, j ∈ get_transaction_dependencies d' i -> (j < i)%nat.
Proof.
  intros Hg Ho. unfold validate_order in Ho. apply bind_Ok in Ho as (spent & Ho & Hd). injection Hd as <-.
  apply order_fold in Ho as (Hnd & _ & Hlt).
  assert (graph_of txs (mk_DependencyGraph (output_index d) spent (external_inputs d) (graph d) (node_indices d))) as Hg'
    by (by destruct Hg).
  split; [done|]. split.
  - by rewrite <-(bind_enumerate (fun t => previous_output <$> inputs (tx_data t)) txs).
  - intros i j Hj. apply (gf_deps _ _ Hg') in Hj as (op & Hs & Hc).
    apply (Hlt i op); [by apply input_of_enumerate|]. by apply (gf_index _ _ Hg).
Qed.
End Build.

(** * Parallel execution groups *)

Section Groups.
Context {X : Externals} {P : PetGraph nat}.
Implicit Types (d : DependencyGraph).

(** Earlier-only dependencies, as [validate_order] leaves them. *)
Definition ordered d : Prop := forall i j, j ∈ get_transaction_dependencies d i -> (j < i)%nat.

(** The groups so far are disjoint, list exactly the processed transactions, and no
    transaction comes before one it depends on. *)
Record groups_ok d (processed : gset nat) (groups : list (list nat)) : Prop := {
  gr_nodup : NoDup (mjoin groups);
  gr_elem i : i ∈ mjoin groups <-> i ∈ processed;
  gr_range i : i ∈ processed -> (i < length (node_indices d))%nat;
  gr_before k grp i j : groups !! k = Some grp -> i ∈ grp ->
    j ∈ get_transaction_dependencies d i -> j ∈ mjoin (take k groups);
}.

Lemma elem_of_ready d processed i :
  i ∈ ready_group d processed <->
  (i < length (node_indices d))%nat /\ i ∉ processed /\
  forall j, j ∈ get_transaction_dependencies d i -> j ∈ processed.
Proof.
  unfold ready_group. rewrite list_elem_of_filter, elem_of_seq, Forall_forall. naive_solver lia.
Qed.

Lemma ready_nodup d processed : NoDup (ready_group d processed).
Proof. apply NoDup_filter, NoDup_seq. Qed.

(** While something is unprocessed, the least such transaction is ready. *)
Lemma ready_progress d processed :
  ordered d -> (size processed < length (node_indices d))%nat -> ready_group d processed <> [].
Proof.
  intros Ho Hlt Hnil.
  assert (forall i, (i < length (node_indices d))%nat -> i ∈ processed) as Hall.
  { intros i. induction (lt_wf i) as [i _ IH]. intros Hi.
    destruct (decide (i ∈ processed)) as [|Hni]; [done|]. exfalso.
    assert (i ∈ ready_group d processed) as Hr; [|rewrite Hnil in Hr; set_solver].
    apply elem_of_ready. split_and!; [done..|]. intros j Hj. apply Ho in Hj as Hji. apply IH; lia. }
  assert (list_to_set (seq 0 (length (node_indices d))) ⊆ processed) as Hsub.
  { intros i Hi. apply elem_of_list_to_set, elem_of_seq in Hi. apply Hall. lia. }
  apply subseteq_size in Hsub. rewrite size_list_to_set, length_seq in Hsub by apply NoDup_seq. lia.
Qed.

Lemma groups_step d processed groups :
  groups_ok d processed groups ->
  groups_ok d (processed ∪ list_to_set (ready_group d processed)) (groups ++ [ready_group d processed]).
Proof.
  intros [Hnd Hel Hra Hbe]. assert (mjoin (groups ++ [ready_group d processed]) = mjoin groups ++ ready_group d processed) as Hj.
  { rewrite join_app. cbn. by rewrite app_nil_r. }
  split.
  - rewrite Hj. apply NoDup_app. split_and!; [done| |apply ready_nodup].
    intros i Hi Hr. apply elem_of_ready in Hr as (_ & Hni & _). by apply Hel in Hi.
  - intros i. rewrite Hj, elem_of_app, Hel, elem_of_union, elem_of_list_to_set. done.
  - intros i Hi. apply elem_of_union in Hi as [Hi|Hi]; [by apply Hra|].
    apply elem_of_list_to_set, elem_of_ready in Hi. lia.
  - intros k grp i j Hk Hi Hd. apply lookup_app_Some in Hk as [Hk|[Hge Hk]].
    + rewrite take_app_le by (apply lookup_lt_Some in Hk; lia). by eapply Hbe.
    + apply list_lookup_singleton_Some in Hk as [Hk <-].
      rewrite take_app_le by lia. rewrite take_ge by lia.
      apply elem_of_ready in Hi as (_ & _ & Hi). apply Hel. by apply Hi.
Qed.

Lemma group_loop_ok d fuel processed groups :
  ordered d -> groups_ok d processed groups ->
  (length (node_indices d) <= size processed + fuel)%nat ->
  exists result, group_loop fuel d processed groups = Some result /\
    exists processed', groups_ok d processed' result /\ (length (node_indices d) <= size processed')%nat.
Proof.
  intros Ho. revert processed groups. induction fuel as [|fuel IH]; intros processed groups Hg Hf;
    cbn [group_loop]; destruct (Nat.leb_spec (length (node_indices d)) (size processed)) as [Hle|Hlt];
    try (by eauto); [lia|].
  pose proof (ready_progress d processed Ho Hlt) as Hne. rewrite bool_decide_eq_false_2 by done.
  apply IH; [by apply groups_step|]. rewrite size_union.
  - rewrite size_list_to_set by apply ready_nodup. destruct (ready_group d processed); [done|cbn; lia].
  - intros i Hi Hr. apply elem_of_list_to_set, elem_of_ready in Hr. naive_solver.
Qed.

Lemma groups_total d :
  ordered d ->
  exists groups, get_parallel_execution_groups d = Some groups /\
    mjoin groups ≡ₚ seq 0 (length (node_indices d)) /\
    forall k grp i j, groups !! k = Some grp -> i ∈ grp ->
      j ∈ get_transaction_dependencies d i -> j ∈ mjoin (take k groups).
Proof.
  intros Ho. destruct (group_loop_ok d (length (node_indices d)) ∅ [] Ho) as (groups & Hl & pr & Hg & Hs).
  { split; [apply NoDup_nil_2|set_solver|set_solver|done]. }
  { lia. }
  exists groups. split; [done|]. destruct Hg as [Hnd Hel Hra Hbe]. split; [|done].
  symmetry. apply NoDup_Permutation; [apply NoDup_seq|done|]. intros i. rewrite elem_of_seq, Hel.
  split; [|intros Hi; apply Hra in Hi; lia]. intros Hi.
  assert (pr ⊆ list_to_set (seq 0 (length (node_indices d)))) as Hsub.
  { intros k Hk. apply elem_of_list_to_set, elem_of_seq. apply Hra in Hk. lia. }
  assert (pr = list_to_set (seq 0 (length (node_indices d)))) as ->.
  { apply set_subseteq_size_eq; [done|].
    by rewrite size_list_to_set, length_seq by apply NoDup_seq. }
  apply elem_of_list_to_set, elem_of_seq. lia.
Qed.
End Groups.

Section GroupsProperty.
Context {X : Externals} {P : PetGraph nat} `{!PetGraphLaws nat}.

(** For a block that passes the order check, scheduling into parallel groups
    terminates within one round per transaction and yields a partition of the
    transactions in which every transaction comes strictly after all the transactions
    of the block whose outputs it spends. *)
Theorem execution_groups_total txs d d' :
  build txs = Ok d -> validate_order d txs = Ok d' ->
  exists groups, get_parallel_execution_groups d' = Some groups /\
    mjoin groups ≡ₚ seq 0 (length txs) /\
    forall k grp i j op, groups !! k = Some grp -> i ∈ grp ->
      spends txs i op -> creates txs j op -> j ∈ mjoin (take k groups).
Proof.
  intros Hb Ho. apply build_Ok in Hb as [Hg _]. apply validate_order_Ok in Ho as (Hg' & _ & Hlt); [|done].
  destruct (groups_total d' Hlt) as (groups & Hgr & Hperm & Hbef). exists groups.
  rewrite (gf_nodes _ _ Hg') in Hperm. split_and!; [done|done|].
  intros k grp i j op Hk Hi Hs Hc. apply (Hbef k grp i j Hk Hi), (gf_deps _ _ Hg'). eauto.
Qed.
End GroupsProperty.

Section DependencyWitnesses.
Import Toy ListGraph.

(** A payment and a payment that spends its first output. *)
Definition toy_child : Transaction :=
  new_unsigned (mk_TransactionData 1 Payment
    [mk_TransactionIn (mk_OutPoint (tx_hash (tx_data toy_payment)) 0) 0]
    [mk_TransactionOut 30 toy_owner]).

Definition toy_order : result StryiCoreError (DependencyGraph (P := list_graph) * DependencyGraph) :=
  d ← build [toy_payment; toy_child];
  d' ← validate_order d [toy_payment; toy_child];
  mret (d, d').

Lemma toy_order_ok : is_ok toy_order = true.
Proof. vm_compute. reflexivity. Qed.

Lemma execution_groups_total_witness :
  exists d' groups, get_parallel_execution_groups d' = Some groups /\ mjoin groups ≡ₚ [0; 1]%nat.
Proof.
  pose proof toy_order_ok as Hok. destruct toy_order as [[d d']|] eqn:Ht; [|discriminate Hok].
  unfold toy_order in Ht. apply bind_Ok in Ht as (d0 & Hb & Ht). apply bind_Ok in Ht as (d1 & Ho & _).
  destruct (execution_groups_total _ d0 d1 Hb Ho) as (groups & Hg & Hp & _).
  exists d1, groups. exact (conj Hg Hp).
Defined.
End DependencyWitnesses.
