(* ===== verification/Validator.v ===== *)
(** Validator: the block validation pipeline. Header rules
    ([consensus/validator/header.rs]), block structure and in-block transaction rules
    ([consensus/validator/block.rs], [consensus/validator/tx.rs]) and the pipeline that
    combines them ([consensus/validator/mod.rs]). *)
From S2P Require Import Prelude Bytes Types Externals Petgraph Hashing Work Merkle Transactions Blocks Storage UtxoProcessor Overlay Transition Difficulty Dependencies.

(** * Header rules *)

Section Header.
Context {X : Externals} {S : Type} `{BlockStorage S}.

Abbreviation invalid msg := (ConsensusValidationFailed msg).

(** [verify_header_shape] *)
Definition verify_header_shape (block : Block) : result StryiCoreError unit :=
  _ ← verify_genesis_work_shape block;
  ensure (negb (negb (header_is_genesis (header block)) && (hash_threshold (header block) =? 0)))
    (invalid "normal block must carry a positive hash threshold (ZERO is genesis-only)").

(** [verify_timestamp] *)
Definition verify_timestamp (block : Block) (state : S) (now_secs : Z) : result StryiCoreError unit :=
  median ← median_time_past state (previous_block_hash (header block));
  _ ← ensure (median <? timestamp (header block))
        (invalid "block timestamp must be greater than median time past");
  ensure (timestamp (header block) <=? saturating_add 64 now_secs MAX_FUTURE_BLOCK_TIME_SECS)
    (invalid "block timestamp exceeds future time limit").

(** [verify_hash_threshold] *)
Definition verify_hash_threshold (block : Block) (calc : DifficultyCalc) (state : S) :
    result StryiCoreError unit :=
  if header_is_genesis (header block) then Ok tt
  else
    expected ← next_hash_threshold calc state (previous_block_hash (header block));
    ensure (hash_threshold (header block) =? expected)
      (invalid "Invalid hash threshold: expected {}, got {}").

(** [verify_proof_of_work] *)
Definition verify_proof_of_work (block : Block) : result StryiCoreError unit :=
  if header_is_genesis (header block) then Ok tt
  else ensure (meets_threshold (block_hash block) (hash_threshold (header block)))
         (invalid "Block does not meet required Proof-of-Work threshold").

(** [verify_merkle_root] *)
Definition verify_merkle_root (block : Block) : result StryiCoreError unit :=
  ensure (bool_decide (merkle_root_hash (header block) = compute_merkle_root (transactions block)))
    (invalid "Merkle root mismatch").

(** [validate_header]; [now] is the outcome of reading the system clock. *)
Definition validate_header (block : Block) (calc : DifficultyCalc) (state : S)
    (now : result string Z) : result StryiCoreError unit :=
  _ ← verify_header_shape block;
  _ ← (if negb (header_is_genesis (header block)) then
         now_secs ← map_err Other now;
         verify_timestamp block state now_secs
       else Ok tt);
  _ ← verify_hash_threshold block calc state;
  _ ← verify_proof_of_work block;
  verify_merkle_root block.
End Header.

(** * Block structure *)

Section Structure.
Abbreviation invalid msg := (ConsensusValidationFailed msg).

(** [ensure_unique_txs] *)
Definition ensure_unique_txs (block : Block) : result StryiCoreError unit :=
  let uniq : gset Transaction := list_to_set (transactions block) in
  ensure (size uniq =? length (transactions block))%nat
    (invalid "Block contains duplicated transactions").

(** The loop over the transactions after the first. *)
Definition check_rest (_ : unit) (t : Transaction) : result StryiCoreError unit :=
  match kind (tx_data t) with
  | Payment => Ok tt
  | Coinbase _ _ =>
      Err (invalid "Block cannot contain multiple Coinbase transactions (extra Coinbase at index {idx})")
  | Genesis =>
      Err (invalid "Genesis transaction is forbidden in non-genesis blocks (found at index {idx})")
  end.

(** [ensure_transaction_composition] *)
Definition ensure_transaction_composition (block : Block) : result StryiCoreError unit :=
  if header_is_genesis (header block) then Ok tt
  else
    match transactions block with
    | [] => Err (invalid "Block transaction list cannot be empty")
    | first :: rest =>
        _ ← ensure (negb (bool_decide (kind (tx_data first) = Genesis)))
              (invalid "Genesis transaction is forbidden in non-genesis blocks");
        _ ← ensure (is_coinbase first)
              (invalid "First transaction must be a Coinbase transaction");
        fold_res check_rest tt rest
    end.

(** [ensure_unique_inputs] *)
Definition see_input (seen : gset OutPoint) (inp : TransactionIn) : result StryiCoreError (gset OutPoint) :=
  let op := previous_output inp in
  if bool_decide (op ∈ seen) then Err (TxDoubleSpend (txid op) (vout op))
  else Ok ({[ op ]} ∪ seen).

Definition ensure_unique_inputs (txs : list Transaction) : result StryiCoreError unit :=
  _ ← fold_res (fun seen t =>
        if is_payment t then fold_res see_input seen (inputs (tx_data t)) else Ok seen) ∅ txs;
  mret tt.

(** [ensure_coinbase_context] *)
Definition ensure_coinbase_context (block : Block) : result StryiCoreError unit :=
  if header_is_genesis (header block) then Ok tt
  else
    match (fun t => kind (tx_data t)) <$> head (transactions block) with
    | Some (Coinbase h parent) =>
        ensure ((h =? height (header block)) && bool_decide (parent = previous_block_hash (header block)))
          (invalid "Coinbase height and parent must match the block header")
    | _ => Ok tt
    end.

(** [validate_block_structure] *)
Definition validate_block_structure (block : Block) : result StryiCoreError unit :=
  _ ← ensure_unique_txs block;
  _ ← ensure_transaction_composition block;
  _ ← ensure_unique_inputs (transactions block);
  ensure_coinbase_context block.
End Structure.

(** * Transactions against the UTXO set *)

Section Tx.
Context {X : Externals}.
Abbreviation invalid msg := (ConsensusValidationFailed msg).
Implicit Types (managed in_block : gmap OutPoint UTXO) (spent : gset OutPoint).

(** [resolve_utxo] *)
Definition resolve_utxo (op : OutPoint) in_block managed : result StryiCoreError UTXO :=
  ok_or (match in_block !! op with Some u => Some u | None => managed !! op end)
    (TxMissingUtxo (txid op) (vout op)).

(** [iter().try_fold(0u64, |acc, o| acc.checked_add(o.value))] *)
Definition sum_outputs (outs : list TransactionOut) : option Z :=
  foldl (fun acc o => acc ← acc; checked_add 64 acc (value o)) (Some 0) outs.

Definition validate_genesis_tx (t : Transaction) : result StryiCoreError unit :=
  ensure (bool_decide (inputs (tx_data t) = []) && negb (bool_decide (outputs (tx_data t) = [])))
    (invalid "Invalid Genesis transaction structure").

Definition validate_coinbase_tx (t : Transaction) : result StryiCoreError unit :=
  ensure (bool_decide (inputs (tx_data t) = []) && (length (outputs (tx_data t)) =? 1)%nat)
    (invalid "Invalid Coinbase transaction structure").

(** One iteration of the input loop of [validate_payment_tx]: reserve the outpoint,
    resolve it, check ownership, accumulate. *)
Definition pay_input managed in_block (author : AccountAddress) (acc : Z * gset OutPoint)
    (inp : TransactionIn) : result StryiCoreError (Z * gset OutPoint) :=
  let op := previous_output inp in
  if bool_decide (op ∈ acc.2) then Err (TxDoubleSpend (txid op) (vout op))
  else
    utxo ← resolve_utxo op in_block managed;
    _ ← ensure (bool_decide (owner utxo = author)) (TxWrongOwner (owner utxo) author);
    in_sum ← ok_or (checked_add 64 acc.1 (utxo_value utxo)) (invalid "Overflow while summing inputs");
    mret (in_sum, {[ op ]} ∪ acc.2).

(** [validate_payment_tx], with the updated reservation set. *)
Definition validate_payment_tx (t : Transaction) managed in_block spent :
    result StryiCoreError (gset OutPoint) :=
  pk ← map_err (fun _ => invalid "Failed to recover public key") (recover_public_key t);
  let author := from_public_key pk in
  acc ← fold_res (pay_input managed in_block author) (0, spent) (inputs (tx_data t));
  out_sum ← ok_or (sum_outputs (outputs (tx_data t))) (invalid "Overflow while summing outputs");
  _ ← ensure (out_sum <=? acc.1) (TxInsufficientInputValue acc.1 out_sum);
  mret acc.2.

(** [validate_transaction] *)
Definition validate_transaction (t : Transaction) managed in_block spent :
    result StryiCoreError (gset OutPoint) :=
  match kind (tx_data t) with
  | Genesis => _ ← validate_genesis_tx t; mret spent
  | Coinbase _ _ => _ ← validate_coinbase_tx t; mret spent
  | Payment => validate_payment_tx t managed in_block spent
  end.

(** One transaction of [calculate_total_fees]. *)
Definition fee_step managed in_block (total : Z) (t : Transaction) : result StryiCoreError Z :=
  if negb (is_payment t) then Ok total
  else
    ins ← fold_res (fun ins inp =>
        u ← resolve_utxo (previous_output inp) in_block managed;
        ok_or (checked_add 64 ins (utxo_value u)) (invalid "Overflow while summing input values"))
      0 (inputs (tx_data t));
    outs ← ok_or (sum_outputs (outputs (tx_data t))) (invalid "Overflow while summing output values");
    fee ← ok_or (checked_sub ins outs) (invalid "Outputs exceed inputs");
    ok_or (checked_add 64 total fee) (invalid "Overflow while accumulating total fees").

(** [calculate_total_fees] *)
Definition calculate_total_fees (block : Block) managed in_block : result StryiCoreError Z :=
  fold_res (fee_step managed in_block) 0 (transactions block).

(** [reward_rule]. Indexing panics where the list is too short; after the structure
    checks and the coinbase rule it is not ([validated_block_sound] needs no such case). *)
Definition reward_rule (block : Block) (rules : ConsensusConsts) managed in_block :
    result StryiCoreError unit :=
  fees ← calculate_total_fees block managed in_block;
  let subsidy := block_subsidy rules (height (header block)) in
  max_reward ← ok_or (checked_add 64 subsidy fees) (invalid "Overflow while computing (subsidy + fees)");
  coinbase ← ok_or (t ← head (transactions block); head (outputs (tx_data t)))
    (Other "index out of bounds");
  ensure (value coinbase <=? max_reward) (ConsensusInvalidCoinbaseAmount max_reward (value coinbase)).
End Tx.

Section Block.
Context {X : Externals} {P : PetGraph nat} {S : Type} `{UtxoStorage S}.

(** The order in which rayon's workers take the transactions of a group: any
    permutation. *)
Variable schedule : list nat -> list nat.

(** [validate_group] *)
Definition validate_group (idxs : list nat) (txs : list Transaction)
    (managed in_block : gmap OutPoint UTXO) (spent : gset OutPoint) :
    result StryiCoreError (gset OutPoint) :=
  fold_res (fun spent index =>
    t ← ok_or (txs !! index) (Other "index out of bounds");
    validate_transaction t managed in_block spent) spent (schedule idxs).

(** [build_dependency_context]; the fetched map is keyed by the external inputs. *)
Definition build_dependency_context (txs : list Transaction) (utxo_storage : S) :
    result StryiCoreError (DependencyGraph * gmap OutPoint UTXO) :=
  graph ← build txs;
  graph ← validate_order graph txs;
  let external_deps := get_external_dependencies graph in
  managed_utxos ←
    (if bool_decide (external_deps = ∅) then Ok ∅
     else map_err (fun error =>
            match error with
            | UtxoNotFound outpoint => TxMissingUtxo (txid outpoint) (vout outpoint)
            | error => CoreStorageError LUtxo error
            end) (batch_get_utxos utxo_storage (elements external_deps)));
  mret (graph, managed_utxos).

(** [validate_transactions]. The map [in_block] is created empty, and no later step
    adds to it. The scheduling loop always ends here ([execution_groups_total]). *)
Definition validate_transactions (block : Block) (rules : ConsensusConsts) (utxo_storage : S) :
    result StryiCoreError unit :=
  context ← build_dependency_context (transactions block) utxo_storage;
  let '(graph, managed) := context in
  let in_block : gmap OutPoint UTXO := ∅ in
  groups ← ok_or (get_parallel_execution_groups graph) (Other "scheduling does not end");
  _ ← fold_res (fun spent grp => validate_group grp (transactions block) managed in_block spent) ∅ groups;
  if negb (header_is_genesis (header block)) then reward_rule block rules managed in_block
  else Ok tt.
End Block.

(** * The pipeline *)

Record BlockValidator := mk_BlockValidator {
  validator_consts : ConsensusConsts;
  difficulty_calc : DifficultyCalc;
}.

Section Pipeline.
Context {X : Externals} {P : PetGraph nat} {DB : Type} `{BlockStorage DB} `{UtxoStorage DB}.
Variables (schedule : list nat -> list nat) (now : result string Z).

(** [BlockValidator::validate] *)
Definition validate (v : BlockValidator) (block : Block) (db : DB) : result StryiCoreError unit :=
  _ ← validate_header block (difficulty_calc v) db now;
  _ ← validate_block_structure block;
  validate_transactions schedule block (validator_consts v) db.

(** [BlockValidator::validate_for_fork] *)
Definition validate_for_fork (v : BlockValidator) (block : Block) (view : DB) :
    result StryiCoreError unit :=
  _ ← validate_header block (difficulty_calc v) view now;
  _ ← validate_block_structure block;
  validate_transactions schedule block (validator_consts v) view.
End Pipeline.

(** * What the checks decide *)

(** Adding up machine words with [checked_add]. *)
Section CheckedSums.
Implicit Types (l : list Z).

Definition sum_from (acc : option Z) l : option Z :=
  foldl (fun acc x => acc ← acc; checked_add 64 acc x) acc l.

Lemma sum_from_None l : sum_from None l = None.
Proof. induction l as [|x l IH]; [done|exact IH]. Qed.

Lemma sum_from_zsum l a s : sum_from (Some a) l = Some s -> s = a + zsum l.
Proof.
  revert a. induction l as [|x l IH]; intros a Hs.
  { injection Hs as <-. unfold zsum. cbn. lia. }
  change (sum_from (checked_add 64 a x) l = Some s) in Hs.
  destruct (checked_add 64 a x) as [y|] eqn:Hc; [|by rewrite sum_from_None in Hs].
  apply checked_add_Some in Hc as [-> _]. apply IH in Hs. rewrite zsum_cons. lia.
Qed.

(** With no negative term the sum is defined exactly when it fits. *)
Lemma sum_from_fits l a :
  Forall (fun x => 0 <= x) l -> 0 <= a < 2 ^ 64 ->
  sum_from (Some a) l = if a + zsum l <? 2 ^ 64 then Some (a + zsum l) else None.
Proof.
  intros Hl. revert a. induction Hl as [|x l Hx Hl IH]; intros a Ha.
  { change (zsum []) with 0. rewrite Z.add_0_r. by destruct (Z.ltb_spec a (2 ^ 64)); [|lia]. }
  change (sum_from (checked_add 64 a x) l = if a + zsum (x :: l) <? 2 ^ 64 then Some (a + zsum (x :: l)) else None).
  rewrite zsum_cons. pose proof (zsum_nonneg l Hl). unfold checked_add.
  destruct (Z.ltb_spec (a + x) (2 ^ 64)).
  - rewrite IH by lia. by rewrite Z.add_assoc.
  - rewrite sum_from_None. by destruct (Z.ltb_spec (a + (x + zsum l)) (2 ^ 64)); [lia|].
Qed.

Lemma sum_outputs_eq outs : sum_outputs outs = sum_from (Some 0) (value <$> outs).
Proof.
  unfold sum_outputs, sum_from. generalize (Some 0) as a.
  induction outs as [|o outs IH]; intros a; [done|]. cbn [fmap list_fmap foldl]. apply IH.
Qed.
End CheckedSums.

Section TxFacts.
Context {X : Externals}.
Implicit Types (managed : gmap OutPoint UTXO) (spent : gset OutPoint) (t : Transaction).

Lemma resolve_managed op managed u :
  resolve_utxo op ∅ managed = Ok u <-> managed !! op = Some u.
Proof. unfold resolve_utxo. rewrite lookup_empty. apply ok_or_Ok. Qed.

(** An outpoint that the address may spend. *)
Definition spendable_by managed (author : AccountAddress) (op : OutPoint) : Prop :=
  exists u, managed !! op = Some u /\ owner u = author.

Lemma pay_input_eq managed author z spent inp :
  pay_input managed ∅ author (z, spent) inp =
    if bool_decide (previous_output inp ∈ spent) then
      Err (TxDoubleSpend (txid (previous_output inp)) (vout (previous_output inp)))
    else
      utxo ← resolve_utxo (previous_output inp) ∅ managed;
      _ ← ensure (bool_decide (owner utxo = author)) (TxWrongOwner (owner utxo) author);
      in_sum ← ok_or (checked_add 64 z (utxo_value utxo)) (ConsensusValidationFailed "Overflow while summing inputs");
      mret (in_sum, {[ previous_output inp ]} ∪ spent).
Proof. done. Qed.

Lemma pay_input_Ok managed author z spent inp z' spent' :
  pay_input managed ∅ author (z, spent) inp = Ok (z', spent') <->
  previous_output inp ∉ spent /\ spendable_by managed author (previous_output inp) /\
  checked_add 64 z (value_at managed (previous_output inp)) = Some z' /\
  spent' = {[ previous_output inp ]} ∪ spent.
Proof.
  rewrite pay_input_eq. unfold spendable_by, value_at, resolve_utxo. rewrite lookup_empty.
  case_bool_decide as Hin; [naive_solver|].
  destruct (managed !! previous_output inp) as [u|]; cbn; [|naive_solver].
  case_bool_decide as Hown; cbn; [|naive_solver].
  destruct (checked_add 64 z (utxo_value u)) as [y|]; cbn; [|naive_solver].
  split; [intros [= <- <-]; split_and!; [done|by exists u|done|done]|]. intros (_ & _ & [= ->] & ->). done.
Qed.

Lemma pay_inputs_iff managed author ins z spent z' spent' :
  fold_res (pay_input managed ∅ author) (z, spent) ins = Ok (z', spent') <->
  NoDup (previous_output <$> ins) /\
  (forall op, op ∈ (previous_output <$> ins) -> op ∉ spent) /\
  Forall (spendable_by managed author) (previous_output <$> ins) /\
  sum_from (Some z) (value_at managed <$> (previous_output <$> ins)) = Some z' /\
  spent' = list_to_set (previous_output <$> ins) ∪ spent.
Proof.
  revert z spent. induction ins as [|inp ins IH]; intros z spent.
  { cbn. rewrite (left_id_L ∅ (∪)). split.
    - intros [= <- <-]. split_and!; [apply NoDup_nil_2|set_solver|done..].
    - naive_solver. }
  cbn [fold_res fmap list_fmap list_to_set]. set (op := previous_output inp).
  change (sum_from (Some z) (value_at managed op :: (value_at managed <$> (previous_output <$> ins))))
    with (sum_from (checked_add 64 z (value_at managed op)) (value_at managed <$> (previous_output <$> ins))).
  rewrite bind_Ok, NoDup_cons, Forall_cons. split.
  - intros ([y spent1] & H1 & Hf). apply pay_input_Ok in H1 as (Hni & Hsp & Hadd & ->).
    fold op in Hni, Hsp, Hadd.
    apply IH in Hf as (Hnd & Hout & Hall & Hs & ->). fold op in Hout |- *. rewrite Hadd.
    split_and!; [|done| |done|done|done|set_solver].
    + intros Hc. apply (Hout _ Hc). set_solver.
    + intros op' Hop'. apply elem_of_cons in Hop' as [->|Hop']; [done|]. specialize (Hout _ Hop'). set_solver.
  - intros ((Hni & Hnd) & Hout & [Hsp Hall] & Hs & ->).
    destruct (checked_add 64 z (value_at managed op)) as [y|] eqn:Hadd; [|by rewrite sum_from_None in Hs].
    exists (y, {[ op ]} ∪ spent). split.
    { apply pay_input_Ok. split_and!; [apply Hout; set_solver|done..]. }
    apply IH. split_and!; [done| |done|done|set_solver].
    intros op' Hop'. specialize (Hout op' ltac:(set_solver)). intros Hc.
    apply elem_of_union in Hc as [Hc|Hc]; [|done]. apply elem_of_singleton in Hc as ->. done.
Qed.
End TxFacts.

(** ** Transactions *)

(** What a transaction must satisfy against the fetched entries. *)
Section TxValid.
Context {X : Externals}.
Implicit Types (managed : gmap OutPoint UTXO) (spent : gset OutPoint) (t : Transaction) (ts : list Transaction).

(** The outputs of a transaction, added up. *)
Definition out_total t : Z := zsum (value <$> outputs (tx_data t)).
(** The value a payment takes from the entries. *)
Definition in_total managed t : Z := zsum (value_at managed <$> spent_by t).

(** A payment whose signature recovers an address that owns every input, with totals
    that fit a machine word and cover the outputs. *)
Definition payment_valid managed t : Prop :=
  exists pk ins outs,
    recover_public_key t = Ok pk /\
    Forall (spendable_by managed (from_public_key pk)) (spent_by t) /\
    sum_from (Some 0) (value_at managed <$> spent_by t) = Some ins /\
    sum_from (Some 0) (value <$> outputs (tx_data t)) = Some outs /\
    outs <= ins.

Definition tx_valid managed t : Prop :=
  match kind (tx_data t) with
  | Genesis => inputs (tx_data t) = [] /\ outputs (tx_data t) <> []
  | Coinbase _ _ => inputs (tx_data t) = [] /\ exists o, outputs (tx_data t) = [o]
  | Payment => payment_valid managed t
  end.

Lemma spent_by_payment t : kind (tx_data t) = Payment -> spent_by t = previous_output <$> inputs (tx_data t).
Proof. intros Hk. unfold spent_by, is_payment. by rewrite bool_decide_eq_true_2. Qed.

Lemma spent_by_other t : kind (tx_data t) <> Payment -> spent_by t = [].
Proof. intros Hk. unfold spent_by, is_payment. by rewrite bool_decide_eq_false_2. Qed.

Lemma validate_payment_iff managed spent t spent' :
  kind (tx_data t) = Payment ->
  validate_payment_tx t managed ∅ spent = Ok spent' <->
  payment_valid managed t /\ NoDup (spent_by t) /\ (forall op, op ∈ spent_by t -> op ∉ spent) /\
  spent' = list_to_set (spent_by t) ∪ spent.
Proof.
  intros Hk. rewrite (spent_by_payment t Hk) by done. unfold validate_payment_tx, payment_valid.
  rewrite (spent_by_payment t Hk), sum_outputs_eq. split.
  - intros Hv. apply bind_Ok in Hv as (pk & Hpk & Hv). apply map_err_Ok in Hpk.
    apply bind_Ok in Hv as ([ins spent1] & Hins & Hv).
    apply bind_Ok in Hv as (outs & Houts & Hv). apply ok_or_Ok in Houts.
    apply bind_Ok in Hv as ([] & Hle & Hv). apply ensure_Ok, Z.leb_le in Hle. injection Hv as <-.
    apply pay_inputs_iff in Hins as (Hnd & Hout & Hall & Hsum & ->).
    split_and!; [|done..]. by exists pk, ins, outs.
  - intros ((pk & ins & outs & Hpk & Hall & Hsum & Houts & Hle) & Hnd & Hout & ->).
    rewrite Hpk. cbn [map_err mbind result_bind].
    rewrite (proj2 (pay_inputs_iff managed (from_public_key pk) _ 0 spent ins _) (conj Hnd (conj Hout (conj Hall (conj Hsum eq_refl))))).
    cbn [mbind result_bind fst snd]. rewrite Houts. cbn [ok_or mbind result_bind].
    by rewrite (proj2 (Z.leb_le _ _) Hle).
Qed.

Lemma validate_transaction_iff managed spent t spent' :
  validate_transaction t managed ∅ spent = Ok spent' <->
  tx_valid managed t /\ NoDup (spent_by t) /\ (forall op, op ∈ spent_by t -> op ∉ spent) /\
  spent' = list_to_set (spent_by t) ∪ spent.
Proof.
  unfold validate_transaction, tx_valid. destruct (kind (tx_data t)) eqn:Hk.
  3: by apply validate_payment_iff.
  all: rewrite (spent_by_other t) by (by rewrite Hk); rewrite list_to_set_nil, (left_id_L ∅ (∪)), bind_Ok.
  - assert (validate_coinbase_tx t = Ok tt <-> inputs (tx_data t) = [] /\ exists o, outputs (tx_data t) = [o]) as Hv.
    { unfold validate_coinbase_tx. rewrite ensure_Ok, andb_true_iff, bool_decide_eq_true, Nat.eqb_eq.
      destruct (outputs (tx_data t)) as [|o [|o' l]]; cbn; naive_solver. }
    split; [intros ([] & H1 & [= <-])|intros (H1 & _ & _ & ->); exists tt; by rewrite Hv].
    split_and!; [by apply Hv|by apply Hv|apply NoDup_nil_2|set_solver|done].
  - assert (validate_genesis_tx t = Ok tt <-> inputs (tx_data t) = [] /\ outputs (tx_data t) <> []) as Hv.
    { unfold validate_genesis_tx. by rewrite ensure_Ok, andb_true_iff, negb_true_iff, bool_decide_eq_true, bool_decide_eq_false. }
    split; [intros ([] & H1 & [= <-])|intros (H1 & _ & _ & ->); exists tt; by rewrite Hv].
    split_and!; [by apply Hv|by apply Hv|apply NoDup_nil_2|set_solver|done].
Qed.

Lemma union_swap (A B C : gset OutPoint) : A ∪ (B ∪ C) = B ∪ A ∪ C.
Proof. by rewrite (assoc_L (∪)), (comm_L (∪) A B). Qed.

(** Validating a list of transactions one by one. *)
Lemma validate_list_iff managed ts spent spent' :
  fold_res (fun spent t => validate_transaction t managed ∅ spent) spent ts = Ok spent' <->
  Forall (tx_valid managed) ts /\ NoDup (spent_list ts) /\
  (forall op, op ∈ spent_list ts -> op ∉ spent) /\ spent' = list_to_set (spent_list ts) ∪ spent.
Proof.
  revert spent. unfold spent_list. induction ts as [|t ts IH]; intros spent; cbn [fold_res mbind list_bind].
  { cbn. rewrite (left_id_L ∅ (∪)). split.
    - intros [= <-]. split_and!; [constructor|apply NoDup_nil_2|set_solver|done].
    - naive_solver. }
  rewrite bind_Ok, Forall_cons, NoDup_app, list_to_set_app_L. split.
  - intros (spent1 & H1 & Hf). apply validate_transaction_iff in H1 as (Hv & Hnd1 & Hout1 & ->).
    apply IH in Hf as (Hall & Hnd & Hout & ->). split_and!; [done..| |done| |].
    + intros op Hop Hc. apply (Hout op Hc). apply elem_of_union_l. by apply elem_of_list_to_set.
    + intros op Hop. apply elem_of_app in Hop as [Hop|Hop]; [by apply Hout1|].
      intros Hc. apply (Hout op Hop). by apply elem_of_union_r.
    + apply union_swap.
  - intros ((Hv & Hall) & (Hnd1 & Hdis & Hnd) & Hout & ->).
    exists (list_to_set (spent_by t) ∪ spent). split.
    { apply validate_transaction_iff. split_and!; [done..| |done]. intros op Hop. apply Hout, elem_of_app. by left. }
    apply IH. split_and!; [done..| |].
    + intros op Hop Hc. apply elem_of_union in Hc as [Hc|Hc].
      * apply elem_of_list_to_set in Hc. by apply (Hdis op).
      * apply (Hout op); [apply elem_of_app; by right|done].
    + symmetry. apply union_swap.
Qed.

#[export] Instance spent_list_perm : Proper (Permutation ==> Permutation) spent_list.
Proof. intros ts ts' Hp. unfold spent_list. by apply bind_Permutation. Qed.

(** Being accepted does not depend on the order. *)
Lemma validate_list_perm managed ts ts' :
  ts ≡ₚ ts' ->
  is_ok (fold_res (fun spent t => validate_transaction t managed ∅ spent) ∅ ts) =
  is_ok (fold_res (fun spent t => validate_transaction t managed ∅ spent) ∅ ts').
Proof.
  intros Hp. apply eq_iff_eq_true.
  assert (forall l, is_ok (fold_res (fun spent t => validate_transaction t managed ∅ spent) ∅ l) = true <->
    Forall (tx_valid managed) l /\ NoDup (spent_list l)) as Hiff.
  { intros l. pose proof (validate_list_iff managed l ∅) as Hi.
    destruct (fold_res _ ∅ l) as [s|e]; cbn; split.
    - intros _. specialize (Hi s). apply proj1 in Hi. destruct (Hi eq_refl) as (? & ? & _). done.
    - done.
    - done.
    - intros [Hall Hnd]. destruct (Hi (list_to_set (spent_list l) ∪ ∅)) as [_ Hbad].
      discriminate Hbad. split_and!; [done..|set_solver|done]. }
  by rewrite !Hiff, Hp.
Qed.
End TxValid.

(** ** Blocks *)

Section Groups.
Context {E S A B : Type}.

Lemma fold_res_join (f : S -> A -> result E S) (h : B -> list A) s gs :
  fold_res (fun s g => fold_res f s (h g)) s gs = fold_res f s (mjoin (h <$> gs)).
Proof.
  revert s. induction gs as [|g gs IH]; intros s; [done|]. cbn [fold_res fmap list_fmap mjoin list_join].
  rewrite fold_res_app. destruct (fold_res f s (h g)); cbn [mbind result_bind]; [apply IH|done].
Qed.

Lemma fold_res_index (f : S -> A -> result E S) (e : E) (l : list A) idxs s :
  Forall (fun i => i < length l)%nat idxs ->
  fold_res (fun s i => a ← ok_or (l !! i) e; f s a) s idxs = fold_res f s (omap (l !!.) idxs).
Proof.
  intros Hr. revert s. induction Hr as [|i idxs Hi Hr IH]; intros s; [done|].
  apply lookup_lt_is_Some_2 in Hi as [a Ha]. cbn [fold_res omap list_omap]. rewrite Ha.
  cbn [ok_or mbind result_bind fold_res]. destruct (f s a); cbn [mbind result_bind]; [apply IH|done].
Qed.

Lemma omap_seq (l : list A) : omap (l !!.) (seq 0 (length l)) = l.
Proof.
  assert (forall l1 l2 : list A, omap ((l1 ++ l2) !!.) (seq (length l1) (length l2)) = l2) as Hg.
  { intros l1 l2. revert l1. induction l2 as [|a l2 IH]; intros l1; [done|].
    cbn [length seq omap list_omap]. rewrite list_lookup_middle by done.
    f_equal. specialize (IH (l1 ++ [a])). rewrite length_app, <-app_assoc in IH. cbn in IH.
    rewrite Nat.add_1_r in IH. exact IH. }
  apply (Hg [] l).
Qed.

Lemma schedule_perm (schedule : list A -> list A) gs :
  (forall l, schedule l ≡ₚ l) -> mjoin (schedule <$> gs) ≡ₚ mjoin gs.
Proof.
  intros Hs. induction gs as [|g gs IH]; [done|]. cbn [fmap list_fmap mjoin list_join]. by rewrite Hs, IH.
Qed.
End Groups.

Section BlockFacts.
Context {X : Externals} {P : PetGraph nat} `{!PetGraphLaws nat} {S : Type} `{UtxoReadLaws S}.
Implicit Types (s : S) (b : Block) (d : DependencyGraph).

(** The context a validated block works with: the entries of its external inputs. *)
Lemma dependency_context_Ok txs s d managed :
  build_dependency_context txs s = Ok (d, managed) ->
  graph_of txs d /\ ordered d /\ NoDup (txs ≫= fun t => previous_output <$> inputs (tx_data t)) /\
  forall op, managed !! op = if decide (op ∈ external_inputs d) then utxo_view s !! op else None.
Proof.
  unfold build_dependency_context. intros Hc. apply bind_Ok in Hc as (d0 & Hb & Hc).
  apply bind_Ok in Hc as (d1 & Ho & Hc). apply build_Ok in Hb as [Hg _].
  apply validate_order_Ok in Ho as (Hg' & Hnd & Hord); [|done].
  apply bind_Ok in Hc as (m & Hm & Hc). injection Hc as <- <-. split_and!; [done..|].
  unfold get_external_dependencies in Hm. case_bool_decide as He.
  - injection Hm as <-. intros op. by rewrite He, decide_False, lookup_empty by set_solver.
  - apply map_err_Ok in Hm. intros op. pose proof (batch_get_view s (elements (external_inputs d1))) as Hv.
    destruct (first_missing _ _) as [op'|]; [rewrite Hv in Hm; discriminate Hm|].
    destruct Hv as (m' & Hm' & Hl). rewrite Hm' in Hm. injection Hm as <-. rewrite Hl.
    apply decide_ext. apply elem_of_elements.
Qed.

Variable schedule : list nat -> list nat.
Hypothesis schedule_permutes : forall l, schedule l ≡ₚ l.

Lemma validate_groups_ok txs managed groups :
  mjoin groups ≡ₚ seq 0 (length txs) ->
  is_ok (fold_res (fun spent grp => validate_group schedule grp txs managed ∅ spent) ∅ groups) =
  is_ok (fold_res (fun spent t => validate_transaction t managed ∅ spent) ∅ txs).
Proof.
  intros Hp. unfold validate_group. rewrite fold_res_join, fold_res_index.
  - apply validate_list_perm. rewrite (schedule_perm schedule groups schedule_permutes), Hp. by rewrite omap_seq.
  - rewrite (schedule_perm schedule groups schedule_permutes), Hp. apply Forall_forall. intros i Hi.
    apply elem_of_seq in Hi. lia.
Qed.

(** The decision of [validate_transactions], in which no schedule occurs. *)
Definition txs_accepted b (rules : ConsensusConsts) s : Prop :=
  exists d managed, build_dependency_context (transactions b) s = Ok (d, managed) /\
    Forall (tx_valid managed) (transactions b) /\ NoDup (spent_list (transactions b)) /\
    (header_is_genesis (header b) = false -> reward_rule b rules managed ∅ = Ok tt).

Lemma validate_transactions_iff b rules s :
  validate_transactions schedule b rules s = Ok tt <-> txs_accepted b rules s.
Proof.
  unfold validate_transactions, txs_accepted.
  destruct (build_dependency_context (transactions b) s) as [[d managed]|e] eqn:Hc; cbn [mbind result_bind].
  2: naive_solver.
  destruct (dependency_context_Ok _ _ _ _ Hc) as (Hg & Hord & _ & _).
  destruct (groups_total d Hord) as (groups & -> & Hp & _). cbn [ok_or mbind result_bind].
  rewrite (gf_nodes _ _ Hg) in Hp.
  pose proof (validate_groups_ok (transactions b) managed groups Hp) as Hok.
  pose proof (validate_list_iff managed (transactions b) ∅) as Hl.
  destruct (fold_res _ ∅ groups) as [s1|e1], (fold_res _ ∅ (transactions b)) as [s2|e2]; try done;
    cbn [mbind result_bind].
  - specialize (Hl s2). apply proj1 in Hl. destruct (Hl eq_refl) as (Hall & Hnd & _).
    destruct (header_is_genesis (header b)); cbn [negb]; split.
    + intros _. exists d, managed. done.
    + done.
    + intros Hr. exists d, managed. done.
    + intros (d' & m' & [= <- <-] & _ & _ & Hr). by apply Hr.
  - split; [done|]. intros (d' & m' & [= <- <-] & Hall & Hnd & _).
    destruct (Hl (list_to_set (spent_list (transactions b)) ∪ ∅)) as [_ Hbad].
    discriminate Hbad. split_and!; [done..|set_solver|done].
Qed.
End BlockFacts.

(** ** Fees and the reward *)

Section Fees.
Context {X : Externals}.
Implicit Types (managed : gmap OutPoint UTXO) (t : Transaction) (ts : list Transaction).

(** What a payment leaves to the miner. *)
Definition fee managed t : Z := if is_payment t then in_total managed t - out_total t else 0.

Lemma sum_inputs_Ok managed ins z z' :
  fold_res (fun ins inp =>
    u ← resolve_utxo (previous_output inp) ∅ managed;
    ok_or (checked_add 64 ins (utxo_value u)) (ConsensusValidationFailed "Overflow while summing input values"))
    z ins = Ok z' ->
  z' = z + zsum (value_at managed <$> (previous_output <$> ins)).
Proof.
  revert z. induction ins as [|inp ins IH]; intros z; cbn [fold_res fmap list_fmap].
  { intros [= <-]. unfold zsum. cbn. lia. }
  intros Hf. apply bind_Ok in Hf as (y & H1 & Hf). apply bind_Ok in H1 as (u & Hu & H1).
  apply resolve_managed in Hu. apply ok_or_Ok, checked_add_Some in H1 as [-> _].
  apply IH in Hf as ->. rewrite zsum_cons. unfold value_at at 2. rewrite Hu.
  change (list_fmap TransactionIn OutPoint previous_output ins) with (previous_output <$> ins).
  change (list_fmap OutPoint Z (value_at managed) (previous_output <$> ins)) with (value_at managed <$> (previous_output <$> ins)). lia.
Qed.

Lemma fee_step_Ok managed total t total' :
  fee_step managed ∅ total t = Ok total' -> total' = total + fee managed t.
Proof.
  unfold fee_step, fee. destruct (is_payment t) eqn:Hp; cbn [negb]; [|intros [= <-]; lia].
  intros Hf. apply bind_Ok in Hf as (ins & Hins & Hf). apply sum_inputs_Ok in Hins.
  apply bind_Ok in Hf as (outs & Houts & Hf). apply ok_or_Ok in Houts. rewrite sum_outputs_eq in Houts.
  apply sum_from_zsum in Houts. apply bind_Ok in Hf as (f & Hfee & Hf).
  apply ok_or_Ok, checked_sub_Some in Hfee as [-> _]. apply ok_or_Ok, checked_add_Some in Hf as [-> _].
  unfold in_total, out_total, spent_by. rewrite Hp. lia.
Qed.

Lemma total_fees_Ok managed ts total total' :
  fold_res (fee_step managed ∅) total ts = Ok total' -> total' = total + zsum (fee managed <$> ts).
Proof.
  revert total. induction ts as [|t ts IH]; intros total; cbn [fold_res].
  { intros [= <-]. unfold zsum. cbn. lia. }
  intros Hf. apply bind_Ok in Hf as (y & H1 & Hf). apply fee_step_Ok in H1 as ->. apply IH in Hf as ->.
  change (fee managed <$> t :: ts) with (fee managed t :: (fee managed <$> ts)). rewrite zsum_cons. lia.
Qed.
End Fees.

(** ** The structure of a block *)

(** A list has as many elements as its set exactly when nothing repeats. *)
Section ListSize.
Context {A : Type} `{Countable A}.

Lemma size_list_le (l : list A) : (size (list_to_set l : gset A) <= length l)%nat.
Proof.
  induction l as [|x l IH]; [done|]. rewrite list_to_set_cons, size_union_alt, size_singleton.
  assert (size (list_to_set l ∖ {[ x ]} : gset A) <= size (list_to_set l : gset A))%nat
    by (apply subseteq_size; set_solver). cbn [length]. lia.
Qed.

Lemma size_list_NoDup (l : list A) : size (list_to_set l : gset A) = length l <-> NoDup l.
Proof.
  split; [|apply size_list_to_set]. induction l as [|x l IH]; [intros _; apply NoDup_nil_2|].
  rewrite list_to_set_cons, size_union_alt, size_singleton. cbn [length]. intros Hs.
  pose proof (size_list_le l) as Hle. apply NoDup_cons. split.
  - intros Hx. assert (size (list_to_set l ∖ {[ x ]} : gset A) < size (list_to_set l : gset A))%nat; [|lia].
    apply subset_size. split; [set_solver|]. intros Hc. specialize (Hc x). set_solver.
  - apply IH. assert (size (list_to_set l ∖ {[ x ]} : gset A) <= size (list_to_set l : gset A))%nat; [|lia].
    apply subseteq_size. set_solver.
Qed.
End ListSize.

Section StructureFacts.
Implicit Types (b : Block).

Lemma unique_txs_Ok b : ensure_unique_txs b = Ok tt <-> NoDup (transactions b).
Proof. unfold ensure_unique_txs. by rewrite ensure_Ok, Nat.eqb_eq, size_list_NoDup. Qed.

Lemma check_rest_one t : check_rest tt t = Ok tt <-> kind (tx_data t) = Payment.
Proof. unfold check_rest. destruct (kind (tx_data t)); done. Qed.

Lemma check_rest_Ok l : fold_res check_rest tt l = Ok tt <-> Forall (fun t => kind (tx_data t) = Payment) l.
Proof.
  induction l as [|t l IH]; [done|]. cbn [fold_res].
  rewrite bind_Ok, Forall_cons, <-check_rest_one, <-IH. split.
  - by intros ([] & ? & ?).
  - intros [? ?]. by exists tt.
Qed.

Lemma see_inputs_Ok ins seen seen' :
  fold_res see_input seen ins = Ok seen' <->
  NoDup (previous_output <$> ins) /\ (forall op, op ∈ (previous_output <$> ins) -> op ∉ seen) /\
  seen' = list_to_set (previous_output <$> ins) ∪ seen.
Proof.
  revert seen. induction ins as [|inp ins IH]; intros seen; cbn [fold_res fmap list_fmap].
  { rewrite list_to_set_nil, (left_id_L ∅ (∪)). split; [|naive_solver].
    intros [= <-]. split_and!; [apply NoDup_nil_2|set_solver|done]. }
  rewrite NoDup_cons, list_to_set_cons. unfold see_input at 2.
  change (list_fmap TransactionIn OutPoint previous_output ins) with (previous_output <$> ins).
  case_bool_decide as Hin; cbn [mbind result_bind].
  { split; [done|]. intros (_ & Hout & _). exfalso. apply (Hout (previous_output inp)); [set_solver|done]. }
  rewrite IH. split.
  - intros (Hnd & Hout & ->). split_and!; [|done| |set_solver].
    + intros Hc. apply (Hout _ Hc). set_solver.
    + intros op Hop. apply elem_of_cons in Hop as [->|Hop]; [done|]. specialize (Hout _ Hop). set_solver.
  - intros ([Hni Hnd] & Hout & ->). split_and!; [done| |set_solver].
    intros op Hop Hc. apply elem_of_union in Hc as [Hc|Hc].
    + apply elem_of_singleton in Hc as ->. done.
    + apply (Hout op); [by apply elem_of_cons; right|done].
Qed.

(** The shape of a block that is not a genesis: a coinbase that names the block's
    height and parent, then payments, none twice. *)
Definition well_formed b : Prop :=
  NoDup (transactions b) /\ NoDup (spent_list (transactions b)) /\
  exists cb pays, transactions b = cb :: pays /\
    kind (tx_data cb) = Coinbase (height (header b)) (previous_block_hash (header b)) /\
    Forall (fun t => kind (tx_data t) = Payment) pays.

Lemma unique_inputs_Ok txs : ensure_unique_inputs txs = Ok tt <-> NoDup (spent_list txs).
Proof.
  unfold ensure_unique_inputs.
  assert (forall seen seen', fold_res (fun seen t =>
      if is_payment t then fold_res see_input seen (inputs (tx_data t)) else Ok seen) seen txs = Ok seen' <->
    NoDup (spent_list txs) /\ (forall op, op ∈ spent_list txs -> op ∉ seen) /\
    seen' = list_to_set (spent_list txs) ∪ seen) as Hf.
  { unfold spent_list. induction txs as [|t txs IH]; intros seen seen'; cbn [fold_res mbind list_bind].
    { rewrite list_to_set_nil, (left_id_L ∅ (∪)). split; [|naive_solver].
      intros [= <-]. split_and!; [apply NoDup_nil_2|set_solver|done]. }
    rewrite NoDup_app, list_to_set_app_L, bind_Ok.
    assert (forall s', (if is_payment t then fold_res see_input seen (inputs (tx_data t)) else Ok seen) = Ok s' <->
      NoDup (spent_by t) /\ (forall op, op ∈ spent_by t -> op ∉ seen) /\ s' = list_to_set (spent_by t) ∪ seen) as H1.
    { intros s'. unfold spent_by. destruct (is_payment t); [apply see_inputs_Ok|].
      rewrite list_to_set_nil, (left_id_L ∅ (∪)). split; [|naive_solver].
      intros [= <-]. split_and!; [apply NoDup_nil_2|set_solver|done]. }
    setoid_rewrite H1. setoid_rewrite IH. split.
    - intros (s1 & (Hnd1 & Hout1 & ->) & Hnd & Hout & ->). split_and!; [done| |done| |].
      + intros op Hop Hc. apply (Hout op Hc). apply elem_of_union_l. by apply elem_of_list_to_set.
      + intros op Hop. apply elem_of_app in Hop as [Hop|Hop]; [by apply Hout1|].
        intros Hc. apply (Hout op Hop). by apply elem_of_union_r.
      + apply union_swap.
    - intros ((Hnd1 & Hdis & Hnd) & Hout & ->). eexists. split_and!; [done| |reflexivity|done| |].
      + intros op Hop. apply Hout, elem_of_app. by left.
      + intros op Hop Hc. apply elem_of_union in Hc as [Hc|Hc].
        * apply elem_of_list_to_set in Hc. by apply (Hdis op).
        * apply (Hout op); [apply elem_of_app; by right|done].
      + symmetry. apply union_swap. }
  split.
  - intros Hb. apply bind_Ok in Hb as (seen & Hb & _). by apply Hf in Hb as [? _].
  - intros Hnd. rewrite (proj2 (Hf ∅ (list_to_set (spent_list txs) ∪ ∅))); [done|].
    split_and!; [done|set_solver|done].
Qed.

Lemma structure_Ok b :
  header_is_genesis (header b) = false -> validate_block_structure b = Ok tt <-> well_formed b.
Proof.
  intros Hg. unfold validate_block_structure, ensure_transaction_composition, ensure_coinbase_context, well_formed.
  rewrite Hg. split.
  - intros Hv. apply bind_Ok in Hv as ([] & H1 & Hv). apply unique_txs_Ok in H1.
    apply bind_Ok in Hv as ([] & H2 & Hv). apply bind_Ok in Hv as ([] & H3 & Hv). apply unique_inputs_Ok in H3.
    split_and!; [done..|]. destruct (transactions b) as [|cb pays]; [done|]. exists cb, pays.
    apply bind_Ok in H2 as ([] & _ & H2). apply bind_Ok in H2 as ([] & Hcb & H2).
    apply ensure_Ok in Hcb. apply check_rest_Ok in H2. split_and!; [done| |done].
    cbn in Hv. unfold is_coinbase in Hcb. destruct (kind (tx_data cb)) as [h p| |]; try done.
    apply ensure_Ok, andb_prop in Hv as [Hh Hp]. apply Z.eqb_eq in Hh as ->.
    by apply bool_decide_eq_true in Hp as ->.
  - intros (Hnd & Hsp & cb & pays & Ht & Hk & Hp).
    rewrite (proj2 (unique_txs_Ok b) Hnd), (proj2 (unique_inputs_Ok _) Hsp), Ht.
    unfold is_coinbase. cbn [mbind result_bind head fmap option_fmap option_map]. rewrite Hk.
    rewrite (bool_decide_eq_false_2 (Coinbase _ _ = Genesis)) by discriminate.
    cbn [negb ensure mbind result_bind].
    rewrite (proj2 (check_rest_Ok pays) Hp). cbn [mbind result_bind].
    rewrite Z.eqb_refl, (bool_decide_eq_true_2 (_ = _)) by reflexivity. reflexivity.
Qed.
End StructureFacts.

(** * Properties of accepted blocks *)

Section Accepted.
Context {X : Externals} {P : PetGraph nat} `{!PetGraphLaws nat} {S : Type} `{UtxoReadLaws S}.
Implicit Types (s : S) (b : Block).

(** A payment against a UTXO map: signed by the owner of every output it spends, and
    spending no less than it creates. *)
Definition payment_sound (m : gmap OutPoint UTXO) (t : Transaction) : Prop :=
  kind (tx_data t) = Payment /\
  (exists pk, recover_public_key t = Ok pk /\ Forall (spendable_by m (from_public_key pk)) (spent_by t)) /\
  out_total t <= in_total m t.

(** A block against the UTXO map it extends: a coinbase for this height and parent that
    pays no more than the subsidy and the fees, then sound payments, no outpoint spent
    twice, none created in the block. *)
Record block_sound (rules : ConsensusConsts) (m : gmap OutPoint UTXO) (b : Block)
    (cb : Transaction) (reward : TransactionOut) (pays : list Transaction) : Prop := {
  bs_transactions : transactions b = cb :: pays;
  bs_coinbase : kind (tx_data cb) = Coinbase (height (header b)) (previous_block_hash (header b));
  bs_coinbase_inputs : inputs (tx_data cb) = [];
  bs_coinbase_outputs : outputs (tx_data cb) = [reward];
  bs_payments : Forall (payment_sound m) pays;
  bs_no_double_spend : NoDup (spent_list (transactions b));
  bs_external op : op ∈ spent_list (transactions b) ->
    is_Some (m !! op) /\ op ∉ (created_list (transactions b)).*1;
  bs_fresh_outputs : NoDup (created_list (transactions b)).*1;
  bs_reward : value reward <=
    block_subsidy rules (height (header b)) + zsum ((fun t => in_total m t - out_total t) <$> pays);
}.

Lemma in_total_ext m m' t :
  (forall op, op ∈ spent_by t -> m !! op = m' !! op) -> in_total m t = in_total m' t.
Proof.
  intros He. unfold in_total. f_equal. apply list_fmap_ext. intros i op Hop.
  unfold value_at. by rewrite He by (by apply list_elem_of_lookup_2 in Hop).
Qed.

Lemma payment_valid_spends managed t op :
  tx_valid managed t -> op ∈ spent_by t -> is_Some (managed !! op).
Proof.
  intros Hv Hop. destruct (decide (kind (tx_data t) = Payment)) as [Hk|Hk].
  - unfold tx_valid in Hv. rewrite Hk in Hv. destruct Hv as (pk & ins & outs & _ & Hall & _).
    rewrite Forall_forall in Hall. destruct (Hall _ Hop) as (u & Hu & _). by exists u.
  - rewrite (spent_by_other _ Hk) in Hop. by apply not_elem_of_nil in Hop.
Qed.

Lemma accepted_sound b rules s :
  header_is_genesis (header b) = false -> well_formed b -> txs_accepted b rules s ->
  exists cb reward pays, block_sound rules (utxo_view s) b cb reward pays.
Proof.
  intros Hg (_ & Hnd & cb & pays & Ht & Hcb & Hpay) (d & managed & Hc & Hall & _ & Hr).
  destruct (dependency_context_Ok _ _ _ _ Hc) as (Hgr & _ & _ & Hman).
  assert (forall op u, managed !! op = Some u -> utxo_view s !! op = Some u /\ op ∉ (created_list (transactions b)).*1) as Hsub.
  { intros op u Hop. rewrite Hman in Hop. case_decide as Hext; [|done].
    apply (gf_external _ _ Hgr) in Hext as [_ Hext]. done. }
  assert (forall op, op ∈ spent_list (transactions b) -> is_Some (managed !! op)) as Hsome.
  { intros op Hop. apply list_elem_of_bind in Hop as (t & Hop & Hin). rewrite Forall_forall in Hall.
    exact (payment_valid_spends managed t op (Hall t Hin) Hop). }
  assert (Forall (fun t => in_total managed t = in_total (utxo_view s) t) (transactions b)) as Hin.
  { apply Forall_forall. intros t Hin. apply in_total_ext. intros op Hop.
    destruct (Hsome op) as [u Hu]; [apply list_elem_of_bind; eauto|].
    rewrite Hu. symmetry. apply Hsub, Hu. }
  rewrite Ht in Hall, Hin. apply Forall_cons in Hall as [Hvcb Hall]. apply Forall_cons in Hin as [_ Hin].
  unfold tx_valid in Hvcb. rewrite Hcb in Hvcb. destruct Hvcb as (Hi & reward & Ho).
  exists cb, reward, pays. split; try done.
  - apply Forall_forall. intros t Hin'. rewrite Forall_forall in Hall, Hpay, Hin.
    specialize (Hall _ Hin'). unfold tx_valid in Hall. rewrite (Hpay _ Hin') in Hall.
    destruct Hall as (pk & ins & outs & Hpk & Hf & Hs & Hs' & Hle).
    split_and!; [by apply Hpay| |].
    + exists pk. split; [done|]. eapply Forall_impl; [exact Hf|]. intros op (u & Hu & Ho').
      exists u. split; [by apply Hsub|done].
    + rewrite <-(Hin _ Hin'). apply sum_from_zsum in Hs, Hs'. unfold in_total, out_total. lia.
  - intros op Hop. destruct (Hsome op Hop) as [u Hu]. destruct (Hsub _ _ Hu) as [Hv Hno]. eauto.
  - by destruct Hgr.
  - specialize (Hr Hg). unfold reward_rule in Hr. apply bind_Ok in Hr as (fees & Hf & Hr).
    apply total_fees_Ok in Hf. apply bind_Ok in Hr as (mx & Hm & Hr). apply ok_or_Ok, checked_add_Some in Hm as [-> _].
    apply bind_Ok in Hr as (o & Hhead & Hr). apply ok_or_Ok in Hhead. rewrite Ht in Hhead. cbn in Hhead.
    rewrite Ho in Hhead. injection Hhead as <-. apply ensure_Ok, Z.leb_le in Hr.
    etrans; [exact Hr|]. rewrite Hf, Ht. change (fee managed <$> cb :: pays) with (fee managed cb :: (fee managed <$> pays)).
    rewrite zsum_cons. assert (fee managed cb = 0) as -> by (unfold fee, is_payment; by rewrite Hcb).
    assert (fee managed <$> pays = (fun t => in_total (utxo_view s) t - out_total t) <$> pays) as ->; [|lia].
    apply list_fmap_ext. intros i t Hi'. apply list_elem_of_lookup_2 in Hi'. rewrite Forall_forall in Hpay, Hin.
    unfold fee, is_payment. rewrite bool_decide_eq_true_2 by (by apply Hpay). by rewrite (Hin _ Hi').
Qed.
End Accepted.

Section AcceptedProperties.
Context {X : Externals} {P : PetGraph nat} `{!PetGraphLaws nat}.
Context {DB : Type} `{BlockStorage DB} `{UtxoReadLaws DB}.
Implicit Types (b : Block) (db : DB).

Lemma validate_header_Ok b calc db now :
  header_is_genesis (header b) = false -> validate_header b calc db now = Ok tt ->
  next_hash_threshold calc db (previous_block_hash (header b)) = Ok (hash_threshold (header b)) /\
  hash_threshold (header b) <> 0 /\
  meets_threshold (block_hash b) (hash_threshold (header b)) = true /\
  merkle_root_hash (header b) = compute_merkle_root (transactions b).
Proof.
  intros Hg Hv. unfold validate_header, verify_header_shape, verify_hash_threshold, verify_proof_of_work,
    verify_merkle_root in Hv. rewrite Hg in Hv. cbn [negb andb] in Hv.
  apply bind_Ok in Hv as ([] & Hs & Hv). apply bind_Ok in Hs as ([] & _ & Hs). apply ensure_Ok in Hs.
  apply bind_Ok in Hv as ([] & _ & Hv). apply bind_Ok in Hv as ([] & Ht & Hv).
  apply bind_Ok in Ht as (t & Hn & Ht). apply ensure_Ok, Z.eqb_eq in Ht.
  apply bind_Ok in Hv as ([] & Hp & Hv). apply ensure_Ok in Hp, Hv. apply bool_decide_eq_true in Hv.
  apply negb_true_iff, Z.eqb_neq in Hs. split_and!; [by rewrite Hn, Ht|done..].
Qed.

Lemma validate_Ok (schedule : list nat -> list nat) now v b db :
  (forall l, schedule l ≡ₚ l) ->
  validate schedule now v b db = Ok tt <->
  validate_header b (difficulty_calc v) db now = Ok tt /\ validate_block_structure b = Ok tt /\
  txs_accepted b (validator_consts v) db.
Proof.
  intros Hs. unfold validate. rewrite <-(validate_transactions_iff schedule) by done.
  destruct (validate_header b _ db now) as [[]|]; cbn [mbind result_bind]; [|naive_solver].
  destruct (validate_block_structure b) as [[]|]; cbn [mbind result_bind]; naive_solver.
Qed.

Variables (schedule : list nat -> list nat) (now : result string Z).

(** C4: a normal block that passes the full pipeline commits to its transactions and
    meets the threshold required after its parent; it pays its coinbase no more than
    the subsidy and the fees, every payment is signed by the owner of each output it
    spends and creates no more than it spends, no output is spent twice, and every
    spent output existed before the block. *)
Theorem validated_block_sound v b db :
  (forall l, schedule l ≡ₚ l) -> header_is_genesis (header b) = false ->
  validate schedule now v b db = Ok tt ->
  next_hash_threshold (difficulty_calc v) db (previous_block_hash (header b)) = Ok (hash_threshold (header b)) /\
  meets_threshold (block_hash b) (hash_threshold (header b)) = true /\
  merkle_root_hash (header b) = compute_merkle_root (transactions b) /\
  exists cb reward pays, block_sound (validator_consts v) (utxo_view db) b cb reward pays.
Proof.
  intros Hsch Hg Hv. apply validate_Ok in Hv as (Hh & Hs & Hv); [|done].
  apply validate_header_Ok in Hh as (Ht & _ & Hp & Hm); [|done]. apply structure_Ok in Hs; [|done].
  split_and!; [done..|]. by apply accepted_sound.
Qed.

(** C29: the order in which the workers take the transactions of a group never changes
    whether a block is accepted. *)
Theorem validation_schedule_independent (schedule' : list nat -> list nat) v b db :
  (forall l, schedule l ≡ₚ l) -> (forall l, schedule' l ≡ₚ l) ->
  validate schedule now v b db = Ok tt <-> validate schedule' now v b db = Ok tt.
Proof.
  intros Hs Hs'. rewrite (validate_Ok schedule) by done. by rewrite (validate_Ok schedule').
Qed.

Lemma block_output_spend_invalid v b db t op :
  (forall l, schedule l ≡ₚ l) -> t ∈ transactions b -> op ∈ spent_by t ->
  op ∈ (created_list (transactions b)).*1 ->
  validate schedule now v b db <> Ok tt.
Proof.
  intros Hsch Ht Hop Hc Hv. apply validate_Ok in Hv as (_ & _ & Hv); [|done].
  destruct Hv as (d & managed & Hd & Hall & _ & _). destruct (dependency_context_Ok _ _ _ _ Hd) as (Hg & _ & _ & Hm).
  rewrite Forall_forall in Hall. destruct (payment_valid_spends managed t op (Hall _ Ht) Hop) as [u Hu].
  rewrite Hm in Hu. case_decide as Hext; [|done]. by apply (gf_external _ _ Hg) in Hext as [_ ?].
Qed.

(** A block in which a payment spends an output that the block itself creates is
    never accepted, whatever the position of the two transactions: the map of outputs
    created in the block that the validator consults is never filled. *)
Theorem in_block_spend_rejected v b db t op :
  (forall l, schedule l ≡ₚ l) -> t ∈ transactions b -> op ∈ spent_by t ->
  op ∈ (created_list (transactions b)).*1 ->
  validate schedule now v b db <> Ok tt.
Proof. apply block_output_spend_invalid. Qed.

(** The transaction list of a Merkle root is not unique, since a level of odd length
    is padded with its last entry; the validator is not fooled: repeating the last
    transaction keeps the root and the block hash, and the repeated block is rejected. *)
Theorem merkle_malleability_rejected v b txs t db :
  transactions b = txs ++ [t] -> txs <> [] -> Nat.even (length txs) = true ->
  let b' := mk_Block (header b) (transactions b ++ [t]) in
  compute_merkle_root (transactions b') = compute_merkle_root (transactions b) /\
  block_hash b' = block_hash b /\ validate schedule now v b' db <> Ok tt.
Proof.
  intros Ht Hne He b'. split; [|split; [done|]].
  - cbn [transactions b']. rewrite Ht. apply merkle_duplicate_last; rewrite length_app, Nat.add_1_r.
    + by rewrite Nat.odd_succ.
    + destruct txs; [done|cbn; lia].
  - intros Hv. unfold validate in Hv. apply bind_Ok in Hv as ([] & _ & Hv). apply bind_Ok in Hv as ([] & Hs & _).
    unfold validate_block_structure in Hs. apply bind_Ok in Hs as ([] & Hu & _). apply unique_txs_Ok in Hu.
    cbn in Hu. rewrite Ht, <-app_assoc in Hu. apply NoDup_app in Hu as (_ & _ & Hu).
    apply NoDup_cons in Hu as [Hu _]. apply Hu. set_solver.
Qed.
End AcceptedProperties.

(** * Accepted blocks and the UTXO set *)

Section Supply.
Context {X : Externals} {P : PetGraph nat} `{!PetGraphLaws nat}.
Context {DB : Type} `{BlockStorage DB} `{UtxoWriteLaws DB}.
Implicit Types (b : Block) (db : DB).

Lemma sound_block_applies rules b db cb reward pays :
  block_sound rules (utxo_view db) b cb reward pays ->
  exists undo db', apply_block b db = Ok (undo, db').
Proof.
  intros [Ht _ _ _ _ Hnd Hext _ _]. pose proof (apply_block_cases b db) as Hc.
  destruct (apply_block b db) as [[undo db']|e]; [by eauto|].
  destruct Hc as (op & Hin & _ & Hwhy). rewrite block_effect_external in Hin, Hwhy by apply Hext.
  destruct Hwhy as [Hnone|?]; [|done]. apply Hext in Hin as [[u Hu] _]. congruence.
Qed.

(** Amounts are machine words. *)
Definition outputs_typed b : Prop :=
  Forall (fun t => Forall (fun o => 0 <= value o) (outputs (tx_data t))) (transactions b).

Lemma sound_block_total rules b db cb reward pays undo db' :
  block_sound rules (utxo_view db) b cb reward pays -> outputs_typed b -> nonneg_values (utxo_view db) ->
  apply_block b db = Ok (undo, db') ->
  nonneg_values (utxo_view db') /\
  total_value (utxo_view db') <= total_value (utxo_view db) + block_subsidy rules (height (header b)).
Proof.
  intros [Ht Hcb Hi Ho Hpay Hnd Hext _ Hr] Hty Hnn Ha.
  destruct (apply_total_le b db db' undo Hnn Hty (fun op Hop => proj2 (Hext op Hop)) Ha) as [Hnn' Hle].
  split; [done|]. etrans; [exact Hle|]. rewrite Ht. cbn [fmap list_fmap]. rewrite !zsum_cons.
  rewrite (spent_by_other cb) by (by rewrite Hcb). rewrite Ho.
  change (zsum (value_at (utxo_view db) <$> [])) with 0. change (zsum (value <$> [reward])) with (value reward + 0).
  change (list_fmap Transaction Z ?f pays) with (f <$> pays).
  assert (zsum ((fun t => in_total (utxo_view db) t - out_total t) <$> pays) =
    zsum ((fun t => zsum (value_at (utxo_view db) <$> spent_by t)) <$> pays) -
    zsum ((fun t => zsum (value <$> outputs (tx_data t))) <$> pays)) as Hz.
  { clear. unfold in_total, out_total. induction pays as [|t pays IH]; [done|].
    cbn [fmap list_fmap]. rewrite !zsum_cons. change (list_fmap Transaction Z ?f pays) with (f <$> pays). lia. }
  rewrite Hz in Hr. lia.
Qed.

Variables (schedule : list nat -> list nat) (v : BlockValidator).

(** Blocks accepted one after the other, each against the store the previous one left. *)
Inductive accepted_chain : DB -> list Block -> DB -> Prop :=
| accepted_nil db : accepted_chain db [] db
| accepted_cons db b now undo db1 bs db2 :
    header_is_genesis (header b) = false -> outputs_typed b ->
    validate schedule now v b db = Ok tt -> apply_block b db = Ok (undo, db1) ->
    accepted_chain db1 bs db2 -> accepted_chain db (b :: bs) db2.

(** A block that passes the pipeline can always be applied to the store it was
    validated against: none of its inputs is missing or taken twice, so application
    never fails after acceptance. *)
Theorem validated_block_applies now b db :
  (forall l, schedule l ≡ₚ l) -> header_is_genesis (header b) = false ->
  validate schedule now v b db = Ok tt ->
  exists undo db', apply_block b db = Ok (undo, db').
Proof.
  intros Hs Hg Hv. apply validate_Ok in Hv as (_ & Hst & Hv); [|done]. apply structure_Ok in Hst; [|done].
  destruct (accepted_sound _ _ _ Hg Hst Hv) as (cb & reward & pays & Hb). by eapply sound_block_applies.
Qed.

(** C12: no inflation. Over any sequence of blocks, each accepted and applied in turn,
    the total value of the UTXO set grows by at most the sum of the block subsidies. *)
Theorem supply_bounded db bs db' :
  (forall l, schedule l ≡ₚ l) -> nonneg_values (utxo_view db) -> accepted_chain db bs db' ->
  nonneg_values (utxo_view db') /\
  total_value (utxo_view db') <= total_value (utxo_view db) +
    zsum ((fun b => block_subsidy (validator_consts v) (height (header b))) <$> bs).
Proof.
  intros Hs Hnn Hc. induction Hc as [db|db b now undo db1 bs db2 Hg Hty Hv Ha Hc IH].
  { split; [done|]. unfold zsum. cbn. lia. }
  apply validate_Ok in Hv as (_ & Hst & Hv); [|done]. apply structure_Ok in Hst; [|done].
  destruct (accepted_sound _ _ _ Hg Hst Hv) as (cb & reward & pays & Hb).
  destruct (sound_block_total _ _ _ _ _ _ _ _ Hb Hty Hnn Ha) as [Hnn1 Hle].
  destruct (IH Hnn1) as [Hnn2 Hle2]. split; [done|]. cbn [fmap list_fmap]. rewrite zsum_cons.
  change (list_fmap Block Z ?f bs) with (f <$> bs). lia.
Qed.

(** Reverting can fail after acceptance. If the same transaction, with at least one
    output that the second block does not spend, is accepted in two successive blocks,
    reverting the second removes the output that the first had created, and reverting
    the first then reports it missing. The pipeline does not exclude this: it accepts
    payments without inputs, whose identity can repeat. *)
Theorem repeated_transaction_breaks_rewind now1 now2 b1 b2 db db1 db1' db2 undo1 undo2 t op :
  (forall l, schedule l ≡ₚ l) ->
  header_is_genesis (header b1) = false -> header_is_genesis (header b2) = false ->
  validate schedule now1 v b1 db = Ok tt -> apply_block b1 db = Ok (undo1, db1) ->
  utxo_view db1' = utxo_view db1 ->
  validate schedule now2 v b2 db1' = Ok tt -> apply_block b2 db1' = Ok (undo2, db2) ->
  t ∈ transactions b1 -> t ∈ transactions b2 -> op ∈ (tx_created t).*1 ->
  op ∉ spent_list (transactions b2) ->
  exists db3 op', rewind_block undo2 db2 = Ok db3 /\ rewind_block undo1 db3 = Err (UtxoNotFound op').
Proof.
  intros Hs Hg1 Hg2 Hv1 Ha1 Hview Hv2 Ha2 Ht1 Ht2 Hop Hsp.
  assert (forall now b d, header_is_genesis (header b) = false -> validate schedule now v b d = Ok tt ->
    block_effect b = (put_all ∅ (created_list (transactions b)), spent_list (transactions b))) as Heff.
  { intros now b d Hg Hv. apply validate_Ok in Hv as (_ & Hst & Hv); [|done]. apply structure_Ok in Hst; [|done].
    destruct (accepted_sound _ _ _ Hg Hst Hv) as (cb & reward & pays & Hb).
    apply block_effect_external. intros o Ho. by apply (bs_external _ _ _ _ _ _ Hb). }
  assert (forall b, t ∈ transactions b -> op ∈ dom (put_all ∅ (created_list (transactions b)) : gmap OutPoint UTXO)) as Hdom.
  { intros b Ht. rewrite put_all_dom, elem_of_union. right. apply elem_of_list_to_set.
    apply list_elem_of_fmap in Hop as (en & -> & Hen). apply list_elem_of_fmap_2, list_elem_of_bind. eauto. }
  apply apply_block_Ok in Ha1, Ha2. unfold applied in Ha1, Ha2.
  pose proof (rewind_view undo2 db2) as Hr2. rewrite (rewound_present _ _ _ _ Ha2) in Hr2.
  destruct Hr2 as (db3 & Hr2 & Hv3).
  assert (utxo_view db3 !! op = None) as Hnone.
  { rewrite Hv3, (rewound_lookup _ _ _ _ op Ha2), (Heff now2 b2 db1' Hg2 Hv2). cbn [fst snd].
    rewrite decide_False by done. by rewrite decide_True by (by apply Hdom). }
  pose proof (rewind_view undo1 db3) as Hr1.
  destruct (first_missing (utxo_view db3) (elements (created_outpoints undo1))) as [op'|] eqn:Hm.
  { by exists db3, op'. }
  exfalso. apply first_missing_None in Hm. rewrite Forall_forall in Hm.
  destruct (Hm op) as [u Hu]; [|congruence]. apply elem_of_elements.
  rewrite (applied_created _ _ _ _ Ha1), (Heff now1 b1 db Hg1 Hv1). by apply Hdom.
Qed.
End Supply.

Section ValidatorWitnesses.
Import Toy ListGraph.

(** A store with a genesis and one spendable output, and a block that spends it, under
    rules that accept every hash. *)
Definition val_rules : ConsensusConsts :=
  mk_ConsensusConsts (mk_PowParams 10 3600 (uint_max 256) (uint_max 256)) 1000 10 10.
Definition val_validator : BlockValidator :=
  mk_BlockValidator val_rules (mk_DifficultyCalc (pow val_rules)).
Definition val_owner : AccountAddress := from_public_key (X := externals) Byte.x07.
Definition val_store : MemoryView :=
  mk_MemoryView {[ toy_op := mk_UTXO toy_txid 0 50 val_owner ]} {[ BlockHash_empty := toy_genesis ]}
    ∅ ∅ ∅ ∅ None None.
Definition val_coinbase (reward : Z) : Transaction :=
  new_unsigned (mk_TransactionData 1 (Coinbase 1 BlockHash_empty) [] [mk_TransactionOut reward val_owner]).
Definition val_payment : Transaction :=
  sign (X := externals) (mk_TransactionData 1 Payment [mk_TransactionIn toy_op 0]
    [mk_TransactionOut 30 val_owner; mk_TransactionOut 12 val_owner]) Byte.x07.
Definition val_child : Transaction :=
  sign (X := externals) (mk_TransactionData 1 Payment
    [mk_TransactionIn (mk_OutPoint (tx_hash (tx_data val_payment)) 0) 0]
    [mk_TransactionOut 30 val_owner]) Byte.x07.
Definition val_block (txs : list Transaction) : Block :=
  mk_Block (mk_BlockHeader 1 (compute_merkle_root txs) BlockHash_empty 1 (uint_max 256) 1900000000 0 None) txs.
Definition val_good : Block := val_block [val_coinbase 1008; val_payment].
Definition val_chained : Block := val_block [val_coinbase 1000; val_payment; val_child].

Abbreviation val_validate b :=
  (@validate externals list_graph MemoryView memory_block_storage memory_utxo_storage
    (fun l => l) (Ok 1900000000) val_validator b val_store).

Example val_good_ok : val_validate val_good = Ok tt.
Proof. vm_compute. reflexivity. Qed.

(** Beyond subsidy and fees. *)
Example val_greedy : val_validate (val_block [val_coinbase 1009; val_payment]) = Err (ConsensusInvalidCoinbaseAmount 1008 1009).
Proof. vm_compute. reflexivity. Qed.

(** A chain of two payments is put in order by the dependency graph, then rejected. *)
Example val_chained_missing :
  val_validate val_chained = Err (TxMissingUtxo (tx_hash (tx_data val_payment)) 0).
Proof. apply (bool_decide_unpack _). vm_compute. exact I. Qed.

Lemma id_permutes : forall l : list nat, (fun l => l) l ≡ₚ l.
Proof. intros l. exact (Permutation_refl l). Qed.

Lemma rev_permutes : forall l : list nat, rev l ≡ₚ l.
Proof. intros l. symmetry. exact (Permutation_rev l). Qed.

Lemma validated_block_sound_witness :
  exists cb reward pays, block_sound (validator_consts val_validator) (utxo_view val_store) val_good cb reward pays.
Proof.
  destruct (@validated_block_sound externals list_graph list_graph_laws MemoryView memory_block_storage
    memory_utxo_storage memory_read_laws (fun l => l) (Ok 1900000000) val_validator val_good val_store
    id_permutes eq_refl val_good_ok) as (_ & _ & _ & Hs). exact Hs.
Defined.

Lemma validation_schedule_independent_witness :
  @validate externals list_graph MemoryView memory_block_storage memory_utxo_storage
    (@rev nat) (Ok 1900000000) val_validator val_good val_store = Ok tt.
Proof.
  exact (proj1 (@validation_schedule_independent externals list_graph list_graph_laws MemoryView memory_block_storage
    memory_utxo_storage memory_read_laws (fun l => l) (Ok 1900000000) (@rev nat) val_validator val_good val_store
    id_permutes rev_permutes) val_good_ok).
Defined.

Lemma val_child_spends :
  val_child ∈ transactions val_chained /\
  mk_OutPoint (tx_hash (X := externals) (tx_data val_payment)) 0 ∈ spent_by val_child /\
  mk_OutPoint (tx_hash (X := externals) (tx_data val_payment)) 0 ∈ (created_list (transactions val_chained)).*1.
Proof. split_and!; apply (bool_decide_unpack _); vm_compute; exact I. Qed.

Lemma in_block_spend_rejected_witness : val_validate val_chained <> Ok tt.
Proof.
  destruct val_child_spends as (Ht & Hop & Hc).
  exact (@in_block_spend_rejected externals list_graph list_graph_laws MemoryView memory_block_storage
    memory_utxo_storage memory_read_laws (fun l => l) (Ok 1900000000) val_validator val_chained val_store
    _ _ id_permutes Ht Hop Hc).
Defined.

Lemma merkle_malleability_rejected_witness :
  val_validate (mk_Block (header val_chained) (transactions val_chained ++ [val_child])) <> Ok tt.
Proof.
  destruct (@merkle_malleability_rejected externals list_graph list_graph_laws MemoryView memory_block_storage
    memory_utxo_storage (fun l => l) (Ok 1900000000) val_validator val_chained
    [val_coinbase 1000; val_payment] val_child val_store eq_refl) as (_ & _ & Hr).
  - discriminate.
  - reflexivity.
  - exact Hr.
Defined.

Lemma validated_block_applies_witness :
  exists undo db', @apply_block externals MemoryView memory_utxo_storage memory_utxo_write val_good val_store
    = Ok (undo, db').
Proof.
  apply (@validated_block_applies externals list_graph list_graph_laws MemoryView memory_block_storage
    memory_utxo_storage memory_utxo_write memory_write_laws (fun l => l) val_validator (Ok 1900000000)
    val_good val_store id_permutes); [reflexivity|exact val_good_ok].
Defined.

Lemma val_chain : exists undo db',
  @apply_block externals MemoryView memory_utxo_storage memory_utxo_write val_good val_store = Ok (undo, db') /\
  total_value (utxos db') = 1050.
Proof.
  destruct (@apply_block externals MemoryView memory_utxo_storage memory_utxo_write val_good val_store)
    as [[undo db']|e] eqn:Ha.
  - exists undo, db'. split; [reflexivity|].
    assert (match @apply_block externals MemoryView memory_utxo_storage memory_utxo_write val_good val_store
      with Ok r => total_value (utxos r.2) | Err _ => 0 end = 1050) as Hv by (vm_compute; reflexivity).
    rewrite Ha in Hv. exact Hv.
  - assert (is_ok (@apply_block externals MemoryView memory_utxo_storage memory_utxo_write val_good val_store) = true)
      as Hv by (vm_compute; reflexivity). rewrite Ha in Hv. discriminate Hv.
Qed.

Lemma supply_bounded_witness :
  exists db', total_value (utxos db') = 1050 /\ total_value (utxos db') <= 50 + 1000.
Proof.
  destruct val_chain as (undo & db' & Ha & Ht).
  destruct (@supply_bounded externals list_graph list_graph_laws MemoryView memory_block_storage
    memory_utxo_storage memory_utxo_write memory_write_laws (fun l => l) val_validator val_store [val_good] db'
    id_permutes) as [_ Hle].
  - apply (bool_decide_unpack _). vm_compute. exact I.
  - apply (accepted_cons _ _ val_store val_good (Ok 1900000000) undo db' [] db').
    + reflexivity.
    + apply (bool_decide_unpack _). vm_compute. exact I.
    + exact val_good_ok.
    + exact Ha.
    + apply accepted_nil.
  - exists db'. exact (conj Ht Hle).
Defined.

(** A payment without inputs and with a worthless output, in two successive blocks. *)
Definition val_free : Transaction :=
  sign (X := externals) (mk_TransactionData 1 Payment [] [mk_TransactionOut 0 val_owner]) Byte.x07.
Definition val_first : Block := val_block [val_coinbase 1000; val_free].
Definition val_second : Block :=
  let txs := [new_unsigned (mk_TransactionData 1 (Coinbase 2 (block_hash val_first)) []
               [mk_TransactionOut 1000 val_owner]); val_free] in
  mk_Block (mk_BlockHeader 1 (compute_merkle_root txs) (block_hash val_first) 2 (uint_max 256) 1900000001 0 None) txs.

Definition val_apply (b : Block) (m : MemoryView) : result StorageError (BlockUndo * MemoryView) :=
  @apply_block externals MemoryView memory_utxo_storage memory_utxo_write b m.

(** The store after a block: its effect, and the block in place. *)
Definition val_after (b : Block) (m : MemoryView) : MemoryView :=
  mk_MemoryView (utxos m) (<[block_hash b := b]> (blocks m)) (<[height (header b) := block_hash b]> (heights m))
    (indexes m) (tx_locations m) (undos m) (state m) (view_metadata m).

Definition val_step1 : result StorageError (BlockUndo * MemoryView) := val_apply val_first val_store.
Definition val_store1 : MemoryView :=
  match val_step1 with Ok r => val_after val_first r.2 | Err _ => val_store end.
Definition val_step2 : result StorageError (BlockUndo * MemoryView) := val_apply val_second val_store1.

Lemma val_first_ok : val_validate val_first = Ok tt.
Proof. vm_compute. reflexivity. Qed.

Lemma val_second_ok :
  @validate externals list_graph MemoryView memory_block_storage memory_utxo_storage
    (fun l => l) (Ok 1900000000) val_validator val_second val_store1 = Ok tt.
Proof. vm_compute. reflexivity. Qed.

Lemma val_steps_ok : is_ok val_step1 && is_ok val_step2 = true.
Proof. vm_compute. reflexivity. Qed.

Lemma repeated_transaction_breaks_rewind_witness :
  exists undo1 undo2 db1 db2 db3 op, val_step1 = Ok (undo1, db1) /\ val_step2 = Ok (undo2, db2) /\
    rewind_block undo2 db2 = Ok db3 /\ rewind_block undo1 db3 = Err (UtxoNotFound op).
Proof.
  pose proof val_steps_ok as Hok. apply andb_prop in Hok as [H1 H2].
  destruct val_step1 as [[undo1 db1]|err] eqn:E1; [|discriminate H1].
  destruct val_step2 as [[undo2 db2]|err] eqn:E2; [|discriminate H2].
  assert (val_store1 = val_after val_first db1) as Hst by (unfold val_store1; rewrite E1; reflexivity).
  destruct (@repeated_transaction_breaks_rewind externals list_graph list_graph_laws MemoryView memory_block_storage
    memory_utxo_storage memory_utxo_write memory_write_laws (fun l => l) val_validator (Ok 1900000000) (Ok 1900000000)
    val_first val_second val_store db1 val_store1 db2 undo1 undo2 val_free
    (mk_OutPoint (tx_hash (X := externals) (tx_data val_free)) 0) id_permutes eq_refl eq_refl val_first_ok E1
    (f_equal utxos Hst) val_second_ok E2) as (db3 & op & Hr2 & Hr1).
  - apply (bool_decide_unpack _). vm_compute. exact I.
  - apply (bool_decide_unpack _). vm_compute. exact I.
  - apply (bool_decide_unpack _). vm_compute. exact I.
  - apply (bool_decide_unpack _). vm_compute. exact I.
  - exists undo1, undo2, db1, db2, db3, op. exact (conj eq_refl (conj eq_refl (conj Hr2 Hr1))).
Defined.
End ValidatorWitnesses.
