(* ===== verification/ChainIndex.v ===== *)
(** ChainIndex: the in-memory index of the active chain ([consensus/index.rs]) and the
    fork registry ([consensus/forks/registry.rs]). Both are hash maps whose iteration
    order is unspecified, so the order is a parameter. *)
From S2P Require Import Prelude Bytes Types Externals Hashing Work Transactions Blocks Storage UtxoProcessor Overlay Transition.

(** [Iterator::max_by_key]: the last of the greatest elements. *)
Definition max_by_key {A : Type} (key : A -> Z) (l : list A) : option A :=
  foldl (fun best x =>
    match best with
    | None => Some x
    | Some b => if key b <=? key x then Some x else Some b
    end) None l.

Lemma max_by_key_spec {A} (key : A -> Z) l :
  match max_by_key key l with
  | None => l = []
  | Some b => b ∈ l /\ Forall (fun x => key x <= key b) l
  end.
Proof.
  unfold max_by_key. induction l as [|x l IH] using rev_ind; [done|].
  rewrite foldl_app. cbn [foldl]. destruct (foldl _ None l) as [b|].
  - destruct IH as [Hin Hall]. destruct (Z.leb_spec (key b) (key x)).
    + split; [set_solver|]. apply Forall_app. split; [|by constructor].
      eapply Forall_impl; [exact Hall|]. cbn. lia.
    + split; [set_solver|]. apply Forall_app. split; [done|]. constructor; [lia|constructor].
  - subst l. split; [set_solver|]. constructor; [lia|constructor].
Qed.

(** * The chain index *)

Record ChainIndexEntry := mk_ChainIndexEntry {
  entry_parent : BlockHash;
  entry_height : Z;
  entry_work : Z;
}.

Record TipInfo := mk_TipInfo { tip_height : Z; tip_hash : BlockHash; tip_work : Z }.

Record ChainIndex := mk_ChainIndex {
  entries : gmap BlockHash ChainIndexEntry;
  index_tip : option TipInfo;
}.

(** [ChainIndex::new] *)
Definition ChainIndex_new : ChainIndex := mk_ChainIndex ∅ None.

Section Index.
Context {X : Externals} {I : HashIteration}.
Implicit Types (x : ChainIndex) (hash : BlockHash).

(** [recompute_tip] *)
Definition recompute_tip x : ChainIndex :=
  if bool_decide (entries x = ∅) then mk_ChainIndex (entries x) None
  else mk_ChainIndex (entries x)
    ((fun he => mk_TipInfo (entry_height he.2) he.1 (entry_work he.2)) <$>
      max_by_key (fun he => entry_work he.2) (hash_iter (entries x))).

(** [ChainIndex::insert] *)
Definition index_insert x (block : Block) (cumulative_work : Z) : ChainIndex :=
  let hash := block_hash block in
  let entries := <[hash := mk_ChainIndexEntry (previous_block_hash (header block))
                             (height (header block)) cumulative_work]> (entries x) in
  let replace_tip :=
    match index_tip x with None => true | Some t => tip_work t <? cumulative_work end in
  mk_ChainIndex entries
    (if replace_tip then Some (mk_TipInfo (height (header block)) hash cumulative_work)
     else index_tip x).

(** [ChainIndex::remove] *)
Definition index_remove x hash : bool * ChainIndex :=
  match entries x !! hash with
  | None => (false, x)
  | Some _ =>
      let x' := mk_ChainIndex (delete hash (entries x)) (index_tip x) in
      match index_tip x with
      | Some t => if bool_decide (tip_hash t = hash) then (true, recompute_tip x') else (true, x')
      | None => (true, x')
      end
  end.

Definition index_has x hash : bool := bool_decide (is_Some (entries x !! hash)).
Definition index_parent x hash : option BlockHash := entry_parent <$> entries x !! hash.
Definition index_height_of x hash : option Z := entry_height <$> entries x !! hash.
Definition index_work_of x hash : option Z := entry_work <$> entries x !! hash.
Definition index_tip_of x : option (Z * BlockHash * Z) :=
  (fun t => (tip_height t, tip_hash t, tip_work t)) <$> index_tip x.

(** ** The tip is a heaviest entry *)

Definition tip_heaviest x : Prop :=
  match index_tip x with
  | None => entries x = ∅
  | Some t =>
      (exists e, entries x !! tip_hash t = Some e /\ tip_height t = entry_height e /\ tip_work t = entry_work e) /\
      map_Forall (fun _ e => entry_work e <= tip_work t) (entries x)
  end.

Lemma recompute_heaviest `{!HashIterationLaws} x : tip_heaviest (recompute_tip x).
Proof.
  unfold recompute_tip, tip_heaviest. case_bool_decide as He; cbn [index_tip entries]; [done|].
  pose proof (max_by_key_spec (fun he : BlockHash * ChainIndexEntry => entry_work he.2) (hash_iter (entries x))) as Hm.
  destruct (max_by_key _ _) as [[h e]|]; cbn [fmap option_fmap option_map].
  - destruct Hm as [Hin Hall]. rewrite hash_iter_perm in Hin, Hall. apply elem_of_map_to_list in Hin.
    split; [by exists e|]. intros h' e' He'. rewrite Forall_forall in Hall.
    apply (Hall (h', e')). by apply elem_of_map_to_list.
  - exfalso. apply He. apply map_to_list_empty_iff. apply Permutation_nil_r. by rewrite <-hash_iter_perm, Hm.
Qed.

Lemma insert_heaviest x b w :
  tip_heaviest x -> entries x !! block_hash b = None -> tip_heaviest (index_insert x b w).
Proof.
  unfold tip_heaviest, index_insert. destruct (index_tip x) as [t|] eqn:Ht; cbn [index_tip entries].
  - intros [(e & He & Hh & Hw) Hall] Hnew. destruct (Z.ltb_spec (tip_work t) w) as [Hlt|Hle]; cbn [tip_hash tip_height tip_work].
    + split; [eexists; by rewrite lookup_insert_eq|]. apply map_Forall_insert_2; [cbn; lia|].
      intros h e' He'. specialize (Hall h e' He'). cbn in Hall. lia.
    + assert (block_hash b <> tip_hash t) by (intros Heq; congruence). split.
      * exists e. by rewrite lookup_insert_ne.
      * apply map_Forall_insert_2; [cbn; lia|done].
  - intros He _. cbn [tip_hash tip_height tip_work]. split; [eexists; by rewrite lookup_insert_eq|].
    rewrite He. apply map_Forall_insert_2; [cbn; lia|apply map_Forall_empty].
Qed.

Lemma remove_heaviest `{!HashIterationLaws} x hash : tip_heaviest x -> tip_heaviest (index_remove x hash).2.
Proof.
  unfold index_remove. intros Ht. destruct (entries x !! hash) as [e|] eqn:He; [|done].
  destruct (index_tip x) as [t|] eqn:Hx.
  - case_bool_decide as Hh; cbn [snd]; [apply recompute_heaviest|].
    unfold tip_heaviest in *. cbn. rewrite Hx in Ht. destruct Ht as [(e' & He' & Hr) Hall]. split.
    + exists e'. rewrite lookup_delete_ne by done. done.
    + by apply map_Forall_delete.
  - unfold tip_heaviest in Ht. rewrite Hx in Ht. rewrite Ht, lookup_empty in He. done.
Qed.

(** Any sequence of insertions of new hashes and removals. *)
Inductive index_reachable : ChainIndex -> Prop :=
| reach_new : index_reachable ChainIndex_new
| reach_insert x b w :
    index_reachable x -> index_has x (block_hash b) = false -> index_reachable (index_insert x b w)
| reach_remove x hash : index_reachable x -> index_reachable (index_remove x hash).2.

(** However blocks with new hashes are inserted and removed, and in whatever order
    the map iterates, the index has a tip exactly when it is not empty, and the tip is
    an entry of the index whose cumulative work no entry exceeds. *)
Theorem chain_index_tip_heaviest `{!HashIterationLaws} x :
  index_reachable x ->
  match index_tip_of x with
  | None => entries x = ∅
  | Some (h, hash, w) =>
      index_height_of x hash = Some h /\ index_work_of x hash = Some w /\
      forall hash' w', index_work_of x hash' = Some w' -> w' <= w
  end.
Proof.
  intros Hr. assert (tip_heaviest x) as Ht.
  { induction Hr as [|x b w Hr IH Hnew|x hash Hr IH]; [done| |by apply remove_heaviest].
    apply insert_heaviest; [done|]. unfold index_has in Hnew. apply bool_decide_eq_false in Hnew.
    by destruct (entries x !! block_hash b); [destruct Hnew; eauto|]. }
  unfold tip_heaviest, index_tip_of, index_height_of, index_work_of in *.
  destruct (index_tip x) as [t|]; cbn [fmap option_fmap option_map]; [|done].
  destruct Ht as [(e & He & -> & Hw) Hall]. rewrite He. cbn. split_and!; [done|by rewrite Hw|].
  intros h' w' Hw'. apply fmap_Some in Hw' as (e' & He' & ->). by apply (Hall h').
Qed.
End Index.

(** * The fork registry *)

Record ForkEntry := mk_ForkEntry {
  fork_tip : BlockHash;
  cumulative_work : Z;
  fork_ancestor : BlockHash;
  fork_blocks : list Block;
}.

Abbreviation ForkRegistry := (gmap BlockHash ForkEntry).

Section Registry.
Context {X : Externals} {I : HashIteration}.
Implicit Types (r : ForkRegistry) (hash : BlockHash).

Definition forks_len r : nat := size r.
Definition forks_has r hash : bool := bool_decide (is_Some (r !! hash)).
Definition forks_get r hash : option ForkEntry := r !! hash.
Definition best_fork r : option ForkEntry :=
  snd <$> max_by_key (fun e => cumulative_work e.2) (hash_iter r).
Definition has_block r hash : bool :=
  existsb (fun e => existsb (fun b => bool_decide (block_hash b = hash)) (fork_blocks e.2)) (hash_iter r).
Definition forks_all r : list ForkEntry := snd <$> hash_iter r.
Definition forks_insert r (entry : ForkEntry) : ForkRegistry := <[fork_tip entry := entry]> r.
Definition forks_remove r hash : ForkRegistry := delete hash r.
(** [maintenance] only logs. *)
Definition maintenance r : ForkRegistry := r.

Lemma has_block_true `{!HashIterationLaws} r hash :
  has_block r hash = true <->
  exists tip entry, r !! tip = Some entry /\ hash ∈ (block_hash <$> fork_blocks entry).
Proof.
  unfold has_block. rewrite existsb_exists. split.
  - intros ([tip entry] & Hin & Hb). apply list_elem_of_In in Hin. rewrite hash_iter_perm in Hin.
    apply elem_of_map_to_list in Hin. exists tip, entry. split; [done|].
    apply existsb_exists in Hb as (b & Hb & Heq). apply bool_decide_eq_true in Heq as <-.
    apply list_elem_of_fmap_2. by apply list_elem_of_In.
  - intros (tip & entry & Hr & Hin). exists (tip, entry). split.
    + apply list_elem_of_In. rewrite hash_iter_perm. by apply elem_of_map_to_list.
    + apply list_elem_of_fmap in Hin as (b & -> & Hb). apply existsb_exists. exists b.
      split; [by apply list_elem_of_In|]. by apply bool_decide_eq_true_2.
Qed.

Lemma elem_of_forks_all `{!HashIterationLaws} r entry :
  entry ∈ forks_all r <-> exists tip, r !! tip = Some entry.
Proof.
  unfold forks_all. rewrite hash_iter_perm, list_elem_of_fmap. split.
  - intros ([tip e] & -> & Hin). apply elem_of_map_to_list in Hin. by exists tip.
  - intros [tip Hr]. exists (tip, entry). split; [done|]. by apply elem_of_map_to_list.
Qed.
End Registry.

Section ChainIndexWitnesses.
Import Toy MapOrder.

Lemma toy_index_reachable :
  index_reachable (index_insert (index_insert ChainIndex_new (toy_block 0) 4) (toy_block 1) 9).
Proof.
  apply reach_insert; [apply reach_insert; [apply reach_new|reflexivity]|]. vm_compute. reflexivity.
Qed.

Lemma chain_index_tip_heaviest_witness :
  index_work_of (index_insert (index_insert ChainIndex_new (toy_block 0) 4) (toy_block 1) 9)
    (block_hash (toy_block 1)) = Some 9.
Proof.
  exact (proj1 (proj2 (chain_index_tip_heaviest _ toy_index_reachable))).
Defined.
End ChainIndexWitnesses.
