(* ===== verification/Engine.v ===== *)
(** Engine: the consensus engine. Routing of an incoming block
    ([consensus/classify.rs]), start-up from storage, the handlers and the
    reorganization ([consensus/engine.rs]). The handlers run in a state and error monad
    over the engine. *)
From S2P Require Import Prelude Bytes Types Externals Petgraph Hashing Work Merkle Transactions Blocks Storage UtxoProcessor Overlay Transition Difficulty Dependencies Validator ChainIndex.

(** [StorageReader] and [FullNodeStorage]: a database yields snapshots and commits
    transitions; a failed transition may still return a database. *)
Class FullNodeStorage (DB : Type) := {
  Snapshot : Type;
  #[global] snapshot_read :: StorageRead Snapshot;
  db_read : DB -> result StorageError Snapshot;
  db_apply_transition : DB -> ChainTransition -> result StorageError ChainTransitionResult * DB;
}.

(** [StryiInMemoryStorage]: a read clones the view under the mutex. *)
#[export] Instance memory_full_node `{Externals} : FullNodeStorage MemoryView := {|
  Snapshot := MemoryView;
  snapshot_read := memory_read;
  db_read m := Ok m;
  db_apply_transition := memory_apply_transition;
|}.

(** * Verdicts and dispositions *)

Record CommittedTransition := mk_CommittedTransition {
  committed_head : Z * BlockHash;
  committed_chain_work : Z;
  attached : list Block;
  committed_detached : list (Z * BlockHash);
}.

Inductive ConsensusVerdict :=
| Applied (transition : CommittedTransition)
| Buffered
| AlreadyIncludedInChain
| AlreadyKnownInForkTree
| Rejected (error : StryiCoreError)
| CausedReorganization (transition : CommittedTransition).

Inductive KnownLocation := CanonicalChain | ForkTree.

Inductive BlockDisposition :=
| Known (location : KnownLocation)
| ExtendsCanonical
| CreatesForkFromCanonical (lca : BlockHash)
| ExtendsFork (parent fork_root : BlockHash)
| Orphan (parent : BlockHash).

#[export] Instance KnownLocation_eq_dec : EqDecision KnownLocation.
Proof. solve_decision. Defined.
#[export] Instance BlockDisposition_eq_dec : EqDecision BlockDisposition.
Proof. solve_decision. Defined.

(** * The engine *)

Record Engine (DB : Type) := mk_Engine {
  engine_consts : ConsensusConsts;
  block_validator : BlockValidator;
  db : DB;
  forks : ForkRegistry;
  chain_index : ChainIndex;
}.
Arguments mk_Engine {DB}.
Arguments engine_consts {DB} _.
Arguments block_validator {DB} _.
Arguments db {DB} _.
Arguments forks {DB} _.
Arguments chain_index {DB} _.

(** Computations that update the engine and may return early with an error; what was
    written before the error stays written. *)
Definition engine_m (DB A : Type) : Type := Engine DB -> result StryiCoreError A * Engine DB.

#[export] Instance engine_ret DB : MRet (engine_m DB) := fun A a e => (Ok a, e).
#[export] Instance engine_bind DB : MBind (engine_m DB) :=
  fun A B k m e =>
    match m e with
    | (Ok a, e') => k a e'
    | (Err err, e') => (Err err, e')
    end.

Section Monad.
Context {DB : Type}.

(** The [?] operator on a pure result. *)
Definition lift {A} (r : result StryiCoreError A) : engine_m DB A := fun e => (r, e).
Definition get_engine : engine_m DB (Engine DB) := fun e => (Ok e, e).
Definition modify_index (f : ChainIndex -> ChainIndex) : engine_m DB unit :=
  fun e => (Ok tt, mk_Engine (engine_consts e) (block_validator e) (db e) (forks e) (f (chain_index e))).
Definition modify_forks (f : ForkRegistry -> ForkRegistry) : engine_m DB unit :=
  fun e => (Ok tt, mk_Engine (engine_consts e) (block_validator e) (db e) (f (forks e)) (chain_index e)).
Definition commit `{FullNodeStorage DB} (t : ChainTransition) : engine_m DB ChainTransitionResult :=
  fun e =>
    let '(r, db') := db_apply_transition (db e) t in
    (map_err (CoreStorageError LOther) r,
     mk_Engine (engine_consts e) (block_validator e) db' (forks e) (chain_index e)).
End Monad.

Section Engine.
Context {X : Externals} {P : PetGraph nat} {I : HashIteration}.

(** ** Routing *)

Section Route.
Context {DB : Type}.
Implicit Types (e : Engine DB).

(** [classify_block] *)
Definition classify_block e (block : Block) : BlockDisposition :=
  let hash := block_hash block in
  let parent := previous_block_hash (header block) in
  if index_has (chain_index e) hash then Known CanonicalChain
  else if forks_has (forks e) hash || has_block (forks e) hash then Known ForkTree
  else if match index_tip_of (chain_index e) with
          | Some (_, tip_hash, _) => bool_decide (parent = tip_hash)
          | None => false
          end
  then ExtendsCanonical
  else if index_has (chain_index e) parent then CreatesForkFromCanonical parent
  else match forks_get (forks e) parent with
       | Some entry => ExtendsFork parent (fork_ancestor entry)
       | None => Orphan parent
       end.

(** [validate_height] *)
Definition validate_height e (block : Block) : bool :=
  let parent := previous_block_hash (header block) in
  let known :=
    match index_height_of (chain_index e) parent with
    | Some h => Some h
    | None => entry ← forks_get (forks e) parent; b ← last (fork_blocks entry); Some (height (header b))
    end in
  match known with
  | None => true
  | Some h => bool_decide (checked_add 64 h 1 = Some (height (header block)))
  end.
End Route.

(** ** Start-up *)

Section Startup.
Context {S : Type} `{StorageRead S}.

Definition canonical_corruption (layer : StorageLayer) (details : string) : StryiCoreError :=
  CoreStorageError layer (Corruption details).

(** The loop of [collect_canonical_ancestry]: the height drops by one per iteration and
    the loop ends at zero, so the starting height is enough fuel. *)
Fixpoint collect_loop (fuel : nat) (view : S) (cursor : Z * BlockHash) (blocks : list Block) :
    result StryiCoreError (list Block) :=
  let '(h, hash) := cursor in
  found ← map_err (CoreStorageError LBlock) (get_block_by_hash view hash);
  block ← ok_or found (canonical_corruption LBlock "Canonical block {hash} is absent");
  at_height ← map_err (CoreStorageError LBlock) (get_block_hash_by_height view h);
  if negb (bool_decide (block_hash block = hash)) || negb (height (header block) =? h)
     || negb (bool_decide (at_height = Some hash))
  then Err (canonical_corruption LBlock "Canonical ancestry and heights disagree")
  else
    _ ← verify_genesis_work_shape block;
    _ ← (if 0 <? h then
           undo ← map_err (CoreStorageError LUndo) (get_block_undo view hash);
           ensure (bool_decide (is_Some undo)) (canonical_corruption LUndo "Canonical undo {hash} is absent")
         else Ok tt);
    if (h =? 0) && negb (header_is_genesis (header block))
    then Err (canonical_corruption LBlock "Height zero has no genesis marker")
    else
      let parent_hash := previous_block_hash (header block) in
      let blocks := blocks ++ [block] in
      if h =? 0 then Ok (rev blocks)
      else
        match fuel with
        | O => Err (Other "collect_loop: out of fuel")
        | Datatypes.S fuel => collect_loop fuel view (h - 1, parent_hash) blocks
        end.

(** [collect_canonical_ancestry] *)
Definition collect_canonical_ancestry (view : S) (tip : Z * BlockHash) :
    result StryiCoreError (list Block) :=
  collect_loop (Z.to_nat tip.1) view tip [].

(** One iteration of [rebuild_chain_index]. *)
Definition rebuild_step (view : S) (acc : ChainIndex * Z) (block : Block) :
    result StryiCoreError (ChainIndex * Z) :=
  block_work ← verified_block_work block;
  cumulative_work ← add_work acc.2 block_work;
  let hash := block_hash block in
  found ← map_err (CoreStorageError LBlock) (get_block_index view hash);
  saved_index ← ok_or found (canonical_corruption LBlock "Canonical block index is absent");
  if negb (index_height saved_index =? height (header block))
     || negb (bool_decide (parent_hash saved_index = previous_block_hash (header block)))
     || negb (index_chain_work saved_index =? cumulative_work)
  then Err (canonical_corruption LBlock "Canonical block index disagrees with ancestry")
  else mret (index_insert acc.1 block cumulative_work, cumulative_work).

(** [rebuild_chain_index] *)
Definition rebuild_chain_index (view : S) (state : ChainState) (blocks : list Block) :
    result StryiCoreError ChainIndex :=
  acc ← fold_res (rebuild_step view) (ChainIndex_new, 0) blocks;
  if negb (acc.2 =? chain_work state)
     || negb (bool_decide (checked_add 64 (latest_block state).1 1 = Some (blocks_count state)))
  then Err (canonical_corruption LStats "Chain state disagrees with canonical history")
  else mret acc.1.
End Startup.

(** [build_chain_index] *)
Definition build_chain_index {DB} `{FullNodeStorage DB} (d : DB) : result StryiCoreError ChainIndex :=
  view ← map_err (CoreStorageError LOther) (db_read d);
  found ← map_err (CoreStorageError LStats) (chain_state view);
  state ← ok_or found (CoreStorageError LStats Uninitialized);
  blocks ← collect_canonical_ancestry view (latest_block state);
  rebuild_chain_index view state blocks.

(** [StryiConsensusEngine::new] *)
Definition Engine_new {DB} `{FullNodeStorage DB} (consts : ConsensusConsts) (v : BlockValidator) (d : DB) :
    result StryiCoreError (Engine DB) :=
  index ← build_chain_index d;
  mret (mk_Engine consts v d ∅ index).

(** ** Handlers *)

Context {DB : Type} `{FullNodeStorage DB}.
Implicit Types (e : Engine DB).

(** [StryiConsensusEngine::tip] *)
Definition engine_tip e : option (Z * BlockHash * Z) := index_tip_of (chain_index e).

(** The scheduling of the validator's workers and the reading of the system clock. *)
Variables (schedule : list nat -> list nat) (now : result string Z).

(** [expect("Initialized chain has a tip")]: a panic is an error of its own here; it never
    happens on an initialized engine. *)
Definition expect_tip e : result StryiCoreError (Z * BlockHash * Z) :=
  ok_or (index_tip_of (chain_index e)) (Other "Initialized chain has a tip").

(** [handle_known] *)
Definition handle_known (block : Block) (location : KnownLocation) : engine_m DB ConsensusVerdict :=
  mret match location with
       | CanonicalChain => AlreadyIncludedInChain
       | ForkTree => AlreadyKnownInForkTree
       end.

(** A storage error of the validator is an error of the engine, any other a rejection. *)
Definition validated (r : result StryiCoreError unit) (continue : engine_m DB ConsensusVerdict) :
    engine_m DB ConsensusVerdict :=
  match r with
  | Ok _ => continue
  | Err (CoreStorageError layer error) => lift (Err (CoreStorageError layer error))
  | Err other => mret (Rejected other)
  end.

Definition read_db e : result StryiCoreError Snapshot := map_err (CoreStorageError LOther) (db_read (db e)).

(** [handle_extend_canonical] *)
Definition handle_extend_canonical (block : Block) : engine_m DB ConsensusVerdict :=
  e ← get_engine;
  view ← lift (read_db e);
  validated (validate schedule now (block_validator e) block view)
    (tip ← lift (expect_tip e);
     block_work ← lift (verified_block_work block);
     cumulative_work ← lift (add_work tip.2 block_work);
     transition ← commit (TAppend block);
     _ ← modify_index (fun x => index_insert x block cumulative_work);
     mret (Applied (mk_CommittedTransition (new_head transition) (result_chain_work transition)
       [block] (result_detached transition)))).

(** The rewind loop of [build_fork_overlay]. A successful rewind lowers the height of the
    overlay's tip by one, and at the ancestor's height no rewind succeeds, so the
    distance to the ancestor is enough fuel ([rewind_fuel_enough]). *)
Fixpoint rewind_loop {S} `{StorageRead S} (fuel : nat) (x : ChainIndex) (lca : BlockHash)
    (overlay : ForkDbOverlay S) (cursor : BlockHash) : result StryiCoreError (ForkDbOverlay S) :=
  if bool_decide (cursor = lca) then Ok overlay
  else
    overlay ← map_err (CoreStorageError LUndo) (overlay_rewind_block overlay);
    cursor ← ok_or (index_parent x cursor)
      (ConsensusChainSelectionFailed "Missing parent while rewinding fork view");
    match fuel with
    | O => Err (Other "rewind_loop: out of fuel")
    | Datatypes.S fuel => rewind_loop fuel x lca overlay cursor
    end.

(** [build_fork_overlay] *)
Definition build_fork_overlay {S} `{StorageRead S} e (view : S) (lca : BlockHash) :
    result StryiCoreError (ForkDbOverlay S) :=
  overlay ← map_err (CoreStorageError LOther) (overlay_new view lca);
  tip ← expect_tip e;
  rewind_loop (Z.to_nat ((rewind_tip overlay).1 - (ov_common_ancestor overlay).1))
    (chain_index e) lca overlay tip.1.2.

(** One step of the work loop of [perform_reorg]. *)
Definition branch_work_step (acc : Z * list Z) (block : Block) : result StryiCoreError (Z * list Z) :=
  block_work ← verified_block_work block;
  new_tip_work ← add_work acc.1 block_work;
  mret (new_tip_work, acc.2 ++ [new_tip_work]).

(** A fork is dropped when the selected chain no longer has its ancestor or contains one
    of its blocks. *)
Definition stale_fork (x : ChainIndex) (entry : ForkEntry) : bool :=
  negb (index_has x (fork_ancestor entry))
  || existsb (fun block => index_has x (block_hash block)) (fork_blocks entry).

(** [perform_reorg] *)
Definition perform_reorg (lca : BlockHash) (branch : list Block) : engine_m DB ConsensusVerdict :=
  e ← get_engine;
  lca_work ← lift (ok_or (index_work_of (chain_index e) lca)
    (ConsensusChainSelectionFailed "Fork ancestor is outside canonical history"));
  works ← lift (fold_res branch_work_step (lca_work, []) branch);
  view ← lift (read_db e);
  overlay ← lift (build_fork_overlay e view lca);
  overlay ← lift (map_err (CoreStorageError LUtxo) (fold_res overlay_replay_block overlay branch));
  delta ← lift (map_err (CoreStorageError LUtxo) (into_delta overlay));
  transition ← commit (TReorganize delta);
  _ ← modify_index (fun x => foldl (fun x entry => (index_remove x entry.2).2) x (result_detached transition));
  _ ← modify_index (fun x => foldl (fun x bw => index_insert x bw.1 bw.2) x (zip branch works.2));
  e ← get_engine;
  _ ← modify_forks (fun r => foldl (fun r entry =>
        if stale_fork (chain_index e) entry then forks_remove r (fork_tip entry) else r) r (forks_all r));
  mret (CausedReorganization (mk_CommittedTransition (new_head transition) (result_chain_work transition)
    branch (result_detached transition))).

(** [handle_creates_fork_from_canonical] *)
Definition handle_creates_fork_from_canonical (block : Block) (lca : BlockHash) :
    engine_m DB ConsensusVerdict :=
  e ← get_engine;
  lca_work ← lift (ok_or (index_work_of (chain_index e) lca)
    (ConsensusChainSelectionFailed "Fork ancestor is outside canonical history"));
  view ← lift (read_db e);
  overlay ← lift (build_fork_overlay e view lca);
  validated (validate_for_fork schedule now (block_validator e) block overlay)
    (block_work ← lift (verified_block_work block);
     fork_work ← lift (add_work lca_work block_work);
     tip ← lift (expect_tip e);
     if tip.2 <? fork_work then perform_reorg lca [block]
     else
       _ ← modify_forks (fun r => forks_insert r (mk_ForkEntry (block_hash block) fork_work lca [block]));
       mret Buffered).

(** [handle_extends_fork] *)
Definition handle_extends_fork (block : Block) (fork_root : BlockHash) : engine_m DB ConsensusVerdict :=
  let hash := block_hash block in
  let parent := previous_block_hash (header block) in
  e ← get_engine;
  entry ← lift (ok_or (forks_get (forks e) parent) (ConsensusChainSelectionFailed "Fork parent is absent"));
  let lca := fork_ancestor entry in
  view ← lift (read_db e);
  overlay ← lift (build_fork_overlay e view lca);
  overlay ← lift (map_err (CoreStorageError LOther) (fold_res overlay_replay_block overlay (fork_blocks entry)));
  validated (validate_for_fork schedule now (block_validator e) block overlay)
    (block_work ← lift (verified_block_work block);
     fork_work ← lift (add_work (cumulative_work entry) block_work);
     let branch := fork_blocks entry ++ [block] in
     tip ← lift (expect_tip e);
     if tip.2 <? fork_work then
       verdict ← perform_reorg lca branch;
       _ ← modify_forks (fun r => forks_remove r parent);
       mret verdict
     else
       _ ← modify_forks (fun r => forks_remove r parent);
       _ ← modify_forks (fun r => forks_insert r (mk_ForkEntry hash fork_work lca branch));
       mret Buffered).

(** [on_block] *)
Definition on_block (block : Block) : engine_m DB ConsensusVerdict :=
  _ ← modify_forks maintenance;
  e ← get_engine;
  match verify_genesis_work_shape block with
  | Err error => mret (Rejected error)
  | Ok _ =>
      if negb (validate_height e block)
      then mret (Rejected (ConsensusValidationFailed "Block height must follow its parent"))
      else
        match classify_block e block with
        | Known location => handle_known block location
        | ExtendsCanonical => handle_extend_canonical block
        | CreatesForkFromCanonical lca => handle_creates_fork_from_canonical block lca
        | ExtendsFork _ fork_root => handle_extends_fork block fork_root
        | Orphan parent => mret Buffered
        end
  end.
End Engine.
