(* ===== verification/Consensus.v ===== *)
(** Consensus: the engine against the abstract ledger. An engine over the in-memory
    backend represents a selected chain and a set of branches of it; every call of
    [on_block] keeps that, and the theorems say which chain is selected next. *)
From S2P Require Import Prelude Bytes Types Externals Petgraph Hashing Work Merkle Transactions Blocks Storage UtxoProcessor Overlay Transition Difficulty Dependencies Validator ChainIndex Engine.

(** * The index of a chain *)

Section IndexOfChain.
Context {X : Externals} {I : HashIteration} `{!HashIterationLaws}.
Implicit Types (x : ChainIndex) (l bs : list Block) (b t : Block).

(** Machine bounds on a block: its threshold is a 256-bit word, its height leaves room for
    the block count, and its transactions can be numbered in 32 bits. *)
Definition block_typed b : Prop :=
  in_u256 (hash_threshold (header b)) /\ height (header b) < 2 ^ 64 - 1 /\
  Z.of_nat (length (transactions b)) <= 2 ^ 32.

Lemma work_range b : block_typed b -> is_genesis b = false -> 1 <= work b <= 2 ^ 256.
Proof. intros [Ht _] Hg. unfold work. rewrite Hg. by apply block_work_pos. Qed.

Lemma work_nonneg b : block_typed b -> 0 <= work b <= 2 ^ 256.
Proof.
  intros Hb. destruct (is_genesis b) eqn:Hg; [unfold work; rewrite Hg; lia|].
  pose proof (work_range b Hb Hg). lia.
Qed.

Lemma ledger_work_app l bs : ledger_work (l ++ bs) = ledger_work l + ledger_work bs.
Proof. unfold ledger_work. by rewrite fmap_app, zsum_app. Qed.

Lemma ledger_work_bound l : Forall block_typed l -> 0 <= ledger_work l <= Z.of_nat (length l) * 2 ^ 256.
Proof.
  unfold ledger_work. induction 1 as [|b l Hb _ IH]; [cbn; lia|]. cbn [fmap list_fmap length]. rewrite zsum_cons.
  pose proof (work_nonneg b Hb). change (list_fmap Block Z work l) with (work <$> l). lia.
Qed.

(** No chain of bounded heights overflows the 512-bit work. *)
Lemma ledger_work_fits l : Forall block_typed l -> Z.of_nat (length l) < 2 ^ 64 -> ledger_work l < 2 ^ 512.
Proof.
  intros Hl Hlen. pose proof (ledger_work_bound l Hl) as [_ Hb]. change (2 ^ 512) with (2 ^ 256 * 2 ^ 256).
  assert (2 ^ 64 <= 2 ^ 256) by done. nia.
Qed.

(** Every block after the genesis adds work. *)
Lemma ledger_work_lt l i j :
  chain_shape l -> Forall block_typed l -> (0 < i < j)%nat -> (j <= length l)%nat ->
  ledger_work (take i l) < ledger_work (take j l).
Proof.
  intros Hs Hl Hij Hj. replace (take j l) with (take i l ++ take (j - i) (drop i l)).
  2: { rewrite <-(take_drop i (take j l)), take_take, Nat.min_l by lia. by rewrite <-skipn_firstn_comm. }
  rewrite ledger_work_app. assert (i < length l)%nat as Hi by lia. apply lookup_lt_is_Some in Hi as [b Hb].
  rewrite (drop_S l b i Hb). destruct (j - i)%nat as [|d] eqn:Hd; [lia|]. cbn [take].
  change (ledger_work (b :: ?r)) with (work b + ledger_work r).
  assert (Forall block_typed (take d (drop (Datatypes.S i) l))) as Hrest by (by apply Forall_take, Forall_drop).
  pose proof (ledger_work_bound _ Hrest). rewrite Forall_lookup in Hl.
  pose proof (chain_genesis_iff _ _ _ Hs Hb) as Hg.
  assert (is_genesis b = false) as Hng by (destruct (is_genesis b); [exfalso; destruct Hg as [Hg _]; specialize (Hg eq_refl); lia|done]).
  pose proof (work_range b (Hl _ _ Hb) Hng). lia.
Qed.

Definition entry_at l (i : nat) b : ChainIndexEntry :=
  mk_ChainIndexEntry (previous_block_hash (header b)) (height (header b)) (ledger_work (take (Datatypes.S i) l)).

(** The index lists exactly the blocks of the chain, each with its parent, height and
    cumulative work, and its tip is the last of them. *)
Record indexes_chain x l : Prop := {
  ic_entries hash e : entries x !! hash = Some e <->
    exists i b, l !! i = Some b /\ hash = block_hash b /\ e = entry_at l i b;
  ic_tip : exists t, last l = Some t /\
    index_tip x = Some (mk_TipInfo (height (header t)) (block_hash t) (ledger_work l));
}.

Lemma entry_at_app l bs i b : l !! i = Some b -> entry_at (l ++ bs) i b = entry_at l i b.
Proof.
  intros Hi. unfold entry_at. rewrite take_app_le; [done|]. by apply lookup_lt_Some in Hi.
Qed.

Lemma lookup_snoc_cases l b i b' :
  (l ++ [b]) !! i = Some b' <-> l !! i = Some b' \/ (i = length l /\ b' = b).
Proof.
  rewrite lookup_app_Some. split.
  - intros [?|[Hge Hi]]; [by left|right]. apply list_lookup_singleton_Some in Hi as [? <-]. split; [lia|done].
  - intros [?|[-> ->]]; [by left|right]. by rewrite Nat.sub_diag.
Qed.

Lemma indexes_has x l hash : indexes_chain x l -> index_has x hash = true <-> hash ∈ (block_hash <$> l).
Proof.
  intros Hx. unfold index_has. rewrite bool_decide_eq_true, list_elem_of_fmap. split.
  - intros [e He]. apply (ic_entries _ _ Hx) in He as (i & b & Hi & -> & _). exists b.
    split; [done|]. by apply list_elem_of_lookup_2 in Hi.
  - intros (b & -> & Hb). apply list_elem_of_lookup in Hb as [i Hi]. exists (entry_at l i b).
    apply (ic_entries _ _ Hx). eauto.
Qed.

Lemma indexes_entry x l i b : indexes_chain x l -> l !! i = Some b -> entries x !! block_hash b = Some (entry_at l i b).
Proof. intros Hx Hi. apply (ic_entries _ _ Hx). eauto. Qed.

(** The first block gives an index, and a heavier block extends it. *)
Lemma indexes_first b : indexes_chain (index_insert ChainIndex_new b (ledger_work [b])) [b].
Proof.
  split.
  - intros hash e. cbn [entries index_insert ChainIndex_new]. rewrite lookup_insert_Some, lookup_empty. split.
    + intros [[<- <-]|[_ ?]]; [|done]. by exists 0%nat, b.
    + intros (i & b' & Hi & -> & ->). apply list_lookup_singleton_Some in Hi as [-> <-]. by left.
  - by exists b.
Qed.

Lemma indexes_snoc x l b :
  indexes_chain x l -> block_hash b ∉ (block_hash <$> l) -> 0 < work b ->
  indexes_chain (index_insert x b (ledger_work (l ++ [b]))) (l ++ [b]).
Proof.
  intros Hx Hnew Hw. split.
  - intros hash e. cbn [entries index_insert]. rewrite lookup_insert_Some, (ic_entries _ _ Hx).
    setoid_rewrite lookup_snoc_cases. split.
    + intros [[<- <-]|[Hne (i & b' & Hi & -> & ->)]].
      * exists (length l), b. split_and!; [by right|done|]. unfold entry_at.
        by rewrite take_ge by (rewrite length_app; cbn; lia).
      * exists i, b'. split_and!; [by left|done|]. by rewrite entry_at_app.
    + intros (i & b' & [Hi|[-> ->]] & -> & ->).
      * right. split; [intros Heq; apply Hnew; rewrite Heq; apply list_elem_of_fmap_2; by apply list_elem_of_lookup_2 in Hi|].
        exists i, b'. split_and!; [done..|]. by rewrite entry_at_app.
      * left. split; [done|]. unfold entry_at. by rewrite take_ge by (rewrite length_app; cbn; lia).
  - destruct (ic_tip _ _ Hx) as (t & Hl & Ht). exists b. rewrite last_snoc. split; [done|].
    unfold index_insert. cbn [index_tip]. rewrite Ht. cbn [tip_work].
    rewrite ledger_work_snoc. by rewrite (proj2 (Z.ltb_lt _ _)) by lia.
Qed.
End IndexOfChain.

Section IndexReorg.
Context {X : Externals} {I : HashIteration} `{!HashIterationLaws}.
Implicit Types (x : ChainIndex) (l bs : list Block) (b t : Block).

Lemma indexes_remove_last x l b :
  indexes_chain x (l ++ [b]) -> l <> [] -> chain_shape l -> Forall block_typed l ->
  NoDup (block_hash <$> l ++ [b]) -> indexes_chain (index_remove x (block_hash b)).2 l.
Proof.
  intros Hx Hne Hs Hty Hnd. pose proof (indexes_entry x _ (length l) b Hx) as Hb.
  rewrite list_lookup_middle in Hb by done. specialize (Hb eq_refl).
  destruct (ic_tip _ _ Hx) as (t & Ht & Htip). rewrite last_snoc in Ht. injection Ht as <-.
  unfold index_remove. rewrite Hb, Htip. cbn [tip_hash]. rewrite bool_decide_eq_true_2 by done. cbn [snd].
  rewrite fmap_app in Hnd. apply NoDup_app in Hnd as (Hnd & Hout & _).
  assert (forall hash e, delete (block_hash b) (entries x) !! hash = Some e <->
    exists i b', l !! i = Some b' /\ hash = block_hash b' /\ e = entry_at l i b') as He.
  { intros hash e. rewrite lookup_delete_Some, (ic_entries _ _ Hx). setoid_rewrite lookup_snoc_cases. split.
    - intros (Hne' & i & b' & [Hi|[-> ->]] & -> & ->); [|done]. exists i, b'. split_and!; [done..|]. by rewrite entry_at_app.
    - intros (i & b' & Hi & -> & ->). split.
      + intros Heq. apply (Hout (block_hash b')); [|rewrite <-Heq; set_solver].
        apply list_elem_of_fmap_2. by apply list_elem_of_lookup_2 in Hi.
      + exists i, b'. split_and!; [by left|done|]. by rewrite entry_at_app. }
  destruct (last l) as [t|] eqn:Hl; [|by apply last_None in Hl].
  pose proof (last_lookup_nat _ _ Hl) as Hlt.
  unfold recompute_tip. cbn [entries]. rewrite bool_decide_eq_false_2.
  2: { intros Hemp. assert (delete (block_hash b) (entries x) !! block_hash t = Some (entry_at l (length l - 1) t)) as Hsome.
       { apply He. eauto. } by rewrite Hemp, lookup_empty in Hsome. }
  pose proof (max_by_key_spec (fun he : BlockHash * ChainIndexEntry => entry_work he.2)
    (hash_iter (delete (block_hash b) (entries x)))) as Hmax.
  assert (forall h e, (h, e) ∈ hash_iter (delete (block_hash b) (entries x)) <-> delete (block_hash b) (entries x) !! h = Some e) as Hit.
  { intros h e. rewrite hash_iter_perm. apply elem_of_map_to_list. }
  split; [exact He|]. exists t. split; [done|]. cbn [index_tip].
  destruct (max_by_key _ _) as [[h e]|].
  - destruct Hmax as [Hin Hall]. apply Hit, He in Hin as (i & b' & Hi & -> & ->).
    rewrite Forall_forall in Hall.
    assert ((block_hash t, entry_at l (length l - 1) t) ∈ hash_iter (delete (block_hash b) (entries x))) as Hint
      by (apply Hit, He; eauto).
    apply Hall in Hint. cbn in Hint. apply lookup_lt_Some in Hi as Hilt.
    assert (i = (length l - 1)%nat) as ->.
    { destruct (decide (i = (length l - 1)%nat)) as [|Hne']; [done|]. exfalso.
      pose proof (ledger_work_lt l (Datatypes.S i) (Datatypes.S (length l - 1)) Hs Hty). lia. }
    rewrite Hlt in Hi. injection Hi as <-. cbn.
    rewrite take_ge by lia. done.
  - exfalso. assert ((block_hash t, entry_at l (length l - 1) t) ∈ hash_iter (delete (block_hash b) (entries x))) as Hint
      by (apply Hit, He; eauto). rewrite Hmax in Hint. by apply not_elem_of_nil in Hint.
Qed.

(** Removing the blocks above an ancestor, tip first. *)
Lemma indexes_remove_suffix x l k :
  indexes_chain x l -> chain_shape l -> Forall block_typed l -> NoDup (block_hash <$> l) -> (k < length l)%nat ->
  indexes_chain (foldl (fun x entry => (index_remove x entry.2).2) x (position <$> rev (drop (Datatypes.S k) l)))
    (take (Datatypes.S k) l).
Proof.
  revert x. induction l as [|b l IH] using rev_ind; intros x Hx Hs Hty Hnd Hk; [cbn in Hk; lia|].
  rewrite length_app in Hk. cbn in Hk. destruct (decide (k = length l)) as [->|Hne].
  { rewrite drop_ge, take_ge by (rewrite length_app; cbn; lia). exact Hx. }
  rewrite drop_app_le, take_app_le, rev_app_distr by lia. cbn [rev app fmap list_fmap foldl position snd].
  assert (l <> []) as Hl by (intros ->; cbn in *; lia).
  assert (chain_shape l) as Hs'.
  { pose proof (chain_shape_prefix _ (length l) Hs) as Hp. rewrite take_app_length in Hp. apply Hp. destruct l; [done|cbn; lia]. }
  assert (Forall block_typed l) as Hty' by (by apply Forall_app in Hty as [? _]).
  apply IH; [by apply indexes_remove_last|done..| |lia].
  rewrite fmap_app in Hnd. by apply NoDup_app in Hnd as (? & _).
Qed.

(** The works computed for a branch before any write. *)
Fixpoint works_from (w : Z) bs : list Z :=
  match bs with [] => [] | b :: bs => (w + work b) :: works_from (w + work b) bs end.

Lemma branch_works_Ok bs w ws :
  Forall (fun b => verify_genesis_work_shape b = Ok tt) bs ->
  Forall (fun b => 0 <= work b) bs -> w + ledger_work bs < 2 ^ 512 ->
  fold_res branch_work_step (w, ws) bs = Ok (w + ledger_work bs, ws ++ works_from w bs).
Proof.
  intros Hv. revert w ws. induction Hv as [|b bs Hb Hv IH]; intros w ws Hnn Hw; cbn [fold_res works_from].
  { rewrite app_nil_r. change (ledger_work []) with 0. by rewrite Z.add_0_r. }
  apply Forall_cons in Hnn as [Hb0 Hnn]. change (ledger_work (b :: bs)) with (work b + ledger_work bs) in *.
  assert (0 <= ledger_work bs) as Hpos.
  { unfold ledger_work. apply zsum_nonneg. by apply Forall_fmap. }
  unfold branch_work_step at 2. unfold verified_block_work. rewrite Hb. cbn [mbind result_bind mret result_ret fst snd].
  rewrite (proj2 (add_work_Ok w (work b) (w + work b))) by (split; [done|lia]). cbn [mbind result_bind mret result_ret].
  rewrite IH by (done || lia). rewrite <-app_assoc. f_equal. f_equal. lia.
Qed.

Lemma indexes_insert_branch x l bs :
  indexes_chain x l -> NoDup (block_hash <$> bs) ->
  (forall h, h ∈ (block_hash <$> bs) -> h ∉ (block_hash <$> l)) -> Forall (fun b => 0 < work b) bs ->
  indexes_chain (foldl (fun x bw => index_insert x bw.1 bw.2) x (zip bs (works_from (ledger_work l) bs))) (l ++ bs).
Proof.
  revert x l. induction bs as [|b bs IH]; intros x l Hx Hnd Hout Hw; cbn [works_from zip zip_with foldl fst snd].
  { by rewrite app_nil_r. }
  apply Forall_cons in Hw as [Hb Hw]. cbn [fmap list_fmap] in Hnd, Hout. apply NoDup_cons in Hnd as [Hni Hnd].
  replace (l ++ b :: bs) with ((l ++ [b]) ++ bs) by (by rewrite <-app_assoc).
  rewrite <-ledger_work_snoc. apply IH; [|done| |done].
  - apply indexes_snoc; [done| |done]. apply Hout. set_solver.
  - intros h Hh. rewrite fmap_app. specialize (Hout h). set_solver.
Qed.
End IndexReorg.

(** * Overlays of the engine *)

Section RewindTermination.
Context {X : Externals} {S : Type} `{StorageRead S}.

Lemma rewind_lowers (ov ov' : ForkDbOverlay S) :
  overlay_rewind_block ov = Ok ov' ->
  (ov_common_ancestor ov).1 < (rewind_tip ov).1 /\ (rewind_tip ov').1 = (rewind_tip ov).1 - 1 /\
  ov_common_ancestor ov' = ov_common_ancestor ov.
Proof.
  unfold overlay_rewind_block. intros Hr.
  destruct (negb (bool_decide (ov_blocks ov = ∅)) || ((rewind_tip ov).1 <=? (ov_common_ancestor ov).1)) eqn:Hg; [done|].
  apply orb_false_elim in Hg as [_ Hg]. apply Z.leb_gt in Hg.
  destruct (rewind_tip ov) as [h hash]. cbn [fst] in Hg.
  apply bind_Ok in Hr as (found & _ & Hr). apply bind_Ok in Hr as (b & _ & Hr).
  apply bind_Ok in Hr as (_ & _ & Hr). apply bind_Ok in Hr as (c & _ & Hr).
  apply bind_Ok in Hr as (_ & _ & Hr). apply bind_Ok in Hr as (fu & _ & Hr).
  apply bind_Ok in Hr as (u & _ & Hr). apply bind_Ok in Hr as (ov1 & Hrw & Hr). injection Hr as <-.
  split_and!; [done|done|]. cbn. apply map_err_Ok in Hrw. unfold rewind_block in Hrw.
  apply bind_Ok in Hrw as (ov2 & H2 & H1). cbn in H1, H2. unfold overlay_batch_put_utxos, overlay_batch_remove_utxos in *.
  injection H1 as <-. apply bind_Ok in H2 as (_ & _ & H2). injection H2 as <-. done.
Qed.

Lemma rewind_fuel_irrelevant (f1 f2 : nat) x lca (ov : ForkDbOverlay S) cursor :
  (rewind_tip ov).1 - (ov_common_ancestor ov).1 <= Z.of_nat f1 ->
  (rewind_tip ov).1 - (ov_common_ancestor ov).1 <= Z.of_nat f2 ->
  rewind_loop f1 x lca ov cursor = rewind_loop f2 x lca ov cursor.
Proof.
  revert f2 ov cursor. induction f1 as [|f1 IH]; intros [|f2] ov cursor H1 H2; [done|..];
    cbn [rewind_loop]; case_bool_decide; try done;
    destruct (overlay_rewind_block ov) as [ov'|] eqn:Hr; try done;
    cbn [map_err mbind result_bind]; apply rewind_lowers in Hr as (Hlt & Hh & Hca); try lia.
  destruct (index_parent x cursor); [|done]. cbn [ok_or mbind result_bind]. apply IH; rewrite Hh, Hca; lia.
Qed.

(** Building a fork view terminates: the rewind loop needs at most as many rounds as
    the height distance between the stored tip and the ancestor, on any storage and with
    any index, so with that much fuel its outcome does not depend on the fuel. *)
Theorem rewind_fuel_enough {DB} (fuel : nat) (e : Engine DB) (view : S) lca ov tip :
  overlay_new view lca = Ok ov -> expect_tip e = Ok tip ->
  (rewind_tip ov).1 - (ov_common_ancestor ov).1 <= Z.of_nat fuel ->
  build_fork_overlay e view lca = rewind_loop fuel (chain_index e) lca ov tip.1.2.
Proof.
  intros Hov Htip Hf. unfold build_fork_overlay. rewrite Hov. cbn [map_err mbind result_bind].
  rewrite Htip. cbn [mbind result_bind]. apply rewind_fuel_irrelevant; lia.
Qed.
End RewindTermination.

Section EngineOverlay.
Context {X : Externals} {I : HashIteration} `{!HashIterationLaws}.
Implicit Types (m : MemoryView) (l : list Block) (x : ChainIndex).

Lemma rewind_loop_follows x l k a :
  indexes_chain x l -> chain_shape l -> NoDup (block_hash <$> l) -> l !! k = Some a ->
  forall (j fuel : nat) t (ov ov' : ForkDbOverlay MemoryView) bl,
    l !! (k + j)%nat = Some t -> (j <= fuel)%nat -> rewinds ov bl ov' ->
    bl.*1 = rev (take j (drop (Datatypes.S k) l)) ->
    rewind_loop fuel x (block_hash a) ov (block_hash t) = Ok ov'.
Proof.
  intros Hx Hs Hnd Ha j. induction j as [|j IH]; intros fuel t ov ov' bl Ht Hf Hrw Hbl.
  { rewrite Nat.add_0_r, Ha in Ht. injection Ht as <-. cbn in Hbl. destruct bl; [|done].
    inversion Hrw; subst. destruct fuel; cbn [rewind_loop]; by rewrite bool_decide_eq_true_2. }
  rewrite (rev_take_S _ _ t) in Hbl by (rewrite lookup_drop, <-Ht; f_equal; lia).
  destruct bl as [|[b u] bl]; [done|]. injection Hbl as -> Hbl.
  inversion Hrw as [|ov0 ov1 ov2 b0 u0 bl0 Hone _ _ Hrest]; subst.
  destruct fuel as [|fuel]; [lia|]. cbn [rewind_loop].
  rewrite bool_decide_eq_false_2.
  2: { intros Heq. pose proof (hash_inj l (k + Datatypes.S j) k t a Hnd Ht Ha Heq). lia. }
  rewrite Hone. cbn [map_err mbind result_bind].
  unfold index_parent. rewrite (indexes_entry x l _ t Hx Ht). cbn [fmap option_fmap option_map ok_or mbind result_bind entry_parent entry_at].
  assert (is_Some (l !! (k + j)%nat)) as [p Hp].
  { apply lookup_lt_is_Some. apply lookup_lt_Some in Ht. lia. }
  rewrite (chain_parent l (k + j) t p Hs) by (done || (rewrite <-Ht; f_equal; lia)).
  apply (IH fuel p ov1 ov' bl); [done|lia|done|done].
Qed.

(** An overlay positioned at an ancestor of the stored chain. *)
Record overlay_at (ov : ForkDbOverlay MemoryView) m l k a t : Prop := {
  oa_view : overlay_view ov = ledger_view (take (Datatypes.S k) l);
  oa_base : base ov = m;
  oa_ancestor : ov_common_ancestor ov = position a;
  oa_head : ov_expected_head ov = position t;
  oa_rewound : rewind_tip ov = position a;
  oa_branch : branch_tip ov = position a;
  oa_blocks : ov_blocks ov = ∅;
  oa_detached : ov_detached ov = (position <$> rev (drop (Datatypes.S k) l));
}.

(** The engine's fork view of a chain it represents always exists. *)
Lemma build_fork_overlay_ok (e : Engine MemoryView) m l k a t :
  refines m l -> indexes_chain (chain_index e) l -> l !! k = Some a -> last l = Some t ->
  exists ov, build_fork_overlay e m (block_hash a) = Ok ov /\ overlay_at ov m l k a t.
Proof.
  intros R Hx Ha Hl. pose proof (rf_records _ _ R) as C.
  destruct (overlay_at_ancestor m l k a t R Ha Hl)
    as (ov0 & bl & ov1 & Hnew & Hrw & Hfst & Hrt0 & Hca0 & Hv & Hb & Hca & Heh & Hrt & Hbt & Hbl & Hdet).
  exists ov1. split; [|by split].
  destruct (ic_tip _ _ Hx) as (t' & Hl' & Htip). rewrite Hl in Hl'. injection Hl' as <-.
  unfold build_fork_overlay. rewrite Hnew. cbn [map_err mbind result_bind]. unfold expect_tip, index_tip_of.
  rewrite Htip. cbn [fmap option_fmap option_map ok_or mbind result_bind fst snd tip_hash].
  pose proof (last_position _ _ (rc_shape _ _ C) Hl) as Hht. pose proof (chain_height _ _ _ (rc_shape _ _ C) Ha) as Hha.
  apply lookup_lt_Some in Ha as Hk.
  apply (rewind_loop_follows _ l k a Hx (rc_shape _ _ C) (rc_nodup _ _ C) Ha (length l - Datatypes.S k) _ t ov0 ov1 bl).
  - rewrite <-(last_lookup_nat _ _ Hl). f_equal. lia.
  - rewrite Hrt0, Hca0. cbn. lia.
  - done.
  - rewrite take_ge by (rewrite length_drop; lia). done.
Qed.
End EngineOverlay.

(** * From validation to appendability *)

Section Acceptable.
Context {X : Externals} {P : PetGraph nat} `{!PetGraphLaws nat}.
Context {DB : Type} `{BlockStorage DB} `{UtxoReadLaws DB}.
Implicit Types (l : list Block) (b t : Block).

Lemma sound_spendable rules b m cb reward pays : block_sound rules m b cb reward pays -> spendable b m.
Proof.
  intros [_ _ _ _ _ Hnd Hext _ _]. unfold spendable. rewrite block_effect_external by (intros; by apply Hext).
  split; [done|]. apply Forall_forall. intros op Hop. by apply Hext.
Qed.

(** How a block continues a chain: its header, and new outpoints. *)
Record continues l b : Prop := {
  ct_last : exists t, last l = Some t /\ previous_block_hash (header b) = block_hash t /\
    height (header b) = height (header t) + 1;
  ct_normal : is_genesis b = false;
  ct_typed : block_typed b;
  ct_new : block_hash b ∉ (block_hash <$> l);
  ct_fresh : fresh_outputs b (ledger_view l);
}.

Lemma validated_appendable schedule now v (view : DB) l b :
  (forall idxs, schedule idxs ≡ₚ idxs) -> utxo_view view = ledger_view l ->
  chain_shape l -> Forall block_typed l -> continues l b ->
  validate schedule now v b view = Ok tt -> appendable l b.
Proof.
  intros Hsch Hview Hs Hty [(t & Hl & Hp & Hh) Hg Hb _ _] Hv. apply validate_Ok in Hv as (Hhd & Hst & Hv); [|done].
  change (is_genesis b) with (header_is_genesis (header b)) in Hg.
  apply validate_header_Ok in Hhd as (_ & Hz & _ & _); [|done]. apply structure_Ok in Hst; [|done].
  destruct (accepted_sound _ _ _ Hg Hst Hv) as (cb & reward & pays & Hsound). rewrite Hview in Hsound.
  assert (chain_shape (l ++ [b])) as Hs' by (apply (chain_shape_snoc l b t Hs Hl); split_and!; [done..|apply Hb]).
  split_and!; [done| |by eapply sound_spendable|apply Hb].
  apply ledger_work_fits; [by rewrite Forall_app, Forall_singleton|]. by apply chain_bound.
Qed.
End Acceptable.

(** * The invariant of the engine *)

Section Invariant.
Context {X : Externals} {I : HashIteration} `{!HashIterationLaws}.
Implicit Types (l bs : list Block) (b t a : Block) (entry : ForkEntry).

(** A tracked fork: a branch of the selected chain [l] that starts above the block at
    [k], lists none of the chain's blocks, and is not heavier than the chain. *)
Record fork_at l entry (k : nat) a t : Prop := {
  fk_ancestor : l !! k = Some a;
  fk_ancestor_hash : fork_ancestor entry = block_hash a;
  fk_branch : branch (take (Datatypes.S k) l) (fork_blocks entry);
  fk_last : last (fork_blocks entry) = Some t;
  fk_tip : fork_tip entry = block_hash t;
  fk_work : cumulative_work entry = ledger_work (take (Datatypes.S k) l ++ fork_blocks entry);
  fk_lighter : cumulative_work entry <= ledger_work l;
  fk_typed : Forall block_typed (fork_blocks entry);
  fk_apart h : h ∈ (block_hash <$> fork_blocks entry) -> h ∉ (block_hash <$> l);
}.

(** The engine represents the chain [l]: its storage refines [l], its index is the index
    of [l], and every tracked fork is a branch of [l] under its own tip hash. *)
Record represents (e : Engine MemoryView) l : Prop := {
  rp_refines : refines (db e) l;
  rp_index : indexes_chain (chain_index e) l;
  rp_typed : Forall block_typed l;
  rp_forks tip entry : forks e !! tip = Some entry ->
    tip = fork_tip entry /\ exists k a t, fork_at l entry k a t;
}.

Lemma branch_snoc l bs b :
  branch l bs -> appendable (l ++ bs) b -> block_hash b ∉ (block_hash <$> l ++ bs) ->
  fresh_outputs b (ledger_view (l ++ bs)) -> branch l (bs ++ [b]).
Proof.
  revert l. induction bs as [|b0 bs IH]; intros l Hbr Ha Hn Hf.
  { rewrite app_nil_r in *. by split_and!. }
  destruct Hbr as (H1 & H2 & H3 & Hbr). cbn [app branch]. split_and!; [done..|]. apply IH; [done|..];
    by rewrite <-app_assoc.
Qed.

Lemma branch_shape l bs : chain_shape l -> branch l bs -> chain_shape (l ++ bs).
Proof.
  revert l. induction bs as [|b bs IH]; intros l Hs; [by rewrite app_nil_r|].
  intros ((Hs' & _) & _ & _ & Hbr). replace (l ++ b :: bs) with ((l ++ [b]) ++ bs) by (by rewrite <-app_assoc).
  by apply IH.
Qed.

Lemma branch_normal l bs : chain_shape l -> branch l bs -> Forall (fun b => is_genesis b = false) bs.
Proof.
  revert l. induction bs as [|b bs IH]; intros l Hs; [constructor|].
  intros ((Hs' & _) & _ & _ & Hbr). constructor; [|by apply (IH (l ++ [b]))].
  destruct (last l) as [t|] eqn:Hl; [|by apply last_None in Hl as ->].
  by apply (chain_shape_snoc l b t Hs Hl) in Hs' as (_ & _ & ? & _).
Qed.

(** A fork survives a chain that keeps everything up to its ancestor, grows heavier, and
    takes none of its blocks. *)
Lemma fork_at_change l l' entry k a t :
  fork_at l entry k a t -> take (Datatypes.S k) l' = take (Datatypes.S k) l -> l' !! k = Some a ->
  ledger_work l <= ledger_work l' ->
  (forall h, h ∈ (block_hash <$> fork_blocks entry) -> h ∉ (block_hash <$> l')) ->
  fork_at l' entry k a t.
Proof.
  intros [H1 H2 H3 H4 H5 H6 H7 H8 H9] Ht Ha Hw Hap. split; try done; rewrite ?Ht; try done. lia.
Qed.

Lemma represents_nodup e l : represents e l -> NoDup (block_hash <$> l).
Proof. intros R. apply (rc_nodup _ _ (rf_records _ _ (rp_refines _ _ R))). Qed.

Lemma represents_shape e l : represents e l -> chain_shape l.
Proof. intros R. apply (rc_shape _ _ (rf_records _ _ (rp_refines _ _ R))). Qed.

(** Forgetting forks keeps the invariant. *)
Lemma represents_fewer_forks e l r :
  represents e l -> (forall tip entry, r !! tip = Some entry -> forks e !! tip = Some entry) ->
  represents (mk_Engine (engine_consts e) (block_validator e) (db e) r (chain_index e)) l.
Proof. intros [H1 H2 H3 H4] Hr. split; [done..|]. cbn. intros tip entry He. by apply H4, Hr. Qed.

Lemma represents_add_fork e l entry k a t :
  represents e l -> fork_at l entry k a t ->
  represents (mk_Engine (engine_consts e) (block_validator e) (db e) (forks_insert (forks e) entry) (chain_index e)) l.
Proof.
  intros [H1 H2 H3 H4] Hf. split; [done..|]. cbn. unfold forks_insert. intros tip entry' He.
  apply lookup_insert_Some in He as [[<- <-]|[_ He]]; [|by apply H4]. split; [done|]. by exists k, a, t.
Qed.

(** The clean-up after a reorganization leaves only forks that are not stale. *)
Lemma cleanup_forks (r : ForkRegistry) x tip entry :
  (forall tip entry, r !! tip = Some entry -> tip = fork_tip entry) ->
  foldl (fun r entry => if stale_fork x entry then forks_remove r (fork_tip entry) else r) r (forks_all r) !! tip
    = Some entry ->
  r !! tip = Some entry /\ stale_fork x entry = false.
Proof.
  intros Hkey. set (es := forks_all r).
  assert (forall r', foldl (fun r entry => if stale_fork x entry then forks_remove r (fork_tip entry) else r) r' es !! tip = Some entry ->
    r' !! tip = Some entry /\ Forall (fun e => stale_fork x e = true -> fork_tip e <> tip) es) as Hf.
  { induction es as [|e es IH]; intros r' Hr; cbn [foldl] in Hr; [by split|].
    apply IH in Hr as [Hr Hall]. destruct (stale_fork x e) eqn:Hs.
    - unfold forks_remove in Hr. apply lookup_delete_Some in Hr as [Hne Hr]. split; [done|]. by constructor.
    - split; [done|]. constructor; [congruence|done]. }
  intros Hr. apply Hf in Hr as [Hr Hall]. split; [done|].
  destruct (stale_fork x entry) eqn:Hs; [|done]. exfalso. rewrite Forall_forall in Hall.
  assert (entry ∈ es) as Hin by (apply elem_of_forks_all; eauto). apply (Hall entry Hin Hs).
  symmetry. by apply Hkey.
Qed.
End Invariant.

(** * Running the handlers *)

Section MonadRules.
Context {DB : Type} {A B : Type}.
Implicit Types (e : Engine DB) (k : A -> engine_m DB B).

Lemma run_lift (r : result StryiCoreError A) k e :
  (lift r ≫= k) e = match r with Ok a => k a e | Err err => (Err err, e) end.
Proof. by destruct r. Qed.

Lemma run_get (k : Engine DB -> engine_m DB B) e : (get_engine ≫= k) e = k e e.
Proof. done. Qed.

Lemma run_index f (k : unit -> engine_m DB B) e :
  (modify_index f ≫= k) e =
    k tt (mk_Engine (engine_consts e) (block_validator e) (db e) (forks e) (f (chain_index e))).
Proof. done. Qed.

Lemma run_forks f (k : unit -> engine_m DB B) e :
  (modify_forks f ≫= k) e =
    k tt (mk_Engine (engine_consts e) (block_validator e) (db e) (f (forks e)) (chain_index e)).
Proof. done. Qed.

Lemma run_bind (m : engine_m DB A) k e :
  (m ≫= k) e = match m e with (Ok a, e') => k a e' | (Err err, e') => (Err err, e') end.
Proof. done. Qed.

Lemma run_ret (a : A) e : (mret a : engine_m DB A) e = (Ok a, e).
Proof. done. Qed.
End MonadRules.

Create HintDb engine.
#[export] Hint Rewrite @run_lift @run_get @run_index @run_forks @run_ret : engine.

Section Handlers.
Context {X : Externals} {P : PetGraph nat} `{!PetGraphLaws nat} {I : HashIteration} `{!HashIterationLaws}.
Implicit Types (e : Engine MemoryView) (l bs : list Block) (b t a : Block).
Variables (schedule : list nat -> list nat) (now : result string Z).
Hypothesis schedule_permutes : forall idxs, schedule idxs ≡ₚ idxs.

Lemma represents_tip e l t : represents e l -> last l = Some t -> expect_tip e = Ok (height (header t), block_hash t, ledger_work l).
Proof.
  intros R Hl. destruct (ic_tip _ _ (rp_index _ _ R)) as (t' & Hl' & Ht). rewrite Hl in Hl'. injection Hl' as <-.
  unfold expect_tip, index_tip_of. by rewrite Ht.
Qed.

Lemma normal_shape b : is_genesis b = false -> verify_genesis_work_shape b = Ok tt.
Proof. intros Hg. apply verify_shape_Ok. by rewrite Hg. Qed.

Lemma normal_work b : is_genesis b = false -> verified_block_work b = Ok (work b).
Proof. intros Hg. unfold verified_block_work. by rewrite (normal_shape b Hg). Qed.

(** The outcome of a handler that stops at the validator. *)
Definition stopped e (out : result StryiCoreError ConsensusVerdict * Engine MemoryView) : Prop :=
  out.2 = e /\
  match out.1 with
  | Ok (Rejected _) => True
  | Err (CoreStorageError _ _) => True
  | _ => False
  end.

Lemma validated_stops (r : result StryiCoreError unit) k e :
  (r = Ok tt /\ validated r k e = k e) \/ stopped e (validated r k e).
Proof.
  unfold stopped. destruct r as [[]|err]; [by left|right]. destruct err; cbn; done.
Qed.

(** No tracked fork lists the block. *)
Definition untracked e b : Prop :=
  forall tip entry, forks e !! tip = Some entry -> block_hash b ∉ (block_hash <$> fork_blocks entry).

(** Extending the selected chain with a block that passes validation. *)
Lemma extend_canonical_applies e l b :
  represents e l -> continues l b -> untracked e b ->
  validate schedule now (block_validator e) b (db e) = Ok tt ->
  exists e', handle_extend_canonical schedule now b e =
      (Ok (Applied (mk_CommittedTransition (position b) (ledger_work (l ++ [b])) [b] [])), e') /\
    represents e' (l ++ [b]) /\ forks e' = forks e /\ block_validator e' = block_validator e.
Proof.
  intros R C Hap Hv. pose proof (rp_refines _ _ R) as Rm. pose proof (represents_shape _ _ R) as Hs.
  destruct (ct_last _ _ C) as (t & Hl & Hp & Hh). unfold handle_extend_canonical.
  autorewrite with engine. unfold read_db. cbn [db_read memory_full_node map_err]. autorewrite with engine.
  match goal with |- context [validated ?r ?k] => assert (r = Ok tt) as -> by exact Hv end. cbn [validated].
  autorewrite with engine.
  rewrite (represents_tip e l t R Hl). rewrite (normal_work b (ct_normal _ _ C)). autorewrite with engine. cbn [snd].
  pose proof (@validated_appendable X P _ MemoryView read_blocks read_utxos memory_read_laws schedule now
    (block_validator e) (db e) l b schedule_permutes (rf_utxos _ _ Rm) Hs (rp_typed _ _ R) C Hv) as Happ.
  destruct Happ as (Hsh & Hw & Hsp & Hn).
  rewrite (proj2 (add_work_Ok (ledger_work l) (work b) (ledger_work (l ++ [b])))) by (rewrite <-ledger_work_snoc; done).
  rewrite run_bind. unfold commit. cbn [db_apply_transition memory_full_node].
  pose proof (append_memory (db e) l b Rm (ct_new _ _ C) (ct_fresh _ _ C)) as Hm.
  unfold memory_apply_transition, update. destruct (apply_transition (db e) (TAppend b)) as [[r m']|err].
  2: { exfalso. by apply Hm. }
  destruct Hm as (_ & Rm' & -> & _). cbn [map_err]. autorewrite with engine. eexists. split; [reflexivity|]. split; [|done]. split.
  - exact Rm'.
  - cbn. apply indexes_snoc; [apply R|apply C|]. pose proof (work_range b (ct_typed _ _ C) (ct_normal _ _ C)). lia.
  - apply Forall_app. split; [apply R|]. by constructor; [apply C|].
  - cbn. intros tip entry He. destruct (rp_forks _ _ R tip entry He) as (Hk & k & a & t' & Hf). split; [done|].
    exists k, a, t'. pose proof (lookup_lt_Some _ _ _ (fk_ancestor _ _ _ _ _ Hf)) as Hlt.
    apply (fork_at_change l); [done|by rewrite take_app_le by lia| | |].
    + rewrite lookup_app_l by lia. apply Hf.
    + rewrite ledger_work_snoc. pose proof (work_nonneg b (ct_typed _ _ C)). lia.
    + intros h Hin. rewrite fmap_app. intros Hc. apply elem_of_app in Hc as [Hc|Hc]; [by apply (fk_apart _ _ _ _ _ Hf h)|].
      apply list_elem_of_singleton in Hc as ->. by apply (Hap tip entry He).
Qed.

(** Extending the selected chain. *)
Lemma extend_canonical_ok e l b :
  represents e l -> continues l b -> untracked e b ->
  stopped e (handle_extend_canonical schedule now b e) \/
  exists e', handle_extend_canonical schedule now b e =
      (Ok (Applied (mk_CommittedTransition (position b) (ledger_work (l ++ [b])) [b] [])), e') /\
    represents e' (l ++ [b]).
Proof.
  intros R C Hap. destruct (validate schedule now (block_validator e) b (db e)) as [[]|err] eqn:Hv.
  - right. destruct (extend_canonical_applies e l b R C Hap Hv) as (e' & -> & R' & _). by exists e'.
  - left. unfold handle_extend_canonical. autorewrite with engine. unfold read_db.
    cbn [db_read memory_full_node map_err]. autorewrite with engine.
    match goal with |- context [validated ?r ?k] => assert (r = Err err) as -> by exact Hv end.
    by destruct err.
Qed.

Lemma branch_positive l bs :
  chain_shape l -> branch l bs -> Forall block_typed bs -> Forall (fun b => 0 < work b) bs.
Proof.
  intros Hs Hbr Hty. pose proof (branch_normal l bs Hs Hbr) as Hg. rewrite Forall_forall in *.
  intros b Hb. pose proof (work_range b (Hty b Hb) (Hg b Hb)). lia.
Qed.

(** A fork that is not stale after the reorganization is a fork of the new chain. *)
Lemma fork_after_reorg x l k a bs tip entry e :
  represents e l -> l !! k = Some a -> indexes_chain x (take (Datatypes.S k) l ++ bs) ->
  (forall h, h ∈ (block_hash <$> bs) -> h ∉ (block_hash <$> l)) ->
  ledger_work l <= ledger_work (take (Datatypes.S k) l ++ bs) ->
  forks e !! tip = Some entry -> stale_fork x entry = false ->
  exists k' a' t', fork_at (take (Datatypes.S k) l ++ bs) entry k' a' t'.
Proof.
  intros R Ha Hx Hap Hw He Hst. destruct (rp_forks _ _ R tip entry He) as (_ & k' & a' & t' & Hf).
  unfold stale_fork in Hst. apply orb_false_elim in Hst as [Hanc Hbl]. apply negb_false_iff in Hanc.
  apply (indexes_has x _ _ Hx) in Hanc. rewrite (fk_ancestor_hash _ _ _ _ _ Hf), fmap_app in Hanc.
  pose proof (fk_ancestor _ _ _ _ _ Hf) as Ha'. pose proof (represents_nodup _ _ R) as Hnd.
  assert (k' <= k)%nat as Hk.
  { apply elem_of_app in Hanc as [Hin|Hin].
    - apply list_elem_of_fmap in Hin as (a2 & Heq & Hin). apply list_elem_of_lookup in Hin as [i Hi].
      apply lookup_take_Some in Hi as [Hi Hlt]. pose proof (hash_inj l k' i a' a2 Hnd Ha' Hi Heq). lia.
    - exfalso. apply (Hap _ Hin). apply list_elem_of_fmap_2. by apply list_elem_of_lookup_2 in Ha'. }
  apply lookup_lt_Some in Ha as Hlt.
  exists k', a', t'. apply (fork_at_change l); [done| | |done|].
  - rewrite take_app_le by (rewrite length_take; lia). rewrite take_take. by rewrite Nat.min_l by lia.
  - rewrite lookup_app_l by (rewrite length_take; lia). by rewrite lookup_take_lt by lia.
  - intros h Hh Hc. apply (indexes_has x _ _ Hx) in Hc. apply list_elem_of_fmap in Hh as (b & -> & Hb).
    assert (existsb (fun block => index_has x (block_hash block)) (fork_blocks entry) = true) as Htrue.
    { apply existsb_exists. exists b. split; [by apply list_elem_of_In|done]. }
    by rewrite Hbl in Htrue.
Qed.

Lemma perform_reorg_ok e l k a bs b :
  represents e l -> l !! k = Some a -> last bs = Some b -> branch (take (Datatypes.S k) l) bs ->
  Forall block_typed bs -> (forall h, h ∈ (block_hash <$> bs) -> h ∉ (block_hash <$> l)) ->
  ledger_work l < ledger_work (take (Datatypes.S k) l ++ bs) ->
  exists e', perform_reorg (block_hash a) bs e =
      (Ok (CausedReorganization (mk_CommittedTransition (position b) (ledger_work (take (Datatypes.S k) l ++ bs)) bs
         (position <$> rev (drop (Datatypes.S k) l)))), e') /\
    represents e' (take (Datatypes.S k) l ++ bs) /\
    (forall tip entry, forks e' !! tip = Some entry -> forks e !! tip = Some entry).
Proof.
  intros R Ha Hlb Hbr Hty Hap Hw. pose proof (rp_refines _ _ R) as Rm. pose proof (represents_shape _ _ R) as Hs.
  destruct (ic_tip _ _ (rp_index _ _ R)) as (t & Hl & _). apply lookup_lt_Some in Ha as Hlt.
  assert (chain_shape (take (Datatypes.S k) l)) as Hsk by (apply chain_shape_prefix; [done|lia]).
  pose proof (branch_positive _ _ Hsk Hbr Hty) as Hpos.
  assert (Forall block_typed (take (Datatypes.S k) l)) as Htyk by (apply Forall_take; apply R).
  assert (bs <> []) as Hne by (by intros ->).
  assert (Forall block_typed (take (Datatypes.S k) l ++ bs)) as Htyn by (by apply Forall_app).
  assert (ledger_work (take (Datatypes.S k) l ++ bs) < 2 ^ 512) as Hfit.
  { apply ledger_work_fits; [done|]. apply chain_bound. by apply branch_shape. }
  unfold perform_reorg. autorewrite with engine. unfold index_work_of.
  rewrite (indexes_entry _ l k a (rp_index _ _ R) Ha). cbn [fmap option_fmap option_map ok_or entry_work entry_at].
  rewrite branch_works_Ok.
  2: { eapply Forall_impl; [by apply (branch_normal _ _ Hsk Hbr)|]. intros b0. apply normal_shape. }
  2: { eapply Forall_impl; [exact Hpos|]. cbn. lia. }
  2: { by rewrite <-ledger_work_app. }
  autorewrite with engine. unfold read_db. cbn [db_read memory_full_node map_err]. autorewrite with engine.
  destruct (build_fork_overlay_ok e (db e) l k a t Rm (rp_index _ _ R) Ha Hl) as (ov & Hov & [O1 O2 O3 O4 O5 O6 O7 O8]).
  destruct (reorganize_prepared (db e) l k a t bs ov Rm Ha Hl Hne Hbr O1 O2 O3 O4 O5 O6 O7 O8)
    as (ov2 & d & m' & t' & Hrp & Hd & Hlast & Happ & Rm' & _).
  cbn [snapshot_read Snapshot memory_full_node].
  rewrite Hov. autorewrite with engine. rewrite Hrp. cbn [map_err]. autorewrite with engine.
  rewrite Hd. cbn [map_err]. autorewrite with engine.
  rewrite run_bind. unfold commit. cbn [db_apply_transition memory_full_node]. rewrite Happ. cbn [map_err].
  autorewrite with engine. cbn [result_detached new_head result_chain_work engine_consts block_validator db forks chain_index app snd].
  rewrite last_app, Hlb in Hlast. injection Hlast as <-.
  match goal with |- context [mk_Engine _ _ m' _ ?x] => set (x' := x) end.
  assert (indexes_chain x' (take (Datatypes.S k) l ++ bs)) as Hx'.
  { apply indexes_insert_branch; [|apply (branch_nodup _ _ Hbr)..|done].
    apply indexes_remove_suffix; [apply R|done|apply R|by apply (represents_nodup e)|done]. }
  eexists. split; [reflexivity|]. cbn [forks]. split; [split; [done..|]|].
  - cbn [forks]. intros tip entry He. apply cleanup_forks in He as [He Hst].
    2: { intros. by eapply rp_forks. }
    split; [by eapply rp_forks|]. eapply fork_after_reorg; [done..|lia|done|done].
  - intros tip entry He. apply cleanup_forks in He as [He _]; [done|]. intros. by eapply rp_forks.
Qed.

(** What a block that leaves the selected chain at position [k] can lead to, with
    [bs] the branch that ends with it: it is tracked, or its branch takes over. *)
Definition fork_outcome e l (k : nat) bs b
    (out : result StryiCoreError ConsensusVerdict * Engine MemoryView) : Prop :=
  let l' := take (Datatypes.S k) l ++ bs in
  (ledger_work l' <= ledger_work l /\ out.1 = Ok Buffered /\ represents out.2 l /\ db out.2 = db e /\
     exists entry, forks out.2 !! block_hash b = Some entry /\ fork_blocks entry = bs) \/
  (ledger_work l < ledger_work l' /\ represents out.2 l' /\
     out.1 = Ok (CausedReorganization (mk_CommittedTransition (position b) (ledger_work l') bs
       (position <$> rev (drop (Datatypes.S k) l))))).

(** Leaving the selected chain below its tip. *)
Lemma creates_fork_ok e l k a b :
  represents e l -> l !! k = Some a -> continues (take (Datatypes.S k) l) b ->
  previous_block_hash (header b) = block_hash a -> block_hash b ∉ (block_hash <$> l) ->
  stopped e (handle_creates_fork_from_canonical schedule now b (block_hash a) e) \/
  fork_outcome e l k [b] b (handle_creates_fork_from_canonical schedule now b (block_hash a) e).
Proof.
  intros R Ha C Hp Hnew. pose proof (rp_refines _ _ R) as Rm. pose proof (represents_shape _ _ R) as Hs.
  destruct (ic_tip _ _ (rp_index _ _ R)) as (t & Hl & _). apply lookup_lt_Some in Ha as Hlt.
  assert (chain_shape (take (Datatypes.S k) l)) as Hsk by (apply chain_shape_prefix; [done|lia]).
  assert (Forall block_typed (take (Datatypes.S k) l)) as Htyk by (apply Forall_take; apply R).
  unfold handle_creates_fork_from_canonical. autorewrite with engine. unfold index_work_of.
  rewrite (indexes_entry _ l k a (rp_index _ _ R) Ha). cbn [fmap option_fmap option_map ok_or entry_work entry_at].
  autorewrite with engine. unfold read_db. cbn [db_read memory_full_node map_err]. autorewrite with engine.
  destruct (build_fork_overlay_ok e (db e) l k a t Rm (rp_index _ _ R) Ha Hl) as (ov & Hov & Hat).
  cbn [snapshot_read Snapshot memory_full_node]. rewrite Hov. autorewrite with engine.
  match goal with |- stopped e (validated ?r ?k e) \/ _ => destruct (validated_stops r k e) as [[Hv ->]|?]; [|by left] end.
  right. autorewrite with engine. rewrite (represents_tip e l t R Hl), (normal_work b (ct_normal _ _ C)).
  autorewrite with engine. cbn [snd].
  pose proof (@validated_appendable X P _ (ForkDbOverlay MemoryView) overlay_block_storage overlay_utxo_storage
    overlay_read_laws schedule now (block_validator e) ov (take (Datatypes.S k) l) b schedule_permutes
    (oa_view _ _ _ _ _ _ Hat) Hsk Htyk C Hv) as Happ.
  pose proof Happ as (Hsh & Hw & Hsp & Hn).
  assert (branch (take (Datatypes.S k) l) [b]) as Hbr by (split_and!; [done|apply C|apply C|done]).
  rewrite (proj2 (add_work_Ok _ (work b) (ledger_work (take (Datatypes.S k) l ++ [b]))))
    by (rewrite <-ledger_work_snoc; done).
  autorewrite with engine. unfold fork_outcome. cbn [snd]. destruct (Z.ltb_spec (ledger_work l) (ledger_work (take (Datatypes.S k) l ++ [b]))) as [Hlt'|Hge].
  - right. destruct (perform_reorg_ok e l k a [b] b) as (e' & -> & R' & _); try done.
    + by constructor; [apply C|].
    + intros h Hh. apply list_elem_of_singleton in Hh as ->. done.
  - left. autorewrite with engine. cbn [fst snd db forks]. split_and!; [done|done| |done|].
    + apply (represents_add_fork e l _ k a b R). split; cbn; try done.
      * by constructor; [apply C|].
      * intros h Hh. apply list_elem_of_singleton in Hh as ->. done.
    + eexists. unfold forks_insert. cbn [fork_tip]. by rewrite lookup_insert_eq.
Qed.

(** Extending a tracked fork at its tip. *)
Lemma extends_fork_ok e l tip entry k a t b :
  represents e l -> forks e !! tip = Some entry -> fork_at l entry k a t ->
  tip = previous_block_hash (header b) ->
  continues (take (Datatypes.S k) l ++ fork_blocks entry) b -> block_hash b ∉ (block_hash <$> l) ->
  stopped e (handle_extends_fork schedule now b (fork_ancestor entry) e) \/
  fork_outcome e l k (fork_blocks entry ++ [b]) b (handle_extends_fork schedule now b (fork_ancestor entry) e).
Proof.
  intros R He Hf -> C Hnew. pose proof (rp_refines _ _ R) as Rm. pose proof (represents_shape _ _ R) as Hs.
  pose proof (fk_ancestor _ _ _ _ _ Hf) as Ha. pose proof (fk_branch _ _ _ _ _ Hf) as Hbr.
  destruct (ic_tip _ _ (rp_index _ _ R)) as (tl & Hl & _). apply lookup_lt_Some in Ha as Hlt.
  assert (chain_shape (take (Datatypes.S k) l)) as Hsk by (apply chain_shape_prefix; [done|lia]).
  assert (Forall block_typed (take (Datatypes.S k) l ++ fork_blocks entry)) as Htyk
    by (apply Forall_app; split; [apply Forall_take; apply R|apply Hf]).
  unfold handle_extends_fork. autorewrite with engine. unfold forks_get. rewrite He. cbn [ok_or].
  autorewrite with engine. unfold read_db. cbn [db_read memory_full_node map_err]. autorewrite with engine.
  rewrite (fk_ancestor_hash _ _ _ _ _ Hf).
  destruct (build_fork_overlay_ok e (db e) l k a tl Rm (rp_index _ _ R) Ha Hl) as (ov & Hov & [O1 O2 O3 O4 O5 O6 O7 O8]).
  cbn [snapshot_read Snapshot memory_full_node]. rewrite Hov. autorewrite with engine.
  destruct (replays_total (take (Datatypes.S k) l) (fork_blocks entry) ov a) as (ov' & Hrp & Hv'); [done| |congruence|done|done|done|].
  { rewrite (take_S_r _ _ _ Ha). apply last_snoc. }
  rewrite Hrp. cbn [map_err]. autorewrite with engine.
  match goal with |- stopped e (validated ?r ?k e) \/ _ => destruct (validated_stops r k e) as [[Hv ->]|?]; [|by left] end.
  right. autorewrite with engine. rewrite (represents_tip e l tl R Hl), (normal_work b (ct_normal _ _ C)).
  autorewrite with engine. cbn [snd].
  pose proof (@validated_appendable X P _ (ForkDbOverlay MemoryView) overlay_block_storage overlay_utxo_storage
    overlay_read_laws schedule now (block_validator e) ov' (take (Datatypes.S k) l ++ fork_blocks entry) b schedule_permutes
    Hv' (branch_shape _ _ Hsk Hbr) Htyk C Hv) as Happ.
  pose proof Happ as (Hsh & Hw & Hsp & Hn).
  pose proof (branch_snoc _ _ _ Hbr Happ (ct_new _ _ C) (ct_fresh _ _ C)) as Hbr'.
  assert (Forall block_typed (fork_blocks entry ++ [b])) as Hty' by (rewrite Forall_app, Forall_singleton; split; [apply Hf|apply C]).
  assert (forall h, h ∈ (block_hash <$> fork_blocks entry ++ [b]) -> h ∉ (block_hash <$> l)) as Hap.
  { intros h Hh. rewrite fmap_app in Hh. apply elem_of_app in Hh as [Hh|Hh]; [by apply Hf|].
    apply list_elem_of_singleton in Hh as ->. done. }
  rewrite (fk_work _ _ _ _ _ Hf).
  rewrite (proj2 (add_work_Ok _ (work b) (ledger_work ((take (Datatypes.S k) l ++ fork_blocks entry) ++ [b]))))
    by (rewrite <-ledger_work_snoc; done).
  rewrite <-app_assoc in *. autorewrite with engine. unfold fork_outcome. cbn [snd].
  destruct (Z.ltb_spec (ledger_work l) (ledger_work (take (Datatypes.S k) l ++ fork_blocks entry ++ [b]))) as [Hlt'|Hge].
  - right. rewrite run_bind.
    destruct (perform_reorg_ok e l k a (fork_blocks entry ++ [b]) b) as (e' & -> & R' & _); try done.
    { by rewrite last_snoc. }
    autorewrite with engine. cbn [fst snd]. split_and!; [done| |done].
    apply represents_fewer_forks; [done|]. intros tip0 entry0. unfold forks_remove. rewrite lookup_delete_Some. tauto.
  - left. autorewrite with engine. cbn [fst snd db forks engine_consts block_validator chain_index].
    split_and!; [done|done| |done|].
    + match goal with |- represents (mk_Engine _ _ _ (forks_insert ?r ?en) _) l =>
        apply (represents_add_fork (mk_Engine (engine_consts e) (block_validator e) (db e) r (chain_index e)) l en k a b) end.
      * apply represents_fewer_forks; [done|]. intros tip0 entry0. unfold forks_remove. rewrite lookup_delete_Some. tauto.
      * split; cbn; try done. by rewrite last_snoc.
    + eexists. unfold forks_insert. cbn [fork_tip]. by rewrite lookup_insert_eq.
Qed.
End Handlers.

(** * One block *)

Section OnBlock.
Context {X : Externals} {P : PetGraph nat} `{!PetGraphLaws nat} {I : HashIteration} `{!HashIterationLaws}.
Implicit Types (e : Engine MemoryView) (l bs : list Block) (b t a : Block).
Variables (schedule : list nat -> list nat) (now : result string Z).
Hypothesis schedule_permutes : forall idxs, schedule idxs ≡ₚ idxs.

(** The chains a block can attach to: the prefixes of the selected chain, and the tracked
    forks with what they share with it. *)
Definition candidate e l (c : list Block) : Prop :=
  (exists k, (k < length l)%nat /\ c = take (Datatypes.S k) l) \/
  (exists tip entry k a, forks e !! tip = Some entry /\ l !! k = Some a /\
     fork_ancestor entry = block_hash a /\ c = take (Datatypes.S k) l ++ fork_blocks entry).

(** Wherever the block attaches, its outputs are new. *)
Definition fresh_on e l b : Prop :=
  forall c p, candidate e l c -> last c = Some p -> previous_block_hash (header b) = block_hash p ->
    fresh_outputs b (ledger_view c).

Definition block_outcome e l b (verdict : result StryiCoreError ConsensusVerdict) (e' : Engine MemoryView) : Prop :=
  match verdict with
  | Ok (Applied tr) =>
      represents e' (l ++ [b]) /\ ledger_work l < ledger_work (l ++ [b]) /\
      tr = mk_CommittedTransition (position b) (ledger_work (l ++ [b])) [b] []
  | Ok (CausedReorganization tr) =>
      exists k bs, let l' := take (Datatypes.S k) l ++ bs in
        (k < length l)%nat /\ last bs = Some b /\ represents e' l' /\ ledger_work l < ledger_work l' /\
        tr = mk_CommittedTransition (position b) (ledger_work l') bs (position <$> rev (drop (Datatypes.S k) l))
  | Ok Buffered =>
      represents e' l /\ db e' = db e /\
      ((e' = e /\ previous_block_hash (header b) ∉ (block_hash <$> l) /\
        forks e !! previous_block_hash (header b) = None) \/
       exists entry, forks e' !! block_hash b = Some entry /\ last (fork_blocks entry) = Some b)
  | Ok AlreadyIncludedInChain => e' = e /\ block_hash b ∈ (block_hash <$> l)
  | Ok AlreadyKnownInForkTree =>
      e' = e /\ exists tip entry, forks e !! tip = Some entry /\ block_hash b ∈ (block_hash <$> fork_blocks entry)
  | Ok (Rejected _) => e' = e
  | Err err => e' = e /\ exists layer cause, err = CoreStorageError layer cause
  end.

Lemma stopped_outcome e l b out : stopped e out -> block_outcome e l b out.1 out.2.
Proof.
  unfold stopped, block_outcome. intros [-> Ho]. destruct (out.1) as [[]|err]; try done.
  split; [done|]. destruct err; try done. eauto.
Qed.

Lemma fork_outcome_outcome e l k bs b out :
  (k < length l)%nat -> last bs = Some b -> fork_outcome e l k bs b out -> block_outcome e l b out.1 out.2.
Proof.
  intros Hk Hl [(_ & -> & R & Hdb & entry & He & Hbs)|(Hw & R & ->)]; cbn.
  - split_and!; [done..|]. right. exists entry. by rewrite Hbs.
  - by exists k, bs.
Qed.

Lemma validate_height_at e b h :
  validate_height e b = true ->
  (match index_height_of (chain_index e) (previous_block_hash (header b)) with
   | Some h => Some h
   | None => entry ← forks_get (forks e) (previous_block_hash (header b)); t ← last (fork_blocks entry); Some (height (header t))
   end) = Some h ->
  height (header b) = h + 1.
Proof.
  unfold validate_height. intros Hv Hh. rewrite Hh in Hv. apply bool_decide_eq_true, checked_add_Some in Hv. lia.
Qed.

Lemma index_height_at e l i p :
  represents e l -> l !! i = Some p -> index_height_of (chain_index e) (block_hash p) = Some (height (header p)).
Proof. intros R Hp. unfold index_height_of. by rewrite (indexes_entry _ l i p (rp_index _ _ R) Hp). Qed.

Lemma index_height_none e l h :
  represents e l -> h ∉ (block_hash <$> l) -> index_height_of (chain_index e) h = None.
Proof.
  intros R Hh. unfold index_height_of. destruct (entries (chain_index e) !! h) as [en|] eqn:He; [|done].
  exfalso. apply Hh, (indexes_has _ _ _ (rp_index _ _ R)). unfold index_has. apply bool_decide_eq_true_2. by rewrite He.
Qed.

(** A genesis-marked block never passes the height check of an initialized engine. *)
Lemma marked_block_rejected e l b :
  represents e l -> verify_genesis_work_shape b = Ok tt -> validate_height e b = true -> is_genesis b = false.
Proof.
  intros R Hv Hh. destruct (is_genesis b) eqn:Hg; [|done]. exfalso.
  destruct (proj1 (verify_shape_Ok b) Hv Hg) as (Hz & Hp & _).
  pose proof (represents_shape _ _ R) as Hs. destruct l as [|g rest]; [done|].
  pose proof (chain_genesis_iff _ 0 g Hs eq_refl) as Hgg.
  assert (block_hash g = BlockHash_empty) as Hgh by (unfold block_hash; by rewrite (proj2 Hgg eq_refl)).
  pose proof (index_height_at e _ 0 g R eq_refl) as Hih. rewrite Hgh, <-Hp in Hih.
  assert (height (header b) = height (header g) + 1) as Hb by (apply (validate_height_at e b); [done|by rewrite Hih]).
  rewrite (chain_height _ 0 g Hs eq_refl) in Hb. lia.
Qed.

Lemma classify_not_known e l b d :
  represents e l -> classify_block e b = d -> (forall loc, d <> Known loc) ->
  block_hash b ∉ (block_hash <$> l) /\
  (forall tip entry, forks e !! tip = Some entry -> block_hash b ∉ (block_hash <$> fork_blocks entry)).
Proof.
  intros R Hc Hn. unfold classify_block in Hc.
  destruct (index_has (chain_index e) (block_hash b)) eqn:Hi; [by subst; destruct (Hn CanonicalChain)|].
  destruct (forks_has (forks e) (block_hash b) || has_block (forks e) (block_hash b)) eqn:Hf; [by subst; destruct (Hn ForkTree)|].
  apply orb_false_elim in Hf as [_ Hf]. split.
  - intros Hin. apply (indexes_has _ _ _ (rp_index _ _ R)) in Hin. congruence.
  - intros tip entry He Hin. assert (has_block (forks e) (block_hash b) = true) by (apply has_block_true; eauto). congruence.
Qed.

Lemma on_block_outcome e l b :
  represents e l -> block_typed b -> fresh_on e l b ->
  let out := on_block schedule now b e in block_outcome e l b out.1 out.2.
Proof.
  intros R Hty Hfresh out. subst out. unfold on_block. rewrite run_forks, run_get.
  assert (mk_Engine (engine_consts e) (block_validator e) (db e) (maintenance (forks e)) (chain_index e) = e) as -> by (by destruct e).
  destruct (verify_genesis_work_shape b) as [[]|err] eqn:Hshape; [|done].
  destruct (validate_height e b) eqn:Hheight; [|done]. cbn [negb].
  pose proof (marked_block_rejected e l b R Hshape Hheight) as Hg.
  destruct (ic_tip _ _ (rp_index _ _ R)) as (t & Hl & Htip).
  pose proof (represents_shape _ _ R) as Hs.
  destruct (classify_block e b) as [loc| |lca|par root|par] eqn:Hc.
  - unfold classify_block in Hc. destruct (index_has (chain_index e) (block_hash b)) eqn:Hi.
    + injection Hc as <-. cbn. split; [done|]. by apply (indexes_has _ _ _ (rp_index _ _ R)).
    + destruct (forks_has (forks e) (block_hash b) || has_block (forks e) (block_hash b)) eqn:Hf.
      2: { repeat case_match; done. }
      injection Hc as <-. cbn. split; [done|]. apply orb_prop in Hf as [Hf|Hf]; [|by apply has_block_true].
      unfold forks_has in Hf. apply bool_decide_eq_true in Hf as [entry He].
      destruct (rp_forks _ _ R _ _ He) as (Htk & k & a & t' & Hfk). exists (block_hash b), entry. split; [done|].
      rewrite Htk, (fk_tip _ _ _ _ _ Hfk). apply list_elem_of_fmap_2.
      pose proof (fk_last _ _ _ _ _ Hfk) as Hlast. rewrite last_lookup in Hlast. by apply list_elem_of_lookup_2 in Hlast.
  - destruct (classify_not_known e l b _ R Hc) as [Hnew Hnf]; [done|].
    assert (previous_block_hash (header b) = block_hash t) as Hp.
    { unfold classify_block in Hc. repeat (case_match; try done). unfold index_tip_of in *. rewrite Htip in *.
      simplify_eq/=. by bool_inv. }
    pose proof (last_lookup_nat _ _ Hl) as Hlt. apply lookup_lt_Some in Hlt as Hlen.
    assert (continues l b) as C.
    { split; [|done..|].
      - exists t. split_and!; [done..|]. apply (validate_height_at e b); [done|].
        by rewrite Hp, (index_height_at e l _ t R Hlt).
      - apply (Hfresh l t); [|done..]. left. exists (length l - 1)%nat. split; [lia|]. by rewrite take_ge by lia. }
    destruct (extend_canonical_ok schedule now schedule_permutes e l b R C Hnf) as [Hst|(e' & -> & R')].
    + by apply stopped_outcome.
    + cbn. split_and!; [done| |done]. rewrite ledger_work_snoc. pose proof (work_range b Hty Hg). lia.
  - destruct (classify_not_known e l b _ R Hc) as [Hnew Hnf]; [done|].
    assert (lca = previous_block_hash (header b) /\ index_has (chain_index e) lca = true) as [-> Hin].
    { unfold classify_block in Hc. repeat (case_match; try done); by simplify_eq/=. }
    apply (indexes_has _ _ _ (rp_index _ _ R)) in Hin. apply list_elem_of_fmap in Hin as (a & Hp & Hin).
    apply list_elem_of_lookup in Hin as [k Ha]. apply lookup_lt_Some in Ha as Hk.
    assert (continues (take (Datatypes.S k) l) b) as C.
    { split; [|done..| |].
      - exists a. rewrite (take_S_r _ _ _ Ha), last_snoc. split_and!; [done..|]. apply (validate_height_at e b); [done|].
        by rewrite Hp, (index_height_at e l _ a R Ha).
      - intros Hc'. apply Hnew. rewrite fmap_take in Hc'. apply elem_of_take in Hc' as (i & Hi & _). by apply list_elem_of_lookup_2 in Hi.
      - apply (Hfresh _ a); [by left; exists k| |done]. by rewrite (take_S_r _ _ _ Ha), last_snoc. }
    rewrite Hp. destruct (creates_fork_ok schedule now schedule_permutes e l k a b R Ha C Hp Hnew) as [Hst|Ho].
    + by apply stopped_outcome.
    + by apply (fork_outcome_outcome e l k [b]).
  - destruct (classify_not_known e l b _ R Hc) as [Hnew Hnf]; [done|].
    assert (exists entry, forks e !! previous_block_hash (header b) = Some entry /\ root = fork_ancestor entry /\
      index_has (chain_index e) (previous_block_hash (header b)) = false) as (entry & He & -> & Hnin).
    { unfold classify_block, forks_get in Hc. repeat (case_match; try done); simplify_eq/=; eauto. }
    destruct (rp_forks _ _ R _ _ He) as (Htk & k & a & t' & Hf). pose proof (fk_ancestor _ _ _ _ _ Hf) as Ha.
    apply lookup_lt_Some in Ha as Hk.
    assert (last (take (Datatypes.S k) l ++ fork_blocks entry) = Some t') as Hlast by (by rewrite last_app, (fk_last _ _ _ _ _ Hf)).
    assert (previous_block_hash (header b) = block_hash t') as Hp by (by rewrite Htk, (fk_tip _ _ _ _ _ Hf)).
    assert (continues (take (Datatypes.S k) l ++ fork_blocks entry) b) as C.
    { split; [|done..| |].
      - exists t'. split_and!; [done..|]. apply (validate_height_at e b); [done|]. unfold index_height_of, forks_get.
        unfold index_has in Hnin. apply bool_decide_eq_false in Hnin.
        destruct (entries (chain_index e) !! previous_block_hash (header b)); [by destruct Hnin; eauto|].
        rewrite He. cbn. by rewrite (fk_last _ _ _ _ _ Hf).
      - rewrite fmap_app. intros Hc'. apply elem_of_app in Hc' as [Hc'|Hc']; [|by apply (Hnf _ _ He)].
        apply Hnew. rewrite fmap_take in Hc'. apply elem_of_take in Hc' as (i & Hi & _). by apply list_elem_of_lookup_2 in Hi.
      - apply (Hfresh _ t'); [|done..]. right. exists (previous_block_hash (header b)), entry, k, a.
        split_and!; [done..|apply Hf|done]. }
    destruct (extends_fork_ok schedule now schedule_permutes e l _ entry k a t' b R He Hf eq_refl C Hnew) as [Hst|Ho].
    + by apply stopped_outcome.
    + apply (fork_outcome_outcome e l k (fork_blocks entry ++ [b])); [done|by rewrite last_snoc|done].
  - cbn. split_and!; [done..|]. left. split; [done|].
    assert (index_has (chain_index e) (previous_block_hash (header b)) = false /\
      forks e !! previous_block_hash (header b) = None) as [Hni Hnf].
    { unfold classify_block, forks_get in Hc. repeat (case_match; try done). }
    split; [|done]. intros Hin. apply (indexes_has _ _ _ (rp_index _ _ R)) in Hin. congruence.
Qed.

(** A block that continues the selected chain, that no fork lists and that passes
    validation is applied. *)
Lemma on_block_applies e l b :
  represents e l -> continues l b -> untracked e b ->
  validate schedule now (block_validator e) b (db e) = Ok tt ->
  exists e' tr, on_block schedule now b e = (Ok (Applied tr), e') /\
    represents e' (l ++ [b]) /\ forks e' = forks e /\ block_validator e' = block_validator e.
Proof.
  intros R C Hu Hv. destruct (ct_last _ _ C) as (t & Hl & Hp & Hh).
  pose proof (last_lookup_nat _ _ Hl) as Hlt.
  destruct (extend_canonical_applies schedule now schedule_permutes e l b R C Hu Hv) as (e' & He & R').
  exists e'. eexists. split; [|exact R']. unfold on_block. rewrite run_forks, run_get.
  assert (mk_Engine (engine_consts e) (block_validator e) (db e) (maintenance (forks e)) (chain_index e) = e) as -> by (by destruct e).
  rewrite (normal_shape b (ct_normal _ _ C)).
  assert (validate_height e b = true) as ->.
  { unfold validate_height. rewrite Hp, (index_height_at e l _ t R Hlt).
    apply bool_decide_eq_true, checked_add_Some. destruct (ct_typed _ _ C) as (_ & Hb & _). lia. }
  cbn [negb]. assert (classify_block e b = ExtendsCanonical) as ->; [|exact He].
  unfold classify_block. destruct (index_has (chain_index e) (block_hash b)) eqn:Hi.
  { apply (indexes_has _ _ _ (rp_index _ _ R)) in Hi. by destruct (ct_new _ _ C). }
  destruct (forks_has (forks e) (block_hash b) || has_block (forks e) (block_hash b)) eqn:Hf.
  { exfalso. apply orb_prop in Hf as [Hf|Hf].
    - unfold forks_has in Hf. apply bool_decide_eq_true in Hf as [entry Hent].
      destruct (rp_forks _ _ R _ _ Hent) as (Htk & k & a & t' & Hfk). apply (Hu _ _ Hent).
      rewrite Htk, (fk_tip _ _ _ _ _ Hfk). apply list_elem_of_fmap_2.
      pose proof (fk_last _ _ _ _ _ Hfk) as Hlast. rewrite last_lookup in Hlast. by apply list_elem_of_lookup_2 in Hlast.
    - apply has_block_true in Hf as (tip & entry & Hent & Hin). by apply (Hu _ _ Hent). }
  destruct (ic_tip _ _ (rp_index _ _ R)) as (t' & Hl' & Ht). rewrite Hl in Hl'. injection Hl' as <-.
  unfold index_tip_of. rewrite Ht. cbn [fmap option_fmap option_map]. cbn. by rewrite bool_decide_eq_true_2.
Qed.
End OnBlock.

(** * Start-up *)

Section Startup.
Context {X : Externals} {I : HashIteration} `{!HashIterationLaws}.
Implicit Types (m : MemoryView) (l : list Block) (b t : Block) (x : ChainIndex).

Lemma collect_loop_ok m l :
  records m l -> forall (i fuel : nat) t acc, l !! i = Some t -> (i <= fuel)%nat ->
  collect_loop fuel m (Z.of_nat i, block_hash t) acc = Ok (take (Datatypes.S i) l ++ rev acc).
Proof.
  intros C. pose proof (rc_shape _ _ C) as Hs. induction i as [|i IH]; intros fuel t acc Ht Hf;
    pose proof (chain_height _ _ _ Hs Ht) as Hh; pose proof (chain_genesis_iff _ _ _ Hs Ht) as Hg;
    (destruct fuel as [|fuel]; try lia); cbn [collect_loop];
    cbn [get_block_by_hash get_block_hash_by_height get_block_undo read_blocks read_undo memory_read memory_block_storage memory_undo];
    rewrite (rc_blocks _ _ C) by (by apply list_elem_of_lookup_2 in Ht); cbn [map_err ok_or mbind result_bind];
    rewrite (rc_heights _ _ C), height_lookup_nat, Ht; cbn [fmap option_fmap option_map];
    rewrite Hh, Z.eqb_refl, !bool_decide_eq_true_2 by done; cbn [negb orb];
    rewrite (chain_shape_ok _ _ _ Hs Ht : verify_genesis_work_shape t = Ok tt); cbn [mbind result_bind];
    change (header_is_genesis (header t)) with (is_genesis t).
  1, 2: rewrite (proj2 Hg eq_refl); cbn; by rewrite (take_S_r _ _ _ Ht), rev_app_distr.
  rewrite (proj2 (Z.ltb_lt 0 _)) by lia.
  destruct (rc_undos _ _ C _ _ Ht ltac:(lia)) as (u & -> & _). cbn [map_err mbind result_bind].
  rewrite bool_decide_eq_true_2 by eauto. cbn [ensure mbind result_bind].
  rewrite (proj2 (Z.eqb_neq (Z.of_nat (Datatypes.S i)) 0)) by lia. cbn [andb].
  assert (is_Some (l !! i)) as [p Hp] by (apply lookup_lt_is_Some; apply lookup_lt_Some in Ht; lia).
  rewrite (chain_parent l i t p Hs Ht Hp). replace (Z.of_nat (Datatypes.S i) - 1) with (Z.of_nat i) by lia.
  rewrite (IH fuel p _ Hp) by lia. rewrite (take_S_r l (Datatypes.S i) t Ht), rev_app_distr. by rewrite <-app_assoc.
Qed.

Lemma rebuild_fold m l pre rest x :
  records m l -> Forall block_typed l -> l = pre ++ rest ->
  match pre with [] => x = ChainIndex_new | _ => indexes_chain x pre end ->
  exists x', fold_res (rebuild_step m) (x, ledger_work pre) rest = Ok (x', ledger_work l) /\
    match l with [] => x' = ChainIndex_new | _ => indexes_chain x' l end.
Proof.
  intros C Hty. revert pre x. induction rest as [|b rest IH]; intros pre x -> Hx; cbn [fold_res].
  { rewrite app_nil_r. by exists x. }
  assert ((pre ++ b :: rest) !! length pre = Some b) as Hb by (by apply list_lookup_middle).
  assert (take (Datatypes.S (length pre)) (pre ++ b :: rest) = pre ++ [b]) as Htake.
  { rewrite (take_S_r _ _ _ Hb). by rewrite take_app_length. }
  pose proof (rc_work _ _ C (Datatypes.S (length pre))) as Hw. rewrite Htake in Hw.
  pose proof (rc_shape _ _ C) as Hs.
  assert (rebuild_step m (x, ledger_work pre) b = Ok (index_insert x b (ledger_work (pre ++ [b])), ledger_work (pre ++ [b]))) as ->.
  { unfold rebuild_step, verified_block_work. rewrite (chain_shape_ok _ _ _ Hs Hb : verify_genesis_work_shape b = Ok tt).
    cbn [mbind result_bind mret result_ret fst snd].
    rewrite (proj2 (add_work_Ok _ (work b) (ledger_work (pre ++ [b])))) by (rewrite <-ledger_work_snoc; done).
    cbn [mbind result_bind]. cbn [get_block_index read_blocks memory_read memory_block_storage].
    rewrite (rc_indexes _ _ C _ _ Hb), Htake. cbn [map_err ok_or mbind result_bind index_height parent_hash index_chain_work].
    rewrite (chain_height _ _ _ Hs Hb), !Z.eqb_refl, bool_decide_eq_true_2 by done. done. }
  cbn [mbind result_bind]. apply (IH (pre ++ [b])); [by rewrite <-app_assoc|].
  destruct pre as [|p pre].
  - subst x. cbn [app]. apply indexes_first.
  - cbn [app]. change (p :: pre ++ [b]) with ((p :: pre) ++ [b]). apply indexes_snoc; [done| |].
    + pose proof (rc_nodup _ _ C) as Hnd. rewrite fmap_app in Hnd. apply NoDup_app in Hnd as (_ & Hout & _).
      intros Hc. apply (Hout _ Hc). set_solver.
    + pose proof (chain_genesis_iff _ _ _ Hs Hb) as Hg. rewrite Forall_lookup in Hty.
      assert (is_genesis b = false) as Hng by (destruct (is_genesis b); [by discriminate (proj1 Hg eq_refl)|done]).
      pose proof (work_range b (Hty _ _ Hb) Hng). lia.
Qed.

Lemma build_chain_index_ok m l :
  refines m l -> Forall block_typed l -> exists x, build_chain_index m = Ok x /\ indexes_chain x l.
Proof.
  intros R Hty. pose proof (rf_records _ _ R) as C. destruct (rf_state _ _ R) as (t & Hl & Hst).
  pose proof (last_position _ _ (rc_shape _ _ C) Hl) as Hh. pose proof (last_lookup_nat _ _ Hl) as Hlt.
  apply lookup_lt_Some in Hlt as Hlen. pose proof (chain_bound _ (rc_shape _ _ C)) as Hb.
  unfold build_chain_index. cbn [db_read memory_full_node snapshot_read Snapshot map_err mbind result_bind
    chain_state read_stats memory_read memory_stats].
  rewrite Hst. cbn [map_err ok_or mbind result_bind]. unfold collect_canonical_ancestry. cbn [tip_state latest_block position fst].
  rewrite Hh. replace (Z.of_nat (length l) - 1) with (Z.of_nat (length l - 1)) by lia.
  unfold position. rewrite Hh. replace (Z.of_nat (length l) - 1) with (Z.of_nat (length l - 1)) by lia.
  rewrite (collect_loop_ok m l C (length l - 1) _ t [] Hlt) by lia. rewrite take_ge by lia. rewrite app_nil_r.
  cbn [mbind result_bind]. unfold rebuild_chain_index.
  destruct (rebuild_fold m l [] l ChainIndex_new C Hty eq_refl eq_refl) as (x & Hf & Hx).
  change (ledger_work []) with 0 in Hf. rewrite Hf. cbn [mbind result_bind fst snd chain_work tip_state].
  rewrite Z.eqb_refl, bool_decide_eq_true_2; cbn [negb orb latest_block fst blocks_count].
  - exists x. split; [done|]. by destruct l.
  - apply checked_add_Some. cbn. lia.
Qed.

Lemma indexes_unique x y l : indexes_chain x l -> indexes_chain y l -> x = y.
Proof.
  intros [He1 (t1 & Hl1 & Ht1)] [He2 (t2 & Hl2 & Ht2)]. destruct x as [ex tx], y as [ey ty]. cbn in *.
  rewrite Hl1 in Hl2. injection Hl2 as <-. f_equal; [|congruence]. apply map_eq. intros hash. apply option_eq. intros e.
  by rewrite He1, He2.
Qed.
End Startup.

(** * Properties of the engine *)

Section EngineProperties.
Context {X : Externals} {P : PetGraph nat} `{!PetGraphLaws nat} {I : HashIteration} `{!HashIterationLaws}.
Implicit Types (e : Engine MemoryView) (l : list Block) (b : Block).
Variables (schedule : list nat -> list nat).
Hypothesis schedule_permutes : forall idxs, schedule idxs ≡ₚ idxs.

(** C1: one block, end to end. An engine that represents a chain [l] (storage, index and
    forks) keeps representing a chain after any block whose outputs are new where it
    attaches, and the verdict says which: Applied is [l] followed by the block;
    CausedReorganization is a prefix of [l] followed by a branch ending with the block,
    strictly heavier than [l], with exactly the detached and attached blocks reported;
    Buffered keeps [l] and storage, with the block tracked as the tip of a fork or else
    left out because its parent is unknown; the other verdicts change nothing, and so
    does an error, which can only be a storage error met during validation. *)
Theorem on_block_refines_fork_choice now e l b :
  represents e l -> block_typed b -> fresh_on e l b ->
  block_outcome e l b (on_block schedule now b e).1 (on_block schedule now b e).2.
Proof. apply on_block_outcome. exact schedule_permutes. Qed.

(** Blocks fed one after the other, each with the clock reading of its moment. *)
Fixpoint feed e (incoming : list (result string Z * Block)) : Engine MemoryView :=
  match incoming with
  | [] => e
  | (now, b) :: incoming => feed (on_block schedule now b e).2 incoming
  end.

Fixpoint all_fresh e (incoming : list (result string Z * Block)) : Prop :=
  match incoming with
  | [] => True
  | (now, b) :: incoming =>
      block_typed b /\ (forall l, represents e l -> fresh_on e l b) /\
      all_fresh (on_block schedule now b e).2 incoming
  end.

Lemma outcome_represents e l b verdict e' :
  represents e l -> block_outcome e l b verdict e' ->
  exists l', represents e' l' /\ ledger_work l <= ledger_work l'.
Proof.
  intros R Ho. destruct verdict as [[tr| | | |err|tr]|err]; cbn in Ho.
  - destruct Ho as (R' & Hw & _). exists (l ++ [b]). split; [done|lia].
  - exists l. split; [apply Ho|lia].
  - destruct Ho as [-> _]. exists l. split; [done|lia].
  - destruct Ho as [-> _]. exists l. split; [done|lia].
  - subst e'. exists l. split; [done|lia].
  - destruct Ho as (k & bs & _ & _ & R' & Hw & _). eexists. split; [exact R'|lia].
  - destruct Ho as [-> _]. exists l. split; [done|lia].
Qed.

Lemma feed_represents e l incoming :
  represents e l -> all_fresh e incoming ->
  exists l', represents (feed e incoming) l' /\ ledger_work l <= ledger_work l' /\
    forall tip entry, forks (feed e incoming) !! tip = Some entry -> cumulative_work entry <= ledger_work l'.
Proof.
  revert e l. induction incoming as [|[now b] incoming IH]; intros e l R Hf; cbn [feed].
  - exists l. split_and!; [done|lia|]. intros tip entry He.
    destruct (rp_forks _ _ R tip entry He) as (_ & k & a & t & Hfk). apply Hfk.
  - destruct Hf as (Hty & Hfresh & Hf).
    pose proof (on_block_outcome schedule now schedule_permutes e l b R Hty (Hfresh l R)) as Ho.
    apply (outcome_represents _ _ _ _ _ R) in Ho as (l1 & R1 & Hw1).
    destruct (IH _ l1 R1 Hf) as (l' & R' & Hw & Hall). exists l'. split_and!; [done|lia|done].
Qed.

(** C2: Fork choice. Blocks of machine size arrive in any order, valid or not, competing or not,
    and each one that attaches to the selected chain or to a tracked fork creates only
    outputs that this chain does not hold unspent, unless the block itself spends them. Then
    the engine always represents some chain, the work of the selected chain never decreases,
    and no fork that is still tracked is heavier than the selected chain. The condition on
    the outputs is [fresh_on], asked of every block by [all_fresh]; the code does not check
    it, and without it the claim is false ([repeated_payment_is_fatal]). *)
Theorem selected_chain_is_heaviest e l incoming :
  represents e l -> all_fresh e incoming ->
  exists l', represents (feed e incoming) l' /\ ledger_work l <= ledger_work l' /\
    forall tip entry, forks (feed e incoming) !! tip = Some entry -> cumulative_work entry <= ledger_work l'.
Proof. apply feed_represents. Qed.

(** Starting an engine on a store of a chain. *)
Lemma startup_engine m l consts v :
  refines m l -> Forall block_typed l ->
  exists x, Engine_new consts v m = Ok (mk_Engine consts v m ∅ x) /\
    represents (mk_Engine consts v m ∅ x) l.
Proof.
  intros R Hty. destruct (build_chain_index_ok m l R Hty) as (x & Hb & Hx). exists x. split.
  - unfold Engine_new. by rewrite Hb.
  - split; [done..|]. cbn [forks]. intros tip entry He. by rewrite lookup_empty in He.
Qed.

(** C28: starting an engine on a store that represents a chain succeeds, terminates within
    the height of the stored tip, tracks no fork, and represents that chain. *)
Theorem startup_represents m l consts v :
  refines m l -> Forall block_typed l ->
  exists x, Engine_new consts v m = Ok (mk_Engine consts v m ∅ x) /\
    represents (mk_Engine consts v m ∅ x) l.
Proof. apply startup_engine. Qed.

(** C18: restarting loses nothing of the selected chain: at any moment, the index rebuilt
    from storage is the very index that the running engine maintained incrementally
    through appends and reorganizations. *)
Theorem restart_restores_index e l :
  represents e l -> build_chain_index (db e) = Ok (chain_index e).
Proof.
  intros R. destruct (build_chain_index_ok (db e) l (rp_refines _ _ R) (rp_typed _ _ R)) as (x & -> & Hx).
  f_equal. by apply (indexes_unique _ _ l); [|apply R].
Qed.

(** A block whose parent is neither on the selected chain nor the tip of a tracked
    fork is answered Buffered although nothing keeps it: the engine is unchanged. *)
Theorem unknown_parent_is_dropped now e b :
  is_genesis b = false -> index_has (chain_index e) (block_hash b) = false ->
  forks_has (forks e) (block_hash b) = false -> has_block (forks e) (block_hash b) = false ->
  index_has (chain_index e) (previous_block_hash (header b)) = false ->
  forks e !! previous_block_hash (header b) = None -> tip_heaviest (chain_index e) ->
  on_block schedule now b e = (Ok Buffered, e).
Proof.
  intros Hg Hi Hf1 Hf2 Hp Hfp Ht. unfold on_block. rewrite run_forks, run_get.
  assert (mk_Engine (engine_consts e) (block_validator e) (db e) (maintenance (forks e)) (chain_index e) = e) as -> by (by destruct e).
  rewrite (normal_shape b Hg). unfold validate_height, index_height_of, forks_get. rewrite Hfp.
  pose proof Hp as Hp'. unfold index_has in Hp'. apply bool_decide_eq_false in Hp'.
  assert (entries (chain_index e) !! previous_block_hash (header b) = None) as Hnone.
  { destruct (entries (chain_index e) !! _); [by destruct Hp'; eauto|done]. }
  rewrite Hnone. cbn [fmap option_fmap option_map mbind option_bind negb].
  unfold classify_block, forks_get. rewrite Hi, Hf1, Hf2, Hp, Hfp. cbn [orb].
  unfold tip_heaviest in Ht. unfold index_tip_of. destruct (index_tip (chain_index e)) as [t|]; cbn; [|done].
  rewrite bool_decide_eq_false_2; [done|]. intros Heq. destruct Ht as [(en & Hen & _) _]. congruence.
Qed.
End EngineProperties.

Section ConsensusWitnesses.
Import Toy ListGraph MapOrder.

(** An initialized store, its engine, and blocks on top of the genesis. *)
Definition run_store : MemoryView :=
  match apply_transition MemoryView_default (TGenesis toy_genesis toy_metadata) with
  | Ok r => r.2
  | Err _ => MemoryView_default
  end.
Definition run_engine : Engine MemoryView :=
  mk_Engine val_rules val_validator run_store ∅ (index_insert ChainIndex_new toy_genesis (ledger_work [toy_genesis])).

Lemma run_store_refines : refines run_store [toy_genesis].
Proof.
  destruct (genesis_init toy_genesis toy_metadata toy_genesis_valid) as (m & Hm & R & _).
  unfold run_store. rewrite Hm. exact R.
Qed.

Lemma toy_genesis_typed : block_typed toy_genesis.
Proof. split_and!; apply (bool_decide_unpack _); vm_compute; exact I. Qed.

Lemma run_engine_represents : represents run_engine [toy_genesis].
Proof.
  split.
  - exact run_store_refines.
  - apply indexes_first.
  - apply Forall_singleton. exact toy_genesis_typed.
  - cbn [forks run_engine]. intros tip entry He. rewrite lookup_empty in He. discriminate He.
Qed.

Definition run_block (parent : BlockHash) (h nonce : Z) (txs : list Transaction) : Block :=
  let txs := new_unsigned (mk_TransactionData 1 (Coinbase h parent) [] [mk_TransactionOut 1000 val_owner]) :: txs in
  mk_Block (mk_BlockHeader 1 (compute_merkle_root txs) parent h (uint_max 256) (1900000000 + h) nonce None) txs.

Abbreviation run b e := (on_block (I := map_order) (P := list_graph) (fun idxs => idxs) (Ok 1900000000) b e).

Definition run_first : Block := run_block BlockHash_empty 1 0 [val_free].

Definition is_applied (r : result StryiCoreError ConsensusVerdict) : bool :=
  match r with Ok (Applied _) => true | _ => false end.

Lemma run_first_applied : is_applied (run run_first run_engine).1 = true.
Proof. vm_compute. reflexivity. Qed.

Lemma run_first_typed : block_typed run_first.
Proof. split_and!; apply (bool_decide_unpack _); vm_compute; exact I. Qed.

Lemma run_first_fresh l : represents run_engine l -> fresh_on run_engine l run_first.
Proof.
  intros R c p Hc Hl _. assert (l = [toy_genesis]) as ->.
  { apply represents_shape in R as Hs. destruct (ic_tip _ _ (rp_index _ _ R)) as (t & Hlt & Ht).
    destruct (ic_tip _ _ (rp_index _ _ run_engine_represents)) as (t0 & Hl0 & Ht0). injection Hl0 as <-.
    rewrite Ht0 in Ht. injection Ht as Hh _ _. pose proof (last_position _ _ Hs Hlt) as Hp.
    assert (height (header t) = 0) as Hz by (rewrite <-Hh; reflexivity). rewrite Hz in Hp.
    destruct l as [|g [|b l]]; [discriminate Hlt| |cbn [length] in Hp; lia].
    f_equal. assert (blocks run_store !! block_hash g = Some g) as Hb.
    { apply (rc_blocks _ _ (rf_records _ _ (rp_refines _ _ R))). apply list_elem_of_here. }
    assert (blocks run_store !! block_hash toy_genesis = Some toy_genesis) as Hb0.
    { apply (rc_blocks _ _ (rf_records _ _ run_store_refines)). apply list_elem_of_here. }
    pose proof (chain_genesis_iff _ 0 g Hs eq_refl) as [_ Hg]. specialize (Hg eq_refl).
    assert (block_hash g = block_hash toy_genesis) as Heq.
    { rewrite toy_genesis_hash. unfold block_hash. rewrite Hg. reflexivity. }
    rewrite Heq in Hb. rewrite Hb in Hb0. injection Hb0 as ->. reflexivity. }
  destruct Hc as [(k & Hk & ->)|(tip & entry & k & a & He & _)].
  2: { cbn [forks run_engine] in He. rewrite lookup_empty in He. discriminate He. }
  cbn [length] in Hk. destruct k; [|lia]. cbn [take].
  assert (Forall (fun op => ledger_view [toy_genesis] !! op = None) (elements (dom (block_effect run_first).1))) as Hf
    by (apply (bool_decide_unpack _); vm_compute; exact I).
  rewrite Forall_forall in Hf. intros op Hop. left. apply Hf. by apply elem_of_elements.
Qed.

Lemma on_block_refines_fork_choice_witness :
  exists tr e', run run_first run_engine = (Ok (Applied tr), e') /\ represents e' [toy_genesis; run_first].
Proof.
  pose proof (on_block_refines_fork_choice (P := list_graph) (I := map_order) (fun idxs => idxs) id_permutes
    (Ok 1900000000) run_engine [toy_genesis] run_first run_engine_represents run_first_typed
    (run_first_fresh _ run_engine_represents)) as Ho.
  pose proof run_first_applied as Ha. destruct (run run_first run_engine) as [verdict e'].
  cbn [fst snd] in Ho, Ha. destruct verdict as [[tr| | | | |]|]; try discriminate Ha.
  exists tr, e'. exact (conj eq_refl (proj1 Ho)).
Defined.

Lemma selected_chain_is_heaviest_witness :
  exists l', represents (feed (P := list_graph) (I := map_order) (fun idxs => idxs) run_engine [(Ok 1900000000, run_first)]) l'.
Proof.
  destruct (selected_chain_is_heaviest (P := list_graph) (I := map_order) (fun idxs => idxs) id_permutes
    run_engine [toy_genesis] [(Ok 1900000000, run_first)] run_engine_represents) as (l' & R & _).
  - exact (conj run_first_typed (conj run_first_fresh I)).
  - exists l'. exact R.
Defined.

Lemma startup_represents_witness :
  exists e, Engine_new val_rules val_validator run_store = Ok e /\ represents e [toy_genesis].
Proof.
  destruct (startup_represents run_store [toy_genesis] val_rules val_validator run_store_refines) as (x & Hx & R).
  - apply Forall_singleton. exact toy_genesis_typed.
  - eexists. exact (conj Hx R).
Defined.

Lemma restart_restores_index_witness : build_chain_index run_store = Ok (chain_index run_engine).
Proof. exact (restart_restores_index run_engine [toy_genesis] run_engine_represents). Defined.

Definition run_orphan : Block := run_block (block_hash run_first) 2 0 [].

Lemma unknown_parent_is_dropped_witness : run run_orphan run_engine = (Ok Buffered, run_engine).
Proof.
  apply (unknown_parent_is_dropped (P := list_graph) (I := map_order)).
  - reflexivity.
  - vm_compute. reflexivity.
  - vm_compute. reflexivity.
  - vm_compute. reflexivity.
  - vm_compute. reflexivity.
  - vm_compute. reflexivity.
  - apply (insert_heaviest ChainIndex_new); reflexivity.
Defined.

Lemma rewind_fuel_enough_witness :
  exists ov tip, overlay_new run_store (block_hash toy_genesis) = Ok ov /\
    build_fork_overlay run_engine run_store (block_hash toy_genesis) =
      rewind_loop 3 (chain_index run_engine) (block_hash toy_genesis) ov tip.
Proof.
  destruct (overlay_at_ancestor run_store [toy_genesis] 0 toy_genesis toy_genesis run_store_refines eq_refl eq_refl)
    as (ov & _ & _ & Hov & _ & _ & Hrt & Hca & _).
  exists ov, (block_hash toy_genesis). split; [exact Hov|].
  apply (rewind_fuel_enough 3 run_engine run_store (block_hash toy_genesis) ov
    (height (header toy_genesis), block_hash toy_genesis, ledger_work [toy_genesis]) Hov).
  - exact (represents_tip run_engine [toy_genesis] toy_genesis run_engine_represents eq_refl).
  - rewrite Hrt, Hca. lia.
Defined.

(** The same payment again, and a competitor of the first block. *)
Definition run_second : Block := run_block (block_hash run_first) 2 0 [val_free].
Definition run_sibling : Block := run_block BlockHash_empty 1 7 [].

Definition is_fatal_error (r : result StryiCoreError ConsensusVerdict) : bool :=
  match r with Err err => core_is_fatal err | Ok _ => false end.

Lemma run_second_applied :
  let e1 := (run run_first run_engine).2 in let e2 := (run run_second e1).2 in
  is_applied (run run_second e1).1 && is_fatal_error (run run_sibling e2).1 = true.
Proof. vm_compute. reflexivity. Qed.

(** Freshness cannot be dropped from the statements above, and the code does not check it:
    an engine that represents a chain applies a block that repeats a payment without inputs
    which the chain already holds, and then answers an ordinary competitor of an older block
    with a fatal storage error, because the chain can no longer be rewound
    ([overwritten_output_stops_rewind]). *)
Example repeated_payment_is_fatal :
  exists e l b1 b2, represents e l /\ block_typed b1 /\
    is_applied (run b1 e).1 = true /\ is_fatal_error (run b2 (run b1 e).2).1 = true.
Proof.
  exists (run run_first run_engine).2, [toy_genesis; run_first], run_second, run_sibling.
  pose proof (on_block_outcome (P := list_graph) (I := map_order) (fun idxs => idxs) (Ok 1900000000) id_permutes
    run_engine [toy_genesis] run_first run_engine_represents run_first_typed
    (run_first_fresh _ run_engine_represents)) as Ho. cbv zeta in Ho.
  pose proof run_first_applied as Ha. pose proof run_second_applied as Hb. cbv zeta in Hb. apply andb_prop in Hb as [Hb Hc].
  split.
  - destruct (run run_first run_engine) as [verdict e']. cbn [fst snd] in Ho, Ha |- *.
    destruct verdict as [[tr| | | | |]|]; try discriminate Ha. exact (proj1 Ho).
  - split; [|split; [exact Hb|exact Hc]]. split_and!; apply (bool_decide_unpack _); vm_compute; exact I.
Qed.
End ConsensusWitnesses.
