(* ===== verification/Float64.v ===== *)
(** Float64: Rust's [f64] as IEEE 754 binary64, on the specification floats of the
    Standard Library. *)
From S2P Require Import Prelude.
From Stdlib Require Import Floats.SpecFloat.

(** [f64]: 53 bits of precision, exponents below 1024, round to nearest even. *)
Abbreviation f64 := spec_float.

(** [n as f64] for an unsigned integer. *)
Definition f64_of_uint (n : Z) : f64 := binary_normalize 53 1024 n 0 false.
Definition f64_add (x y : f64) : f64 := SFadd 53 1024 x y.
Definition f64_mul (x y : f64) : f64 := SFmul 53 1024 x y.
Definition f64_div (x y : f64) : f64 := SFdiv 53 1024 x y.
(** [==] and [partial_cmp] *)
Definition f64_eqb (x y : f64) : bool := SFeqb x y.
Definition f64_partial_cmp (x y : f64) : option comparison := SFcompare x y.

(** The literals [0.0], [1.0], [0.05] and [0.10], as the nearest doubles. *)
Definition f64_zero : f64 := S754_zero false.
Definition f64_one : f64 := S754_finite false 4503599627370496 (-52).
Definition f64_five_percent : f64 := S754_finite false 7205759403792794 (-57).
Definition f64_ten_percent : f64 := S754_finite false 7205759403792794 (-56).

(** [x.ceil() as u64]: the ceiling is exact in binary64, and the cast saturates and sends
    NaN to zero. *)
Definition f64_ceil_u64 (x : f64) : Z :=
  match x with
  | S754_nan | S754_zero _ | S754_infinity true => 0
  | S754_infinity false => uint_max 64
  | S754_finite s m e =>
      let m := if s then Z.neg m else Z.pos m in
      let ceiling := if 0 <=? e then m * 2 ^ e else - ((- m) / 2 ^ (- e)) in
      Z.max 0 (Z.min ceiling (uint_max 64))
  end.

(** * Exactness below 2^53 *)

(** [m * 2 ^ e] with a full 53-bit significand and [e <= 0] is the double of an integer. *)
Definition represents_uint (x : f64) (n : Z) : Prop :=
  match x with
  | S754_zero false => n = 0
  | S754_finite false m e =>
      Z.pos (digits2_pos m) = 53 /\ -52 <= e <= 0 /\ Z.pos m = n * 2 ^ (- e)
  | _ => False
  end.

Lemma digits2_pos_spec p : 2 ^ (Z.pos (digits2_pos p) - 1) <= Z.pos p < 2 ^ Z.pos (digits2_pos p).
Proof.
  induction p as [p IH|p IH|]; cbn [digits2_pos]; [| |cbn; lia];
    rewrite Pos2Z.inj_succ; set (d := Z.pos (digits2_pos p)) in *;
    assert (0 < d) by done; replace (Z.succ d - 1) with (Z.succ (d - 1)) by lia;
    rewrite !Z.pow_succ_r by lia; lia.
Qed.

Lemma digits2_pos_unique p d : 0 < d -> 2 ^ (d - 1) <= Z.pos p < 2 ^ d -> Z.pos (digits2_pos p) = d.
Proof.
  intros Hd [Hl Hu]. pose proof (digits2_pos_spec p) as [Hl' Hu'].
  set (d' := Z.pos (digits2_pos p)) in *.
  assert (d - 1 < d') by (apply (Z.pow_lt_mono_r_iff 2); lia).
  assert (d' - 1 < d) by (apply (Z.pow_lt_mono_r_iff 2); lia). lia.
Qed.

Lemma shift_left_spec p k : Z.pos (Pos.iter xO p k) = Z.pos p * 2 ^ Z.pos k.
Proof.
  induction k as [|k IH] using Pos.peano_ind; [cbn; lia|].
  rewrite Pos.iter_succ, Pos2Z.inj_xO, IH, Pos2Z.inj_succ, Z.pow_succ_r by lia. lia.
Qed.

Lemma iter_pos_swap {A} (f : A -> A) k x : f (iter_pos f k x) = iter_pos f k (f x).
Proof. revert x. induction k as [k IH|k IH|]; intros x; cbn [iter_pos]; [by rewrite !IH|by rewrite !IH|done]. Qed.

Lemma iter_pos_succ {A} (f : A -> A) k x : iter_pos f (Pos.succ k) x = iter_pos f k (f x).
Proof.
  revert x. induction k as [k IH|k IH|]; intros x; cbn [iter_pos Pos.succ]; [|done|done].
  change (iter_pos f (Pos.succ k) (iter_pos f (Pos.succ k) x) = iter_pos f k (iter_pos f k (f (f x)))).
  by rewrite !IH, iter_pos_swap.
Qed.

(** Shifting out zero bits loses nothing. *)
Lemma shr_exact m p k : Z.pos p = Z.pos m * 2 ^ Z.pos k ->
  iter_pos shr_1 k (Build_shr_record (Z.pos p) false false) = Build_shr_record (Z.pos m) false false.
Proof.
  revert p. induction k as [|k IH] using Pos.peano_ind; intros p Hp.
  - cbn in *. destruct p; try lia. f_equal. lia.
  - rewrite iter_pos_succ. rewrite Pos2Z.inj_succ, Z.pow_succ_r in Hp by lia.
    destruct p as [p|p|]; [lia| |lia]. cbn. apply IH. lia.
Qed.

(** Rounding a product of a 53-bit significand and a power of two is exact. *)
Lemma round_exact m e : Z.pos (digits2_pos m) = 53 -> -1074 <= e <= 971 ->
  binary_round_aux 53 1024 false (Z.pos m) e loc_Exact = S754_finite false m e.
Proof.
  intros Hd He. unfold binary_round_aux, shr_fexp, fexp, emin. cbn [Zdigits2 shr_record_of_loc].
  rewrite Hd. replace (Z.max (53 + e - 53) (3 - 1024 - 53) - e) with 0 by lia. cbn [shr shr_m
    loc_of_shr_record round_nearest_even Zdigits2 shr_record_of_loc]. rewrite Hd.
  replace (Z.max (53 + e - 53) (3 - 1024 - 53) - e) with 0 by lia. cbn [shr shr_m].
  by rewrite (proj2 (Z.leb_le _ _)) by lia.
Qed.

Lemma f64_of_uint_exact n : 0 <= n < 2 ^ 53 -> represents_uint (f64_of_uint n) n.
Proof.
  intros Hn. unfold f64_of_uint. destruct n as [|p|p]; [done| |lia]. cbn [binary_normalize].
  unfold binary_round. pose proof (digits2_pos_spec p) as [Hl Hu].
  set (d := Z.pos (digits2_pos p)) in *. assert (0 < d) by done.
  assert (d - 1 < 53) by (apply (Z.pow_lt_mono_r_iff 2); lia).
  unfold fexp, emin. replace (Z.max (d + 0 - 53) (3 - 1024 - 53)) with (d - 53) by lia.
  unfold shl_align. replace (d - 53 - 0) with (d - 53) by lia.
  destruct (d - 53) as [|k|k] eqn:Hk; [|lia|].
  - rewrite round_exact by (unfold d in *; lia). cbn. unfold d in *. lia.
  - assert (Z.pos (digits2_pos (Pos.iter xO p k)) = 53) as Hd.
    { apply digits2_pos_unique; [lia|]. rewrite shift_left_spec.
      replace (53 - 1) with (d - 1 + Z.pos k) by lia. replace 53 with (d + Z.pos k) by lia.
      rewrite !Z.pow_add_r by lia. nia. }
    rewrite round_exact by lia. split_and!; [done|lia|lia|]. rewrite shift_left_spec. by f_equal.
Qed.

Lemma f64_mul_one x n : represents_uint x n -> f64_mul x f64_one = x.
Proof.
  unfold represents_uint, f64_mul, f64_one.
  destruct x as [[]|[]| |[] m e]; try done. intros (Hd & He & Hm). cbn [SFmul xorb].
  set (p := (m * 4503599627370496)%positive).
  assert (Z.pos p = Z.pos m * 2 ^ 52) as Hp by (unfold p; lia).
  assert (Z.pos (digits2_pos p) = 105) as Hdp.
  { apply digits2_pos_unique; [lia|]. rewrite Hp. pose proof (digits2_pos_spec m) as Hs.
    rewrite Hd in Hs. lia. }
  unfold binary_round_aux at 1. unfold shr_fexp at 1. cbn [Zdigits2 shr_record_of_loc].
  unfold fexp at 1, emin at 1. rewrite Hdp.
  replace (Z.max (105 + (e + -52) - 53) (3 - 1024 - 53) - (e + -52)) with 52 by lia.
  cbn [shr]. rewrite (shr_exact m p 52 Hp). cbn [shr_m loc_of_shr_record round_nearest_even].
  pose proof (round_exact m e Hd) as Hr. unfold binary_round_aux in Hr. unfold shr_fexp in *.
  cbn [Zdigits2 shr_record_of_loc] in *. rewrite Hd in *. unfold fexp, emin in *.
  replace (Z.max (53 + (e + -52 + 52) - 53) (3 - 1024 - 53) - (e + -52 + 52)) with 0 by lia.
  cbn [shr shr_m]. rewrite (proj2 (Z.leb_le _ _)) by lia. f_equal. lia.
Qed.

Lemma f64_ceil_exact x n : 0 <= n < 2 ^ 53 -> represents_uint x n -> f64_ceil_u64 x = n.
Proof.
  unfold represents_uint, f64_ceil_u64. destruct x as [[]|[]| |[] m e]; try done.
  intros Hn (_ & He & Hm).
  assert (uint_max 64 = 2 ^ 64 - 1) as -> by done.
  destruct (Z.leb_spec 0 e) as [H0|H0].
  - assert (e = 0) as -> by lia. cbn in *. lia.
  - rewrite Hm.
    replace (- (n * 2 ^ (- e))) with ((- n) * 2 ^ (- e)) by lia. rewrite Z.div_mul by lia. lia.
Qed.
