(* ===== verification/GraphWalk.v ===== *)
(** GraphWalk: the three graph traversals of the mempool over an arbitrary successor
    function (breadth-first search with a queue, depth-first search with an explicit stack,
    recursive post-order), with fuel, and what they compute. *)
From S2P Require Import Prelude.
From stdpp Require Import relations.

Section GraphWalk.
Context {N : Type} `{Countable N} (next : N -> list N).
Implicit Types (queue stack result : list N) (visited nodes : gset N).

(** A step of the graph. *)
Definition step_to (a b : N) : Prop := b ∈ next a.

(** ** Breadth-first search *)

(** [if visited.insert(next) { result.push(next); queue.push_back(next) }] *)
Definition discover (acc : gset N * list N) (n : N) : gset N * list N :=
  if bool_decide (n ∈ acc.1) then acc else ({[ n ]} ∪ acc.1, acc.2 ++ [n]).

(** The loop of [walk_hashes]. Every round takes a node off the queue, and a node enters it
    at most once after the start. *)
Fixpoint walk (fuel : nat) queue visited result : option (list N) :=
  match queue with
  | [] => Some result
  | current :: queue =>
      match fuel with
      | O => None
      | S fuel =>
          let '(visited, found) := foldl discover (visited, []) (next current) in
          walk fuel (queue ++ found) visited (result ++ found)
      end
  end.

Lemma discover_all visited l :
  let r := foldl discover (visited, []) l in
  r.1 = list_to_set r.2 ∪ visited /\ NoDup r.2 /\ (forall x, x ∈ r.2 <-> x ∈ l /\ x ∉ visited).
Proof.
  induction l as [|n l IH] using rev_ind; [cbn; split_and!; [set_solver|constructor|set_solver]|].
  rewrite foldl_app. cbn [foldl]. destruct (foldl discover (visited, []) l) as [v f].
  cbn zeta in *. destruct IH as (Hv & Hnd & Hf). cbn [fst snd] in *. unfold discover. cbn [fst snd].
  case_bool_decide as Hin.
  - split_and!; [done|done|]. intros x. rewrite Hf. set_solver.
  - split_and!; cbn [fst snd].
    + rewrite list_to_set_app_L. set_solver.
    + apply NoDup_app. split_and!; [done| |by apply NoDup_singleton]. set_solver.
    + intros x. rewrite elem_of_app, Hf, list_elem_of_singleton. set_solver.
Qed.

Record walk_inv (start : N) nodes queue visited result : Prop := {
  walk_visited : visited = list_to_set result;
  walk_nodup : NoDup result;
  walk_reach : forall x, x ∈ result -> tc step_to start x;
  walk_nodes : forall x, x ∈ result -> x ∈ nodes;
  walk_queue : forall x, x ∈ queue -> x = start \/ x ∈ result;
  walk_closed : forall x, x = start \/ x ∈ result -> x ∈ queue \/ forall y, y ∈ next x -> y ∈ result;
}.

Lemma list_within (l : list N) nodes : NoDup l -> (forall x, x ∈ l -> x ∈ nodes) -> (length l <= size nodes)%nat.
Proof.
  intros Hnd Hin. rewrite <-(size_list_to_set l (C := gset N)) by done. apply subseteq_size. set_solver.
Qed.

Lemma closed_reach start (l : list N) x :
  (forall a b, a = start \/ a ∈ l -> b ∈ next a -> b ∈ l) -> tc step_to start x -> x ∈ l.
Proof.
  intros Hcl. revert x. apply tc_ind_r.
  - intros y Hy. by apply (Hcl start y); [left|].
  - intros y z _ Hyz IH. by apply (Hcl y z); [right|].
Qed.

Lemma walk_step start nodes current queue visited result :
  (forall x y, x = start \/ x ∈ nodes -> y ∈ next x -> y ∈ nodes) ->
  walk_inv start nodes (current :: queue) visited result ->
  let r := foldl discover (visited, []) (next current) in
  walk_inv start nodes (queue ++ r.2) r.1 (result ++ r.2).
Proof.
  intros Hcl [Hv Hnd Hr Hn Hq Hc]. pose proof (discover_all visited (next current)) as Hd.
  cbn zeta in *. destruct (foldl discover _ _) as [v f]. cbn [fst snd] in *. destruct Hd as (Hv' & Hndf & Hf).
  assert (current = start \/ current ∈ result) as Hcur by (apply Hq; set_solver).
  assert (forall y, y ∈ next current -> tc step_to start y) as Hnext.
  { intros y Hy. destruct Hcur as [->|Hin]; [by apply tc_once|]. eapply tc_r; [by apply Hr|done]. }
  assert (forall y, y ∈ next current -> y ∈ result ++ f) as Hall.
  { intros y Hy. apply elem_of_app. destruct (decide (y ∈ visited)); [left; set_solver|right; by apply Hf]. }
  split.
  - rewrite list_to_set_app_L. set_solver.
  - apply NoDup_app. split_and!; [done| |done]. intros x Hx Hx'. apply Hf in Hx' as [_ Hx']. set_solver.
  - intros x [Hx|Hx]%elem_of_app; [by apply Hr|]. apply Hf in Hx as [Hx _]. by apply Hnext.
  - intros x [Hx|Hx]%elem_of_app; [by apply Hn|]. apply Hf in Hx as [Hx _].
    apply (Hcl current); [|done]. destruct Hcur; auto.
  - intros x [Hx|Hx]%elem_of_app; [|right; set_solver]. destruct (Hq x); [set_solver|by left|right; set_solver].
  - intros x Hx. destruct (decide (x = current)) as [->|Hne]; [by right|].
    assert (x = start \/ x ∈ result \/ x ∈ f) as [Hx'|[Hx'|Hx']] by set_solver.
    3: left; set_solver.
    all: destruct (Hc x) as [Hq'|Hq']; [auto|left; set_solver|right; set_solver].
Qed.

Lemma walk_loop start nodes fuel queue visited result :
  (forall x y, x = start \/ x ∈ nodes -> y ∈ next x -> y ∈ nodes) ->
  walk_inv start nodes queue visited result ->
  (size nodes - length result + length queue <= fuel)%nat ->
  exists r, walk fuel queue visited result = Some r /\ NoDup r /\ forall x, x ∈ r <-> tc step_to start x.
Proof.
  intros Hcl. revert queue visited result. induction fuel as [|fuel IH]; intros queue visited result HI Hf.
  all: destruct queue as [|current queue]; [|try (cbn in Hf; lia)].
  1, 2: exists result; split_and!; [done|apply HI|]; intros x; split; [apply HI|]; apply closed_reach;
    intros a b Ha Hb; destruct (walk_closed _ _ _ _ _ HI a Ha) as [Hq|Hq]; [set_solver|auto].
  cbn [walk]. pose proof (walk_step _ _ _ _ _ _ Hcl HI) as HI'. cbn zeta in HI'.
  destruct (foldl discover _ _) as [v f]. cbn [fst snd] in HI'. apply (IH _ _ _ HI').
  pose proof (list_within _ _ (walk_nodup _ _ _ _ _ HI') (walk_nodes _ _ _ _ _ HI')) as Hlen.
  rewrite !length_app in *. cbn [length] in Hf. lia.
Qed.

(** The walk from a node finds exactly the nodes at a distance of one step or more, each
    once, within one round per node and one for the start. *)
Lemma walk_spec start nodes :
  (forall x y, x ∈ nodes -> y ∈ next x -> y ∈ nodes) -> start ∈ nodes ->
  exists r, walk (S (size nodes)) [start] ∅ [] = Some r /\ NoDup r /\ forall x, x ∈ r <-> tc step_to start x.
Proof.
  intros Hcl Hs. apply (walk_loop start nodes).
  - intros x y [->|Hx]; by apply Hcl.
  - split; try set_solver. constructor.
  - cbn. lia.
Qed.

(** ** Depth-first search with an explicit stack *)

(** The loop of [gather_with_ancestors]. *)
Fixpoint gather (fuel : nat) stack visited result : option (list N) :=
  match stack with
  | [] => Some result
  | node :: stack =>
      match fuel with
      | O => None
      | S fuel =>
          if bool_decide (node ∈ visited) then gather fuel stack visited result
          else gather fuel (reverse (next node) ++ stack) ({[ node ]} ∪ visited) (result ++ [node])
      end
  end.

(** The pushes still to come: one per edge of a node that is not visited yet. *)
Definition pending nodes visited : nat :=
  sum_list_with (fun n => length (next n)) (elements (nodes ∖ visited)).

Lemma pending_visit nodes visited n : n ∈ nodes -> n ∉ visited ->
  pending nodes visited = (length (next n) + pending nodes ({[ n ]} ∪ visited))%nat.
Proof.
  intros Hn Hv. unfold pending.
  assert (elements (nodes ∖ visited) ≡ₚ n :: elements (nodes ∖ ({[ n ]} ∪ visited))) as Hp.
  { rewrite <-elements_union_singleton by set_solver. f_equiv.
    intros x. destruct (decide (x = n)); set_solver. }
  revert Hp. generalize (elements (nodes ∖ visited)), (elements (nodes ∖ ({[ n ]} ∪ visited))).
  intros l l' Hp. change (sum_list_with (fun n => length (next n)) l =
    sum_list_with (fun n => length (next n)) (n :: l')).
  clear -Hp. induction Hp; cbn in *; lia.
Qed.

Record gather_inv (start : N) stack visited result : Prop := {
  gather_visited : visited = list_to_set result;
  gather_nodup : NoDup result;
  gather_reach : forall x, x ∈ stack \/ x ∈ result -> rtc step_to start x;
  gather_closed : forall x y, x ∈ result -> y ∈ next x -> y ∈ stack \/ y ∈ result;
  gather_start : start ∈ stack \/ start ∈ result;
  gather_head : result = [] /\ stack = [start] \/ head result = Some start;
}.

Lemma gather_loop start nodes fuel stack visited result :
  (forall x y, x ∈ nodes -> y ∈ next x -> y ∈ nodes) -> (forall x, x ∈ stack -> x ∈ nodes) ->
  gather_inv start stack visited result -> (pending nodes visited + length stack <= fuel)%nat ->
  exists r, gather fuel stack visited result = Some r /\ NoDup r /\ head r = Some start /\
    forall x, x ∈ r <-> rtc step_to start x.
Proof.
  intros Hcl. revert stack visited result.
  induction fuel as [|fuel IH]; intros stack visited result Hst HI Hf.
  all: destruct stack as [|node stack]; [|try (cbn in Hf; lia)].
  1, 2: destruct HI as [Hv Hnd Hr Hc Hs Hh]; exists result; split_and!; [done|done| |];
    [destruct Hh as [[_ Hh]|Hh]; [done|exact Hh]|];
    intros x; split; [auto|]; revert x; apply rtc_ind_r; [set_solver|];
    intros y z _ Hyz IHy; destruct (Hc y z IHy Hyz); [set_solver|done].
  cbn [gather]. destruct HI as [Hv Hnd Hr Hc Hs Hh]. case_bool_decide as Hin.
  - apply IH; [set_solver| |cbn [length] in Hf; lia]. subst visited. apply elem_of_list_to_set in Hin.
    split; [done|done|set_solver| | |].
    + intros x y Hx Hy. destruct (Hc x y Hx Hy) as [Hy'|Hy']; set_solver.
    + set_solver.
    + destruct Hh as [[-> _]|Hh]; [set_solver|by right].
  - assert (rtc step_to start node) as Hnode by (apply Hr; set_solver).
    apply IH.
    + intros x [Hx|Hx]%elem_of_app; [rewrite elem_of_reverse in Hx|set_solver]. apply (Hcl node); [set_solver|done].
    + split.
      * rewrite list_to_set_app_L. set_solver.
      * apply NoDup_app. split_and!; [done| |apply NoDup_singleton]. set_solver.
      * intros x [Hx|Hx].
        -- apply elem_of_app in Hx as [Hx|Hx]; [rewrite elem_of_reverse in Hx; by eapply rtc_r|apply Hr; set_solver].
        -- apply elem_of_app in Hx as [Hx|Hx]; [apply Hr; set_solver|set_solver].
      * intros x y [Hx|Hx]%elem_of_app Hy.
        -- destruct (Hc x y Hx Hy) as [Hy'|Hy']; [|set_solver]. set_solver.
        -- apply list_elem_of_singleton in Hx as ->. left. apply elem_of_app. left. by rewrite elem_of_reverse.
      * destruct Hs as [Hs|Hs]; set_solver.
      * right. destruct Hh as [[-> [= -> ->]]|Hh]; [done|]. by rewrite head_app, Hh.
    + rewrite (pending_visit nodes visited node) in Hf by (done || set_solver).
      rewrite length_app, length_reverse. cbn [length] in Hf. lia.
Qed.

(** The stack search visits exactly the start and the nodes reachable from it, each once,
    the start first. *)
Lemma gather_spec start nodes fuel :
  (forall x y, x ∈ nodes -> y ∈ next x -> y ∈ nodes) -> start ∈ nodes ->
  (S (pending nodes ∅) <= fuel)%nat ->
  exists r, gather fuel [start] ∅ [] = Some r /\ NoDup r /\ head r = Some start /\
    forall x, x ∈ r <-> rtc step_to start x.
Proof.
  intros Hcl Hs Hf. apply (gather_loop start nodes); [done|set_solver| |cbn; lia].
  split; [done|constructor| |set_solver|set_solver|by left]. intros x [Hx|Hx]; [|set_solver].
  apply list_elem_of_singleton in Hx as ->. done.
Qed.

(** ** Recursive post-order *)

(** [dfs_topo] *)
Fixpoint dfs (fuel : nat) (node : N) (acc : gset N * list N) : option (gset N * list N) :=
  match fuel with
  | O => None
  | S fuel =>
      acc ← foldl (fun acc target =>
              acc ← acc;
              if bool_decide (target ∈ acc.1) then Some acc else dfs fuel target acc)
            (Some ({[ node ]} ∪ acc.1, acc.2)) (next node);
      Some (acc.1, acc.2 ++ [node])
  end.

(** The loop over all nodes of [topological_order]. *)
Definition dfs_all (fuel : nat) (l : list N) (acc : gset N * list N) : option (gset N * list N) :=
  foldl (fun acc node =>
    acc ← acc;
    if bool_decide (node ∈ acc.1) then Some acc else dfs fuel node acc) (Some acc) l.

Lemma dfs_eq fuel node acc :
  dfs (S fuel) node acc =
    (acc ← dfs_all fuel (next node) ({[ node ]} ∪ acc.1, acc.2); Some (acc.1, acc.2 ++ [node])).
Proof. done. Qed.

Lemma dfs_all_cons fuel n l acc :
  dfs_all fuel (n :: l) acc =
    (acc ← (if bool_decide (n ∈ acc.1) then Some acc else dfs fuel n acc); dfs_all fuel l acc).
Proof.
  unfold dfs_all. cbn [foldl mbind option_bind]. destruct (if bool_decide _ then _ else _) as [a|]; [done|].
  cbn [mbind option_bind]. induction l as [|x l IH]; [done|]. exact IH.
Qed.

(** Every entry comes after all its successors. *)
Definition post_ordered (l : list N) : Prop :=
  forall l1 x l2 y, l = l1 ++ x :: l2 -> y ∈ next x -> y ∈ l1.

Lemma post_ordered_snoc l x :
  post_ordered l -> (forall y, y ∈ next x -> y ∈ l) -> post_ordered (l ++ [x]).
Proof.
  intros Hl Hx l1 z l2 y Heq Hy. destruct l2 as [|z2 l2 _] using rev_ind.
  - apply app_inj_2 in Heq as [-> [= ->]]; [|done]. by apply Hx.
  - rewrite app_comm_cons, app_assoc in Heq. apply app_inj_2 in Heq as [-> _]; [|done]. by eapply Hl.
Qed.

Record dfs_inv nodes visited stack : Prop := {
  dfs_stack : forall x, x ∈ stack -> x ∈ visited;
  dfs_nodes : visited ⊆ nodes;
  dfs_nodup : NoDup stack;
  dfs_ordered : post_ordered stack;
}.

(** The nodes on the current recursion path. *)
Definition open_nodes visited stack : gset N := visited ∖ list_to_set stack.

Record dfs_post nodes visited stack (done_nodes : list N) visited' stack' : Prop := {
  post_inv : dfs_inv nodes visited' stack';
  post_visited : visited ⊆ visited';
  post_open : open_nodes visited' stack' = open_nodes visited stack;
  post_stack : forall x, x ∈ stack -> x ∈ stack';
  post_done : forall x, x ∈ done_nodes -> x ∈ stack';
}.

Context (rank : N -> nat) (Hrank : forall x y, y ∈ next x -> (rank x < rank y)%nat).

Definition dfs_total nodes (fuel : nat) : Prop :=
  forall n visited stack,
    dfs_inv nodes visited stack -> n ∈ nodes -> n ∉ visited ->
    (forall g, g ∈ open_nodes visited stack -> (rank g < rank n)%nat) ->
    (size (nodes ∖ visited) <= fuel)%nat ->
    exists v s, dfs fuel n (visited, stack) = Some (v, s) /\ dfs_post nodes visited stack [n] v s.

Lemma dfs_all_total nodes fuel l visited stack :
  dfs_total nodes fuel -> dfs_inv nodes visited stack -> (forall n, n ∈ l -> n ∈ nodes) ->
  (forall g n, g ∈ open_nodes visited stack -> n ∈ l -> (rank g < rank n)%nat) ->
  (size (nodes ∖ visited) <= fuel)%nat ->
  exists v s, dfs_all fuel l (visited, stack) = Some (v, s) /\ dfs_post nodes visited stack l v s.
Proof.
  intros Hdfs. revert visited stack. induction l as [|n l IH]; intros visited stack HI Hl Hopen Hf.
  { exists visited, stack. split; [done|]. split; [done|done|done|done|set_solver]. }
  rewrite dfs_all_cons. cbn [fst]. case_bool_decide as Hn.
  - cbn [mbind option_bind]. destruct (IH visited stack HI) as (v & s & -> & [Hi Hv Ho Hs Hd]); [set_solver|set_solver|done|].
    exists v, s. split; [done|]. split; [done|done|done|done|]. intros x [->|Hx]%elem_of_cons; [|auto].
    apply Hs. destruct (decide (n ∈ stack)) as [|Hns]; [done|]. exfalso.
    assert (rank n < rank n)%nat; [|lia]. apply Hopen; [|set_solver]. unfold open_nodes. set_solver.
  - destruct (Hdfs n visited stack) as (v & s & -> & [Hi Hv Ho Hs Hd]); [done|set_solver|done|set_solver|done|].
    cbn [mbind option_bind]. destruct (IH v s Hi) as (v' & s' & -> & [Hi' Hv' Ho' Hs' Hd']).
    + set_solver.
    + intros g x Hg Hx. rewrite Ho in Hg. apply Hopen; [done|set_solver].
    + etrans; [|exact Hf]. apply subseteq_size. set_solver.
    + exists v', s'. split; [done|]. split; [done|set_solver|congruence|auto|].
      intros x [->|Hx]%elem_of_cons; [|auto]. apply Hs', Hd. set_solver.
Qed.

Lemma dfs_spec nodes fuel :
  (forall x y, x ∈ nodes -> y ∈ next x -> y ∈ nodes) -> dfs_total nodes fuel.
Proof.
  intros Hcl. induction fuel as [|fuel IH]; intros n visited stack HI Hn Hnv Hopen Hf.
  { apply Nat.le_0_r, size_empty_inv in Hf. set_solver. }
  rewrite dfs_eq. cbn [fst snd]. destruct HI as [Hst Hvn Hnd Hord].
  assert (n ∉ stack) as Hns by (intros Hin; by apply Hnv, Hst).
  destruct (dfs_all_total nodes fuel (next n) ({[ n ]} ∪ visited) stack) as (v & s & -> & [Hi Hv Ho Hs Hd]).
  - done.
  - split; [set_solver|set_solver|done|done].
  - intros x Hx. by apply (Hcl n).
  - intros g x Hg Hx. specialize (Hrank n x Hx). unfold open_nodes in *.
    assert (g = n \/ g ∈ visited ∖ list_to_set stack) as [->|Hg'] by set_solver; [done|].
    specialize (Hopen g Hg'). lia.
  - assert (nodes ∖ visited = {[ n ]} ∪ nodes ∖ ({[ n ]} ∪ visited)) as Heq.
    { apply set_eq. intros x. destruct (decide (x = n)); set_solver. }
    rewrite Heq, size_union, size_singleton in Hf by set_solver. lia.
  - cbn [mbind option_bind fst snd]. destruct Hi as [Hi1 Hi2 Hi3 Hi4].
    assert (n ∉ s) as Hnn.
    { intros Hin. assert (n ∈ open_nodes v s) as Hx; [|unfold open_nodes in Hx; set_solver].
      rewrite Ho. unfold open_nodes. set_solver. }
    exists v, (s ++ [n]). split; [done|]. split.
    + split.
      * intros x [Hx|Hx]%elem_of_app; [by apply Hi1|set_solver].
      * done.
      * apply NoDup_app. split_and!; [done|set_solver|apply NoDup_singleton].
      * by apply post_ordered_snoc.
    + set_solver.
    + unfold open_nodes in *. rewrite list_to_set_app_L. cbn [list_to_set].
      apply set_eq. intros x. assert (x ∈ v ∖ list_to_set s <-> x ∈ ({[ n ]} ∪ visited) ∖ list_to_set stack) as Hx
        by (by rewrite Ho). destruct (decide (x = n)) as [->|Hxn]; set_solver.
    + intros x Hx. set_solver.
    + set_solver.
Qed.

(** On an acyclic graph the traversal of all nodes pushes every node once, after all its
    successors; the recursion depth is at most the number of nodes. *)
Lemma dfs_all_spec nodes (l : list N) :
  (forall x y, x ∈ nodes -> y ∈ next x -> y ∈ nodes) -> (forall x, x ∈ l <-> x ∈ nodes) ->
  exists v s, dfs_all (size nodes) l (∅, []) = Some (v, s) /\
    NoDup s /\ (forall x, x ∈ s <-> x ∈ nodes) /\ post_ordered s.
Proof.
  intros Hcl Hl. destruct (dfs_all_total nodes (size nodes) l ∅ []) as (v & s & Hs & [[Hi1 Hi2 Hi3 Hi4] _ _ _ Hd]).
  - by apply dfs_spec.
  - split; [set_solver|set_solver|constructor|]. intros l1 x l2 y Heq. by destruct l1.
  - intros n. apply Hl.
  - unfold open_nodes. set_solver.
  - apply subseteq_size. set_solver.
  - exists v, s. split; [done|]. split_and!; [done| |done]. intros x. rewrite <-Hl. split; [|auto].
    intros Hx. apply Hl, Hi2, Hi1, Hx.
Qed.
End GraphWalk.
