(* ===== verification/MempoolGraph.v ===== *)
(** MempoolGraph: the dependency tracker of the mempool ([mempool/dependencies.rs]) over
    petgraph, and the relation between transaction hashes that it maintains. *)
From S2P Require Import Prelude Bytes Types Externals Petgraph GraphWalk.
From stdpp Require Import relations.

Record DependencyTracker `{PetGraphEdit TransactionHash} := mk_DependencyTracker {
  dep_graph : DiGraph TransactionHash;
  dep_indices : gmap TransactionHash (NodeIndex TransactionHash);
}.

Section Tracker.
Context `{G : PetGraphEdit TransactionHash}.
Implicit Types (d : DependencyTracker) (hash : TransactionHash) (idx : NodeIndex TransactionHash).

Definition DependencyTracker_default : DependencyTracker := mk_DependencyTracker _ _ graph_new ∅.

(** [clear] *)
Definition tracker_clear d : DependencyTracker := mk_DependencyTracker _ _ graph_new ∅.

(** [add_transaction] *)
Definition tracker_add d (child_hash : TransactionHash) (parent_hashes : list TransactionHash) :
    DependencyTracker :=
  let '(child_idx, graph) := add_node (dep_graph d) child_hash in
  let indices := <[child_hash := child_idx]> (dep_indices d) in
  mk_DependencyTracker _ _
    (foldl (fun graph parent_hash =>
       match indices !! parent_hash with
       | Some parent_idx => add_edge graph parent_idx child_idx
       | None => graph
       end) graph parent_hashes) indices.

(** [rebuild_indices] *)
Definition rebuild_indices (graph : DiGraph TransactionHash) :
    gmap TransactionHash (NodeIndex TransactionHash) :=
  foldl (fun indices idx =>
    match node_weight graph idx with
    | Some hash => <[hash := idx]> indices
    | None => indices
    end) ∅ (graph_node_indices graph).

(** [remove_transaction] *)
Definition tracker_remove d hash : DependencyTracker :=
  match dep_indices d !! hash with
  | None => d
  | Some idx =>
      let graph := remove_node (dep_graph d) idx in
      mk_DependencyTracker _ _ graph (rebuild_indices graph)
  end.

(** [walk_hashes(tx_hash, Direction::Outgoing)], which is [get_descendants]. The hashes of
    the nodes found are looked up at the end; a walk takes a round per node and one for the
    start ([walk_spec]), so the fuel does not run out. *)
Definition get_descendants d hash : list TransactionHash :=
  match dep_indices d !! hash with
  | None => []
  | Some start_idx =>
      omap (node_weight (dep_graph d))
        (default [] (walk (outgoing_targets (dep_graph d))
           (S (length (graph_node_indices (dep_graph d)))) [start_idx] ∅ []))
  end.

(** The number of edges of the graph. *)
Definition edge_count (graph : DiGraph TransactionHash) : nat :=
  sum_list_with (fun n => length (incoming_sources graph n)) (graph_node_indices graph).

(** [gather_with_ancestors]: a node enters the stack once per edge, and the start once more
    ([gather_spec]). *)
Definition gather_with_ancestors (graph : DiGraph TransactionHash) idx : list (NodeIndex TransactionHash) :=
  reverse (default [] (gather (incoming_sources graph) (S (edge_count graph)) [idx] ∅ [])).

(** [get_with_ancestors] *)
Definition get_with_ancestors d hash : list TransactionHash :=
  match dep_indices d !! hash with
  | None => []
  | Some start => omap (node_weight (dep_graph d)) (gather_with_ancestors (dep_graph d) start)
  end.

(** [topological_order]: the recursion of [dfs_topo] is no deeper than the number of nodes
    ([dfs_all_spec]). *)
Definition topological_order d : list TransactionHash :=
  let stack := default [] (snd <$> dfs_all (outgoing_targets (dep_graph d))
                 (length (graph_node_indices (dep_graph d))) (graph_node_indices (dep_graph d)) (∅, [])) in
  omap (node_weight (dep_graph d)) (reverse stack).

(** * What the tracker represents

    A set of hashes and a parent-to-child relation between them. *)

Record tracks d (hashes : gset TransactionHash) (R : TransactionHash -> TransactionHash -> Prop) : Prop := {
  tracks_index : forall h i, dep_indices d !! h = Some i <->
    i ∈ graph_node_indices (dep_graph d) /\ node_weight (dep_graph d) i = Some h;
  tracks_weight : forall i, i ∈ graph_node_indices (dep_graph d) -> is_Some (node_weight (dep_graph d) i);
  tracks_hashes : forall h, h ∈ hashes <-> is_Some (dep_indices d !! h);
  tracks_edge : forall p c i j, dep_indices d !! p = Some i -> dep_indices d !! c = Some j ->
    i ∈ incoming_sources (dep_graph d) j <-> R p c;
  tracks_ends : forall p c, R p c -> p ∈ hashes /\ c ∈ hashes;
}.

Context `{!PetGraphLaws TransactionHash} `{!PetGraphEditLaws TransactionHash}.

Lemma tracks_default : tracks DependencyTracker_default ∅ (fun _ _ => False).
Proof.
  split; cbn; rewrite ?indices_new.
  - intros h i. rewrite lookup_empty. set_solver.
  - set_solver.
  - intros h. rewrite lookup_empty. split; [set_solver|]. by intros [].
  - intros p c i j. by rewrite lookup_empty.
  - done.
Qed.

(** The loop over the parents of a new node. *)
Lemma add_parents_spec graph (indices : gmap TransactionHash (NodeIndex TransactionHash)) child parents :
  child ∈ graph_node_indices graph ->
  (forall h i, indices !! h = Some i -> i ∈ graph_node_indices graph) ->
  let g' := foldl (fun graph parent_hash =>
       match indices !! parent_hash with
       | Some parent_idx => add_edge graph parent_idx child
       | None => graph
       end) graph parents in
  graph_node_indices g' = graph_node_indices graph /\
  (forall n, node_weight g' n = node_weight graph n) /\
  (forall n s, s ∈ incoming_sources g' n <->
     s ∈ incoming_sources graph n \/ n = child /\ exists p, p ∈ parents /\ indices !! p = Some s).
Proof.
  intros Hc Hi. induction parents as [|p ps IH] using rev_ind.
  { cbn. split_and!; [done|done|]. intros n s. split; [by left|]. intros [|(_ & p & Hp & _)]; set_solver. }
  rewrite foldl_app. cbn [foldl]. cbn zeta in IH. revert IH. generalize (foldl (fun graph parent_hash =>
    match indices !! parent_hash with Some i => add_edge graph i child | None => graph end) graph ps).
  intros g (Hn & Hw & He). cbn zeta. destruct (indices !! p) as [i|] eqn:Hp.
  - split_and!.
    + by rewrite indices_add_edge.
    + intros n. by rewrite weight_add_edge.
    + intros n s. rewrite incoming_add_edge by (rewrite Hn; eauto). rewrite He. split.
      * intros [[Hs|(-> & q & Hq & Hqs)]|[-> ->]]; [by left| |]; right; (split; [done|]).
        -- exists q. set_solver.
        -- exists p. set_solver.
      * intros [Hs|(-> & q & Hq & Hqs)]; [by left; left|]. apply elem_of_app in Hq as [Hq|Hq].
        -- left. right. split; [done|]. by exists q.
        -- apply list_elem_of_singleton in Hq as ->. right. by simplify_eq.
  - split_and!; [done|done|]. intros n s. rewrite He. split.
    + intros [Hs|(-> & q & Hq & Hqs)]; [by left|]. right. split; [done|]. exists q. set_solver.
    + intros [Hs|(-> & q & Hq & Hqs)]; [by left|]. right. split; [done|]. exists q. split; [|done].
      apply elem_of_app in Hq as [Hq|Hq]; [done|]. apply list_elem_of_singleton in Hq as ->. congruence.
Qed.

Lemma tracks_add d hashes R child parents :
  tracks d hashes R -> child ∉ hashes ->
  tracks (tracker_add d child parents) ({[ child ]} ∪ hashes)
    (fun p c => R p c \/ c = child /\ p ∈ parents /\ p ∈ {[ child ]} ∪ hashes).
Proof.
  intros HT Hfresh. destruct d as [g ix]. destruct HT as [Hix Hw Hh He Hends]. cbn [dep_graph dep_indices] in *.
  unfold tracker_add. cbn [dep_graph dep_indices].
  pose proof (indices_add_node g child) as [Hnew Hidx]. pose proof (weight_add_node g child) as Hwn.
  pose proof (incoming_add_node g child) as Hinn. pose proof (weight_add_node_other g child) as Hwo.
  pose proof (incoming_add_node_other g child) as Hino.
  destruct (add_node g child) as [ci g']. cbn [fst snd] in *.
  assert (ix !! child = None) as Hnone by (apply eq_None_not_Some; by rewrite <-Hh).
  assert (forall h i, <[child:=ci]> ix !! h = Some i -> i ∈ graph_node_indices g') as Hnodes.
  { intros h i. rewrite lookup_insert_Some, Hidx. intros [[_ <-]|[_ Hl]]; [set_solver|]. apply Hix in Hl as [Hl _].
    set_solver. }
  destruct (add_parents_spec g' (<[child:=ci]> ix) ci parents) as (Hn & Hw2 & He2); [rewrite Hidx; set_solver|done|].
  match goal with |- tracks (mk_DependencyTracker _ _ ?f _) _ _ => set (g2 := f) in * end.
  assert (forall h i, <[child:=ci]> ix !! h = Some i <-> i ∈ graph_node_indices g2 /\ node_weight g2 i = Some h) as Hix2.
  { intros h i. rewrite Hn, Hw2, Hidx, elem_of_app, list_elem_of_singleton, lookup_insert_Some, Hix. split.
    - intros [[<- <-]|[Hne [Hi Hwi]]]; [auto|]. rewrite Hwo by done. auto.
    - intros [[Hi| ->] Hwi].
      + rewrite Hwo in Hwi by done. right. split; [|done]. intros <-. assert (ix !! child = Some i) by (by apply Hix).
        congruence.
      + rewrite Hwn in Hwi. left. by simplify_eq. }
  assert (forall j s, s ∈ incoming_sources g' j -> j ∈ graph_node_indices g' -> j ∈ graph_node_indices g /\ s ∈ incoming_sources g j)
    as Hold.
  { intros j s Hs Hj. rewrite Hidx in Hj. apply elem_of_app in Hj as [Hj|Hj].
    - by rewrite Hino in Hs by done.
    - apply list_elem_of_singleton in Hj as ->. rewrite Hinn in Hs. set_solver. }
  split; cbn [dep_graph dep_indices].
  - exact Hix2.
  - intros i. rewrite Hn, Hw2, Hidx, elem_of_app, list_elem_of_singleton. intros [Hi| ->]; [|by rewrite Hwn].
    rewrite Hwo by done. by apply Hw.
  - intros h. rewrite elem_of_union, elem_of_singleton, Hh. destruct (decide (h = child)) as [->|Hne].
    + rewrite lookup_insert_eq. split; [done|by left].
    + rewrite lookup_insert_ne by done. split; [by intros [|]|auto].
  - intros p c i j Hp Hc. rewrite He2. apply lookup_insert_Some in Hc as [[<- <-]|[Hne Hc]].
    + rewrite Hinn. split.
      * intros [Hs|(_ & q & Hq & Hqs)]; [set_solver|]. right. split; [done|].
        assert (q = p) as ->; [|split; [done|]; apply elem_of_union; rewrite elem_of_singleton, Hh].
        { apply Hix2 in Hqs as [_ Hqs]. apply Hix2 in Hp as [_ Hp]. congruence. }
        apply lookup_insert_Some in Hp as [[-> _]|[_ Hp]]; [by left|right; by eexists].
      * intros [HR|(_ & Hp' & _)]; [apply Hends in HR as [_ HR]; done|]. right. split; [done|]. by exists p.
    + assert (j ∈ graph_node_indices g) as Hj by (by apply Hix in Hc as [Hc _]).
      assert (j <> ci) as Hjc by (intros ->; done).
      rewrite Hino by done. split.
      * intros [Hs|[-> _]]; [|done]. left. apply lookup_insert_Some in Hp as [[-> <-]|[_ Hp]].
        { exfalso. apply Hnew. by apply (incoming_ends g j). }
        by apply (He p c i j).
      * intros [HR|[-> _]]; [|done]. left. apply lookup_insert_Some in Hp as [[<- _]|[_ Hp]].
        { apply Hends in HR as [HR _]. done. }
        by apply (He p c i j).
  - intros p c [HR|(-> & _ & Hp)]; [apply Hends in HR; set_solver|set_solver].
Qed.

Lemma rebuild_indices_spec g h i :
  (forall i j h, i ∈ graph_node_indices g -> j ∈ graph_node_indices g ->
     node_weight g i = Some h -> node_weight g j = Some h -> i = j) ->
  rebuild_indices g !! h = Some i <-> i ∈ graph_node_indices g /\ node_weight g i = Some h.
Proof.
  unfold rebuild_indices. generalize (graph_node_indices g). intros l. revert h i.
  induction l as [|n l IH] using rev_ind; intros h i Hinj.
  { cbn. rewrite lookup_empty. set_solver. }
  rewrite foldl_app. cbn [foldl].
  assert (forall i j h, i ∈ l -> j ∈ l -> node_weight g i = Some h -> node_weight g j = Some h -> i = j) as Hinj'.
  { intros x y h0 Hx Hy. apply (Hinj x y h0); set_solver. }
  rewrite elem_of_app, list_elem_of_singleton. destruct (node_weight g n) as [hn|] eqn:Hn.
  - rewrite lookup_insert_Some, (IH _ _ Hinj'). split; [naive_solver|]. intros [[Hi| ->] Hw].
    + destruct (decide (hn = h)) as [->|Hne]; [|naive_solver]. left. split; [done|].
      apply (Hinj n i h); set_solver.
    + naive_solver.
  - rewrite (IH _ _ Hinj'). naive_solver.
Qed.

Lemma tracks_inj d hashes R i j h :
  tracks d hashes R -> i ∈ graph_node_indices (dep_graph d) -> j ∈ graph_node_indices (dep_graph d) ->
  node_weight (dep_graph d) i = Some h -> node_weight (dep_graph d) j = Some h -> i = j.
Proof.
  intros HT Hi Hj Hwi Hwj.
  assert (dep_indices d !! h = Some i) by (by apply (tracks_index _ _ _ HT)).
  assert (dep_indices d !! h = Some j) by (by apply (tracks_index _ _ _ HT)). congruence.
Qed.

(** How removing node [a] renames the others. *)
Lemma moved_spec (l : list (NodeIndex TransactionHash)) last a :
  NoDup (l ++ [last]) -> a ∈ l ++ [last] ->
  (forall x, x ∈ l <-> exists n, n ∈ l ++ [last] /\ n <> a /\ x = moved last a n) /\
  (forall n m, n ∈ l ++ [last] -> m ∈ l ++ [last] -> n <> a -> m <> a ->
     moved last a n = moved last a m -> n = m).
Proof.
  intros Hnd Ha. apply NoDup_app in Hnd as (Hnd & Hl & _). unfold moved. split.
  - intros x. split.
    + intros Hx. destruct (decide (x = a)) as [->|Hxa].
      * exists last. rewrite decide_True by done. split_and!; [set_solver| |done]. intros ->. set_solver.
      * exists x. rewrite decide_False by (intros ->; set_solver). set_solver.
    + intros (n & Hn & Hna & ->). case_decide as Hnl; [subst n|]; set_solver.
  - intros n m Hn Hm Hna Hma. repeat case_decide; subst; [done| | |done]; set_solver.
Qed.

Lemma tracks_remove d hashes R hash :
  tracks d hashes R ->
  tracks (tracker_remove d hash) (hashes ∖ {[ hash ]}) (fun p c => R p c /\ p <> hash /\ c <> hash).
Proof.
  intros HT. pose proof (tracks_inj d hashes R) as Hinj. destruct d as [g ix].
  pose proof HT as [Hix Hw Hh He Hends].
  unfold tracker_remove. cbn [dep_graph dep_indices] in *.
  destruct (ix !! hash) as [a|] eqn:Ha.
  2:{ assert (hash ∉ hashes) as Hn by (rewrite Hh, Ha; by intros []). split; cbn [dep_graph dep_indices]; try done.
      - intros h. rewrite <-Hh. set_solver.
      - intros p c i j Hp Hc. rewrite (He p c i j Hp Hc). split; [|by intros [? _]]. intros HR. split; [done|].
        apply Hends in HR. set_solver.
      - intros p c (HR & _ & _). apply Hends in HR. set_solver. }
  pose proof (proj1 (Hix hash a) Ha) as [Han Haw].
  destruct (remove_node_moves g a Han) as (l & last & Hl & Hl' & Hwm & Hem).
  pose proof (indices_nodup g) as Hnd. rewrite Hl in Hnd, Han.
  destruct (moved_spec l last a Hnd Han) as [Hmv Hmi]. rewrite <-Hl in Hmv, Hmi, Han.
  assert (forall h n, ix !! h = Some n -> n = a <-> h = hash) as Hna.
  { intros h n Hn. split; [|intros ->; congruence]. intros ->. apply Hix in Hn as [_ Hn]. congruence. }
  assert (forall h x, rebuild_indices (remove_node g a) !! h = Some x <->
            exists n, ix !! h = Some n /\ h <> hash /\ x = moved last a n) as Hix2.
  { intros h x. rewrite rebuild_indices_spec; rewrite Hl'.
    - split.
      + intros [Hx Hwx]. apply Hmv in Hx as (n & Hn & Hne & ->). rewrite Hwm in Hwx by done.
        assert (ix !! h = Some n) as Hhn by (by apply Hix). exists n. split; [done|]. split; [|done].
        by rewrite <-(Hna h n Hhn).
      + intros (n & Hn & Hne & ->). assert (n <> a) as Hne' by (by rewrite (Hna h n Hn)).
        apply Hix in Hn as [Hn Hwn]. split; [apply Hmv; by exists n|]. by rewrite Hwm.
    - intros i j h' Hi Hj. apply Hmv in Hi as (n & Hn & Hne & ->), Hj as (m & Hm & Hme & ->).
      rewrite !Hwm by done. intros H1 H2. f_equal. by apply (Hinj n m h' HT). }
  split; cbn [dep_graph dep_indices].
  - intros h x. rewrite Hix2, Hl'. split.
    + intros (n & Hn & Hne & ->). assert (n <> a) as Hne' by (by rewrite (Hna h n Hn)).
      apply Hix in Hn as [Hn Hwn]. split; [apply Hmv; by exists n|]. by rewrite Hwm.
    + intros [Hx Hwx]. apply Hmv in Hx as (n & Hn & Hne & ->). rewrite Hwm in Hwx by done.
      assert (ix !! h = Some n) as Hhn by (by apply Hix). exists n. split; [done|]. split; [|done].
      by rewrite <-(Hna h n Hhn).
  - intros x. rewrite Hl'. intros Hx. apply Hmv in Hx as (n & Hn & Hne & ->). rewrite Hwm by done. by apply Hw.
  - intros h. rewrite elem_of_difference, elem_of_singleton, Hh. split.
    + intros [[n Hn] Hne]. exists (moved last a n). apply Hix2. by exists n.
    + intros [x Hx]. apply Hix2 in Hx as (n & Hn & Hne & _). split; [by exists n|done].
  - intros p c i j Hp Hc. apply Hix2 in Hp as (n & Hn & Hpn & ->), Hc as (m & Hm & Hcm & ->).
    assert (n <> a) as Hne by (by rewrite (Hna p n Hn)). assert (m <> a) as Hme by (by rewrite (Hna c m Hm)).
    pose proof (proj1 (proj1 (Hix c m) Hm)) as Hmn. pose proof (proj1 (proj1 (Hix p n) Hn)) as Hnn.
    rewrite Hem by done. rewrite <-(He p c n m Hn Hm). split.
    + intros (k & Hk & Hka & Heq). apply Hmi in Heq; [by subst k| |by apply (incoming_ends g m)|done|done]. done.
    + intros [Hk _]. by exists n.
  - intros p c (HR & Hp & Hc). apply Hends in HR. set_solver.
Qed.

(** ** Walks *)

(** [x] stands before [y] in the list. *)
Definition before {A} (l : list A) (x y : A) : Prop := exists a b c, l = a ++ x :: b ++ y :: c.

Section Walks.
Context (d : DependencyTracker) (hashes : gset TransactionHash) (R : TransactionHash -> TransactionHash -> Prop).
Context (HT : tracks d hashes R).
Local Abbreviation g := (dep_graph d).
Local Abbreviation ix := (dep_indices d).

Lemma outgoing_closed x y : y ∈ outgoing_targets g x ->
  x ∈ graph_node_indices g /\ y ∈ graph_node_indices g.
Proof. rewrite outgoing_incoming. intros Hx. apply incoming_ends in Hx. tauto. Qed.

Lemma node_of i : i ∈ graph_node_indices g -> exists h, ix !! h = Some i.
Proof.
  intros Hi. destruct (tracks_weight _ _ _ HT i Hi) as [h Hh]. exists h. by apply (tracks_index _ _ _ HT).
Qed.

Lemma step_hashes p i j : ix !! p = Some i ->
  step_to (outgoing_targets g) i j <-> exists c, ix !! c = Some j /\ R p c.
Proof.
  intros Hp. unfold step_to. split.
  - intros Hj. destruct (node_of j) as [c Hc]; [by apply (outgoing_closed i)|]. exists c. split; [done|].
    rewrite outgoing_incoming in Hj. by apply (tracks_edge _ _ _ HT p c i j).
  - intros (c & Hc & HR). rewrite outgoing_incoming. by apply (tracks_edge _ _ _ HT p c i j).
Qed.

Lemma step_back_hashes c i j : ix !! c = Some i ->
  step_to (incoming_sources g) i j <-> exists p, ix !! p = Some j /\ R p c.
Proof.
  intros Hc. unfold step_to. split.
  - intros Hj. destruct (node_of j) as [p Hp]; [by apply (incoming_ends g i)|]. exists p. split; [done|].
    by apply (tracks_edge _ _ _ HT p c j i).
  - intros (p & Hp & HR). by apply (tracks_edge _ _ _ HT p c j i).
Qed.

Lemma reach_hashes p i j : ix !! p = Some i ->
  tc (step_to (outgoing_targets g)) i j <-> exists c, ix !! c = Some j /\ tc R p c.
Proof.
  intros Hp. split.
  - revert j. apply tc_ind_r.
    + intros j Hj. apply (step_hashes p) in Hj as (c & Hc & HR); [|done]. exists c. split; [done|]. by apply tc_once.
    + intros j k _ Hjk (c & Hc & HR). destruct (proj1 (step_hashes c j k Hc) Hjk) as (c' & Hc' & HR').
      exists c'. split; [done|]. by eapply tc_r.
  - intros (c & Hc & HR). revert c HR j Hc.
    refine (tc_ind_r (fun c => forall j, ix !! c = Some j -> tc (step_to (outgoing_targets g)) i j) p _ _).
    + intros c HR j Hc. apply tc_once. apply (step_hashes p); [done|]. by exists c.
    + intros c c' _ HR IH j Hc'. destruct (tracks_ends _ _ _ HT c c' HR) as [Hin _].
      apply (tracks_hashes _ _ _ HT) in Hin as [k Hk]. eapply tc_r; [by apply IH|].
      apply (step_hashes c); [done|]. by exists c'.
Qed.

Lemma reach_back_hashes c i j : ix !! c = Some i ->
  rtc (step_to (incoming_sources g)) i j <-> exists p, ix !! p = Some j /\ rtc R p c.
Proof.
  intros Hc. split.
  - revert j. apply rtc_ind_r; [by exists c|].
    intros j k _ Hjk (p & Hp & HR). destruct (proj1 (step_back_hashes p j k Hp) Hjk) as (p' & Hp' & HR').
    exists p'. split; [done|]. by eapply rtc_l.
  - intros (p & Hp & HR). revert p HR j Hp.
    refine (rtc_ind_l (fun p => forall j, ix !! p = Some j -> rtc (step_to (incoming_sources g)) i j) c _ _).
    + intros j Hj. assert (i = j) as -> by congruence. done.
    + intros p q Hpq _ IH j Hj. destruct (tracks_ends _ _ _ HT p q Hpq) as [_ Hin].
      apply (tracks_hashes _ _ _ HT) in Hin as [k Hk]. eapply rtc_r; [by apply IH|].
      apply (step_back_hashes q); [done|]. by exists p.
Qed.

(** Looking up the hashes of a list of distinct nodes. *)
Lemma weights_spec l : NoDup l -> (forall i, i ∈ l -> i ∈ graph_node_indices g) ->
  NoDup (omap (node_weight g) l) /\
  (forall h, h ∈ omap (node_weight g) l <-> exists i, i ∈ l /\ ix !! h = Some i).
Proof.
  intros Hnd Hl.
  assert (forall h, h ∈ omap (node_weight g) l <-> exists i, i ∈ l /\ ix !! h = Some i) as Hin.
  { intros h. rewrite list_elem_of_omap. apply exist_proper. intros i. split; intros [Hi Hw]; (split; [done|]);
      apply (tracks_index _ _ _ HT) in Hw || apply (tracks_index _ _ _ HT); naive_solver. }
  split; [|done]. clear Hin. induction Hnd as [|i l Hi Hnd IH]; [constructor|]. cbn [omap list_omap].
  destruct (node_weight g i) as [h|] eqn:Hw; [|apply IH; set_solver]. apply NoDup_cons. split.
  - intros Hin. apply list_elem_of_omap in Hin as (j & Hj & Hwj). assert (i = j) as ->; [|done].
    apply (tracks_inj d hashes R i j h HT); [apply Hl; set_solver|apply Hl; set_solver|done|done].
  - apply IH. set_solver.
Qed.

Lemma size_nodes : size (list_to_set (graph_node_indices g) : gset _) = length (graph_node_indices g).
Proof. apply size_list_to_set, indices_nodup. Qed.

(** [get_descendants] lists exactly the transactions that depend on the given one, directly
    or not, each once. *)
Lemma descendants_spec hash :
  NoDup (get_descendants d hash) /\
  forall h, h ∈ get_descendants d hash <-> hash ∈ hashes /\ tc R hash h.
Proof.
  unfold get_descendants. destruct (ix !! hash) as [i|] eqn:Hi.
  2:{ split; [constructor|]. intros h. rewrite (tracks_hashes _ _ _ HT), Hi. split; [set_solver|].
      by intros [[] _]. }
  pose proof (proj1 (proj1 (tracks_index _ _ _ HT hash i) Hi)) as Hin.
  rewrite <-size_nodes.
  destruct (walk_spec (outgoing_targets g) i (list_to_set (graph_node_indices g))) as (r & -> & Hnd & Hr).
  { intros x y _ Hy. apply elem_of_list_to_set. by apply (outgoing_closed x). }
  { by apply elem_of_list_to_set. }
  cbn [default from_option id]. destruct (weights_spec r Hnd) as [Hnd' Hw].
  { intros j Hj. apply Hr in Hj. apply (reach_hashes hash) in Hj as (c & Hc & _); [|done].
    by apply (tracks_index _ _ _ HT) in Hc as [Hc _]. }
  split; [done|]. intros h. rewrite Hw. split.
  - intros (j & Hj & Hh). split; [apply (tracks_hashes _ _ _ HT); by exists i|].
    apply Hr in Hj. apply (reach_hashes hash) in Hj as (c & Hc & HR); [|done].
    apply (tracks_index _ _ _ HT) in Hc as [_ Hc], Hh as [_ Hh]. assert (c = h) as -> by congruence. done.
  - intros [_ HR]. assert (exists j, ix !! h = Some j) as [j Hj].
    { apply tc_rtc_r with (z := h) in HR; [|done]. clear -HR HT. induction HR as [x y HR|]; [|done].
      apply (tracks_hashes _ _ _ HT). by apply (tracks_ends _ _ _ HT x y). }
    exists j. split; [|done]. apply Hr. apply (reach_hashes hash); [done|]. by exists h.
Qed.

(** [get_with_ancestors] lists exactly the transaction and what it depends on, each once,
    the transaction last. *)
Lemma with_ancestors_spec hash : hash ∈ hashes ->
  NoDup (get_with_ancestors d hash) /\ last (get_with_ancestors d hash) = Some hash /\
  forall h, h ∈ get_with_ancestors d hash <-> h ∈ hashes /\ rtc R h hash.
Proof.
  intros Hhash. apply (tracks_hashes _ _ _ HT) in Hhash as [i Hi]. unfold get_with_ancestors. rewrite Hi.
  pose proof (proj1 (tracks_index _ _ _ HT hash i) Hi) as [Hin Hwi].
  unfold gather_with_ancestors.
  destruct (gather_spec (incoming_sources g) i (list_to_set (graph_node_indices g)) (S (edge_count g)))
    as (r & -> & Hnd & Hhead & Hr).
  { intros x y _ Hy. apply elem_of_list_to_set. by apply (incoming_ends g x). }
  { by apply elem_of_list_to_set. }
  { unfold pending, edge_count. apply le_n_S, Nat.eq_le_incl.
    assert (elements ((list_to_set (graph_node_indices g) : gset _) ∖ ∅) ≡ₚ graph_node_indices g) as Hp.
    { rewrite difference_empty_L. apply elements_list_to_set, indices_nodup. }
    revert Hp. generalize (graph_node_indices g). clear. intros l Hp. induction Hp; cbn in *; lia. }
  cbn [default from_option id].
  assert (forall j, j ∈ reverse r -> j ∈ graph_node_indices g) as Hnodes.
  { intros j Hj. rewrite elem_of_reverse in Hj. apply Hr in Hj.
    apply (reach_back_hashes hash) in Hj as (p & Hp & _); [|done]. by apply (tracks_index _ _ _ HT) in Hp as [Hp _]. }
  destruct (weights_spec (reverse r)) as [Hnd' Hw]; [by rewrite reverse_Permutation|done|]. split_and!; [done| |].
  - destruct r as [|x r]; [done|]. injection Hhead as ->. rewrite reverse_cons, omap_app. cbn [omap list_omap].
    rewrite Hwi. apply last_snoc.
  - intros h. rewrite Hw. split.
    + intros (j & Hj & Hh). split; [apply (tracks_hashes _ _ _ HT); by exists j|]. rewrite elem_of_reverse in Hj.
      apply Hr in Hj. apply (reach_back_hashes hash) in Hj as (c & Hc & HR); [|done].
      apply (tracks_index _ _ _ HT) in Hc as [_ Hc], Hh as [_ Hh]. assert (c = h) as -> by congruence. done.
    + intros [Hh HR]. apply (tracks_hashes _ _ _ HT) in Hh as [j Hj]. exists j. split; [|done].
      rewrite elem_of_reverse. apply Hr. apply (reach_back_hashes hash); [done|]. by exists h.
Qed.

(** When the dependencies have no cycle, [topological_order] lists every tracked
    transaction once, each after everything it depends on. *)
Lemma topological_order_spec (rank : TransactionHash -> nat) :
  (forall p c, R p c -> (rank p < rank c)%nat) ->
  NoDup (topological_order d) /\ (forall h, h ∈ topological_order d <-> h ∈ hashes) /\
  (forall p c, R p c -> before (topological_order d) p c).
Proof.
  intros Hrank. unfold topological_order. rewrite <-size_nodes.
  set (node_rank i := default O (rank <$> node_weight g i)).
  destruct (dfs_all_spec (outgoing_targets g)) with (rank := node_rank) (l := graph_node_indices g)
    (nodes := list_to_set (graph_node_indices g) : gset (NodeIndex TransactionHash)) as (v & s & -> & Hnd & Hin & Hord).
  { intros x y Hy. pose proof (outgoing_closed x y Hy) as [Hx _]. apply node_of in Hx as [p Hp].
    destruct (proj1 (step_hashes p x y Hp) Hy) as (c & Hc & HR).
    apply (tracks_index _ _ _ HT) in Hp as [_ Hp], Hc as [_ Hc]. unfold node_rank. rewrite Hp, Hc. by apply Hrank. }
  { intros x y _ Hy. apply elem_of_list_to_set. by apply (outgoing_closed x). }
  { intros x. by rewrite elem_of_list_to_set. }
  cbn [fmap option_fmap option_map default from_option id snd].
  destruct (weights_spec (reverse s)) as [Hnd' Hw].
  { by rewrite reverse_Permutation. }
  { intros i Hi. rewrite elem_of_reverse in Hi. apply Hin in Hi. by apply elem_of_list_to_set in Hi. }
  split_and!; [done| |].
  - intros h. rewrite Hw, (tracks_hashes _ _ _ HT). split; [intros (i & _ & Hi); by exists i|].
    intros [i Hi]. exists i. split; [|done]. rewrite elem_of_reverse. apply Hin, elem_of_list_to_set.
    by apply (tracks_index _ _ _ HT) in Hi as [Hi _].
  - intros p c HR. destruct (tracks_ends _ _ _ HT p c HR) as [Hp Hc].
    apply (tracks_hashes _ _ _ HT) in Hp as [j Hj], Hc as [i Hi].
    assert (i ∈ outgoing_targets g j) as Hout by (apply (step_hashes p); [done|]; by exists c).
    assert (j ∈ s) as Hjs.
    { apply Hin, elem_of_list_to_set. by apply (tracks_index _ _ _ HT) in Hj as [Hj _]. }
    apply list_elem_of_split in Hjs as (a & b & ->).
    pose proof (Hord a j b i eq_refl Hout) as Hia. apply list_elem_of_split in Hia as (a1 & a2 & ->).
    apply (tracks_index _ _ _ HT) in Hj as [_ Hwj], Hi as [_ Hwi].
    exists (omap (node_weight g) (reverse b)), (omap (node_weight g) (reverse a2)), (omap (node_weight g) (reverse a1)).
    rewrite !reverse_app, !reverse_cons, <-!app_assoc, !omap_app. cbn [omap list_omap].
    rewrite Hwj, Hwi. done.
Qed.
End Walks.
End Tracker.
