(* ===== verification/Mempool.v ===== *)
(** Mempool: the pool of unconfirmed transactions ([mempool/mod.rs]) with its storage and
    indexes ([mempool/storage.rs]), its validator ([mempool/validator.rs]) and fee-based
    replacement ([mempool/rbf_conflicts.rs]). *)
From S2P Require Import Prelude Bytes Types Externals Petgraph GraphWalk Float64 Hashing Transactions MempoolGraph.

(** * Data *)

(** [MemPoolTx] *)
Record MemPoolTx := mk_MemPoolTx {
  mp_transaction : Transaction;
  mp_timestamp : Z;
  mp_fee : Z;
  mp_size : Z;
}.

(** [TransactionStorage] *)
Record TransactionStorage := mk_TransactionStorage {
  mp_txs : gmap TransactionHash MemPoolTx;
  output_creation_index : gmap OutPoint TransactionHash;
  input_spending_index : gmap OutPoint TransactionHash;
}.

Record RbfPolicy := mk_RbfPolicy { base_fee_delta : Z; percentage_increase : f64 }.

Record MemPoolConfig := mk_MemPoolConfig {
  max_size : Z;
  fee_policy : FeePolicy;
  rbf_policy : RbfPolicy;
  expiry_time : Z;
}.

Record MemPoolSyncEntry := mk_MemPoolSyncEntry {
  sync_transaction : Transaction;
  sync_fee : Z;
  sync_timestamp : Z;
}.

Record MemPoolSyncData := mk_MemPoolSyncData {
  sync_entries : list MemPoolSyncEntry;
  sync_taken_at : Z;
}.

Inductive MempoolValidationError :=
| LookupFailed (source : StorageError)
| MissingOutPoint (outpoint : OutPoint)
| InsufficientSum (inputs outputs : Z)
| SignatureFailed (text : string)
| OwnershipMismatch (input_index : Z) (expected actual : AccountAddress)
| InvalidOutpointIndex (outpoint : OutPoint)
| PotentialRbf (utxos : list UTXO)
| NonPaymentTx (hash : string).

Inductive RbfConflictError :=
| RbfInsufficientFee (required actual : Z)
| RbfOther (message : string).

(** [MemPoolError]; its [Storage] variant boxes a storage error or the text of another
    error. *)
Inductive MemPoolError :=
| PoolFull (size : Z)
| DuplicateTransaction (hash : TransactionHash)
| InsufficientFee (required actual : Z)
| DoubleSpend (outpoint : OutPoint)
| ValidationError (error : MempoolValidationError)
| MempoolStorage (source : StorageError + string).

(** * Replacement policy *)

Definition RbfPolicy_default : RbfPolicy := mk_RbfPolicy 1000 f64_ten_percent.
Definition RbfPolicy_disabled : RbfPolicy := mk_RbfPolicy 0 f64_zero.

(** [is_disabled] *)
Definition rbf_is_disabled (p : RbfPolicy) : bool :=
  (base_fee_delta p =? 0) && f64_eqb (percentage_increase p) f64_zero.

(** [required_fee] *)
Definition required_fee (p : RbfPolicy) (old_fee : Z) (load_factor : f64) : Z :=
  let required_absolute := saturating_add 64 old_fee (base_fee_delta p) in
  let required_percentage :=
    f64_ceil_u64 (f64_mul (f64_of_uint old_fee) (f64_add f64_one (percentage_increase p))) in
  let base_required_fee := Z.max required_absolute required_percentage in
  f64_ceil_u64 (f64_mul (f64_of_uint base_required_fee) load_factor).

(** [can_replace] *)
Definition can_replace (p : RbfPolicy) (new_fee old_fee : Z) (load_factor : f64) : bool :=
  required_fee p old_fee load_factor <=? new_fee.

(** [MemPoolConfig::default] *)
Definition MemPoolConfig_default : MemPoolConfig :=
  mk_MemPoolConfig 5000 FeePolicy_default RbfPolicy_default (60 * 60).

(** What the asynchronous lookup answers when it is called. *)
Abbreviation UtxoLookup := (list OutPoint -> result StorageError (gmap OutPoint UTXO)).

Section Storage.
Context {X : Externals} {I : HashIteration}.
Implicit Types (s : TransactionStorage) (hash : TransactionHash) (t : Transaction).

(** * Storage *)

Definition TransactionStorage_default : TransactionStorage := mk_TransactionStorage ∅ ∅ ∅.

(** The outpoints of a transaction stored under [hash]; the position is truncated to 32 bits. *)
Definition outpoints_of hash t : list OutPoint :=
  imap (fun vout_idx _ => mk_OutPoint hash (wrap 32 (Z.of_nat vout_idx))) (outputs (tx_data t)).

Definition spent_outpoints t : list OutPoint := previous_output <$> inputs (tx_data t).

(** [insert_with_timestamp] *)
Definition storage_insert s hash t (fee timestamp : Z) : TransactionStorage :=
  let mem_tx := mk_MemPoolTx t timestamp fee (Z.of_nat (length (postcard_tx t))) in
  mk_TransactionStorage (<[hash := mem_tx]> (mp_txs s))
    (foldl (fun index op => <[op := hash]> index) (output_creation_index s) (outpoints_of hash t))
    (foldl (fun index op => <[op := hash]> index) (input_spending_index s) (spent_outpoints t)).

(** [remove] *)
Definition storage_remove s hash : TransactionStorage :=
  match mp_txs s !! hash with
  | None => s
  | Some mem_tx =>
      mk_TransactionStorage (delete hash (mp_txs s))
        (foldl (fun index op => delete op index) (output_creation_index s)
           (outpoints_of hash (mp_transaction mem_tx)))
        (foldl (fun index op => if bool_decide (index !! op = Some hash) then delete op index else index)
           (input_spending_index s) (spent_outpoints (mp_transaction mem_tx)))
  end.

(** [get], [get_all], [exists], [get_creating_tx], [get_spending_tx], [clear], [len] *)
Definition storage_get s hash : option MemPoolTx := mp_txs s !! hash.
Definition storage_get_all s : list MemPoolTx := (hash_iter (mp_txs s)).*2.
Definition storage_exists s hash : bool := bool_decide (is_Some (mp_txs s !! hash)).
Definition get_creating_tx s (outpoint : OutPoint) : option TransactionHash :=
  output_creation_index s !! outpoint.
Definition get_spending_tx s (outpoint : OutPoint) : option TransactionHash :=
  input_spending_index s !! outpoint.
Definition storage_clear s : TransactionStorage := mk_TransactionStorage ∅ ∅ ∅.
Definition storage_len s : Z := Z.of_nat (size (mp_txs s)).

(** * Validation *)

(** The UTXO an input refers to: an output of a pool transaction, else one of the chain. *)
Definition resolve_input s (external_utxos : gmap OutPoint UTXO) (outpoint : OutPoint) :
    result MempoolValidationError UTXO :=
  match get_creating_tx s outpoint with
  | Some tx_hash =>
      match storage_get s tx_hash with
      | Some mem_tx =>
          let outs := outputs (tx_data (mp_transaction mem_tx)) in
          if vout outpoint <? wrap 32 (Z.of_nat (length outs)) then
            output ← ok_or (outs !! Z.to_nat (vout outpoint)) (InvalidOutpointIndex outpoint);
            mret (mk_UTXO (txid outpoint) (vout outpoint) (value output) (recipient output))
          else Err (InvalidOutpointIndex outpoint)
      | None => Err (MissingOutPoint outpoint)
      end
  | None => ok_or (external_utxos !! outpoint) (MissingOutPoint outpoint)
  end.

Record InputScan := mk_InputScan {
  scan_index : Z;
  scan_total : Z;
  scan_utxos : list UTXO;
  scan_rbf : bool;
}.

(** One iteration of the input loop of [validate]. *)
Definition scan_input s t (author : AccountAddress) (external_utxos : gmap OutPoint UTXO)
    (acc : InputScan) (input : TransactionIn) : result MempoolValidationError InputScan :=
  let outpoint := previous_output input in
  let potential_rbf :=
    match get_spending_tx s outpoint with
    | Some spending => if bool_decide (spending = tx_hash (tx_data t)) then scan_rbf acc else true
    | None => scan_rbf acc
    end in
  utxo ← resolve_input s external_utxos outpoint;
  _ ← ensure (bool_decide (owner utxo = author)) (OwnershipMismatch (scan_index acc) author (owner utxo));
  mret (mk_InputScan (scan_index acc + 1) (saturating_add 64 (scan_total acc) (utxo_value utxo))
    (scan_utxos acc ++ [utxo]) potential_rbf).

(** [iter().sum::<u64>()], which wraps in the release build. *)
Definition sum_u64 (l : list Z) : Z := wrap 64 (zsum l).

(** [MempoolTxValidator::validate] *)
Definition mempool_validate (utxo_lookup : UtxoLookup) t s : result MempoolValidationError (list UTXO) :=
  if negb (is_payment t) then Err (NonPaymentTx (Hash_to_string (tx_hash (tx_data t))))
  else
    rec_key ← map_err (fun e => SignatureFailed (core_error_text e)) (recover_public_key t);
    let author := from_public_key rec_key in
    let external_inputs := filter (fun op => get_creating_tx s op = None) (spent_outpoints t) in
    external_utxos ←
      (if bool_decide (external_inputs = []) then Ok ∅
       else map_err (fun err =>
              match err with
              | UtxoNotFound outpoint => MissingOutPoint outpoint
              | other => LookupFailed other
              end) (utxo_lookup external_inputs));
    scan ← fold_res (scan_input s t author external_utxos) (mk_InputScan 0 0 [] false) (inputs (tx_data t));
    let outputs_sum := sum_u64 (value <$> outputs (tx_data t)) in
    if scan_total scan <? outputs_sum then Err (InsufficientSum (scan_total scan) outputs_sum)
    else if scan_rbf scan then Err (PotentialRbf (scan_utxos scan))
    else Ok (scan_utxos scan).

(** * Conflicts *)

(** [find_conflicts] *)
Definition find_conflicts t s : gset TransactionHash :=
  foldl (fun conflicts op =>
    match get_spending_tx s op with
    | Some existing => {[ existing ]} ∪ conflicts
    | None => conflicts
    end) ∅ (spent_outpoints t).
End Storage.

Section Pool.
Context {X : Externals} {I : HashIteration} `{G : PetGraphEdit TransactionHash}.
Implicit Types (s : TransactionStorage) (d : DependencyTracker) (hash : TransactionHash) (t : Transaction).

(** The fee and membership loop of [resolve_conflicts]. *)
Definition affect_conflict s d (acc : Z * gset TransactionHash) hash : Z * gset TransactionHash :=
  match storage_get s hash with
  | Some conflict_tx =>
      foldl (fun acc desc =>
        (match storage_get s desc with
         | Some desc_tx => saturating_add 64 acc.1 (mp_fee desc_tx)
         | None => acc.1
         end, {[ desc ]} ∪ acc.2))
        (saturating_add 64 acc.1 (mp_fee conflict_tx), {[ hash ]} ∪ acc.2) (get_descendants d hash)
  | None => acc
  end.

(** More descendants first. *)
Definition depth_le d (a b : TransactionHash) : Prop :=
  (length (get_descendants d b) <= length (get_descendants d a))%nat.
#[export] Instance depth_le_dec d a b : Decision (depth_le d a b).
Proof. unfold depth_le. apply _. Defined.

Definition remove_both (sd : TransactionStorage * DependencyTracker) hash :
    TransactionStorage * DependencyTracker :=
  (storage_remove sd.1 hash, tracker_remove sd.2 hash).

(** [resolve_conflicts] *)
Definition resolve_conflicts (p : RbfPolicy) (conflicts : gset TransactionHash) s d (new_fee : Z)
    (load_factor : f64) : result RbfConflictError (TransactionStorage * DependencyTracker) :=
  if bool_decide (conflicts = ∅) then Ok (s, d)
  else
    let '(total_conflict_fee, all_affected) := foldl (affect_conflict s d) (0, ∅) (set_iter conflicts) in
    let conflict_count_factor :=
      f64_add f64_one (f64_mul (f64_of_uint (Z.of_nat (size conflicts))) f64_five_percent) in
    let base_required_fee := required_fee p total_conflict_fee load_factor in
    let required := f64_ceil_u64 (f64_mul (f64_of_uint base_required_fee) conflict_count_factor) in
    if new_fee <? required then Err (RbfInsufficientFee required new_fee)
    else
      let affected_by_depth := merge_sort (depth_le d) (set_iter all_affected) in
      Ok (foldl remove_both (s, d) affected_by_depth).

(** * The pool *)

(** [MemPool]; the replacement policy and the fee policy are copies of the
    configuration's. *)
Record MemPool := mk_MemPool {
  mp_storage : TransactionStorage;
  mp_tracker : DependencyTracker;
  mp_config : MemPoolConfig;
}.
Implicit Types (p : MemPool).

Definition MemPool_new (config : MemPoolConfig) : MemPool :=
  mk_MemPool TransactionStorage_default DependencyTracker_default config.

(** [actual_fee] *)
Definition actual_fee (policy : FeePolicy) t (utxos : list UTXO) : Z :=
  let explicit_fee := calculate_fee policy t in
  let input_sum := sum_u64 (utxo_value <$> utxos) in
  let output_sum := sum_u64 (value <$> outputs (tx_data t)) in
  let implicit_fee := saturating_sub input_sum output_sum in
  Z.max explicit_fee implicit_fee.

(** [parent_hashes] *)
Definition parent_hashes s t : list TransactionHash := omap (get_creating_tx s) (spent_outpoints t).

(** [first_conflicting_outpoint] *)
Definition first_conflicting_outpoint s t : option OutPoint :=
  head (filter (fun op => is_Some (get_spending_tx s op)) (spent_outpoints t)).

(** [add_transaction]. Every error is returned before the first change of the pool. [now]
    is the clock at the insertion. *)
Definition add_transaction (utxo_lookup : UtxoLookup) (now : Z) p t : result MemPoolError MemPool :=
  let hash := tx_hash (tx_data t) in
  if storage_exists (mp_storage p) hash then Err (DuplicateTransaction hash)
  else if max_size (mp_config p) <=? storage_len (mp_storage p) then Err (PoolFull (max_size (mp_config p)))
  else
    utxos ←
      match mempool_validate utxo_lookup t (mp_storage p) with
      | Ok utxos | Err (PotentialRbf utxos) => Ok utxos
      | Err (LookupFailed err) => Err (MempoolStorage (inl err))
      | Err err => Err (ValidationError err)
      end;
    let fee := actual_fee (fee_policy (mp_config p)) t utxos in
    let conflicts := find_conflicts t (mp_storage p) in
    cleared ←
      (if negb (bool_decide (conflicts = ∅)) then
         if rbf_is_disabled (rbf_policy (mp_config p)) then
           Err (match first_conflicting_outpoint (mp_storage p) t with
                | Some op => DoubleSpend op
                | None => DuplicateTransaction hash
                end)
         else
           map_err (fun err =>
             match err with
             | RbfInsufficientFee required actual => InsufficientFee required actual
             | RbfOther message => MempoolStorage (inr message)
             end)
             (resolve_conflicts (rbf_policy (mp_config p)) conflicts (mp_storage p) (mp_tracker p) fee f64_one)
       else Ok (mp_storage p, mp_tracker p));
    let storage := storage_insert cleared.1 hash t fee now in
    mret (mk_MemPool storage (tracker_add cleared.2 hash (parent_hashes storage t)) (mp_config p)).

(** [remove_stored_transaction] *)
Definition remove_stored_transaction p hash : MemPool :=
  mk_MemPool (storage_remove (mp_storage p) hash) (tracker_remove (mp_tracker p) hash) (mp_config p).

(** [remove_transaction] *)
Definition remove_transaction p hash : MemPool :=
  remove_stored_transaction
    (foldl remove_stored_transaction p (get_descendants (mp_tracker p) hash)) hash.

(** [update_on_block] *)
Definition update_on_block p (txs : list Transaction) : MemPool :=
  foldl (fun p t => remove_stored_transaction p (tx_hash (tx_data t))) p txs.

(** [cleanup_expired] *)
Definition cleanup_expired (now : Z) p : MemPool :=
  let expired :=
    omap (fun entry =>
      if expiry_time (mp_config p) <? saturating_sub now (mp_timestamp entry)
      then Some (tx_hash (tx_data (mp_transaction entry))) else None)
      (storage_get_all (mp_storage p)) in
  foldl remove_transaction p expired.

(** [get_sync_state] *)
Definition get_sync_state (now : Z) p : MemPoolSyncData :=
  mk_MemPoolSyncData
    ((fun entry => mk_MemPoolSyncEntry (mp_transaction entry) (mp_fee entry) (mp_timestamp entry)) <$>
       storage_get_all (mp_storage p)) now.

(** The two loops of [restore_state]. *)
Definition restore_entry s (entry : MemPoolSyncEntry) : TransactionStorage :=
  storage_insert s (tx_hash (tx_data (sync_transaction entry))) (sync_transaction entry)
    (sync_fee entry) (sync_timestamp entry).
Definition restore_links s d t : DependencyTracker :=
  tracker_add d (tx_hash (tx_data t)) (parent_hashes s t).

(** [restore_state], with the decoder of the snapshot bytes as an argument. *)
Definition restore_state (postcard_from_bytes : list byte -> result string MemPoolSyncData) p
    (data : list byte) : result MemPoolError MemPool :=
  sync_data ← map_err (fun e => MempoolStorage (inr e)) (postcard_from_bytes data);
  let storage := foldl restore_entry (storage_clear (mp_storage p)) (sync_entries sync_data) in
  let tracker := foldl (restore_links storage) (tracker_clear (mp_tracker p))
                   (sync_transaction <$> sync_entries sync_data) in
  mret (mk_MemPool storage tracker (mp_config p)).

(** [get_transaction] and [transaction_count] *)
Definition mempool_get_transaction p hash : option Transaction :=
  mp_transaction <$> storage_get (mp_storage p) hash.
Definition transaction_count p : Z := storage_len (mp_storage p).

(** * Selection *)

(** [package_fee_rate] *)
Definition package_fee_rate p hash : f64 :=
  let totals := foldl (fun acc h =>
      match storage_get (mp_storage p) h with
      | Some entry => (saturating_add 64 acc.1 (mp_fee entry), saturating_add 64 acc.2 (mp_size entry))
      | None => acc
      end) (0, 0) (get_with_ancestors (mp_tracker p) hash) in
  if totals.2 =? 0 then f64_zero else f64_div (f64_of_uint totals.1) (f64_of_uint totals.2).

(** The comparator of the ranking: higher rate first, then the earlier position. *)
Definition rank_cmp (positions : gmap TransactionHash nat) (left right : TransactionHash * f64) : comparison :=
  let position h := match positions !! h with Some n => Z.of_nat n | None => uint_max 64 end in
  match f64_partial_cmp right.2 left.2 with
  | Some Lt => Lt
  | Some Gt => Gt
  | _ => (position left.1 ?= position right.1)
  end.

Definition rank_le (positions : gmap TransactionHash nat) (left right : TransactionHash * f64) : Prop :=
  rank_cmp positions left right <> Gt.
#[export] Instance rank_le_dec positions left right : Decision (rank_le positions left right).
Proof. unfold rank_le. apply _. Defined.

(** Taking a package: every hash is marked, and its transaction appended. *)
Definition take_package s (acc : gset TransactionHash * list Transaction) hash :
    gset TransactionHash * list Transaction :=
  if bool_decide (hash ∈ acc.1) then acc
  else ({[ hash ]} ∪ acc.1,
        match storage_get s hash with
        | Some entry => acc.2 ++ [mp_transaction entry]
        | None => acc.2
        end).

(** The selection loop. *)
Fixpoint select_packages p (limit : nat) (ranked : list (TransactionHash * f64))
    (selected : gset TransactionHash) (chosen : list Transaction) : list Transaction :=
  match ranked with
  | [] => chosen
  | (hash, _) :: ranked =>
      if bool_decide (hash ∈ selected) then select_packages p limit ranked selected chosen
      else
        let package := filter (fun h => h ∉ selected) (get_with_ancestors (mp_tracker p) hash) in
        if (limit - length chosen <? length package)%nat then select_packages p limit ranked selected chosen
        else
          let '(selected, chosen) := foldl (take_package (mp_storage p)) (selected, chosen) package in
          if (length chosen =? limit)%nat then chosen
          else select_packages p limit ranked selected chosen
  end.

(** [get_best_transactions] *)
Definition get_best_transactions p (limit : nat) : list Transaction :=
  if (limit =? 0)%nat then []
  else
    let order := topological_order (mp_tracker p) in
    let positions : gmap TransactionHash nat := put_all ∅ (imap (fun idx h => (h, idx)) order) in
    let ranked := merge_sort (rank_le positions) ((fun h => (h, package_fee_rate p h)) <$> order) in
    select_packages p limit ranked ∅ [].
End Pool.
