(* ===== verification/MempoolFacts.v ===== *)
(** MempoolFacts: the consistency of the mempool's indexes and dependency graph under every
    operation, what insertion and removal do, snapshots, and the selection for a block. *)
From S2P Require Import Prelude Bytes Types Externals Petgraph GraphWalk Float64 Hashing Transactions MempoolGraph Mempool.
From stdpp Require Import relations.
#[local] Open Scope Z_scope.

(** * Index updates *)

Section IndexFolds.
Context {K V : Type} `{Countable K} `{EqDecision V}.
Implicit Types (m : gmap K V) (l : list K).

Lemma foldl_insert_lookup m l v k :
  foldl (fun m k => <[k := v]> m) m l !! k = if decide (k ∈ l) then Some v else m !! k.
Proof.
  revert m. induction l as [|x l IH]; intros m; cbn [foldl]; [by rewrite decide_False by set_solver|].
  rewrite IH. destruct (decide (k ∈ l)); [by rewrite decide_True by set_solver|].
  destruct (decide (k = x)) as [->|]; [by rewrite lookup_insert_eq, decide_True by set_solver|].
  by rewrite lookup_insert_ne, decide_False by set_solver.
Qed.

Lemma foldl_delete_lookup m l k :
  foldl (fun m k => delete k m) m l !! k = if decide (k ∈ l) then None else m !! k.
Proof. apply remove_all_lookup. Qed.

Lemma foldl_delete_own_lookup m l v k :
  foldl (fun m k => if bool_decide (m !! k = Some v) then delete k m else m) m l !! k =
    if decide (k ∈ l /\ m !! k = Some v) then None else m !! k.
Proof.
  revert m. induction l as [|x l IH]; intros m; cbn [foldl]; [by rewrite decide_False by set_solver|].
  rewrite IH. clear IH. case_bool_decide as Hx.
  - destruct (decide (k = x)) as [->|Hne].
    + rewrite lookup_delete_eq, (decide_True (P := x ∈ x :: l /\ _)) by set_solver. by case_decide.
    + rewrite lookup_delete_ne by done. repeat case_decide; set_solver.
  - destruct (decide (k = x)) as [->|Hne]; repeat case_decide; set_solver.
Qed.
End IndexFolds.

(** * Storage *)

Section StorageFacts.
Context {X : Externals}.
Implicit Types (s : TransactionStorage) (hash : TransactionHash) (t : Transaction).

(** The indexes describe the stored transactions: an output is indexed under the
    transaction that creates it, an input under the one that spends it. Since each outpoint
    has one entry, no two stored transactions spend the same outpoint. *)
Record storage_ok s : Prop := {
  so_tx : forall h e, mp_txs s !! h = Some e ->
    tx_hash (tx_data (mp_transaction e)) = h /\
    mp_size e = Z.of_nat (length (postcard_tx (mp_transaction e)));
  so_created : forall op h, output_creation_index s !! op = Some h <->
    exists e, mp_txs s !! h = Some e /\ op ∈ outpoints_of h (mp_transaction e);
  so_spent : forall op h, input_spending_index s !! op = Some h <->
    exists e, mp_txs s !! h = Some e /\ op ∈ spent_outpoints (mp_transaction e);
}.

Lemma storage_ok_empty : storage_ok TransactionStorage_default.
Proof. split; cbn; intros *; rewrite ?lookup_empty; [done| |]; split; try done; by intros (? & ? & _). Qed.

Lemma outpoints_txid hash t op : op ∈ outpoints_of hash t -> txid op = hash.
Proof. unfold outpoints_of. intros Hop. apply elem_of_lookup_imap in Hop as (i & o & -> & _). done. Qed.

Lemma storage_insert_ok s hash t fee timestamp :
  storage_ok s -> hash = tx_hash (tx_data t) -> mp_txs s !! hash = None ->
  (forall op, op ∈ spent_outpoints t -> input_spending_index s !! op = None) ->
  storage_ok (storage_insert s hash t fee timestamp).
Proof.
  intros [Htx Hc Hs] Hhash Hnone Hfree. split; cbn [storage_insert mp_txs output_creation_index input_spending_index].
  - intros h e. rewrite lookup_insert_Some. intros [[<- <-]|[_ He]]; [done|by apply Htx].
  - intros op h. rewrite foldl_insert_lookup. setoid_rewrite lookup_insert_Some. case_decide as Hop.
    + split.
      * intros [= <-]. eexists. split; [by left|done].
      * intros (e & [[<- _]|[Hne He]] & Hin); [done|]. apply outpoints_txid in Hop, Hin. congruence.
    + rewrite Hc. split.
      * intros (e & He & Hin). exists e. split; [|done]. right. split; [congruence|done].
      * intros (e & [[<- <-]|[Hne He]] & Hin); [done|]. by exists e.
  - intros op h. rewrite foldl_insert_lookup. setoid_rewrite lookup_insert_Some. case_decide as Hop.
    + split.
      * intros [= <-]. eexists. split; [by left|done].
      * intros (e & [[<- _]|[Hne He]] & Hin); [done|]. specialize (Hfree op Hop).
        assert (input_spending_index s !! op = Some h) by (apply Hs; by exists e). congruence.
    + rewrite Hs. split.
      * intros (e & He & Hin). exists e. split; [|done]. right. split; [congruence|done].
      * intros (e & [[<- <-]|[Hne He]] & Hin); [done|]. by exists e.
Qed.

Lemma storage_remove_txs s hash : mp_txs (storage_remove s hash) = delete hash (mp_txs s).
Proof.
  unfold storage_remove. destruct (mp_txs s !! hash) as [e|] eqn:He; [done|]. by rewrite delete_id.
Qed.

Lemma storage_remove_ok s hash : storage_ok s -> storage_ok (storage_remove s hash).
Proof.
  intros [Htx Hc Hs]. unfold storage_remove. destruct (mp_txs s !! hash) as [e|] eqn:He; [|done].
  split; cbn [mp_txs output_creation_index input_spending_index].
  - intros h e'. rewrite lookup_delete_Some. intros [_ He']. by apply Htx.
  - intros op h. rewrite foldl_delete_lookup. setoid_rewrite lookup_delete_Some. case_decide as Hop.
    + split; [done|]. intros (e' & [Hne _] & Hin). apply outpoints_txid in Hop, Hin. congruence.
    + rewrite Hc. split; [|naive_solver]. intros (e' & He' & Hin). exists e'. split; [|done]. split; [|done].
      intros <-. congruence.
  - intros op h. rewrite foldl_delete_own_lookup. setoid_rewrite lookup_delete_Some. case_decide as Hop.
    + split; [done|]. intros (e' & [Hne He'] & Hin). destruct Hop as [_ Hop].
      assert (input_spending_index s !! op = Some h) by (apply Hs; by exists e'). congruence.
    + rewrite Hs. split; [|naive_solver]. intros (e' & He' & Hin). exists e'. split; [|done]. split; [|done].
      intros <-. apply Hop. simplify_eq. split; [done|]. apply Hs. by eexists.
Qed.

(** The indexes are determined by the stored transactions. *)
Lemma storage_ok_ext s1 s2 : storage_ok s1 -> storage_ok s2 -> mp_txs s1 = mp_txs s2 -> s1 = s2.
Proof.
  intros [_ Hc1 Hs1] [_ Hc2 Hs2] Heq. destruct s1 as [m1 c1 i1], s2 as [m2 c2 i2]. cbn in *. subst m2. f_equal.
  - apply map_eq. intros op. apply option_eq. intros h. by rewrite Hc1, Hc2.
  - apply map_eq. intros op. apply option_eq. intros h. by rewrite Hs1, Hs2.
Qed.

Lemma storage_len_dom s : storage_len s = Z.of_nat (size (dom (mp_txs s))).
Proof. unfold storage_len. by rewrite size_dom. Qed.

(** [child] spends an output of [parent], both stored. *)
Definition depends s (parent child : TransactionHash) : Prop :=
  exists e op, mp_txs s !! child = Some e /\ op ∈ spent_outpoints (mp_transaction e) /\
    output_creation_index s !! op = Some parent.

Lemma depends_stored s parent child : storage_ok s -> depends s parent child ->
  is_Some (mp_txs s !! parent) /\ is_Some (mp_txs s !! child).
Proof.
  intros Hok (e & op & He & _ & Hop). apply (so_created _ Hok) in Hop as (e' & He' & _). by split; eexists.
Qed.

(** Removing other transactions keeps a dependency. *)
Lemma depends_remove s hash parent child : storage_ok s -> parent <> hash -> child <> hash ->
  depends (storage_remove s hash) parent child <-> depends s parent child.
Proof.
  intros Hok Hp Hc. pose proof (storage_remove_ok s hash Hok) as Hok'. unfold depends.
  setoid_rewrite (so_created _ Hok). setoid_rewrite (so_created _ Hok'). rewrite storage_remove_txs.
  setoid_rewrite lookup_delete_Some. naive_solver.
Qed.
End StorageFacts.

(** * The pool *)

Section PoolFacts.
Context {X : Externals} {I : HashIteration} `{!HashIterationLaws} `{G : PetGraphEdit TransactionHash}.
Context `{!PetGraphLaws TransactionHash} `{!PetGraphEditLaws TransactionHash}.
Implicit Types (s : TransactionStorage) (d : DependencyTracker) (hash : TransactionHash) (t : Transaction).
Implicit Types (p : MemPool) (R : TransactionHash -> TransactionHash -> Prop).

(** Storage and tracker agree: the tracker knows exactly the stored transactions, each of
    its edges is a real dependency, and the edges have no cycle. *)
Record pool_graph s d R : Prop := {
  pg_storage : storage_ok s;
  pg_tracks : tracks d (dom (mp_txs s)) R;
  pg_depends : forall a b, R a b -> depends s a b;
  pg_acyclic : exists rank : TransactionHash -> nat, forall a b, R a b -> (rank a < rank b)%nat;
}.

Record pool_ok p R : Prop := {
  pool_is_graph : pool_graph (mp_storage p) (mp_tracker p) R;
  pool_bounded : storage_len (mp_storage p) <= max_size (mp_config p);
}.

(** The dependencies left without some transactions. *)
Definition without (l : list TransactionHash) R : TransactionHash -> TransactionHash -> Prop :=
  fun a b => R a b /\ a ∉ l /\ b ∉ l.

Lemma tracks_proper d hashes hashes' R R' :
  tracks d hashes R -> hashes = hashes' -> (forall a b, R a b <-> R' a b) -> tracks d hashes' R'.
Proof.
  intros [Hi Hw Hh He Hends] <- HR. split; [done|done|done| |].
  - intros a c i j Ha Hc. rewrite <-HR. by apply He.
  - intros a c. rewrite <-HR. apply Hends.
Qed.

Lemma remove_both_graph s d R hash :
  pool_graph s d R ->
  pool_graph (remove_both (s, d) hash).1 (remove_both (s, d) hash).2 (without [hash] R).
Proof.
  intros [Hs Ht Hd [rank Hr]]. split; cbn.
  - by apply storage_remove_ok.
  - eapply tracks_proper; [by apply tracks_remove| |].
    + by rewrite storage_remove_txs, dom_delete_L.
    + unfold without. set_solver.
  - intros a b (HR & Ha & Hb). apply depends_remove; [done|set_solver|set_solver|by apply Hd].
  - exists rank. intros a b [HR _]. by apply Hr.
Qed.

Lemma remove_list_graph s d R l :
  pool_graph s d R ->
  let sd := foldl remove_both (s, d) l in
  pool_graph sd.1 sd.2 (without l R) /\ mp_txs sd.1 = filter (fun kv => kv.1 ∉ l) (mp_txs s).
Proof.
  revert s d R. induction l as [|h l IH]; intros s d R Hg; cbn zeta.
  - cbn [foldl fst snd]. split.
    + destruct Hg as [Hs Ht Hd [rank Hr]]. split; [done| | |].
      * eapply tracks_proper; [done|done|]. unfold without. set_solver.
      * intros a b [HR _]. by apply Hd.
      * exists rank. intros a b [HR _]. by apply Hr.
    + symmetry. apply map_filter_id. set_solver.
  - cbn [foldl]. pose proof (remove_both_graph s d R h Hg) as Hg1.
    destruct (remove_both (s, d) h) as [s1 d1] eqn:H1. cbn [fst snd] in Hg1.
    destruct (IH s1 d1 _ Hg1) as [Hg2 Htxs]. split.
    + destruct Hg2 as [Hs Ht Hd [rank Hr]]. split; [done| | |].
      * eapply tracks_proper; [done|done|]. unfold without. set_solver.
      * intros a b HR. apply Hd. revert HR. unfold without. set_solver.
      * exists rank. intros a b HR. apply Hr. revert HR. unfold without. set_solver.
    + rewrite Htxs. injection H1 as <- _. cbn. rewrite storage_remove_txs. apply map_eq. intros k.
      rewrite !map_lookup_filter. destruct (decide (k = h)) as [->|Hne].
      * rewrite lookup_delete_eq. destruct (mp_txs s !! h); cbn; [|done].
        rewrite option_guard_False by set_solver. done.
      * rewrite lookup_delete_ne by done. destruct (mp_txs s !! k); cbn; [|done].
        repeat case_guard; set_solver.
Qed.

Lemma parent_hashes_spec s t parent :
  parent ∈ parent_hashes s t <-> exists op, op ∈ spent_outpoints t /\ output_creation_index s !! op = Some parent.
Proof. unfold parent_hashes. rewrite list_elem_of_omap. done. Qed.

(** A transaction does not spend an output of its own hash. *)
Definition no_self_spend t : Prop := forall op, op ∈ spent_outpoints t -> txid op <> tx_hash (tx_data t).

Definition added_edge s t R : TransactionHash -> TransactionHash -> Prop :=
  fun a b => R a b \/ b = tx_hash (tx_data t) /\ a ∈ parent_hashes s t /\ is_Some (mp_txs s !! a).

Lemma add_graph s d R t fee timestamp :
  pool_graph s d R -> mp_txs s !! tx_hash (tx_data t) = None -> no_self_spend t ->
  (forall op, op ∈ spent_outpoints t -> input_spending_index s !! op = None) ->
  let s' := storage_insert s (tx_hash (tx_data t)) t fee timestamp in
  pool_graph s' (tracker_add d (tx_hash (tx_data t)) (parent_hashes s' t)) (added_edge s t R).
Proof.
  intros [Hs Ht Hd [rank Hr]] Hnew Hself Hfree s'. set (h := tx_hash (tx_data t)) in *.
  pose proof (storage_insert_ok s h t fee timestamp Hs eq_refl Hnew Hfree) as Hs'. fold s' in Hs'.
  assert (forall op a, op ∈ spent_outpoints t -> output_creation_index s' !! op = Some a <->
            output_creation_index s !! op = Some a) as Hcr.
  { intros op a Hop. cbn. rewrite foldl_insert_lookup. case_decide as Hin; [|done].
    apply outpoints_txid in Hin. by apply Hself in Hop. }
  assert (forall a, a ∈ parent_hashes s' t <-> a ∈ parent_hashes s t) as Hpar.
  { intros a. rewrite !parent_hashes_spec. split; intros (op & Hop & Ha); exists op; (split; [done|]); by apply Hcr. }
  assert (forall a, a ∈ parent_hashes s t -> is_Some (mp_txs s !! a)) as Hstored.
  { intros a (op & _ & Ha)%parent_hashes_spec. apply (so_created _ Hs) in Ha as (e & He & _). by eexists. }
  split.
  - done.
  - eapply tracks_proper; [apply tracks_add; [done|by rewrite not_elem_of_dom]| |].
    + cbn. by rewrite dom_insert_L.
    + intros a b. unfold added_edge. rewrite Hpar. setoid_rewrite elem_of_union. rewrite elem_of_dom. naive_solver.
  - intros a b [HR|(-> & Ha & _)].
    + destruct (Hd a b HR) as (e & op & He & Hop & Ha). exists e, op. split_and!; [|done|].
      * cbn. rewrite lookup_insert_ne; [done|]. intros <-. congruence.
      * cbn. rewrite foldl_insert_lookup. case_decide as Hin; [|done]. exfalso. apply outpoints_txid in Hin.
        apply (so_created _ Hs) in Ha as (e' & He' & Hop'). apply outpoints_txid in Hop'. congruence.
    + apply parent_hashes_spec in Ha as (op & Hop & Ha). eexists _, op. split_and!.
      * cbn. apply lookup_insert_eq.
      * done.
      * by apply Hcr.
  - exists (fun x => if decide (x = h) then S (max_list (rank <$> elements (dom (mp_txs s)))) else rank x).
    intros a b [HR|(-> & Ha & Has)].
    + destruct (tracks_ends _ _ _ Ht a b HR) as [Ha Hb]. rewrite !decide_False; [by apply Hr| |];
        intros ->; by apply not_elem_of_dom in Hnew.
    + rewrite (decide_True (P := h = h)) by done. rewrite decide_False by (intros ->; rewrite Hnew in Has; by destruct Has).
      apply Nat.lt_succ_r, max_list_elem_of_le, list_elem_of_fmap_2, elem_of_elements, elem_of_dom. done.
Qed.

(** ** Replacement *)

Lemma find_conflicts_spec t s c :
  c ∈ find_conflicts t s <-> exists op, op ∈ spent_outpoints t /\ input_spending_index s !! op = Some c.
Proof.
  unfold find_conflicts, get_spending_tx. induction (spent_outpoints t) as [|op l IH] using rev_ind; [set_solver|].
  rewrite foldl_app. cbn [foldl]. destruct (input_spending_index s !! op) as [x|] eqn:Hop.
  - rewrite elem_of_union, elem_of_singleton, IH. split.
    + intros [->|(o & Ho & Hi)]; [exists op; set_solver|exists o; set_solver].
    + intros (o & [Ho|Ho%list_elem_of_singleton]%elem_of_app & Hi); [right; by exists o|subst o; left; congruence].
  - rewrite IH. split; [intros (o & Ho & Hi); exists o; set_solver|].
    intros (o & [Ho|Ho%list_elem_of_singleton]%elem_of_app & Hi); [by exists o|congruence].
Qed.

Lemma affect_members s d l acc x :
  x ∈ (foldl (affect_conflict s d) acc l).2 <->
  x ∈ acc.2 \/ exists c, c ∈ l /\ is_Some (mp_txs s !! c) /\ (x = c \/ x ∈ get_descendants d c).
Proof.
  assert (forall ds (a : Z * gset TransactionHash),
    (foldl (fun acc desc => (match storage_get s desc with
         | Some desc_tx => saturating_add 64 acc.1 (mp_fee desc_tx)
         | None => acc.1 end, {[ desc ]} ∪ acc.2)) a ds).2 = list_to_set ds ∪ a.2) as Hds.
  { intros ds. induction ds as [|y ds IH]; intros a; cbn [foldl]; [set_solver|]. rewrite IH. cbn. set_solver. }
  revert acc. induction l as [|c l IH]; intros acc; cbn [foldl]; [set_solver|]. rewrite IH.
  unfold affect_conflict, storage_get. destruct (mp_txs s !! c) as [e|] eqn:Hc.
  - rewrite Hds. cbn [snd]. rewrite !elem_of_union, elem_of_singleton, elem_of_list_to_set. split.
    + intros [[Hx|[Hx|Hx]]|(c' & Hc' & Hs & Hx)]; [right; exists c|right; exists c|by left|right; exists c']; set_solver.
    + intros [Hx|(c' & [->|Hc']%elem_of_cons & Hs & Hx)]; [by left; right; right|left; naive_solver|right; by exists c'].
  - split.
    + intros [Hx|(c' & Hc' & Hs & Hx)]; [by left|right; exists c'; set_solver].
    + intros [Hx|(c' & [->|Hc']%elem_of_cons & Hs & Hx)]; [by left| |right; by exists c'].
      rewrite Hc in Hs. by destruct Hs.
Qed.

(** What a new transaction displaces: the transactions it conflicts with and all that
    depends on them. *)
Definition displaced_by s R t (x : TransactionHash) : Prop :=
  exists op c, op ∈ spent_outpoints t /\ input_spending_index s !! op = Some c /\ rtc R c x.

(** The fee a replacement must offer. *)
Definition replacement_fee (policy : RbfPolicy) s d t : Z :=
  let conflicts := find_conflicts t s in
  f64_ceil_u64 (f64_mul
    (f64_of_uint (required_fee policy (foldl (affect_conflict s d) (0, ∅) (set_iter conflicts)).1 f64_one))
    (f64_add f64_one (f64_mul (f64_of_uint (Z.of_nat (size conflicts))) f64_five_percent))).

Lemma resolve_conflicts_Ok policy s d R t fee s' d' :
  pool_graph s d R ->
  resolve_conflicts policy (find_conflicts t s) s d fee f64_one = Ok (s', d') ->
  exists l, (forall x, x ∈ l <-> displaced_by s R t x) /\ pool_graph s' d' (without l R) /\
    mp_txs s' = filter (fun kv => kv.1 ∉ l) (mp_txs s) /\
    (find_conflicts t s = ∅ \/ replacement_fee policy s d t <= fee).
Proof.
  intros Hg. pose proof Hg as [Hs Ht _ _]. unfold resolve_conflicts.
  assert (forall x, (exists c, c ∈ find_conflicts t s /\ is_Some (mp_txs s !! c) /\ (x = c \/ x ∈ get_descendants d c)) <->
            displaced_by s R t x) as Hdis.
  { intros x. unfold displaced_by. split.
    - intros (c & (op & Hop & Hc)%find_conflicts_spec & _ & Hx). exists op, c. split_and!; [done|done|].
      apply rtc_tc. destruct Hx as [->|Hx]; [by left|]. right. by apply (descendants_spec d _ R Ht) in Hx as [_ Hx].
    - intros (op & c & Hop & Hc & Hx). pose proof Hc as Hc'. apply (so_spent _ Hs) in Hc' as (e & He & _).
      exists c. split_and!; [apply find_conflicts_spec; by exists op|by exists e|].
      apply rtc_tc in Hx as [->|Hx]; [by left|]. right. apply (descendants_spec d _ R Ht). split; [|done].
      apply elem_of_dom. by exists e. }
  case_bool_decide as Hnone.
  - intros [= <- <-]. exists []. split_and!; [| | |by left].
    + intros x. rewrite <-Hdis. split; [set_solver|]. intros (c & Hc & _). set_solver.
    + apply (remove_list_graph s d R [] Hg).
    + apply (remove_list_graph s d R [] Hg).
  - pose proof (affect_members s d (set_iter (find_conflicts t s)) (0, ∅)) as Hmem.
    unfold replacement_fee. destruct (foldl (affect_conflict s d) _ _) as [total all] eqn:Hfold. cbn [fst snd] in *.
    destruct (fee <? _) eqn:Hfee; [done|]. bool_inv. intros Hok.
    injection Hok as Hok. set (l := merge_sort (depth_le d) (set_iter all)) in *.
    destruct (remove_list_graph s d R l Hg) as [Hg' Htxs]. rewrite Hok in Hg', Htxs. cbn [fst snd] in Hg', Htxs.
    exists l. split_and!; [|done|done|by right]. intros x. unfold l. rewrite merge_sort_Permutation, elem_of_set_iter, Hmem.
    rewrite <-Hdis. setoid_rewrite elem_of_set_iter. set_solver.
Qed.

(** ** Validation *)

Record validated_inputs (utxo_lookup : UtxoLookup) t s (utxos : list UTXO) : Prop := {
  vi_payment : is_payment t = true;
  vi_inputs : exists pk external, recover_public_key t = Ok pk /\
    (filter (fun op => get_creating_tx s op = None) (spent_outpoints t) = [] /\ external = ∅ \/
     utxo_lookup (filter (fun op => get_creating_tx s op = None) (spent_outpoints t)) = Ok external) /\
    Forall2 (fun op u => resolve_input s external op = Ok u /\ owner u = from_public_key pk)
      (spent_outpoints t) utxos;
  vi_covered : sum_u64 (value <$> outputs (tx_data t)) <=
    foldl (saturating_add 64) 0 (utxo_value <$> utxos);
}.

Lemma scan_inputs_Ok s t author external l acc acc' :
  fold_res (scan_input s t author external) acc l = Ok acc' ->
  exists us, scan_utxos acc' = scan_utxos acc ++ us /\
    Forall2 (fun op u => resolve_input s external op = Ok u /\ owner u = author) (previous_output <$> l) us /\
    scan_total acc' = foldl (saturating_add 64) (scan_total acc) (utxo_value <$> us).
Proof.
  revert acc. induction l as [|i l IH]; intros acc Hf; cbn [fold_res] in Hf.
  - injection Hf as <-. exists []. by rewrite app_nil_r.
  - apply bind_Ok in Hf as (acc1 & H1 & Hf). unfold scan_input in H1. cbv zeta in H1.
    apply bind_Ok in H1 as (u & Hu & H1). apply bind_Ok in H1 as ([] & Ho & H1).
    apply ensure_Ok in Ho. bool_inv. injection H1 as <-. apply IH in Hf as (us & Hus & Hall & Htot). cbn in *.
    exists (u :: us). rewrite Hus, <-app_assoc. split_and!; [done|by constructor|done].
Qed.

Lemma resolve_input_no_rbf s external op us : resolve_input s external op <> Err (PotentialRbf us).
Proof.
  unfold resolve_input. destruct (get_creating_tx s op) as [h|]; [|by destruct (external !! op)].
  destruct (storage_get s h) as [e|]; [|done]. destruct (_ <? _); [|done]. by destruct (_ !! _).
Qed.

Lemma mempool_validate_Ok utxo_lookup t s utxos :
  mempool_validate utxo_lookup t s = Ok utxos \/ mempool_validate utxo_lookup t s = Err (PotentialRbf utxos) ->
  validated_inputs utxo_lookup t s utxos.
Proof.
  unfold mempool_validate. destruct (is_payment t) eqn:Hp; cbn [negb]; [|by intros [|]].
  destruct (recover_public_key t) as [pk|] eqn:Hpk; cbn [map_err mbind result_bind]; [|by intros [|]].
  set (ext := filter _ _).
  destruct (if bool_decide (ext = []) then _ else _) as [external|err] eqn:Hext; cbn [mbind result_bind].
  2:{ intros [Hr|Hr]; [done|]. injection Hr as ->. exfalso. case_bool_decide; [done|].
      destruct (utxo_lookup ext) as [|[]]; done. }
  destruct (fold_res _ _ _) as [scan|err] eqn:Hscan; cbn [mbind result_bind].
  2:{ intros [Hr|Hr]; [done|]. injection Hr as ->. exfalso. revert Hscan. generalize (mk_InputScan 0 0 [] false).
      induction (inputs (tx_data t)) as [|i l IH]; intros acc Hf; cbn [fold_res] in Hf; [done|].
      apply bind_Err in Hf as [Hf|(a & _ & Hf)]; [|by eapply IH]. unfold scan_input in Hf. cbv zeta in Hf.
      apply bind_Err in Hf as [Hf|(u & _ & Hf)].
      - by apply resolve_input_no_rbf in Hf.
      - apply bind_Err in Hf as [Hf|(? & _ & Hf)]; [by apply ensure_Err in Hf as [_ ?]|done]. }
  apply scan_inputs_Ok in Hscan as (us & Hus & Hall & Htot). cbn in Hus, Htot.
  destruct (scan_total scan <? _) eqn:Hsum; [by intros [|]|]. bool_inv.
  intros Hr. assert (scan_utxos scan = utxos) as <-.
  { destruct (scan_rbf scan); destruct Hr as [Hr|Hr]; by simplify_eq. }
  split; [done| |by rewrite Hus, <-Htot]. exists pk, external. split_and!; [done| |by rewrite Hus].
  fold ext. case_bool_decide as He; [left; by simplify_eq|right].
  by apply map_err_Ok in Hext.
Qed.

(** ** Insertion *)

(** What a successful [add_transaction] does. *)
Record inserted (utxo_lookup : UtxoLookup) (now : Z) p R t p' : Prop := {
  ins_new : mp_txs (mp_storage p) !! tx_hash (tx_data t) = None;
  ins_room : storage_len (mp_storage p) < max_size (mp_config p);
  ins_config : mp_config p' = mp_config p;
  ins_effect : exists utxos displaced,
    validated_inputs utxo_lookup t (mp_storage p) utxos /\
    (forall x, x ∈ displaced <-> displaced_by (mp_storage p) R t x) /\
    mp_txs (mp_storage p') =
      <[tx_hash (tx_data t) := mk_MemPoolTx t now (actual_fee (fee_policy (mp_config p)) t utxos)
                                 (Z.of_nat (length (postcard_tx t)))]>
        (filter (fun kv => kv.1 ∉ displaced) (mp_txs (mp_storage p))) /\
    (displaced = [] \/
     rbf_is_disabled (rbf_policy (mp_config p)) = false /\
     replacement_fee (rbf_policy (mp_config p)) (mp_storage p) (mp_tracker p) t <=
       actual_fee (fee_policy (mp_config p)) t utxos);
}.

Lemma add_transaction_clear utxo_lookup now p R t p' :
  pool_ok p R -> add_transaction utxo_lookup now p t = Ok p' ->
  mp_txs (mp_storage p) !! tx_hash (tx_data t) = None /\
  storage_len (mp_storage p) < max_size (mp_config p) /\
  exists utxos displaced s d,
    validated_inputs utxo_lookup t (mp_storage p) utxos /\
    (forall x, x ∈ displaced <-> displaced_by (mp_storage p) R t x) /\
    pool_graph s d (without displaced R) /\
    mp_txs s = filter (fun kv => kv.1 ∉ displaced) (mp_txs (mp_storage p)) /\
    (displaced = [] \/
     rbf_is_disabled (rbf_policy (mp_config p)) = false /\
     replacement_fee (rbf_policy (mp_config p)) (mp_storage p) (mp_tracker p) t <=
       actual_fee (fee_policy (mp_config p)) t utxos) /\
    let storage := storage_insert s (tx_hash (tx_data t)) t (actual_fee (fee_policy (mp_config p)) t utxos) now in
    p' = mk_MemPool storage (tracker_add d (tx_hash (tx_data t)) (parent_hashes storage t)) (mp_config p).
Proof.
  intros [Hg _] Hadd. unfold add_transaction in Hadd. cbv zeta in Hadd.
  unfold storage_exists in Hadd. case_bool_decide as Hex; [done|].
  destruct (max_size _ <=? _) eqn:Hroom in Hadd; [done|]. bool_inv.
  apply bind_Ok in Hadd as (utxos & Hval & Hadd). apply bind_Ok in Hadd as ([s d] & Hclear & Hadd).
  cbn [fst snd] in Hadd. injection Hadd as <-.
  split; [by apply eq_None_not_Some|]. split; [done|].
  assert (validated_inputs utxo_lookup t (mp_storage p) utxos) as Hvi.
  { apply mempool_validate_Ok. destruct (mempool_validate _ _ _) as [us|[]]; simplify_eq; auto. }
  destruct (decide (find_conflicts t (mp_storage p) = ∅)) as [Hn|Hn].
  - rewrite bool_decide_eq_true_2 in Hclear by done. cbn [negb] in Hclear. injection Hclear as <- <-.
    exists utxos, [], (mp_storage p), (mp_tracker p). pose proof (remove_list_graph _ _ _ [] Hg) as [Hg' Htxs'].
    split_and!; [done| |done|done|by left|done].
    intros x. split; [set_solver|]. intros (op & c & Hop & Hc & _).
    assert (c ∈ find_conflicts t (mp_storage p)); [apply find_conflicts_spec; by exists op|set_solver].
  - rewrite bool_decide_eq_false_2 in Hclear by done. cbn [negb] in Hclear.
    destruct (rbf_is_disabled _) eqn:Hrbf in Hclear; [done|]. apply map_err_Ok in Hclear.
    apply (resolve_conflicts_Ok _ _ _ R) in Hclear as (l & Hl & Hg' & Htxs & Hfee); [|done].
    exists utxos, l, s, d. split_and!; [done|done|done|done| |done]. right. split; [done|]. by destruct Hfee.
Qed.

Lemma conflicts_cleared s s' d' R t l :
  storage_ok s -> (forall x, x ∈ l <-> displaced_by s R t x) -> pool_graph s' d' (without l R) ->
  mp_txs s' = filter (fun kv => kv.1 ∉ l) (mp_txs s) ->
  forall op, op ∈ spent_outpoints t -> input_spending_index s' !! op = None.
Proof.
  intros Hs Hl [Hs' _ _ _] Htxs op Hop. destruct (input_spending_index s' !! op) as [c|] eqn:Hc; [|done]. exfalso.
  apply (so_spent _ Hs') in Hc as (e & He & Hin). rewrite Htxs in He. apply map_lookup_filter_Some in He as [He Hn].
  apply Hn, Hl. exists op, c. split_and!; [done| |done]. apply (so_spent _ Hs). by exists e.
Qed.

Lemma add_transaction_ok utxo_lookup now p R t p' :
  pool_ok p R -> no_self_spend t -> add_transaction utxo_lookup now p t = Ok p' ->
  inserted utxo_lookup now p R t p' /\ exists R', pool_ok p' R'.
Proof.
  intros Hp Hself Hadd. apply (add_transaction_clear _ _ _ R) in Hadd
    as (Hnew & Hroom & utxos & l & s & d & Hvi & Hl & Hg & Htxs & Hfee & ->); [|done].
  pose proof (conflicts_cleared _ _ _ _ _ _ (pg_storage _ _ _ (pool_is_graph _ _ Hp)) Hl Hg Htxs) as Hfree.
  assert (mp_txs s !! tx_hash (tx_data t) = None) as Hnew'.
  { rewrite Htxs. apply map_lookup_filter_None. by left. }
  split.
  - split; [done|done|done|]. exists utxos, l. split_and!; [done|done| |done]. cbn. by rewrite Htxs.
  - eexists. split; cbn [mp_storage mp_tracker mp_config]; [by apply add_graph|].
    unfold storage_len in *. cbn [storage_insert mp_txs]. rewrite map_size_insert_None by done.
    assert (size (mp_txs s) <= size (mp_txs (mp_storage p)))%nat; [|lia].
    rewrite Htxs. apply map_subseteq_size, map_filter_subseteq.
Qed.

(** ** Removal *)

Lemma remove_stored_both p l :
  foldl remove_stored_transaction p l =
    mk_MemPool (foldl remove_both (mp_storage p, mp_tracker p) l).1
      (foldl remove_both (mp_storage p, mp_tracker p) l).2 (mp_config p).
Proof.
  revert p. induction l as [|h l IH]; intros p; [by destruct p|]. cbn [foldl]. rewrite IH. done.
Qed.

Lemma remove_list_ok p R l : pool_ok p R ->
  pool_ok (foldl remove_stored_transaction p l) (without l R) /\
  mp_txs (mp_storage (foldl remove_stored_transaction p l)) =
    filter (fun kv => kv.1 ∉ l) (mp_txs (mp_storage p)).
Proof.
  intros [Hg Hb]. rewrite remove_stored_both. destruct (remove_list_graph _ _ _ l Hg) as [Hg' Htxs].
  split; [|done]. split; [done|]. cbn [mp_storage mp_config]. unfold storage_len in *. rewrite Htxs.
  pose proof (map_subseteq_size _ _ (map_filter_subseteq (fun kv => kv.1 ∉ l) (mp_txs (mp_storage p)))). lia.
Qed.

Lemma remove_transaction_ok p R hash : pool_ok p R ->
  exists l, (forall x, x ∈ l <-> x = hash \/ hash ∈ dom (mp_txs (mp_storage p)) /\ tc R hash x) /\
    pool_ok (remove_transaction p hash) (without l R) /\
    mp_txs (mp_storage (remove_transaction p hash)) = filter (fun kv => kv.1 ∉ l) (mp_txs (mp_storage p)).
Proof.
  intros Hp. exists (get_descendants (mp_tracker p) hash ++ [hash]).
  replace (remove_transaction p hash) with
    (foldl remove_stored_transaction p (get_descendants (mp_tracker p) hash ++ [hash])) by (by rewrite foldl_app).
  split; [|by apply remove_list_ok]. intros x. rewrite elem_of_app, list_elem_of_singleton.
  destruct (descendants_spec _ _ R (pg_tracks _ _ _ (pool_is_graph _ _ Hp)) hash) as [_ Hd]. rewrite Hd. tauto.
Qed.

Lemma update_on_block_removes p txs :
  update_on_block p txs = foldl remove_stored_transaction p ((fun t => tx_hash (tx_data t)) <$> txs).
Proof. unfold update_on_block. revert p. induction txs as [|t txs IH]; intros p; [done|]. cbn. apply IH. Qed.

Lemma remove_transactions_ok p R l : pool_ok p R -> exists R', pool_ok (foldl remove_transaction p l) R'.
Proof.
  revert p R. induction l as [|h l IH]; intros p R Hp; [by exists R|]. cbn [foldl].
  destruct (remove_transaction_ok p R h Hp) as (ls & _ & Hp' & _). by eapply IH.
Qed.

(** ** Snapshots *)

(** The transactions of a snapshot have distinct hashes and conflict in nothing. *)
Record snapshot_ok (limit : Z) (data : MemPoolSyncData) : Prop := {
  sn_distinct : NoDup ((fun e => tx_hash (tx_data (sync_transaction e))) <$> sync_entries data);
  sn_self : Forall (fun e => no_self_spend (sync_transaction e)) (sync_entries data);
  sn_disjoint : forall i j a b op, sync_entries data !! i = Some a -> sync_entries data !! j = Some b ->
    op ∈ spent_outpoints (sync_transaction a) -> op ∈ spent_outpoints (sync_transaction b) -> i = j;
  sn_bounded : Z.of_nat (length (sync_entries data)) <= limit;
}.

Definition entry_hash (e : MemPoolSyncEntry) : TransactionHash := tx_hash (tx_data (sync_transaction e)).
Definition entry_tx (e : MemPoolSyncEntry) : MemPoolTx :=
  mk_MemPoolTx (sync_transaction e) (sync_timestamp e) (sync_fee e)
    (Z.of_nat (length (postcard_tx (sync_transaction e)))).

Lemma restore_entries_ok l :
  NoDup (entry_hash <$> l) ->
  (forall i j a b op, l !! i = Some a -> l !! j = Some b ->
    op ∈ spent_outpoints (sync_transaction a) -> op ∈ spent_outpoints (sync_transaction b) -> i = j) ->
  storage_ok (foldl restore_entry TransactionStorage_default l) /\
  mp_txs (foldl restore_entry TransactionStorage_default l) =
    list_to_map ((fun e => (entry_hash e, entry_tx e)) <$> l).
Proof.
  induction l as [|e l IH] using rev_ind; intros Hnd Hdis; [split; [apply storage_ok_empty|done]|].
  rewrite fmap_app in Hnd. apply NoDup_app in Hnd as (Hnd & Hfresh & _).
  destruct IH as [Hok Htxs]; [done| |].
  { intros i j a b op Hi Hj. apply Hdis; by apply lookup_app_l_Some. }
  rewrite foldl_app. cbn [foldl]. set (s := foldl restore_entry _ l) in *.
  assert (forall h x, mp_txs s !! h = Some x -> exists a, a ∈ l /\ h = entry_hash a /\ x = entry_tx a) as Hin.
  { intros h x Hx. rewrite Htxs in Hx. apply elem_of_list_to_map_2, list_elem_of_fmap in Hx as (a & [= -> ->] & Ha).
    by exists a. }
  assert (mp_txs s !! entry_hash e = None) as Hnew.
  { destruct (mp_txs s !! entry_hash e) as [x|] eqn:Hx; [|done]. apply Hin in Hx as (a & Ha & Heq & _).
    exfalso. apply (Hfresh (entry_hash e)); [|set_solver]. rewrite Heq. by apply list_elem_of_fmap_2. }
  split.
  - apply storage_insert_ok; [done|done|done|]. intros op Hop.
    destruct (input_spending_index s !! op) as [h|] eqn:Hs; [|done]. exfalso.
    apply (so_spent _ Hok) in Hs as (x & Hx & Hopx). apply Hin in Hx as (a & Ha & _ & ->).
    apply list_elem_of_lookup in Ha as [i Hi].
    assert (i = length l) as ->; [|by rewrite lookup_ge_None_2 in Hi].
    apply (Hdis i (length l) a e op); [by apply lookup_app_l_Some|by rewrite list_lookup_middle|done|done].
  - cbn [restore_entry storage_insert mp_txs]. rewrite Htxs, fmap_app.
    change ((fun e => (entry_hash e, entry_tx e)) <$> [e]) with [(entry_hash e, entry_tx e)]. apply map_eq. intros h.
    assert (NoDup (((fun e => (entry_hash e, entry_tx e)) <$> l) ++ [(entry_hash e, entry_tx e)]).*1) as Hnd'.
    { rewrite fmap_app, <-list_fmap_compose. apply NoDup_app. split_and!; [done| |apply NoDup_singleton].
      intros x Hx. apply Hfresh in Hx. set_solver. }
    apply option_eq. intros x. rewrite lookup_insert_Some.
    rewrite <-(elem_of_list_to_map (_ ++ _) h x), <-(elem_of_list_to_map _ h x), elem_of_app, list_elem_of_singleton;
      [|by rewrite <-list_fmap_compose|done].
    split.
    + intros [[<- <-]|[_ Hx]]; [by right|by left].
    + intros [Hx|[= -> ->]]; [|by left]. right. split; [|done]. intros <-.
      apply list_elem_of_fmap in Hx as (a & Heq%(f_equal fst) & Ha). apply (Hfresh (entry_hash e)); [|set_solver].
      apply list_elem_of_fmap. by exists a.
Qed.

(** [a] stands before [b] in the list. *)
Definition listed_before {A} (l : list A) (a b : A) : Prop :=
  exists i j, l !! i = Some a /\ l !! j = Some b /\ (i < j)%nat.

Lemma listed_before_snoc {A} (l : list A) (x a b : A) :
  listed_before (l ++ [x]) a b <-> listed_before l a b \/ a ∈ l /\ b = x.
Proof.
  split.
  - intros (i & j & Hi & Hj & Hij). rewrite lookup_snoc_Some in Hi, Hj. destruct Hj as [[_ Hj]|[-> <-]].
    + destruct Hi as [[_ Hi]|[-> _]]; [left; by exists i, j|]. apply lookup_lt_Some in Hj. lia.
    + right. split; [|done]. destruct Hi as [[_ Hi]|[-> _]]; [by eapply list_elem_of_lookup_2|lia].
  - intros [(i & j & Hi & Hj & Hij)|[Ha ->]].
    + exists i, j. split_and!; [by apply lookup_app_l_Some|by apply lookup_app_l_Some|done].
    + apply list_elem_of_lookup in Ha as [i Hi]. exists i, (length l).
      split_and!; [by apply lookup_app_l_Some|by rewrite list_lookup_middle|by apply lookup_lt_Some in Hi].
Qed.

Lemma listed_before_ranked {A} `{EqDecision A} (l : list A) : NoDup l ->
  exists rank : A -> nat, forall a b, listed_before l a b -> (rank a < rank b)%nat.
Proof.
  intros Hnd. exists (fun x => match list_find (x =.) l with Some (i, _) => i | None => 0%nat end).
  assert (forall i x, l !! i = Some x -> list_find (x =.) l = Some (i, x)) as Hfind.
  { intros i x Hi. apply list_find_Some. split_and!; [done|done|]. intros j y Hj Hji <-.
    rewrite (NoDup_lookup l j i x Hnd Hj Hi) in Hji. lia. }
  intros a b (i & j & Hi & Hj & Hij). by rewrite (Hfind i a Hi), (Hfind j b Hj).
Qed.

(** The second loop of [restore_state]: the tracker learns the dependencies whose parent is
    listed before its child. *)
Lemma restore_links_tracks s d l :
  storage_ok s -> NoDup ((fun t => tx_hash (tx_data t)) <$> l) -> Forall no_self_spend l ->
  (forall t, t ∈ l -> exists e, mp_txs s !! tx_hash (tx_data t) = Some e /\ mp_transaction e = t) ->
  tracks (foldl (restore_links s) (tracker_clear d) l) (list_to_set ((fun t => tx_hash (tx_data t)) <$> l))
    (fun a b => depends s a b /\ listed_before ((fun t => tx_hash (tx_data t)) <$> l) a b).
Proof.
  intros Hs. induction l as [|t l IH] using rev_ind; intros Hnd Hself Hin.
  { eapply tracks_proper; [apply tracks_default|done|]. intros a b. split; [done|]. by intros [_ (i & j & Hi & _)]. }
  rewrite fmap_app in Hnd. pose proof (proj1 (NoDup_app _ _) Hnd) as (Hndl & Hfresh & _).
  apply Forall_app in Hself as [Hselfl Hself]. rewrite Forall_singleton in Hself.
  rewrite foldl_app. cbn [foldl]. unfold restore_links at 1. eapply tracks_proper.
  - apply tracks_add; [apply IH; [done|done|set_solver]|]. rewrite elem_of_list_to_set. intros Hh.
    apply (Hfresh _ Hh). set_solver.
  - rewrite fmap_app, list_to_set_app_L. cbn. set_solver.
  - intros a b. rewrite fmap_app. change ((fun t => tx_hash (tx_data t)) <$> [t]) with [tx_hash (tx_data t)].
    rewrite listed_before_snoc, parent_hashes_spec. rewrite elem_of_union, elem_of_singleton, elem_of_list_to_set.
    destruct (Hin t) as (e & He & Het); [set_solver|]. split.
    + intros [[Hd Hb]|(-> & (op & Hop & Ha) & [->|Hal])]; [tauto| |].
      * exfalso. apply (so_created _ Hs) in Ha as (e' & He' & Hop'). apply outpoints_txid in Hop'.
        by apply (Hself op).
      * split; [|by right]. exists e, op. by rewrite Het.
    + intros [Hd [Hb|[Ha ->]]]; [by left|]. right. split; [done|]. split; [|by right].
      destruct Hd as (e' & op & He' & Hop & Hc). exists op. split; [|done]. by simplify_eq.
Qed.

(** What [restore_state] produces. *)
Lemma restore_state_ok dec p data sync p' :
  dec data = Ok sync -> snapshot_ok (max_size (mp_config p)) sync -> restore_state dec p data = Ok p' ->
  mp_config p' = mp_config p /\
  mp_txs (mp_storage p') = list_to_map ((fun e => (entry_hash e, entry_tx e)) <$> sync_entries sync) /\
  pool_ok p' (fun a b => depends (mp_storage p') a b /\ listed_before (entry_hash <$> sync_entries sync) a b).
Proof.
  intros Hdec [Hnd Hself Hdis Hlen] Hr. unfold restore_state in Hr. rewrite Hdec in Hr.
  cbn [map_err mbind result_bind] in Hr. injection Hr as <-. cbn [mp_config mp_storage mp_tracker].
  split; [done|]. change (storage_clear (mp_storage p)) with TransactionStorage_default.
  set (l := sync_entries sync) in *. destruct (restore_entries_ok l Hnd Hdis) as [Hok Htxs].
  split; [done|]. set (s := foldl restore_entry _ l) in *.
  assert ((fun t => tx_hash (tx_data t)) <$> (sync_transaction <$> l) = entry_hash <$> l) as Hh
    by (by rewrite <-list_fmap_compose).
  assert (NoDup ((fun e => (entry_hash e, entry_tx e)) <$> l).*1) as Hnd' by (by rewrite <-list_fmap_compose).
  assert (dom (mp_txs s) = list_to_set (entry_hash <$> l)) as Hdom.
  { rewrite Htxs, dom_list_to_map_L, <-list_fmap_compose. done. }
  split; cbn [mp_storage mp_tracker mp_config].
  - split; [done| |by intros a b [Hd _]|].
    + eapply tracks_proper; [apply restore_links_tracks; [done|by rewrite Hh| |]| |].
      * by apply Forall_fmap.
      * intros t (e & -> & He)%list_elem_of_fmap. exists (entry_tx e). split; [|done]. rewrite Htxs.
        apply elem_of_list_to_map; [done|]. apply list_elem_of_fmap. by exists e.
      * by rewrite Hdom, Hh.
      * intros a b. by rewrite Hh.
    + destruct (listed_before_ranked (entry_hash <$> l) Hnd) as [rank Hrank]. exists rank. naive_solver.
  - rewrite storage_len_dom, Hdom, size_list_to_set by done. by rewrite length_fmap.
Qed.
End PoolFacts.
