(* ===== verification/MempoolProps.v ===== *)
(** MempoolProps: what the mempool promises. Every operation keeps storage, indexes and
    dependency graph consistent; insertion, removal, expiry, blocks and snapshots do what
    their names say; the selection for a block is closed under dependencies. *)
From S2P Require Import Prelude Bytes Types Externals Petgraph GraphWalk Float64 Hashing Transactions MempoolGraph Mempool MempoolFacts.
From stdpp Require Import relations.
#[local] Open Scope Z_scope.

Section PoolProps.
Context {X : Externals} {I : HashIteration} `{!HashIterationLaws} `{G : PetGraphEdit TransactionHash}.
Context `{!PetGraphLaws TransactionHash} `{!PetGraphEditLaws TransactionHash}.
Implicit Types (s : TransactionStorage) (d : DependencyTracker) (hash : TransactionHash) (t : Transaction).
Implicit Types (p : MemPool) (R : TransactionHash -> TransactionHash -> Prop).

(** * Replacement fees *)

(** In range, the load factor 1.0 and the conversions between integers and doubles lose
    nothing. *)
Lemma required_fee_exact policy old_fee :
  let percentage := f64_ceil_u64 (f64_mul (f64_of_uint old_fee) (f64_add f64_one (percentage_increase policy))) in
  let base := Z.max (saturating_add 64 old_fee (base_fee_delta policy)) percentage in
  0 <= base < 2 ^ 53 -> required_fee policy old_fee f64_one = base.
Proof.
  intros percentage base Hb. unfold required_fee. fold percentage. fold base.
  pose proof (f64_of_uint_exact base Hb) as Hr. rewrite (f64_mul_one _ base Hr). by apply f64_ceil_exact.
Qed.

(** As long as the fees stay below 2^53, the policy lets a transaction replace another only
    when it pays the old fee and the configured minimum on top. *)
Theorem replacement_pays_more policy new_fee old_fee :
  0 <= old_fee -> 0 <= base_fee_delta policy ->
  f64_ceil_u64 (f64_mul (f64_of_uint old_fee) (f64_add f64_one (percentage_increase policy))) < 2 ^ 53 ->
  old_fee + base_fee_delta policy < 2 ^ 53 ->
  can_replace policy new_fee old_fee f64_one = true -> old_fee + base_fee_delta policy <= new_fee.
Proof.
  intros Ho Hd Hp Hsum Hc. unfold can_replace in Hc. bool_inv. pose proof (required_fee_exact policy old_fee) as He.
  cbv zeta in He.
  assert (saturating_add 64 old_fee (base_fee_delta policy) = old_fee + base_fee_delta policy) as Hsat.
  { unfold saturating_add. assert (uint_max 64 = 2 ^ 64 - 1) as -> by done. lia. }
  rewrite Hsat in He. rewrite He in Hc by lia. lia.
Qed.

(** The explicit fee of the policy is a floor of the fee a transaction is credited with. *)
Lemma actual_fee_floor policy t utxos : calculate_fee policy t <= actual_fee policy t utxos.
Proof. unfold actual_fee. cbv zeta. lia. Qed.

(** * The pool over time *)

(** The operations of the running node on its pool. *)
Inductive pool_step : MemPool -> MemPool -> Prop :=
| step_add utxo_lookup now p t p' :
    no_self_spend t -> add_transaction utxo_lookup now p t = Ok p' -> pool_step p p'
| step_remove p hash : pool_step p (remove_transaction p hash)
| step_block p txs : pool_step p (update_on_block p txs)
| step_expire now p : pool_step p (cleanup_expired now p).

(** A pool with the snapshots taken of it so far, whatever decoder reads one of them back. *)
Inductive pool_run : MemPool * list MemPoolSyncData -> MemPool * list MemPoolSyncData -> Prop :=
| run_operation p p' saved : pool_step p p' -> pool_run (p, saved) (p', saved)
| run_save now p saved : pool_run (p, saved) (p, get_sync_state now p :: saved)
| run_restore dec p data sync p' saved :
    sync ∈ saved -> dec data = Ok sync -> restore_state dec p data = Ok p' -> pool_run (p, saved) (p', saved).

Lemma remove_transactions_config p l : mp_config (foldl remove_transaction p l) = mp_config p.
Proof.
  revert p. induction l as [|h l IH]; intros p; [done|]. cbn [foldl]. rewrite IH. unfold remove_transaction.
  generalize (get_descendants (mp_tracker p) h). intros ds. revert p. induction ds as [|x ds IHd]; intros p; [done|].
  cbn [foldl]. by rewrite IHd.
Qed.

Lemma update_on_block_config p txs : mp_config (update_on_block p txs) = mp_config p.
Proof.
  unfold update_on_block. revert p. induction txs as [|t txs IH]; intros p; [done|]. cbn [foldl]. by rewrite IH.
Qed.

Lemma pool_step_ok p p' R : pool_ok p R -> pool_step p p' ->
  mp_config p' = mp_config p /\ exists R', pool_ok p' R'.
Proof.
  intros Hp Hstep.
  destruct Hstep as [utxo_lookup now p t p' Hself Hadd|p hash|p txs|now p].
  - pose proof (add_transaction_ok _ _ _ R _ _ Hp Hself Hadd) as [Hi Hok]. split; [apply Hi|done].
  - split; [apply (remove_transactions_config p [hash])|]. by apply (remove_transactions_ok p R [hash]).
  - split; [apply update_on_block_config|]. rewrite update_on_block_removes. eexists. by apply remove_list_ok.
  - split; [apply remove_transactions_config|]. by eapply remove_transactions_ok.
Qed.

Lemma pool_new_ok config : 0 <= max_size config -> pool_ok (MemPool_new config) (fun _ _ => False).
Proof.
  intros Hmax. split; [split|done].
  - apply storage_ok_empty.
  - apply tracks_default.
  - done.
  - by exists (fun _ => 0%nat).
Qed.

(** No stored transaction spends an output of its own hash. *)
Definition selfless p : Prop := map_Forall (fun _ e => no_self_spend (mp_transaction e)) (mp_txs (mp_storage p)).

Lemma selfless_filter p p' (P : TransactionHash * MemPoolTx -> Prop) `{!forall x, Decision (P x)} :
  selfless p -> mp_txs (mp_storage p') = filter P (mp_txs (mp_storage p)) -> selfless p'.
Proof. intros Hp Heq h e He. rewrite Heq in He. apply map_lookup_filter_Some in He as [He _]. by apply (Hp h). Qed.

Lemma remove_transactions_selfless p R l : pool_ok p R -> selfless p -> selfless (foldl remove_transaction p l).
Proof.
  revert p R. induction l as [|h l IH]; intros p R Hp Hs; [done|]. cbn [foldl].
  destruct (remove_transaction_ok p R h Hp) as (ls & _ & Hp' & Htxs).
  eapply IH; [exact Hp'|]. by eapply selfless_filter.
Qed.

Lemma pool_step_selfless p p' R : pool_ok p R -> selfless p -> pool_step p p' -> selfless p'.
Proof.
  intros Hp Hs Hstep. destruct Hstep as [utxo_lookup now p t p' Hself Hadd|p hash|p txs|now p].
  - pose proof (add_transaction_ok _ _ _ R _ _ Hp Hself Hadd) as [[_ _ _ (us & ds & _ & _ & Htxs & _)] _].
    intros h e He. rewrite Htxs in He. apply lookup_insert_Some in He as [[_ <-]|[_ He]]; [done|].
    apply map_lookup_filter_Some in He as [He _]. by apply (Hs h).
  - by apply (remove_transactions_selfless p R [hash]).
  - rewrite update_on_block_removes. destruct (remove_list_ok p R ((fun t => tx_hash (tx_data t)) <$> txs) Hp) as [_ Htxs].
    by eapply selfless_filter.
  - by eapply remove_transactions_selfless.
Qed.

(** No two stored transactions spend the same output. *)
Lemma no_double_spend_storage s h1 h2 e1 e2 op :
  storage_ok s -> mp_txs s !! h1 = Some e1 -> mp_txs s !! h2 = Some e2 ->
  op ∈ spent_outpoints (mp_transaction e1) -> op ∈ spent_outpoints (mp_transaction e2) -> h1 = h2.
Proof.
  intros Hs H1 H2 Hop1 Hop2.
  assert (input_spending_index s !! op = Some h1) by (apply (so_spent _ Hs); by exists e1).
  assert (input_spending_index s !! op = Some h2) by (apply (so_spent _ Hs); by exists e2).
  congruence.
Qed.

(** What a consistent pool saves can be restored. *)
Lemma sync_entries_exact now p :
  storage_ok (mp_storage p) ->
  entry_hash <$> sync_entries (get_sync_state now p) = (hash_iter (mp_txs (mp_storage p))).*1 /\
  (forall i j a b op, sync_entries (get_sync_state now p) !! i = Some a ->
    sync_entries (get_sync_state now p) !! j = Some b ->
    op ∈ spent_outpoints (sync_transaction a) -> op ∈ spent_outpoints (sync_transaction b) -> i = j).
Proof.
  intros Hs. unfold get_sync_state, storage_get_all. cbn [sync_entries]. rewrite <-!list_fmap_compose. split.
  - apply list_fmap_ext. intros i [k e] Hi. apply list_elem_of_lookup_2, elem_of_hash_iter in Hi. cbn.
    by destruct (so_tx _ Hs k e Hi).
  - intros i j a b op Hi Hj Ha Hb. rewrite list_lookup_fmap in Hi, Hj.
    apply fmap_Some in Hi as ([k1 e1] & Hi & ->), Hj as ([k2 e2] & Hj & ->). cbn in Ha, Hb.
    assert (k1 = k2) as ->.
    { apply (no_double_spend_storage (mp_storage p) k1 k2 e1 e2 op); try done;
        apply elem_of_hash_iter; by eapply list_elem_of_lookup_2. }
    eapply (NoDup_lookup (hash_iter (mp_txs (mp_storage p))).*1);
      [apply hash_iter_nodup| |]; by rewrite list_lookup_fmap, ?Hi, ?Hj.
Qed.

Lemma elem_of_sync_entries now p e :
  e ∈ sync_entries (get_sync_state now p) <->
  exists k x, mp_txs (mp_storage p) !! k = Some x /\
    e = mk_MemPoolSyncEntry (mp_transaction x) (mp_fee x) (mp_timestamp x).
Proof.
  unfold get_sync_state, storage_get_all. cbn [sync_entries]. rewrite list_elem_of_fmap. split.
  - intros (x & -> & Hx). apply list_elem_of_fmap in Hx as ([k y] & -> & Hx). apply elem_of_hash_iter in Hx.
    by exists k, y.
  - intros (k & x & Hx & ->). exists x. split; [done|]. apply list_elem_of_fmap. exists (k, x).
    by rewrite elem_of_hash_iter.
Qed.

Lemma own_snapshot_ok now p R :
  pool_ok p R -> selfless p -> snapshot_ok (max_size (mp_config p)) (get_sync_state now p).
Proof.
  intros [[Hs _ _ _] Hb] Hself. destruct (sync_entries_exact now p Hs) as [Hh Hdis]. split.
  - change (NoDup (entry_hash <$> sync_entries (get_sync_state now p))). rewrite Hh. apply hash_iter_nodup.
  - apply Forall_forall. intros e (k & x & Hx & ->)%elem_of_sync_entries. by apply (Hself k).
  - exact Hdis.
  - rewrite <-(length_fmap entry_hash), Hh, length_fmap. unfold storage_len in Hb. by rewrite (Permutation_length (hash_iter_perm _)), length_map_to_list.
Qed.

Lemma restored_selfless limit sync p' :
  snapshot_ok limit sync ->
  mp_txs (mp_storage p') = list_to_map ((fun e => (entry_hash e, entry_tx e)) <$> sync_entries sync) -> selfless p'.
Proof.
  intros [_ Hself _ _] Htxs h x Hx. rewrite Htxs in Hx.
  apply elem_of_list_to_map_2, list_elem_of_fmap in Hx as (e & [= -> ->] & He).
  by apply (proj1 (Forall_forall _ _) Hself).
Qed.

(** The state of a run: a consistent pool, and snapshots that can be restored. *)
Record run_ok (config : MemPoolConfig) (run : MemPool * list MemPoolSyncData) : Prop := {
  rn_config : mp_config run.1 = config;
  rn_pool : exists R, pool_ok run.1 R;
  rn_selfless : selfless run.1;
  rn_saved : Forall (snapshot_ok (max_size config)) run.2;
}.

Lemma pool_run_ok config run run' : run_ok config run -> pool_run run run' -> run_ok config run'.
Proof.
  intros [Hc [R Hp] Hself Hsaved] Hstep.
  destruct Hstep as [p p' saved Hstep|now p saved|dec p data sync p' saved Hin Hdec Hres]; cbn [fst snd] in *.
  - destruct (pool_step_ok p p' R Hp Hstep) as [Hc' Hp'].
    split; cbn [fst snd]; [congruence|done|by eapply pool_step_selfless|done].
  - split; cbn [fst snd]; [done|by exists R|done|]. constructor; [|done]. rewrite <-Hc. by apply (own_snapshot_ok now p R).
  - pose proof (proj1 (Forall_forall _ _) Hsaved sync Hin) as Hsn. rewrite <-Hc in Hsn.
    destruct (restore_state_ok dec p data sync p' Hdec Hsn Hres) as (Hc' & Htxs & Hok).
    split; cbn [fst snd]; [congruence|by eexists|by eapply restored_selfless|done].
Qed.

(** C11: Whatever sequence of insertions, replacements, removals, blocks and expiries the pool
    goes through, with snapshots taken of it at any time and any of them restored at any
    later time, its two indexes describe exactly the stored transactions (so no two of them
    spend one outpoint), its dependency graph has exactly the stored transactions for nodes
    and only real, acyclic dependencies for edges, and the pool is no larger than
    configured. The one condition on what comes in is that no submitted transaction spends
    an output of its own hash; nothing is assumed of the snapshots, which are the run's own
    ([restore_state] checks nothing of one from elsewhere). *)
Theorem mempool_invariant config p saved :
  0 <= max_size config -> rtc pool_run (MemPool_new config, []) (p, saved) ->
  mp_config p = config /\ exists R, pool_ok p R.
Proof.
  intros Hmax Hsteps. assert (run_ok config (p, saved)) as [Hc Hp _ _]; [|done].
  revert Hsteps. refine (rtc_ind_r (run_ok config) _ _ _ _); [|intros r r' _ Hstep Hr; by eapply pool_run_ok].
  split; cbn [fst snd]; [done|eexists; by apply pool_new_ok|by apply map_Forall_empty|constructor].
Qed.

(** * Insertion *)

Lemma saturating_total_le acc l : foldl (saturating_add 64) acc l <= acc + zsum l.
Proof.
  revert acc. induction l as [|x l IH]; intros acc; cbn [foldl]; [unfold zsum; cbn; lia|].
  rewrite zsum_cons. specialize (IH (saturating_add 64 acc x)). unfold saturating_add in *. lia.
Qed.

(** The outputs of a validated transaction are covered by its inputs, when they add up
    below [2 ^ 64]: the sum of the outputs wraps, that of the inputs saturates. *)
Lemma validated_covered utxo_lookup t s utxos :
  validated_inputs utxo_lookup t s utxos ->
  0 <= zsum (value <$> outputs (tx_data t)) < 2 ^ 64 ->
  zsum (value <$> outputs (tx_data t)) <= zsum (utxo_value <$> utxos).
Proof.
  intros [_ _ Hcov] Hsum. unfold sum_u64, wrap in Hcov. rewrite Z.mod_small in Hcov by done.
  pose proof (saturating_total_le 0 (utxo_value <$> utxos)). lia.
Qed.

(** C13: A transaction that does not spend an output of its own hash and is accepted by a
    consistent pool was new and found room, and is a signed payment whose every input
    exists, in the pool or on the chain, and belongs to its signer. The sum of its outputs,
    wrapped to 64 bits, is at most the saturated sum of the outputs its inputs name, one
    named twice counting twice; so outputs that add up below 2^64 are covered by that sum.
    It is stored with the fee computed for it; exactly the transactions it conflicts with
    and those depending on them leave the pool, and only when replacement is enabled and the
    fee reaches the replacement fee. *)
Theorem add_transaction_correct utxo_lookup now p R t p' :
  pool_ok p R -> no_self_spend t -> add_transaction utxo_lookup now p t = Ok p' ->
  inserted utxo_lookup now p R t p' /\
  exists utxos, validated_inputs utxo_lookup t (mp_storage p) utxos /\
    (0 <= zsum (value <$> outputs (tx_data t)) < 2 ^ 64 ->
     zsum (value <$> outputs (tx_data t)) <= zsum (utxo_value <$> utxos)).
Proof.
  intros Hp Hself Hadd. destruct (add_transaction_ok _ _ _ _ _ _ Hp Hself Hadd) as [Hins _].
  split; [done|]. destruct (ins_effect _ _ _ _ _ _ Hins) as (utxos & _ & Hvi & _). exists utxos.
  split; [done|]. by apply (validated_covered utxo_lookup t (mp_storage p)).
Qed.

Lemma first_conflicting_exists s t c : c ∈ find_conflicts t s ->
  exists op, first_conflicting_outpoint s t = Some op /\ op ∈ spent_outpoints t /\
    is_Some (input_spending_index s !! op).
Proof.
  intros (op & Hop & Hc)%find_conflicts_spec. unfold first_conflicting_outpoint, get_spending_tx.
  destruct (filter _ _) as [|x l] eqn:Hf.
  - exfalso. apply (not_elem_of_nil op). rewrite <-Hf. apply list_elem_of_filter. by rewrite Hc.
  - exists x. split; [done|]. assert (x ∈ x :: l) as Hx by left. rewrite <-Hf in Hx.
    by apply list_elem_of_filter in Hx as [? ?].
Qed.

(** With replacement disabled, a valid new transaction that spends an output a stored
    transaction already spends is refused, the error naming such an output; the fallback
    to a duplicate error is never taken. *)
Theorem double_spend_refused utxo_lookup now p t c utxos :
  rbf_is_disabled (rbf_policy (mp_config p)) = true ->
  mp_txs (mp_storage p) !! tx_hash (tx_data t) = None ->
  storage_len (mp_storage p) < max_size (mp_config p) ->
  mempool_validate utxo_lookup t (mp_storage p) = Err (PotentialRbf utxos) ->
  c ∈ find_conflicts t (mp_storage p) ->
  exists op, add_transaction utxo_lookup now p t = Err (DoubleSpend op) /\ op ∈ spent_outpoints t /\
    is_Some (input_spending_index (mp_storage p) !! op).
Proof.
  intros Hrbf Hnew Hroom Hval Hc. destruct (first_conflicting_exists _ _ _ Hc) as (op & Hfirst & Hop).
  exists op. split; [|done]. unfold add_transaction. cbv zeta. unfold storage_exists.
  rewrite bool_decide_eq_false_2 by (rewrite Hnew; by intros []).
  destruct (max_size _ <=? _) eqn:Hlt; [bool_inv; lia|]. rewrite Hval. cbn [mbind result_bind].
  rewrite bool_decide_eq_false_2 by set_solver. cbn [negb]. by rewrite Hrbf, Hfirst.
Qed.

(** A pool that is full, or already holds the transaction, refuses it before looking at
    anything else. *)
Theorem add_transaction_guards utxo_lookup now p t :
  (is_Some (mp_txs (mp_storage p) !! tx_hash (tx_data t)) ->
   add_transaction utxo_lookup now p t = Err (DuplicateTransaction (tx_hash (tx_data t)))) /\
  (mp_txs (mp_storage p) !! tx_hash (tx_data t) = None ->
   max_size (mp_config p) <= storage_len (mp_storage p) ->
   add_transaction utxo_lookup now p t = Err (PoolFull (max_size (mp_config p)))).
Proof.
  unfold add_transaction, storage_exists. cbv zeta. split.
  - intros Hs. by rewrite bool_decide_eq_true_2.
  - intros Hn Hfull. rewrite bool_decide_eq_false_2 by (rewrite Hn; by intros []).
    destruct (max_size _ <=? _) eqn:Hlt; [done|bool_inv; lia].
Qed.

(** * Removal *)

(** Removing a transaction removes exactly it and everything that depends on it, directly
    or not, and keeps the rest as it was. *)
Theorem remove_transaction_exact p R hash h :
  pool_ok p R ->
  mp_txs (mp_storage (remove_transaction p hash)) !! h =
    if bool_decide (h ∈ hash :: get_descendants (mp_tracker p) hash) then None else mp_txs (mp_storage p) !! h.
Proof.
  intros Hp. pose proof (remove_list_ok p R (get_descendants (mp_tracker p) hash ++ [hash]) Hp) as [_ Htxs].
  rewrite foldl_app in Htxs. cbn [foldl] in Htxs. unfold remove_transaction. rewrite Htxs, map_lookup_filter.
  case_bool_decide as Hin; destruct (mp_txs (mp_storage p) !! h); cbn; try done.
  - rewrite option_guard_False; [done|]. set_solver.
  - rewrite option_guard_True; [done|]. set_solver.
Qed.

Lemma tc_tracked d hashes R a b : tracks d hashes R -> tc R a b -> a ∈ hashes /\ b ∈ hashes.
Proof.
  intros Ht HR. induction HR as [x y Hxy|x y z Hxy _ [_ IH]]; [by apply (tracks_ends _ _ _ Ht)|].
  apply (tracks_ends _ _ _ Ht) in Hxy. tauto.
Qed.

Lemma remove_transaction_rtc p R hash : pool_ok p R ->
  exists l, (forall x, x ∈ l <-> rtc R hash x) /\ pool_ok (remove_transaction p hash) (without l R) /\
    mp_txs (mp_storage (remove_transaction p hash)) = filter (fun kv => kv.1 ∉ l) (mp_txs (mp_storage p)).
Proof.
  intros Hp. destruct (remove_transaction_ok p R hash Hp) as (l & Hl & Hp' & Htxs). exists l.
  split; [|done]. intros x. rewrite Hl, rtc_tc. pose proof (pg_tracks _ _ _ (pool_is_graph _ _ Hp)) as Ht.
  split; [intros [->|[_ Hx]]; auto|]. intros [->|Hx]; [by left|right]. split; [|done].
  by apply (tc_tracked _ _ _ _ _ Ht Hx).
Qed.

Lemma rtc_without R l hash x y : (forall x, x ∈ l <-> rtc R hash x) -> y ∉ l -> rtc R x y -> rtc (without l R) x y.
Proof.
  intros Hl Hy HR. induction HR as [x|x y z Hxy Hyz IH]; [done|].
  assert (forall w, rtc R w z -> w ∉ l) as Hw.
  { intros w Hwz Hwl. apply Hy, Hl. apply Hl in Hwl. by etrans. }
  apply rtc_l with y; [|by apply IH]. split; [done|]. split; apply Hw; [by apply rtc_l with y|done].
Qed.

(** Removing a list of transactions, each with what depends on it. *)
Lemma remove_transactions_exact p R l : pool_ok p R ->
  exists removed : list TransactionHash, (forall x, x ∈ removed <-> exists e, e ∈ l /\ rtc R e x) /\
    mp_txs (mp_storage (foldl remove_transaction p l)) =
      filter (fun kv => kv.1 ∉ removed) (mp_txs (mp_storage p)).
Proof.
  revert p R. induction l as [|h l IH]; intros p R Hp.
  { exists []. split; [set_solver|]. cbn [foldl]. symmetry. apply map_filter_id. set_solver. }
  cbn [foldl]. destruct (remove_transaction_rtc p R h Hp) as (l1 & Hl1 & Hp1 & Htxs1).
  destruct (IH _ _ Hp1) as (l2 & Hl2 & Htxs2). exists (l1 ++ l2). split.
  - intros x. rewrite elem_of_app, Hl2. split.
    + intros [Hx|(e & He & HR)]; [exists h; split; [left|by apply Hl1]|].
      exists e. split; [by right|]. eapply rtc_subrel; [|exact HR]. by intros ? ? [? _].
    + intros (e & [->|He]%elem_of_cons & HR); [left; by apply Hl1|].
      destruct (decide (x ∈ l1)) as [|Hn]; [by left|right]. exists e. split; [done|]. by apply (rtc_without R l1 h).
  - rewrite Htxs2, Htxs1. apply map_eq. intros k. rewrite !map_lookup_filter.
    destruct (mp_txs (mp_storage p) !! k); cbn; [|done]. repeat case_guard; set_solver.
Qed.

(** The cleanup removes the transactions older than the expiry time together with
    everything that depends on them, and nothing else. *)
Theorem cleanup_expired_exact now p R h :
  pool_ok p R ->
  is_Some (mp_txs (mp_storage (cleanup_expired now p)) !! h) <->
    is_Some (mp_txs (mp_storage p) !! h) /\
    ~ exists x e, mp_txs (mp_storage p) !! x = Some e /\
        expiry_time (mp_config p) < saturating_sub now (mp_timestamp e) /\ rtc R x h.
Proof.
  intros Hp. unfold cleanup_expired. cbv zeta.
  match goal with |- context [foldl remove_transaction p ?l] => set (expired := l) end.
  destruct (remove_transactions_exact p R expired Hp) as (removed & Hrem & ->).
  assert (forall x, x ∈ expired <-> exists e, mp_txs (mp_storage p) !! x = Some e /\
            expiry_time (mp_config p) < saturating_sub now (mp_timestamp e)) as Hexp.
  { intros x. unfold expired, storage_get_all. rewrite list_elem_of_omap. split.
    - intros (e & Hin & He). apply list_elem_of_fmap in Hin as ([k e'] & -> & Hin).
      apply elem_of_hash_iter in Hin. cbn in He. destruct (_ <? _) eqn:Hlt; [|done]. bool_inv.
      injection He as <-. exists e'. split; [|done].
      destruct (so_tx _ (pg_storage _ _ _ (pool_is_graph _ _ Hp)) k e' Hin) as [-> _]. done.
    - intros (e & He & Hlt). exists e. split.
      + apply list_elem_of_fmap. exists (x, e). split; [done|]. by apply elem_of_hash_iter.
      + destruct (_ <? _) eqn:Hlt'; [|bool_inv; lia]. f_equal.
        by destruct (so_tx _ (pg_storage _ _ _ (pool_is_graph _ _ Hp)) x e He). }
  split.
  - intros [v Hv]. apply map_lookup_filter_Some in Hv as [Hv Hn]. split; [by eexists|].
    intros (x & e & He & Hlt & HR). apply Hn, Hrem. exists x. split; [|done]. apply Hexp. by exists e.
  - intros [[v Hv] Hn]. exists v. apply map_lookup_filter_Some. split; [done|]. intros Hin.
    apply Hrem in Hin as (x & (e & He & Hlt)%Hexp & HR). apply Hn. by exists x, e.
Qed.

(** A block takes exactly its own transactions out of the pool; those that depend on them
    stay. *)
Theorem update_on_block_exact p R txs :
  pool_ok p R ->
  mp_txs (mp_storage (update_on_block p txs)) =
    filter (fun kv => kv.1 ∉ (fun t => tx_hash (tx_data t)) <$> txs) (mp_txs (mp_storage p)).
Proof. intros Hp. rewrite update_on_block_removes. by apply (remove_list_ok p R). Qed.

(** * Snapshots *)

(** Restoring a snapshot that a consistent pool took of itself, in any pool and through any
    decoder that reads the snapshot back, succeeds and brings back the same transactions,
    fees, times and indexes. *)
Theorem snapshot_roundtrip dec bytes now p R q :
  dec bytes = Ok (get_sync_state now p) -> pool_ok p R ->
  exists q', restore_state dec q bytes = Ok q' /\
    mp_storage q' = mp_storage p /\ mp_config q' = mp_config q.
Proof.
  intros Hcodec [[Hs _ _ _] _]. unfold restore_state. rewrite Hcodec. cbn [map_err mbind result_bind]. eexists.
  split; [done|]. cbn [mp_storage mp_config]. split; [|done].
  change (storage_clear (mp_storage q)) with TransactionStorage_default.
  destruct (sync_entries_exact now p Hs) as [Hh Hdis].
  assert (NoDup (entry_hash <$> sync_entries (get_sync_state now p))) as Hnd by (rewrite Hh; apply hash_iter_nodup).
  destruct (restore_entries_ok _ Hnd Hdis) as [Hok Htxs].
  apply storage_ok_ext; [done|done|]. rewrite Htxs. apply map_eq. intros h. apply option_eq. intros x.
  rewrite <-elem_of_list_to_map by (rewrite <-list_fmap_compose; exact Hnd).
  rewrite list_elem_of_fmap. setoid_rewrite elem_of_sync_entries. split.
  - intros (e & Heq & k & y & Hy & ->). destruct (so_tx _ Hs k y Hy) as [Hk Hsz].
    unfold entry_hash, entry_tx in Heq. cbn in Heq. rewrite Hk, <-Hsz in Heq. injection Heq as -> ->. by destruct y.
  - intros Hx. destruct (so_tx _ Hs h x Hx) as [Hk Hsz]. eexists. split; [|by exists h, x].
    unfold entry_hash, entry_tx. cbn. rewrite Hk, <-Hsz. by destruct x.
Qed.

(** * Selection *)

(** The stored transactions under some hashes. *)
Definition stored s (hs : list TransactionHash) : list Transaction :=
  omap (fun h => mp_transaction <$> mp_txs s !! h) hs.

Lemma stored_length s hs : (forall h, h ∈ hs -> is_Some (mp_txs s !! h)) -> length (stored s hs) = length hs.
Proof.
  induction hs as [|h hs IH]; intros Hin; [done|]. destruct (Hin h) as [e He]; [by left|].
  unfold stored. cbn [omap list_omap]. rewrite He. cbn. f_equal. apply IH. set_solver.
Qed.

Lemma take_packages s package hs :
  NoDup package -> (forall h, h ∈ package -> h ∉ hs) ->
  foldl (take_package s) (list_to_set hs, stored s hs) package =
    (list_to_set (hs ++ package), stored s (hs ++ package)).
Proof.
  revert hs. induction package as [|h l IH]; intros hs Hnd Hfresh; [by rewrite app_nil_r|].
  apply NoDup_cons in Hnd as [Hh Hnd]. cbn [foldl]. unfold take_package at 2. cbn [fst snd].
  rewrite bool_decide_eq_false_2 by (rewrite elem_of_list_to_set; apply Hfresh; by left).
  replace (hs ++ h :: l) with ((hs ++ [h]) ++ l) by (by rewrite <-app_assoc). rewrite <-IH; [|done|set_solver]. f_equal.
  rewrite list_to_set_app_L. cbn. f_equal; [set_solver|]. unfold storage_get, stored.
  rewrite omap_app. cbn. destruct (mp_txs s !! h); cbn; [done|by rewrite app_nil_r].
Qed.

Section Select.
Context (p : MemPool) (R : TransactionHash -> TransactionHash -> Prop) (Hp : pool_ok p R).

(** A set of stored transactions with everything they depend on. *)
Record closed_selection (hs : list TransactionHash) : Prop := {
  cs_nodup : NoDup hs;
  cs_stored : forall h, h ∈ hs -> is_Some (mp_txs (mp_storage p) !! h);
  cs_closed : forall a b, R a b -> b ∈ hs -> a ∈ hs;
}.

Lemma closed_size hs : closed_selection hs -> (length hs <= size (mp_txs (mp_storage p)))%nat.
Proof.
  intros [Hnd Hst _]. rewrite <-size_dom, <-(size_list_to_set (C := gset TransactionHash) hs) by done.
  apply subseteq_size. intros h Hh. apply elem_of_dom, Hst. by apply elem_of_list_to_set in Hh.
Qed.

Lemma package_closed h hs :
  closed_selection hs -> is_Some (mp_txs (mp_storage p) !! h) ->
  closed_selection (hs ++ filter (fun x => x ∉ hs) (get_with_ancestors (mp_tracker p) h)).
Proof.
  intros [Hnd Hst Hcl] Hh. pose proof (pg_tracks _ _ _ (pool_is_graph _ _ Hp)) as Ht.
  destruct (with_ancestors_spec _ _ R Ht h) as (Hnd' & _ & Hin); [by apply elem_of_dom|]. split.
  - apply NoDup_app. split_and!; [done| |by apply NoDup_filter]. intros x Hx Hf. apply list_elem_of_filter in Hf. tauto.
  - intros x [Hx|Hx]%elem_of_app; [by apply Hst|]. apply list_elem_of_filter in Hx as [_ Hx].
    apply Hin in Hx as [Hx _]. by apply elem_of_dom.
  - intros a b HR [Hb|Hb]%elem_of_app; apply elem_of_app; [left; by apply (Hcl a b)|].
    destruct (decide (a ∈ hs)) as [|Hn]; [by left|right]. apply list_elem_of_filter. split; [done|].
    apply list_elem_of_filter in Hb as [_ Hb]. apply Hin in Hb as [Hb Hbh]. apply Hin. split.
    + by apply (tracks_ends _ _ _ Ht a b).
    + by apply rtc_l with b.
Qed.

Lemma select_packages_spec limit ranked hs :
  closed_selection hs -> (length hs <= limit)%nat ->
  (forall x, x ∈ ranked.*1 -> is_Some (mp_txs (mp_storage p) !! x)) ->
  exists hs', closed_selection hs' /\ (length hs' <= limit)%nat /\ hs ⊆ hs' /\
    select_packages p limit ranked (list_to_set hs) (stored (mp_storage p) hs) = stored (mp_storage p) hs' /\
    ((size (mp_txs (mp_storage p)) <= limit)%nat -> forall x, x ∈ ranked.*1 -> x ∈ hs').
Proof.
  revert hs. induction ranked as [|[h rate] ranked IH]; intros hs Hcs Hlen Hst; cbn [select_packages].
  { exists hs. split_and!; set_solver. }
  assert (forall x, x ∈ ranked.*1 -> is_Some (mp_txs (mp_storage p) !! x)) as Hst' by (intros x Hx; apply Hst; by right).
  case_bool_decide as Hsel.
  { destruct (IH hs Hcs Hlen Hst') as (hs' & Hcs' & Hlen' & Hsub & Heq & Hall). exists hs'.
    split_and!; [done|done|done|done|]. intros Hsz x [->|Hx]%elem_of_cons; [set_solver|by apply Hall]. }
  cbv zeta. replace (filter (fun h0 => h0 ∉ (list_to_set hs : gset _)) (get_with_ancestors (mp_tracker p) h))
    with (filter (fun h0 => h0 ∉ hs) (get_with_ancestors (mp_tracker p) h))
    by (apply list_filter_iff; intros x; by rewrite elem_of_list_to_set).
  pose proof (package_closed h hs Hcs (Hst h ltac:(by left))) as Hcs1.
  destruct (with_ancestors_spec _ _ R (pg_tracks _ _ _ (pool_is_graph _ _ Hp)) h) as (Hnda & Hlast & _);
    [apply elem_of_dom, Hst; by left|].
  set (package := filter _ _) in *. rewrite stored_length by apply Hcs.
  assert (h ∈ hs ++ package) as Hh.
  { apply elem_of_app. right. apply list_elem_of_filter. split; [set_solver|]. by apply last_Some_elem_of. }
  destruct (limit - length hs <? length package)%nat eqn:Hfit.
  - apply Nat.ltb_lt in Hfit. destruct (IH hs Hcs Hlen Hst') as (hs' & Hcs' & Hlen' & Hsub & Heq & Hall).
    exists hs'. split_and!; [done|done|done|done|]. intros Hsz. pose proof (closed_size _ Hcs1) as Hc.
    rewrite length_app in Hc. lia.
  - apply Nat.ltb_ge in Hfit. rewrite take_packages; [| |intros x Hx; by apply list_elem_of_filter in Hx as [? _]].
    2:{ by apply NoDup_filter. }
    rewrite stored_length by apply Hcs1. assert (length (hs ++ package) <= limit)%nat as Hlen1 by (rewrite length_app; lia).
    destruct (length (hs ++ package) =? limit)%nat eqn:Hfull.
    + apply Nat.eqb_eq in Hfull. exists (hs ++ package). split_and!; [done|done|set_solver|done|].
      intros Hsz x Hx. apply Hst in Hx. apply elem_of_dom in Hx.
      assert (list_to_set (hs ++ package) = dom (mp_txs (mp_storage p))) as Heq.
      { apply set_subseteq_size_eq.
        - intros y Hy. apply elem_of_dom, Hcs1. by apply elem_of_list_to_set in Hy.
        - rewrite size_list_to_set by apply Hcs1. rewrite size_dom. lia. }
      rewrite <-Heq in Hx. by apply elem_of_list_to_set in Hx.
    + destruct (IH _ Hcs1 Hlen1 Hst') as (hs' & Hcs' & Hlen' & Hsub & Heq & Hall). exists hs'.
      split_and!; [done|done|set_solver|done|]. intros Hsz x [->|Hx]%elem_of_cons; [by apply Hsub|by apply Hall].
Qed.
End Select.

Lemma stored_all s hs :
  NoDup hs -> (forall h, h ∈ hs <-> is_Some (mp_txs s !! h)) ->
  stored s hs ≡ₚ mp_transaction <$> storage_get_all s.
Proof.
  intros Hnd Hin. unfold stored, storage_get_all. transitivity (stored s (hash_iter (mp_txs s)).*1).
  - apply omap_Permutation, NoDup_Permutation; [done|apply hash_iter_nodup|]. intros h. rewrite Hin, list_elem_of_fmap.
    split; [intros [e He]; exists (h, e); split; [done|by apply elem_of_hash_iter]|].
    intros ([k e] & -> & He). apply elem_of_hash_iter in He. by exists e.
  - unfold stored. assert (forall h e, (h, e) ∈ hash_iter (mp_txs s) -> mp_txs s !! h = Some e) as Hl
      by (intros h e; apply elem_of_hash_iter).
    induction (hash_iter (mp_txs s)) as [|[h e] l IH]; [done|]. cbn [omap list_omap fmap list_fmap fst snd].
    rewrite (Hl h e) by left. cbn. constructor. apply IH. set_solver.
Qed.

Lemma best_transactions_selection p R limit :
  pool_ok p R ->
  exists hs, get_best_transactions p limit = stored (mp_storage p) hs /\ closed_selection p R hs /\
    (length (get_best_transactions p limit) <= limit)%nat /\
    ((size (mp_txs (mp_storage p)) <= limit)%nat ->
       get_best_transactions p limit ≡ₚ mp_transaction <$> storage_get_all (mp_storage p)).
Proof.
  intros Hp. assert (closed_selection p R []) as Hnil by (split; [constructor|set_solver|set_solver]).
  unfold get_best_transactions. destruct (limit =? 0)%nat eqn:Hlim.
  - apply Nat.eqb_eq in Hlim as ->. exists []. split_and!; [done|done|done|].
    intros Hsz. assert (mp_txs (mp_storage p) = ∅) as Hempty by (apply map_size_empty_inv; lia).
    apply (stored_all (mp_storage p) []); [constructor|]. intros h. rewrite Hempty, lookup_empty.
    split; [set_solver|by intros []].
  - cbv zeta. pose proof (pool_is_graph _ _ Hp) as Hg. pose proof (pg_tracks _ _ _ Hg) as Ht.
    destruct (pg_acyclic _ _ _ Hg) as [rank Hrank].
    destruct (topological_order_spec _ _ R Ht rank Hrank) as (_ & Hord & _).
    match goal with |- context [select_packages p limit ?l] => set (ranked := l) end.
    assert (forall h, h ∈ ranked.*1 <-> is_Some (mp_txs (mp_storage p) !! h)) as Hranked.
    { intros h. unfold ranked. rewrite merge_sort_Permutation, <-list_fmap_compose, <-elem_of_dom, <-Hord.
      rewrite list_elem_of_fmap. split; [intros (? & -> & ?); done|]. intros Hh. by exists h. }
    destruct (select_packages_spec p R Hp limit ranked [] Hnil) as (hs & Hcs & Hlen & _ & Heq & Hall);
      [cbn; lia|intros x; apply Hranked|].
    change (list_to_set []) with (∅ : gset TransactionHash) in Heq. change (stored _ []) with (@nil Transaction) in Heq.
    exists hs. rewrite Heq, stored_length by apply Hcs. split_and!; [done|done|done|]. intros Hsz.
    apply stored_all; [apply Hcs|]. intros h. split; [apply Hcs|]. intros Hh. by apply Hall, Hranked.
Qed.
(** The selection for a block holds at most [limit] stored transactions, none twice, and
    with each of them every transaction it depends on; a limit no smaller than the pool
    selects the whole pool. *)
Theorem best_transactions_closed p R limit :
  pool_ok p R ->
  exists hs, get_best_transactions p limit = stored (mp_storage p) hs /\ closed_selection p R hs /\
    (length (get_best_transactions p limit) <= limit)%nat /\
    ((size (mp_txs (mp_storage p)) <= limit)%nat ->
       get_best_transactions p limit ≡ₚ mp_transaction <$> storage_get_all (mp_storage p)).
Proof. apply best_transactions_selection. Qed.
End PoolProps.

(** * Examples *)

Module Examples.
Import Toy ListGraph MapOrder.

(** The worked values of the replacement policy's tests. *)
Example required_fee_default : required_fee RbfPolicy_default 5000 f64_one = 6000.
Proof. vm_compute. reflexivity. Qed.
Example required_fee_loaded :
  required_fee RbfPolicy_default 5000 (f64_div (f64_of_uint 3) (f64_of_uint 2)) = 9000.
Proof. vm_compute. reflexivity. Qed.

(** Above 2^53 the conversion to double rounds the requirement down to the old fee. *)
Lemma required_fee_rounds_down : can_replace (mk_RbfPolicy 1 f64_zero) (2 ^ 53) (2 ^ 53) f64_one = true.
Proof. vm_compute. reflexivity. Qed.

Lemma replacement_pays_more_witness : 5000 + base_fee_delta RbfPolicy_default <= 6000.
Proof. apply (replacement_pays_more RbfPolicy_default 6000 5000); vm_compute; try reflexivity; discriminate. Defined.

Definition pool_owner : AccountAddress := from_public_key (X := externals) Byte.x07.
Definition pool_stranger : AccountAddress := from_public_key (X := externals) Byte.x08.
Definition chain_outpoint (n : Z) : OutPoint := mk_OutPoint (tx_hash (X := externals) (mk_TransactionData n Payment [] [])) 0.

(** The chain owes the owner one output of [100000] per outpoint asked for. *)
Definition pool_lookup : UtxoLookup :=
  fun ops => Ok (list_to_map ((fun op => (op, mk_UTXO (txid op) (vout op) 100000 pool_owner)) <$> ops)).

Definition pool_pay (ins : list OutPoint) (values : list Z) : Transaction :=
  sign (X := externals)
    (mk_TransactionData 1 Payment ((fun op => mk_TransactionIn op 0) <$> ins) ((fun v => mk_TransactionOut v pool_owner) <$> values))
    Byte.x07.
Definition pay_hash (t : Transaction) : TransactionHash := tx_hash (X := externals) (tx_data t).

Definition pool_parent : Transaction := pool_pay [chain_outpoint 1] [60000; 30000].
Definition pool_child : Transaction := pool_pay [mk_OutPoint (pay_hash pool_parent) 0] [50000].

Definition pool : Type := MemPool (G := @list_graph_edit TransactionHash).
Notation pool_add := (@add_transaction externals map_order list_graph list_graph_edit pool_lookup 1000).
Definition pool_of (r : result MemPoolError pool) (p : pool) : pool := match r with Ok q => q | Err _ => p end.
Definition pool_empty : pool := MemPool_new MemPoolConfig_default.
Definition pool_one : pool := pool_of (pool_add pool_empty pool_parent) pool_empty.
Definition pool_two : pool := pool_of (pool_add pool_one pool_child) pool_empty.

Lemma pool_adds : is_ok (pool_add pool_empty pool_parent) && is_ok (pool_add pool_one pool_child) = true.
Proof. vm_compute. reflexivity. Qed.

Lemma pool_of_ok r q : is_ok r = true -> r = Ok (pool_of r q).
Proof. destruct r; [reflexivity|discriminate]. Qed.

Lemma pool_add_one : pool_add pool_empty pool_parent = Ok pool_one.
Proof. unfold pool_one. apply pool_of_ok. exact (proj1 (andb_prop _ _ pool_adds)). Qed.

Lemma pool_add_two : pool_add pool_one pool_child = Ok pool_two.
Proof. unfold pool_two. apply pool_of_ok. exact (proj2 (andb_prop _ _ pool_adds)). Qed.

Lemma no_self_parent : no_self_spend (X := externals) pool_parent.
Proof.
  assert (Forall (fun op => txid op <> pay_hash pool_parent) (spent_outpoints pool_parent)) as Hf
    by (apply (bool_decide_unpack _); vm_compute; exact I).
  intros op Hop. exact (proj1 (Forall_forall _ _) Hf op Hop).
Qed.

Lemma no_self_child : no_self_spend (X := externals) pool_child.
Proof.
  assert (Forall (fun op => txid op <> pay_hash pool_child) (spent_outpoints pool_child)) as Hf
    by (apply (bool_decide_unpack _); vm_compute; exact I).
  intros op Hop. exact (proj1 (Forall_forall _ _) Hf op Hop).
Qed.

Notation pool_good := (@pool_ok externals list_graph list_graph_edit).
Notation pool_stepped := (@pool_step externals map_order list_graph list_graph_edit).

Lemma pool_steps : pool_stepped pool_empty pool_one /\ pool_stepped pool_one pool_two.
Proof.
  split.
  - exact (step_add pool_lookup 1000 pool_empty pool_parent pool_one no_self_parent pool_add_one).
  - exact (step_add pool_lookup 1000 pool_one pool_child pool_two no_self_child pool_add_two).
Qed.

Lemma pool_empty_good : pool_good pool_empty (fun _ _ => False).
Proof. apply (pool_new_ok (X := externals) (G := list_graph_edit)). discriminate. Qed.

Lemma pool_one_good : exists R, pool_good pool_one R.
Proof.
  exact (proj2 (@pool_step_ok externals map_order map_order_laws list_graph list_graph_edit list_graph_laws
    list_graph_edit_laws pool_empty pool_one _ pool_empty_good (proj1 pool_steps))).
Qed.

Lemma pool_two_good : exists R, pool_good pool_two R.
Proof.
  destruct pool_one_good as [R HR].
  exact (proj2 (@pool_step_ok externals map_order map_order_laws list_graph list_graph_edit list_graph_laws
    list_graph_edit_laws pool_one pool_two R HR (proj2 pool_steps))).
Qed.

Notation pool_ran := (@pool_run externals map_order list_graph list_graph_edit).
Notation pool_saved := (@get_sync_state map_order list_graph list_graph_edit 2000).

(** The snapshot taken after the first payment, restored after the second. *)
Definition pool_decoder (_ : list byte) : result string MemPoolSyncData := Ok (pool_saved pool_one).
Definition pool_revived : pool :=
  pool_of (@restore_state externals list_graph list_graph_edit pool_decoder pool_two []) pool_empty.

Lemma pool_revives :
  @restore_state externals list_graph list_graph_edit pool_decoder pool_two [] = Ok pool_revived.
Proof. reflexivity. Qed.

Lemma pool_runs : rtc pool_ran (pool_empty, []) (pool_revived, [pool_saved pool_one]).
Proof.
  apply rtc_l with (pool_one, []); [exact (run_operation _ _ _ (proj1 pool_steps))|].
  apply rtc_l with (pool_one, [pool_saved pool_one]); [exact (run_save 2000 pool_one [])|].
  apply rtc_l with (pool_two, [pool_saved pool_one]); [exact (run_operation _ _ _ (proj2 pool_steps))|].
  apply rtc_once. apply (run_restore pool_decoder pool_two [] (pool_saved pool_one));
    [left|exact eq_refl|exact pool_revives].
Qed.

Lemma mempool_invariant_witness : exists R, pool_good pool_revived R.
Proof.
  exact (proj2 (@mempool_invariant externals map_order map_order_laws list_graph list_graph_edit list_graph_laws
    list_graph_edit_laws MemPoolConfig_default pool_revived [pool_saved pool_one]
    (fun e => match e with eq_refl => I end) pool_runs)).
Defined.

Lemma add_transaction_correct_witness :
  exists R, @inserted externals map_order list_graph list_graph_edit pool_lookup 1000 pool_one R pool_child pool_two.
Proof.
  destruct pool_one_good as [R HR]. exists R.
  exact (proj1 (@add_transaction_correct externals map_order map_order_laws list_graph list_graph_edit list_graph_laws
    list_graph_edit_laws pool_lookup 1000 pool_one R pool_child pool_two HR no_self_child
    pool_add_two)).
Defined.

Lemma remove_transaction_exact_witness :
  mp_txs (mp_storage (@remove_transaction list_graph list_graph_edit pool_two (pay_hash pool_parent)))
    !! pay_hash pool_parent = None.
Proof.
  destruct pool_two_good as [R HR].
  rewrite (@remove_transaction_exact externals map_order map_order_laws list_graph list_graph_edit list_graph_laws
    list_graph_edit_laws pool_two R (pay_hash pool_parent) (pay_hash pool_parent) HR).
  rewrite bool_decide_eq_true_2 by (apply elem_of_cons; left; exact eq_refl). exact eq_refl.
Defined.

Lemma pool_expires : 3600 < saturating_sub 100000 1000.
Proof. reflexivity. Qed.

(** Long after, nothing is left of a consistent pool with the default expiry time whose
    entries are of time [1000]. *)
Lemma cleanup_expired_exact_witness :
  ~ is_Some (mp_txs (mp_storage (@cleanup_expired externals map_order list_graph list_graph_edit 100000 pool_two))
      !! pay_hash pool_child).
Proof.
  destruct pool_two_good as [R HR]. intros Hs.
  apply (@cleanup_expired_exact externals map_order map_order_laws list_graph list_graph_edit list_graph_laws
    list_graph_edit_laws 100000 pool_two R (pay_hash pool_child) HR) in Hs as [[e He] Hn].
  apply Hn. exists (pay_hash pool_child), e. split; [exact He|].
  assert (match mp_txs (mp_storage pool_two) !! pay_hash pool_child with
          | Some e => Z.eqb (mp_timestamp e) 1000 | None => true end = true) as Ht by (vm_compute; reflexivity).
  rewrite He in Ht. apply Z.eqb_eq in Ht. rewrite Ht. split; [exact pool_expires|apply rtc_refl].
Defined.

Lemma update_on_block_exact_witness :
  mp_txs (mp_storage (@update_on_block externals list_graph list_graph_edit pool_two [pool_parent])) =
    filter (fun kv => kv.1 ∉ [pay_hash pool_parent]) (mp_txs (mp_storage pool_two)).
Proof.
  destruct pool_two_good as [R HR].
  exact (@update_on_block_exact externals map_order map_order_laws list_graph list_graph_edit list_graph_laws
    list_graph_edit_laws pool_two R [pool_parent] HR).
Defined.

Lemma snapshot_roundtrip_witness :
  exists q', @restore_state externals list_graph list_graph_edit
      (fun _ => Ok (@get_sync_state map_order list_graph list_graph_edit 2000 pool_two)) pool_empty [] = Ok q' /\
    mp_storage q' = mp_storage pool_two.
Proof.
  destruct pool_two_good as [R HR].
  destruct (@snapshot_roundtrip externals map_order map_order_laws list_graph list_graph_edit list_graph_laws
    list_graph_edit_laws (fun _ => Ok (@get_sync_state map_order list_graph list_graph_edit 2000 pool_two)) [] 2000
    pool_two R pool_empty eq_refl HR) as (q' & Hq & Hs & _). exists q'. exact (conj Hq Hs).
Defined.

Lemma best_transactions_closed_witness :
  @get_best_transactions list_graph list_graph_edit pool_two 10000 ≡ₚ
    mp_transaction <$> @storage_get_all map_order (mp_storage pool_two).
Proof.
  destruct pool_two_good as [R HR].
  destruct (@best_transactions_closed externals map_order map_order_laws list_graph list_graph_edit list_graph_laws
    list_graph_edit_laws pool_two R 10000 HR) as (hs & _ & _ & _ & Hall). apply Hall.
  apply Nat.leb_le. vm_compute. reflexivity.
Defined.

(** ** Replacement switched off *)

Definition pool_conflicting : Transaction := pool_pay [chain_outpoint 1] [50000].
Definition config_no_rbf : MemPoolConfig := mk_MemPoolConfig 5000 FeePolicy_default RbfPolicy_disabled 3600.
Definition pool_locked : pool := pool_of (pool_add (MemPool_new config_no_rbf) pool_parent) pool_empty.

Notation pool_checked t p := (@mempool_validate externals pool_lookup t (mp_storage p)).
Definition rbf_utxos (r : result MempoolValidationError (list UTXO)) : list UTXO :=
  match r with Err (PotentialRbf l) => l | _ => [] end.
Definition is_rbf (r : result MempoolValidationError (list UTXO)) : bool :=
  match r with Err (PotentialRbf l) => true | _ => false end.

Lemma is_rbf_utxos r : is_rbf r = true -> r = Err (PotentialRbf (rbf_utxos r)).
Proof. destruct r as [|[]]; discriminate || reflexivity. Qed.

Lemma pool_locked_checks :
  is_rbf (pool_checked pool_conflicting pool_locked) &&
  bool_decide (mp_txs (mp_storage pool_locked) !! pay_hash pool_conflicting = None) &&
  (storage_len (mp_storage pool_locked) <? max_size (mp_config pool_locked)) &&
  bool_decide (pay_hash pool_parent ∈ find_conflicts pool_conflicting (mp_storage pool_locked)) &&
  rbf_is_disabled (rbf_policy (mp_config pool_locked)) = true.
Proof. vm_compute. reflexivity. Qed.

Lemma double_spend_refused_witness :
  exists op, pool_add pool_locked pool_conflicting = Err (DoubleSpend op).
Proof.
  pose proof pool_locked_checks as H.
  apply andb_prop in H as [H Hoff]. apply andb_prop in H as [H Hc]. apply andb_prop in H as [H Hroom].
  apply andb_prop in H as [Hrbf Hnew].
  destruct (@double_spend_refused externals map_order map_order_laws list_graph list_graph_edit list_graph_laws
    list_graph_edit_laws pool_lookup 1000 pool_locked pool_conflicting (pay_hash pool_parent)
    (rbf_utxos (pool_checked pool_conflicting pool_locked)) Hoff (bool_decide_eq_true_1 _ Hnew)
    (proj1 (Z.ltb_lt _ _) Hroom) (is_rbf_utxos _ Hrbf) (bool_decide_eq_true_1 _ Hc)) as (op & Hop & _).
  exists op. exact Hop.
Defined.

(** ** What the pool does not prevent *)

(** A replacement may spend an output of the very transaction it displaces: the pool then
    holds a transaction whose input exists neither in the pool nor on the chain. *)
Definition pool_usurper : Transaction :=
  pool_pay [chain_outpoint 1; mk_OutPoint (pay_hash pool_parent) 0] [100].
Definition pool_usurped : pool := pool_of (pool_add pool_one pool_usurper) pool_empty.

Lemma replacement_keeps_orphan :
  is_ok (pool_add pool_one pool_usurper) &&
  bool_decide (is_Some (mp_txs (mp_storage pool_usurped) !! pay_hash pool_usurper)) &&
  bool_decide (mp_txs (mp_storage pool_usurped) !! pay_hash pool_parent = None) &&
  bool_decide (mk_OutPoint (pay_hash pool_parent) 0 ∈ spent_outpoints pool_usurper) = true.
Proof. vm_compute. reflexivity. Qed.

(** A snapshot that lists a child before its parent is restored without their dependency. *)
Definition pool_snapshot : MemPoolSyncData :=
  mk_MemPoolSyncData [mk_MemPoolSyncEntry pool_child 10 1000; mk_MemPoolSyncEntry pool_parent 10 1000] 2000.
Definition pool_restored : pool :=
  pool_of (@restore_state externals list_graph list_graph_edit (fun _ => Ok pool_snapshot) pool_empty []) pool_empty.

Lemma restore_loses_dependency :
  bool_decide (get_descendants (mp_tracker pool_two) (pay_hash pool_parent) = [pay_hash pool_child]) &&
  bool_decide (get_descendants (mp_tracker pool_restored) (pay_hash pool_parent) = []) &&
  bool_decide (is_Some (mp_txs (mp_storage pool_restored) !! pay_hash pool_child)) = true.
Proof. vm_compute. reflexivity. Qed.

(** A snapshot from elsewhere is restored unchecked: into a pool of size one come two
    transactions, which spend the same output. *)
Definition pool_foreign : MemPoolSyncData :=
  mk_MemPoolSyncData [mk_MemPoolSyncEntry pool_parent 10 1000;
                      mk_MemPoolSyncEntry (pool_pay [chain_outpoint 1] [5]) 10 1000] 2000.
Definition pool_config_one : MemPoolConfig :=
  mk_MemPoolConfig 1 (fee_policy MemPoolConfig_default) (rbf_policy MemPoolConfig_default) 3600.

Lemma restore_unchecked :
  match @restore_state externals list_graph list_graph_edit (fun _ => Ok pool_foreign) (MemPool_new pool_config_one) [] with
  | Ok p => max_size (mp_config p) <? storage_len (mp_storage p)
  | Err _ => false
  end = true.
Proof. vm_compute. reflexivity. Qed.

(** A transaction that lists one input twice is credited with its value twice. *)
Lemma duplicated_input_counted_twice :
  is_ok (pool_checked (pool_pay [chain_outpoint 1; chain_outpoint 1] [200000]) pool_empty) = true.
Proof. vm_compute. reflexivity. Qed.

(** A payment of everything it spends pays no fee, yet is credited with the policy's. *)
Lemma zero_fee_credited :
  let t := pool_pay [chain_outpoint 1] [100000] in
  match pool_checked t pool_empty with
  | Ok utxos => (sum_u64 (utxo_value <$> utxos) =? 100000) && (0 <? actual_fee FeePolicy_default t utxos)
  | Err _ => false
  end = true.
Proof. vm_compute. reflexivity. Qed.

(** A package need not list a transaction after what it depends on: when the third spends
    the first and the second, in this order, and the second spends the first, the walk lists the
    second before the first. *)
Definition diamond (a b c : TransactionHash) : DependencyTracker :=
  tracker_add (tracker_add (tracker_add DependencyTracker_default a []) b [a]) c [a; b].

Definition diamond_hash (n : Z) : TransactionHash := pay_hash (pool_pay [chain_outpoint n] []).

Lemma package_not_parent_first :
  let '(a, b, c) := (diamond_hash 1, diamond_hash 2, diamond_hash 3) in
  bool_decide (a ∈ get_with_ancestors (diamond a b c) b) &&
  bool_decide (get_with_ancestors (diamond a b c) c = [b; a; c]) = true.
Proof. vm_compute. reflexivity. Qed.
End Examples.
