(* ===== verification/Acceptance.v ===== *)
(** Acceptance: the converse of the soundness of block validation. A block that meets the
    stated conditions passes the whole pipeline, so a miner knows what to produce. *)
From S2P Require Import Prelude Bytes Types Externals Petgraph Hashing Work Merkle Transactions Blocks Storage UtxoProcessor Difficulty Dependencies Validator.

(** * Building the dependency context *)

Section Build.
Context {X : Externals} {P : PetGraph nat} `{!PetGraphLaws nat}.
Implicit Types (txs : list Transaction) (d : DependencyGraph).

Lemma index_output_total i ops acc :
  NoDup ops -> (forall op, op ∈ ops -> acc !! op = None) ->
  exists index, fold_res (index_output i) acc ops = Ok index.
Proof.
  revert acc. induction ops as [|op ops IH]; intros acc Hnd Hnone; [by eexists|].
  apply NoDup_cons in Hnd as [Hop Hnd]. cbn [fold_res].
  assert (index_output i acc op = Ok (<[op := i]> acc)) as -> by (unfold index_output; by rewrite Hnone by left).
  cbn [mbind result_bind]. apply IH; [done|]. intros op' Hop'.
  rewrite lookup_insert_ne by (intros ->; done). apply Hnone. by right.
Qed.

Lemma index_outputs_total es acc :
  NoDup (created_list es.*2).*1 -> (forall op, op ∈ (created_list es.*2).*1 -> acc !! op = None) ->
  exists index, fold_res index_outputs acc es = Ok index.
Proof.
  revert acc. unfold created_list. induction es as [|[i t] es IH]; intros acc Hnd Hnone; [by eexists|].
  cbn [fmap list_fmap mbind list_bind snd] in *. rewrite fmap_app in Hnd, Hnone.
  apply NoDup_app in Hnd as (Hnd1 & Hdis & Hnd). cbn [fold_res].
  change (index_outputs acc (i, t)) with (fold_res (index_output i) acc (tx_created t).*1).
  destruct (index_output_total i (tx_created t).*1 acc Hnd1) as [index Hidx].
  { intros op Hop. apply Hnone, elem_of_app. by left. }
  rewrite Hidx. cbn [mbind result_bind]. apply index_output_fold in Hidx as (_ & _ & Hix).
  apply IH; [done|]. intros op Hop. destruct (index !! op) as [j|] eqn:Hj; [|done]. exfalso.
  apply Hix in Hj as [Hj|[Hj _]].
  - rewrite Hnone in Hj; [done|]. apply elem_of_app. by right.
  - by apply (Hdis op).
Qed.

(** The graph is built whenever no two transactions create the same output. *)
Lemma build_total txs : NoDup (created_list txs).*1 -> exists d, build txs = Ok d.
Proof.
  intros Hnd. unfold build. destruct (foldl add_tx_node _ _) as [g nodes].
  destruct (index_outputs_total (enumerate txs) ∅) as [index Hidx].
  - by rewrite enumerate_snd.
  - intros op _. apply lookup_empty.
  - rewrite Hidx. cbn [mbind result_bind]. destruct (foldl (add_inputs _ _) _ _) as [g' ext]. by eexists.
Qed.

Lemma order_input_total index i ins spent :
  NoDup (previous_output <$> ins) -> (forall op, op ∈ previous_output <$> ins -> op ∉ spent) ->
  (forall op, op ∈ previous_output <$> ins -> index !! op = None) ->
  exists spent', fold_res (order_input index i) spent ins = Ok spent'.
Proof.
  revert spent. induction ins as [|inp ins IH]; intros spent Hnd Hout Hnone; [by eexists|].
  cbn [fmap list_fmap] in *. apply NoDup_cons in Hnd as [Hinp Hnd]. cbn [fold_res].
  assert (order_input index i spent inp = Ok ({[ previous_output inp ]} ∪ spent)) as ->.
  { unfold order_input. rewrite bool_decide_eq_false_2 by (apply Hout; left). by rewrite Hnone by left. }
  cbn [mbind result_bind]. apply IH; [done| |intros op Hop; apply Hnone; by right].
  intros op Hop Hin. apply elem_of_union in Hin as [Hin|Hin]; [|by apply (Hout op); [right|]].
  apply elem_of_singleton in Hin as ->. done.
Qed.

Lemma order_total index es spent :
  NoDup (es ≫= fun e => previous_output <$> inputs (tx_data e.2)) ->
  (forall op, op ∈ (es ≫= fun e => previous_output <$> inputs (tx_data e.2)) -> op ∉ spent /\ index !! op = None) ->
  exists spent', fold_res (fun spent entry => fold_res (order_input index entry.1) spent (inputs (tx_data entry.2)))
    spent es = Ok spent'.
Proof.
  revert spent. induction es as [|[i t] es IH]; intros spent Hnd Hout; [by eexists|].
  cbn [mbind list_bind snd] in *. apply NoDup_app in Hnd as (Hnd1 & Hdis & Hnd). cbn [fold_res fst snd].
  destruct (order_input_total index i (inputs (tx_data t)) spent Hnd1) as [spent1 H1];
    [intros op Hop; apply Hout, elem_of_app; by left..|].
  rewrite H1. cbn [mbind result_bind]. apply order_input_fold in H1 as (_ & _ & _ & Hin). apply IH; [done|].
  intros op Hop. split; [|apply Hout, elem_of_app; by right]. intros Hs. apply Hin in Hs as [Hs|Hs].
  - apply (Hout op); [apply elem_of_app; by right|done].
  - by apply (Hdis op).
Qed.

(** The order check passes when no output is spent twice or created in the block. *)
Lemma validate_order_total txs d :
  graph_of txs d -> spent_outputs d = ∅ ->
  NoDup (txs ≫= fun t => previous_output <$> inputs (tx_data t)) ->
  (forall op, op ∈ (txs ≫= fun t => previous_output <$> inputs (tx_data t)) -> op ∉ (created_list txs).*1) ->
  exists d', validate_order d txs = Ok d'.
Proof.
  intros Hg Hs Hnd Hno. unfold validate_order. rewrite Hs.
  destruct (order_total (output_index d) (enumerate txs) ∅) as [spent Hsp].
  - by rewrite (bind_enumerate (fun t => previous_output <$> inputs (tx_data t)) txs).
  - rewrite (bind_enumerate (fun t => previous_output <$> inputs (tx_data t)) txs). intros op Hop.
    split; [set_solver|]. destruct (output_index d !! op) as [j|] eqn:Hj; [|done]. exfalso.
    apply (Hno op Hop), creates_list. exists j. by apply (gf_index _ _ Hg).
  - rewrite Hsp. cbn [mbind result_bind]. by eexists.
Qed.

Context {S : Type} `{UtxoReadLaws S}.

Lemma dependency_context_total txs (s : S) :
  NoDup (created_list txs).*1 ->
  NoDup (txs ≫= fun t => previous_output <$> inputs (tx_data t)) ->
  (forall op, op ∈ (txs ≫= fun t => previous_output <$> inputs (tx_data t)) ->
     is_Some (utxo_view s !! op) /\ op ∉ (created_list txs).*1) ->
  exists d managed, build_dependency_context txs s = Ok (d, managed).
Proof.
  intros Hc Hnd Hext. destruct (build_total txs Hc) as [d Hb]. pose proof (build_Ok _ _ Hb) as [Hg Hs].
  destruct (validate_order_total txs d Hg Hs Hnd) as [d' Ho]; [intros op Hop; by apply Hext|].
  unfold build_dependency_context. rewrite Hb. cbn [mbind result_bind]. rewrite Ho. cbn [mbind result_bind].
  apply validate_order_Ok in Ho as (Hg' & _ & _); [|done]. unfold get_external_dependencies.
  case_bool_decide as He; cbn [mbind result_bind]; [by eexists _, _|].
  pose proof (batch_get_view s (elements (external_inputs d'))) as Hv.
  destruct (first_missing _ _) as [op|] eqn:Hm.
  - exfalso. apply first_missing_Some in Hm as [Hop Hnone]. apply elem_of_elements in Hop.
    apply (gf_external _ _ Hg') in Hop as [(i & t & Ht & Hop) _]. destruct (Hext op) as [[u Hu] _]; [|congruence].
    apply list_elem_of_bind. exists t. split; [done|by eapply list_elem_of_lookup_2].
  - destruct Hv as (m & -> & _). cbn [map_err mbind result_bind]. by eexists _, _.
Qed.
End Build.

(** * Fees and reward *)

Section Totals.
Context {X : Externals}.
Implicit Types (managed m : gmap OutPoint UTXO) (t : Transaction).

(** A payment whose totals fit a machine word. *)
Record payment_fits managed t : Prop := {
  pf_kind : kind (tx_data t) = Payment;
  pf_known : Forall (fun op => is_Some (managed !! op)) (spent_by t);
  pf_values : Forall (fun v => 0 <= v) (value_at managed <$> spent_by t);
  pf_outputs : Forall (fun v => 0 <= v) (value <$> outputs (tx_data t));
  pf_covered : out_total t <= in_total managed t;
  pf_bounded : in_total managed t < 2 ^ 64;
}.

Lemma sum_inputs_total managed ins z :
  Forall (fun op => is_Some (managed !! op)) (previous_output <$> ins) ->
  Forall (fun v => 0 <= v) (value_at managed <$> (previous_output <$> ins)) -> 0 <= z ->
  z + zsum (value_at managed <$> (previous_output <$> ins)) < 2 ^ 64 ->
  fold_res (fun ins inp =>
    u ← resolve_utxo (previous_output inp) ∅ managed;
    ok_or (checked_add 64 ins (utxo_value u)) (ConsensusValidationFailed "Overflow while summing input values"))
    z ins = Ok (z + zsum (value_at managed <$> (previous_output <$> ins))).
Proof.
  revert z. induction ins as [|inp ins IH]; intros z Hk Hv Hz Hlt; cbn [fold_res].
  { f_equal. change (z = z + 0). lia. }
  rewrite !fmap_cons, zsum_cons in Hlt |- *. rewrite !fmap_cons in Hk, Hv.
  apply Forall_cons in Hk as [[u Hu] Hk]. apply Forall_cons in Hv as [Hv0 Hv]. change (Forall (fun v => 0 <= v) (value_at managed <$> ((previous_output <$> ins) : list OutPoint))) in Hv.
  pose proof (zsum_nonneg _ Hv) as Hnn.
  assert (value_at managed (previous_output inp) = utxo_value u) as Hva by (unfold value_at; by rewrite Hu).
  rewrite (proj2 (resolve_managed _ _ _) Hu). cbn [mbind result_bind]. rewrite Hva in *.
  assert (z + utxo_value u < 2 ^ 64) as Hz1 by lia.
  rewrite (proj2 (checked_add_Some 64 z (utxo_value u) _) (conj eq_refl Hz1)). cbn [ok_or mbind result_bind].
  rewrite IH by (done || lia). f_equal. lia.
Qed.

Lemma fee_step_total managed t total :
  payment_fits managed t -> 0 <= total -> total + fee managed t < 2 ^ 64 ->
  fee_step managed ∅ total t = Ok (total + fee managed t).
Proof.
  intros [Hk Hkn Hv Ho Hc Hb] Ht Hlt. unfold fee, fee_step in *.
  assert (is_payment t = true) as Hp by (unfold is_payment; by rewrite bool_decide_eq_true_2).
  rewrite Hp in *. cbn [negb]. unfold in_total in *. rewrite (spent_by_payment t Hk) in *.
  rewrite (sum_inputs_total managed (inputs (tx_data t)) 0) by (done || lia). cbn [mbind result_bind].
  rewrite Z.add_0_l, sum_outputs_eq. rewrite sum_from_fits by (done || lia).
  pose proof (zsum_nonneg _ Ho) as Hon. unfold out_total in *. rewrite Z.add_0_l.
  destruct (Z.ltb_spec (zsum (value <$> outputs (tx_data t))) (2 ^ 64)) as [Hw|Hw]; [|lia]. cbn [ok_or mbind result_bind].
  rewrite (proj2 (checked_sub_Some _ _ _) (conj eq_refl Hc)). cbn [ok_or mbind result_bind].
  rewrite (proj2 (checked_add_Some 64 total _ _) (conj eq_refl Hlt)). done.
Qed.

Lemma fees_total managed pays total :
  Forall (payment_fits managed) pays -> 0 <= total -> total + zsum (fee managed <$> pays) < 2 ^ 64 ->
  fold_res (fee_step managed ∅) total pays = Ok (total + zsum (fee managed <$> pays)).
Proof.
  assert (forall t, payment_fits managed t -> 0 <= fee managed t) as Hfee.
  { intros x [Hk _ _ _ Hc _]. unfold fee. destruct (is_payment x); lia. }
  intros Hall. revert total. induction Hall as [|t pays Ht Hall IH]; intros total Htot Hlt; cbn [fold_res].
  { f_equal. change (total = total + 0). lia. }
  rewrite fmap_cons, zsum_cons in *. pose proof (Hfee t Ht). assert (0 <= zsum (fee managed <$> pays)).
  { apply zsum_nonneg, Forall_fmap. eapply Forall_impl; [exact Hall|]. exact Hfee. }
  rewrite fee_step_total by (done || lia). cbn [mbind result_bind]. rewrite IH by lia. f_equal. lia.
Qed.
End Totals.

(** * Acceptance *)

(** A sound block whose totals fit: transactions distinct, values not negative, what each
    payment takes below 2^64, and subsidy and fees together too. *)
Record acceptable (rules : ConsensusConsts) (m : gmap OutPoint UTXO) (b : Block)
    (cb : Transaction) (reward : TransactionOut) (pays : list Transaction) `{Externals} : Prop := {
  ac_sound : block_sound rules m b cb reward pays;
  ac_distinct : NoDup (transactions b);
  ac_values : nonneg_values m;
  ac_outputs : outputs_typed b;
  ac_inputs_fit : Forall (fun t => in_total m t < 2 ^ 64) pays;
  ac_subsidy : 0 <= block_subsidy rules (height (header b));
  ac_reward_fits : block_subsidy rules (height (header b)) + zsum (fee m <$> pays) < 2 ^ 64;
}.

Section Accept.
Context {X : Externals} {P : PetGraph nat} `{!PetGraphLaws nat} {S : Type} `{UtxoReadLaws S}.
Implicit Types (s : S) (b : Block).

Lemma sound_payments rules m b cb reward pays t :
  block_sound rules m b cb reward pays -> t ∈ pays -> kind (tx_data t) = Payment.
Proof. intros Hs Ht. pose proof (bs_payments _ _ _ _ _ _ Hs) as Hp. rewrite Forall_forall in Hp. by apply Hp. Qed.

Lemma bind_payments ts :
  (forall t, t ∈ ts -> kind (tx_data t) = Payment \/ inputs (tx_data t) = []) ->
  (ts ≫= fun t => previous_output <$> inputs (tx_data t)) = spent_list ts.
Proof.
  unfold spent_list. induction ts as [|t ts IH]; intros Hk; [done|]. cbn [mbind list_bind]. f_equal.
  - destruct (Hk t) as [Hp|Hi]; [left|by rewrite spent_by_payment|]. unfold spent_by. rewrite Hi.
    by destruct (is_payment t).
  - apply IH. intros t' Ht'. apply Hk. by right.
Qed.

Lemma sound_inputs rules m b cb reward pays :
  block_sound rules m b cb reward pays ->
  (transactions b ≫= fun t => previous_output <$> inputs (tx_data t)) = spent_list (transactions b).
Proof.
  intros Hs. apply bind_payments. rewrite (bs_transactions _ _ _ _ _ _ Hs). intros t Ht.
  apply elem_of_cons in Ht as [->|Ht]; [right; by apply (bs_coinbase_inputs _ _ _ _ _ _ Hs)|].
  left. by eapply sound_payments.
Qed.

(** Everything the fetched entries say of an acceptable block's payments. *)
Lemma acceptable_payments rules s b cb reward pays managed :
  acceptable rules (utxo_view s) b cb reward pays ->
  (forall op, op ∈ spent_list (transactions b) -> managed !! op = utxo_view s !! op) ->
  Forall (fun t => payment_valid managed t /\ payment_fits managed t /\
    fee managed t = fee (utxo_view s) t) pays.
Proof.
  intros [Hs _ Hval Hout Hfit _ _] Hman. apply Forall_forall. intros t Ht.
  pose proof (bs_payments _ _ _ _ _ _ Hs) as Hp. rewrite Forall_forall in Hp, Hfit. specialize (Hp t Ht) as (Hk & (pk & Hpk & Hsp) & Hcov).
  assert (forall op, op ∈ spent_by t -> managed !! op = utxo_view s !! op) as Heq.
  { intros op Hop. apply Hman, list_elem_of_bind. exists t. split; [done|].
    rewrite (bs_transactions _ _ _ _ _ _ Hs). by right. }
  assert (in_total managed t = in_total (utxo_view s) t) as Hin by (by apply in_total_ext).
  rewrite Forall_forall in Hsp.
  assert (Forall (fun v => 0 <= v) (value_at managed <$> spent_by t)) as Hnn.
  { apply Forall_fmap, Forall_forall. intros op Hop. destruct (Hsp op Hop) as (u & Hu & _). cbn. unfold value_at.
    rewrite (Heq op Hop), Hu. by apply (map_Forall_lookup_1 _ _ _ _ Hval Hu). }
  assert (Forall (fun v => 0 <= v) (value <$> outputs (tx_data t))) as Hon.
  { apply Forall_fmap. unfold outputs_typed in Hout. rewrite Forall_forall in Hout. apply Hout.
    rewrite (bs_transactions _ _ _ _ _ _ Hs). by right. }
  specialize (Hfit t Ht). cbn in Hfit. pose proof (zsum_nonneg _ Hnn) as Hn1. pose proof (zsum_nonneg _ Hon) as Hn2.
  unfold out_total in Hcov. rewrite <-Hin in Hcov, Hfit. unfold in_total in Hcov, Hfit. split_and!.
  - exists pk, (zsum (value_at managed <$> spent_by t)), (zsum (value <$> outputs (tx_data t))).
    split_and!; [done| | | |done].
    + apply Forall_forall. intros op Hop. destruct (Hsp op Hop) as (u & Hu & Ho). exists u. by rewrite (Heq op Hop).
    + rewrite sum_from_fits by (done || lia). rewrite Z.add_0_l. by destruct (Z.ltb_spec (zsum (value_at managed <$> spent_by t)) (2 ^ 64)); [|lia].
    + rewrite sum_from_fits by (done || lia). rewrite Z.add_0_l. by destruct (Z.ltb_spec (zsum (value <$> outputs (tx_data t))) (2 ^ 64)); [|lia].
  - split; [done| |done|done|done|done]. apply Forall_forall. intros op Hop. destruct (Hsp op Hop) as (u & Hu & _).
    rewrite (Heq op Hop). by exists u.
  - unfold fee. by rewrite Hin.
Qed.

Lemma acceptable_txs rules s b cb reward pays :
  acceptable rules (utxo_view s) b cb reward pays -> txs_accepted b rules s.
Proof.
  intros Ha. pose proof (ac_sound _ _ _ _ _ _ Ha) as Hs. unfold txs_accepted.
  destruct (dependency_context_total (transactions b) s) as (d & managed & Hc).
  - apply (bs_fresh_outputs _ _ _ _ _ _ Hs).
  - rewrite (sound_inputs _ _ _ _ _ _ Hs). apply (bs_no_double_spend _ _ _ _ _ _ Hs).
  - rewrite (sound_inputs _ _ _ _ _ _ Hs). apply (bs_external _ _ _ _ _ _ Hs).
  - destruct (dependency_context_Ok _ _ _ _ Hc) as (Hg & _ & _ & Hman).
    assert (forall op, op ∈ spent_list (transactions b) -> managed !! op = utxo_view s !! op) as Hview.
    { intros op Hop. rewrite Hman, decide_True; [done|]. apply (gf_external _ _ Hg). split.
      - rewrite <-(sound_inputs _ _ _ _ _ _ Hs) in Hop. apply list_elem_of_bind in Hop as (t & Hop & Ht).
        apply list_elem_of_lookup in Ht as [i Hi]. exists i, t. done.
      - by apply (bs_external _ _ _ _ _ _ Hs). }
    pose proof (acceptable_payments _ _ _ _ _ _ managed Ha Hview) as Hpays.
    exists d, managed. split_and!; [done| |apply (bs_no_double_spend _ _ _ _ _ _ Hs)|].
    + rewrite (bs_transactions _ _ _ _ _ _ Hs). apply Forall_cons. split.
      * unfold tx_valid. rewrite (bs_coinbase _ _ _ _ _ _ Hs). split; [apply (bs_coinbase_inputs _ _ _ _ _ _ Hs)|].
        exists reward. apply (bs_coinbase_outputs _ _ _ _ _ _ Hs).
      * apply Forall_forall. intros t Ht. rewrite Forall_forall in Hpays. unfold tx_valid.
        rewrite (sound_payments _ _ _ _ _ _ t Hs Ht). by apply Hpays.
    + intros _. assert (zsum (fee managed <$> pays) = zsum (fee (utxo_view s) <$> pays)) as Hfees.
      { f_equal. apply list_fmap_ext. intros i t Ht. apply list_elem_of_lookup_2 in Ht.
        rewrite Forall_forall in Hpays. by apply Hpays. }
      unfold reward_rule, calculate_total_fees. rewrite (bs_transactions _ _ _ _ _ _ Hs). cbn [fold_res].
      assert (fee_step managed ∅ 0 cb = Ok 0) as ->.
      { unfold fee_step, is_payment. rewrite (bs_coinbase _ _ _ _ _ _ Hs). done. }
      cbn [mbind result_bind]. pose proof (ac_reward_fits _ _ _ _ _ _ Ha) as Hfit. pose proof (ac_subsidy _ _ _ _ _ _ Ha) as Hsub.
      rewrite fees_total; [|eapply Forall_impl; [exact Hpays|]; naive_solver|lia|rewrite Hfees; lia].
      cbn [mbind result_bind]. rewrite Z.add_0_l, Hfees.
      rewrite (proj2 (checked_add_Some 64 _ _ _) (conj eq_refl Hfit)). cbn [ok_or mbind result_bind head option_bind].
      rewrite (bs_coinbase_outputs _ _ _ _ _ _ Hs). cbn [head ok_or mbind result_bind].
      apply ensure_Ok, Z.leb_le. pose proof (bs_reward _ _ _ _ _ _ Hs) as Hr.
      assert (zsum (fee (utxo_view s) <$> pays) = zsum ((fun t => in_total (utxo_view s) t - out_total t) <$> pays)) as ->; [|done].
      f_equal. apply list_fmap_ext. intros i t Ht. apply list_elem_of_lookup_2 in Ht.
      unfold fee, is_payment. by rewrite (sound_payments _ _ _ _ _ _ t Hs Ht).
Qed.
End Accept.

(** * The whole pipeline *)

(** A header that follows its parent's branch. *)
Record header_follows {S : Type} `{Externals} `{BlockStorage S} (calc : DifficultyCalc) (s : S) (now : Z) (b : Block) : Prop := {
  hf_normal : header_is_genesis (header b) = false;
  hf_time : exists median, median_time_past s (previous_block_hash (header b)) = Ok median /\
    median < timestamp (header b) <= saturating_add 64 now MAX_FUTURE_BLOCK_TIME_SECS;
  hf_threshold : next_hash_threshold calc s (previous_block_hash (header b)) = Ok (hash_threshold (header b));
  hf_positive : hash_threshold (header b) <> 0;
  hf_work : meets_threshold (block_hash b) (hash_threshold (header b)) = true;
  hf_merkle : merkle_root_hash (header b) = compute_merkle_root (transactions b);
}.

Section Pipeline.
Context {X : Externals} {P : PetGraph nat} `{!PetGraphLaws nat} {S : Type} `{BlockStorage S} `{UtxoReadLaws S}.
Variable schedule : list nat -> list nat.
Implicit Types (s : S) (b : Block).

Lemma header_accepted calc s now b :
  header_follows calc s now b -> validate_header b calc s (Ok now) = Ok tt.
Proof.
  intros [Hn (median & Hm & Hlt & Hle) Ht Hp Hw Hr].
  unfold validate_header, verify_header_shape, verify_genesis_work_shape, verify_genesis_header_work_shape,
    verify_timestamp, verify_hash_threshold, verify_proof_of_work, verify_merkle_root.
  rewrite Hn, Hm, Ht, Hw. cbn [andb negb map_err mbind result_bind].
  rewrite (proj2 (Z.eqb_neq _ _) Hp), (proj2 (Z.ltb_lt _ _) Hlt), (proj2 (Z.leb_le _ _) Hle), Z.eqb_refl.
  cbn [andb negb ensure mbind result_bind]. by rewrite bool_decide_eq_true_2.
Qed.

Lemma block_accepts v b db now cb reward pays :
  (forall l, schedule l ≡ₚ l) ->
  header_follows (difficulty_calc v) db now b ->
  acceptable (validator_consts v) (utxo_view db) b cb reward pays ->
  validate schedule (Ok now) v b db = Ok tt.
Proof.
  intros Hsch Hh Ha. apply validate_Ok; [done|]. split; [by apply header_accepted|]. split.
  - apply structure_Ok; [apply Hh|]. pose proof (ac_sound _ _ _ _ _ _ Ha) as Hs. split; [apply Ha|].
    split; [apply Hs|]. exists cb, pays. split; [apply Hs|]. split; [apply Hs|].
    apply Forall_forall. intros t. by apply (sound_payments _ _ _ _ _ _ _ Hs).
  - by eapply acceptable_txs.
Qed.
(** C6: A block whose header follows its parent's branch and whose transactions are acceptable
    (a coinbase for its height and parent within subsidy and fees, distinct payments signed
    by the owners of existing outputs, none spent twice or created in the block, with
    totals within machine words) passes the whole validation pipeline. *)
Theorem block_accepted v b db now cb reward pays :
  (forall l, schedule l ≡ₚ l) ->
  header_follows (difficulty_calc v) db now b ->
  acceptable (validator_consts v) (utxo_view db) b cb reward pays ->
  validate schedule (Ok now) v b db = Ok tt.
Proof. apply block_accepts. Qed.
End Pipeline.

Section AcceptanceWitness.
Import Toy ListGraph.

Lemma val_good_checks :
  bool_decide (NoDup (transactions val_good)) &&
  bool_decide (map_Forall (fun _ u => 0 <= utxo_value u) (utxos val_store)) &&
  bool_decide (outputs_typed val_good) &&
  bool_decide (Forall (fun t => in_total (utxos val_store) t < 2 ^ 64) (tail (transactions val_good))) &&
  bool_decide (0 <= block_subsidy (validator_consts val_validator) (height (header val_good))) &&
  bool_decide (block_subsidy (validator_consts val_validator) (height (header val_good)) +
    zsum (fee (utxos val_store) <$> tail (transactions val_good)) < 2 ^ 64) = true.
Proof. vm_compute. reflexivity. Qed.

Lemma val_good_sound : exists cb reward pays,
  block_sound (validator_consts val_validator) (utxos val_store) val_good cb reward pays.
Proof.
  destruct (proj1 (@validate_Ok externals list_graph list_graph_laws MemoryView memory_block_storage
    memory_utxo_storage memory_read_laws (fun l => l) (Ok 1900000000) val_validator val_good val_store
    id_permutes) val_good_ok) as (_ & Hs & Ht).
  exact (@accepted_sound externals list_graph list_graph_laws MemoryView memory_utxo_storage memory_read_laws
    val_good (validator_consts val_validator) val_store eq_refl (proj1 (structure_Ok val_good eq_refl) Hs) Ht).
Qed.

Lemma val_good_acceptable : exists cb reward pays,
  acceptable (validator_consts val_validator) (utxos val_store) val_good cb reward pays.
Proof.
  destruct val_good_sound as (cb & reward & pays & Hs). exists cb, reward, pays.
  assert (tail (transactions val_good) = pays) as Hp by (rewrite (bs_transactions _ _ _ _ _ _ Hs); exact eq_refl).
  pose proof val_good_checks as H. rewrite Hp in H.
  apply andb_prop in H as [H H6]. apply andb_prop in H as [H H5]. apply andb_prop in H as [H H4].
  apply andb_prop in H as [H H3]. apply andb_prop in H as [H1 H2].
  exact (Build_acceptable _ _ _ _ _ _ _ Hs (bool_decide_eq_true_1 _ H1) (bool_decide_eq_true_1 _ H2)
    (bool_decide_eq_true_1 _ H3) (bool_decide_eq_true_1 _ H4) (bool_decide_eq_true_1 _ H5)
    (bool_decide_eq_true_1 _ H6)).
Qed.

Lemma val_good_follows :
  @header_follows MemoryView externals memory_block_storage (difficulty_calc val_validator) val_store 1900000000 val_good.
Proof.
  split.
  - exact eq_refl.
  - exists 0. split; [vm_compute; reflexivity|]. split; [apply Z.ltb_lt|apply Z.leb_le]; vm_compute; reflexivity.
  - vm_compute. reflexivity.
  - intros Hz. discriminate Hz.
  - vm_compute. reflexivity.
  - exact eq_refl.
Qed.

Lemma block_accepted_witness :
  @validate externals list_graph MemoryView memory_block_storage memory_utxo_storage
    (@rev nat) (Ok 1900000000) val_validator val_good val_store = Ok tt.
Proof.
  destruct val_good_acceptable as (cb & reward & pays & Ha).
  exact (@block_accepted externals list_graph list_graph_laws MemoryView memory_block_storage
    memory_utxo_storage memory_read_laws (@rev nat) val_validator val_good val_store 1900000000 cb reward pays
    rev_permutes val_good_follows Ha).
Defined.
End AcceptanceWitness.
