(* ===== verification/Miner.v ===== *)
(** Miner: candidate blocks and the rounds of the miner ([stryi_node/src/miner/mod.rs],
    [miner/backend.rs]), and the UTXO lookup of the node's mempool ([main.rs]). *)
From S2P Require Import Prelude Bytes Types Externals Petgraph Float64 Hashing Work Merkle Transactions Blocks Storage UtxoProcessor Difficulty Dependencies Validator Engine Acceptance MempoolGraph Mempool MempoolFacts MempoolProps.
From stdpp Require Import relations.
#[local] Open Scope Z_scope.

(** [StryiMinerConfig]. *)
Record StryiMinerConfig := mk_StryiMinerConfig {
  tx_threshold : nat;
  block_version : Z;
  max_delay_secs : nat;
  reward_address : AccountAddress;
}.

Record MiningContext := mk_MiningContext {
  parent_height : Z;
  parent_hash : BlockHash;
  context_threshold : Z;
  context_median : Z;
}.

(** [MinerBackend]: what the miner needs from the node. *)
Class MinerBackend (B : Type) := {
  mining_context : B -> result StryiCoreError MiningContext;
  backend_subsidy : B -> Z -> Z;
}.

(** The reads of [mining_context], all from one view. *)
Definition context_of_view {S : Type} `{StorageRead S} (consts : ConsensusConsts) (view : S) :
    result StryiCoreError MiningContext :=
  found ← map_err (CoreStorageError LOther) (tip view);
  calc ← DifficultyCalc_new (pow consts);
  hash_threshold ← next_hash_threshold calc view found.2;
  median ← median_time_past view found.2;
  mret (mk_MiningContext found.1 found.2 hash_threshold median).

(** [NodeMinerBackend]; the worker thread is left out. *)
Record NodeMinerBackend (DB : Type) := mk_NodeMinerBackend {
  backend_storage : DB;
  backend_consts : ConsensusConsts;
}.
Arguments mk_NodeMinerBackend {DB}.
Arguments backend_storage {DB} _.
Arguments backend_consts {DB} _.

#[export] Instance node_miner_backend {DB : Type} `{FullNodeStorage DB} : MinerBackend (NodeMinerBackend DB) := {|
  mining_context b :=
    view ← map_err (CoreStorageError LOther) (db_read (backend_storage b));
    context_of_view (backend_consts b) view;
  backend_subsidy b height := block_subsidy (backend_consts b) height;
|}.

(** [lookup_mempool_utxos]: the entries of one view; absent ones are left out. *)
Definition lookup_mempool_utxos {S : Type} `{UtxoStorage S} (view : S) : UtxoLookup :=
  fold_res (fun utxos outpoint =>
    found ← get_utxo view outpoint;
    mret (match found with Some utxo => <[outpoint := utxo]> utxos | None => utxos end)) ∅.

(** [mining_timestamp] *)
Definition mining_timestamp (now_secs median : Z) : result string Z :=
  minimum ← ok_or (checked_add 64 median 1) "median time past leaves no valid timestamp"%string;
  let timestamp := Z.max now_secs minimum in
  if saturating_add 64 now_secs MAX_FUTURE_BLOCK_TIME_SECS <? timestamp
  then Err "chain time is too far ahead of the local clock"%string
  else Ok timestamp.

Section Miner.
Context {X : Externals} {I : HashIteration} `{G : PetGraphEdit TransactionHash} {B : Type} `{MinerBackend B}.
Implicit Types (cfg : StryiMinerConfig) (backend : B) (p : MemPool).

(** The coinbase of a candidate block. *)
Definition candidate_coinbase cfg backend (context : MiningContext) (next_height : Z) : Transaction :=
  new_unsigned (mk_TransactionData (block_version cfg) (Coinbase next_height (parent_hash context)) []
    [mk_TransactionOut (backend_subsidy backend next_height) (reward_address cfg)]).

(** [build_candidate_block]; [now] is the outcome of reading the system clock. *)
Definition build_candidate_block cfg backend (now : result string Z) (best_txs : list Transaction) :
    result string Block :=
  context ← map_err (fun e => "cannot read mining context: {e}"%string) (mining_context backend);
  next_height ← ok_or (checked_add 64 (parent_height context) 1) "chain height overflow"%string;
  now_secs ← map_err (fun e => "cannot read local clock: {e}"%string) now;
  timestamp ← mining_timestamp now_secs (context_median context);
  let all_txs := candidate_coinbase cfg backend context next_height :: best_txs in
  let merkle_root := calc_merkle_root all_txs in
  mret (mk_Block (mk_BlockHeader (block_version cfg) merkle_root (parent_hash context) next_height
    (context_threshold context) timestamp 0 None) all_txs).

(** The number of transactions a round asks the pool for. *)
Definition BEST_TXS_LIMIT : nat := Z.to_nat 10000.

(** [maybe_start_new_round]: [current] is the template of the round under way. A round that
    starts leaves its template there; the task that works on it never clears it. *)
Definition maybe_start_new_round cfg backend (now : result string Z) p (ignore_threshold : bool)
    (current : option Block) : option Block :=
  match current with
  | Some block => Some block
  | None =>
      let txs_count := transaction_count p in
      if (txs_count <? Z.of_nat (tx_threshold cfg)) && negb ignore_threshold then None
      else if ignore_threshold && (txs_count =? 0) then None
      else
        let best := get_best_transactions p BEST_TXS_LIMIT in
        if bool_decide (best = []) then None
        else
          match build_candidate_block cfg backend now best with
          | Ok block => Some block
          | Err _ => None
          end
  end.

(** * The event loop *)

(** What wakes the loop: the timer, with the node's state at that moment, or the channels. *)
Inductive MinerEvent :=
| TimerTick (backend : B) (now : result string Z) (pool : MemPool)
| TipUpdated (new_tip : BlockHash)
| TipLagged (n : Z)
| TipClosed
| MinerCancelled.

(** One iteration of [event_loop]; [None] when the loop ends. *)
Definition miner_step cfg (current : option Block) (e : MinerEvent) : option (option Block) :=
  match e with
  | TimerTick backend now p => Some (maybe_start_new_round cfg backend now p true current)
  | TipUpdated _ => Some None
  | TipLagged _ => Some current
  | TipClosed | MinerCancelled => None
  end.

(** The loop over a sequence of events. *)
Fixpoint miner_run cfg (current : option Block) (events : list MinerEvent) : option (option Block) :=
  match events with
  | [] => Some current
  | e :: events => current ← miner_step cfg current e; miner_run cfg current events
  end.
End Miner.

(** * Timestamps *)

Lemma mining_timestamp_window now now' median t :
  mining_timestamp now median = Ok t -> now <= now' ->
  median < t <= saturating_add 64 now' MAX_FUTURE_BLOCK_TIME_SECS.
Proof.
  intros Ht Hnow. unfold mining_timestamp in Ht. apply bind_Ok in Ht as (z & Hz & Ht).
  apply ok_or_Ok, checked_add_Some in Hz as [-> _]. cbv zeta in Ht. unfold saturating_add in *.
  destruct (Z.ltb_spec (Z.min (now + MAX_FUTURE_BLOCK_TIME_SECS) (uint_max 64)) (Z.max now (median + 1))) as [Hb|Hb];
    [done|]. injection Ht as <-. lia.
Qed.

(** The timestamp of a candidate is accepted by every validator whose clock is not behind
    the miner's; the computation fails exactly when no 64-bit timestamp would be. *)
Theorem mining_timestamp_valid now median :
  in_u64 now -> in_u64 median ->
  match mining_timestamp now median with
  | Ok t => in_u64 t /\ forall now', now <= now' ->
      median < t <= saturating_add 64 now' MAX_FUTURE_BLOCK_TIME_SECS
  | Err _ => forall t, in_u64 t -> ~ median < t <= saturating_add 64 now MAX_FUTURE_BLOCK_TIME_SECS
  end.
Proof.
  intros [Hn0 Hn] [Hm0 Hm]. unfold mining_timestamp, in_uint, MAX_FUTURE_BLOCK_TIME_SECS.
  assert (uint_max 64 = 2 ^ 64 - 1) as Hmax by done.
  destruct (checked_add 64 median 1) as [z|] eqn:Hc; cbn [ok_or mbind result_bind]; cbv zeta.
  - apply checked_add_Some in Hc as [-> Hlt]. unfold saturating_add. rewrite Hmax.
    destruct (Z.ltb_spec (Z.min (now + 120) (2 ^ 64 - 1)) (Z.max now (median + 1))) as [Hb|Hb].
    + intros t Ht. lia.
    + split; [lia|]. intros now' Hnow. lia.
  - apply checked_add_None in Hc. intros t Ht. lia.
Qed.

Lemma mining_timestamp_valid_witness : 100 < 101 <= saturating_add 64 100 MAX_FUTURE_BLOCK_TIME_SECS.
Proof.
  assert (in_u64 100) as H by (split; [discriminate|reflexivity]).
  exact (proj2 (mining_timestamp_valid 100 100 H H) 100 (Z.le_refl 100)).
Defined.

(** * Rounds *)

Section Rounds.
Context {X : Externals} {I : HashIteration} `{G : PetGraphEdit TransactionHash} {B : Type} `{MinerBackend B}.
Implicit Types (cfg : StryiMinerConfig) (events : list (MinerEvent (B := B))).

(** Once a round has started, nothing but a change of the canonical tip ends it: through
    any number of timer ticks and missed notifications the miner keeps its first template,
    even when the work on it has finished and its block was refused. *)
Theorem miner_keeps_template cfg block events :
  Forall (fun e => match e with TimerTick _ _ _ | TipLagged _ => True | _ => False end) events ->
  miner_run cfg (Some block) events = Some (Some block).
Proof.
  induction events as [|e events IH]; intros Hall; [done|]. apply Forall_cons in Hall as [He Hall].
  cbn [miner_run]. destruct e; try done; cbn; by apply IH.
Qed.

(** After a change of the tip, the next tick on a non-empty pool with a readable context
    starts a round. *)
Lemma miner_restarts cfg (backend : B) now p tip b block :
  get_best_transactions p BEST_TXS_LIMIT <> [] -> 0 < transaction_count p ->
  build_candidate_block cfg backend now (get_best_transactions p BEST_TXS_LIMIT) = Ok block ->
  miner_run cfg (Some b) [TipUpdated tip; TimerTick backend now p] = Some (Some block).
Proof.
  intros Hne Hcount Hb. cbn. unfold maybe_start_new_round. cbv zeta. rewrite andb_false_r.
  destruct (Z.eqb_spec (transaction_count p) 0); [lia|]. cbn [andb]. rewrite bool_decide_eq_false_2 by done.
  by rewrite Hb.
Qed.
End Rounds.

(** * Candidates *)

Section Candidates.
Context {X : Externals} {P : PetGraph nat} `{!PetGraphLaws nat} {DB : Type} `{FullNodeStorage DB}.
Context `{!UtxoReadLaws Snapshot}.
Variable schedule : list nat -> list nat.
Implicit Types (cfg : StryiMinerConfig) (view : Snapshot) (pays : list Transaction) (backend : NodeMinerBackend DB).

(** Payments a candidate may carry: distinct and sound for the chain's outputs, spending
    nothing twice and nothing of the candidate itself, with totals that fit. *)
Record minable (consts : ConsensusConsts) (m : gmap OutPoint UTXO) (coinbase : Transaction) (height : Z)
    pays : Prop := {
  mn_payments : Forall (payment_sound m) pays;
  mn_distinct : NoDup pays;
  mn_spent : NoDup (spent_list pays);
  mn_external op : op ∈ spent_list pays -> is_Some (m !! op) /\ op ∉ (created_list (coinbase :: pays)).*1;
  mn_fresh : NoDup (created_list (coinbase :: pays)).*1;
  mn_values : nonneg_values m;
  mn_outputs : Forall (fun t => Forall (fun o => 0 <= value o) (outputs (tx_data t))) pays;
  mn_fit : Forall (fun t => in_total m t < 2 ^ 64) pays;
  mn_subsidy : 0 <= block_subsidy consts height;
  mn_reward : block_subsidy consts height + zsum (fee m <$> pays) < 2 ^ 64;
}.

Lemma candidate_shape cfg backend view now pays b :
  db_read (backend_storage backend) = Ok view ->
  build_candidate_block cfg backend (Ok now) pays = Ok b ->
  exists context, context_of_view (backend_consts backend) view = Ok context /\
    transactions b = candidate_coinbase cfg backend context (height (header b)) :: pays /\
    merkle_root_hash (header b) = compute_merkle_root (transactions b) /\
    previous_block_hash (header b) = parent_hash context /\ genesis_state (header b) = None /\
    hash_threshold (header b) = context_threshold context /\
    mining_timestamp now (context_median context) = Ok (timestamp (header b)) /\
    checked_add 64 (parent_height context) 1 = Some (height (header b)).
Proof.
  intros Hview Hb. unfold build_candidate_block in Hb.
  apply bind_Ok in Hb as (context & Hctx & Hb). apply map_err_Ok in Hctx. cbn [mining_context node_miner_backend] in Hctx.
  rewrite Hview in Hctx. cbn [map_err mbind result_bind] in Hctx.
  apply bind_Ok in Hb as (h & Hh & Hb). apply ok_or_Ok in Hh. apply bind_Ok in Hb as (n & Hn & Hb).
  injection Hn as <-. apply bind_Ok in Hb as (t & Ht & Hb). injection Hb as <-.
  exists context. cbn. done.
Qed.

Lemma context_parts consts view context :
  context_of_view consts view = Ok context ->
  exists calc, DifficultyCalc_new (pow consts) = Ok calc /\
    next_hash_threshold calc view (parent_hash context) = Ok (context_threshold context) /\
    median_time_past view (parent_hash context) = Ok (context_median context).
Proof.
  intros Hc. unfold context_of_view in Hc. apply bind_Ok in Hc as ([h hash] & _ & Hc).
  apply bind_Ok in Hc as (calc & Hcalc & Hc). apply bind_Ok in Hc as (t & Ht & Hc).
  apply bind_Ok in Hc as (md & Hm & Hc). injection Hc as <-. by exists calc.
Qed.

(** C24: A candidate built over a view of the chain from payments that the chain allows
    together, once a nonce meets its threshold, passes the validation of every node with
    the same view and rules whose clock is not behind the miner's. *)
Theorem candidate_accepted cfg backend view v now now' pays b coinbase n :
  (forall l, schedule l ≡ₚ l) ->
  db_read (backend_storage backend) = Ok view ->
  validator_consts v = backend_consts backend ->
  DifficultyCalc_new (pow (backend_consts backend)) = Ok (difficulty_calc v) ->
  build_candidate_block cfg backend (Ok now) pays = Ok b ->
  transactions b = coinbase :: pays ->
  minable (backend_consts backend) (utxo_view view) coinbase (height (header b)) pays ->
  hash_threshold (header b) <> 0 -> now <= now' ->
  let b' := mk_Block (set_nonce (header b) n) (transactions b) in
  meets_threshold (block_hash b') (hash_threshold (header b)) = true ->
  validate schedule (Ok now') v b' view = Ok tt.
Proof.
  intros Hsch Hview Hconsts Hcalc Hb Hcb Hmin Hpos Hnow b' Hpow.
  destruct (candidate_shape _ _ _ _ _ _ Hview Hb) as (context & Hctx & Htx & Hroot & Hprev & Hgen & Hthr & Hts & _).
  destruct (context_parts _ _ _ Hctx) as (calc & Hcalc' & Hnext & Hmed).
  assert (calc = difficulty_calc v) as -> by congruence.
  rewrite Hcb in Htx. injection Htx as Htx.
  apply (block_accepts schedule v b' view now' coinbase
    (mk_TransactionOut (block_subsidy (backend_consts backend) (height (header b))) (reward_address cfg)) pays); [done| |].
  - split; cbn [b' header transactions set_nonce previous_block_hash timestamp hash_threshold merkle_root_hash genesis_state].
    + unfold header_is_genesis. cbn. by rewrite Hgen.
    + exists (context_median context). rewrite Hprev. split; [done|]. by apply (mining_timestamp_window now).
    + by rewrite Hprev, Hthr.
    + done.
    + done.
    + done.
  - rewrite Hconsts. destruct Hmin. split; cbn [b' header transactions set_nonce height]; try done.
    + split; cbn [b' header transactions set_nonce height]; rewrite ?Hcb, ?Htx; try done.
      * cbn. by rewrite Hprev.
      * intros op. unfold spent_list. cbn [mbind list_bind]. rewrite spent_by_other by (by cbn). cbn [app].
        rewrite <-Htx. apply mn_external0.
      * by rewrite <-Htx.
      * cbn [value]. assert (0 <= zsum ((fun t => in_total (utxo_view view) t - out_total t) <$> pays)); [|lia].
        apply zsum_nonneg, Forall_fmap. eapply Forall_impl; [exact mn_payments0|]. intros t (_ & _ & Hle). cbn. lia.
    + rewrite Hcb. apply NoDup_cons. split; [|done]. intros Hin. rewrite Forall_forall in mn_payments0.
      apply mn_payments0 in Hin as [Hk _]. by rewrite Htx in Hk.
    + unfold outputs_typed. cbn [b' transactions]. rewrite Hcb, Htx. apply Forall_cons. split; [|done]. cbn.
      apply Forall_cons. split; [done|constructor].
Qed.
End Candidates.

(** * Dependent transactions are never mined *)

Section Dependent.
Context {X : Externals} {I : HashIteration} `{!HashIterationLaws}.
Context `{G : PetGraphEdit TransactionHash} `{!PetGraphLaws TransactionHash} `{!PetGraphEditLaws TransactionHash}.
Context {P : PetGraph nat} `{!PetGraphLaws nat} {B : Type} `{MinerBackend B}.
Context {S : Type} `{BlockStorage S} `{UtxoReadLaws S}.
Variable schedule : list nat -> list nat.
Implicit Types (p : MemPool) (R : TransactionHash -> TransactionHash -> Prop).

Lemma created_outpoints t : (tx_created t).*1 = outpoints_of (tx_hash (tx_data t)) t.
Proof. unfold tx_created, outpoints_of. by rewrite fmap_imap. Qed.

Lemma candidate_transactions cfg (backend : B) now pays b :
  build_candidate_block cfg backend now pays = Ok b -> exists cb, transactions b = cb :: pays.
Proof.
  intros Hb. unfold build_candidate_block in Hb.
  apply bind_Ok in Hb as (context & _ & Hb). apply bind_Ok in Hb as (h & _ & Hb).
  apply bind_Ok in Hb as (n & _ & Hb). apply bind_Ok in Hb as (t & _ & Hb). injection Hb as <-. by eexists.
Qed.

(** While a payment in the pool spends an output of another transaction in the pool, and the
    pool fits a block, every candidate the miner builds contains both and is refused by
    every validator, whatever its nonce and the state of the chain. *)
Theorem dependent_pool_unminable cfg (backend : B) now p R parent child e b n now' v (view : S) :
  (forall l, schedule l ≡ₚ l) -> pool_ok p R -> R parent child ->
  mp_txs (mp_storage p) !! child = Some e -> kind (tx_data (mp_transaction e)) = Payment ->
  (size (mp_txs (mp_storage p)) <= BEST_TXS_LIMIT)%nat ->
  build_candidate_block cfg backend now (get_best_transactions p BEST_TXS_LIMIT) = Ok b ->
  validate schedule now' v (mk_Block (set_nonce (header b) n) (transactions b)) view <> Ok tt.
Proof.
  intros Hsch Hp HR He Hk Hsz Hb. pose proof (pool_is_graph _ _ Hp) as Hg. pose proof (pg_storage _ _ _ Hg) as Hs.
  destruct (pg_depends _ _ _ Hg _ _ HR) as (e1 & op & He1 & Hop & Hc). assert (e1 = e) as -> by congruence.
  apply (so_created _ Hs) in Hc as (e' & He' & Hop'). destruct (so_tx _ Hs _ _ He') as [Hh' _]. subst parent.
  destruct (best_transactions_selection p R BEST_TXS_LIMIT Hp) as (hs & _ & _ & _ & Hall). specialize (Hall Hsz).
  assert (forall h x, mp_txs (mp_storage p) !! h = Some x -> mp_transaction x ∈ get_best_transactions p BEST_TXS_LIMIT) as Hin.
  { intros h x Hx. rewrite Hall. apply list_elem_of_fmap_2. unfold storage_get_all. apply list_elem_of_fmap.
    exists (h, x). split; [done|]. by apply elem_of_hash_iter. }
  destruct (candidate_transactions _ _ _ _ _ Hb) as [cb Hcb].
  apply (block_output_spend_invalid schedule now' v _ view (mp_transaction e) op); [done| | |]; cbn [transactions].
  - rewrite Hcb. right. by eapply Hin.
  - by rewrite spent_by_payment.
  - rewrite Hcb. unfold created_list. apply list_elem_of_fmap. rewrite <-created_outpoints in Hop'.
    apply list_elem_of_fmap in Hop' as (x & -> & Hx). exists x. split; [done|].
    apply list_elem_of_bind. exists (mp_transaction e'). split; [done|]. right. by eapply Hin.
Qed.
End Dependent.

Section MinerWitnesses.
Import Toy ListGraph MapOrder MempoolProps.Examples.

(** The store of the validator's examples, with a tip to build on. *)
Definition mine_store : MemoryView :=
  mk_MemoryView (utxos val_store) (blocks val_store) (heights val_store) (indexes val_store)
    (tx_locations val_store) (undos val_store) (Some (mk_ChainState (0, BlockHash_empty) 0 0 1)) None.
Definition mine_backend : NodeMinerBackend MemoryView := mk_NodeMinerBackend mine_store val_rules.
Definition mine_config : StryiMinerConfig := mk_StryiMinerConfig 1 1 10 val_owner.
Definition mine_build (pays : list Transaction) : result string Block :=
  @build_candidate_block externals (NodeMinerBackend MemoryView)
    (@node_miner_backend MemoryView (@memory_full_node externals)) mine_config mine_backend (Ok 1900000000) pays.
Definition block_of (r : result string Block) : Block := match r with Ok b => b | Err _ => val_good end.

Lemma mine_builds :
  is_ok (mine_build [val_payment]) && is_ok (mine_build (get_best_transactions pool_two BEST_TXS_LIMIT)) = true.
Proof. vm_compute. reflexivity. Qed.

Lemma block_of_ok r : is_ok r = true -> r = Ok (block_of r).
Proof. destruct r; [reflexivity|discriminate]. Qed.

Definition mined : Block := block_of (mine_build [val_payment]).
Definition mined_coinbase : Transaction :=
  hd val_payment (transactions mined).

Lemma mined_built : mine_build [val_payment] = Ok mined.
Proof. apply block_of_ok. exact (proj1 (andb_prop _ _ mine_builds)). Qed.

Lemma mined_transactions : transactions mined = [mined_coinbase; val_payment].
Proof. exact eq_refl. Qed.

Lemma mined_checks :
  bool_decide (Forall (fun op => is_Some (utxos mine_store !! op) /\
    op ∉ (created_list (transactions mined)).*1) (spent_list [val_payment])) &&
  bool_decide (NoDup (spent_list [val_payment])) &&
  bool_decide (NoDup (created_list (transactions mined)).*1) &&
  bool_decide (Forall (fun t => Forall (fun o => 0 <= value o) (outputs (tx_data t))) [val_payment]) &&
  bool_decide (block_subsidy val_rules (height (header mined)) + zsum (fee (utxos mine_store) <$> [val_payment]) < 2 ^ 64) &&
  bool_decide (Forall (fun t => in_total (utxos mine_store) t < 2 ^ 64) [val_payment]) &&
  bool_decide (0 <= block_subsidy val_rules (height (header mined))) = true.
Proof. vm_compute. reflexivity. Qed.

Lemma mined_payment_sound : Forall (payment_sound (utxos mine_store)) [val_payment].
Proof.
  destruct val_good_sound as (cb & reward & pays & Hs).
  assert (tail (transactions val_good) = pays) as Hp by (rewrite (bs_transactions _ _ _ _ _ _ Hs); exact eq_refl).
  change (tail (transactions val_good)) with [val_payment] in Hp. rewrite Hp. exact (bs_payments _ _ _ _ _ _ Hs).
Qed.

Lemma mined_minable :
  minable val_rules (utxos mine_store) mined_coinbase (height (header mined)) [val_payment].
Proof.
  pose proof mined_checks as H. rewrite mined_transactions in H.
  apply andb_prop in H as [H H7]. apply andb_prop in H as [H H6]. apply andb_prop in H as [H H5]. apply andb_prop in H as [H H4].
  apply andb_prop in H as [H H3]. apply andb_prop in H as [H1 H2].
  pose proof val_good_checks as Hv.
  apply andb_prop in Hv as [Hv _]. apply andb_prop in Hv as [Hv _]. apply andb_prop in Hv as [Hv _].
  apply andb_prop in Hv as [Hv _]. apply andb_prop in Hv as [_ Hv].
  exact (Build_minable _ _ _ _ _ mined_payment_sound (NoDup_singleton _) (bool_decide_eq_true_1 _ H2)
    (proj1 (Forall_forall _ _) (bool_decide_eq_true_1 _ H1)) (bool_decide_eq_true_1 _ H3)
    (bool_decide_eq_true_1 _ Hv) (bool_decide_eq_true_1 _ H4) (bool_decide_eq_true_1 _ H6)
    (bool_decide_eq_true_1 _ H7) (bool_decide_eq_true_1 _ H5)).
Qed.

Lemma candidate_accepted_witness :
  @validate externals list_graph MemoryView memory_block_storage memory_utxo_storage
    (@rev nat) (Ok 1900000007) val_validator (mk_Block (set_nonce (header mined) 5) (transactions mined)) mine_store
    = Ok tt.
Proof.
  assert (hash_threshold (header mined) <> 0) as Hpos by (intros Hz; discriminate Hz).
  exact (@candidate_accepted externals list_graph list_graph_laws MemoryView (@memory_full_node externals)
    memory_read_laws (@rev nat) mine_config mine_backend mine_store val_validator 1900000000 1900000007 [val_payment]
    mined mined_coinbase 5 rev_permutes eq_refl eq_refl eq_refl mined_built mined_transactions mined_minable
    Hpos (fun e => match e with eq_refl => I end) eq_refl).
Defined.

Lemma miner_keeps_template_witness :
  @miner_run externals list_graph list_graph_edit (NodeMinerBackend MemoryView)
    (@node_miner_backend MemoryView (@memory_full_node externals)) mine_config (Some mined)
    [TimerTick mine_backend (Ok 1900000000) pool_two; TipLagged 3] = Some (Some mined).
Proof.
  apply miner_keeps_template. repeat constructor.
Defined.

Definition stalled : Block := block_of (mine_build (get_best_transactions pool_two BEST_TXS_LIMIT)).

Lemma stalled_built : mine_build (get_best_transactions pool_two BEST_TXS_LIMIT) = Ok stalled.
Proof. apply block_of_ok. exact (proj2 (andb_prop _ _ mine_builds)). Qed.

Definition stored_child : option MemPoolTx := mp_txs (mp_storage pool_two) !! pay_hash pool_child.

Lemma pool_two_edge :
  bool_decide (dep_indices (mp_tracker pool_two) !! pay_hash pool_parent = Some 0%nat) &&
  bool_decide (dep_indices (mp_tracker pool_two) !! pay_hash pool_child = Some 1%nat) &&
  bool_decide (0%nat ∈ incoming_sources (dep_graph (mp_tracker pool_two)) 1%nat) &&
  match stored_child with Some e => bool_decide (kind (tx_data (mp_transaction e)) = Payment) | None => false end &&
  (size (mp_txs (mp_storage pool_two)) <=? BEST_TXS_LIMIT)%nat = true.
Proof. vm_compute. reflexivity. Qed.

Lemma dependent_pool_unminable_witness :
  @validate externals list_graph MemoryView memory_block_storage memory_utxo_storage
    (@rev nat) (Ok 1900000000) val_validator (mk_Block (set_nonce (header stalled) 5) (transactions stalled)) mine_store
    <> Ok tt.
Proof.
  destruct pool_two_good as [R HR]. pose proof pool_two_edge as H.
  apply andb_prop in H as [H Hsz]. apply andb_prop in H as [H Hkind]. apply andb_prop in H as [H Hedge].
  apply andb_prop in H as [Hp Hc]. destruct stored_child as [e|] eqn:He; [|discriminate Hkind].
  pose proof (proj1 (tracks_edge _ _ _ (pg_tracks _ _ _ (pool_is_graph _ _ HR)) _ _ _ _
    (bool_decide_eq_true_1 _ Hp) (bool_decide_eq_true_1 _ Hc)) (bool_decide_eq_true_1 _ Hedge)) as HE.
  exact (@dependent_pool_unminable externals map_order map_order_laws list_graph list_graph_edit list_graph_laws
    list_graph_edit_laws list_graph list_graph_laws (NodeMinerBackend MemoryView)
    (@node_miner_backend MemoryView (@memory_full_node externals)) MemoryView memory_block_storage memory_utxo_storage
    memory_read_laws (@rev nat) mine_config mine_backend (Ok 1900000000) pool_two R _ _ e stalled 5 (Ok 1900000000)
    val_validator mine_store rev_permutes HR HE He (bool_decide_eq_true_1 _ Hkind) (proj1 (Nat.leb_le _ _) Hsz)
    stalled_built).
Defined.
End MinerWitnesses.
