(* ===== verification/Wallet.v ===== *)
(** Wallet: coin selection and construction of payments ([stryi_wallet/src/tx_builder.rs]).
    The release build wraps on overflow, and so does the model. *)
From S2P Require Import Prelude Bytes Types Externals Hashing Transactions.

(** [SpendableUtxo] *)
Record SpendableUtxo := mk_SpendableUtxo { su_outpoint : OutPoint; su_value : Z }.

Definition DUST_THRESHOLD : Z := 5000.

(** [sort_by(|a, b| b.value.cmp(&a.value))]: largest first. *)
Definition largest_first (a b : SpendableUtxo) : Prop := su_value b <= su_value a.
#[export] Instance largest_first_dec a b : Decision (largest_first a b).
Proof. unfold largest_first. apply _. Defined.

(** The fee of a payment with some coins and outputs. *)
Abbreviation coins_fee policy coins n := (estimate_fee policy (Z.of_nat (length coins)) n).

(** The selection loop: coins are taken until they cover the amount and the fee of two
    outputs. *)
Fixpoint select_coins (policy : FeePolicy) (amount : Z) (selected : list SpendableUtxo) (total_input : Z)
    (sorted : list SpendableUtxo) : list SpendableUtxo * Z :=
  match sorted with
  | [] => (selected, total_input)
  | utxo :: sorted =>
      let selected := selected ++ [utxo] in
      let total_input := wrap 64 (total_input + su_value utxo) in
      let tentative_fee := coins_fee policy selected 2 in
      if wrap 64 (amount + tentative_fee) <=? total_input then (selected, total_input)
      else select_coins policy amount selected total_input sorted
  end.

Section Wallet.
Context {X : Externals}.

(** The outputs: the amount, and the change when it is worth more than dust. *)
Definition payment_outputs (sender recipient : AccountAddress) (amount total_input final_fee_2out : Z) :
    list TransactionOut :=
  let remainder := wrap 64 (wrap 64 (total_input - amount) - final_fee_2out) in
  mk_TransactionOut amount recipient ::
  (if (wrap 64 (amount + final_fee_2out) <=? total_input) && (DUST_THRESHOLD <? remainder)
   then [mk_TransactionOut remainder sender] else []).

(** [build_payment] *)
Definition build_payment (sender_key : SigningKey) (available_utxos : list SpendableUtxo)
    (recipient : AccountAddress) (amount : Z) (fee_policy : FeePolicy) : result string Transaction :=
  if bool_decide (available_utxos = []) then Err "no UTXOs available to spend"%string
  else
    let sorted := merge_sort largest_first available_utxos in
    let '(selected, total_input) := select_coins fee_policy amount [] 0 sorted in
    let final_fee_1out := coins_fee fee_policy selected 1 in
    let final_fee_2out := coins_fee fee_policy selected 2 in
    if total_input <? wrap 64 (amount + final_fee_1out)
    then Err "insufficient funds: have {}, need {} (amount) + {} (fee) = {}"%string
    else
      let inputs := (fun utxo => mk_TransactionIn (su_outpoint utxo) 0) <$> selected in
      let sender_address := from_public_key (verifying_key sender_key) in
      let outputs := payment_outputs sender_address recipient amount total_input final_fee_2out in
      let actual_fee := estimate_fee fee_policy (Z.of_nat (length inputs)) (Z.of_nat (length outputs)) in
      if total_input <? wrap 64 (amount + actual_fee)
      then Err "insufficient funds after final fee calc: have {}, need {}"%string
      else Ok (sign (mk_TransactionData 0 Payment inputs outputs) sender_key).
End Wallet.

(** * Fees without overflow *)

(** Costs of a realistic size. *)
Record policy_small (p : FeePolicy) : Prop := {
  ps_fixed : 0 <= fixed_fee p <= 2 ^ 20;
  ps_input : 0 <= input_cost p <= 2 ^ 20;
  ps_output : 0 <= output_cost p <= 2 ^ 20;
  ps_byte : 0 <= byte_cost p <= 2 ^ 20;
}.

(** The fee as an integer. *)
Definition ideal_fee (p : FeePolicy) (n m : Z) : Z :=
  fixed_fee p + n * input_cost p + m * output_cost p +
  (BASE_SIZE + VEC_LEN_OVERHEAD + n * SINGLE_INPUT_SIZE + m * SINGLE_OUTPUT_SIZE + 2 * (m - 1)) * byte_cost p.

Lemma wrap64_small x : 0 <= x < 2 ^ 64 -> wrap 64 x = x.
Proof. apply (wrap_small 64). Qed.

Lemma estimate_fee_ideal p n m :
  policy_small p -> 0 <= n <= 2 ^ 24 -> 1 <= m <= 2 ^ 24 ->
  estimate_fee p n m = ideal_fee p n m /\ 0 <= ideal_fee p n m < 2 ^ 60.
Proof.
  intros [Hf Hi Ho Hb] Hn Hm. unfold estimate_fee, estimate_transaction_size, ideal_fee.
  unfold BASE_SIZE, SINGLE_INPUT_SIZE, SINGLE_OUTPUT_SIZE, VEC_LEN_OVERHEAD. cbv zeta.
  assert (0 <= n * input_cost p <= 2 ^ 44) by nia.
  assert (0 <= m * output_cost p <= 2 ^ 44) by nia.
  destruct (Z.ltb_spec 0 m) as [_|]; [|lia]. rewrite orb_true_r.
  set (size := 91 + 1 + n * 69 + m * 43 + 2 * (m - 1)). assert (0 <= size <= 2 ^ 32) by (unfold size; lia).
  assert (0 <= size * byte_cost p <= 2 ^ 52) by nia.
  rewrite !(wrap64_small (n * 69)), !(wrap64_small (m * 43)), !(wrap64_small ((m - 1) * 2)) by lia.
  rewrite !(wrap64_small (91 + n * 69)) by lia. rewrite !(wrap64_small (91 + n * 69 + m * 43)) by lia.
  rewrite !(wrap64_small (91 + n * 69 + m * 43 + 1)) by lia.
  assert ((if 1 <? m then wrap 64 (91 + n * 69 + m * 43 + 1 + (m - 1) * 2) else 91 + n * 69 + m * 43 + 1) = size) as ->.
  { unfold size. destruct (Z.ltb_spec 1 m); [rewrite wrap64_small|]; lia. }
  rewrite (wrap64_small (n * input_cost p)), (wrap64_small (m * output_cost p)), (wrap64_small (size * byte_cost p)) by lia.
  rewrite (wrap64_small (fixed_fee p + n * input_cost p)) by lia.
  rewrite (wrap64_small (fixed_fee p + n * input_cost p + m * output_cost p)) by lia.
  rewrite wrap64_small by lia. lia.
Qed.

(** * Selection *)

(** What some coins are worth together. *)
Definition coins_total (l : list SpendableUtxo) : Z := zsum (su_value <$> l).

(** Coins whose values add up without overflow. *)
Record coins_fit (l : list SpendableUtxo) : Prop := {
  cf_values : Forall (fun u => 0 <= su_value u) l;
  cf_total : coins_total l < 2 ^ 62;
  cf_count : Z.of_nat (length l) <= 2 ^ 24;
}.

Lemma coins_total_app l k : coins_total (l ++ k) = coins_total l + coins_total k.
Proof. unfold coins_total. by rewrite fmap_app, zsum_app. Qed.

Lemma coins_total_nonneg l : Forall (fun u => 0 <= su_value u) l -> 0 <= coins_total l.
Proof. intros Hl. apply zsum_nonneg. by apply Forall_fmap. Qed.

Lemma coins_fit_app l k : coins_fit (l ++ k) -> coins_fit l.
Proof.
  intros [Hv Ht Hc]. apply Forall_app in Hv as [Hl Hk]. rewrite coins_total_app in Ht. rewrite length_app in Hc.
  pose proof (coins_total_nonneg _ Hk). split; [done|lia|lia].
Qed.

#[export] Instance coins_fit_perm : Proper (Permutation ==> iff) coins_fit.
Proof.
  intros l k Hp. assert (coins_total l = coins_total k) as Ht by (unfold coins_total; by rewrite Hp).
  split; intros [Hv Hs Hc]; split; rewrite <-?Hp, <-?Ht || rewrite ?Hp, ?Ht; done.
Qed.

Section Selection.
Context (policy : FeePolicy) (Hpolicy : policy_small policy) (amount : Z) (Hamount : 0 <= amount < 2 ^ 62).

(** The coins cover the amount and the fee of a payment with [m] outputs. *)
Definition covers (coins : list SpendableUtxo) (m : Z) : Prop :=
  amount + ideal_fee policy (Z.of_nat (length coins)) m <= coins_total coins.

Lemma covers_test coins m : coins_fit coins -> 1 <= m <= 2 ->
  (wrap 64 (amount + coins_fee policy coins m) <=? coins_total coins = true <-> covers coins m) /\
  (coins_total coins <? wrap 64 (amount + coins_fee policy coins m) = true <-> ~ covers coins m).
Proof.
  intros [_ _ Hc] Hm. unfold covers. pose proof (estimate_fee_ideal policy (Z.of_nat (length coins)) m Hpolicy) as [-> Hf]; [lia|lia|].
  rewrite wrap64_small by lia. rewrite Z.leb_le, Z.ltb_lt. lia.
Qed.

(** The selection is the shortest non-empty prefix that covers two outputs, or everything. *)
Lemma select_coins_spec pre l :
  coins_fit (pre ++ l) ->
  exists k, select_coins policy amount pre (coins_total pre) l = (pre ++ take k l, coins_total (pre ++ take k l)) /\
    (k <= length l)%nat /\ (l <> [] -> 0 < k)%nat /\
    (forall j, (0 < j < k)%nat -> ~ covers (pre ++ take j l) 2) /\
    (k = length l \/ covers (pre ++ take k l) 2).
Proof.
  revert pre. induction l as [|u l IH]; intros pre Hfit.
  { exists 0%nat. rewrite app_nil_r. split_and!; [done|done|done|lia|by left]. }
  rewrite cons_middle, app_assoc in Hfit. pose proof (coins_fit_app _ _ Hfit) as Hpre.
  assert (wrap 64 (coins_total pre + su_value u) = coins_total (pre ++ [u])) as Hw.
  { assert (coins_total (pre ++ [u]) = coins_total pre + su_value u) as ->.
    { rewrite coins_total_app. unfold coins_total at 2. cbn [fmap list_fmap]. rewrite zsum_cons. change (zsum []) with 0. lia. }
    destruct Hpre as [Hv Ht _]. apply Forall_app in Hv as [Hv Hu]. rewrite Forall_singleton in Hu.
    pose proof (coins_total_nonneg _ Hv). rewrite coins_total_app in Ht. unfold coins_total at 2 in Ht. cbn [fmap list_fmap] in Ht.
    rewrite zsum_cons in Ht. change (zsum []) with 0 in Ht. apply wrap64_small. lia. }
  cbn [select_coins]. cbv zeta. rewrite Hw. destruct (covers_test (pre ++ [u]) 2 Hpre) as [Hyes _]; [lia|].
  destruct (_ <=? coins_total (pre ++ [u])) eqn:Htest.
  - exists 1%nat. cbn [firstn]. split_and!; [done|cbn; lia|lia|lia|right; by apply Hyes].
  - destruct (IH (pre ++ [u]) Hfit) as (k & Hs & Hk & _ & Hmin & Hend). exists (S k). cbn [firstn].
    assert (forall q, pre ++ u :: q = (pre ++ [u]) ++ q) as Happ by (intros q; by rewrite <-app_assoc).
    rewrite (Happ (take k l)). split_and!; [done|cbn; lia|lia| |].
    + intros [|j] Hj; [lia|]. cbn [firstn]. rewrite (Happ (take j l)). destruct (decide (j = 0)%nat) as [->|Hj0].
      * cbn [firstn]. rewrite app_nil_r. intros Hc. apply Hyes in Hc. congruence.
      * apply Hmin. lia.
    + destruct Hend as [->|Hend]; [by left|by right].
Qed.
End Selection.

(** * Payments *)

Section Payments.
Context {X : Externals}.
Context (policy : FeePolicy) (Hpolicy : policy_small policy) (amount : Z) (Hamount : 0 <= amount < 2 ^ 62).
Implicit Types (utxos coins : list SpendableUtxo) (key : SigningKey) (recipient : AccountAddress).

(** One output costs no more than two. *)
Lemma ideal_fee_outputs n : 0 <= n -> ideal_fee policy n 1 <= ideal_fee policy n 2.
Proof.
  intros Hn. destruct Hpolicy as [_ _ Ho Hb]. unfold ideal_fee, BASE_SIZE, SINGLE_INPUT_SIZE, SINGLE_OUTPUT_SIZE, VEC_LEN_OVERHEAD.
  nia.
Qed.

(** The outputs of a payment of covering coins, and what is left to the miner. *)
Lemma payment_outputs_spec sender recipient coins :
  coins_fit coins -> covers policy amount coins 1 ->
  let outputs := payment_outputs sender recipient amount (coins_total coins) (coins_fee policy coins 2) in
  exists change, outputs = mk_TransactionOut amount recipient :: change /\
    (change = [] \/ exists r, change = [mk_TransactionOut r sender] /\ DUST_THRESHOLD < r) /\
    ideal_fee policy (Z.of_nat (length coins)) (Z.of_nat (length outputs)) <=
      coins_total coins - zsum (value <$> outputs) <=
      ideal_fee policy (Z.of_nat (length coins)) 2 + DUST_THRESHOLD.
Proof.
  intros [Hv Ht Hc] Hcov. cbv zeta. unfold payment_outputs.
  destruct (estimate_fee_ideal policy (Z.of_nat (length coins)) 2 Hpolicy) as [-> Hf]; [lia|lia|].
  set (n := Z.of_nat (length coins)) in *. pose proof (ideal_fee_outputs n ltac:(lia)) as H12.
  pose proof (coins_total_nonneg _ Hv) as Hnn. unfold covers in Hcov. fold n in Hcov.
  set (f1 := ideal_fee policy n 1) in *. set (f2 := ideal_fee policy n 2) in *. set (total := coins_total coins) in *.
  assert (forall x y : TransactionOut, zsum (value <$> [x]) = value x /\ zsum (value <$> [x; y]) = value x + value y) as Hsum.
  { intros x y. cbn [fmap list_fmap]. rewrite !zsum_cons. change (zsum []) with 0. lia. }
  rewrite (wrap64_small (amount + f2)) by lia.
  destruct (Z.leb_spec (amount + f2) total) as [Hle|Hlt]; cbn [andb].
  - rewrite (wrap64_small (total - amount)) by lia. rewrite wrap64_small by lia.
    destruct (Z.ltb_spec DUST_THRESHOLD (total - amount - f2)) as [Hd|Hd].
    + eexists. split; [done|]. split; [right; by eexists|]. change (Z.of_nat (length _)) with 2. fold f2.
      rewrite (proj2 (Hsum _ _)). cbn [value]. unfold DUST_THRESHOLD in *. lia.
    + exists []. split; [done|]. split; [by left|]. change (Z.of_nat (length _)) with 1. fold f1.
      rewrite (proj1 (Hsum _ (mk_TransactionOut 0 sender))). cbn [value]. unfold DUST_THRESHOLD in *. lia.
  - exists []. split; [done|]. split; [by left|]. change (Z.of_nat (length _)) with 1. fold f1.
    rewrite (proj1 (Hsum _ (mk_TransactionOut 0 sender))). cbn [value]. unfold DUST_THRESHOLD in *. lia.
Qed.

(** The whole computation, by what the selection finds. *)
Lemma build_payment_cases key utxos recipient :
  coins_fit utxos -> utxos <> [] ->
  let sorted := merge_sort largest_first utxos in
  exists k, (0 < k <= length utxos)%nat /\ (forall j, (0 < j < k)%nat -> ~ covers policy amount (take j sorted) 2) /\
    (k = length utxos \/ covers policy amount (take k sorted) 2) /\
    let coins := take k sorted in
    let outputs := payment_outputs (from_public_key (verifying_key key)) recipient amount
                     (coins_total coins) (coins_fee policy coins 2) in
    (covers policy amount coins 1 /\
     build_payment key utxos recipient amount policy =
       Ok (sign (mk_TransactionData 0 Payment ((fun utxo => mk_TransactionIn (su_outpoint utxo) 0) <$> coins) outputs) key)) \/
    (~ covers policy amount coins 1 /\ exists e, build_payment key utxos recipient amount policy = Err e).
Proof.
  intros Hfit Hne. cbv zeta. set (sorted := merge_sort largest_first utxos).
  assert (sorted ≡ₚ utxos) as Hperm by apply merge_sort_Permutation.
  assert (coins_fit sorted) as Hsorted by (by rewrite Hperm).
  assert (length sorted = length utxos) as Hlen by (by rewrite Hperm).
  destruct (select_coins_spec policy Hpolicy amount Hamount [] sorted Hsorted) as (k & Hsel & Hk & Hpos & Hmin & Hend).
  rewrite Hlen in Hk, Hend. exists k. assert (0 < k)%nat as Hk0.
  { apply Hpos. intros Hnil. rewrite Hnil in Hlen. destruct utxos; [done|discriminate]. }
  split; [lia|]. split; [exact Hmin|]. split; [exact Hend|]. cbn [app] in Hsel.
  assert (coins_fit (take k sorted)) as Hcoins by (apply (coins_fit_app _ (drop k sorted)); by rewrite take_drop).
  unfold build_payment. rewrite bool_decide_eq_false_2 by done. cbv zeta. fold sorted.
  change (coins_total []) with 0 in Hsel. rewrite Hsel. set (coins := take k sorted) in *.
  destruct (covers_test policy Hpolicy amount Hamount coins 1 Hcoins ltac:(lia)) as [_ Hno].
  destruct (coins_total coins <? _) eqn:Htest; [right|left].
  { split; [by apply Hno|by eexists]. }
  assert (covers policy amount coins 1) as Hcov.
  { unfold covers in *. destruct (Z_le_gt_dec (amount + ideal_fee policy (Z.of_nat (length coins)) 1) (coins_total coins)) as [|Hgt]; [done|].
    assert (false = true) as Hx; [apply Hno; lia|done]. }
  split; [done|]. destruct (payment_outputs_spec (from_public_key (verifying_key key)) recipient coins Hcoins Hcov)
    as (change & Hout & Hchange & Hfee & _). rewrite length_fmap.
  assert (1 <= Z.of_nat (length (payment_outputs (from_public_key (verifying_key key)) recipient amount
            (coins_total coins) (coins_fee policy coins 2))) <= 2) as Hm.
  { rewrite Hout. destruct Hchange as [->|(r & -> & _)]; cbn; lia. }
  destruct (covers_test policy Hpolicy amount Hamount coins _ Hcoins Hm) as [_ Hno2].
  match goal with |- context [if ?c then _ else _] => destruct c eqn:Hlast end; [|done]. exfalso.
  apply (proj1 Hno2 eq_refl). unfold covers. rewrite Hout in Hfee |- *. cbn [fmap list_fmap value] in Hfee. rewrite zsum_cons in Hfee.
  assert (0 <= zsum (value <$> change)); [|lia].
  destruct Hchange as [->|(r & -> & Hr)]; cbn [fmap list_fmap value]; rewrite ?zsum_cons; change (zsum []) with 0;
    unfold DUST_THRESHOLD in *; lia.
Qed.

(** C36: A built payment spends the shortest run of largest coins that covers the amount and the
    fee of two outputs, or all coins if no shorter run does; it pays the recipient the
    amount, returns any change above dust to the sender, leaves at least the policy's fee
    for its own shape and at most the fee of two outputs plus dust, and is signed by the
    sender's key. This is for an amount that is not negative and below 2^62, for at most
    2^24 coins of values that are not negative and add up below 2^62, and for a policy whose
    fixed fee and costs per input, output and byte are between 0 and 2^20: the code adds and
    multiplies these without a check, and with an amount near 2^64 it builds a payment that
    nothing covers ([huge_amount_accepted]). *)
Theorem build_payment_correct `{!EcdsaLaws} key utxos recipient t :
  coins_fit utxos -> build_payment key utxos recipient amount policy = Ok t ->
  exists k change,
    let coins := take k (merge_sort largest_first utxos) in
    (0 < k <= length utxos)%nat /\
    (forall j, (0 < j < k)%nat -> ~ covers policy amount (take j (merge_sort largest_first utxos)) 2) /\
    (k = length utxos \/ covers policy amount coins 2) /\
    inputs (tx_data t) = (fun utxo => mk_TransactionIn (su_outpoint utxo) 0) <$> coins /\
    outputs (tx_data t) = mk_TransactionOut amount recipient :: change /\
    (change = [] \/ exists r, change = [mk_TransactionOut r (from_public_key (verifying_key key))] /\ DUST_THRESHOLD < r) /\
    ideal_fee policy (Z.of_nat (length coins)) (Z.of_nat (length (outputs (tx_data t)))) <=
      coins_total coins - zsum (value <$> outputs (tx_data t)) <=
      ideal_fee policy (Z.of_nat (length coins)) 2 + DUST_THRESHOLD /\
    kind (tx_data t) = Payment /\ recover_public_key t = Ok (verifying_key key).
Proof.
  intros Hfit Hb. assert (utxos <> []) as Hne by (intros ->; done).
  destruct (build_payment_cases key utxos recipient Hfit Hne) as (k & Hk & Hmin & Hend & [(Hcov & Hok)|(_ & e & He)]);
    [|congruence]. rewrite Hok in Hb. injection Hb as <-.
  assert (coins_fit (take k (merge_sort largest_first utxos))) as Hcoins.
  { apply (coins_fit_app _ (drop k (merge_sort largest_first utxos))). by rewrite take_drop, merge_sort_Permutation. }
  destruct (payment_outputs_spec (from_public_key (verifying_key key)) recipient _ Hcoins Hcov) as (change & Hout & Hch & Hfee).
  exists k, change. cbv zeta. match goal with |- context [sign ?d key] => pose proof (sign_recovers_data d key eq_refl) as [-> Hrec] end.
  cbn [inputs outputs kind]. split_and!; done || apply Hk || apply Hfee || done.
Qed.

(** Building a payment succeeds exactly when there are coins and the selected ones cover the
    amount with the fee of one output: when the loop stopped at a run of largest coins that
    covers two outputs, or all coins together cover one. *)
Theorem build_payment_succeeds key utxos recipient :
  coins_fit utxos ->
  is_ok (build_payment key utxos recipient amount policy) = true <->
  utxos <> [] /\ ((exists k, (0 < k <= length utxos)%nat /\ covers policy amount (take k (merge_sort largest_first utxos)) 2) \/
                  covers policy amount (merge_sort largest_first utxos) 1).
Proof.
  intros Hfit. destruct (decide (utxos = [])) as [->|Hne]; [by split; [|intros [? _]]|].
  set (sorted := merge_sort largest_first utxos).
  assert (length sorted = length utxos) as Hlen by (apply Permutation_length, merge_sort_Permutation).
  assert (forall coins, covers policy amount coins 2 -> covers policy amount coins 1) as H21.
  { unfold covers. intros coins Hc. pose proof (ideal_fee_outputs (Z.of_nat (length coins))). lia. }
  destruct (build_payment_cases key utxos recipient Hfit Hne) as (k & Hk & Hmin & Hend & [(Hcov & ->)|(Hno & e & ->)]);
    fold sorted in Hmin, Hend; cbn [is_ok].
  - split; [|done]. intros _. split; [done|]. destruct Hend as [->|Hend]; [|left; by exists k].
    right. rewrite <-Hlen, firstn_all in Hcov. exact Hcov.
  - split; [done|]. intros [_ Hc]. exfalso. apply Hno. fold sorted.
    assert (k = length utxos) as ->.
    { destruct Hend as [|Hend]; [done|]. by apply H21 in Hend. }
    destruct Hc as [(j & Hj & Hc)|Hc].
    + destruct (decide (j = length utxos)) as [->|Hjk]; [by apply H21|]. destruct (Hmin j); [lia|done].
    + rewrite <-Hlen, firstn_all. exact Hc.
Qed.
End Payments.

(** * Examples *)

Module WalletExamples.
Import Toy.

Definition coin (n v : Z) : SpendableUtxo :=
  mk_SpendableUtxo (mk_OutPoint (tx_hash (X := externals) (mk_TransactionData n Payment [] [])) 0) v.
Definition payee : AccountAddress := from_public_key (X := externals) Byte.x08.
Notation pay_from coins amount := (build_payment (X := externals) Byte.x07 coins payee amount FeePolicy_default).

Lemma policy_default_small : policy_small FeePolicy_default.
Proof. split; cbn; lia. Qed.

Lemma amount_small : 0 <= 100000 < 2 ^ 62.
Proof. split; [discriminate|reflexivity]. Qed.

Definition three_coins : list SpendableUtxo := [coin 1 50000; coin 2 60000; coin 3 70000].

Lemma three_coins_fit : coins_fit three_coins.
Proof.
  split; [|vm_compute; reflexivity|vm_compute; discriminate].
  repeat (apply Forall_cons; split; [cbn; lia|]). constructor.
Qed.

Definition paid : Transaction :=
  match pay_from three_coins 100000 with Ok t => t | Err _ => new_unsigned (mk_TransactionData 0 Payment [] []) end.

Lemma paid_ok : pay_from three_coins 100000 = Ok paid.
Proof.
  assert (is_ok (pay_from three_coins 100000) = true) as H by (vm_compute; reflexivity).
  unfold paid. destruct (pay_from three_coins 100000); [reflexivity|discriminate].
Qed.

Lemma build_payment_correct_witness : recover_public_key (X := externals) paid = Ok (verifying_key (Externals := externals) Byte.x07).
Proof.
  destruct (@build_payment_correct externals FeePolicy_default policy_default_small 100000
    amount_small ecdsa_laws Byte.x07 three_coins payee paid
    three_coins_fit paid_ok) as (k & change & _ & _ & _ & _ & _ & _ & _ & _ & Hrec). exact Hrec.
Defined.

Lemma build_payment_succeeds_witness : three_coins <> [].
Proof.
  apply (@build_payment_succeeds externals FeePolicy_default policy_default_small 100000
    amount_small Byte.x07 three_coins payee three_coins_fit).
  vm_compute. reflexivity.
Defined.

(** One coin covers the amount and the fee of a single output; owning a second, tiny coin
    as well makes the same payment fail. *)
Lemma extra_coin_breaks_payment :
  is_ok (pay_from [coin 1 103800] 100000) && negb (is_ok (pay_from [coin 1 103800; coin 2 1] 100000)) = true.
Proof. vm_compute. reflexivity. Qed.

(** An amount close to the largest integer passes every check of the release build and
    yields a payment of far more than its coins are worth. *)
Lemma huge_amount_accepted :
  match pay_from [coin 1 10000] (2 ^ 64 - 1) with
  | Ok t => bool_decide ((value <$> head (outputs (tx_data t))) = Some (2 ^ 64 - 1))
  | Err _ => false
  end = true.
Proof. vm_compute. reflexivity. Qed.
End WalletExamples.
