(* ===== verification/Wire.v ===== *)
(** Wire: the gRPC messages of block synchronisation and their conversions, and the
    answers of the sync service ([stryi_node/src/grpc.rs], [proto/sync.proto]). The
    service is generic over the database, like the code. *)
From S2P Require Import Prelude Bytes Types Externals Hashing Work Transactions Blocks Storage UtxoProcessor Overlay Transition Engine.

(** postcard, for the genesis state and the body of a block. *)
Class Postcard := {
  postcard_genesis_state : option GenesisState -> list byte;
  postcard_genesis_state_from : list byte -> result string (option GenesisState);
  postcard_block_data : list Transaction -> list byte;
  postcard_block_data_from : list byte -> result string (list Transaction);
}.

(** Deserialization inverts serialization. *)
Class PostcardLaws `{Postcard} : Prop := {
  postcard_genesis_state_inv g : postcard_genesis_state_from (postcard_genesis_state g) = Ok g;
  postcard_block_data_inv txs : postcard_block_data_from (postcard_block_data txs) = Ok txs;
}.

(** * Messages *)

Record PbBlockHeader := mk_PbBlockHeader {
  pb_version : Z;
  pb_merkle_root_hash : string;
  pb_previous_block_hash : string;
  pb_height : Z;
  pb_hash_threshold : list byte;
  pb_timestamp : Z;
  pb_nonce : Z;
  pb_genesis_data : list byte;
}.

(** [SerializedBlockBody] is its bytes. *)
Record PbBlock := mk_PbBlock { pb_header : option PbBlockHeader; pb_body : option (list byte) }.

Record BlockHeightRange := mk_BlockHeightRange { start_height : Z; end_height : Z; max_blocks : Z }.

Record PbChainInfo := mk_PbChainInfo {
  ci_height : Z;
  ci_latest_block_hash : string;
  ci_last_update_time : Z;
  ci_protocol_version : Z;
  ci_chain_name : string;
  ci_chain_work : list byte;
}.

(** [tonic::Status], by the codes the service uses. *)
Inductive Status :=
| StatusInternal (msg : string)
| StatusUnavailable (msg : string)
| StatusInvalidArgument (msg : string)
| StatusNotFound (msg : string).

(** The service's own settings; the listening address is left out. *)
Record StryiSyncServiceConfig := mk_StryiSyncServiceConfig {
  sync_chain_name : string;
  sync_protocol_version : Z;
  max_blocks_range_per_request : Z;
}.

(** * Conversions *)

Section Conversions.
Context {X : Externals} {PC : Postcard}.

(** [impl From<Block> for PbBlock] *)
Definition header_to_wire (h : BlockHeader) : PbBlockHeader :=
  mk_PbBlockHeader (version h) (Hash_to_string (merkle_root_hash h))
    (Hash_to_string (previous_block_hash h)) (height h) (arr (threshold_to_bytes (hash_threshold h)))
    (timestamp h) (nonce h) (postcard_genesis_state (genesis_state h)).

Definition block_to_wire (block : Block) : PbBlock :=
  mk_PbBlock (Some (header_to_wire (header block))) (Some (postcard_block_data (transactions block))).

(** [u16::try_from] *)
Definition u16_try_from (v : Z) : option Z := if v <? 2 ^ 16 then Some v else None.

Definition header_from_wire (h : PbBlockHeader) : result StryiCoreError BlockHeader :=
  genesis ← map_err Other (postcard_genesis_state_from (pb_genesis_data h));
  version ← ok_or (u16_try_from (pb_version h)) (Other "unsupported block version {} on the wire");
  merkle_root ← from_hash_string MerkleRootHashKind (pb_merkle_root_hash h);
  previous ← from_hash_string BlockHashKind (pb_previous_block_hash h);
  threshold ← map_err Other (threshold_from_bytes (pb_hash_threshold h));
  mret (mk_BlockHeader version merkle_root previous (pb_height h) threshold (pb_timestamp h)
    (pb_nonce h) genesis).

(** [impl TryFrom<PbBlock> for Block] *)
Definition block_from_wire (pb : PbBlock) : result StryiCoreError Block :=
  grpc_header ← ok_or (pb_header pb) (Other "Got block with no header!");
  header ← header_from_wire grpc_header;
  grpc_body ← ok_or (pb_body pb) (Other "Got block with no body!");
  data ← map_err Other (postcard_block_data_from grpc_body);
  mret (mk_Block header data).

End Conversions.

(** * The service *)

Section Service.
Context {X : Externals} {PC : Postcard} {DB : Type} `{FullNodeStorage DB}.
Implicit Types (cfg : StryiSyncServiceConfig) (storage : DB).

(** The rendered text of a storage error inside a status is not modelled. *)
Definition internal {A} (r : result StorageError A) : result Status A :=
  map_err (fun _ => StatusInternal "{e}") r.

(** [get_chain_info] *)
Definition get_chain_info cfg storage : result Status PbChainInfo :=
  view ← internal (db_read storage);
  state ← internal (chain_state view);
  info ← ok_or state (StatusUnavailable "storage is not initialized");
  mret (mk_PbChainInfo (latest_block info).1 (Hash_to_string (latest_block info).2)
    (last_update_time info) (wrap 32 (sync_protocol_version cfg)) (sync_chain_name cfg)
    (arr (chain_work_to_bytes (chain_work info)))).

(** [height_range_hashes]: all hashes come from one snapshot. *)
Definition height_range_hashes cfg storage (range : BlockHeightRange) : result Status (list BlockHash) :=
  if end_height range <? start_height range
  then Err (StatusInvalidArgument "start height exceeds end height")
  else
    let max := max_blocks_range_per_request cfg in
    if max =? 0 then Err (StatusInternal "maximum block range is zero")
    else
      let stop := Z.min (end_height range) (saturating_add 64 (start_height range) (max - 1)) in
      view ← internal (db_read storage);
      fold_res (fun hashes height =>
        found ← internal (get_block_hash_by_height view height);
        hash ← ok_or found (StatusNotFound "Block at height {height} not found");
        mret (hashes ++ [hash])) [] (seqZ (start_height range) (stop - start_height range + 1)).

(** [read_block] *)
Definition read_block storage (hash : BlockHash) : result Status (option Block) :=
  view ← internal (db_read storage);
  internal (get_block_by_hash view hash).

(** A stream polls its items one by one: [later i] is the database when item [i] is read. *)
Definition stream_items {A B} (f : DB -> A -> result Status B) (later : nat -> DB) (l : list A) :
    list (result Status B) :=
  imap (fun i a => f (later i) a) l.

Definition streamed_block storage (hash : BlockHash) : result Status PbBlock :=
  found ← read_block storage hash;
  block ← ok_or found (StatusInternal "block {hash} disappeared from storage");
  mret (block_to_wire block).

(** [get_blocks_by_height] *)
Definition get_blocks_by_height cfg storage (later : nat -> DB) (range : BlockHeightRange) :
    result Status (list (result Status PbBlock)) :=
  hashes ← height_range_hashes cfg storage range;
  mret (stream_items streamed_block later hashes).

(** [get_headers_by_height]; the header of a converted block is always there. *)
Definition get_headers_by_height cfg storage (later : nat -> DB) (range : BlockHeightRange) :
    result Status (list (result Status PbBlockHeader)) :=
  hashes ← height_range_hashes cfg storage range;
  mret (stream_items (fun storage hash =>
    block ← streamed_block storage hash;
    ok_or (pb_header block) (StatusInternal "called `Option::unwrap()` on a `None` value")) later hashes).

Definition hashed_block storage (block_hash : string) : result Status PbBlock :=
  hash ← map_err (fun _ => StatusInvalidArgument "Invalid hash: {e:?}") (from_hash_string BlockHashKind block_hash);
  found ← read_block storage hash;
  block ← ok_or found (StatusNotFound "Block not found in storage");
  mret (block_to_wire block).

(** [get_blocks_by_hash] *)
Definition get_blocks_by_hash cfg (later : nat -> DB) (hashes : list string) :
    result Status (list (result Status PbBlock)) :=
  if max_blocks_range_per_request cfg <? Z.of_nat (length hashes)
  then Err (StatusInvalidArgument "Too many block hashes requested")
  else Ok (stream_items hashed_block later hashes).
End Service.

(** * Facts *)

Section Facts.
Context {X : Externals} `{!HexLaws} {PC : Postcard} `{!PostcardLaws}.
Implicit Types (l : list Block) (b : Block) (m : MemoryView) (cfg : StryiSyncServiceConfig).

Lemma header_wire h :
  in_u16 (version h) -> in_u256 (hash_threshold h) -> header_from_wire (header_to_wire h) = Ok h.
Proof.
  intros Hv Ht. unfold header_from_wire, header_to_wire.
  cbn [pb_version pb_merkle_root_hash pb_previous_block_hash pb_height pb_hash_threshold pb_timestamp pb_nonce pb_genesis_data].
  rewrite postcard_genesis_state_inv. unfold u16_try_from. rewrite (proj2 (Z.ltb_lt _ _)) by apply Hv.
  rewrite (proj1 (hash_string_roundtrip MerkleRootHashKind (merkle_root_hash h) "")).
  rewrite (proj1 (hash_string_roundtrip BlockHashKind (previous_block_hash h) "")).
  destruct (work_codecs_roundtrip (hash_threshold h) 0 [] []) as (-> & _); [done|unfold in_uint; lia|].
  by destruct h.
Qed.

Lemma block_wire b : header_typed (header b) -> block_from_wire (block_to_wire b) = Ok b.
Proof.
  intros (Hv & _ & Ht & _). unfold block_from_wire, block_to_wire. cbn [pb_header pb_body ok_or mbind result_bind].
  rewrite header_wire by done. cbn [mbind result_bind]. rewrite postcard_block_data_inv. by destruct b.
Qed.

(** Collecting the results of a loop body that pushes one item. *)
Lemma fold_push {E A B} (f : A -> result E B) (g : A -> B) (l : list A) acc :
  (forall a, a ∈ l -> f a = Ok (g a)) ->
  fold_res (fun acc a => b ← f a; mret (acc ++ [b])) acc l = Ok (acc ++ (g <$> l)).
Proof.
  revert acc. induction l as [|a l IH]; intros acc Hf; cbn [fold_res]; [by rewrite app_nil_r|].
  rewrite Hf by set_solver. cbn [mbind result_bind]. change (mret (acc ++ [g a])) with (Ok (E := E) (acc ++ [g a])).
  cbn [mbind result_bind]. rewrite IH by set_solver. by rewrite <-app_assoc.
Qed.

(** The heights of a range, by position in the chain. *)
Lemma seqZ_slice l (start : nat) (len : nat) :
  (start + len <= length l)%nat ->
  (fun h => default BlockHash_empty (height_lookup l h)) <$> seqZ (Z.of_nat start) (Z.of_nat len) =
  block_hash <$> take len (drop start l).
Proof.
  intros Hlen. apply list_eq. intros i. rewrite !list_lookup_fmap.
  destruct (decide (i < len)%nat) as [Hi|Hi].
  - rewrite (proj2 (lookup_seqZ (Z.of_nat start) (Z.of_nat len) i (Z.of_nat (start + i)))) by lia.
    rewrite lookup_take_lt by done. rewrite lookup_drop. cbn [fmap option_fmap option_map].
    rewrite height_lookup_nat. destruct (lookup_lt_is_Some_2 l (start + i)) as [b Hb]; [lia|]. by rewrite Hb.
  - rewrite lookup_take_ge by lia. rewrite lookup_seqZ_ge by lia. done.
Qed.

(** How many blocks the service gives for a range. *)
Definition served_count cfg (range : BlockHeightRange) : nat :=
  Z.to_nat (Z.min (end_height range) (saturating_add 64 (start_height range) (max_blocks_range_per_request cfg - 1))
    - start_height range + 1).

Lemma height_range_hashes_chain cfg m l range :
  records m l -> 0 <= start_height range <= end_height range -> end_height range < Z.of_nat (length l) ->
  0 < max_blocks_range_per_request cfg -> Z.of_nat (length l) < 2 ^ 64 ->
  height_range_hashes cfg m range =
    Ok (block_hash <$> take (served_count cfg range) (drop (Z.to_nat (start_height range)) l)).
Proof.
  intros R Hstart Hend Hmax Hlen. unfold height_range_hashes.
  rewrite (proj2 (Z.ltb_ge _ _)), (proj2 (Z.eqb_neq _ _)) by lia.
  cbn [db_read memory_full_node internal map_err mbind result_bind get_block_hash_by_height memory_block_storage].
  set (stop := Z.min _ _). assert (start_height range <= stop <= end_height range) as Hs.
  { unfold stop, saturating_add, uint_max. lia. }
  pose proof (fold_push (E := Status)
    (fun h => found ← internal (Ok (heights m !! h)); ok_or found (StatusNotFound "Block at height {height} not found"))
    (fun h => default BlockHash_empty (height_lookup l h)) (seqZ (start_height range) (stop - start_height range + 1)) []) as Hf.
  cbn [internal map_err mbind result_bind] in Hf.
  transitivity (Ok (E := Status) ([] ++ ((fun h => default BlockHash_empty (height_lookup l h)) <$>
    seqZ (start_height range) (stop - start_height range + 1)))).
  - rewrite <-Hf; [done|]. intros h Hh. apply elem_of_seqZ in Hh. rewrite (rc_heights _ _ R).
    unfold height_lookup. rewrite decide_True by lia.
    destruct (lookup_lt_is_Some_2 l (Z.to_nat h)) as [b Hb]; [lia|]. by rewrite Hb.
  - cbn [app]. f_equal. rewrite <-(seqZ_slice l (Z.to_nat (start_height range)) (served_count cfg range));
      unfold served_count; fold stop; [f_equal; f_equal; lia|lia].
Qed.

(** A stream over stores that all still hold the blocks read. *)
Lemma stream_blocks (later : nat -> MemoryView) bs :
  (forall i b, b ∈ bs -> blocks (later i) !! block_hash b = Some b) ->
  stream_items streamed_block later (block_hash <$> bs) = (fun b => Ok (block_to_wire b)) <$> bs.
Proof.
  unfold stream_items. revert later. induction bs as [|b bs IH]; intros later Hb; [done|].
  rewrite !fmap_cons, imap_cons. f_equal.
  - unfold streamed_block, read_block.
    change (db_read (later 0%nat)) with (Ok (E := StorageError) (later 0%nat)). cbn [internal map_err mbind result_bind].
    change (get_block_by_hash (later 0%nat) (block_hash b)) with (Ok (E := StorageError) (blocks (later 0%nat) !! block_hash b)).
    by rewrite Hb by set_solver.
  - apply (IH (fun i => later (Datatypes.S i))). intros i b' Hb'. apply Hb. set_solver.
Qed.
End Facts.

(** * Properties *)

Section WireProperties.
Context {X : Externals} `{!HexLaws} {PC : Postcard} `{!PostcardLaws}.
Implicit Types (l : list Block) (b : Block) (m : MemoryView) (cfg : StryiSyncServiceConfig).

(** C37: the wire form of a block is faithful: a block whose header fields fit their machine
    types is decoded from its own message unchanged, so no two such blocks share a
    message; and whatever message is decoded, the version and the threshold of the
    resulting header are in range when the message's own fields are unsigned. *)
Theorem wire_roundtrip b b' pb :
  header_typed (header b) ->
  block_from_wire (block_to_wire b) = Ok b /\
  (header_typed (header b') -> block_to_wire b = block_to_wire b' -> b = b') /\
  (block_from_wire pb = Ok b' -> (forall h, pb_header pb = Some h -> 0 <= pb_version h) ->
   in_u16 (version (header b')) /\ in_u256 (hash_threshold (header b'))).
Proof.
  intros Hb. split; [by apply block_wire|]. split.
  - intros Hb' Heq. pose proof (block_wire b Hb) as H1. rewrite Heq, (block_wire b' Hb') in H1. by injection H1.
  - intros Hd Hv. unfold block_from_wire in Hd. res_inv. unfold header_from_wire in *. res_inv. cbn.
    specialize (Hv _ ltac:(eassumption)). split.
    + unfold u16_try_from in *. case_match eqn:Hlt; simplify_eq. bool_inv. done.
    + unfold threshold_from_bytes in *. case_match eqn:Hlen; simplify_eq. bool_inv. apply Nat.eqb_eq in Hlen.
      unfold in_uint. change 256%Z with (8 * Z.of_nat 32) at 1. rewrite <-pow256, <-Hlen. apply le_val_range.
Qed.

(** A range request is answered from one branch. The hashes come from one snapshot, a
    store of the chain [l]; however the store changes while the blocks are streamed, as
    long as it still holds the blocks of [l], the stream is exactly the requested slice
    of [l] cut to the service's maximum, and its length is never zero. *)
Theorem streamed_range_exact cfg m l later range :
  records m l -> Z.of_nat (length l) < 2 ^ 64 -> 0 < max_blocks_range_per_request cfg ->
  0 <= start_height range <= end_height range -> end_height range < Z.of_nat (length l) ->
  (forall i b, b ∈ l -> blocks (later i) !! block_hash b = Some b) ->
  let sent := take (served_count cfg range) (drop (Z.to_nat (start_height range)) l) in
  get_blocks_by_height cfg m later range = Ok ((fun b => Ok (block_to_wire b)) <$> sent) /\
  (0 < length sent)%nat /\ Z.of_nat (length sent) <= max_blocks_range_per_request cfg.
Proof.
  intros R Hlen Hmax Hs He Hlater sent.
  assert (0 < served_count cfg range)%nat as Hc.
  { unfold served_count, saturating_add, uint_max. lia. }
  split_and!.
  - unfold get_blocks_by_height. rewrite (height_range_hashes_chain cfg m l range) by done.
    cbn [mbind result_bind]. change (mret ?x) with (Ok (E := Status) x). f_equal. apply stream_blocks.
    intros i b Hb. apply Hlater. apply elem_of_take in Hb as (j & Hj & _). rewrite lookup_drop in Hj. by apply list_elem_of_lookup_2 in Hj.
  - subst sent. rewrite length_take, length_drop. lia.
  - subst sent. rewrite length_take, length_drop. unfold served_count, saturating_add, uint_max in *. lia.
Qed.
End WireProperties.

(** * A concrete instance *)

(** Serialization through the countable encoding, one byte per bit. *)
Module ToyPostcard.
Import Toy.

#[export] Instance PowParams_countable : Countable PowParams :=
  inj_countable' (fun p => (target_spacing_secs p, half_life_secs p, initial_hash_threshold p, max_hash_threshold p))
    (fun '(a, b, c, d) => mk_PowParams a b c d) ltac:(by intros []).
#[export] Instance ConsensusConsts_countable : Countable ConsensusConsts :=
  inj_countable' (fun c => (pow c, initial_subsidy c, decay_interval c, decay_step c))
    (fun '(a, b, c, d) => mk_ConsensusConsts a b c d) ltac:(by intros []).
#[export] Instance GenesisState_countable : Countable GenesisState :=
  inj_countable' consensus_consts mk_GenesisState ltac:(by intros []).

Definition to_bytes {A} `{Countable A} (x : A) : list byte :=
  (fun b : bool => if b then Byte.x01 else Byte.x00) <$> pos_bits (encode x).

Fixpoint bits_pos (l : list byte) : positive :=
  match l with
  | [] | [_] => 1
  | b :: l => if Byte.eqb b Byte.x01 then (bits_pos l)~1 else (bits_pos l)~0
  end.

Definition from_bytes {A} `{Countable A} (l : list byte) : result string A :=
  ok_or (decode (bits_pos l)) "Hit the end of buffer".

Lemma bits_pos_bits p : bits_pos ((fun b : bool => if b then Byte.x01 else Byte.x00) <$> pos_bits p) = p.
Proof.
  induction p as [p IH|p IH|]; [| |done]; cbn [pos_bits]; rewrite fmap_cons.
  all: destruct (pos_bits p) as [|b l] eqn:Hp; [by destruct p|].
  all: rewrite fmap_cons in *; cbn [bits_pos Byte.eqb]; cbn; f_equal; exact IH.
Qed.

Lemma from_to_bytes {A} `{Countable A} (x : A) : from_bytes (to_bytes x) = Ok x.
Proof. unfold from_bytes, to_bytes. by rewrite bits_pos_bits, decode_encode. Qed.

#[export] Instance postcard : Postcard := {|
  postcard_genesis_state := to_bytes;
  postcard_genesis_state_from := from_bytes;
  postcard_block_data := to_bytes;
  postcard_block_data_from := from_bytes;
|}.
#[export] Instance postcard_laws : PostcardLaws.
Proof. split; intros; apply from_to_bytes. Qed.
End ToyPostcard.

Section WireWitnesses.
Import Toy ToyPostcard.

Lemma wire_roundtrip_witness : block_from_wire (block_to_wire toy_genesis) = Ok toy_genesis.
Proof.
  apply (wire_roundtrip toy_genesis toy_genesis (mk_PbBlock None None)).
  split_and!; apply (bool_decide_unpack _); vm_compute; exact I.
Defined.

(** A store of the genesis serves the range [0..=0]. *)
Lemma streamed_range_exact_witness :
  exists m, records m [toy_genesis] /\
    get_blocks_by_height (mk_StryiSyncServiceConfig "toy" 1 5) m (fun _ => m) (mk_BlockHeightRange 0 0 5) =
      Ok [Ok (block_to_wire toy_genesis)].
Proof.
  destruct (genesis_init toy_genesis toy_metadata toy_genesis_valid) as (m & _ & R & _).
  exists m. split; [exact (rf_records _ _ R)|].
  refine (proj1 (streamed_range_exact (mk_StryiSyncServiceConfig "toy" 1 5) m [toy_genesis] (fun _ => m)
    (mk_BlockHeightRange 0 0 5) (rf_records _ _ R) _ _ _ _ _)).
  - exact eq_refl.
  - exact eq_refl.
  - split; apply Z.leb_le; exact eq_refl.
  - exact eq_refl.
  - intros _ b Hb. exact (rc_blocks _ _ (rf_records _ _ R) b Hb).
Defined.
End WireWitnesses.
