(* ===== verification/Sync.v ===== *)
(** Sync: block synchronisation from a remote peer: the client of the sync service
    ([node/remote_peer.rs]), the search of the last common ancestor ([node/lca.rs]), the
    ingestion of a batch ([node/ibd.rs]) and the download loop ([node/sync.rs]). *)
From S2P Require Import Prelude Bytes Types Externals Petgraph Hashing Work Merkle Transactions Blocks Storage UtxoProcessor Overlay Transition Difficulty Dependencies Validator Acceptance ChainIndex Engine Consensus Wire.

(** [StryiNodeError]; foreign errors are carried as their text. *)
Inductive StryiNodeError :=
| KeyEncode (e : string)
| KeyDecode (e : string)
| Io (e : string)
| Pkcs8 (e : string)
| HttpServer (msg : string)
| PeerChainInfoMismatch (field local remote : string)
| InvalidConfigValue (msg : string)
| TonicTransport (e : string)
| NodeStorage (e : StorageError)
| NodeCore (e : StryiCoreError)
| NodeOther (msg : string).

(** * The remote peer *)

(** A validated view of [PbChainInfo]. *)
Record RemoteChainInfo := mk_RemoteChainInfo {
  remote_height : Z;
  remote_tip_hash : BlockHash;
  remote_chain_work : Z;
  remote_last_update_time : Z;
  remote_protocol_version : Z;
  remote_chain_name : string;
}.

(** What a peer answers to each request. Nothing is assumed of the answers; within each
    of the loops below no request is made twice, so a function of the request stands for
    any peer, whatever it does over time. *)
Record RemotePeer := mk_RemotePeer {
  grpc_chain_info : result Status PbChainInfo;
  grpc_blocks_by_height : BlockHeightRange -> result Status (list (result Status PbBlock));
  grpc_blocks_by_hash : list string -> result Status (list (result Status PbBlock));
}.

Section RemotePeer.
Context {X : Externals} {PC : Postcard}.
Implicit Types (peer : RemotePeer).

(** [impl TryFrom<PbChainInfo> for RemoteChainInfo] *)
Definition chain_info_from_wire (pb : PbChainInfo) : result StryiNodeError RemoteChainInfo :=
  tip_hash ← map_err (fun _ => NodeOther "invalid remote tip hash: {e}")
    (from_hash_string BlockHashKind (ci_latest_block_hash pb));
  work ← map_err (fun _ => NodeOther "invalid remote chain_work: {e}") (chain_work_from_bytes (ci_chain_work pb));
  mret (mk_RemoteChainInfo (ci_height pb) tip_hash work (ci_last_update_time pb)
    (ci_protocol_version pb) (ci_chain_name pb)).

(** [request_chain_info] *)
Definition request_chain_info peer : result StryiNodeError RemoteChainInfo :=
  response ← map_err (fun _ => NodeOther "Failed to get chain info from gRPC service: {e}") (grpc_chain_info peer);
  chain_info_from_wire response.

(** The loop over a block stream: it ends with the stream, at the first error, or when
    enough blocks are collected. *)
Fixpoint collect_stream (stream_error : string) (enough : list Block -> bool) (out : list Block)
    (stream : list (result Status PbBlock)) : result StryiNodeError (list Block) :=
  match stream with
  | [] => Ok out
  | item :: stream =>
      pb ← map_err (fun _ => NodeOther stream_error) item;
      block ← map_err (fun _ => NodeOther "failed to convert wire Block: {e:?}") (block_from_wire pb);
      let out := out ++ [block] in
      if enough out then Ok out else collect_stream stream_error enough out stream
  end.

(** [request_blocks_by_hashes] *)
Definition request_blocks_by_hashes peer (hashes : list BlockHash) (max_blocks : nat) :
    result StryiNodeError (list Block) :=
  if (max_blocks <? length hashes)%nat then Err (NodeOther "too many hashes requested")
  else
    stream ← map_err (fun _ => NodeOther "get_blocks_by_hash failed: {e}")
      (grpc_blocks_by_hash peer (Hash_to_string <$> hashes));
    collect_stream "get_blocks_by_hash stream error: {status}" (fun out => (max_blocks <=? length out)%nat) [] stream.

(** [request_block_by_hash]; [pop] takes the last of the collected blocks. *)
Definition request_block_by_hash peer (hash : BlockHash) : result StryiNodeError Block :=
  blocks ← request_blocks_by_hashes peer [hash] 1;
  ok_or (last blocks) (NodeOther "block not found").

(** [request_genesis] *)
Definition request_genesis peer : result StryiNodeError Block := request_block_by_hash peer BlockHash_empty.

(** [request_blocks_by_height_range] *)
Definition request_blocks_by_height_range peer (start_height end_height max_blocks : Z) :
    result StryiNodeError (list Block) :=
  stream ← map_err (fun _ => NodeOther "get_blocks_by_height({start_height}..={end_height}) failed: {e}")
    (grpc_blocks_by_height peer (mk_BlockHeightRange start_height end_height max_blocks));
  collect_stream "get_blocks_by_height stream error: {status}"
    (fun out => max_blocks <=? wrap 32 (Z.of_nat (length out))) [] stream.

(** [request_block_by_height] *)
Definition request_block_by_height peer (height : Z) : result StryiNodeError Block :=
  blocks ← request_blocks_by_height_range peer height height 1;
  ok_or (last blocks) (NodeOther "block not found").
End RemotePeer.

(** * The last common ancestor *)

Section Lca.
Context {X : Externals} {PC : Postcard} {DB : Type} `{FullNodeStorage DB}.
Implicit Types (storage : DB) (peer : RemotePeer).

(** The binary search. [low] and [high] are 64 bits wide and the interval is halved by
    every round, so 65 rounds are enough ([find_lca_total]). *)
Fixpoint lca_loop (fuel : nat) storage peer (low_height high_height best_height : Z) (best_hash : BlockHash) :
    result StryiNodeError (Z * BlockHash) :=
  if low_height <=? high_height then
    match fuel with
    | O => Err (NodeOther "find_lca: out of fuel")
    | Datatypes.S fuel =>
        let mid_height := low_height + (high_height - low_height) / 2 in
        view ← map_err NodeStorage (db_read storage);
        found ← map_err (fun _ => NodeOther "local get_block_by_height({mid_height}) failed: {e}")
          (get_block_by_height view mid_height);
        local_block ← ok_or found (NodeOther "local block missing at height {mid_height}");
        remote_block ← request_block_by_height peer mid_height;
        let local_hash := block_hash local_block in
        let remote_hash := block_hash remote_block in
        if bool_decide (local_hash = remote_hash)
        then lca_loop fuel storage peer (saturating_add 64 mid_height 1) high_height mid_height local_hash
        else if mid_height =? 0 then Ok (best_height, best_hash)
        else lca_loop fuel storage peer low_height (mid_height - 1) best_height best_hash
    end
  else Ok (best_height, best_hash).

(** [find_lca] *)
Definition find_lca storage peer (remote_tip_height local_tip_height : Z) : result StryiNodeError (Z * BlockHash) :=
  lca_loop 65 storage peer 0 (Z.min remote_tip_height local_tip_height) 0 BlockHash_empty.
End Lca.

(** * Download *)

Section Download.
Context {X : Externals} {P : PetGraph nat} {I : HashIteration} {PC : Postcard} {DB : Type} `{FullNodeStorage DB}.
Variable schedule : list nat -> list nat.

(** The clock as it reads when the [i]-th block since the start of the download is fed. *)
Implicit Types (clock : nat -> result string Z) (peer : RemotePeer) (engine : Engine DB).

(** [ingest_ibd_batch]: stops at the first rejection or error. The counters and the log
    are left out. The engine is returned with the error too: its database outlives it. *)
Fixpoint ingest_ibd_batch clock (fed : nat) engine (blocks_in_order : list Block) :
    result StryiNodeError unit * Engine DB :=
  match blocks_in_order with
  | [] => (Ok tt, engine)
  | b :: blocks_in_order =>
      match on_block schedule (clock fed) b engine with
      | (Err e, engine) => (Err (NodeCore e), engine)
      | (Ok (Rejected e), engine) =>
          (Err (NodeOther "IBD rejected block {} at height {}: {}"), engine)
      | (Ok _, engine) => ingest_ibd_batch clock (Datatypes.S fed) engine blocks_in_order
      end
  end.

(** The loop of [run_ibd]. Every batch that does not end the loop raises the height, so
    the number of heights left is enough fuel ([run_ibd_total]). *)
Fixpoint ibd_loop (fuel : nat) clock (fed : nat) engine peer (current_height to_height max_batch : Z) :
    result StryiNodeError unit * Engine DB :=
  if current_height <=? to_height then
    match fuel with
    | O => (Err (NodeOther "run_ibd: out of fuel"), engine)
    | Datatypes.S fuel =>
        match request_blocks_by_height_range peer current_height to_height (wrap 32 max_batch) with
        | Err e => (Err e, engine)
        | Ok [] => (Ok tt, engine)
        | Ok blocks =>
            let fetched_count := Z.of_nat (length blocks) in
            match ingest_ibd_batch clock fed engine blocks with
            | (Err e, engine) => (Err e, engine)
            | (Ok _, engine) =>
                match checked_add 64 current_height fetched_count with
                | None => (Err (NodeOther "IBD height overflow"), engine)
                | Some current_height =>
                    ibd_loop fuel clock (fed + length blocks) engine peer current_height to_height max_batch
                end
            end
        end
    end
  else (Ok tt, engine).

(** [run_ibd] *)
Definition run_ibd clock engine peer (from_height to_height max_batch : Z) :
    result StryiNodeError unit * Engine DB :=
  ibd_loop (Z.to_nat (to_height - from_height + 1)) clock 0 engine peer from_height to_height max_batch.
End Download.

(** * An honest peer *)

Section Honest.
Context {X : Externals} `{!HexLaws} {PC : Postcard} `{!PostcardLaws}.
Implicit Types (l : list Block) (b : Block) (m : MemoryView) (cfg : StryiSyncServiceConfig).

(** The peer that runs the sync service over the store [m]. *)
Definition serving cfg m : RemotePeer := {|
  grpc_chain_info := get_chain_info cfg m;
  grpc_blocks_by_height range := get_blocks_by_height cfg m (fun _ => m) range;
  grpc_blocks_by_hash hashes := get_blocks_by_hash cfg (fun _ => m) hashes;
|}.

(** What a service needs to answer for the chain [l]. *)
Record serves cfg m l : Prop := {
  sv_records : records m l;
  sv_typed : Forall (fun b => header_typed (header b)) l;
  sv_length : Z.of_nat (length l) < 2 ^ 64;
  sv_max : 0 < max_blocks_range_per_request cfg;
}.

Lemma collect_wire err enough (most : nat) bs out :
  (forall out, (length out <= most)%nat -> enough out = (most <=? length out)%nat) ->
  Forall (fun b => header_typed (header b)) bs -> (length out < most)%nat ->
  collect_stream err enough out ((fun b => Ok (block_to_wire b)) <$> bs) = Ok (out ++ take (most - length out) bs).
Proof.
  intros He Hty. revert out. induction Hty as [|b bs Hb _ IH]; intros out Hlt.
  - cbn. by rewrite take_nil, app_nil_r.
  - rewrite fmap_cons. cbn [collect_stream map_err mbind result_bind]. rewrite (block_wire b Hb). cbn [map_err mbind result_bind].
    assert (length (out ++ [b]) = Datatypes.S (length out)) as Hlen by (rewrite length_app; cbn; lia).
    rewrite He by lia. rewrite Hlen. destruct (Nat.leb_spec most (Datatypes.S (length out))).
    + replace (most - length out)%nat with 1%nat by lia. done.
    + rewrite IH by (rewrite Hlen; lia). rewrite Hlen.
      replace (most - length out)%nat with (Datatypes.S (most - Datatypes.S (length out))) by lia.
      cbn [take]. by rewrite <-app_assoc.
Qed.

(** How many blocks one request brings. *)
Definition batch_count cfg (from to max : Z) : nat :=
  Z.to_nat (Z.min (to - from + 1) (Z.min (max_blocks_range_per_request cfg) max)).

Lemma serving_range cfg m l from to max :
  serves cfg m l -> 0 <= from <= to -> to < Z.of_nat (length l) -> 0 < max < 2 ^ 32 ->
  request_blocks_by_height_range (serving cfg m) from to max =
    Ok (take (batch_count cfg from to max) (drop (Z.to_nat from) l)).
Proof.
  intros [R Hty Hlen Hcfg] Hf Ht Hmax. unfold request_blocks_by_height_range, serving. cbn [grpc_blocks_by_height].
  unfold get_blocks_by_height. rewrite (height_range_hashes_chain cfg m l) by done.
  cbn [mbind result_bind start_height]. change (mret ?x) with (Ok (E := Status) x). cbn [map_err mbind result_bind].
  rewrite (stream_blocks (fun _ => m)).
  2: { intros _ b Hb. apply (rc_blocks _ _ R). apply elem_of_take in Hb as (j & Hj & _).
       rewrite lookup_drop in Hj. by apply list_elem_of_lookup_2 in Hj. }
  rewrite (collect_wire _ _ (Z.to_nat max)).
  - cbn [app length]. rewrite Nat.sub_0_r, take_take. do 2 f_equal. unfold served_count, batch_count.
    cbn [start_height end_height]. unfold saturating_add, uint_max. lia.
  - intros out Hout. rewrite wrap_small by (split; lia).
    destruct (Z.leb_spec max (Z.of_nat (length out))), (Nat.leb_spec (Z.to_nat max) (length out)); lia || done.
  - by apply Forall_take, Forall_drop.
  - cbn. lia.
Qed.

Lemma serving_block cfg m l h b :
  serves cfg m l -> 0 <= h -> l !! Z.to_nat h = Some b ->
  request_block_by_height (serving cfg m) h = Ok b.
Proof.
  intros Hs Hh Hb. pose proof (lookup_lt_Some _ _ _ Hb) as Hlt. pose proof (sv_max _ _ _ Hs) as Hcfg.
  unfold request_block_by_height. rewrite (serving_range cfg m l h h 1) by (done || lia).
  cbn [mbind result_bind]. unfold batch_count.
  replace (Z.to_nat (Z.min (h - h + 1) (Z.min (max_blocks_range_per_request cfg) 1))) with 1%nat by lia.
  by rewrite (drop_S l b (Z.to_nat h) Hb).
Qed.
End Honest.

(** * The binary search *)

Section Search.
Context {X : Externals} {PC : Postcard} {DB : Type} `{FullNodeStorage DB}.
Variables (storage : DB) (peer : RemotePeer) (mine theirs : Z -> Block) (top : Z).

(** Both sides answer up to [top], the same blocks whenever they are asked. *)
Hypothesis local_answers : forall h, 0 <= h <= top ->
  exists view, db_read storage = Ok view /\ get_block_by_height view h = Ok (Some (mine h)).
Hypothesis remote_answers : forall h, 0 <= h <= top -> request_block_by_height peer h = Ok (theirs h).
Hypothesis top_fits : top < 2 ^ 64 - 1.

Definition agree (h : Z) : Prop := block_hash (mine h) = block_hash (theirs h).

(** Chains that agree at a height agree below it. *)
Hypothesis agree_below : forall i j, 0 <= i <= j -> j <= top -> agree j -> agree i.

(** The greatest agreeing height up to [top] and its hash; the default where there is none. *)
Definition greatest (best : Z * BlockHash) : Prop :=
  (forall h, best.1 < h <= top -> ~ agree h) /\
  (0 <= best.1 <= top /\ agree best.1 /\ best.2 = block_hash (mine best.1) \/
   best = (0, BlockHash_empty) /\ (0 <= top -> ~ agree 0)).

Lemma lca_loop_greatest (fuel : nat) low high best_height best_hash :
  0 <= low -> high <= top -> high - low + 1 < 2 ^ Z.of_nat fuel ->
  (forall h, high < h <= top -> ~ agree h) ->
  low = best_height + 1 /\ 0 <= best_height <= top /\ agree best_height /\ best_hash = block_hash (mine best_height) \/
    low = 0 /\ (best_height, best_hash) = (0, BlockHash_empty) ->
  exists best, lca_loop fuel storage peer low high best_height best_hash = Ok best /\ greatest best.
Proof.
  revert low high best_height best_hash. induction fuel as [|fuel IH]; intros low high bh bx Hlow Hhigh Hfuel Habove Hbest.
  all: cbn [lca_loop]; destruct (Z.leb_spec low high) as [Hle|Hgt].
  2, 4: exists (bh, bx); split; [done|]; unfold greatest; cbn [fst snd];
    destruct Hbest as [(-> & Hb)|(-> & [= -> ->])]; split; [intros h Hh; apply Habove; lia|by left|intros h Hh; apply Habove; lia|];
    right; split; [done|intros Ht; apply Habove; lia].
  - cbn in Hfuel. lia.
  - set (mid := low + (high - low) / 2).
    assert (low <= mid <= high) as Hmid.
    { subst mid. pose proof (Z.div_pos (high - low) 2 ltac:(lia) ltac:(lia)).
      pose proof (Z.div_le_upper_bound (high - low) 2 (high - low) ltac:(lia) ltac:(lia)). lia. }
    assert (high - low <= 2 * ((high - low) / 2) + 1 /\ 2 * ((high - low) / 2) <= high - low) as [Hd1 Hd2].
    { pose proof (Z.div_mod (high - low) 2 ltac:(lia)). pose proof (Z.mod_pos_bound (high - low) 2 ltac:(lia)). lia. }
    assert (2 ^ Z.of_nat (Datatypes.S fuel) = 2 * 2 ^ Z.of_nat fuel) as Hpow.
    { rewrite Nat2Z.inj_succ. by apply Z.pow_succ_r, Nat2Z.is_nonneg. }
    rewrite Hpow in Hfuel.
    destruct (local_answers mid) as (view & -> & Hget); [lia|]. cbn [map_err mbind result_bind].
    rewrite Hget. cbn [map_err mbind result_bind ok_or]. rewrite remote_answers by lia. cbn [mbind result_bind].
    case_bool_decide as Hagree.
    + apply IH; [unfold saturating_add, uint_max; lia|done|unfold saturating_add, uint_max; lia|done|].
      left. split_and!; [unfold saturating_add, uint_max; lia|lia|lia|done|done].
    + destruct (Z.eqb_spec mid 0) as [Hz|Hz].
      * assert (low = 0) as Hl0 by lia. exists (bh, bx). split; [done|].
        destruct Hbest as [Hb|(_ & [= -> ->])]; [lia|]. split; cbn [fst snd].
        { intros h Hh Ha. apply Hagree. apply (agree_below mid h); [lia|lia|done]. }
        right. split; [done|]. intros _ Ha. apply Hagree. by rewrite Hz.
      * apply IH; [done|lia|lia| |].
        { intros h Hh Ha. apply Hagree. apply (agree_below mid h); [lia|lia|done]. }
        destruct Hbest as [(-> & Hb)|Hb]; [left; split; [lia|done]|by right].
Qed.
End Search.

(** * Common prefixes *)

Section Prefixes.
Context {X : Externals}.
Implicit Types (l : list Block) (b : Block).

(** The hash tells the blocks of the two chains apart. *)
Definition no_collision l l' : Prop :=
  forall b b', b ∈ l -> b' ∈ l' -> block_hash b = block_hash b' -> b = b'.

(** Two chains with the same block at one height have the same blocks below it. *)
Lemma common_prefix l l' (i : nat) b b' :
  chain_shape l -> chain_shape l' -> no_collision l l' ->
  l !! i = Some b -> l' !! i = Some b' -> block_hash b = block_hash b' ->
  take (Datatypes.S i) l = take (Datatypes.S i) l'.
Proof.
  intros Hs Hs' Hc. revert b b'. induction i as [|i IH]; intros b b' Hb Hb' Heq.
  all: assert (b = b') as <- by (apply Hc; [by eapply list_elem_of_lookup_2..|done]).
  - by rewrite (take_S_r _ _ _ Hb), (take_S_r _ _ _ Hb').
  - rewrite (take_S_r _ _ _ Hb), (take_S_r _ _ _ Hb'). f_equal.
    destruct (lookup_lt_is_Some_2 l i) as [p Hp]; [apply lookup_lt_Some in Hb; lia|].
    destruct (lookup_lt_is_Some_2 l' i) as [p' Hp']; [apply lookup_lt_Some in Hb'; lia|].
    apply (IH p p' Hp Hp'). rewrite <-(chain_parent l i b p Hs Hb Hp). exact (chain_parent l' i b p' Hs' Hb' Hp').
Qed.
End Prefixes.

(** * The search ends *)

Section Total.
Context {X : Externals} {PC : Postcard}.
Implicit Types (peer : RemotePeer).

(** The only errors the client makes up itself. *)
Definition is_fuel_error (e : StryiNodeError) : bool :=
  match e with
  | NodeOther msg => bool_decide (msg = "find_lca: out of fuel"%string \/ msg = "run_ibd: out of fuel"%string)
  | _ => false
  end.

Lemma collect_stream_error err enough out stream e :
  is_fuel_error (NodeOther err) = false ->
  collect_stream err enough out stream = Err e -> is_fuel_error e = false.
Proof.
  intros Herr. revert out. induction stream as [|item stream IH]; intros out; cbn [collect_stream]; [done|].
  destruct item as [pb|st]; cbn [map_err mbind result_bind]; [|by intros [= <-]].
  destruct (block_from_wire pb) as [b|ce]; cbn [map_err mbind result_bind]; [|by intros [= <-]].
  destruct (enough _); [done|apply IH].
Qed.

Lemma request_range_error peer from to max e :
  request_blocks_by_height_range peer from to max = Err e -> is_fuel_error e = false.
Proof.
  unfold request_blocks_by_height_range. destruct (grpc_blocks_by_height _ _); cbn [map_err mbind result_bind]; [|by intros [= <-]].
  by apply collect_stream_error.
Qed.

Lemma request_block_error peer h e : request_block_by_height peer h = Err e -> is_fuel_error e = false.
Proof.
  unfold request_block_by_height. destruct (request_blocks_by_height_range _ _ _ _) as [bs|e'] eqn:Hr; cbn [mbind result_bind].
  - destruct (last bs); cbn [ok_or]; [done|by intros [= <-]].
  - intros [= <-]. by eapply request_range_error.
Qed.

Lemma lca_loop_total {DB} `{FullNodeStorage DB} (fuel : nat) (storage : DB) peer low high best_height best_hash e :
  0 <= low -> high < 2 ^ 64 - 1 -> high - low + 1 < 2 ^ Z.of_nat fuel ->
  lca_loop fuel storage peer low high best_height best_hash = Err e -> is_fuel_error e = false.
Proof.
  revert low high best_height best_hash. induction fuel as [|fuel IH]; intros low high bh bx Hlow Hhigh Hfuel.
  all: cbn [lca_loop]; destruct (Z.leb_spec low high) as [Hle|Hgt]; [|done].
  - cbn in Hfuel. lia.
  - set (mid := low + (high - low) / 2).
    pose proof (Z.div_mod (high - low) 2 ltac:(lia)). pose proof (Z.mod_pos_bound (high - low) 2 ltac:(lia)).
    assert (2 ^ Z.of_nat (Datatypes.S fuel) = 2 * 2 ^ Z.of_nat fuel) as Hpow.
    { rewrite Nat2Z.inj_succ. by apply Z.pow_succ_r, Nat2Z.is_nonneg. }
    rewrite Hpow in Hfuel.
    destruct (db_read storage) as [view|se]; cbn [map_err mbind result_bind]; [|by intros [= <-]].
    destruct (get_block_by_height view mid) as [[b|]|se]; cbn [map_err mbind result_bind ok_or]; [|by intros [= <-]..].
    destruct (request_block_by_height peer mid) as [rb|re] eqn:Hr; cbn [mbind result_bind].
    2: { intros [= <-]. by eapply request_block_error. }
    case_bool_decide.
    + apply IH; unfold saturating_add, uint_max; lia.
    + destruct (Z.eqb_spec mid 0); [done|]. apply IH; lia.
Qed.
End Total.

(** * The search between two chains *)

Section LcaChains.
Context {X : Externals} `{!HexLaws} {PC : Postcard} `{!PostcardLaws}.
Implicit Types (l : list Block) (b : Block) (m : MemoryView) (cfg : StryiSyncServiceConfig).

Lemma genesis_hash b : is_genesis b = true -> block_hash b = BlockHash_empty.
Proof. intros Hg. unfold block_hash. by rewrite Hg. Qed.

Lemma memory_block_at m l h b :
  records m l -> 0 <= h -> l !! Z.to_nat h = Some b -> memory_get_block_by_height m h = Ok (Some b).
Proof.
  intros R Hh Hb. unfold memory_get_block_by_height. rewrite (rc_heights _ _ R). unfold height_lookup.
  rewrite decide_True by done. rewrite Hb. cbn [fmap option_fmap option_map].
  by rewrite (rc_blocks _ _ R) by by eapply list_elem_of_lookup_2.
Qed.

Lemma find_lca_common cfg m l m' l' :
  records m l -> serves cfg m' l' -> no_collision l l' ->
  exists k b, find_lca m (serving cfg m') (Z.of_nat (length l') - 1) (Z.of_nat (length l) - 1) =
      Ok (Z.of_nat k, block_hash b) /\
    l !! k = Some b /\ take (Datatypes.S k) l = take (Datatypes.S k) l' /\
    forall j b1 b2, (k < j)%nat -> l !! j = Some b1 -> l' !! j = Some b2 -> block_hash b1 <> block_hash b2.
Proof.
  intros R Hsv Hc. pose proof (rc_shape _ _ R) as Hs. pose proof (rc_shape _ _ (sv_records _ _ _ Hsv)) as Hs'.
  destruct l as [|g l0] eqn:Hl; [done|]. destruct l' as [|g' l0'] eqn:Hl'; [done|]. rewrite <-Hl, <-Hl' in *.
  assert (0 < length l)%nat as Hlen by (rewrite Hl; cbn; lia). assert (0 < length l')%nat as Hlen' by (rewrite Hl'; cbn; lia).
  pose proof (chain_bound _ Hs) as Hbd. pose proof (chain_bound _ Hs') as Hbd'.
  set (top := Z.min (Z.of_nat (length l') - 1) (Z.of_nat (length l) - 1)).
  set (mine h := nth (Z.to_nat h) l g). set (theirs h := nth (Z.to_nat h) l' g).
  assert (forall h, 0 <= h <= top -> l !! Z.to_nat h = Some (mine h)) as Hmine.
  { intros h Hh. destruct (nth_lookup_or_length l (Z.to_nat h) g); [done|lia]. }
  assert (forall h, 0 <= h <= top -> l' !! Z.to_nat h = Some (theirs h)) as Htheirs.
  { intros h Hh. destruct (nth_lookup_or_length l' (Z.to_nat h) g); [done|lia]. }
  assert (agree mine theirs 0) as Hgen.
  { unfold agree, mine, theirs. rewrite Hl, Hl'. cbn. rewrite Hl in Hs. rewrite Hl' in Hs'.
    destruct Hs as (Hg & _), Hs' as (Hg' & _). by rewrite !genesis_hash. }
  destruct (lca_loop_greatest m (serving cfg m') mine theirs top) with (fuel := 65%nat) (low := 0) (high := top)
    (best_height := 0) (best_hash := BlockHash_empty) as ([h hash] & Hres & Habove & Hbest).
  - intros h Hh. exists m. split; [done|]. apply (memory_block_at m l); [done|lia|by apply Hmine].
  - intros h Hh. apply (serving_block cfg m' l'); [done|lia|by apply Htheirs].
  - lia.
  - intros i j Hi Hj Ha. pose proof (common_prefix l l' _ _ _ Hs Hs' Hc (Hmine j ltac:(lia)) (Htheirs j ltac:(lia)) Ha) as Htk.
    assert (l !! Z.to_nat i = l' !! Z.to_nat i) as Heq.
    { rewrite <-(lookup_take_lt l (Datatypes.S (Z.to_nat j))), Htk by lia. apply lookup_take_lt. lia. }
    rewrite (Hmine i), (Htheirs i) in Heq by lia. unfold agree. by injection Heq as ->.
  - lia.
  - done.
  - change (2 ^ Z.of_nat 65) with 36893488147419103232. lia.
  - intros h Hh. lia.
  - by right.
  - cbn [fst snd] in *. destruct Hbest as [(Hh & Ha & ->)|(_ & Hno)]; [|exfalso; by apply Hno; [lia|]].
    exists (Z.to_nat h), (mine h). unfold find_lca. fold top. rewrite Hres. split_and!.
    + do 2 f_equal. lia.
    + by apply Hmine.
    + by apply (common_prefix l l' _ _ _ Hs Hs' Hc (Hmine h Hh) (Htheirs h Hh)).
    + intros j b1 b2 Hj H1 H2 Heq. pose proof (lookup_lt_Some _ _ _ H1). pose proof (lookup_lt_Some _ _ _ H2).
      apply (Habove (Z.of_nat j)); [lia|]. unfold agree.
      pose proof (Hmine (Z.of_nat j) ltac:(lia)) as Hm1. pose proof (Htheirs (Z.of_nat j) ltac:(lia)) as Hm2.
      rewrite Nat2Z.id in Hm1, Hm2. congruence.
Qed.
End LcaChains.

(** * Feeding the downloaded blocks *)

Section Feeding.
Context {X : Externals} {P : PetGraph nat} {I : HashIteration} {PC : Postcard}.
Implicit Types (e : Engine MemoryView) (peer : RemotePeer) (clock : nat -> result string Z) (bs : list Block).
Variable schedule : list nat -> list nat.

(** A run of blocks, each with the clock reading of its moment. *)
Definition timed clock (fed : nat) bs : list (result string Z * Block) :=
  imap (fun i b => (clock (fed + i)%nat, b)) bs.

Lemma timed_cons clock fed b bs : timed clock fed (b :: bs) = (clock fed, b) :: timed clock (Datatypes.S fed) bs.
Proof.
  unfold timed. rewrite imap_cons, Nat.add_0_r. f_equal. apply imap_ext. intros i x _. cbn. do 2 f_equal. lia.
Qed.

Lemma feed_app e incoming1 incoming2 :
  feed schedule e (incoming1 ++ incoming2) = feed schedule (feed schedule e incoming1) incoming2.
Proof. revert e. induction incoming1 as [|[now b] incoming1 IH]; intros e; [done|]. cbn [app feed]. apply IH. Qed.

(** The engine takes the block: no rejection and no error. *)
Definition takes e (x : result string Z * Block) : bool :=
  match (on_block schedule x.1 x.2 e).1 with Ok (Rejected _) | Err _ => false | Ok _ => true end.

(** The engine takes every block of a sequence when they are fed in this order. *)
Fixpoint takes_all e (incoming : list (result string Z * Block)) : bool :=
  match incoming with
  | [] => true
  | x :: incoming => takes e x && takes_all (on_block schedule x.1 x.2 e).2 incoming
  end.

Lemma feed_cons e x incoming : feed schedule e (x :: incoming) = feed schedule (on_block schedule x.1 x.2 e).2 incoming.
Proof. by destruct x. Qed.

Lemma takes_all_app e incoming1 incoming2 :
  takes_all e (incoming1 ++ incoming2) = takes_all e incoming1 && takes_all (feed schedule e incoming1) incoming2.
Proof.
  revert e. induction incoming1 as [|x incoming1 IH]; intros e; [done|]. cbn [app takes_all].
  by rewrite IH, feed_cons, andb_assoc.
Qed.

Lemma takes_all_removelast e incoming : takes_all e incoming = true -> takes_all e (removelast incoming) = true.
Proof.
  destruct incoming as [|x incoming _] using rev_ind; [done|]. rewrite removelast_last, takes_all_app.
  by intros [? _]%andb_true_iff.
Qed.

Lemma timed_app clock fed bs1 bs2 :
  timed clock fed (bs1 ++ bs2) = timed clock fed bs1 ++ timed clock (fed + length bs1) bs2.
Proof.
  revert fed. induction bs1 as [|b bs1 IH]; intros fed; cbn [app length]; [by rewrite Nat.add_0_r|].
  rewrite !timed_cons, IH. cbn [app]. do 2 f_equal. f_equal. lia.
Qed.

(** What the ingestion of a batch does: the blocks are fed in order up to the first that is
    not taken, which ends it with an error. *)
Record ingested clock fed e bs (out : result StryiNodeError unit * Engine MemoryView) (n : nat) : Prop := {
  ig_some : bs <> [] -> (0 < n)%nat;
  ig_length : (n <= length bs)%nat;
  ig_fed : out.2 = feed schedule e (timed clock fed (take n bs));
  ig_taken : takes_all e (removelast (timed clock fed (take n bs))) = true;
  ig_ok : out.1 = Ok tt -> n = length bs /\ takes_all e (timed clock fed bs) = true;
  ig_err err : out.1 = Err err -> is_fuel_error err = false /\ takes_all e (timed clock fed (take n bs)) = false;
}.

Lemma removelast_cons {A} (x : A) l : l <> [] -> removelast (x :: l) = x :: removelast l.
Proof. by destruct l. Qed.

Lemma timed_nonempty clock fed bs : bs <> [] -> timed clock fed bs <> [].
Proof. by destruct bs. Qed.

Lemma ingest_step clock fed e b bs n :
  takes e (clock fed, b) = true ->
  ingested clock (Datatypes.S fed) (on_block schedule (clock fed) b e).2 bs
    (ingest_ibd_batch schedule clock (Datatypes.S fed) (on_block schedule (clock fed) b e).2 bs) n ->
  ingested clock fed e (b :: bs)
    (ingest_ibd_batch schedule clock (Datatypes.S fed) (on_block schedule (clock fed) b e).2 bs) (Datatypes.S n).
Proof.
  intros Ht [Hsome Hlen Hfed Htaken Hok Herr]. split; cbn [length take]; rewrite ?timed_cons; cbn [takes_all]; rewrite ?Ht; cbn [andb].
  - lia.
  - lia.
  - by rewrite feed_cons.
  - destruct (decide (take n bs = [])) as [->|Hne]; [done|]. rewrite removelast_cons by by apply timed_nonempty.
    cbn [takes_all fst snd]. by rewrite Ht.
  - intros Ho. destruct (Hok Ho) as [-> Ha]. by split.
  - exact Herr.
Qed.

Lemma ingest_feeds clock fed e bs : exists n, ingested clock fed e bs (ingest_ibd_batch schedule clock fed e bs) n.
Proof.
  revert fed e. induction bs as [|b bs IH]; intros fed e; cbn [ingest_ibd_batch]; [by exists 0%nat|].
  destruct (takes e (clock fed, b)) eqn:Ht; pose proof Ht as Ht'; unfold takes in Ht'; cbn [fst snd] in Ht'.
  - destruct (IH (Datatypes.S fed) (on_block schedule (clock fed) b e).2) as (n & Hn).
    exists (Datatypes.S n). pose proof (ingest_step _ _ _ _ _ _ Ht Hn) as Hgo.
    destruct (on_block schedule (clock fed) b e) as [[[| | | |err|]|err] e1]; done.
  - exists 1%nat. pose proof (feed_cons e (clock fed, b) []) as Hone. cbn [fst snd feed] in Hone.
    destruct (on_block schedule (clock fed) b e) as [[[| | | |err|]|err] e1] eqn:Hon; try done.
    all: split; cbn [length take]; rewrite ?timed_cons; cbn [timed imap takes_all removelast]; rewrite ?Ht;
      [lia|lia|by cbn [feed]; rewrite Hon|done|done|by intros ? [= <-]].
Qed.

(** The blocks the node has asked a peer for, and what it did with them: the batches are the
    answers to the requests made, the first from [from] on, each next one from where the
    last ended; all of them but the last, and the first blocks of the last, were fed one
    after the other; and it ended where the heights did, with an empty answer, with a
    block the engine did not take, with a failed request or with the last height. *)
Record downloaded clock fed e peer (from to max : Z) (out : result StryiNodeError unit * Engine MemoryView)
    (batches : list (list Block)) (n : nat) : Prop := {
  dl_batches i bs : batches !! i = Some bs ->
    bs <> [] /\ from + Z.of_nat (length (concat (take i batches))) <= to /\
    request_blocks_by_height_range peer (from + Z.of_nat (length (concat (take i batches)))) to (wrap 32 max) = Ok bs;
  dl_length : (n <= length (concat batches))%nat;
  dl_last : batches <> [] -> (length (concat (removelast batches)) < n)%nat;
  dl_fed : out.2 = feed schedule e (timed clock fed (take n (concat batches)));
  dl_taken : takes_all e (removelast (timed clock fed (take n (concat batches)))) = true;
  dl_ok : out.1 = Ok tt -> n = length (concat batches) /\ takes_all e (timed clock fed (concat batches)) = true /\
    (to < from + Z.of_nat n \/ request_blocks_by_height_range peer (from + Z.of_nat n) to (wrap 32 max) = Ok []);
  dl_err err : out.1 = Err err -> is_fuel_error err = false /\
    (takes_all e (timed clock fed (take n (concat batches))) = false \/
     n = length (concat batches) /\
     (request_blocks_by_height_range peer (from + Z.of_nat n) to (wrap 32 max) = Err err \/ 2 ^ 64 <= from + Z.of_nat n));
}.

(** A download that ends before its first batch. *)
Lemma downloaded_nothing clock fed e peer from to max r :
  (r = Ok tt -> to < from \/ request_blocks_by_height_range peer from to (wrap 32 max) = Ok []) ->
  (forall err, r = Err err -> is_fuel_error err = false /\ request_blocks_by_height_range peer from to (wrap 32 max) = Err err) ->
  downloaded clock fed e peer from to max (r, e) [] 0.
Proof.
  intros Hok Herr. split; cbn [fst snd take concat length timed imap feed takes_all removelast]; rewrite ?Z.add_0_r; try done.
  - intros Ho. by split_and!; [..|apply Hok].
  - intros err Ho. destruct (Herr err Ho). by split; [|right; split; [|left]].
Qed.

(** A download that ends within its first batch, or right after it. *)
Lemma downloaded_batch clock fed e peer from to max r bs n :
  bs <> [] -> from <= to -> request_blocks_by_height_range peer from to (wrap 32 max) = Ok bs ->
  ingested clock fed e bs (r, feed schedule e (timed clock fed (take n bs))) n ->
  forall r', (r' = Ok tt -> False) ->
  (forall err, r' = Err err -> r = Err err \/ is_fuel_error err = false /\ r = Ok tt /\ 2 ^ 64 <= from + Z.of_nat (length bs)) ->
  downloaded clock fed e peer from to max (r', feed schedule e (timed clock fed (take n bs))) [bs] n.
Proof.
  intros Hne Hle Hr [Hsome Hlen Hfed Htaken Hok Herr] r' Hno Hr'. split; cbn [fst snd concat]; rewrite ?app_nil_r; try done.
  - intros [|i] bs' Hb; [|done]. injection Hb as <-. cbn [take concat length]. by rewrite Z.add_0_r.
  - intros _. cbn. by apply Hsome.
  - intros err Ho. destruct (Hr' err Ho) as [->|(Hf & -> & Hbig)].
    + destruct (Herr err eq_refl) as [Hf Ht]. split; [done|by left].
    + destruct (Hok eq_refl) as [-> _]. split; [done|]. right. split; [done|by right].
Qed.

(** A download that goes on after its first batch. *)
Lemma downloaded_more clock fed e peer from to max out bs batches n :
  bs <> [] -> from <= to -> request_blocks_by_height_range peer from to (wrap 32 max) = Ok bs ->
  takes_all e (timed clock fed bs) = true ->
  downloaded clock (fed + length bs) (feed schedule e (timed clock fed bs)) peer (from + Z.of_nat (length bs)) to max
    out batches n ->
  downloaded clock fed e peer from to max out (bs :: batches) (length bs + n).
Proof.
  intros Hne Hle Hr Hall [Hb Hlen Hlast Hfed Htaken Hok Herr].
  assert (take (length bs + n) (concat (bs :: batches)) = bs ++ take n (concat batches)) as Htk.
  { cbn [concat]. rewrite take_app_ge by lia. f_equal. f_equal. lia. }
  assert (from + Z.of_nat (length bs + n) = from + Z.of_nat (length bs) + Z.of_nat n) as Hfrom by lia.
  split; rewrite ?Htk, ?Hfrom; cbn [concat]; rewrite ?length_app, ?timed_app, ?feed_app, ?takes_all_app, ?Hall; cbn [andb].
  - intros [|i] bs' Hi; cbn [take concat length].
    + injection Hi as <-. by rewrite Z.add_0_r.
    + rewrite length_app, Nat2Z.inj_add, Z.add_assoc. by apply Hb.
  - lia.
  - intros _. destruct batches as [|bs' batches]; [cbn; destruct bs; [done|cbn; lia]|].
    rewrite removelast_cons by done. cbn [concat]. rewrite length_app. specialize (Hlast ltac:(done)). lia.
  - done.
  - destruct (decide (take n (concat batches) = [])) as [->|Hn].
    + cbn [timed imap]. rewrite app_nil_r. by apply takes_all_removelast.
    + rewrite removelast_app by by apply timed_nonempty. by rewrite takes_all_app, Hall.
  - intros Ho. destruct (Hok Ho) as (-> & Ha & Hend). by split_and!.
  - intros err Ho. destruct (Herr err Ho) as (Hf & [Ht|(-> & Hend)]); (split; [done|]); [by left|right]. by split.
Qed.

Lemma ibd_loop_feeds (fuel : nat) clock fed e peer from to max :
  to - from + 1 <= Z.of_nat fuel ->
  exists batches n, downloaded clock fed e peer from to max
    (ibd_loop schedule fuel clock fed e peer from to max) batches n.
Proof.
  revert fed e from. induction fuel as [|fuel IH]; intros fed e from Hfuel; cbn [ibd_loop];
    destruct (Z.leb_spec from to) as [Hle|Hgt]; try lia.
  1, 3: exists [], 0%nat; apply downloaded_nothing; [by left|done].
  destruct (request_blocks_by_height_range peer from to (wrap 32 max)) as [[|b bs]|err] eqn:Hr.
  - exists [], 0%nat. apply downloaded_nothing; [by right|done].
  - destruct (ingest_feeds clock fed e (b :: bs)) as (n & Hin). pose proof (ig_fed _ _ _ _ _ _ Hin) as He.
    destruct (ingest_ibd_batch schedule clock fed e (b :: bs)) as [[[]|err] e1]; cbn [fst snd] in He; subst e1.
    2: { exists [b :: bs], n. eapply downloaded_batch; [done|exact Hle|exact Hr|exact Hin|done|by left]. }
    destruct (checked_add 64 from (Z.of_nat (length (b :: bs)))) as [next|] eqn:Hadd.
    2: { exists [b :: bs], n. eapply downloaded_batch; [done|exact Hle|exact Hr|exact Hin|done|].
         apply checked_add_None in Hadd. intros err [= <-]. by right. }
    apply checked_add_Some in Hadd as [-> _]. destruct (ig_ok _ _ _ _ _ _ Hin eq_refl) as [-> Hall]. rewrite firstn_all.
    destruct (IH (fed + length (b :: bs))%nat (feed schedule e (timed clock fed (b :: bs))) (from + Z.of_nat (length (b :: bs))))
      as (batches & n & Hd); [cbn [length]; lia|].
    exists ((b :: bs) :: batches), (length (b :: bs) + n)%nat. by apply downloaded_more.
  - exists [], 0%nat. apply downloaded_nothing; [done|]. intros ? [= <-]. split; [|done]. by eapply request_range_error.
Qed.
End Feeding.

(** * Downloading a valid branch *)

Section Reaching.
Context {X : Externals} `{!HexLaws} {P : PetGraph nat} `{!PetGraphLaws nat} {I : HashIteration} `{!HashIterationLaws}.
Context {PC : Postcard} `{!PostcardLaws}.
Implicit Types (e : Engine MemoryView) (l bs : list Block) (b : Block) (v : BlockValidator) (clock : nat -> result string Z).
Variable schedule : list nat -> list nat.
Hypothesis schedule_permutes : forall idxs, schedule idxs ≡ₚ idxs.

(** A block that every node holding [l] accepts as the next one when its clock reads [now]. *)
Record next_block v (now : result string Z) l b : Prop := {
  nb_continues : continues l b;
  nb_accepted : exists n, now = Ok n /\
    (forall m, refines m l -> header_follows (difficulty_calc v) m n b) /\
    exists cb reward pays, acceptable (validator_consts v) (ledger_view l) b cb reward pays;
}.

Fixpoint valid_branch v clock (fed : nat) l bs : Prop :=
  match bs with
  | [] => True
  | b :: bs => next_block v (clock fed) l b /\ valid_branch v clock (Datatypes.S fed) (l ++ [b]) bs
  end.

Lemma valid_branch_app v clock fed l bs1 bs2 :
  valid_branch v clock fed l (bs1 ++ bs2) <->
  valid_branch v clock fed l bs1 /\ valid_branch v clock (fed + length bs1) (l ++ bs1) bs2.
Proof.
  revert fed l. induction bs1 as [|b bs1 IH]; intros fed l; cbn [app valid_branch length].
  - rewrite Nat.add_0_r, app_nil_r. tauto.
  - rewrite IH, <-app_assoc. cbn [app]. replace (Datatypes.S fed + length bs1)%nat with (fed + Datatypes.S (length bs1))%nat by lia. tauto.
Qed.

Lemma valid_branch_typed v clock fed l bs : valid_branch v clock fed l bs -> Forall block_typed bs.
Proof.
  revert fed l. induction bs as [|b bs IH]; intros fed l Hbs; [done|]. destruct Hbs as [[C _] Hbs].
  constructor; [apply C|by eapply IH].
Qed.

(** An engine at the end of [l] that tracks no fork. *)
Definition at_chain v e l : Prop := represents e l /\ forks e = ∅ /\ block_validator e = v.

Lemma next_block_applies v now e l b :
  at_chain v e l -> next_block v now l b ->
  exists e' tr, on_block schedule now b e = (Ok (Applied tr), e') /\ at_chain v e' (l ++ [b]).
Proof.
  intros (R & Hf & Hv) [C (n & -> & Hhd & cb & reward & pays & Ha)]. pose proof (rp_refines _ _ R) as Rm.
  destruct (on_block_applies schedule (Ok n) schedule_permutes e l b R C) as (e' & tr & Hon & R' & Hf' & Hv').
  - intros tip entry He. by rewrite Hf, lookup_empty in He.
  - rewrite Hv. apply (@block_accepts X P _ MemoryView memory_block_storage memory_utxo_storage memory_read_laws schedule v b (db e) n cb reward pays).
    + exact schedule_permutes.
    + exact (Hhd (db e) Rm).
    + change (acceptable (validator_consts v) (utxos (db e)) b cb reward pays). by rewrite (rf_utxos _ _ Rm).
  - exists e', tr. split; [done|]. by split_and!; [|congruence..].
Qed.

Lemma ingest_valid v clock fed e l bs :
  at_chain v e l -> valid_branch v clock fed l bs ->
  exists e', ingest_ibd_batch schedule clock fed e bs = (Ok tt, e') /\ at_chain v e' (l ++ bs).
Proof.
  revert fed e l. induction bs as [|b bs IH]; intros fed e l He Hbs.
  - exists e. split; [done|]. by rewrite app_nil_r.
  - destruct Hbs as [Hb Hbs]. destruct (next_block_applies v _ e l b He Hb) as (e1 & tr & Hon & He1).
    destruct (IH _ e1 _ He1 Hbs) as (e' & Hin & He'). exists e'. cbn [ingest_ibd_batch]. rewrite Hon.
    split; [done|]. by rewrite <-app_assoc in He'.
Qed.

Lemma ibd_loop_reaches cfg m v (fuel : nat) clock fed e l bs max :
  at_chain v e l -> valid_branch v clock fed l bs -> serves cfg m (l ++ bs) ->
  0 < max < 2 ^ 32 -> (length bs <= fuel)%nat ->
  exists e', ibd_loop schedule fuel clock fed e (serving cfg m) (Z.of_nat (length l))
      (Z.of_nat (length (l ++ bs)) - 1) max = (Ok tt, e') /\ at_chain v e' (l ++ bs).
Proof.
  revert fed e l bs. induction fuel as [|fuel IH]; intros fed e l bs He Hbs Hsv Hmax Hfuel.
  all: destruct (decide (bs = [])) as [->|Hne].
  1, 3: exists e; rewrite app_nil_r; split; [|done]; cbn [ibd_loop]; by rewrite (proj2 (Z.leb_gt _ _)) by lia.
  - destruct bs; [done|cbn in Hfuel; lia].
  - assert (0 < length bs)%nat as Hlen by (destruct bs; [done|cbn; lia]).
    cbn [ibd_loop]. rewrite (proj2 (Z.leb_le _ _)) by (rewrite length_app; lia).
    rewrite wrap_small by (split; lia). pose proof (sv_max _ _ _ Hsv) as Hcfg. pose proof (sv_length _ _ _ Hsv) as Hbound.
    rewrite length_app in Hbound |- *.
    rewrite (serving_range cfg m (l ++ bs)) by (done || rewrite ?length_app; lia).
    rewrite Nat2Z.id, drop_app_length.
    set (n := batch_count _ _ _ _). assert (0 < n)%nat as Hn by (unfold n, batch_count; lia).
    assert (n <= length bs)%nat as Hnb by (unfold n, batch_count; lia).
    destruct (take n bs) as [|b0 bs0] eqn:Htk.
    { pose proof (length_take bs n) as Hc. rewrite Htk in Hc. cbn in Hc. lia. }
    rewrite <-Htk. rewrite <-(take_drop n bs) in Hbs. apply valid_branch_app in Hbs as [Hb1 Hb2].
    destruct (ingest_valid v clock fed e l (take n bs) He Hb1) as (e1 & -> & He1).
    assert (length (take n bs) = n) as Hl by (rewrite length_take; lia).
    unfold checked_add. rewrite (proj2 (Z.ltb_lt _ _)) by (rewrite Hl; lia).
    destruct (IH (fed + length (take n bs))%nat e1 (l ++ take n bs) (drop n bs) He1 Hb2) as (e' & Hloop & He').
    + by rewrite <-app_assoc, take_drop.
    + done.
    + rewrite length_drop. lia.
    + rewrite <-app_assoc, take_drop in He', Hloop. exists e'. split; [|done]. rewrite <-Hloop.
      rewrite !length_app, Hl. f_equal; lia.
Qed.
End Reaching.

(** * Properties *)

Section SyncProperties.
Context {X : Externals} `{!HexLaws} {P : PetGraph nat} `{!PetGraphLaws nat} {I : HashIteration} `{!HashIterationLaws}.
Context {PC : Postcard} `{!PostcardLaws}.
Implicit Types (e : Engine MemoryView) (l bs : list Block) (b : Block) (peer : RemotePeer) (clock : nat -> result string Z).
Variable schedule : list nat -> list nat.
Hypothesis schedule_permutes : forall idxs, schedule idxs ≡ₚ idxs.

(** C17: against a peer that serves a chain, the search finds the last common ancestor: the
    height and hash it returns are those of a block of the local chain up to which the two
    chains are equal, and at every greater height they share their blocks differ. The
    hash is assumed to tell the blocks of the two chains apart. *)
Theorem find_lca_correct cfg m l m' l' :
  records m l -> serves cfg m' l' -> no_collision l l' ->
  exists k b, find_lca m (serving cfg m') (Z.of_nat (length l') - 1) (Z.of_nat (length l) - 1) =
      Ok (Z.of_nat k, block_hash b) /\
    l !! k = Some b /\ take (Datatypes.S k) l = take (Datatypes.S k) l' /\
    forall j b1 b2, (k < j)%nat -> l !! j = Some b1 -> l' !! j = Some b2 -> block_hash b1 <> block_hash b2.
Proof. apply find_lca_common. Qed.

(** C16: The download from any peer, honest or not, ends: it never runs out of the rounds the
    heights leave it. What the peer answered to the requests made, each for the heights
    after those already brought, is a list of batches, and the engine is fed the blocks of
    these batches and no others, in the order they came in, every one once, up to the first
    that it does not take: a success means that all were taken and that the heights were
    reached or the peer had no more, an error that the last block fed was not taken, that a
    request failed or that the heights overflow. So, when the outputs of those blocks are
    new where they attach, the engine still represents a chain that is not lighter than
    before, with no heavier fork tracked. *)
Theorem run_ibd_safe clock e peer from to max :
  let out := run_ibd schedule clock e peer from to max in
  exists batches n, downloaded schedule clock 0 e peer from to max out batches n /\
    forall l, represents e l -> all_fresh schedule e (timed clock 0 (take n (concat batches))) ->
      exists l', represents out.2 l' /\ ledger_work l <= ledger_work l' /\
        forall tip entry, forks out.2 !! tip = Some entry -> cumulative_work entry <= ledger_work l'.
Proof.
  intros out. destruct (ibd_loop_feeds schedule (Z.to_nat (to - from + 1)) clock 0 e peer from to max) as (batches & n & Hd); [lia|].
  exists batches, n. split; [exact Hd|]. intros l R Hfresh. unfold out, run_ibd. rewrite (dl_fed _ _ _ _ _ _ _ _ _ _ _ Hd).
  by apply feed_represents.
Qed.

(** Catching up. A node at the end of a chain [l], with no fork tracked, downloads from
    a peer that serves a valid continuation of [l]: however the peer and the node cut the
    range into batches, the download succeeds and the engine represents the peer's chain. *)
Theorem run_ibd_reaches_peer cfg m v clock e l bs max :
  at_chain v e l -> valid_branch v clock 0 l bs -> serves cfg m (l ++ bs) -> 0 < max < 2 ^ 32 ->
  exists e', run_ibd schedule clock e (serving cfg m) (Z.of_nat (length l)) (Z.of_nat (length (l ++ bs)) - 1) max =
      (Ok tt, e') /\ represents e' (l ++ bs).
Proof.
  intros He Hbs Hsv Hmax.
  destruct (ibd_loop_reaches schedule schedule_permutes cfg m v (Z.to_nat (Z.of_nat (length (l ++ bs)) - 1 - Z.of_nat (length l) + 1))
    clock 0 e l bs max He Hbs Hsv Hmax) as (e' & Hr & R & _); [rewrite length_app; lia|].
  by exists e'.
Qed.
End SyncProperties.

Section SyncWitnesses.
Import Toy ListGraph MapOrder ToyPostcard.

(** A genesis block with the rules of [val_validator], and its store and engine. *)
Definition sync_genesis : Block := new_genesis 1 {[ toy_owner := 50 ]} (mk_GenesisState val_rules).

Lemma sync_genesis_valid : validate_genesis sync_genesis = Ok tt.
Proof.
  assert (is_ok (validate_genesis sync_genesis) = true) as H by (vm_compute; reflexivity).
  destruct (validate_genesis sync_genesis) as [[]|]; [exact eq_refl|discriminate H].
Qed.

Definition sync_store : MemoryView :=
  match apply_transition MemoryView_default (TGenesis sync_genesis toy_metadata) with
  | Ok r => r.2
  | Err _ => MemoryView_default
  end.

Lemma sync_store_refines : refines sync_store [sync_genesis].
Proof.
  destruct (genesis_init sync_genesis toy_metadata (proj1 (validate_genesis_iff _) sync_genesis_valid)) as (m & Hm & R & _).
  unfold sync_store. rewrite Hm. exact R.
Qed.

Lemma sync_genesis_typed : block_typed sync_genesis.
Proof. split_and!; apply (bool_decide_unpack _); vm_compute; exact I. Qed.

Definition sync_engine : Engine MemoryView :=
  mk_Engine val_rules val_validator sync_store ∅ (index_insert ChainIndex_new sync_genesis (ledger_work [sync_genesis])).

Lemma sync_engine_represents : represents sync_engine [sync_genesis].
Proof.
  split.
  - exact sync_store_refines.
  - apply indexes_first.
  - apply Forall_singleton. exact sync_genesis_typed.
  - cbn [forks sync_engine]. intros tip entry He. rewrite lookup_empty in He. discriminate He.
Qed.

Lemma run_first_valid :
  @validate externals list_graph MemoryView memory_block_storage memory_utxo_storage
    (fun l => l) (Ok 1900000000) val_validator run_first sync_store = Ok tt.
Proof. vm_compute. reflexivity. Qed.

Lemma run_first_sound : exists cb reward pays,
  block_sound (validator_consts val_validator) (utxos sync_store) run_first cb reward pays.
Proof.
  destruct (proj1 (@validate_Ok externals list_graph list_graph_laws MemoryView memory_block_storage
    memory_utxo_storage memory_read_laws (fun l => l) (Ok 1900000000) val_validator run_first sync_store
    id_permutes) run_first_valid) as (_ & Hs & Ht).
  exact (@accepted_sound externals list_graph list_graph_laws MemoryView memory_utxo_storage memory_read_laws
    run_first (validator_consts val_validator) sync_store eq_refl (proj1 (structure_Ok run_first eq_refl) Hs) Ht).
Qed.

Lemma run_first_checks :
  bool_decide (NoDup (transactions run_first)) &&
  bool_decide (map_Forall (fun _ u => 0 <= utxo_value u) (utxos sync_store)) &&
  bool_decide (outputs_typed run_first) &&
  bool_decide (Forall (fun t => in_total (utxos sync_store) t < 2 ^ 64) (tail (transactions run_first))) &&
  bool_decide (0 <= block_subsidy (validator_consts val_validator) (height (header run_first))) &&
  bool_decide (block_subsidy (validator_consts val_validator) (height (header run_first)) +
    zsum (fee (utxos sync_store) <$> tail (transactions run_first)) < 2 ^ 64) = true.
Proof. vm_compute. reflexivity. Qed.

Lemma run_first_acceptable : exists cb reward pays,
  acceptable (validator_consts val_validator) (ledger_view [sync_genesis]) run_first cb reward pays.
Proof.
  rewrite <-(rf_utxos _ _ sync_store_refines).
  destruct run_first_sound as (cb & reward & pays & Hs). exists cb, reward, pays.
  assert (tail (transactions run_first) = pays) as Hp by (rewrite (bs_transactions _ _ _ _ _ _ Hs); exact eq_refl).
  pose proof run_first_checks as H. rewrite Hp in H.
  apply andb_prop in H as [H H6]. apply andb_prop in H as [H H5]. apply andb_prop in H as [H H4].
  apply andb_prop in H as [H H3]. apply andb_prop in H as [H1 H2].
  exact (Build_acceptable _ _ _ _ _ _ _ Hs (bool_decide_eq_true_1 _ H1) (bool_decide_eq_true_1 _ H2)
    (bool_decide_eq_true_1 _ H3) (bool_decide_eq_true_1 _ H4) (bool_decide_eq_true_1 _ H5)
    (bool_decide_eq_true_1 _ H6)).
Qed.

Lemma run_first_follows m :
  refines m [sync_genesis] ->
  @header_follows MemoryView externals memory_block_storage (difficulty_calc val_validator) m 1900000000 run_first.
Proof.
  intros R. pose proof (rf_records _ _ R) as C.
  assert (previous_block_hash (header run_first) = block_hash sync_genesis) as Hp by exact eq_refl.
  split.
  - exact eq_refl.
  - destruct (median_time_past_chain m _ 0 sync_genesis C eq_refl) as (v & Hv & Hin & _).
    assert (v = timestamp (header sync_genesis)) as ->.
    { cbn in Hin. apply list_elem_of_singleton in Hin. exact Hin. }
    exists (timestamp (header sync_genesis)). split; [rewrite Hp; exact Hv|].
    split; [apply Z.ltb_lt|apply Z.leb_le]; vm_compute; reflexivity.
  - destruct (required_threshold_chain (difficulty_calc val_validator) m _ 0 sync_genesis C eq_refl) as (t & Ht & _ & H1 & _).
    + split; [reflexivity|]. apply (bool_decide_unpack _). vm_compute. exact I.
    + intros a Ha. discriminate Ha.
    + rewrite Hp, Ht, (H1 (le_0_n 1)). vm_compute. reflexivity.
  - intros Hz. discriminate Hz.
  - vm_compute. reflexivity.
  - exact eq_refl.
Qed.

Lemma run_first_apart : bool_decide (block_hash run_first = block_hash sync_genesis) = false.
Proof. vm_compute. reflexivity. Qed.

Lemma run_first_new : bool_decide (fresh_outputs run_first (ledger_view [sync_genesis])) = true.
Proof. vm_compute. reflexivity. Qed.

Lemma run_first_next : next_block val_validator (Ok 1900000000) [sync_genesis] run_first.
Proof.
  split.
  - split.
    + exists sync_genesis. split; [exact eq_refl|]. split; [exact eq_refl|exact eq_refl].
    + exact eq_refl.
    + exact run_first_typed.
    + intros Hin. apply list_elem_of_singleton in Hin. exact (bool_decide_eq_false_1 _ run_first_apart Hin).
    + apply (bool_decide_eq_true_1 _ run_first_new).
  - exists 1900000000. split; [exact eq_refl|]. split; [exact run_first_follows|exact run_first_acceptable].
Qed.

Lemma sync_at_chain : at_chain val_validator sync_engine [sync_genesis].
Proof. split; [exact sync_engine_represents|]. split; exact eq_refl. Qed.

Abbreviation sync_config := (mk_StryiSyncServiceConfig "toy" 1 5).

(** A peer one block ahead. *)
Lemma peer_ahead : exists m, serves sync_config m [sync_genesis; run_first].
Proof.
  destruct (@next_block_applies externals list_graph list_graph_laws map_order map_order_laws
    (fun idxs => idxs) id_permutes val_validator _ sync_engine [sync_genesis] run_first sync_at_chain run_first_next)
    as (e' & tr & _ & R & _).
  exists (db e'). split.
  - exact (rf_records _ _ (rp_refines _ _ R)).
  - apply Forall_cons. split; [|apply Forall_singleton]; split_and!; apply (bool_decide_unpack _); vm_compute; exact I.
  - exact eq_refl.
  - exact eq_refl.
Qed.

Lemma find_lca_correct_witness : exists m' b,
  find_lca sync_store (serving sync_config m') 1 0 = Ok (0, block_hash b) /\ [sync_genesis] !! 0%nat = Some b.
Proof.
  destruct peer_ahead as (m' & Hs).
  destruct (find_lca_correct sync_config sync_store [sync_genesis] m' [sync_genesis; run_first]
    (rf_records _ _ sync_store_refines) Hs) as (k & b & Hr & Hb & _).
  - intros b b' Hb Hb' Heq. apply list_elem_of_singleton in Hb as ->. apply elem_of_cons in Hb' as [->|Hb']; [exact eq_refl|].
    apply list_elem_of_singleton in Hb' as ->. destruct (bool_decide_eq_false_1 _ run_first_apart (eq_sym Heq)).
  - destruct k as [|k]; [|discriminate Hb]. exists m', b. exact (conj Hr Hb).
Defined.

Lemma run_ibd_reaches_peer_witness : exists m' e',
  run_ibd (fun idxs => idxs) (fun _ => Ok 1900000000) sync_engine (serving sync_config m') 1 1 1 = (Ok tt, e') /\
  represents e' [sync_genesis; run_first].
Proof.
  destruct peer_ahead as (m' & Hs).
  destruct (run_ibd_reaches_peer (fun idxs => idxs) id_permutes sync_config m' val_validator (fun _ => Ok 1900000000)
    sync_engine [sync_genesis] [run_first] 1 sync_at_chain (conj run_first_next I) Hs) as (e' & Hr & R).
  - split; exact eq_refl.
  - exists m', e'. exact (conj Hr R).
Defined.
(** A peer that answers nonsense. *)
Definition broken_peer : RemotePeer :=
  mk_RemotePeer (Err (StatusUnavailable "")) (fun _ => Ok [Ok (mk_PbBlock None None)]) (fun _ => Ok []).

Lemma run_ibd_safe_witness : exists l',
  represents (run_ibd (fun idxs => idxs) (fun _ => Ok 1900000000) sync_engine broken_peer 1 9 5).2 l' /\
  ledger_work [sync_genesis] <= ledger_work l'.
Proof.
  destruct (run_ibd_safe (fun idxs => idxs) id_permutes (fun _ => Ok 1900000000) sync_engine broken_peer 1 9 5)
    as (batches & n & [Hb _ _ _ _ _ _] & Hrun).
  destruct (Hrun [sync_genesis] sync_engine_represents) as (l' & R & Hw & _).
  - destruct batches as [|bs batches]; [destruct n; exact I|].
    destruct (Hb 0%nat bs eq_refl) as (_ & _ & Hr). discriminate Hr.
  - exists l'. exact (conj R Hw).
Defined.
End SyncWitnesses.
