(* ===== verification/Rocks.v ===== *)
(** Rocks: the RocksDB backend ([crates/stryi_storage]): the column families, the reads and
    writes of a snapshot or a pending transaction, the storage handle with its failure flag,
    and the checks on opening. RocksDB and postcard are third-party and are classes. *)
From S2P Require Import Prelude Bytes Types Externals Hashing Work Transactions Blocks Storage UtxoProcessor Overlay Transition Engine.

(** * Third-party interfaces *)

(** An open [TransactionDB] ([Database]) and what it is read through: a snapshot or a pending
    transaction ([Reader]). Every call may fail. A pending transaction reads its own writes.
    [first_entry] and [last_entry] are the first item of an iterator from either end. *)
Class RocksDB := {
  Database : Type;
  Reader : Type;
  open_snapshot : Database -> Reader;
  open_transaction : Database -> Reader;
  get_cf : Reader -> string -> list byte -> result string (option (list byte));
  put_cf : Reader -> string -> list byte -> list byte -> result string Reader;
  delete_cf : Reader -> string -> list byte -> result string Reader;
  commit_transaction : Database -> Reader -> result string Database;
  first_entry : Reader -> string -> result string (option (list byte * list byte));
  last_entry : Reader -> string -> result string (option (list byte * list byte));
}.

(** postcard, for the values of the tables, which it serializes without failing.
    [postcard_header_from] reads the header at the front of an encoded block
    ([take_from_bytes]). *)
Class StorePostcard := {
  postcard_utxo : UTXO -> list byte;
  postcard_utxo_from : list byte -> result string UTXO;
  postcard_outpoints : gset OutPoint -> list byte;
  postcard_outpoints_from : list byte -> result string (gset OutPoint);
  postcard_block : Block -> list byte;
  postcard_block_from : list byte -> result string Block;
  postcard_header_from : list byte -> result string BlockHeader;
  postcard_index : BlockIndexData -> list byte;
  postcard_index_from : list byte -> result string BlockIndexData;
  postcard_location : TransactionIndexData -> list byte;
  postcard_location_from : list byte -> result string TransactionIndexData;
  postcard_undo : BlockUndo -> list byte;
  postcard_undo_from : list byte -> result string BlockUndo;
  postcard_state : ChainState -> list byte;
  postcard_state_from : list byte -> result string ChainState;
  postcard_metadata : ChainMetadata -> list byte;
  postcard_metadata_from : list byte -> result string ChainMetadata;
}.

(** * Tables *)

Definition TABLES : list string :=
  ["blocks"; "heights"; "utxo"; "addresses"; "stats"; "undo"; "block_indexes"; "transaction_indexes"; "metadata"].
Definition STATE_KEY : list byte := replicate 32 Byte.x00.
Definition STORAGE_SCHEMA_VERSION : Z := 2.
Definition METADATA_KEY : list byte := [Byte.x63; Byte.x68; Byte.x61; Byte.x69; Byte.x6e].


(** [encode_utxo_key] *)
Definition encode_utxo_key (outpoint : OutPoint) : list byte :=
  arr (hash_data (txid outpoint)) ++ be_bytes 4 (vout outpoint).

(** [backend_error] *)
Definition backend_error {A} (operation : string) (r : result string A) : result StorageError A :=
  map_err (Backend operation) r.

(** [StorageView]: the failure flag of the handle as the view sees it, and its reader. *)
Record StorageView {R : RocksDB} := mk_StorageView { inner_failed : bool; reader : Reader }.
Arguments mk_StorageView {R} _ _.
Arguments inner_failed {R} _.
Arguments reader {R} _.

Section View.
Context {X : Externals} {I : HashIteration} {R : RocksDB} {PC : StorePostcard}.
Implicit Types (v : StorageView).

(** [raw_get] *)
Definition raw_get v (table : string) (key : list byte) : result StorageError (option (list byte)) :=
  if inner_failed v then Err Unhealthy
  else backend_error ("read " +:+ table) (get_cf (reader v) table key).

(** [decode]: [report_corruption] gives the error; that it also stops the handle is the
    fatality of the error ([storage_update]). *)
Definition decode_value {A} (from : list byte -> result string A) (table : string) (bytes : list byte) :
    result StorageError A :=
  map_err (fun _ => Corruption ("Invalid " +:+ table +:+ " value: {error}")) (from bytes).

(** [get] *)
Definition get_value {A} (from : list byte -> result string A) v (table : string) (key : list byte) :
    result StorageError (option A) :=
  found ← raw_get v table key;
  match found with
  | None => mret None
  | Some bytes => value ← decode_value from table bytes; mret (Some value)
  end.

(** [put] *)
Definition put_value {A} (to : A -> list byte) v (table : string) (key : list byte) (value : A) :
    result StorageError StorageView :=
  reader ← backend_error ("write " +:+ table) (put_cf (reader v) table key (to value));
  mret (mk_StorageView (inner_failed v) reader).

(** [remove] *)
Definition remove_value v (table : string) (key : list byte) : result StorageError StorageView :=
  reader ← backend_error ("remove " +:+ table) (delete_cf (reader v) table key);
  mret (mk_StorageView (inner_failed v) reader).

(** ** [utxo.rs] *)

Definition rocks_get_utxo v (outpoint : OutPoint) : result StorageError (option UTXO) :=
  value ← get_value postcard_utxo_from v "utxo" (encode_utxo_key outpoint);
  match value with
  | Some utxo =>
      if negb (bool_decide (utxo_txid utxo = txid outpoint)) || negb (utxo_vout utxo =? vout outpoint)
      then Err (Corruption "UTXO value does not match key {outpoint}")
      else mret value
  | None => mret value
  end.

(** [self.get("addresses", …)?.unwrap_or_default()] *)
Definition address_outpoints v (address : AccountAddress) : result StorageError (gset OutPoint) :=
  found ← get_value postcard_outpoints_from v "addresses" (arr (hash_data address));
  mret (default ∅ found).

(** The loop of [get_utxos_for_address]. *)
Definition owned_utxo v (address : AccountAddress) (utxos : gmap OutPoint UTXO) (outpoint : OutPoint) :
    result StorageError (gmap OutPoint UTXO) :=
  found ← rocks_get_utxo v outpoint;
  utxo ← ok_or found (Corruption "Address {address} references missing UTXO {outpoint}");
  _ ← ensure (bool_decide (owner utxo = address)) (Corruption "Address {address} references UTXO owned by {}");
  mret (<[outpoint := utxo]> utxos).

Definition rocks_get_utxos_for_address v (address : AccountAddress) : result StorageError (gmap OutPoint UTXO) :=
  outpoints ← address_outpoints v address;
  fold_res (owned_utxo v address) ∅ (set_iter outpoints).

#[export] Instance rocks_utxo_storage : UtxoStorage StorageView := {
  get_utxo := rocks_get_utxo;
  get_utxos_for_address := rocks_get_utxos_for_address;
}.

(** ** [blocks.rs] *)

Definition rocks_get_block_hash_by_height v (height : Z) : result StorageError (option BlockHash) :=
  found ← raw_get v "heights" (be_bytes 8 height);
  match found with
  | None => mret None
  | Some bytes =>
      data ← ok_or (array_of 32 bytes) (Corruption "Invalid block hash at height {height}");
      mret (Some (@mk_Hash BlockHashKind data))
  end.

Definition rocks_get_block_by_hash v (hash : BlockHash) : result StorageError (option Block) :=
  found ← get_value postcard_block_from v "blocks" (arr (hash_data hash));
  match found with
  | None => mret None
  | Some block =>
      _ ← map_err (fun error => Corruption (core_error_text error)) (verify_genesis_work_shape block);
      _ ← ensure (bool_decide (block_hash block = hash)) (Corruption "Block body does not match key {hash}");
      mret (Some block)
  end.

Definition rocks_get_block_by_height v (height : Z) : result StorageError (option Block) :=
  found ← rocks_get_block_hash_by_height v height;
  match found with
  | None => mret None
  | Some hash =>
      found ← rocks_get_block_by_hash v hash;
      block ← ok_or found (Corruption "Height {height} references absent block {hash}");
      _ ← ensure (Types.height (header block) =? height) (Corruption "Height {height} references a block at height {}");
      mret (Some block)
  end.

Definition rocks_get_block_header_by_hash v (hash : BlockHash) : result StorageError (option BlockHeader) :=
  found ← raw_get v "blocks" (arr (hash_data hash));
  match found with
  | None => mret None
  | Some bytes =>
      header ← map_err (fun _ => Corruption "Invalid blocks value: {error}") (postcard_header_from bytes);
      _ ← map_err (fun error => Corruption (core_error_text error)) (verify_genesis_header_work_shape header);
      mret (Some header)
  end.

Definition rocks_get_block_index v (hash : BlockHash) : result StorageError (option BlockIndexData) :=
  get_value postcard_index_from v "block_indexes" (arr (hash_data hash)).

Definition get_location v (hash : TransactionHash) : result StorageError (option TransactionIndexData) :=
  get_value postcard_location_from v "transaction_indexes" (arr (hash_data hash)).

Definition rocks_get_transaction v (hash : TransactionHash) : result StorageError (option ConfirmedTransaction) :=
  found ← get_location v hash;
  match found with
  | None => mret None
  | Some location =>
      found ← rocks_get_block_by_hash v (location_block_hash location);
      block ← ok_or found (Corruption "Transaction {hash} references absent block {}");
      _ ← ensure (height (header block) =? location_block_height location)
            (Corruption "Transaction {hash} height {} disagrees with block {} height {}");
      transaction ← ok_or
        (transaction ← transactions block !! Z.to_nat (tx_index location);
         guard (tx_hash (tx_data transaction) = hash);;
         mret transaction)
        (Corruption "Transaction {hash} does not match block {} index {}");
      mret (Some (mk_ConfirmedTransaction transaction location))
  end.

#[export] Instance rocks_block_storage : BlockStorage StorageView := {
  get_block_hash_by_height := rocks_get_block_hash_by_height;
  get_block_by_hash := rocks_get_block_by_hash;
  get_block_by_height := rocks_get_block_by_height;
  get_block_header_by_hash := rocks_get_block_header_by_hash;
  get_block_index := rocks_get_block_index;
  get_transaction := rocks_get_transaction;
}.

(** ** [stats.rs], [undo.rs] *)

#[export] Instance rocks_stats : StorageStats StorageView := {
  chain_state v := get_value postcard_state_from v "stats" STATE_KEY;
  metadata v := get_value postcard_metadata_from v "metadata" METADATA_KEY;
}.

#[export] Instance rocks_undo : UndoStorage StorageView := {
  get_block_undo v hash := get_value postcard_undo_from v "undo" (arr (hash_data hash));
}.

#[export] Instance rocks_read : StorageRead StorageView := Build_StorageRead _ _ _ _ _.
End View.

(** * Writes ([write.rs]) *)

Section Write.
Context {X : Externals} {I : HashIteration} {R : RocksDB} {PC : StorePostcard}.
Implicit Types (v : StorageView) (memberships : gmap AccountAddress (gset OutPoint)).

(** [memberships.entry(owner)]: the address set from the local map, read on first use. *)
Definition membership v memberships (address : AccountAddress) : result StorageError (gset OutPoint) :=
  match memberships !! address with
  | Some outpoints => Ok outpoints
  | None => address_outpoints v address
  end.

(** Taking an outpoint out of its owner's set. *)
Definition leave v memberships (address : AccountAddress) (outpoint : OutPoint) :
    result StorageError (gmap AccountAddress (gset OutPoint)) :=
  outpoints ← membership v memberships address;
  _ ← ensure (bool_decide (outpoint ∈ outpoints)) (Corruption "Address index is missing UTXO {outpoint}");
  mret (<[address := outpoints ∖ {[ outpoint ]}]> memberships).

(** One round of the loop of [batch_put_utxos]. *)
Definition put_utxo (acc : gmap AccountAddress (gset OutPoint) * StorageView) (entry : OutPoint * UTXO) :
    result StorageError (gmap AccountAddress (gset OutPoint) * StorageView) :=
  let '(memberships, v) := acc in
  let '(outpoint, utxo) := entry in
  if negb (bool_decide (utxo_txid utxo = txid outpoint)) || negb (utxo_vout utxo =? vout outpoint)
  then Err (InvalidTransition "UTXO value does not match key {outpoint}")
  else
    found ← rocks_get_utxo v outpoint;
    memberships ←
      match found with
      | Some previous =>
          if bool_decide (owner previous = owner utxo) then Ok memberships
          else leave v memberships (owner previous) outpoint
      | None => Ok memberships
      end;
    outpoints ← membership v memberships (owner utxo);
    let memberships := <[owner utxo := {[ outpoint ]} ∪ outpoints]> memberships in
    v ← put_value postcard_utxo v "utxo" (encode_utxo_key outpoint) utxo;
    mret (memberships, v).

(** The final loop of both batches. *)
Definition put_memberships v memberships : result StorageError StorageView :=
  fold_res (fun v entry => put_value postcard_outpoints v "addresses" (arr (hash_data entry.1)) entry.2)
    v (hash_iter memberships).

Definition rocks_batch_put_utxos v (utxos : list (OutPoint * UTXO)) : result StorageError StorageView :=
  acc ← fold_res put_utxo (∅, v) utxos;
  put_memberships acc.2 acc.1.

(** One round of the loop of [batch_remove_utxos]. *)
Definition remove_utxo (acc : gmap AccountAddress (gset OutPoint) * StorageView) (outpoint : OutPoint) :
    result StorageError (gmap AccountAddress (gset OutPoint) * StorageView) :=
  let '(memberships, v) := acc in
  found ← rocks_get_utxo v outpoint;
  utxo ← ok_or found (UtxoNotFound outpoint);
  memberships ← leave v memberships (owner utxo) outpoint;
  v ← remove_value v "utxo" (encode_utxo_key outpoint);
  mret (memberships, v).

Definition rocks_batch_remove_utxos v (outpoints : list OutPoint) : result StorageError StorageView :=
  acc ← fold_res remove_utxo (∅, v) outpoints;
  put_memberships acc.2 acc.1.

#[export] Instance rocks_utxo_write : UtxoWrite StorageView := {
  batch_put_utxos := rocks_batch_put_utxos;
  batch_remove_utxos := rocks_batch_remove_utxos;
}.

(** One round of the transaction loop of [put_block]. *)
Definition put_location (block : Block) v (entry : nat * Transaction) : result StorageError StorageView :=
  if 2 ^ 32 <=? Z.of_nat entry.1 then Err (InvalidTransition "Transaction index exceeds u32")
  else
    put_value postcard_location v "transaction_indexes" (arr (hash_data (tx_hash (tx_data entry.2))))
      (mk_TransactionIndexData (block_hash block) (height (header block)) (Z.of_nat entry.1)).

Definition rocks_put_block v (block : Block) (index : BlockIndexData) : result StorageError StorageView :=
  let hash := block_hash block in
  saved ← rocks_get_block_by_hash v hash;
  _ ← ensure (bool_decide (default block saved = block)) (Corruption "Different block bodies share hash {hash}");
  saved ← rocks_get_block_index v hash;
  _ ← ensure (bool_decide (default index saved = index)) (Corruption "Branch work index for block {hash} changed");
  saved ← rocks_get_block_hash_by_height v (height (header block));
  _ ← ensure (bool_decide (default hash saved = hash)) (InvalidTransition "Height {} is already canonical");
  v ← put_value postcard_block v "blocks" (arr (hash_data hash)) block;
  v ← put_value postcard_index v "block_indexes" (arr (hash_data hash)) index;
  reader ← backend_error "write heights"
    (put_cf (reader v) "heights" (be_bytes 8 (height (header block))) (arr (hash_data hash)));
  fold_res (put_location block) (mk_StorageView (inner_failed v) reader)
    (imap (fun i t => (i, t)) (transactions block)).

(** One round of the transaction loop of [remove_canonical_block]. *)
Definition remove_location (block : Block) v (t : Transaction) : result StorageError StorageView :=
  let block_hash := block_hash block in
  let hash := tx_hash (tx_data t) in
  found ← get_location v hash;
  match found with
  | None => mret v
  | Some location =>
      if negb (bool_decide (location_block_hash location = block_hash))
      then _ ← rocks_get_transaction v hash; mret v
      else if negb (location_block_height location =? height (header block))
           || negb (bool_decide ((fun t => tx_hash (tx_data t)) <$> transactions block !! Z.to_nat (tx_index location)
                                 = Some hash))
      then Err (Corruption "Transaction {hash} does not match detached block {} index {}")
      else remove_value v "transaction_indexes" (arr (hash_data hash))
  end.

Definition rocks_remove_canonical_block v (block : Block) : result StorageError StorageView :=
  canonical ← rocks_get_block_hash_by_height v (height (header block));
  _ ← ensure (bool_decide (canonical = Some (block_hash block)))
        (Corruption "Canonical mapping for block {block_hash} disagrees");
  v ← remove_value v "heights" (be_bytes 8 (height (header block)));
  fold_res (remove_location block) v (transactions block).

#[export] Instance rocks_write : StorageWrite StorageView := {
  write_utxos := rocks_utxo_write;
  put_block := rocks_put_block;
  remove_canonical_block := rocks_remove_canonical_block;
  put_block_undo v hash undo := put_value postcard_undo v "undo" (arr (hash_data hash)) undo;
  put_chain_state v state := put_value postcard_state v "stats" STATE_KEY state;
  put_metadata v md := put_value postcard_metadata v "metadata" METADATA_KEY md;
}.
End Write.

(** * The handle ([lib.rs]) *)

(** [StorageInner]: the database and the flag of a fatal failure. The writer lock is the
    state passing; the failure handler, called when the flag is first set, is left out. *)
Record StryiStorage {R : RocksDB} := mk_StryiStorage { database : Database; failed : bool }.
Arguments mk_StryiStorage {R} _ _.
Arguments database {R} _.
Arguments failed {R} _.

Section Handle.
Context {X : Externals} {I : HashIteration} {R : RocksDB} {PC : StorePostcard}.
Implicit Types (s : StryiStorage).

(** [mark_failed] *)
Definition mark_failed s : StryiStorage := mk_StryiStorage (database s) true.

(** [update]. A fatal error of the callback stops the handle, and so does a failed commit. *)
Definition storage_update {T} s (callback : StorageView -> result StorageError (T * StorageView)) :
    result StorageError T * StryiStorage :=
  if failed s then (Err Unhealthy, s)
  else
    match callback (mk_StorageView false (open_transaction (database s))) with
    | Err error => (Err error, if storage_is_fatal error then mark_failed s else s)
    | Ok (value, view) =>
        match commit_transaction (database s) (reader view) with
        | Err error => (Err (Commit error), mark_failed s)
        | Ok database => (Ok value, mk_StryiStorage database (failed s))
        end
    end.

(** [read] *)
Definition storage_read s : result StorageError StorageView :=
  if failed s then Err Unhealthy else Ok (mk_StorageView false (open_snapshot (database s))).

(** [apply_transition]: what it runs in the transaction, and the whole. *)
Definition transition_callback (transition : ChainTransition) (view : StorageView) :
    result StorageError (ChainTransitionResult * StorageView) :=
  match transition with
  | TGenesis _ md =>
      if negb (schema_version md =? STORAGE_SCHEMA_VERSION) then Err (UnsupportedSchema (schema_version md))
      else apply_transition view transition
  | _ => apply_transition view transition
  end.

Definition storage_apply_transition s (transition : ChainTransition) :
    result StorageError ChainTransitionResult * StryiStorage :=
  storage_update s (transition_callback transition).

#[export] Instance rocks_full_node : FullNodeStorage StryiStorage := {|
  Snapshot := StorageView;
  snapshot_read := rocks_read;
  db_read := storage_read;
  db_apply_transition := storage_apply_transition;
|}.
End Handle.

(** * Opening ([open.rs]) *)

(** What is found at the path before it is opened: whether it exists and is not empty, has
    one of the files of the old layout, has [CURRENT], and the column families listed. *)
Record DataDir := mk_DataDir {
  dir_nonempty : result string bool;
  legacy_files : bool;
  has_current : bool;
  listed_cf : result string (list string);
}.

Section Open.
Context {X : Externals} {I : HashIteration} {R : RocksDB} {PC : StorePostcard}.
Implicit Types (v : StorageView).

(** [check_supported_datadir] *)
Definition check_supported_datadir (path : DataDir) : result StorageError bool :=
  nonempty ← backend_error "inspect datadir" (dir_nonempty path);
  if negb (nonempty : bool) then mret false
  else if legacy_files path then Err (UnsupportedSchema 1)
  else if negb (has_current path)
  then Err (InvalidTransition "Datadir is nonempty and is not a RocksDB chain database; use a fresh directory")
  else
    found ← backend_error "list column families" (listed_cf path);
    if negb (bool_decide (found ≡ₚ TABLES ++ ["default"]))
    then Err (Corruption "Database column families do not match schema 2")
    else mret true.

Definition verify_default_table_empty v : result StorageError unit :=
  entry ← backend_error "inspect default column family" (first_entry (reader v) "default");
  ensure (bool_decide (entry = None)) (Corruption "Default column family must be empty").

Definition verify_pre_genesis_tables_empty v : result StorageError unit :=
  fold_res (fun _ name =>
    entry ← backend_error ("inspect " +:+ name) (first_entry (reader v) name);
    ensure (bool_decide (entry = None)) (Corruption "Storage has data without genesis metadata and chain state"))
    tt TABLES.

Definition verify_initialization_records v : result StorageError (option (ChainMetadata * ChainState)) :=
  md ← metadata v;
  state ← chain_state v;
  match md, state with
  | None, None => _ ← verify_pre_genesis_tables_empty v; mret None
  | Some md, Some state => mret (Some (md, state))
  | _, _ => Err (Corruption "Genesis metadata and chain state must be committed together")
  end.

Definition verify_genesis_index v : result StorageError unit :=
  found ← get_block_by_height v 0;
  genesis ← ok_or found (Corruption "Initialized storage has no genesis");
  _ ← map_err (fun _ => Corruption "Saved genesis is invalid: {error}") (validate_genesis genesis);
  found ← get_block_index v BlockHash_empty;
  index ← ok_or found (Corruption "Genesis index is absent");
  ensure ((index_height index =? 0) && bool_decide (parent_hash index = BlockHash_empty) && (index_chain_work index =? 0))
    (Corruption "Genesis index does not match genesis").

Definition verify_canonical_tip v (state : ChainState) : result StorageError unit :=
  found ← get_block_by_height v (latest_block state).1;
  tip ← ok_or found (Corruption "Canonical tip height is absent");
  found ← get_block_index v (latest_block state).2;
  index ← ok_or found (Corruption "Canonical tip index is absent");
  if negb (bool_decide (block_hash tip = (latest_block state).2))
     || negb (height (header tip) =? (latest_block state).1)
     || negb (index_height index =? (latest_block state).1)
     || negb (bool_decide (parent_hash index = previous_block_hash (header tip)))
     || negb (index_chain_work index =? chain_work state)
     || negb (bool_decide (checked_add 64 (latest_block state).1 1 = Some (blocks_count state)))
  then Err (Corruption "Canonical tip, index and chain state disagree")
  else Ok tt.

Definition verify_highest_canonical_height v (tip_height : Z) : result StorageError unit :=
  found ← backend_error "inspect highest canonical height" (last_entry (reader v) "heights");
  entry ← ok_or found (Corruption "Initialized storage has no canonical heights");
  let highest_key := entry.1 in
  if negb (length highest_key =? 8)%nat then Err (Corruption "Invalid canonical height key")
  else if negb (be_val highest_key =? tip_height)
  then Err (Corruption "Canonical heights extend beyond the saved tip")
  else Ok tt.

(** [verify_initialized_state] *)
Definition verify_initialized_state (s : StryiStorage) : result StorageError unit :=
  view ← storage_read s;
  _ ← verify_default_table_empty view;
  found ← verify_initialization_records view;
  match found with
  | None => mret tt
  | Some (md, state) =>
      if negb (schema_version md =? STORAGE_SCHEMA_VERSION) then Err (UnsupportedSchema (schema_version md))
      else
        _ ← verify_genesis_index view;
        _ ← verify_canonical_tip view state;
        verify_highest_canonical_height view (latest_block state).1
  end.

(** [metadata_for_genesis]: the clock is the seconds since 1970, or why it cannot be read. *)
Definition metadata_for_genesis (now : result string Z) (s : StryiStorage) : result StorageError ChainMetadata :=
  view ← storage_read s;
  found ← metadata view;
  match found with
  | Some md => mret md
  | None =>
      now ← backend_error "read local clock" now;
      created_unix_ts ← ok_or (if now <? 2 ^ 63 then Some now else None) (InvalidTransition "Local clock exceeds i64");
      mret (mk_ChainMetadata STORAGE_SCHEMA_VERSION "dev" 1 created_unix_ts)
  end.

(** [GenesisInitConfig], with the balances as the map they are collected into. *)
Record GenesisInitConfig := mk_GenesisInitConfig {
  wanted_balances : gmap AccountAddress Z;
  config_genesis_state : GenesisState;
  config_version : Z;
}.

(** [open_database] opens what the checks admit; [open] is RocksDB's answer. *)
Definition open_database (path : DataDir) (open : bool -> result string Database) : result StorageError StryiStorage :=
  existing ← check_supported_datadir path;
  database ← backend_error "open database" (open existing);
  mret (mk_StryiStorage database false).

(** [initialize_in_path] *)
Definition initialize_in_path (now : result string Z) (path : DataDir) (open : bool -> result string Database)
    (genesis_config : option GenesisInitConfig) : result StorageError StryiStorage :=
  let genesis := (fun c => new_genesis (config_version c) (wanted_balances c) (config_genesis_state c)) <$> genesis_config in
  _ ← match genesis with Some block => validate_genesis block | None => Ok tt end;
  storage ← open_database path open;
  _ ← verify_initialized_state storage;
  match genesis with
  | None => mret storage
  | Some block =>
      md ← metadata_for_genesis now storage;
      match storage_apply_transition storage (TGenesis block md) with
      | (Ok _, storage) => mret storage
      | (Err error, _) => Err error
      end
  end.
End Open.
