(* ===== verification/Simulation.v ===== *)
(** Simulation: two storage backends that answer alike. [sim] compares two results up to the
    errors the first backend may add; reading backends that are related make every reader of
    the consensus core (overlay, difficulty, validation, start-up) give related results. *)
From S2P Require Import Prelude Bytes Types Externals Petgraph Hashing Work Merkle Transactions Blocks Storage UtxoProcessor Overlay Transition Difficulty Dependencies Validator ChainIndex Engine.

(** * Results up to added errors *)

Section Sim.
Context {E A B : Type}.

(** The second result is the reference. The first agrees with it, or is a [bad] error. *)
Definition sim (bad : E -> Prop) (R : A -> B -> Prop) (r1 : result E A) (r2 : result E B) : Prop :=
  match r1, r2 with
  | Ok a, Ok b => R a b
  | Err e, Err e' => e = e' \/ bad e
  | Err e, Ok _ => bad e
  | Ok _, Err _ => False
  end.

Lemma sim_Ok bad R a r2 : sim bad R (Ok a) r2 -> exists b, r2 = Ok b /\ R a b.
Proof. destruct r2; cbn; naive_solver. Qed.

Lemma sim_weaken bad bad' R R' r1 r2 :
  (forall e, bad e -> bad' e) -> (forall a b, R a b -> R' a b) -> sim bad R r1 r2 -> sim bad' R' r1 r2.
Proof. destruct r1, r2; cbn; naive_solver. Qed.

Lemma sim_bad bad R e r2 : bad e -> sim bad R (Err e) r2.
Proof. destruct r2; cbn; auto. Qed.
End Sim.

Lemma sim_refl {E A} (bad : E -> Prop) (R : A -> A -> Prop) `{!Reflexive R} r : sim bad R r r.
Proof. destruct r; cbn; [done|by left]. Qed.

Lemma sim_bind {E A B C D} (bad : E -> Prop) (R : A -> B -> Prop) (R' : C -> D -> Prop) r1 r2 f g :
  sim bad R r1 r2 -> (forall a b, R a b -> sim bad R' (f a) (g b)) -> sim bad R' (r1 ≫= f) (r2 ≫= g).
Proof.
  destruct r1 as [a|e1], r2 as [b|e2]; intros Hr Hf; cbn in Hr |- *; [by apply Hf|done| |done].
  by destruct (g b); cbn; auto.
Qed.

Lemma sim_map_err {E E' A B} (bad : E -> Prop) (bad' : E' -> Prop) (R : A -> B -> Prop) (h : E -> E') r1 r2 :
  (forall e, bad e -> bad' (h e)) -> sim bad R r1 r2 -> sim bad' R (map_err h r1) (map_err h r2).
Proof. destruct r1, r2; cbn; naive_solver. Qed.

Lemma sim_ok_or {E A B} (bad : E -> Prop) (R : A -> B -> Prop) o1 o2 (e : E) :
  option_Forall2 R o1 o2 -> sim bad R (ok_or o1 e) (ok_or o2 e).
Proof. intros []; cbn; [done|by left]. Qed.

Lemma sim_fold {E A B C} (bad : E -> Prop) (R : A -> B -> Prop) (Q : C -> Prop) f g (l : list C) a b :
  (forall a b c, Q c -> R a b -> sim bad R (f a c) (g b c)) -> Forall Q l -> R a b ->
  sim bad R (fold_res f a l) (fold_res g b l).
Proof.
  intros Hf Hl. revert a b. induction Hl as [|c l Hc Hl IH]; intros a b Hab; [done|]. cbn [fold_res].
  specialize (Hf a b c Hc Hab). destruct (f a c) as [a'|e], (g b c) as [b'|e']; cbn in Hf |- *; [by apply IH|done| |done].
  by destruct (fold_res g b' l); cbn; auto.
Qed.

(** Equal values with a property. *)
Definition same {A} (P : A -> Prop) (a b : A) : Prop := a = b /\ P a.
Definition same_opt {A} (P : A -> Prop) (a b : option A) : Prop := a = b /\ forall x, a = Some x -> P x.

Lemma same_opt_ok {E A} (bad : E -> Prop) (P : A -> Prop) o1 o2 (e : E) :
  same_opt P o1 o2 -> sim bad (same P) (ok_or o1 e) (ok_or o2 e).
Proof. intros [-> HP]. destruct o2; cbn; [split; auto|by left]. Qed.

Abbreviation fatal := (fun e => storage_is_fatal e = true).
Abbreviation core_fatal := (fun e => core_is_fatal e = true).

(** A step both sides share. *)
Ltac sim_same := eapply (sim_bind _ eq); [apply sim_refl, _|]; intros ? ? ?; simplify_eq.
(** A step of related computations. *)
Ltac sim_by H := eapply sim_bind; [first [apply H | eapply sim_map_err; [|apply H]; by intros []]|].

(** * Readers *)

(** The types the tables bound: heights fit 64 bits, outpoints of an undo record 32. *)
Definition height_typed (b : Block) : Prop := in_u64 (height (header b)).
Definition outpoint_typed (op : OutPoint) : Prop := in_u32 (vout op).
Definition undo_typed (u : BlockUndo) : Prop :=
  (forall e, e ∈ spent_utxos u -> outpoint_typed e.1) /\ (forall op, op ∈ created_outpoints u -> outpoint_typed op).
Definition state_typed (st : ChainState) : Prop := in_u64 (latest_block st).1.

(** [s1] answers the reads of blocks and outputs as [s2] does, or fails fatally. *)
Record chain_sim {S1 S2 : Type} `{BlockStorage S1} `{UtxoStorage S1} `{BlockStorage S2} `{UtxoStorage S2}
    (s1 : S1) (s2 : S2) : Prop := {
  rs_utxo op : sim fatal eq (get_utxo s1 op) (get_utxo s2 op);
  rs_utxo_typed op u : get_utxo s2 op = Ok (Some u) -> outpoint_typed op;
  rs_hash_at h : in_u64 h -> sim fatal eq (get_block_hash_by_height s1 h) (get_block_hash_by_height s2 h);
  rs_block h : sim fatal (same_opt height_typed) (get_block_by_hash s1 h) (get_block_by_hash s2 h);
  rs_block_at h : in_u64 h -> sim fatal (same_opt height_typed) (get_block_by_height s1 h) (get_block_by_height s2 h);
  rs_header h : sim fatal (same_opt (fun x => in_u64 (height x))) (get_block_header_by_hash s1 h) (get_block_header_by_hash s2 h);
  rs_index h : sim fatal eq (get_block_index s1 h) (get_block_index s2 h);
}.

(** The same for every read of the core. *)
Record read_sim {S1 S2 : Type} `{StorageRead S1} `{StorageRead S2} (s1 : S1) (s2 : S2) : Prop := {
  rs_chain :> chain_sim s1 s2;
  rs_state : sim fatal (same_opt state_typed) (chain_state s1) (chain_state s2);
  rs_metadata : sim fatal eq (metadata s1) (metadata s2);
  rs_undo h : sim fatal (same_opt undo_typed) (get_block_undo s1 h) (get_block_undo s2 h);
}.

(** ** Applying and rewinding blocks *)

(** Two UTXO stores whose reads agree, and whose writes do; outpoints must be typed. *)
Record utxo_sim {S1 S2 : Type} `{UtxoWrite S1} `{UtxoWrite S2} (bad : StorageError -> Prop) (R : S1 -> S2 -> Prop) : Prop := {
  us_get s1 s2 op : R s1 s2 -> sim bad eq (get_utxo s1 op) (get_utxo s2 op);
  us_put s1 s2 l : R s1 s2 -> Forall (fun e => outpoint_typed e.1) l -> sim bad R (batch_put_utxos s1 l) (batch_put_utxos s2 l);
  us_typed s1 s2 op u : R s1 s2 -> get_utxo s2 op = Ok (Some u) -> outpoint_typed op;
  us_remove s1 s2 l : R s1 s2 -> sim bad R (batch_remove_utxos s1 l) (batch_remove_utxos s2 l);
}.

Section Utxos.
Context {X : Externals} {S1 S2 : Type} `{UtxoWrite S1} `{UtxoWrite S2}.
Variables (bad : StorageError -> Prop) (R : S1 -> S2 -> Prop).

Lemma batch_get_sim (s1 : S1) (s2 : S2) ops :
  (forall op, sim bad eq (get_utxo s1 op) (get_utxo s2 op)) ->
  sim bad eq (batch_get_utxos s1 ops) (batch_get_utxos s2 ops).
Proof.
  intros Hget. unfold batch_get_utxos. apply (sim_fold bad eq (fun _ => True)); [|by apply Forall_true|done].
  intros m m' op _ ->. eapply sim_bind; [apply Hget|]. intros found _ <-.
  apply sim_refl, _.
Qed.

Lemma tx_created_typed t : Forall (fun e => outpoint_typed e.1) (tx_created t).
Proof.
  apply Forall_forall. intros e He. unfold tx_created in He. apply list_elem_of_lookup in He as [i Hi].
  rewrite list_lookup_imap in Hi. apply fmap_Some in Hi as (out & _ & ->). cbn. unfold outpoint_typed. apply wrap_range. lia.
Qed.

(** Maps whose outpoints are typed. *)
Definition outpoints_typed (m : gmap OutPoint UTXO) : Prop := map_Forall (fun op _ => outpoint_typed op) m.

Lemma put_all_typed m l : outpoints_typed m -> Forall (fun e => outpoint_typed e.1) l -> outpoints_typed (put_all m l).
Proof.
  unfold put_all. intros Hm Hl. revert m Hm. induction Hl as [|[op u] l Hop Hl IH]; intros m Hm; cbn [foldl]; [done|].
  apply IH. by apply map_Forall_insert_2.
Qed.

Lemma remove_all_typed m l : outpoints_typed m -> outpoints_typed (remove_all m l).
Proof.
  unfold remove_all. revert m. induction l as [|op l IH]; intros m Hm; cbn [foldl]; [done|]. apply IH. by apply map_Forall_delete.
Qed.

Lemma spend_inputs_typed ins (acc : gmap OutPoint UTXO * list OutPoint) :
  outpoints_typed acc.1 -> outpoints_typed (foldl spend_input acc ins).1.
Proof.
  revert acc. induction ins as [|i ins IH]; intros acc Hacc; cbn [foldl]; [done|]. apply IH. unfold spend_input.
  destruct (acc.1 !! previous_output i); cbn; [by apply map_Forall_delete|done].
Qed.

Lemma block_effect_typed b : outpoints_typed (block_effect b).1.
Proof.
  unfold block_effect. assert (outpoints_typed (∅, @nil OutPoint).1) as Hacc by (apply map_Forall_empty).
  revert Hacc. generalize (∅ : gmap OutPoint UTXO, @nil OutPoint). induction (transactions b) as [|t l IH]; intros acc Hacc; cbn [foldl]; [done|].
  apply IH. unfold block_step. cbn [fst]. apply put_all_typed; [|apply tx_created_typed].
  destruct (is_payment t); [by apply spend_inputs_typed|done].
Qed.

Lemma batch_get_typed (s : S2) ops m :
  (forall op u, get_utxo s op = Ok (Some u) -> outpoint_typed op) -> batch_get_utxos s ops = Ok m -> outpoints_typed m.
Proof.
  intros Hs. unfold batch_get_utxos. assert (outpoints_typed ∅) as Hm by apply map_Forall_empty. revert Hm. generalize (∅ : gmap OutPoint UTXO).
  induction ops as [|op ops IH]; intros acc Hacc; cbn [fold_res]; [by intros [= <-]|].
  destruct (get_utxo s op) as [[u|]|] eqn:Hop; cbn [mbind result_bind ok_or]; [|done..]. apply IH.
  apply map_Forall_insert_2; [by apply (Hs op u)|done].
Qed.

Lemma take_existing_typed ops acc acc' :
  outpoints_typed acc.1 -> (forall e, e ∈ acc.2 -> outpoint_typed e.1) -> fold_res take_existing acc ops = Ok acc' ->
  forall e, e ∈ acc'.2 -> outpoint_typed e.1.
Proof.
  revert acc. induction ops as [|op ops IH]; intros acc Hm Hs; cbn [fold_res]; [by intros [= <-]|].
  destruct (take_existing acc op) as [acc1|] eqn:Ht; cbn [mbind result_bind]; [|done]. unfold take_existing in Ht. res_inv.
  apply IH; cbn.
  - by apply map_Forall_delete.
  - intros e [->%elem_of_singleton|He]%elem_of_union; [by apply (Hm op r)|by apply Hs].
Qed.

Hypothesis Hsim : utxo_sim bad R.

Lemma apply_block_sim (s1 : S1) (s2 : S2) b :
  R s1 s2 ->
  sim bad (fun a c => a.1 = c.1 /\ undo_typed a.1 /\ R a.2 c.2) (apply_block b s1) (apply_block b s2).
Proof.
  intros HR. unfold apply_block. pose proof (block_effect_typed b) as Hty. destruct (block_effect b) as [created ext]. cbn [fst] in Hty.
  apply (sim_bind bad (fun a c => a.1 = c.1 /\ (forall e, e ∈ a.1 -> outpoint_typed e.1) /\ R a.2 c.2)).
  - case_bool_decide; [cbn; split_and!; [done|set_solver|done]|].
    pose proof (batch_get_sim s1 s2 ext (fun op => us_get _ _ Hsim s1 s2 op HR)) as Hg.
    pose proof (batch_get_typed s2 ext) as Ht. destruct (batch_get_utxos s2 ext) as [m2|e2].
    2: { destruct (batch_get_utxos s1 ext); [done|]. exact Hg. }
    destruct (batch_get_utxos s1 ext) as [m1|e1]; cbn in Hg.
    2: { cbn [mbind result_bind]. by apply sim_bad. }
    subst m1. cbn [mbind result_bind].
    assert (outpoints_typed m2) as Hm by (apply Ht; [|done]; intros op u; by apply (us_typed _ _ Hsim s1 s2)).
    pose proof (take_existing_typed ext (m2, ∅)) as Htk.
    destruct (fold_res take_existing (m2, ∅) ext) as [tk|e]; cbn [mbind result_bind]; [|by left].
    apply (sim_bind bad R); [by apply (us_remove _ _ Hsim)|]. intros t1 t2 Ht12. cbn. split_and!; [done| |done].
    apply (Htk tk); [done|set_solver|done].
  - intros [sp1 t1] [sp2 t2]. cbn [fst snd]. intros (<- & Hsp & Ht12).
    apply (sim_bind bad R).
    + case_bool_decide; [done|]. apply (us_put _ _ Hsim); [done|]. apply Forall_forall. intros [op u] He.
      apply elem_of_map_to_list in He. apply (Hty op u He).
    + intros u1 u2 Hu. cbn. split_and!; [done| |done]. split; cbn; [done|].
      intros op [u Hu']%elem_of_dom. apply (Hty op u Hu').
Qed.

Lemma rewind_block_sim (s1 : S1) (s2 : S2) undo :
  R s1 s2 -> undo_typed undo -> sim bad R (rewind_block undo s1) (rewind_block undo s2).
Proof.
  intros HR [Hs Hc]. unfold rewind_block. apply (sim_bind bad R); [by apply (us_remove _ _ Hsim)|].
  intros t1 t2 Ht. apply (us_put _ _ Hsim); [done|]. apply Forall_forall. intros e He. apply Hs. by apply elem_of_elements.
Qed.
End Utxos.

(** ** The fork overlay *)

Section Overlays.
Context {X : Externals} {S1 S2 : Type} `{StorageRead S1} `{StorageRead S2}.

(** An overlay on another base. *)
Definition rebase (ov : ForkDbOverlay S1) (s : S2) : ForkDbOverlay S2 :=
  mk_ForkDbOverlay s (ov_common_ancestor ov) (ov_expected_head ov) (rewind_tip ov) (branch_tip ov)
    (ov_utxos ov) (removed_utxos ov) (ov_blocks ov) (ov_heights ov) (ov_detached ov).

Record overlay_typed (ov : ForkDbOverlay S1) : Prop := {
  ot_ancestor : in_u64 (ov_common_ancestor ov).1;
  ot_rewind : in_u64 (rewind_tip ov).1;
  ot_branch : in_u64 (branch_tip ov).1;
  ot_utxos : outpoints_typed (ov_utxos ov);
  ot_blocks : map_Forall (fun _ e => height_typed e.1 /\ undo_typed e.2) (ov_blocks ov);
}.

(** The same overlay on bases that answer alike. *)
Record overlay_sim (ov1 : ForkDbOverlay S1) (ov2 : ForkDbOverlay S2) : Prop := {
  os_base : read_sim (base ov1) (base ov2);
  os_same : ov2 = rebase ov1 (base ov2);
  os_typed : overlay_typed ov1;
}.

Lemma overlay_sim_rebase ov1 s2 : read_sim (base ov1) s2 -> overlay_typed ov1 -> overlay_sim ov1 (rebase ov1 s2).
Proof. by split. Qed.

Lemma overlay_sim_utxos ov1 s2 u r :
  read_sim (base ov1) s2 -> overlay_typed ov1 -> outpoints_typed u ->
  overlay_sim (set_overlay_utxos ov1 u r) (set_overlay_utxos (rebase ov1 s2) u r).
Proof. intros Hb [Ha Hr Hbr Hu Hbl] Hu'. split; [done|done|]. by split. Qed.

Lemma overlay_get_sim ov1 s2 op :
  read_sim (base ov1) s2 -> sim fatal eq (get_utxo ov1 op) (get_utxo (rebase ov1 s2) op).
Proof.
  intros Hb. cbn. unfold overlay_get_utxo. cbn. destruct (ov_utxos ov1 !! op); [done|].
  case_bool_decide; [done|]. apply Hb.
Qed.

(** The overlays are UTXO stores that simulate each other. *)
Lemma overlay_utxo_sim : utxo_sim fatal overlay_sim.
Proof.
  split.
  - intros ov1 ov2 op Hs. destruct Hs as [Hb -> Ht]. by apply overlay_get_sim.
  - intros ov1 ov2 l Hs Hl. destruct Hs as [Hb -> Ht]. apply overlay_sim_utxos; [done..|].
    apply put_all_typed; [apply (ot_utxos _ Ht)|done].
  - intros ov1 ov2 op u [Hb -> Ht]. cbn. unfold overlay_get_utxo. cbn. destruct (ov_utxos ov1 !! op) as [u'|] eqn:Hu.
    + intros _. by apply (ot_utxos _ Ht op u').
    + case_bool_decide; [done|]. apply (rs_utxo_typed _ _ Hb).
  - intros ov1 ov2 l [Hb -> Ht]. cbn. unfold overlay_batch_remove_utxos. apply (sim_bind fatal eq).
    + apply (sim_fold fatal eq (fun _ => True)); [|by apply Forall_true|done]. intros [] [] op _ _.
      eapply sim_bind; [by apply overlay_get_sim|]. intros found _ <-. apply sim_refl, _.
    + intros [] _ _. apply overlay_sim_utxos; [done..|]. apply remove_all_typed. apply (ot_utxos _ Ht).
Qed.

Lemma overlay_block_sim ov1 s2 h :
  read_sim (base ov1) s2 -> overlay_typed ov1 ->
  sim fatal (same_opt height_typed) (overlay_get_block_by_hash ov1 h) (overlay_get_block_by_hash (rebase ov1 s2) h).
Proof.
  intros Hb Ht. unfold overlay_get_block_by_hash. cbn. destruct (ov_blocks ov1 !! h) as [[b u]|] eqn:Hbl; [|apply Hb].
  split; [done|]. intros x [= <-]. by apply (ot_blocks _ Ht h (b, u) Hbl).
Qed.

(** An overlay answers as its twin on the other base does. *)
Lemma overlay_chain_sim ov1 ov2 : overlay_sim ov1 ov2 -> chain_sim ov1 ov2.
Proof.
  intros [Hb -> Ht]. generalize dependent (base ov2). intros s2 Hb. split.
  - intros op. by apply overlay_get_sim.
  - intros op u. apply (us_typed _ _ overlay_utxo_sim ov1). by split.
  - intros h Hh. cbn. unfold overlay_get_block_hash_by_height. cbn. destruct (ov_heights ov1 !! h); [done|].
    destruct (_ <? h); [done|]. by apply Hb.
  - intros h. by apply overlay_block_sim.
  - intros h Hh. cbn. unfold overlay_get_block_by_height. cbn. destruct (ov_heights ov1 !! h); [by apply overlay_block_sim|].
    destruct (_ <? h); [by split|]. by apply Hb.
  - intros h. cbn. unfold overlay_get_block_header_by_hash. cbn. destruct (ov_blocks ov1 !! h) as [[b u]|] eqn:Hbl; [|apply Hb].
    split; [done|]. intros x [= <-]. by apply (ot_blocks _ Ht h (b, u) Hbl).
  - intros h. apply Hb.
Qed.

Lemma tip_sim (s1 : S1) (s2 : S2) : read_sim s1 s2 -> sim fatal (same (fun x => in_u64 x.1)) (tip s1) (tip s2).
Proof.
  intros Hs. unfold tip, stat. eapply sim_bind; [apply (rs_state _ _ Hs)|]. intros st1 st2 Hst.
  eapply sim_bind; [by apply (same_opt_ok fatal state_typed)|]. intros st _ [<- Ht]. by split.
Qed.

Lemma overlay_new_sim (s1 : S1) (s2 : S2) ancestor :
  read_sim s1 s2 -> sim fatal overlay_sim (overlay_new s1 ancestor) (overlay_new s2 ancestor).
Proof.
  intros Hs. unfold overlay_new. eapply sim_bind; [apply Hs|]. intros f1 f2 Hf.
  eapply sim_bind; [by apply same_opt_ok|]. intros b _ [<- Hb].
  eapply sim_bind; [by apply tip_sim|]. intros t _ [<- Ht].
  sim_same. sim_same.
  eapply sim_bind; [by apply Hs|]. intros c _ <-. sim_same.
  split; [done|done|]. split; cbn; [done..| |]; apply map_Forall_empty.
Qed.

Lemma rewind_error_fatal e : storage_is_fatal e = true -> storage_is_fatal (rewind_error e) = true.
Proof. by destruct e. Qed.

Lemma overlay_rewind_sim ov1 ov2 :
  overlay_sim ov1 ov2 -> sim fatal overlay_sim (overlay_rewind_block ov1) (overlay_rewind_block ov2).
Proof.
  intros Hs. pose proof (rewind_block_sim fatal overlay_sim overlay_utxo_sim ov1 ov2) as Hrew.
  destruct Hs as [Hb He Ht]. pose proof (ot_rewind _ Ht) as Hrt. pose proof (ot_ancestor _ Ht) as Hat.
  unfold overlay_rewind_block. rewrite He. cbn [rebase ov_blocks rewind_tip ov_common_ancestor base].
  destruct (negb _ || _) eqn:Hg; [by left|]. destruct (rewind_tip ov1) as [h hash]. cbn [fst snd] in *. bool_inv.
  eapply sim_bind; [apply Hb|]. intros f1 f2 Hf. eapply sim_bind; [by apply same_opt_ok|]. intros b _ [<- Hbt].
  sim_same. eapply sim_bind; [by apply Hb|]. intros c _ <-.
  sim_same. eapply sim_bind; [apply (rs_undo _ _ Hb)|]. intros u1 u2 Hu.
  eapply sim_bind; [by apply (same_opt_ok fatal undo_typed)|]. intros u _ [<- Hut].
  eapply sim_bind; [eapply sim_map_err; [apply rewind_error_fatal|]|].
  { rewrite <-He. apply Hrew; [|done]. by split. }
  intros o1 o2 [Hb' -> Ht']. cbn. generalize dependent (base o2). intros s2 Hb'. split; [done|done|]. destruct Ht'. split; cbn; try done.
  unfold in_uint in *. lia.
Qed.

Lemma overlay_replay_sim ov1 ov2 b :
  overlay_sim ov1 ov2 -> sim fatal overlay_sim (overlay_replay_block ov1 b) (overlay_replay_block ov2 b).
Proof.
  intros Hs. pose proof (apply_block_sim fatal overlay_sim overlay_utxo_sim ov1 ov2 b Hs) as Happ.
  destruct Hs as [Hb He Ht]. pose proof (ot_branch _ Ht) as Hbt.
  assert (rewind_tip ov2 = rewind_tip ov1 /\ ov_common_ancestor ov2 = ov_common_ancestor ov1 /\ branch_tip ov2 = branch_tip ov1)
    as (Hr & Ha & Hbr) by (by rewrite He).
  unfold overlay_replay_block. rewrite Hr, Ha, Hbr.
  sim_same. destruct (_ || _) eqn:Hg; [by left|]. bool_inv.
  eapply sim_bind; [exact Happ|]. intros [u1 o1] [u2 o2] (Hu & Hut & [Hb' He' Ht']). cbn [fst snd] in *. subst u2.
  rewrite He'. cbn. generalize dependent (base o2). intros s2 Hb' _. destruct Ht'.
  assert (height_typed b) as Hh.
  { unfold height_typed. destruct (checked_add 64 (branch_tip ov1).1 1) as [n|] eqn:Hc; [|done].
    match goal with H : Some _ = Some _ |- _ => injection H as <- end. apply checked_add_Some in Hc as [-> ?].
    unfold in_uint in *. lia. }
  split; [done|done|]. split; cbn; try done. by apply map_Forall_insert_2.
Qed.

Definition delta_typed (d : ForkDbDelta) : Prop :=
  Forall (fun e => outpoint_typed e.1) (delta_utxos d) /\ Forall (fun e => undo_typed e.2) (delta_blocks d).

Lemma into_delta_sim ov1 ov2 :
  overlay_sim ov1 ov2 ->
  sim fatal (same delta_typed) (into_delta ov1) (into_delta ov2).
Proof.
  intros [Hb -> Ht]. unfold into_delta. cbn [rebase rewind_tip ov_common_ancestor ov_blocks]. destruct (_ || _); [by left|].
  eapply (sim_bind fatal eq).
  { apply (sim_fold fatal eq (fun _ => True)); [|by apply Forall_true|done]. intros l _ op _ <-. unfold keep_removed. cbn.
    case_bool_decide; [|done]. eapply sim_bind; [apply Hb|]. intros f _ <-. apply sim_refl, _. }
  intros r _ <-. cbn [ov_utxos rebase].
  eapply (sim_bind fatal (same (fun l : list (OutPoint * UTXO) => Forall (fun e => outpoint_typed e.1) l))).
  { apply (sim_fold fatal _ (fun e => outpoint_typed e.1)).
    - intros l _ e He [<- Hl]. unfold keep_changed. cbn. eapply sim_bind; [apply Hb|]. intros f _ <-. cbn.
      case_bool_decide; [done|]. split; [done|]. apply Forall_app. by split; [|apply Forall_singleton].
    - apply Forall_forall. intros [op u] Hin. apply elem_of_map_to_list in Hin. apply (ot_utxos _ Ht op u Hin).
    - by split. }
  intros c _ [<- Hc]. split; [done|]. split; [done|]. cbn. rewrite merge_sort_Permutation. apply Forall_fmap, Forall_forall.
  intros [h e] He. apply elem_of_map_to_list in He. by apply (ot_blocks _ Ht h e He).
Qed.
End Overlays.

(** ** Validation *)

Section Validation.
Context {X : Externals} {P : PetGraph nat} {S1 S2 : Type} `{BlockStorage S1} `{UtxoStorage S1} `{BlockStorage S2} `{UtxoStorage S2}.
Variables (s1 : S1) (s2 : S2).
Hypothesis Hs : chain_sim s1 s2.

Lemma required_header_sim hash :
  sim core_fatal (same (fun x => in_u64 (height x))) (read_required_header s1 hash) (read_required_header s2 hash).
Proof.
  unfold read_required_header. eapply sim_bind; [eapply sim_map_err; [|apply Hs]; done|]. intros f1 f2 Hf. by apply same_opt_ok.
Qed.

Lemma required_header_at_sim h :
  in_u64 h -> sim core_fatal eq (read_required_header_by_height s1 h) (read_required_header_by_height s2 h).
Proof.
  intros Hh. unfold read_required_header_by_height. eapply sim_bind; [eapply sim_map_err; [|by apply Hs]; done|].
  intros f _ <-. sim_same. eapply sim_bind; [apply required_header_sim|]. intros x _ [<- _]. apply sim_refl, _.
Qed.

Lemma timestamps_sim slots cursor : sim core_fatal eq (collect_timestamps slots s1 cursor) (collect_timestamps slots s2 cursor).
Proof.
  revert cursor. induction slots as [|slots IH]; intros cursor; cbn [collect_timestamps]; [apply sim_refl, _|].
  sim_same. sim_same. destruct (header_is_genesis cursor); [done|].
  eapply sim_bind; [apply required_header_sim|]. intros x _ [<- _]. sim_same.
  eapply sim_bind; [apply IH|]. by intros l _ <-.
Qed.

Lemma median_sim parent : sim core_fatal eq (median_time_past s1 parent) (median_time_past s2 parent).
Proof.
  unfold median_time_past. eapply sim_bind; [apply required_header_sim|]. intros x _ [<- _].
  eapply sim_bind; [apply timestamps_sim|]. by intros l _ <-.
Qed.

Lemma threshold_sim calc parent : sim core_fatal eq (next_hash_threshold calc s1 parent) (next_hash_threshold calc s2 parent).
Proof.
  unfold next_hash_threshold. eapply sim_bind; [apply required_header_sim|]. intros x _ [<- Hx]. sim_same.
  destruct (header_is_genesis x); [done|]. destruct (height x =? 0); [by left|].
  eapply sim_bind; [eapply sim_map_err; [|by apply Hs]; done|]. intros f _ <-. destruct (negb _).
  - eapply sim_bind; [by apply required_header_at_sim|]. intros ? _ <-. by left.
  - destruct (height x =? 1); [apply sim_refl, _|]. eapply sim_bind; [apply required_header_at_sim; done|].
    intros [h a] _ <-. apply sim_refl, _.
Qed.

Lemma validate_header_sim b calc now : sim core_fatal eq (validate_header b calc s1 now) (validate_header b calc s2 now).
Proof.
  unfold validate_header. sim_same. eapply (sim_bind _ eq).
  { destruct (negb _); [|done]. sim_same. unfold verify_timestamp. eapply sim_bind; [apply median_sim|]. intros m _ <-. apply sim_refl, _. }
  intros [] _ _. eapply (sim_bind _ eq).
  { unfold verify_hash_threshold. destruct (header_is_genesis _); [done|]. eapply sim_bind; [apply threshold_sim|].
    intros e _ <-. apply sim_refl, _. }
  intros [] _ _. apply sim_refl, _.
Qed.

Lemma dependency_context_sim txs : sim core_fatal eq (build_dependency_context txs s1) (build_dependency_context txs s2).
Proof.
  unfold build_dependency_context. sim_same. sim_same. eapply (sim_bind _ eq).
  { case_bool_decide; [done|]. apply (sim_map_err fatal).
    - intros e He. destruct e; cbn in *; done.
    - apply batch_get_sim. intros op. apply Hs. }
  intros m _ <-. done.
Qed.

Lemma validate_transactions_sim schedule b rules :
  sim core_fatal eq (validate_transactions schedule b rules s1) (validate_transactions schedule b rules s2).
Proof.
  unfold validate_transactions. eapply sim_bind; [apply dependency_context_sim|]. intros c _ <-. apply sim_refl, _.
Qed.

(** Validation on the first backend gives the verdict of the second, or fails fatally. *)
Lemma validate_sim schedule now v b : sim core_fatal eq (validate schedule now v b s1) (validate schedule now v b s2).
Proof.
  unfold validate. eapply sim_bind; [apply validate_header_sim|]. intros [] _ _. sim_same. apply validate_transactions_sim.
Qed.

Lemma validate_for_fork_sim schedule now v b :
  sim core_fatal eq (validate_for_fork schedule now v b s1) (validate_for_fork schedule now v b s2).
Proof. apply validate_sim. Qed.
End Validation.

(** ** Start-up and fork overlays *)

Section EngineReads.
Context {X : Externals} {S1 S2 : Type} `{StorageRead S1} `{StorageRead S2}.

Lemma collect_sim (s1 : S1) (s2 : S2) fuel h hash blocks :
  read_sim s1 s2 -> in_u64 h ->
  sim core_fatal eq (collect_loop fuel s1 (h, hash) blocks) (collect_loop fuel s2 (h, hash) blocks).
Proof.
  intros Hs. revert h hash blocks. induction fuel as [|fuel IH]; intros h hash blocks Hh; cbn [collect_loop].
  all: eapply sim_bind; [eapply sim_map_err; [|apply Hs]; done|]; intros f1 f2 Hf.
  all: eapply sim_bind; [by apply same_opt_ok|]; intros b _ [<- Hb].
  all: eapply sim_bind; [eapply sim_map_err; [|by apply Hs]; done|]; intros c _ <-.
  all: destruct (_ || _); [by left|]; sim_same.
  all: eapply (sim_bind _ eq); [destruct (0 <? h); [|done]; eapply sim_bind; [eapply sim_map_err; [|apply (rs_undo _ _ Hs)]; done|];
    intros u1 u2 [<- _]; apply sim_refl, _|]; intros [] _ _.
  { apply sim_refl, _. }
  destruct (_ && _); [by left|]. destruct (Z.eqb_spec h 0) as [->|Hz]; [done|]. apply IH. unfold in_uint in *. lia.
Qed.

Lemma rebuild_sim (s1 : S1) (s2 : S2) st blocks :
  read_sim s1 s2 -> sim core_fatal eq (rebuild_chain_index s1 st blocks) (rebuild_chain_index s2 st blocks).
Proof.
  intros Hs. unfold rebuild_chain_index. eapply (sim_bind _ eq).
  - apply (sim_fold core_fatal eq (fun _ => True)); [|by apply Forall_true|done]. intros acc _ b _ <-. unfold rebuild_step.
    sim_same. sim_same. eapply sim_bind; [eapply sim_map_err; [|apply Hs]; done|]. intros i _ <-. apply sim_refl, _.
  - intros acc _ <-. apply sim_refl, _.
Qed.

Lemma rewind_loop_sim fuel x lca (ov1 : ForkDbOverlay S1) (ov2 : ForkDbOverlay S2) cursor :
  overlay_sim ov1 ov2 -> sim core_fatal overlay_sim (rewind_loop fuel x lca ov1 cursor) (rewind_loop fuel x lca ov2 cursor).
Proof.
  revert ov1 ov2 cursor. induction fuel as [|fuel IH]; intros ov1 ov2 cursor Ho; cbn [rewind_loop]; case_bool_decide; try done.
  all: eapply sim_bind; [eapply sim_map_err; [|by apply overlay_rewind_sim]; done|]; intros o1 o2 Ho'; sim_same.
  - by left.
  - by apply IH.
Qed.

Lemma fork_overlay_sim {DB1 DB2} (e1 : Engine DB1) (e2 : Engine DB2) (s1 : S1) (s2 : S2) lca :
  chain_index e1 = chain_index e2 -> read_sim s1 s2 ->
  sim core_fatal overlay_sim (build_fork_overlay e1 s1 lca) (build_fork_overlay e2 s2 lca).
Proof.
  intros Hx Hs. unfold build_fork_overlay, expect_tip. rewrite Hx.
  eapply sim_bind; [eapply sim_map_err; [|by apply overlay_new_sim]; done|]. intros o1 o2 Ho. sim_same.
  assert (rewind_tip o2 = rewind_tip o1 /\ ov_common_ancestor o2 = ov_common_ancestor o1) as [-> ->] by (by rewrite (os_same _ _ Ho)).
  by apply rewind_loop_sim.
Qed.

Lemma replay_sim (ov1 : ForkDbOverlay S1) (ov2 : ForkDbOverlay S2) bs :
  overlay_sim ov1 ov2 -> sim fatal overlay_sim (fold_res overlay_replay_block ov1 bs) (fold_res overlay_replay_block ov2 bs).
Proof.
  intros Ho. apply (sim_fold fatal overlay_sim (fun _ => True)); [|by apply Forall_true|done].
  intros o1 o2 b _ Ho'. by apply overlay_replay_sim.
Qed.
End EngineReads.

(** * Transitions *)

(** Writing backends whose related states answer alike and whose writes keep them related;
    the first may refuse a write that the second makes, never the other way around. *)
Record store_sim {S1 S2 : Type} `{StorageWrite S1} `{StorageWrite S2} (R : S1 -> S2 -> Prop) : Prop := {
  ss_read s1 s2 : R s1 s2 -> read_sim s1 s2;
  ss_put_utxos s1 s2 l : R s1 s2 -> Forall (fun e => outpoint_typed e.1) l ->
    sim (fun _ => True) R (batch_put_utxos s1 l) (batch_put_utxos s2 l);
  ss_remove_utxos s1 s2 l : R s1 s2 -> sim (fun _ => True) R (batch_remove_utxos s1 l) (batch_remove_utxos s2 l);
  ss_put_block s1 s2 b i : R s1 s2 -> height_typed b -> sim (fun _ => True) R (put_block s1 b i) (put_block s2 b i);
  ss_remove_block s1 s2 b : R s1 s2 -> height_typed b ->
    sim (fun _ => True) R (remove_canonical_block s1 b) (remove_canonical_block s2 b);
  ss_put_undo s1 s2 h u : R s1 s2 -> undo_typed u -> sim (fun _ => True) R (put_block_undo s1 h u) (put_block_undo s2 h u);
  ss_put_state s1 s2 st : R s1 s2 -> state_typed st -> sim (fun _ => True) R (put_chain_state s1 st) (put_chain_state s2 st);
  ss_put_metadata s1 s2 md : R s1 s2 -> sim (fun _ => True) R (put_metadata s1 md) (put_metadata s2 md);
}.

Section Transitions.
Context {X : Externals} {S1 S2 : Type} `{StorageWrite S1} `{StorageWrite S2}.
Variable R : S1 -> S2 -> Prop.
Hypothesis Hsim : store_sim R.

Abbreviation anysim := (sim (fun _ : StorageError => True)).

Lemma fatal_any {A B} (Q : A -> B -> Prop) (r1 : result StorageError A) (r2 : result StorageError B) : sim fatal Q r1 r2 -> anysim Q r1 r2.
Proof. by apply sim_weaken. Qed.

Lemma store_utxo_sim : utxo_sim (fun _ => True) R.
Proof.
  split.
  - intros s1 s2 op Hr. apply fatal_any, (ss_read _ Hsim s1 s2 Hr).
  - intros s1 s2 l Hr. by apply (ss_put_utxos _ Hsim).
  - intros s1 s2 op u Hr. apply (ss_read _ Hsim s1 s2 Hr).
  - intros s1 s2 l Hr. by apply (ss_remove_utxos _ Hsim).
Qed.

Lemma extended_typed st b st' : state_typed st -> extended_state st b = Ok st' -> height_typed b /\ state_typed st'.
Proof.
  unfold extended_state. intros Hst He. apply bind_Ok in He as ([] & _ & He). cbn beta in He.
  destruct (_ || _) eqn:Hg; [done|]. bool_inv. res_inv.
  assert (height_typed b) as Hb; [|by split].
  match goal with H : checked_add 64 _ 1 = Some (height _) |- _ => apply checked_add_Some in H as [Hh Hl] end.
  unfold height_typed, state_typed, in_uint in *. lia.
Qed.

Lemma verify_state_sim s1 s2 st :
  R s1 s2 -> state_typed st -> anysim eq (verify_current_state s1 st) (verify_current_state s2 st).
Proof.
  intros Hr Hst. pose proof (ss_read _ Hsim s1 s2 Hr) as Hs. unfold verify_current_state.
  eapply sim_bind; [apply fatal_any, Hs|]. intros md _ <-. sim_same.
  eapply sim_bind; [apply fatal_any, Hs|]. intros f1 f2 [<- _]. sim_same.
  eapply sim_bind; [apply fatal_any; by apply Hs|]. intros c _ <-. sim_same.
  eapply sim_bind; [apply fatal_any, Hs|]. intros i _ <-. sim_same. destruct (_ || _); [by left|done].
Qed.

(** A staged state and the storage it was staged on. *)
Definition staged_sim (a : ChainState * S1) (c : ChainState * S2) : Prop := a.1 = c.1 /\ state_typed a.1 /\ R a.2 c.2.

Lemma attach_block_sim s1 s2 st b :
  R s1 s2 -> state_typed st -> anysim staged_sim (attach_block s1 st b) (attach_block s2 st b).
Proof.
  intros Hr Hst. unfold attach_block. destruct (extended_state st b) as [st'|] eqn:He; [|by left]. cbn [mbind result_bind].
  apply extended_typed in He as [Hb Hst']; [|done].
  eapply sim_bind; [by apply (apply_block_sim _ R store_utxo_sim)|]. intros [u1 t1] [u2 t2] (Hu & Hut & Ht). cbn [fst snd] in *. subst u2.
  eapply sim_bind; [by apply (ss_put_block _ Hsim)|]. intros t3 t4 Ht'.
  eapply sim_bind; [by apply (ss_put_undo _ Hsim)|]. intros t5 t6 Ht''. by split_and!.
Qed.

(** Two staged transitions. *)
Definition outcome_sim {A} (a : A * S1) (c : A * S2) : Prop := a.1 = c.1 /\ R a.2 c.2.

Lemma stage_append_sim s1 s2 st b :
  R s1 s2 -> (forall x, st = Some x -> state_typed x) -> anysim outcome_sim (stage_append s1 st b) (stage_append s2 st b).
Proof.
  intros Hr Hst. unfold stage_append. destruct st as [st|]; [|by left]. cbn [ok_or mbind result_bind]. specialize (Hst st eq_refl).
  eapply sim_bind; [by apply verify_state_sim|]. intros [] _ _.
  eapply sim_bind; [by apply attach_block_sim|]. intros [st1 t1] [st2 t2] (He & Ht & Hr'). cbn [fst snd] in *. subst st2.
  eapply sim_bind; [by apply (ss_put_state _ Hsim)|]. by intros t3 t4 Ht3.
Qed.

Lemma ancestor_sim s1 s2 anc :
  R s1 s2 -> anysim (same (fun x => height_typed x.1)) (canonical_ancestor s1 anc) (canonical_ancestor s2 anc).
Proof.
  intros Hr. pose proof (ss_read _ Hsim s1 s2 Hr) as Hs. unfold canonical_ancestor.
  eapply sim_bind; [apply fatal_any, Hs|]. intros f1 f2 Hf. eapply sim_bind; [by apply same_opt_ok|]. intros b _ [<- Hb].
  eapply sim_bind; [apply fatal_any; by apply Hs|]. intros c _ <-. sim_same. sim_same. destruct (negb _).
  - eapply sim_bind; [apply fatal_any, Hs|]. intros g1 g2 [<- _]. sim_same. sim_same. by left.
  - eapply sim_bind; [apply fatal_any, Hs|]. intros i _ <-. sim_same. sim_same. by split.
Qed.

Lemma detach_sim fuel h anc s1 s2 latest det :
  R s1 s2 -> 0 <= h -> in_u64 latest.1 ->
  anysim (fun a c => a.1.2 = c.1.2 /\ in_u64 a.1.2.1 /\ a.2 = c.2 /\ R a.1.1 c.1.1)
    (detach_loop fuel h anc s1 latest det) (detach_loop fuel h anc s2 latest det).
Proof.
  intros Hr Hh. revert s1 s2 latest det Hr. induction fuel as [|fuel IH]; intros s1 s2 latest det Hr Hl; cbn [detach_loop].
  all: case_bool_decide; [done|]; destruct (Z.leb_spec latest.1 h) as [Hle|Hgt]; [by left|].
  all: pose proof (ss_read _ Hsim s1 s2 Hr) as Hs; eapply sim_bind; [apply fatal_any, Hs|]; intros f1 f2 Hf.
  all: eapply sim_bind; [by apply same_opt_ok|]; intros b _ [<- Hb].
  all: eapply sim_bind; [apply fatal_any; by apply Hs|]; intros c _ <-; sim_same.
  all: match goal with |- context [ensure ?g _] => destruct g eqn:Hg; [|by left] end; cbn [ensure mbind result_bind]; bool_inv.
  all: eapply sim_bind; [by apply (ss_remove_block _ Hsim)|]; intros t1 t2 Ht.
  { by left. }
  apply IH; [done|]. cbn [fst]. unfold in_uint in *. lia.
Qed.

Lemma attach_prepared_sim a c e :
  undo_typed e.2 -> staged_sim a c -> anysim staged_sim (attach_prepared a e) (attach_prepared c e).
Proof.
  destruct a as [st t1], c as [st2 t2], e as [b u]. intros Hu (He & Ht & Hr). cbn [fst snd] in *. subst st2.
  unfold attach_prepared. cbn [fst snd]. destruct (extended_state st b) as [st'|] eqn:Hx; [|by left]. cbn [mbind result_bind].
  apply extended_typed in Hx as [Hb Hst']; [|done].
  eapply sim_bind; [by apply (ss_put_block _ Hsim)|]. intros t3 t4 Ht3.
  eapply sim_bind; [by apply (ss_put_undo _ Hsim)|]. intros t5 t6 Ht5. by split_and!.
Qed.

Lemma stage_reorganization_sim s1 s2 st d :
  R s1 s2 -> (forall x, st = Some x -> state_typed x) -> delta_typed d ->
  anysim outcome_sim (stage_reorganization s1 st d) (stage_reorganization s2 st d).
Proof.
  intros Hr Hst [Hdu Hdb]. unfold stage_reorganization. destruct st as [st|]; [|by left]. cbn [ok_or mbind result_bind]. specialize (Hst st eq_refl).
  eapply sim_bind; [by apply verify_state_sim|]. intros [] _ _. sim_same.
  eapply sim_bind; [by apply ancestor_sim|]. intros [a i] _ [<- Ha]. cbn [fst] in Ha.
  eapply (sim_bind _ (fun a c => a.1.2 = c.1.2 /\ state_typed a.1.2 /\ a.2 = c.2 /\ R a.1.1 c.1.1)).
  { unfold detach_to_ancestor. eapply sim_bind; [apply detach_sim; [done|apply Ha|apply Hst]|].
    intros [[t1 l1] d1] [[t2 l2] d2] (Hl & Ht & Hd & Hr'). cbn [fst snd] in *. subst. by split_and!. }
  intros [[t1 st1] d1] [[t2 st2] d2] (Hs12 & Hst1 & Hd & Hr'). cbn [fst snd] in *. subst st2 d2. sim_same.
  eapply sim_bind; [by apply (ss_remove_utxos _ Hsim)|]. intros t3 t4 Ht3.
  eapply sim_bind; [by apply (ss_put_utxos _ Hsim)|]. intros t5 t6 Ht5.
  eapply (sim_bind _ staged_sim).
  { apply (sim_fold _ staged_sim (fun e => undo_typed e.2)); [|done|by split_and!].
    intros x y e He Hxy. by apply attach_prepared_sim. }
  intros [st3 t7] [st4 t8] (He & Ht & Hr7). cbn [fst snd] in *. subst st4.
  eapply sim_bind; [by apply (ss_put_state _ Hsim)|]. by intros t9 t10 Ht9.
Qed.

Lemma genesis_height b : validate_genesis b = Ok tt -> height (header b) = 0.
Proof.
  intros (Hw & _ & (gs & Hg & _) & _)%validate_genesis_iff. revert Hw.
  unfold verify_genesis_work_shape, verify_genesis_header_work_shape, header_is_genesis.
  rewrite Hg, bool_decide_eq_true_2 by eauto. cbn [andb]. destruct (_ || _) eqn:Hb; [done|]. by bool_inv.
Qed.

Lemma stage_genesis_sim s1 s2 st b md :
  R s1 s2 -> (forall x, st = Some x -> state_typed x) -> anysim outcome_sim (stage_genesis s1 st b md) (stage_genesis s2 st b md).
Proof.
  intros Hr Hst. pose proof (ss_read _ Hsim s1 s2 Hr) as Hs. unfold stage_genesis.
  destruct (validate_genesis b) as [[]|e] eqn:Hv; [|by left]. cbn [mbind result_bind]. apply genesis_height in Hv.
  assert (height_typed b) as Hb by (unfold height_typed; rewrite Hv; done). destruct st as [st|].
  - eapply sim_bind; [apply fatal_any; by apply Hs|]. intros f1 f2 [<- _]. sim_same.
    eapply sim_bind; [apply fatal_any, Hs|]. intros m _ <-. sim_same. destruct (_ || _); [by left|].
    eapply sim_bind; [apply verify_state_sim; [done|by apply Hst]|]. by intros [] [] _.
  - eapply sim_bind; [apply fatal_any, Hs|]. intros m _ <-. eapply (sim_bind _ eq).
    { case_bool_decide; [done|]. eapply sim_bind; [apply fatal_any; by apply Hs|]. by intros f1 f2 [<- _]. }
    intros i _ <-. destruct i; [by left|].
    eapply sim_bind; [by apply (ss_put_block _ Hsim)|]. intros t1 t2 Ht.
    eapply sim_bind; [by apply (apply_block_sim _ R store_utxo_sim)|]. intros [u1 t3] [u2 t4] (_ & _ & Ht3). cbn [fst snd] in *.
    eapply sim_bind; [by apply (ss_put_metadata _ Hsim)|]. intros t5 t6 Ht5.
    eapply sim_bind; [by apply (ss_put_state _ Hsim)|]. by intros t7 t8 Ht7.
Qed.

(** The transitions a store may be asked for. *)
Definition transition_typed (t : ChainTransition) : Prop :=
  match t with TReorganize d => delta_typed d | _ => True end.

(** Any transition keeps related stores related, with the same result. *)
Lemma apply_transition_sim s1 s2 t :
  R s1 s2 -> transition_typed t -> anysim outcome_sim (apply_transition s1 t) (apply_transition s2 t).
Proof.
  intros Hr Ht. unfold apply_transition. eapply sim_bind; [apply fatal_any, (ss_read _ Hsim s1 s2 Hr)|].
  intros st _ [<- Hst]. eapply (sim_bind _ outcome_sim).
  - destruct t as [b md|b|d]; [by apply stage_genesis_sim|by apply stage_append_sim|by apply stage_reorganization_sim].
  - intros [x1 t1] [x2 t2] [He Hr']. cbn [fst snd] in *. subst x2. by split.
Qed.
End Transitions.

(** * The engine *)

(** Two databases whose related states read alike and commit alike. A transition the first
    refuses leaves it related to the second as it was. *)
Record node_sim {DB1 DB2 : Type} `{FullNodeStorage DB1} `{FullNodeStorage DB2} (D : DB1 -> DB2 -> Prop) : Prop := {
  ns_read d1 d2 : D d1 d2 -> sim fatal read_sim (db_read d1) (db_read d2);
  ns_apply d1 d2 t : D d1 d2 -> transition_typed t ->
    match db_apply_transition d1 t with
    | (Ok r, d1') => exists d2', db_apply_transition d2 t = (Ok r, d2') /\ D d1' d2'
    | (Err _, d1') => D d1' d2
    end;
}.

Section EngineSim.
Context {X : Externals} {P : PetGraph nat} {I : HashIteration} {DB1 DB2 : Type} `{FullNodeStorage DB1} `{FullNodeStorage DB2}.
Variable D : DB1 -> DB2 -> Prop.
Hypothesis Hsim : node_sim D.
Variables (schedule : list nat -> list nat) (now : result string Z).

(** Engines that differ in their database only. *)
Record engine_sim (e1 : Engine DB1) (e2 : Engine DB2) : Prop := {
  es_db : D (db e1) (db e2);
  es_same : mk_Engine (engine_consts e1) (block_validator e1) (db e2) (forks e1) (chain_index e1) = e2;
}.

(** Why the first engine may stop where the second goes on. *)
Definition refusal (err : StryiCoreError) : Prop := core_is_fatal err = true \/ exists e, err = CoreStorageError LOther e.

(** The first computation gives the result of the second and keeps the engines alike; or it
    stops with the second's error or a refusal, and its database is what it was. [keep]:
    the computation does not write to the database. *)
Definition msim {A B} (keep : bool) (Q : A -> B -> Prop) (m1 : engine_m DB1 A) (m2 : engine_m DB2 B) : Prop :=
  forall e1 e2, engine_sim e1 e2 ->
  match m1 e1 with
  | (Ok a, e1') => exists b e2', m2 e2 = (Ok b, e2') /\ Q a b /\ engine_sim e1' e2' /\ (keep = true -> db e2' = db e2)
  | (Err err, e1') => D (db e1') (db e2) /\ (refusal err \/ exists e2', m2 e2 = (Err err, e2'))
  end.

Lemma msim_bind {A B C E} keep (Q : A -> B -> Prop) (Q' : C -> E -> Prop) m1 m2 f g :
  msim true Q m1 m2 -> (forall a b, Q a b -> msim keep Q' (f a) (g b)) -> msim keep Q' (m1 ≫= f) (m2 ≫= g).
Proof.
  intros Hm Hf e1 e2 He. specialize (Hm e1 e2 He). unfold mbind, engine_bind. destruct (m1 e1) as [[a|err] e1'].
  - destruct Hm as (b & e2' & -> & HQ & He' & Hk). specialize (Hf a b HQ e1' e2' He'). rewrite (Hk eq_refl) in Hf.
    destruct (f a e1') as [[c|err] e1'']; [|done]. destruct Hf as (x & e2'' & Hg & HQ' & He'' & Hk'). by exists x, e2''.
  - destruct Hm as [Hd [Hr|(e2' & ->)]]; split; [done|by left|done|]. right. by exists e2'.
Qed.

Lemma msim_ret {A B} keep (Q : A -> B -> Prop) a b : Q a b -> msim keep Q (mret a) (mret b).
Proof. intros HQ e1 e2 He. exists b, e2. by split_and!. Qed.

Lemma msim_lift {A B} keep (Q : A -> B -> Prop) r1 r2 : sim core_fatal Q r1 r2 -> msim keep Q (lift r1) (lift r2).
Proof.
  intros Hr e1 e2 He. unfold lift. destruct r1 as [a|err]; cbn.
  - apply sim_Ok in Hr as (b & -> & HQ). exists b, e2. by split_and!.
  - split; [apply He|]. destruct r2 as [b|err']; cbn in Hr; [left; by left|]. destruct Hr as [->|Hf]; [right; by exists e2|left; by left].
Qed.

Lemma msim_get keep : msim keep engine_sim get_engine get_engine.
Proof. intros e1 e2 He. exists e2, e2. by split_and!. Qed.

Lemma msim_modify_index keep f : msim keep eq (modify_index f) (modify_index f).
Proof. intros e1 e2 [Hd <-]. do 2 eexists. split; [reflexivity|]. by split_and!. Qed.

Lemma msim_modify_forks keep f : msim keep eq (modify_forks f) (modify_forks f).
Proof. intros e1 e2 [Hd <-]. do 2 eexists. split; [reflexivity|]. by split_and!. Qed.

Lemma msim_validated keep Q r1 r2 c1 c2 :
  sim core_fatal eq r1 r2 -> msim keep Q c1 c2 -> (forall err, Q (Rejected err) (Rejected err)) ->
  msim keep Q (validated r1 c1) (validated r2 c2).
Proof.
  intros Hr Hc HQ. destruct r1 as [[]|err]; cbn [validated].
  - apply sim_Ok in Hr as ([] & -> & _). exact Hc.
  - destruct (decide (core_is_fatal err = true)) as [Hf|Hf].
    + intros e1 e2 He. destruct err; try done. split; [apply He|]. left. by left.
    + destruct r2 as [?|err']; cbn in Hr; [done|]. destruct Hr as [->|]; [|done].
      destruct err'; cbn [validated]; try (by apply msim_ret). apply msim_lift. by left.
Qed.

(** A commit followed by updates of the engine's own fields. *)
Lemma msim_commit {A} t (k1 : ChainTransitionResult -> engine_m DB1 A) k2 (Q' : A -> A -> Prop) :
  transition_typed t ->
  (forall r e1 e2, engine_sim e1 e2 -> exists v e1' e2', k1 r e1 = (Ok v, e1') /\ k2 r e2 = (Ok v, e2') /\ Q' v v /\ engine_sim e1' e2') ->
  msim false Q' (commit t ≫= k1) (commit t ≫= k2).
Proof.
  intros Ht Hk e1 e2 He. pose proof (ns_apply _ Hsim (db e1) (db e2) t (es_db _ _ He) Ht) as Ha.
  unfold mbind, engine_bind, commit. destruct (db_apply_transition (db e1) t) as [[r|err] d1']; cbn [map_err].
  - destruct Ha as (d2' & -> & Hd). cbn [map_err].
    edestruct (Hk r) as (v & e1' & e2' & -> & Hk2 & HQ & He'); [|exists v, e2'; split; [exact Hk2|by split_and!]].
    destruct He as [_ <-]. by split.
  - cbn. split; [done|]. left. right. by eexists.
Qed.

Lemma msim_read keep (e1 : Engine DB1) (e2 : Engine DB2) :
  engine_sim e1 e2 -> msim keep read_sim (lift (read_db e1)) (lift (read_db e2)).
Proof.
  intros He. apply msim_lift. unfold read_db. eapply sim_map_err; [|apply (ns_read _ Hsim), He]. done.
Qed.

Lemma sim_refl_eq {A} (r : result StryiCoreError A) : sim core_fatal eq r r.
Proof. apply sim_refl, _. Qed.

(** The steps of a handler. *)
Ltac msim_step :=
  match goal with
  | |- msim _ _ (get_engine ≫= _) (get_engine ≫= _) => eapply msim_bind; [apply msim_get|]
  | |- msim _ _ (lift (read_db _) ≫= _) (lift (read_db _) ≫= _) => eapply msim_bind; [by apply msim_read|]
  | |- msim _ _ (lift ?r ≫= _) (lift ?r ≫= _) => eapply msim_bind; [apply msim_lift, sim_refl_eq|]
  end.

Lemma tip_same (e1 : Engine DB1) (e2 : Engine DB2) : engine_sim e1 e2 -> expect_tip e1 = expect_tip e2.
Proof. by intros [_ <-]. Qed.

Lemma extend_canonical_sim b : msim false eq (handle_extend_canonical schedule now b) (handle_extend_canonical schedule now b).
Proof.
  unfold handle_extend_canonical. msim_step. intros e1 e2 He. msim_step. intros s1 s2 Hs.
  assert (block_validator e1 = block_validator e2) as -> by (by destruct He as [_ <-]).
  apply msim_validated; [by apply validate_sim; apply Hs| |done]. rewrite (tip_same e1 e2 He).
  msim_step. intros tip _ <-. msim_step. intros bw _ <-. msim_step. intros cw _ <-.
  apply msim_commit; [done|]. intros r x1 x2 [Hd <-]. do 3 eexists. split; [reflexivity|]. split; [reflexivity|]. by split_and!.
Qed.

Lemma perform_reorg_sim lca branch : msim false eq (perform_reorg lca branch) (perform_reorg lca branch).
Proof.
  unfold perform_reorg. msim_step. intros e1 e2 He. assert (chain_index e1 = chain_index e2) as Hx by (by destruct He as [_ <-]).
  rewrite Hx. msim_step. intros lw _ <-. msim_step. intros ws _ <-. msim_step. intros s1 s2 Hs.
  eapply msim_bind; [by apply msim_lift, fork_overlay_sim|]. intros o1 o2 Ho.
  eapply msim_bind; [apply msim_lift; eapply sim_map_err; [|by apply replay_sim]; done|]. intros o3 o4 Ho'.
  eapply msim_bind; [apply msim_lift; eapply sim_map_err; [|by apply into_delta_sim]; done|]. intros d _ [<- Hd].
  apply msim_commit; [done|]. intros r x1 x2 [Hd' <-]. do 3 eexists. split; [reflexivity|]. split; [reflexivity|]. by split_and!.
Qed.

Lemma create_fork_sim b lca :
  msim false eq (handle_creates_fork_from_canonical schedule now b lca) (handle_creates_fork_from_canonical schedule now b lca).
Proof.
  unfold handle_creates_fork_from_canonical. msim_step. intros e1 e2 He.
  assert (chain_index e1 = chain_index e2 /\ block_validator e1 = block_validator e2) as [Hx Hv] by (by destruct He as [_ <-]).
  rewrite Hx, Hv. msim_step. intros lw _ <-. msim_step. intros s1 s2 Hs.
  eapply msim_bind; [by apply msim_lift, fork_overlay_sim|]. intros o1 o2 Ho.
  apply msim_validated; [by apply validate_for_fork_sim, overlay_chain_sim| |done]. rewrite (tip_same e1 e2 He).
  msim_step. intros bw _ <-. msim_step. intros fw _ <-. msim_step. intros tip _ <-. destruct (tip.2 <? fw); [apply perform_reorg_sim|].
  eapply msim_bind; [apply msim_modify_forks|]. intros [] _ _. by apply msim_ret.
Qed.

(** What follows a computation that may write only updates the engine's own fields. *)
Lemma msim_after {A B} (m1 : engine_m DB1 A) (m2 : engine_m DB2 A) (f : A -> B) (g : ForkRegistry -> ForkRegistry) :
  msim false eq m1 m2 ->
  msim false eq (v ← m1; _ ← modify_forks g; mret (f v)) (v ← m2; _ ← modify_forks g; mret (f v)).
Proof.
  intros Hm e1 e2 He. specialize (Hm e1 e2 He). unfold mbind, engine_bind. destruct (m1 e1) as [[a|err] e1'].
  - destruct Hm as (c & e2' & -> & <- & [Hd <-] & _). cbn. do 2 eexists. split; [reflexivity|]. by split_and!.
  - destruct Hm as [Hd [Hr|(e2' & ->)]]; split; [done|by left|done|]. right. by exists e2'.
Qed.

Lemma extend_fork_sim b root : msim false eq (handle_extends_fork schedule now b root) (handle_extends_fork schedule now b root).
Proof.
  unfold handle_extends_fork. msim_step. intros e1 e2 He.
  assert (chain_index e1 = chain_index e2 /\ block_validator e1 = block_validator e2 /\ forks e1 = forks e2) as (Hx & Hv & Hf) by (by destruct He as [_ <-]).
  rewrite Hv, Hf. msim_step. intros entry _ <-. msim_step. intros s1 s2 Hs.
  eapply msim_bind; [by apply msim_lift, fork_overlay_sim|]. intros o1 o2 Ho.
  eapply msim_bind; [apply msim_lift; eapply sim_map_err; [|by apply replay_sim]; done|]. intros o3 o4 Ho'.
  apply msim_validated; [by apply validate_for_fork_sim, overlay_chain_sim| |done]. rewrite (tip_same e1 e2 He).
  msim_step. intros bw _ <-. msim_step. intros fw _ <-. msim_step. intros tip _ <-. destruct (tip.2 <? fw).
  - apply (msim_after _ _ (fun v => v)), perform_reorg_sim.
  - eapply msim_bind; [apply msim_modify_forks|]. intros [] _ _. eapply msim_bind; [apply msim_modify_forks|]. intros [] _ _. by apply msim_ret.
Qed.

(** A block through both engines. *)
Lemma on_block_sim b : msim false eq (on_block schedule now b) (on_block schedule now b).
Proof.
  unfold on_block. eapply msim_bind; [apply msim_modify_forks|]. intros [] _ _. msim_step. intros e1 e2 He.
  destruct (verify_genesis_work_shape b); [|by apply msim_ret].
  assert (validate_height e1 b = validate_height e2 b /\ classify_block e1 b = classify_block e2 b) as [-> ->] by (by destruct He as [_ <-]).
  destruct (negb _); [by apply msim_ret|]. destruct (classify_block e2 b) as [l| |lca|p root|p].
  - by apply msim_ret.
  - apply extend_canonical_sim.
  - apply create_fork_sim.
  - apply extend_fork_sim.
  - by apply msim_ret.
Qed.

(** Starting on both databases. *)
Lemma engine_new_sim consts v d1 d2 :
  D d1 d2 -> sim core_fatal engine_sim (Engine_new consts v d1) (Engine_new consts v d2).
Proof.
  intros Hd. unfold Engine_new, build_chain_index. eapply (sim_bind _ eq).
  - eapply sim_bind; [eapply sim_map_err; [|by apply (ns_read _ Hsim)]; done|]. intros s1 s2 Hs.
    eapply sim_bind; [eapply sim_map_err; [|apply (rs_state _ _ Hs)]; done|]. intros f1 f2 Hf.
    eapply sim_bind; [by apply (same_opt_ok _ state_typed)|]. intros st _ [<- Hst]. destruct st as [[h hash] tm c w]. cbn [latest_block] in *.
    eapply (sim_bind _ eq); [by apply collect_sim|]. intros bs _ <-. by apply rebuild_sim.
  - intros x _ <-. by split.
Qed.
End EngineSim.
