(* ===== verification/RocksStore.v ===== *)
(** RocksStore: what the column families hold, and the reads and writes of the RocksDB backend
    against it: they agree with the in-memory backend or stop with an error. *)
From S2P Require Import Prelude Bytes Types Externals Hashing Work Transactions Blocks Storage UtxoProcessor Overlay Transition Engine Wire Rocks Simulation.

(** * The behaviour of the third-party code *)

(** The entries a reader sees, and the database it was opened on. Operations that succeed do
    to the entries what their names say; any may fail. The writer lock leaves one pending
    transaction, so a commit makes what it sees the content of its own database. *)
Class RocksDBLaws `{RocksDB} := {
  contents : Reader -> string -> gmap (list byte) (list byte);
  started_on : Reader -> Database;
  get_contents r t k x : get_cf r t k = Ok x -> x = contents r t !! k;
  put_contents r t k b r' : put_cf r t k b = Ok r' ->
    started_on r' = started_on r /\
    forall t', contents r' t' = if String.eqb t' t then <[k := b]> (contents r t) else contents r t';
  delete_contents r t k r' : delete_cf r t k = Ok r' ->
    started_on r' = started_on r /\
    forall t', contents r' t' = if String.eqb t' t then delete k (contents r t) else contents r t';
  transaction_contents d : started_on (open_transaction d) = d /\
    forall t, contents (open_transaction d) t = contents (open_snapshot d) t;
  commit_contents d r d' : commit_transaction d r = Ok d' -> started_on r = d ->
    forall t, contents (open_snapshot d') t = contents r t;
  first_contents r t x : first_entry r t = Ok x ->
    match x with None => contents r t = ∅ | Some (k, b) => contents r t !! k = Some b end;
  last_contents r t x : last_entry r t = Ok x ->
    match x with
    | None => contents r t = ∅
    | Some (k, b) => contents r t !! k = Some b /\
        forall k', is_Some (contents r t !! k') -> length k' = length k -> be_val k' <= be_val k
    end;
}.

(** Deserialization inverts serialization; the header of an encoded block is its prefix. *)
Class StorePostcardLaws `{StorePostcard} : Prop := {
  postcard_utxo_inv x : postcard_utxo_from (postcard_utxo x) = Ok x;
  postcard_outpoints_inv x : postcard_outpoints_from (postcard_outpoints x) = Ok x;
  postcard_block_inv x : postcard_block_from (postcard_block x) = Ok x;
  postcard_header_inv bytes b : postcard_block_from bytes = Ok b -> postcard_header_from bytes = Ok (header b);
  postcard_index_inv x : postcard_index_from (postcard_index x) = Ok x;
  postcard_location_inv x : postcard_location_from (postcard_location x) = Ok x;
  postcard_undo_inv x : postcard_undo_from (postcard_undo x) = Ok x;
  postcard_state_inv x : postcard_state_from (postcard_state x) = Ok x;
  postcard_metadata_inv x : postcard_metadata_from (postcard_metadata x) = Ok x;
}.

(** * Keys *)

Lemma hash_key_inj {K} (a b : Hash K) : arr (hash_data a) = arr (hash_data b) -> a = b.
Proof. destruct a, b. cbn. intros Heq. f_equal. by apply array_eq. Qed.

Lemma be_bytes_inj n z1 z2 :
  0 <= z1 < 256 ^ Z.of_nat n -> 0 <= z2 < 256 ^ Z.of_nat n -> be_bytes n z1 = be_bytes n z2 -> z1 = z2.
Proof. intros H1 H2 Heq. apply (f_equal be_val) in Heq. rewrite !be_val_bytes, !Z.mod_small in Heq; done. Qed.

Lemma utxo_key_inj op op' :
  outpoint_typed op -> outpoint_typed op' -> encode_utxo_key op = encode_utxo_key op' -> op = op'.
Proof.
  destruct op as [t v], op' as [t' v']. unfold outpoint_typed, in_uint, encode_utxo_key. cbn. intros Hv Hv' Heq.
  apply app_inj_1 in Heq as [Ht Hb]; [|by rewrite !array_length].
  assert (t = t') as -> by (by apply hash_key_inj).
  f_equal. apply (be_bytes_inj 4) in Hb; done.
Qed.

(** Every key of an outpoint is the key of a typed one. *)
Lemma utxo_key_typed op : exists op', outpoint_typed op' /\ txid op' = txid op /\ encode_utxo_key op = encode_utxo_key op'.
Proof.
  exists (mk_OutPoint (txid op) (vout op mod 2 ^ 32)). split; [apply Z.mod_pos_bound; lia|]. split; [done|].
  unfold encode_utxo_key, be_bytes. cbn [txid vout]. do 2 f_equal. apply le_val_inj; [by rewrite !le_bytes_length|].
  rewrite !le_val_bytes. change (256 ^ Z.of_nat 4) with (2 ^ 32). by rewrite Z.mod_mod.
Qed.

Lemma height_key_inj h h' : in_u64 h -> in_u64 h' -> be_bytes 8 h = be_bytes 8 h' -> h = h'.
Proof. unfold in_uint. intros H1 H2. by apply be_bytes_inj. Qed.

(** * What the tables hold *)

(** The outpoints an address owns. *)
Definition owned (m : gmap OutPoint UTXO) (a : AccountAddress) : gset OutPoint :=
  dom (filter (fun kv => owner kv.2 = a) m).

Lemma elem_of_owned m a op : op ∈ owned m a <-> exists u, m !! op = Some u /\ owner u = a.
Proof.
  unfold owned. rewrite elem_of_dom. split.
  - intros [u [Hu Ho]%map_lookup_filter_Some]. by exists u.
  - intros (u & Hu & Ho). exists u. by apply map_lookup_filter_Some.
Qed.

(** An encoded entry of a value, or neither. *)
Definition slot {A} (from : list byte -> result string A) (bytes : option (list byte)) (value : option A) : Prop :=
  match bytes, value with
  | Some b, Some x => from b = Ok x
  | None, None => True
  | _, _ => False
  end.

Section Holds.
Context {X : Externals} {PC : StorePostcard}.

(** The tables [c] are the in-memory view [m], and every number in [m] fits its key. *)
Record holds (c : string -> gmap (list byte) (list byte)) (m : MemoryView) : Prop := {
  h_utxos op : outpoint_typed op -> slot postcard_utxo_from (c "utxo" !! encode_utxo_key op) (utxos m !! op);
  h_addresses a : match c "addresses" !! arr (hash_data a) with
    | Some b => postcard_outpoints_from b = Ok (owned (utxos m) a)
    | None => owned (utxos m) a = ∅
    end;
  h_blocks h : slot postcard_block_from (c "blocks" !! arr (hash_data h)) (blocks m !! h);
  h_heights h : in_u64 h -> c "heights" !! be_bytes 8 h = (fun x : BlockHash => arr (hash_data x)) <$> heights m !! h;
  h_indexes h : slot postcard_index_from (c "block_indexes" !! arr (hash_data h)) (indexes m !! h);
  h_locations h : slot postcard_location_from (c "transaction_indexes" !! arr (hash_data h)) (tx_locations m !! h);
  h_undos h : slot postcard_undo_from (c "undo" !! arr (hash_data h)) (undos m !! h);
  h_state : slot postcard_state_from (c "stats" !! STATE_KEY) (state m);
  h_metadata : slot postcard_metadata_from (c "metadata" !! METADATA_KEY) (view_metadata m);
  h_default : c "default" = ∅;
  h_height_keys k : is_Some (c "heights" !! k) -> exists h, in_u64 h /\ k = be_bytes 8 h;
  h_outpoints : map_Forall (fun op u => outpoint_typed op /\ utxo_txid u = txid op /\ utxo_vout u = vout op) (utxos m);
  h_height_types : map_Forall (fun h _ => in_u64 h) (heights m);
  h_block_heights : map_Forall (fun _ b => height_typed b) (blocks m);
  h_undo_types : map_Forall (fun _ u => undo_typed u) (undos m);
  h_state_type st : state m = Some st -> state_typed st;
}.

Lemma holds_ext c c' m : (forall t, c' t = c t) -> holds c m -> holds c' m.
Proof.
  intros He []. split; intros; rewrite ?He in *; auto.
  match goal with H : forall a, match c "addresses" !! _ with _ => _ end |- _ => apply H end.
Qed.

(** An empty database holds nothing. *)
Lemma holds_fresh c : (forall t, c t = ∅) -> holds c MemoryView_default.
Proof.
  intros Hc. split; intros; rewrite ?Hc, ?lookup_empty in *; try done.
Qed.

(** One table replaced. *)
Definition set_table (c : string -> gmap (list byte) (list byte)) (t : string) (g : gmap (list byte) (list byte)) :
    string -> gmap (list byte) (list byte) :=
  fun t' => if String.eqb t' t then g else c t'.
End Holds.

(** Which table a lookup is in. *)
Ltac table := unfold set_table; cbn [String.eqb Ascii.eqb Bool.eqb].

Section Slots.
Context {K A : Type} `{Countable K} (from : list byte -> result string A) (to : A -> list byte) (key : K -> list byte).
Implicit Types (cm : gmap (list byte) (list byte)) (m : gmap K A).

Lemma slot_insert cm m k0 k x :
  from (to x) = Ok x -> (key k = key k0 -> k = k0) -> slot from (cm !! key k) (m !! k) ->
  slot from (<[key k0 := to x]> cm !! key k) (<[k0 := x]> m !! k).
Proof.
  intros Hinv Hk Hs. destruct (decide (k = k0)) as [->|Hne]; [by rewrite !lookup_insert_eq|].
  rewrite !lookup_insert_ne by naive_solver. done.
Qed.

Lemma slot_delete cm m k0 k :
  (key k = key k0 -> k = k0) -> slot from (cm !! key k) (m !! k) ->
  slot from (delete (key k0) cm !! key k) (delete k0 m !! k).
Proof.
  intros Hk Hs. destruct (decide (k = k0)) as [->|Hne]; [by rewrite !lookup_delete_eq|].
  rewrite !lookup_delete_ne by naive_solver. done.
Qed.
End Slots.

(** * Writes of one table *)

Section Puts.
Context {X : Externals} {PC : StorePostcard} `{!StorePostcardLaws}.
Implicit Types (c : string -> gmap (list byte) (list byte)) (m : MemoryView).

(** The fields a write leaves alone hold as before. *)
Ltac untouched H :=
  destruct H; split; cbn [utxos blocks heights indexes tx_locations undos state view_metadata]; intros; table; auto;
  try match goal with H : forall a, match ?c "addresses" !! _ with _ => _ end |- match ?c "addresses" !! _ with _ => _ end => apply H end.

(** A key of the changed table. *)
Tactic Notation "key_of" uconstr(lookup_Some) :=
  match goal with H : is_Some (set_table _ _ _ _ !! _) |- _ =>
    let Hx := fresh in
    destruct H as [? Hx]; unfold set_table in Hx; cbn [String.eqb Ascii.eqb Bool.eqb] in Hx; apply lookup_Some in Hx;
    naive_solver eauto
  end.

Lemma holds_block c m b :
  holds c m -> height_typed b ->
  holds (set_table c "blocks" (<[arr (hash_data (block_hash b)) := postcard_block b]> (c "blocks")))
    (mk_MemoryView (utxos m) (<[block_hash b := b]> (blocks m)) (heights m) (indexes m) (tx_locations m) (undos m) (state m) (view_metadata m)).
Proof.
  intros Hh Hb. untouched Hh.
  - apply (slot_insert postcard_block_from postcard_block (fun h : BlockHash => arr (hash_data h))); [apply postcard_block_inv|apply hash_key_inj|done].
  - by apply map_Forall_insert_2.
Qed.

Lemma holds_height c m h (hash : BlockHash) :
  holds c m -> in_u64 h ->
  holds (set_table c "heights" (<[be_bytes 8 h := arr (hash_data hash)]> (c "heights")))
    (mk_MemoryView (utxos m) (blocks m) (<[h := hash]> (heights m)) (indexes m) (tx_locations m) (undos m) (state m) (view_metadata m)).
Proof.
  intros Hh Hb. untouched Hh; [|key_of lookup_insert_Some|by apply map_Forall_insert_2].
  destruct (decide (h0 = h)) as [->|Hne]; [by rewrite !lookup_insert_eq|].
  rewrite !lookup_insert_ne; [auto|done|]. intros Heq. by apply Hne, height_key_inj.
Qed.

Lemma holds_no_height c m h :
  holds c m -> in_u64 h ->
  holds (set_table c "heights" (delete (be_bytes 8 h) (c "heights")))
    (mk_MemoryView (utxos m) (blocks m) (delete h (heights m)) (indexes m) (tx_locations m) (undos m) (state m) (view_metadata m)).
Proof.
  intros Hh Hb. untouched Hh; [|key_of lookup_delete_Some|by apply map_Forall_delete].
  destruct (decide (h0 = h)) as [->|Hne]; [by rewrite !lookup_delete_eq|].
  rewrite !lookup_delete_ne; [auto|done|]. intros Heq. by apply Hne, height_key_inj.
Qed.

Lemma holds_index c m (hash : BlockHash) index :
  holds c m ->
  holds (set_table c "block_indexes" (<[arr (hash_data hash) := postcard_index index]> (c "block_indexes")))
    (mk_MemoryView (utxos m) (blocks m) (heights m) (<[hash := index]> (indexes m)) (tx_locations m) (undos m) (state m) (view_metadata m)).
Proof.
  intros Hh. untouched Hh.
  apply (slot_insert postcard_index_from postcard_index (fun h : BlockHash => arr (hash_data h))); [apply postcard_index_inv|apply hash_key_inj|done].
Qed.

Definition set_locations m (l : gmap TransactionHash TransactionIndexData) : MemoryView :=
  mk_MemoryView (utxos m) (blocks m) (heights m) (indexes m) l (undos m) (state m) (view_metadata m).

Lemma holds_location c m (hash : TransactionHash) location :
  holds c m ->
  holds (set_table c "transaction_indexes" (<[arr (hash_data hash) := postcard_location location]> (c "transaction_indexes")))
    (set_locations m (<[hash := location]> (tx_locations m))).
Proof.
  intros Hh. untouched Hh.
  apply (slot_insert postcard_location_from postcard_location (fun h : TransactionHash => arr (hash_data h))); [apply postcard_location_inv|apply hash_key_inj|done].
Qed.

Lemma holds_no_location c m (hash : TransactionHash) :
  holds c m ->
  holds (set_table c "transaction_indexes" (delete (arr (hash_data hash)) (c "transaction_indexes")))
    (set_locations m (delete hash (tx_locations m))).
Proof.
  intros Hh. untouched Hh. apply (slot_delete _ (fun h : TransactionHash => arr (hash_data h))); [apply hash_key_inj|done].
Qed.

Lemma holds_undo c m (hash : BlockHash) undo :
  holds c m -> undo_typed undo ->
  holds (set_table c "undo" (<[arr (hash_data hash) := postcard_undo undo]> (c "undo")))
    (mk_MemoryView (utxos m) (blocks m) (heights m) (indexes m) (tx_locations m) (<[hash := undo]> (undos m)) (state m) (view_metadata m)).
Proof.
  intros Hh Hu. untouched Hh.
  - apply (slot_insert postcard_undo_from postcard_undo (fun h : BlockHash => arr (hash_data h))); [apply postcard_undo_inv|apply hash_key_inj|done].
  - by apply map_Forall_insert_2.
Qed.

Lemma holds_state c m st :
  holds c m -> state_typed st ->
  holds (set_table c "stats" (<[STATE_KEY := postcard_state st]> (c "stats")))
    (mk_MemoryView (utxos m) (blocks m) (heights m) (indexes m) (tx_locations m) (undos m) (Some st) (view_metadata m)).
Proof.
  intros Hh Hs. untouched Hh; [|by simplify_eq]. rewrite lookup_insert_eq. apply postcard_state_inv.
Qed.

Lemma holds_meta c m md :
  holds c m ->
  holds (set_table c "metadata" (<[METADATA_KEY := postcard_metadata md]> (c "metadata")))
    (mk_MemoryView (utxos m) (blocks m) (heights m) (indexes m) (tx_locations m) (undos m) (state m) (Some md)).
Proof. intros Hh. untouched Hh. rewrite lookup_insert_eq. apply postcard_metadata_inv. Qed.
End Puts.

(** * Reads *)

Section Reads.
Context {X : Externals} {I : HashIteration} `{!HashIterationLaws} {R : RocksDB} {PC : StorePostcard} {RL : RocksDBLaws} `{!StorePostcardLaws}.
Implicit Types (v : StorageView) (m : MemoryView).

(** A read gives a value, or fails fatally. *)
Abbreviation reads r x := (sim fatal eq r (Ok x)).

Lemma backend_fatal {A} op (r : result string A) e : backend_error op r = Err e -> storage_is_fatal e = true.
Proof. unfold backend_error. intros (s & _ & <-)%map_err_Err. done. Qed.

Lemma raw_get_reads v t k : reads (raw_get v t k) (contents (reader v) t !! k).
Proof.
  unfold raw_get. destruct (inner_failed v); [done|]. destruct (get_cf (reader v) t k) as [x|e] eqn:Hg; cbn; [|done].
  by apply get_contents.
Qed.

Lemma get_value_reads {A} (from : list byte -> result string A) v t k o :
  slot from (contents (reader v) t !! k) o -> reads (get_value from v t k) o.
Proof.
  intros Hs. unfold get_value. pose proof (raw_get_reads v t k) as Hr. destruct (raw_get v t k) as [found|e]; cbn in Hr |- *; [|done].
  subst found. destruct (contents (reader v) t !! k) as [b|]; cbn in Hs |- *; destruct o as [x|]; try done. unfold decode_value. by rewrite Hs.
Qed.

(** The rest of a read that depends on what it found. *)
Lemma reads_bind {A B C} (bad : StorageError -> Prop) (Q : B -> C -> Prop) (r : result StorageError A) x f r2 :
  (forall e, storage_is_fatal e = true -> bad e) -> reads r x -> sim bad Q (f x) r2 -> sim bad Q (r ≫= f) r2.
Proof. intros Hb Hr Hf. destruct r as [a|e]; cbn in Hr; [by subst a|]. destruct r2; cbn; auto. Qed.

Lemma utxo_read c m v op :
  holds c m -> contents (reader v) "utxo" = c "utxo" -> reads (rocks_get_utxo v op) (utxos m !! op).
Proof.
  intros Hh Hc. unfold rocks_get_utxo. destruct (utxo_key_typed op) as (op' & Hop' & Ht & Hk). rewrite Hk.
  eapply reads_bind; [done|apply get_value_reads; rewrite Hc; by apply h_utxos|].
  destruct (decide (op = op')) as [->|Hne].
  - destruct (utxos m !! op') as [u|] eqn:Hu; [|done]. apply (h_outpoints _ _ Hh) in Hu as (_ & -> & ->).
    rewrite bool_decide_eq_true_2, Z.eqb_refl by done. done.
  - assert (~ outpoint_typed op) as Hun by (intros Hop; apply Hne; by apply utxo_key_inj).
    assert (utxos m !! op = None) as ->.
    { destruct (utxos m !! op) as [u|] eqn:Hu; [|done]. by apply (h_outpoints _ _ Hh) in Hu as (? & _). }
    destruct (utxos m !! op') as [u|] eqn:Hu; [|done]. apply (h_outpoints _ _ Hh) in Hu as (_ & _ & Hv).
    destruct (Z.eqb_spec (utxo_vout u) (vout op)) as [Heq|_]; [|by rewrite orb_true_r].
    exfalso. apply Hun. unfold outpoint_typed. by rewrite <-Heq, Hv.
Qed.

Lemma address_read c m v a :
  holds c m -> contents (reader v) "addresses" !! arr (hash_data a) = c "addresses" !! arr (hash_data a) ->
  reads (address_outpoints v a) (owned (utxos m) a).
Proof.
  intros Hh Hc. unfold address_outpoints. pose proof (h_addresses _ _ Hh a) as Ha. rewrite <-Hc in Ha.
  eapply (reads_bind _ _ _ (match contents (reader v) "addresses" !! arr (hash_data a) with Some _ => Some (owned (utxos m) a) | None => None end)); [done| |].
  - apply get_value_reads. destruct (_ !! _) as [b|]; cbn; [done|done].
  - destruct (_ !! _) as [b|]; cbn; done.
Qed.

(** What an open view shows: it was opened on [d] and its tables are [m]. *)
Definition view_sim (d : Database) v m : Prop := started_on (reader v) = d /\ holds (contents (reader v)) m.

Lemma owned_loop v m a l (acc : gmap OutPoint UTXO) :
  holds (contents (reader v)) m -> (forall op, op ∈ l -> op ∈ owned (utxos m) a) ->
  sim fatal (fun x (_ : unit) => forall op, x !! op = if decide (op ∈ l) then utxos m !! op else acc !! op)
    (fold_res (owned_utxo v a) acc l) (Ok tt).
Proof.
  intros Hh. revert acc. induction l as [|op l IH]; intros acc Hl; cbn [fold_res]; [cbn; set_solver|].
  pose proof (utxo_read _ m v op Hh eq_refl) as Hr. unfold owned_utxo.
  destruct (rocks_get_utxo v op) as [f|e]; cbn in Hr |- *; [|done]. subst f.
  assert (op ∈ owned (utxos m) a) as (u & Hu & Ho)%elem_of_owned by (apply Hl; set_solver).
  rewrite Hu. cbn [ok_or mbind result_bind]. rewrite bool_decide_eq_true_2 by done. cbn [ensure mbind result_bind]. specialize (IH (<[op:=u]> acc)). unfold mret, result_ret. cbn.
  destruct (fold_res _ _ l) as [x|e]; cbn in IH |- *; [|apply IH; set_solver]. intros op'. rewrite IH by set_solver.
  destruct (decide (op' ∈ l)) as [Hin|Hin].
  - by rewrite decide_True by set_solver.
  - destruct (decide (op' = op)) as [->|Hne]; [rewrite decide_True by set_solver; by rewrite lookup_insert_eq|].
    rewrite decide_False by set_solver. by rewrite lookup_insert_ne.
Qed.

Lemma address_utxos_read v m a :
  holds (contents (reader v)) m ->
  reads (rocks_get_utxos_for_address v a) (filter (fun kv => owner kv.2 = a) (utxos m)).
Proof.
  intros Hh. unfold rocks_get_utxos_for_address. eapply reads_bind; [done|by eapply address_read|].
  pose proof (owned_loop v m a (set_iter (owned (utxos m) a)) ∅ Hh) as Hl.
  destruct (fold_res _ _ _) as [x|e]; cbn in Hl |- *.
  - apply map_eq. intros op. rewrite Hl by (intros ?; by rewrite elem_of_set_iter).
    rewrite lookup_empty. destruct (decide _) as [(u & Hu & Ho)%elem_of_set_iter%elem_of_owned|Hn]; symmetry.
    + rewrite Hu. by apply map_lookup_filter_Some.
    + apply map_lookup_filter_None. destruct (utxos m !! op) as [u|] eqn:Hu; [right|by left]. intros u' [= <-] Ho. apply Hn.
      apply elem_of_set_iter, elem_of_owned. by exists u.
  - apply Hl. intros ?. by rewrite elem_of_set_iter.
Qed.

Lemma block_read v m h :
  holds (contents (reader v)) m -> sim fatal (same_opt height_typed) (rocks_get_block_by_hash v h) (Ok (blocks m !! h)).
Proof.
  intros Hh. unfold rocks_get_block_by_hash. eapply reads_bind; [done|apply get_value_reads; by apply h_blocks|].
  destruct (blocks m !! h) as [b|] eqn:Hb; [|by split]. destruct (verify_genesis_work_shape b); [|done].
  cbn [map_err mbind result_bind]. destruct (bool_decide _); [|done]. split; [done|]. intros x [= <-]. by apply (h_block_heights _ _ Hh h b).
Qed.

Lemma hash_at_read v m h :
  holds (contents (reader v)) m -> in_u64 h -> reads (rocks_get_block_hash_by_height v h) (heights m !! h).
Proof.
  intros Hh Hu. unfold rocks_get_block_hash_by_height. eapply reads_bind; [done|apply raw_get_reads|].
  rewrite (h_heights _ _ Hh h Hu). destruct (heights m !! h) as [[x]|]; [|done]. cbn [fmap option_fmap option_map hash_data].
  by rewrite array_of_arr.
Qed.

Lemma block_at_read v m h :
  holds (contents (reader v)) m -> in_u64 h ->
  sim fatal (same_opt height_typed) (rocks_get_block_by_height v h) (memory_get_block_by_height m h).
Proof.
  intros Hh Hu. unfold rocks_get_block_by_height, memory_get_block_by_height.
  eapply reads_bind; [done|by apply hash_at_read|]. destruct (heights m !! h) as [hash|]; [|by split].
  pose proof (block_read v m hash Hh) as Hb. destruct (rocks_get_block_by_hash v hash) as [f|e]; [|by apply sim_bad].
  destruct Hb as [-> Hb]. destruct (blocks m !! hash) as [b|]; [|by right]. cbn [ok_or mbind result_bind].
  destruct (_ =? _); [|done]. by split.
Qed.

Lemma header_read v m h :
  holds (contents (reader v)) m ->
  sim fatal (same_opt (fun x => in_u64 (height x))) (rocks_get_block_header_by_hash v h) (Ok (option_map header (blocks m !! h))).
Proof.
  intros Hh. unfold rocks_get_block_header_by_hash. eapply reads_bind; [done|apply raw_get_reads|].
  pose proof (h_blocks _ _ Hh h) as Hs. pose proof (h_block_heights _ _ Hh h) as Ht.
  destruct (contents (reader v) "blocks" !! _) as [bytes|], (blocks m !! h) as [b|]; cbn in Hs; try done.
  rewrite (postcard_header_inv _ _ Hs). cbn [map_err mbind result_bind option_map].
  destruct (verify_genesis_header_work_shape (header b)); [|done]. split; [done|]. intros x [= <-]. by apply (Ht b).
Qed.

Lemma transaction_read v m h :
  holds (contents (reader v)) m -> sim fatal eq (rocks_get_transaction v h) (memory_get_transaction m h).
Proof.
  intros Hh. unfold rocks_get_transaction, memory_get_transaction.
  eapply reads_bind; [done|apply get_value_reads; by apply h_locations|].
  destruct (tx_locations m !! h) as [l|]; [|done]. unfold rocks_get_block_by_hash.
  pose proof (get_value_reads postcard_block_from v "blocks" _ _ (h_blocks _ _ Hh (location_block_hash l))) as Hb.
  destruct (get_value _ _ _ _) as [f|e]; cbn in Hb; [subst f|by apply sim_bad].
  destruct (blocks m !! location_block_hash l) as [b|]; cbn [mbind result_bind ok_or]; [|by right].
  destruct (verify_genesis_work_shape b); cbn [mbind result_bind map_err]; [|by apply sim_bad].
  case_bool_decide as Hbh; cbn [ensure mbind result_bind]; [|by apply sim_bad].
  cbn [ok_or mbind result_bind mret result_ret]. destruct (Z.eqb_spec (height (header b)) (location_block_height l)) as [Hht|]; cbn [ensure mbind result_bind]; [|by apply sim_bad].
  destruct (transactions b !! Z.to_nat (tx_index l)) as [t|]; cbn [mbind option_bind]; [|by right].
  destruct (decide (tx_hash (tx_data t) = h)).
  - rewrite !option_guard_True by done. done.
  - rewrite !option_guard_False by naive_solver. by right.
Qed.

(** A view that shows [m] answers every read as [m] does, or fails fatally. *)
Lemma view_reads d v m : view_sim d v m -> read_sim v m.
Proof.
  intros [_ Hh]. split; [split| | |].
  - intros op. by apply (utxo_read _ m v op Hh).
  - intros op u [= Hu]. by apply (h_outpoints _ _ Hh op u).
  - intros h. by apply hash_at_read.
  - intros h. by apply block_read.
  - intros h. by apply block_at_read.
  - intros h. by apply header_read.
  - intros h. apply get_value_reads. by apply h_indexes.
  - pose proof (get_value_reads _ v "stats" STATE_KEY _ (h_state _ _ Hh)) as Hr. cbn. destruct (get_value _ _ _ _); cbn in *; [|done].
    subst. split; [done|]. intros st. by apply (h_state_type _ _ Hh).
  - apply get_value_reads. by apply h_metadata.
  - intros h. pose proof (get_value_reads _ v "undo" _ _ (h_undos _ _ Hh h)) as Hr. cbn. destruct (get_value _ _ _ _); cbn in *; [|done].
    subst. split; [done|]. intros u. by apply (h_undo_types _ _ Hh).
Qed.
End Reads.

(** * A concrete instance *)

(** A database that keeps its tables as maps, and serialization by the countable encoding. *)
Module ToyRocks.
Import Toy ToyPostcard.

Abbreviation Tables := (gmap string (gmap (list byte) (list byte))).
Definition table_of (d : Tables) (t : string) : gmap (list byte) (list byte) := default ∅ (d !! t).

(** The entry with the greatest key, read as a number. *)
Definition greatest (l : list (list byte * list byte)) : option (list byte * list byte) :=
  foldr (fun e best => match best with
    | Some b => if be_val e.1 <=? be_val b.1 then best else Some e
    | None => Some e
    end) None l.

Lemma greatest_spec l :
  match greatest l with
  | None => l = []
  | Some e => e ∈ l /\ Forall (fun x => be_val x.1 <= be_val e.1) l
  end.
Proof.
  induction l as [|x l IH]; [done|]. cbn [greatest foldr]. fold (greatest l). destruct (greatest l) as [b|].
  - destruct IH as [Hin Hall]. destruct (Z.leb_spec (be_val x.1) (be_val b.1)).
    + split; [set_solver|]. by constructor.
    + split; [set_solver|]. constructor; [done|]. eapply Forall_impl; [exact Hall|]. cbn. intros. lia.
  - subst l. split; [set_solver|]. by constructor.
Qed.

#[export] Instance toy_rocks : RocksDB := {|
  Database := Tables;
  Reader := Tables * Tables;
  open_snapshot d := (d, d);
  open_transaction d := (d, d);
  get_cf r t k := Ok (table_of r.2 t !! k);
  put_cf r t k b := Ok (r.1, <[t := <[k := b]> (table_of r.2 t)]> r.2);
  delete_cf r t k := Ok (r.1, <[t := delete k (table_of r.2 t)]> r.2);
  commit_transaction d r := Ok r.2;
  first_entry r t := Ok (head (map_to_list (table_of r.2 t)));
  last_entry r t := Ok (greatest (map_to_list (table_of r.2 t)));
|}.

Lemma table_of_insert d t g t' : table_of (<[t := g]> d) t' = if String.eqb t' t then g else table_of d t'.
Proof.
  unfold table_of. destruct (String.eqb_spec t' t) as [->|Hne]; [by rewrite lookup_insert_eq|]. by rewrite lookup_insert_ne.
Qed.

#[export] Instance toy_rocks_laws : @RocksDBLaws toy_rocks.
Proof.
  unshelve refine (@Build_RocksDBLaws toy_rocks (fun r => table_of r.2) (fun r => r.1) _ _ _ _ _ _ _).
  - by intros r t k x [= <-].
  - intros r t k b r' [= <-]. split; [done|]. intros t'. apply table_of_insert.
  - intros r t k r' [= <-]. split; [done|]. intros t'. apply table_of_insert.
  - done.
  - by intros d r d' [= <-].
  - intros r t x [= <-]. destruct (map_to_list (table_of r.2 t)) as [|[k b] l] eqn:Hl; cbn [head].
    + by apply map_to_list_empty_iff.
    + apply elem_of_map_to_list. rewrite Hl. set_solver.
  - intros r t x [= <-]. pose proof (greatest_spec (map_to_list (table_of r.2 t))) as Hg.
    destruct (greatest _) as [[k b]|].
    + destruct Hg as [Hin Hall]. split; [by apply elem_of_map_to_list|]. intros k' [b' Hk'] _.
      rewrite Forall_forall in Hall. apply (Hall (k', b')). by apply elem_of_map_to_list.
    + by apply map_to_list_empty_iff.
Defined.

#[export] Instance BlockHeader_countable : Countable BlockHeader :=
  inj_countable' (fun h => (Types.version h, merkle_root_hash h, previous_block_hash h, height h, hash_threshold h, timestamp h, nonce h, genesis_state h))
    (fun '(a, b, c, d, e, f, g, i) => mk_BlockHeader a b c d e f g i) ltac:(by intros []).
#[export] Instance Block_countable : Countable Block :=
  inj_countable' (fun b => (header b, transactions b)) (fun '(h, t) => mk_Block h t) ltac:(by intros []).
#[export] Instance BlockIndexData_countable : Countable BlockIndexData :=
  inj_countable' (fun i => (parent_hash i, index_height i, index_chain_work i)) (fun '(a, b, c) => mk_BlockIndexData a b c) ltac:(by intros []).
#[export] Instance TransactionIndexData_countable : Countable TransactionIndexData :=
  inj_countable' (fun i => (location_block_hash i, location_block_height i, tx_index i)) (fun '(a, b, c) => mk_TransactionIndexData a b c) ltac:(by intros []).
#[export] Instance BlockUndo_countable : Countable BlockUndo :=
  inj_countable' (fun u => (spent_utxos u, created_outpoints u)) (fun '(a, b) => mk_BlockUndo a b) ltac:(by intros []).
#[export] Instance ChainState_countable : Countable ChainState :=
  inj_countable' (fun s => (latest_block s, last_update_time s, blocks_count s, chain_work s)) (fun '(a, b, c, d) => mk_ChainState a b c d) ltac:(by intros []).
#[export] Instance ChainMetadata_countable : Countable ChainMetadata :=
  inj_countable' (fun m => (schema_version m, chain_name m, protocol_version m, created_unix_ts m)) (fun '(a, b, c, d) => mk_ChainMetadata a b c d) ltac:(by intros []).

#[export] Instance toy_store_postcard : StorePostcard := {|
  postcard_utxo := to_bytes;
  postcard_utxo_from := from_bytes;
  postcard_outpoints := to_bytes;
  postcard_outpoints_from := from_bytes;
  postcard_block := to_bytes;
  postcard_block_from := from_bytes;
  postcard_header_from bytes := b ← (from_bytes bytes : result string Block); mret (header b);
  postcard_index := to_bytes;
  postcard_index_from := from_bytes;
  postcard_location := to_bytes;
  postcard_location_from := from_bytes;
  postcard_undo := to_bytes;
  postcard_undo_from := from_bytes;
  postcard_state := to_bytes;
  postcard_state_from := from_bytes;
  postcard_metadata := to_bytes;
  postcard_metadata_from := from_bytes;
|}.
#[export] Instance toy_store_postcard_laws : StorePostcardLaws.
Proof. split; intros; try apply from_to_bytes. cbn in *. by rewrite H. Qed.
End ToyRocks.
