(* ===== verification/RocksWrites.v ===== *)
(** RocksWrites: the writes of the RocksDB backend keep its tables what the in-memory backend
    holds, the address index included: batches, blocks and their locations, state. *)
From S2P Require Import Prelude Bytes Types Externals Hashing Work Transactions Blocks Storage UtxoProcessor Overlay Transition Engine Rocks Simulation RocksStore.

(** * Who owns what after a write *)

Section Owned.
Implicit Types (u : gmap OutPoint UTXO).

Lemma owned_insert u op x a :
  owned (<[op := x]> u) a = if decide (owner x = a) then {[ op ]} ∪ owned u a else owned u a ∖ {[ op ]}.
Proof.
  apply set_eq. intros op'. rewrite elem_of_owned. destruct (decide (op' = op)) as [->|Hne].
  - rewrite lookup_insert_eq. case_decide; [set_solver|]. split; [naive_solver|set_solver].
  - rewrite lookup_insert_ne by done. rewrite <-elem_of_owned. case_decide; set_solver.
Qed.

Lemma owned_delete u op a : owned (delete op u) a = owned u a ∖ {[ op ]}.
Proof.
  apply set_eq. intros op'. rewrite elem_of_difference, !elem_of_owned. destruct (decide (op' = op)) as [->|Hne].
  - rewrite lookup_delete_eq. split; [naive_solver|set_solver].
  - rewrite lookup_delete_ne by done. set_solver.
Qed.

Lemma owned_other u op a : (forall x, u !! op = Some x -> owner x <> a) -> owned u a ∖ {[ op ]} = owned u a.
Proof. intros Hx. assert (op ∉ owned u a) by (rewrite elem_of_owned; naive_solver). set_solver. Qed.
End Owned.

(** * The address sets a batch keeps aside *)

Section Flush.
Context {X : Externals} {PC : StorePostcard}.
Implicit Types (c : string -> gmap (list byte) (list byte)) (m : MemoryView) (mem : gmap AccountAddress (gset OutPoint)).

Definition address_key (a : AccountAddress) : list byte := arr (hash_data a).

#[export] Instance address_key_inj : Inj (=) (=) address_key.
Proof. intros a b. apply hash_key_inj. Qed.

(** The tables once the sets kept aside are written. *)
Definition flush mem c : string -> gmap (list byte) (list byte) :=
  set_table c "addresses" (kmap address_key (postcard_outpoints <$> mem) ∪ c "addresses").

Lemma flush_address mem c a :
  flush mem c "addresses" !! address_key a =
    match mem !! a with Some s => Some (postcard_outpoints s) | None => c "addresses" !! address_key a end.
Proof.
  unfold flush. table. destruct (mem !! a) as [s|] eqn:Ha.
  - apply lookup_union_Some_l. by rewrite (lookup_kmap address_key), lookup_fmap, Ha.
  - apply lookup_union_r. by rewrite (lookup_kmap address_key), lookup_fmap, Ha.
Qed.

Lemma flush_empty c t : flush ∅ c t = c t.
Proof.
  unfold flush, set_table. destruct (String.eqb_spec t "addresses") as [->|]; [|done].
  by rewrite fmap_empty, kmap_empty, (left_id_L ∅ (∪)).
Qed.

Lemma flush_step mem c a s t :
  mem !! a = None ->
  flush mem (set_table c "addresses" (<[address_key a := postcard_outpoints s]> (c "addresses"))) t = flush (<[a := s]> mem) c t.
Proof.
  intros Ha. unfold flush, set_table. destruct (String.eqb_spec t "addresses") as [->|]; [|done]. rewrite (String.eqb_refl "addresses").
  rewrite fmap_insert, (kmap_insert address_key). rewrite <-insert_union_l. symmetry. apply insert_union_r.
  by rewrite (lookup_kmap address_key), lookup_fmap, Ha.
Qed.
End Flush.

Section Batches.
Context {X : Externals} {I : HashIteration} `{!HashIterationLaws} {R : RocksDB} {PC : StorePostcard} {RL : RocksDBLaws} `{!StorePostcardLaws}.
Implicit Types (v : StorageView) (m : MemoryView) (mem : gmap AccountAddress (gset OutPoint)) (d : Database).

Abbreviation anysim := (sim (fun _ : StorageError => True)).

(** ** Single writes *)

Lemma put_value_Ok {A} (to : A -> list byte) v t k x v' :
  put_value to v t k x = Ok v' ->
  started_on (reader v') = started_on (reader v) /\
  forall t', contents (reader v') t' = set_table (contents (reader v)) t (<[k := to x]> (contents (reader v) t)) t'.
Proof. unfold put_value, backend_error. intros Hp. res_inv. by apply put_contents. Qed.

Lemma remove_value_Ok v t k v' :
  remove_value v t k = Ok v' ->
  started_on (reader v') = started_on (reader v) /\
  forall t', contents (reader v') t' = set_table (contents (reader v)) t (delete k (contents (reader v) t)) t'.
Proof. unfold remove_value, backend_error. intros Hp. res_inv. by apply delete_contents. Qed.

(** A write that keeps the tables what [m] becomes. *)
Lemma put_value_view {A} d (to : A -> list byte) v t k x m' :
  started_on (reader v) = d ->
  holds (set_table (contents (reader v)) t (<[k := to x]> (contents (reader v) t))) m' ->
  anysim (view_sim d) (put_value to v t k x) (Ok m').
Proof.
  intros Hd Hh. destruct (put_value _ _ _ _ _) as [v'|] eqn:Hp; [|done]. apply put_value_Ok in Hp as [Hs Hc].
  split; [by rewrite Hs|]. by eapply holds_ext.
Qed.

Lemma remove_value_view d v t k m' :
  started_on (reader v) = d ->
  holds (set_table (contents (reader v)) t (delete k (contents (reader v) t))) m' ->
  anysim (view_sim d) (remove_value v t k) (Ok m').
Proof.
  intros Hd Hh. destruct (remove_value _ _ _) as [v'|] eqn:Hp; [|done]. apply remove_value_Ok in Hp as [Hs Hc].
  split; [by rewrite Hs|]. by eapply holds_ext.
Qed.

(** ** The sets kept aside *)

(** [v] with the sets [mem] written would show [m]. *)
Definition staged d mem v m : Prop := started_on (reader v) = d /\ holds (flush mem (contents (reader v))) m.

Lemma staged_start d v m : view_sim d v m -> staged d ∅ v m.
Proof. intros [Hd Hh]. split; [done|]. eapply holds_ext; [|exact Hh]. intros t. apply flush_empty. Qed.

Lemma staged_utxo d mem v m op : staged d mem v m -> sim fatal eq (rocks_get_utxo v op) (Ok (utxos m !! op)).
Proof. intros [_ Hh]. by eapply utxo_read. Qed.

Lemma staged_owned d mem v m a s : staged d mem v m -> mem !! a = Some s -> s = owned (utxos m) a.
Proof.
  intros [_ Hh] Hs. pose proof (h_addresses _ _ Hh a) as Ha. change (arr (hash_data a)) with (address_key a) in Ha.
  rewrite flush_address, Hs, postcard_outpoints_inv in Ha. by injection Ha.
Qed.

Lemma membership_read d mem v m a :
  staged d mem v m -> sim fatal eq (membership v mem a) (Ok (owned (utxos m) a)).
Proof.
  intros Hs. unfold membership. destruct (mem !! a) as [s|] eqn:Ha; [cbn; by eapply staged_owned|].
  eapply address_read; [apply Hs|]. change (arr (hash_data a)) with (address_key a). by rewrite flush_address, Ha.
Qed.

Lemma leave_Ok d mem v m a op mem' :
  staged d mem v m -> leave v mem a op = Ok mem' -> mem' = <[a := owned (utxos m) a ∖ {[ op ]}]> mem.
Proof.
  intros Hs. unfold leave. pose proof (membership_read d mem v m a Hs) as Hr.
  destruct (membership v mem a) as [s|e]; cbn in Hr |- *; [subst s|done]. intros Hl. by res_inv.
Qed.

(** A write to the outputs with the sets of all their owners updated. *)
Lemma staged_write d mem v m mem' v' t u :
  staged d mem v m -> t = "utxo" ->
  started_on (reader v') = started_on (reader v) ->
  (forall t', contents (reader v') t' = set_table (contents (reader v)) t (contents (reader v') t) t') ->
  (forall op, outpoint_typed op -> slot postcard_utxo_from (contents (reader v') t !! encode_utxo_key op) (u !! op)) ->
  map_Forall (fun op x => outpoint_typed op /\ utxo_txid x = txid op /\ utxo_vout x = vout op) u ->
  (forall a, match mem' !! a with Some s => s = owned u a | None => mem !! a = None /\ owned u a = owned (utxos m) a end) ->
  staged d mem' v' (set_utxos m u).
Proof.
  intros [Hd Hh] -> Hs Hc Hu Ht Ha. split; [by rewrite Hs|].
  assert (forall t, t <> "utxo" -> t <> "addresses" -> flush mem' (contents (reader v')) t = flush mem (contents (reader v)) t) as He.
  { intros t Hn Hn'. unfold flush, set_table. rewrite (proj2 (String.eqb_neq t _) Hn').
    rewrite Hc. unfold set_table. by rewrite (proj2 (String.eqb_neq t _) Hn). }
  pose proof (h_addresses _ _ Hh) as Haddr.
  destruct Hh; split; cbn [set_utxos utxos blocks heights indexes tx_locations undos state view_metadata]; intros; rewrite ?He by done;
    try match goal with H : is_Some (flush _ _ _ !! _) |- _ => rewrite He in H by done end; auto.
  change (arr (hash_data a)) with (address_key a). rewrite flush_address. specialize (Ha a). specialize (Haddr a).
  change (arr (hash_data a)) with (address_key a) in Haddr. rewrite flush_address in Haddr.
  destruct (mem' !! a) as [s|]; [by rewrite postcard_outpoints_inv, Ha|]. destruct Ha as [Hm ->]. rewrite Hm in Haddr.
  rewrite Hc. exact Haddr.
Qed.

(** Writing the sets kept aside. *)
Lemma flush_loop d v m l :
  NoDup l.*1 -> staged d (list_to_map l) v m ->
  anysim (view_sim d) (fold_res (fun v entry => put_value postcard_outpoints v "addresses" (arr (hash_data entry.1)) entry.2) v l) (Ok m).
Proof.
  revert v. induction l as [|[a s] l IH]; intros v Hnd [Hd Hh]; cbn [fold_res].
  - split; [done|]. eapply holds_ext; [|exact Hh]. intros t. symmetry. apply flush_empty.
  - apply NoDup_cons in Hnd as [Ha Hnd]. destruct (put_value _ _ _ _ _) as [v'|] eqn:Hp; [|done]. cbn [mbind result_bind].
    apply put_value_Ok in Hp as [Hs Hc]. cbn [fst snd] in Hc. apply IH; [done|]. split; [by rewrite Hs|].
    eapply holds_ext; [|exact Hh]. intros t. symmetry. rewrite list_to_map_cons, <-flush_step by (by apply not_elem_of_list_to_map).
    unfold flush, set_table in *. rewrite !Hc. done.
Qed.

Lemma put_memberships_view d mem v m : staged d mem v m -> anysim (view_sim d) (put_memberships v mem) (Ok m).
Proof.
  intros Hs. unfold put_memberships. apply flush_loop; [apply hash_iter_nodup|].
  rewrite (list_to_map_proper (M := gmap AccountAddress) (hash_iter mem) (map_to_list mem)); [by rewrite list_to_map_to_list|apply hash_iter_nodup|apply hash_iter_perm].
Qed.

(** ** Adding outputs *)

Lemma put_utxo_Ok d mem v m op x mem' v' :
  staged d mem v m -> outpoint_typed op -> put_utxo (mem, v) (op, x) = Ok (mem', v') ->
  staged d mem' v' (set_utxos m (<[op := x]> (utxos m))).
Proof.
  intros Hs Hop. unfold put_utxo. destruct (negb _ || _) eqn:Hg; [done|]. bool_inv.
  pose proof (staged_utxo d mem v m op Hs) as Hr. destruct (rocks_get_utxo v op) as [f|]; cbn in Hr; [subst f|done].
  cbn [mbind result_bind]. intros Hp. apply bind_Ok in Hp as (mem1 & Hm1 & Hp).
  apply bind_Ok in Hp as (s & Hm & Hp). cbn beta in Hp. apply bind_Ok in Hp as (v1 & Hv & Hp). injection Hp as <- <-.
  assert ((forall a, mem1 !! a = None -> mem !! a = None /\ (forall y, utxos m !! op = Some y -> owner y <> owner x -> owner y <> a)) /\
    (forall a s, a <> owner x -> mem1 !! a = Some s -> s = owned (utxos m) a ∖ {[ op ]}) /\
    mem1 !! owner x = mem !! owner x) as (Hnone & Hsome & Hown).
  { assert (forall a s, mem !! a = Some s -> (forall y, utxos m !! op = Some y -> owner y <> a) -> s = owned (utxos m) a ∖ {[ op ]}) as Hkeep.
    { intros a s' Ha Hne. rewrite owned_other by done. by eapply staged_owned. }
    destruct (utxos m !! op) as [y|]; [case_bool_decide as Ho|]; try (injection Hm1 as <-; split_and!; naive_solver).
    apply (leave_Ok d mem v m) in Hm1 as ->; [|done]. split_and!.
    - intros a [? ?]%lookup_insert_None. naive_solver.
    - intros a s' Ha. destruct (decide (a = owner y)) as [->|Hne]; [rewrite lookup_insert_eq; naive_solver|].
      rewrite lookup_insert_ne by done. intros Hs'. apply Hkeep; naive_solver.
    - by rewrite lookup_insert_ne. }
  assert (s = owned (utxos m) (owner x)) as ->.
  { unfold membership in Hm. rewrite Hown in Hm. fold (membership v mem (owner x)) in Hm.
    pose proof (membership_read d mem v m (owner x) Hs) as Hr. by rewrite Hm in Hr. }
  apply put_value_Ok in Hv as [Hst Hc]. eapply staged_write; [exact Hs|reflexivity|exact Hst| | | |].
  - intros t. rewrite (Hc t), (Hc "utxo"). done.
  - intros op' Hop'. rewrite Hc. table. apply slot_insert; [apply postcard_utxo_inv|by apply utxo_key_inj|]. by apply (h_utxos _ _ (proj2 Hs)).
  - apply map_Forall_insert_2; [done|]. apply (h_outpoints _ _ (proj2 Hs)).
  - intros a. destruct (decide (a = owner x)) as [->|Hne].
    + rewrite lookup_insert_eq, owned_insert, decide_True by done. done.
    + rewrite lookup_insert_ne, owned_insert, decide_False by done. destruct (mem1 !! a) as [s|] eqn:Ha; [by apply Hsome|].
      apply Hnone in Ha as [Ha Hy]. split; [done|]. apply owned_other. intros y Hy' <-. by apply (Hy y Hy').
Qed.

Lemma batch_put_view d v m l :
  view_sim d v m -> Forall (fun e => outpoint_typed e.1) l ->
  anysim (view_sim d) (rocks_batch_put_utxos v l) (memory_batch_put_utxos m l).
Proof.
  intros Hv Hl. unfold rocks_batch_put_utxos, memory_batch_put_utxos.
  assert (forall acc, staged d acc.1 acc.2 m -> forall acc', fold_res put_utxo acc l = Ok acc' -> staged d acc'.1 acc'.2 (set_utxos m (put_all (utxos m) l))) as Hf.
  { clear Hv. revert m. induction Hl as [|[op x] l Hop Hl IH]; intros m [mem w] Hs acc'; cbn [fold_res].
    - intros [= <-]. by destruct m.
    - intros ([mem1 w1] & Hp & Hf)%bind_Ok. apply (put_utxo_Ok d mem w m) in Hp; [|done..]. apply (IH _ (mem1, w1) Hp acc' Hf). }
  specialize (Hf (∅, v) (staged_start d v m Hv)). destruct (fold_res put_utxo _ l) as [[mem w]|]; [|done]. cbn [mbind result_bind].
  apply put_memberships_view. by apply (Hf (mem, w)).
Qed.

(** ** Removing outputs *)

Lemma remove_utxo_Ok d mem v m op mem' v' :
  staged d mem v m -> remove_utxo (mem, v) op = Ok (mem', v') ->
  is_Some (utxos m !! op) /\ staged d mem' v' (set_utxos m (delete op (utxos m))).
Proof.
  intros Hs. unfold remove_utxo. pose proof (staged_utxo d mem v m op Hs) as Hr.
  destruct (rocks_get_utxo v op) as [f|]; cbn in Hr; [subst f|done]. cbn [mbind result_bind].
  destruct (utxos m !! op) as [x|] eqn:Hx; cbn [ok_or mbind result_bind]; [|done].
  intros Hp. apply bind_Ok in Hp as (mem1 & Hm1 & Hp). apply bind_Ok in Hp as (v1 & Hv & Hp). injection Hp as <- <-. split; [done|].
  apply (leave_Ok d mem v m) in Hm1 as ->; [|done].
  pose proof (h_outpoints _ _ (proj2 Hs)) as Hty. cbn beta in Hty. pose proof (Hty op x Hx) as (Hop & _).
  apply remove_value_Ok in Hv as [Hst Hc]. eapply staged_write; [exact Hs|reflexivity|exact Hst| | | |].
  - intros t. rewrite (Hc t), (Hc "utxo"). done.
  - intros op' Hop'. rewrite Hc. table. apply slot_delete; [by apply utxo_key_inj|]. by apply (h_utxos _ _ (proj2 Hs)).
  - by apply map_Forall_delete.
  - intros a. rewrite owned_delete. destruct (decide (a = owner x)) as [->|Hne]; [by rewrite lookup_insert_eq|].
    rewrite lookup_insert_ne by done. rewrite owned_other by naive_solver.
    destruct (mem !! a) as [s|] eqn:Ha; [by eapply staged_owned|done].
Qed.

Lemma batch_remove_view d v m l :
  view_sim d v m -> anysim (view_sim d) (rocks_batch_remove_utxos v l) (memory_batch_remove_utxos m l).
Proof.
  intros Hv. unfold rocks_batch_remove_utxos, memory_batch_remove_utxos. rewrite memory_remove_check.
  assert (forall acc, staged d acc.1 acc.2 m -> forall acc', fold_res remove_utxo acc l = Ok acc' ->
    Forall (fun op => is_Some (utxos m !! op)) l /\ staged d acc'.1 acc'.2 (set_utxos m (remove_all (utxos m) l))) as Hf.
  { clear Hv. revert m. induction l as [|op l IH]; intros m [mem w] Hs acc'; cbn [fold_res].
    - intros [= <-]. split; [constructor|]. by destruct m.
    - intros ([mem1 w1] & Hp & Hf)%bind_Ok. apply (remove_utxo_Ok d mem w m) in Hp as [Hop Hp]; [|done].
      destruct (IH _ (mem1, w1) Hp acc' Hf) as [Hall Hs']. split; [|exact Hs'].
      constructor; [done|]. eapply Forall_impl; [exact Hall|]. intros op' [x Hx]. cbn in Hx. apply lookup_delete_Some in Hx as [_ Hx]. by exists x. }
  specialize (Hf (∅, v) (staged_start d v m Hv)). destruct (fold_res remove_utxo _ l) as [[mem w]|]; [|by apply sim_bad].
  destruct (Hf _ eq_refl) as [Hall Hs]. apply first_missing_None in Hall as ->. cbn [mbind result_bind]. by apply put_memberships_view.
Qed.
End Batches.

(** * Blocks *)

Section BlockWrites.
Context {X : Externals} {I : HashIteration} `{!HashIterationLaws} {R : RocksDB} {PC : StorePostcard} {RL : RocksDBLaws} `{!StorePostcardLaws}.
Implicit Types (v : StorageView) (m : MemoryView) (d : Database).

Abbreviation anysim := (sim (fun _ : StorageError => True)).

(** A write, then the rest. *)
Lemma put_then {A B} d (to : A -> list byte) v t k x m' f (r2 : result StorageError B) (Q : StorageView -> B -> Prop) :
  started_on (reader v) = d ->
  holds (set_table (contents (reader v)) t (<[k := to x]> (contents (reader v) t))) m' ->
  (forall v', view_sim d v' m' -> anysim Q (f v') r2) ->
  anysim Q (put_value to v t k x ≫= f) r2.
Proof.
  intros Hd Hh Hf. pose proof (put_value_view d to v t k x m' Hd Hh) as Hp.
  destruct (put_value _ _ _ _ _) as [v'|e]; cbn in Hp |- *; [by apply Hf|]. destruct r2; auto.
Qed.

Lemma put_location_view d b v m (l : gmap TransactionHash TransactionIndexData) entry :
  view_sim d v (set_locations m l) ->
  anysim (fun v' l' => view_sim d v' (set_locations m l')) (put_location b v entry) (index_transaction b l entry).
Proof.
  intros [Hd Hh]. unfold put_location, index_transaction. destruct (_ <=? _); [by right|].
  pose proof (put_value_view d postcard_location v _ _ _ _ Hd (holds_location _ _ (tx_hash (tx_data entry.2))
    (mk_TransactionIndexData (block_hash b) (height (header b)) (Z.of_nat entry.1)) Hh)) as Hp.
  destruct (put_value _ _ _ _ _); [|done]. exact Hp.
Qed.

Lemma put_block_view d v m b i :
  view_sim d v m -> height_typed b -> anysim (view_sim d) (rocks_put_block v b i) (memory_put_block m b i).
Proof.
  intros [Hd Hh] Hb. unfold rocks_put_block, memory_put_block.
  destruct (rocks_get_block_by_hash v (block_hash b)); [|by apply sim_bad]. cbn [mbind result_bind].
  destruct (ensure _ _); [|by apply sim_bad]. cbn [mbind result_bind].
  destruct (rocks_get_block_index v (block_hash b)); [|by apply sim_bad]. cbn [mbind result_bind].
  destruct (ensure _ _); [|by apply sim_bad]. cbn [mbind result_bind].
  destruct (rocks_get_block_hash_by_height v _); [|by apply sim_bad]. cbn [mbind result_bind].
  destruct (ensure _ _); [|by apply sim_bad]. cbn [mbind result_bind].
  eapply put_then; [done|by apply holds_block|]. intros v1 [Hd1 Hh1].
  eapply put_then; [done|by apply (holds_index _ _ (block_hash b) i Hh1)|]. intros v2 [Hd2 Hh2].
  destruct (put_cf _ _ _ _) as [r|] eqn:Hp; [|by apply sim_bad]. cbn [backend_error map_err mbind result_bind].
  apply put_contents in Hp as [Hs Hc].
  assert (view_sim d (mk_StorageView (inner_failed v2) r)
    (set_locations (mk_MemoryView (utxos m) (<[block_hash b := b]> (blocks m)) (<[height (header b) := block_hash b]> (heights m))
      (<[block_hash b := i]> (indexes m)) (tx_locations m) (undos m) (state m) (view_metadata m)) (tx_locations m))) as Hv.
  { split; [cbn [reader]; by rewrite Hs|]. eapply holds_ext; [exact Hc|]. apply (holds_height _ _ (height (header b)) (block_hash b) Hh2 Hb). }
  pose proof (sim_fold (fun _ => True) _ (fun _ => True) (put_location b) (index_transaction b)
    (imap (fun i t => (i, t)) (transactions b)) _ _ (fun v l e _ => put_location_view d b v _ l e) (Forall_true _ _ (fun _ => Logic.I)) Hv) as Hf.
  destruct (fold_res (put_location b) _ _) as [v'|e]; [|by apply sim_bad]. apply sim_Ok in Hf as (l & -> & Hl). exact Hl.
Qed.

Lemma remove_location_view d b v m (l : gmap TransactionHash TransactionIndexData) t :
  view_sim d v (set_locations m l) ->
  anysim (fun v' l' => view_sim d v' (set_locations m l')) (remove_location b v t) (Ok (unindex_transaction (block_hash b) l t)).
Proof.
  intros [Hd Hh]. unfold remove_location, unindex_transaction, get_location.
  pose proof (get_value_reads _ v "transaction_indexes" _ _ (h_locations _ _ Hh (tx_hash (tx_data t)))) as Hr. cbn [set_locations tx_locations] in Hr.
  destruct (get_value _ _ _ _) as [f|]; [|done]. cbn in Hr. subst f. cbn [mbind result_bind].
  destruct (l !! tx_hash (tx_data t)) as [loc|]; cbn [fmap option_fmap option_map].
  - destruct (decide (location_block_hash loc = block_hash b)) as [He|He].
    + rewrite (bool_decide_eq_true_2 (location_block_hash loc = _)), (bool_decide_eq_true_2 (Some _ = _)) by congruence. cbn [negb]. destruct (_ || _); [done|].
      pose proof (remove_value_view d v _ _ _ Hd (holds_no_location _ _ (tx_hash (tx_data t)) Hh)) as Hp.
      destruct (remove_value _ _ _); [|done]. exact Hp.
    + rewrite (bool_decide_eq_false_2 (location_block_hash loc = _)), (bool_decide_eq_false_2 (Some _ = _)) by congruence. cbn [negb]. destruct (rocks_get_transaction _ _); [|done]. by split.
  - rewrite bool_decide_eq_false_2 by done. by split.
Qed.

Lemma unindex_sim d b v m (l : gmap TransactionHash TransactionIndexData) ts :
  view_sim d v (set_locations m l) ->
  anysim (view_sim d) (fold_res (remove_location b) v ts) (Ok (set_locations m (foldl (unindex_transaction (block_hash b)) l ts))).
Proof.
  revert v l. induction ts as [|t ts IH]; intros v l Hv; cbn [fold_res foldl]; [done|].
  pose proof (remove_location_view d b v m l t Hv) as Hp. destruct (remove_location b v t) as [v'|]; [|done]. by apply IH.
Qed.

Lemma remove_block_view d v m b :
  view_sim d v m -> height_typed b -> anysim (view_sim d) (rocks_remove_canonical_block v b) (memory_remove_canonical_block m b).
Proof.
  intros [Hd Hh] Hb. unfold rocks_remove_canonical_block, memory_remove_canonical_block.
  pose proof (hash_at_read v m _ Hh Hb) as Hr. destruct (rocks_get_block_hash_by_height v _) as [f|]; [|by apply sim_bad].
  cbn in Hr. subst f. cbn [mbind result_bind]. case_bool_decide; [|by right]. cbn [ensure mbind result_bind].
  pose proof (remove_value_view d v _ _ _ Hd (holds_no_height _ _ _ Hh Hb)) as Hp.
  destruct (remove_value _ _ _) as [v'|]; [|by apply sim_bad]. cbn [mbind result_bind].
  exact (unindex_sim d b v' (mk_MemoryView (utxos m) (blocks m) (delete (height (header b)) (heights m))
    (indexes m) (tx_locations m) (undos m) (state m) (view_metadata m)) (tx_locations m) _ Hp).
Qed.

(** The writes of the RocksDB backend do what those of the in-memory backend do, or fail. *)
Lemma view_store_sim d : store_sim (view_sim d).
Proof.
  split.
  - apply view_reads.
  - intros v m l. apply batch_put_view.
  - intros v m l. apply batch_remove_view.
  - intros v m b i. apply put_block_view.
  - intros v m b. apply remove_block_view.
  - intros v m h u [Hd Hh] Hu. apply put_value_view; [done|]. by apply holds_undo.
  - intros v m st [Hd Hh] Hst. apply put_value_view; [done|]. by apply holds_state.
  - intros v m md [Hd Hh]. apply put_value_view; [done|]. by apply holds_meta.
Qed.
End BlockWrites.
