(* ===== verification/RocksNode.v ===== *)
(** RocksNode: the storage handle under the consensus engine. A node on RocksDB follows the
    in-memory engine, or stops with an error and with its tables as they were; what opening
    a database has checked when it succeeds. *)
From S2P Require Import Prelude Bytes Types Externals Petgraph Hashing Work Transactions Blocks Storage UtxoProcessor Overlay Transition Dependencies Validator Engine Consensus Rocks Simulation RocksStore RocksWrites.

(** * The handle *)

Section Handle.
Context {X : Externals} {I : HashIteration} `{!HashIterationLaws} {R : RocksDB} {PC : StorePostcard} {RL : RocksDBLaws} `{!StorePostcardLaws}.
Implicit Types (s : StryiStorage) (m : MemoryView).

(** The committed tables of a handle. *)
Definition tables_hold s m : Prop := holds (contents (open_snapshot (database s))) m.

Lemma tables_snapshot s m v : tables_hold s m -> storage_read s = Ok v -> view_sim (started_on (reader v)) v m.
Proof. unfold storage_read. intros Hh. destruct (failed s); [done|]. by intros [= <-]. Qed.

(** A handle commits what the in-memory backend would hold; a refused transition leaves its
    tables alone, and stops the handle when the error is fatal. *)
Lemma transition_tables s m t :
  tables_hold s m -> transition_typed t ->
  match storage_apply_transition s t with
  | (Ok r, s') => exists m', memory_apply_transition m t = (Ok r, m') /\ tables_hold s' m' /\ failed s' = false
  | (Err err, s') => database s' = database s /\ failed s' = failed s || storage_is_fatal err
  end.
Proof.
  intros Hh Ht. unfold storage_apply_transition, storage_update. destruct (failed s) eqn:Hf; [by rewrite Hf|].
  pose proof (transaction_contents (database s)) as [Hs Hc].
  assert (sim (fun _ : StorageError => True) (outcome_sim (view_sim (database s)))
    (transition_callback t (mk_StorageView false (open_transaction (database s)))) (apply_transition m t)) as Hsim.
  { assert (view_sim (database s) (mk_StorageView false (open_transaction (database s))) m) as Hv
      by (split; [done|]; eapply holds_ext; [exact Hc|done]).
    pose proof (apply_transition_sim _ (view_store_sim (database s)) _ m t Hv Ht) as Ha.
    unfold transition_callback. destruct t; [destruct (negb _); [by apply sim_bad|exact Ha]|exact Ha|exact Ha]. }
  destruct (transition_callback _ _) as [[r v]|err]; cbv beta iota.
  - apply sim_Ok in Hsim as ([r' m'] & Hm & [He [Hd Hv]]). cbn [fst snd] in *. subst r'.
    destruct (commit_transaction _ _) as [d'|e] eqn:Hcm; [|by cbn].
    exists m'. unfold memory_apply_transition, update. rewrite Hm. split_and!; [done| |done].
    eapply holds_ext; [|exact Hv]. cbn [database]. exact (commit_contents _ _ _ Hcm Hd).
  - destruct (storage_is_fatal err); cbn; [done|by rewrite Hf].
Qed.

(** The handle and the in-memory backend are the same storage to the engine. *)
Lemma rocks_node_sim : node_sim tables_hold.
Proof.
  split.
  - intros s m Hh. cbn. unfold storage_read. destruct (failed s) eqn:Hf; [by apply sim_bad|].
    eapply (view_reads _ (mk_StorageView false (open_snapshot (database s))) m), (tables_snapshot s); [done|].
    unfold storage_read. by rewrite Hf.
  - intros s m t Hh Ht. pose proof (transition_tables s m t Hh Ht) as Ha. cbn.
    destruct (storage_apply_transition s t) as [[r|err] s'].
    + destruct Ha as (m' & Hm & Hh' & _). by exists m'.
    + destruct Ha as [Hd _]. unfold tables_hold. by rewrite Hd.
Qed.

(** C20: the RocksDB backend refines the in-memory one. On a handle whose tables hold a
    state, a transition that commits gives the result of the in-memory backend and leaves
    tables that hold the state the in-memory backend reaches, with the address index, the
    transaction locations and the undo records in step; a transition that fails leaves the
    database alone, and the handle refuses all further work exactly when it had failed
    already or the error is fatal. *)
Theorem rocks_transition_refines_memory s m t :
  tables_hold s m -> transition_typed t ->
  match storage_apply_transition s t with
  | (Ok r, s') => exists m', memory_apply_transition m t = (Ok r, m') /\ tables_hold s' m' /\ failed s' = false
  | (Err err, s') => database s' = database s /\ failed s' = failed s || storage_is_fatal err
  end.
Proof. apply transition_tables. Qed.

(** ** The engine on the handle *)

Section Node.
Context {P : PetGraph nat} `{!PetGraphLaws nat}.
Variables (schedule : list nat -> list nat).
Hypothesis schedule_permutes : forall idxs, schedule idxs ≡ₚ idxs.

(** An engine with another database. *)
Definition with_db {DB1 DB2} (e : Engine DB1) (d : DB2) : Engine DB2 :=
  mk_Engine (engine_consts e) (block_validator e) d (forks e) (chain_index e).

(** C7: consensus on RocksDB. Take an engine whose database holds the state [m] and which,
    on [m], represents a chain. A block whose outputs are new where it attaches is answered
    by the verdict fork choice gives over [m], with the chain, the forks and the tables it
    leads to; or the engine returns a storage error, and its tables still hold [m]. *)
Theorem rocks_engine_refines_fork_choice now (e : Engine StryiStorage) m l b :
  tables_hold (db e) m -> represents (with_db e m) l -> block_typed b -> fresh_on (with_db e m) l b ->
  match on_block schedule now b e with
  | (Ok verdict, e') => exists m', tables_hold (db e') m' /\ block_outcome (with_db e m) l b (Ok verdict) (with_db e' m')
  | (Err err, e') => tables_hold (db e') m /\ exists layer cause, err = CoreStorageError layer cause
  end.
Proof.
  intros Hh Hr Hb Hf. pose proof (on_block_outcome schedule now schedule_permutes (with_db e m) l b Hr Hb Hf) as Ho.
  pose proof (on_block_sim _ rocks_node_sim schedule now b e (with_db e m) ltac:(by split)) as Hs.
  destruct (on_block schedule now b e) as [[verdict|err] e'].
  - destruct Hs as (v' & e2 & Hm & <- & [Hd He] & _). rewrite Hm in Ho. exists (db e2). split; [done|]. by rewrite <-He in Ho.
  - destruct Hs as [Hd [[Hfat|[cause ->]]|(e2 & He)]]; split; try done; [|by eauto|].
    + destruct err; try done. by eauto.
    + rewrite He in Ho. apply Ho.
Qed.

(** A restart on RocksDB. If the engine starts on the database of a node that represents
    a chain, it starts with the index the running engine had and without forks, and its
    database still holds the same state; a node therefore loses only its forks. *)
Theorem rocks_restart_restores_index (e e' : Engine StryiStorage) m l consts v :
  tables_hold (db e) m -> represents (with_db e m) l ->
  Engine_new consts v (db e) = Ok e' ->
  chain_index e' = chain_index e /\ forks e' = ∅ /\ tables_hold (db e') m /\ represents (with_db e' m) l.
Proof.
  intros Hh Hr He. destruct (startup_engine m l consts v (rp_refines _ _ Hr) (rp_typed _ _ Hr)) as (x & Hn & Hrep).
  pose proof (engine_new_sim _ rocks_node_sim consts v (db e) m Hh) as Hs. rewrite He, Hn in Hs. destruct Hs as [Hd Heq].
  assert (chain_index e' = x /\ forks e' = ∅) as [Hx Hf] by (by injection Heq).
  split_and!; [|done|done|].
  - rewrite Hx. exact (indexes_unique _ _ l (rp_index _ _ Hrep) (rp_index _ _ Hr)).
  - unfold with_db. rewrite <-Heq in Hrep. exact Hrep.
Qed.
End Node.
End Handle.

(** * A node on a concrete database *)

Section RocksWitnesses.
Import Toy ListGraph MapOrder ToyRocks.
Local Existing Instances externals map_order map_order_laws list_graph list_graph_laws.

Definition toy_empty : StryiStorage := mk_StryiStorage (∅ : Database) false.
Definition rocks_store : StryiStorage := (storage_apply_transition toy_empty (TGenesis toy_genesis toy_metadata)).2.
Definition toy_node : Engine StryiStorage := with_db run_engine rocks_store.

Lemma toy_empty_holds : tables_hold toy_empty MemoryView_default.
Proof. apply holds_fresh. intros t. exact eq_refl. Qed.

Lemma rocks_store_ok : is_ok (storage_apply_transition toy_empty (TGenesis toy_genesis toy_metadata)).1 = true.
Proof. vm_compute. reflexivity. Qed.

Lemma rocks_store_holds : tables_hold rocks_store run_store /\ failed rocks_store = false.
Proof.
  pose proof (transition_tables toy_empty MemoryView_default (TGenesis toy_genesis toy_metadata) toy_empty_holds Logic.I) as Ht.
  pose proof rocks_store_ok as Hok. unfold rocks_store. destruct (storage_apply_transition _ _) as [[r|err] s']; [|discriminate Hok].
  destruct Ht as (m' & Hm & Hh & Hf). cbn [snd]. split; [|exact Hf].
  unfold memory_apply_transition, update in Hm. unfold run_store.
  destruct (apply_transition MemoryView_default _) as [[r' m'']|]; [|discriminate Hm]. injection Hm as _ ->. exact Hh.
Qed.

Lemma rocks_transition_refines_memory_witness :
  exists r s' m', storage_apply_transition toy_empty (TGenesis toy_genesis toy_metadata) = (Ok r, s') /\
    memory_apply_transition MemoryView_default (TGenesis toy_genesis toy_metadata) = (Ok r, m') /\ tables_hold s' m'.
Proof.
  pose proof (rocks_transition_refines_memory toy_empty MemoryView_default (TGenesis toy_genesis toy_metadata) toy_empty_holds Logic.I) as Ht.
  pose proof rocks_store_ok as Hok. destruct (storage_apply_transition _ _) as [[r|err] s']; [|discriminate Hok].
  destruct Ht as (m' & Hm & Hh & _). exists r, s', m'. exact (conj eq_refl (conj Hm Hh)).
Defined.

Abbreviation rocks_run := (on_block (I := map_order) (P := list_graph) (fun idxs => idxs) (Ok 1900000000) run_first toy_node).

Lemma toy_node_applies : is_applied rocks_run.1 = true.
Proof. vm_compute. reflexivity. Qed.

Lemma toy_node_represents : represents (with_db toy_node run_store) [toy_genesis].
Proof. exact run_engine_represents. Qed.

(** The node applies the first block and its tables hold a state of the longer chain. *)
Lemma rocks_engine_refines_fork_choice_witness :
  exists tr e' m', rocks_run = (Ok (Applied tr), e') /\ tables_hold (db e') m' /\ represents (with_db e' m') [toy_genesis; run_first].
Proof.
  pose proof (rocks_engine_refines_fork_choice (fun idxs => idxs) id_permutes (Ok 1900000000) toy_node run_store [toy_genesis] run_first
    (proj1 rocks_store_holds) toy_node_represents run_first_typed (run_first_fresh _ run_engine_represents)) as Ho.
  pose proof toy_node_applies as Ha. destruct rocks_run as [[verdict|err] e']; [|discriminate Ha].
  destruct Ho as (m' & Hd & Ho). destruct verdict as [tr| | | | |]; try discriminate Ha.
  exists tr, e', m'. exact (conj eq_refl (conj Hd (proj1 Ho))).
Defined.

Lemma toy_node_starts : is_ok (Engine_new val_rules val_validator rocks_store) = true.
Proof. vm_compute. reflexivity. Qed.

Lemma rocks_restart_restores_index_witness :
  exists e', Engine_new val_rules val_validator rocks_store = Ok e' /\ chain_index e' = chain_index toy_node.
Proof.
  pose proof toy_node_starts as Ha. destruct (Engine_new val_rules val_validator rocks_store) as [e'|] eqn:He; [|discriminate Ha].
  exists e'. exact (conj eq_refl (proj1 (rocks_restart_restores_index toy_node e' run_store [toy_genesis] val_rules val_validator
    (proj1 rocks_store_holds) toy_node_represents He))).
Defined.
End RocksWitnesses.
