(* ===== verification/RocksOpen.v ===== *)
(** RocksOpen: opening a RocksDB store. What a successful check of the state guarantees, that
    a store holding a chain passes it, and a concrete instance of the third-party code. *)
From S2P Require Import Prelude Bytes Types Externals Petgraph Hashing Work Transactions Blocks Storage UtxoProcessor Overlay Transition Difficulty Engine Consensus Rocks Simulation RocksStore RocksWrites RocksNode.

Section Opening.
Context {X : Externals} {I : HashIteration} `{!HashIterationLaws} {R : RocksDB} {PC : StorePostcard} {RL : RocksDBLaws} `{!StorePostcardLaws}.
Implicit Types (s : StryiStorage) (v : StorageView) (m : MemoryView).

(** ** What the checks see *)

Lemma empty_tables v :
  verify_pre_genesis_tables_empty v = Ok tt -> forall t, t ∈ TABLES -> contents (reader v) t = ∅.
Proof.
  unfold verify_pre_genesis_tables_empty. intros Hf. assert (forall l u, fold_res (fun (_ : unit) name =>
    entry ← backend_error ("inspect " +:+ name) (first_entry (reader v) name);
    ensure (bool_decide (entry = None)) (Corruption "Storage has data without genesis metadata and chain state")) u l = Ok tt ->
    Forall (fun t => contents (reader v) t = ∅) l) as Hl.
  { intros l. induction l as [|t l IH]; intros u; cbn [fold_res]; [by constructor|].
    intros ([] & He & Hf')%bind_Ok. constructor; [|by apply (IH tt)].
    destruct (first_entry (reader v) t) as [x|] eqn:Hx; [|done]. cbn in He. apply ensure_Ok in He. bool_inv. subst x.
    by apply (first_contents _ _ _ Hx). }
  apply Hl in Hf. by apply Forall_forall.
Qed.

(** The table holds the encoding of [x] under the key. *)
Definition stored_as {A} (from : list byte -> result string A) (c : string -> gmap (list byte) (list byte))
    (table : string) (key : list byte) (x : A) : Prop :=
  exists bytes, c table !! key = Some bytes /\ from bytes = Ok x.

Lemma get_value_stored {A} (from : list byte -> result string A) v t k x :
  get_value from v t k = Ok (Some x) -> stored_as from (contents (reader v)) t k x.
Proof.
  unfold get_value, raw_get. destruct (inner_failed v); cbn [mbind result_bind]; [done|].
  destruct (get_cf (reader v) t k) as [found|] eqn:Hg; cbn [backend_error map_err mbind result_bind]; [|done].
  apply get_contents in Hg. destruct found as [bytes|]; [|done]. unfold decode_value.
  destruct (from bytes) as [y|] eqn:Hd; cbn [map_err mbind result_bind]; [|done]. intros [= <-]. by exists bytes.
Qed.

(** The tables map the height to the hash of the block and the hash to the block. *)
Record block_stored (c : string -> gmap (list byte) (list byte)) (h : Z) (b : Block) : Prop := {
  bs_mapped : c "heights" !! be_bytes 8 h = Some (arr (hash_data (block_hash b)));
  bs_body : stored_as postcard_block_from c "blocks" (arr (hash_data (block_hash b))) b;
  bs_height : height (header b) = h;
  bs_shape : verify_genesis_work_shape b = Ok tt;
}.

Lemma block_at_stored v h b :
  rocks_get_block_by_height v h = Ok (Some b) -> block_stored (contents (reader v)) h b.
Proof.
  unfold rocks_get_block_by_height, rocks_get_block_hash_by_height, raw_get. destruct (inner_failed v); cbn [mbind result_bind]; [done|].
  destruct (get_cf (reader v) "heights" (be_bytes 8 h)) as [found|] eqn:Hg; cbn [backend_error map_err mbind result_bind]; [|done].
  apply get_contents in Hg. destruct found as [bytes|]; [|done].
  destruct (array_of 32 bytes) as [a|] eqn:Ha; cbn [ok_or mbind result_bind mret result_ret]; [|done].
  apply array_of_Some in Ha as <-. unfold rocks_get_block_by_hash. cbn [hash_data].
  destruct (get_value _ _ _ _) as [[b'|]|] eqn:Hv; cbn [mbind result_bind ok_or] in *; try done.
  apply get_value_stored in Hv. destruct (verify_genesis_work_shape b') as [[]|] eqn:Hw; cbn [map_err mbind result_bind]; [|done].
  case_bool_decide as He; cbn [ensure mbind result_bind]; [|done]. cbn [ok_or mbind result_bind mret result_ret].
  destruct (Z.eqb_spec (height (header b')) h); [|done]. intros [= <-]. by split; rewrite ?He.
Qed.

(** What a checked state is: records of the genesis and of the tip that agree with the chain
    state, and no height above the tip. *)
Record verified (c : string -> gmap (list byte) (list byte)) (md : ChainMetadata) (st : ChainState) : Prop := {
  vf_metadata : stored_as postcard_metadata_from c "metadata" METADATA_KEY md;
  vf_schema : schema_version md = STORAGE_SCHEMA_VERSION;
  vf_state : stored_as postcard_state_from c "stats" STATE_KEY st;
  vf_genesis : exists g, block_stored c 0 g /\ valid_genesis g;
  vf_genesis_index : stored_as postcard_index_from c "block_indexes" (arr (hash_data BlockHash_empty))
    (mk_BlockIndexData BlockHash_empty 0 0);
  vf_tip : exists t, latest_block st = position t /\ block_stored c (height (header t)) t /\
    stored_as postcard_index_from c "block_indexes" (arr (hash_data (block_hash t)))
      (mk_BlockIndexData (previous_block_hash (header t)) (height (header t)) (chain_work st));
  vf_count : blocks_count st = (latest_block st).1 + 1 /\ blocks_count st < 2 ^ 64;
  vf_highest k : is_Some (c "heights" !! k) -> length k = 8%nat -> be_val k <= (latest_block st).1;
}.

Lemma highest_inv v tip_height :
  verify_highest_canonical_height v tip_height = Ok tt ->
  forall k, is_Some (contents (reader v) "heights" !! k) -> length k = 8%nat -> be_val k <= tip_height.
Proof.
  unfold verify_highest_canonical_height. destruct (last_entry (reader v) "heights") as [x|] eqn:Hl; [|done].
  apply last_contents in Hl. destruct x as [[k b]|]; cbn [backend_error map_err ok_or mbind result_bind fst]; [|done].
  destruct Hl as [_ Hmax]. destruct (Nat.eqb_spec (length k) 8) as [Hlen|]; [|done]. cbn [negb].
  destruct (Z.eqb_spec (be_val k) tip_height) as [<-|]; [|done]. intros _ k' Hk' Hlen'. apply Hmax; [done|congruence].
Qed.

Lemma genesis_inv v :
  verify_genesis_index v = Ok tt ->
  (exists g, block_stored (contents (reader v)) 0 g /\ valid_genesis g) /\
  stored_as postcard_index_from (contents (reader v)) "block_indexes" (arr (hash_data BlockHash_empty))
    (mk_BlockIndexData BlockHash_empty 0 0).
Proof.
  unfold verify_genesis_index. cbn [get_block_by_height get_block_index read_blocks rocks_read rocks_block_storage].
  intros Hg. res_inv. apply block_at_stored in Hr. apply get_value_stored in Hr2. bool_inv.
  split; [|by destruct r3; cbn in *; subst]. exists r0. split; [done|]. by apply validate_genesis_iff.
Qed.

Lemma tip_inv v st :
  verify_canonical_tip v st = Ok tt ->
  (exists t, latest_block st = position t /\ block_stored (contents (reader v)) (height (header t)) t /\
    stored_as postcard_index_from (contents (reader v)) "block_indexes" (arr (hash_data (block_hash t)))
      (mk_BlockIndexData (previous_block_hash (header t)) (height (header t)) (chain_work st))) /\
  blocks_count st = (latest_block st).1 + 1 /\ blocks_count st < 2 ^ 64.
Proof.
  unfold verify_canonical_tip. cbn [get_block_by_height get_block_index read_blocks rocks_read rocks_block_storage].
  intros Ht. res_inv. apply block_at_stored in Hr. apply get_value_stored in Hr1.
  destruct (_ || _) eqn:Hc; [done|]. bool_inv. rename r0 into t, r2 into i.
  match goal with H : checked_add _ _ _ = _ |- _ => apply checked_add_Some in H as [Hcount Hlt] end. split; [|by rewrite Hcount].
  destruct st as [[h hash] tm c w], i as [p ih iw]. cbn in *. subst. exists t. by split_and!.
Qed.

Lemma default_empty v : verify_default_table_empty v = Ok tt -> contents (reader v) "default" = ∅.
Proof.
  unfold verify_default_table_empty. destruct (first_entry (reader v) "default") as [x|] eqn:Hx; [|done].
  cbn [backend_error map_err mbind result_bind]. intros He%ensure_Ok. bool_inv. subst x. by apply (first_contents _ _ _ Hx).
Qed.

(** C23: What an opened database is, whatever was on the disk. When the check of the state
    succeeds, the handle has not failed and the default table is empty; and either every
    table is empty, or the tables hold metadata of this schema and a chain state; the block
    that height 0 is mapped to is stored under its hash and is a valid genesis, with the
    work index of a genesis; the tip that the state names is mapped at its height, stored
    under its hash and has a work index with its parent, its height and the work of the
    state; the number of blocks is one more than the height of the tip, in 64 bits; and no
    key of eight bytes above that height is mapped. *)
Theorem opened_state_is_verified s :
  verify_initialized_state s = Ok tt ->
  let c := contents (open_snapshot (database s)) in
  failed s = false /\ c "default" = ∅ /\
  ((forall t, t ∈ TABLES -> c t = ∅) \/ exists md st, verified c md st).
Proof.
  unfold verify_initialized_state, storage_read. destruct (failed s); cbn [mbind result_bind]; [done|].
  set (v := mk_StorageView false (open_snapshot (database s))). change (open_snapshot (database s)) with (reader v).
  destruct (verify_default_table_empty v) as [[]|] eqn:Hd; cbn [mbind result_bind]; [|done]. apply default_empty in Hd.
  unfold verify_initialization_records. cbn [metadata chain_state rocks_stats read_stats rocks_read].
  destruct (get_value postcard_metadata_from _ _ _) as [[md|]|] eqn:Hm; cbn [mbind result_bind]; [| |done];
    (destruct (get_value postcard_state_from _ _ _) as [[st|]|] eqn:Hs; cbn [mbind result_bind]; [| |done]).
  2, 3: done.
  2: { destruct (verify_pre_genesis_tables_empty v) as [[]|] eqn:He; [|done]. intros _.
       split_and!; [done..|left]. by apply empty_tables. }
  apply get_value_stored in Hm, Hs.
  cbn [mbind result_bind mret result_ret]. destruct (Z.eqb_spec (schema_version md) STORAGE_SCHEMA_VERSION) as [Hsc|]; [|done]. cbn [negb].
  intros Hok. split_and!; [done..|right]. exists md, st.
  apply bind_Ok in Hok as ([] & Hg & Hok). apply bind_Ok in Hok as ([] & Ht & Hh).
  apply genesis_inv in Hg as [Hg Hgi]. apply tip_inv in Ht as [Ht Hcount]. pose proof (highest_inv v _ Hh). by split.
Qed.

(** ** A store of a chain opens again *)

(** A reader whose calls do not fail. *)
Record reliable (r : Reader) : Prop := {
  rl_get t k : is_ok (get_cf r t k) = true;
  rl_first t : is_ok (first_entry r t) = true;
  rl_last t : is_ok (last_entry r t) = true;
}.

Section Reliable.
Context (v : StorageView) (m : MemoryView).
Hypothesis Hf : inner_failed v = false.
Hypothesis Hr : reliable (reader v).
Hypothesis Hh : holds (contents (reader v)) m.

Lemma raw_get_exact t k : raw_get v t k = Ok (contents (reader v) t !! k).
Proof.
  unfold raw_get. rewrite Hf. pose proof (rl_get _ Hr t k) as Hg. destruct (get_cf (reader v) t k) as [x|] eqn:He; [|done].
  cbn. by rewrite (get_contents _ _ _ _ He).
Qed.

Lemma get_value_exact {A} (from : list byte -> result string A) t k o :
  slot from (contents (reader v) t !! k) o -> get_value from v t k = Ok o.
Proof.
  intros Hs. unfold get_value. rewrite raw_get_exact. cbn [mbind result_bind].
  destruct (contents (reader v) t !! k) as [b|], o as [x|]; cbn in Hs; try done. unfold decode_value. by rewrite Hs.
Qed.

Lemma block_at_exact h b :
  in_u64 h -> heights m !! h = Some (block_hash b) -> blocks m !! block_hash b = Some b -> height (header b) = h ->
  verify_genesis_work_shape b = Ok tt -> rocks_get_block_by_height v h = Ok (Some b).
Proof.
  intros Hu Hat Hb Hhb Hv. unfold rocks_get_block_by_height, rocks_get_block_hash_by_height.
  rewrite raw_get_exact, (h_heights _ _ Hh h Hu), Hat. cbn [fmap option_fmap option_map mbind result_bind]. rewrite array_of_arr.
  cbn [ok_or mbind result_bind]. assert (mk_Hash (hash_data (block_hash b)) = block_hash b) as -> by (by destruct (block_hash b)).
  cbn [mret result_ret mbind result_bind]. unfold rocks_get_block_by_hash. rewrite (get_value_exact _ _ _ _ (h_blocks _ _ Hh (block_hash b))), Hb. cbn [mbind result_bind mret result_ret].
  rewrite Hv. cbn [map_err mbind result_bind]. rewrite bool_decide_eq_true_2 by done. cbn [ensure ok_or mbind result_bind].
  cbn [mret result_ret mbind result_bind ok_or]. by rewrite Hhb, Z.eqb_refl.
Qed.

Lemma highest_exact h :
  in_u64 h -> is_Some (heights m !! h) -> (forall h', is_Some (heights m !! h') -> h' <= h) ->
  verify_highest_canonical_height v h = Ok tt.
Proof.
  intros Hu [hash Hat] Hmax. unfold verify_highest_canonical_height. pose proof (rl_last _ Hr "heights") as Hl.
  destruct (last_entry (reader v) "heights") as [x|] eqn:He; [|done]. apply last_contents in He. cbn [backend_error map_err mbind result_bind].
  pose proof (h_heights _ _ Hh h Hu) as Hc. rewrite Hat in Hc. cbn [fmap option_fmap option_map] in Hc.
  destruct x as [[k b]|]; [|rewrite He, lookup_empty in Hc; done]. destruct He as [Hk Hle]. cbn [ok_or mbind result_bind fst].
  destruct (h_height_keys _ _ Hh k) as (hk & Huk & ->); [by eexists|].
  assert (length (be_bytes 8 hk) = 8%nat) as Hlen by (unfold be_bytes; by rewrite length_rev, le_bytes_length).
  rewrite Hlen. cbn [negb Nat.eqb]. rewrite be_val_bytes, Z.mod_small by done.
  rewrite (h_heights _ _ Hh hk Huk) in Hk. apply fmap_Some in Hk as (x & Hx & _).
  specialize (Hle (be_bytes 8 h)). rewrite !be_val_bytes, !Z.mod_small in Hle by done.
  assert (hk = h) as ->; [|by rewrite Z.eqb_refl]. apply Z.le_antisymm; [apply Hmax; by eexists|]. apply Hle; [by eexists|].
  rewrite Hlen. unfold be_bytes. by rewrite length_rev, le_bytes_length.
Qed.
End Reliable.

(** C22: a node can restart on its own store. When the tables hold a state of a chain with a
    valid genesis and metadata of this schema, and reading the database does not fail, the
    check on opening succeeds. *)
Theorem chain_store_opens s m l g md :
  tables_hold s m -> refines m l -> l !! 0%nat = Some g -> valid_genesis g ->
  view_metadata m = Some md -> schema_version md = STORAGE_SCHEMA_VERSION ->
  failed s = false -> reliable (open_snapshot (database s)) ->
  verify_initialized_state s = Ok tt.
Proof.
  intros Hh Hl Hg Hvg Hmd Hsc Hf Hr. pose proof (rf_records _ _ Hl) as C. pose proof (rc_shape _ _ C) as Hs.
  destruct (rf_state _ _ Hl) as (t & Hlast & Hst). pose proof (last_position _ _ Hs Hlast) as Hpos.
  pose proof (last_lookup_nat _ _ Hlast) as Hlt. pose proof (chain_bound _ Hs) as Hb. apply lookup_lt_Some in Hlt as Hlen.
  unfold verify_initialized_state, storage_read. rewrite Hf. cbn [mbind result_bind].
  set (v := mk_StorageView false (open_snapshot (database s))).
  assert (forall i b, l !! i = Some b -> rocks_get_block_by_height v (Z.of_nat i) = Ok (Some b)) as Hat.
  { intros i b Hi. apply (block_at_exact v m eq_refl Hr Hh).
    - apply lookup_lt_Some in Hi. unfold in_uint. lia.
    - rewrite (rc_heights _ _ C), height_lookup_nat, Hi. done.
    - apply (rc_blocks _ _ C). by eapply list_elem_of_lookup_2.
    - by apply (chain_height l).
    - exact (chain_shape_ok _ _ _ Hs Hi). }
  assert (forall h, rocks_get_block_index v h = Ok (indexes m !! h)) as Hidx
    by (intros h; apply (get_value_exact v eq_refl Hr); by apply h_indexes).
  unfold verify_default_table_empty. pose proof (rl_first _ Hr "default") as Hd. change (open_snapshot (database s)) with (reader v) in Hd.
  destruct (first_entry (reader v) "default") as [x|] eqn:Hx; [|done]. apply first_contents in Hx. cbn [backend_error map_err mbind result_bind].
  assert (x = None) as -> by (destruct x as [[k b]|]; [|done]; rewrite (h_default _ _ Hh : contents (reader v) "default" = ∅) in Hx; done).
  rewrite bool_decide_eq_true_2 by done. cbn [ensure mbind result_bind].
  unfold verify_initialization_records. cbn [metadata chain_state rocks_stats read_stats rocks_read].
  rewrite (get_value_exact v eq_refl Hr _ _ _ _ (h_metadata _ _ Hh)), Hmd. cbn [mbind result_bind].
  rewrite (get_value_exact v eq_refl Hr _ _ _ _ (h_state _ _ Hh)), Hst. cbn [mbind result_bind mret result_ret].
  rewrite Hsc, Z.eqb_refl. cbn [negb]. unfold verify_genesis_index, verify_canonical_tip.
  cbn [get_block_by_height get_block_index read_blocks rocks_read rocks_block_storage].
  rewrite (Hat 0%nat g Hg : rocks_get_block_by_height v 0 = _). cbn [ok_or mbind result_bind].
  rewrite (proj2 (validate_genesis_iff g) Hvg). cbn [map_err mbind result_bind]. rewrite !Hidx.
  pose proof (proj2 (chain_genesis_iff _ _ _ Hs Hg) eq_refl) as Hgen.
  destruct (proj1 (verify_shape_Ok g) (chain_shape_ok _ _ _ Hs Hg) Hgen) as (_ & Hp & _).
  assert (block_hash g = BlockHash_empty) as Hgh by (unfold block_hash; by rewrite Hgen).
  pose proof (rc_indexes _ _ C _ _ Hg) as Hig. rewrite Hgh, Hp in Hig. rewrite Hig.
  assert (ledger_work (take 1 l) = 0) as ->.
  { destruct l as [|g' l]; [done|]. injection Hg as ->. cbn [take ledger_work fmap list_fmap]. unfold ledger_work, work. cbn. by rewrite Hgen. }
  cbn [ok_or mbind result_bind index_height parent_hash index_chain_work].
  rewrite (bool_decide_eq_true_2 (BlockHash_empty = BlockHash_empty)) by reflexivity. cbn [Z.eqb andb ensure Z.of_nat mbind result_bind].
  cbn [tip_state latest_block position fst snd chain_work blocks_count]. rewrite Hpos.
  replace (Z.of_nat (length l) - 1) with (Z.of_nat (length l - 1)) by lia. rewrite (Hat _ _ Hlt).
  rewrite (rc_indexes _ _ C _ _ Hlt). cbn [ok_or mbind result_bind index_height parent_hash index_chain_work].
  rewrite (chain_height l _ _ Hs Hlt), !Z.eqb_refl, !bool_decide_eq_true_2; try done.
  - rewrite take_ge by lia. rewrite Z.eqb_refl. cbn [negb orb mbind result_bind]. apply (highest_exact v m Hr Hh).
    + unfold in_uint. lia.
    + rewrite (rc_heights _ _ C), height_lookup_nat, Hlt. by eexists.
    + intros h [x Hat2]. rewrite (rc_heights _ _ C) in Hat2. unfold height_lookup in Hat2. case_decide; [|done].
      apply fmap_Some in Hat2 as (b & Hb' & _). apply lookup_lt_Some in Hb'. lia.
  - apply checked_add_Some. lia.
Qed.
End Opening.

Section OpenWitnesses.
Import Toy ListGraph MapOrder ToyRocks.
Local Existing Instances externals map_order map_order_laws.

Lemma rocks_store_verified : verify_initialized_state rocks_store = Ok tt.
Proof. vm_compute. reflexivity. Qed.

Lemma opened_state_is_verified_witness : exists md st,
  verified (contents (open_snapshot (database rocks_store))) md st.
Proof.
  destruct (opened_state_is_verified rocks_store rocks_store_verified) as (_ & _ & [Hm|H]); [|exact H].
  pose proof (Hm "stats" ltac:(apply (bool_decide_unpack _); vm_compute; exact I)) as Hs.
  assert (bool_decide (contents (open_snapshot (database rocks_store)) "stats" = ∅) = false) as Hn by (vm_compute; reflexivity).
  rewrite (bool_decide_eq_true_2 _ Hs) in Hn. discriminate Hn.
Defined.

Lemma chain_store_opens_witness : verify_initialized_state rocks_store = Ok tt.
Proof.
  destruct rocks_store_holds as [Hh Hf].
  apply (chain_store_opens rocks_store run_store [toy_genesis] toy_genesis toy_metadata Hh run_store_refines eq_refl toy_genesis_valid).
  - vm_compute. reflexivity.
  - reflexivity.
  - exact Hf.
  - split; reflexivity.
Defined.
End OpenWitnesses.
