(* ===== verification/Node.v ===== *)
(** Node: the start of a node: adoption of a genesis block ([bootstrap.rs]), the choice of
    the peer to synchronise from, and the synchronisation that yields the consensus engine
    ([node/sync.rs]). Logging and console output are left out. *)
From S2P Require Import Prelude Bytes Types Externals Petgraph Hashing Work Merkle Transactions Blocks Storage UtxoProcessor Overlay Transition Difficulty Dependencies Validator Acceptance ChainIndex Engine Consensus Wire Sync Rocks.

(** * Genesis bootstrap *)

(** [StorageStatus] ([stryi_storage/src/meta.rs]) *)
Inductive StorageStatus :=
| NoGenesis
| Initialized (chain_name : string) (protocol_version created_unix_ts : Z).

Inductive SaveOutcome := AlreadySaved | SavedNow.

(** [i64::try_from] of an unsigned word. *)
Definition i64_try_from (v : Z) : option Z := if v <? 2 ^ 63 then Some v else None.

Section Bootstrap.
Context {X : Externals} {DB : Type} `{FullNodeStorage DB}.
Implicit Types (storage : DB) (block : Block).

(** [StryiStorage::status] *)
Definition status storage : result StorageError StorageStatus :=
  view ← db_read storage;
  md ← metadata view;
  mret match md with
       | None => NoGenesis
       | Some md => Initialized (chain_name md) (protocol_version md) (created_unix_ts md)
       end.

(** [probe_meta] *)
Definition probe_meta storage : result StryiNodeError StorageStatus :=
  map_err (fun _ => NodeOther "failed to probe storage meta: {e}") (status storage).

(** A transition whose result only matters as success. *)
Definition commit_genesis storage block (md : ChainMetadata) : result StryiNodeError unit * DB :=
  match db_apply_transition storage (TGenesis block md) with
  | (Ok _, storage) => (Ok tt, storage)
  | (Err e, storage) => (Err (NodeStorage e), storage)
  end.

(** [verify_saved_genesis] *)
Definition verify_saved_genesis storage block (name : string) (version : Z) : result StryiNodeError unit * DB :=
  match (view ← map_err NodeStorage (db_read storage); saved ← map_err NodeStorage (metadata view);
         ok_or saved (NodeOther "initialized storage has no metadata")) with
  | Err e => (Err e, storage)
  | Ok saved_metadata =>
      commit_genesis storage block
        (mk_ChainMetadata (schema_version saved_metadata) name version (created_unix_ts saved_metadata))
  end.

(** [save_genesis]: [now] is the reading of the local clock in seconds. *)
Definition save_genesis storage (now : result string Z) block (name : string) (version : Z) :
    result StryiNodeError unit * DB :=
  match (now ← map_err (fun _ => NodeOther "cannot read local clock: {e}") now;
         ok_or (i64_try_from now) (NodeOther "local clock exceeds metadata range")) with
  | Err e => (Err e, storage)
  | Ok created => commit_genesis storage block (mk_ChainMetadata STORAGE_SCHEMA_VERSION name version created)
  end.

(** [confirm_and_save]: [answer] is what [confirm_genesis] gets from the user. *)
Definition confirm_and_save storage now block (name : string) (version : Z) (answer : result StryiNodeError unit)
    (accept_genesis : bool) : result StryiNodeError SaveOutcome * DB :=
  match validate_genesis block with
  | Err _ => (Err (NodeOther "provided genesis candidate is invalid: {e}"), storage)
  | Ok _ =>
      match probe_meta storage with
      | Err e => (Err e, storage)
      | Ok (Initialized _ _ _) =>
          match verify_saved_genesis storage block name version with
          | (Ok _, storage) => (Ok AlreadySaved, storage)
          | (Err e, storage) => (Err e, storage)
          end
      | Ok NoGenesis =>
          match (if accept_genesis then Ok tt else answer) with
          | Err e => (Err e, storage)
          | Ok _ =>
              match save_genesis storage now block name version with
              | (Ok _, storage) => (Ok SavedNow, storage)
              | (Err e, storage) => (Err e, storage)
              end
          end
      end
  end.

Context {PC : Postcard}.

(** [ensure_genesis] *)
Definition ensure_genesis (cfg : StryiSyncServiceConfig) storage (now : result string Z) (remote_peer : RemotePeer) :
    result StryiNodeError unit * DB :=
  match request_genesis remote_peer with
  | Err e => (Err e, storage)
  | Ok remote_genesis_block =>
      match (view ← map_err NodeStorage (db_read storage);
             map_err (fun _ => NodeOther "failed to query storage for genesis: {e}") (get_block_by_height view 0)) with
      | Err e => (Err e, storage)
      | Ok (Some local_genesis_block) =>
          (ensure (bool_decide (local_genesis_block = remote_genesis_block))
             (NodeOther "genesis mismatch: local and remote peer have different genesis blocks"), storage)
      | Ok None =>
          match confirm_and_save storage now remote_genesis_block (sync_chain_name cfg) (sync_protocol_version cfg)
                  (Ok tt) true with
          | (Ok _, storage) => (Ok tt, storage)
          | (Err _, storage) => (Err (NodeOther "confirm_and_save failed: {e}"), storage)
          end
      end
  end.
End Bootstrap.

(** * The choice of a peer *)

(** A registered sync service of some peer; [service_channel] is what connecting gives. *)
Record ServiceRecord := mk_ServiceRecord {
  service_version : Z;
  service_channel : result StryiNodeError RemotePeer;
}.

Section Peers.
Context {X : Externals}.
Implicit Types (cfg : StryiSyncServiceConfig).

(** [require_chain_info_eq], with the field values rendered by [to_string]. *)
Definition require_chain_info_eq {T : Type} `{EqDecision T} (to_string : T -> string) (field : string) (local remote : T) :
    result StryiNodeError unit :=
  ensure (bool_decide (local = remote)) (PeerChainInfoMismatch field (to_string local) (to_string remote)).

(** [validate_peer_chain_invariants] *)
Definition validate_peer_chain_invariants cfg (info : RemoteChainInfo) : result StryiNodeError unit :=
  _ ← require_chain_info_eq pretty.pretty "protocol_version" (sync_protocol_version cfg) (remote_protocol_version info);
  require_chain_info_eq id "chain_name" (sync_chain_name cfg) (remote_chain_name info).

(** [query_sync_peers] of the services the network layer knows. *)
Definition query_sync_peers cfg (discovered : result StryiNodeError (list ServiceRecord)) :
    result StryiNodeError (list ServiceRecord) :=
  candidates ← discovered;
  mret (filter (fun s => service_version s = sync_protocol_version cfg) candidates).

(** The checks of one peer in [find_best_peer]; a peer that fails one is skipped. *)
Definition candidate_peer cfg (local_work : Z) (svc : ServiceRecord) : option (RemotePeer * RemoteChainInfo) :=
  match service_channel svc with
  | Err _ => None
  | Ok peer =>
      match request_chain_info peer with
      | Err _ => None
      | Ok info =>
          if negb (is_ok (validate_peer_chain_invariants cfg info)) then None
          else if remote_chain_work info <=? local_work then None
          else Some (peer, info)
      end
  end.

(** [find_best_peer] *)
Definition find_best_peer {DB} `{FullNodeStorage DB} cfg (storage : DB)
    (discovered : result StryiNodeError (list ServiceRecord)) :
    result StryiNodeError (RemotePeer * RemoteChainInfo) :=
  peers_list ← map_err (fun _ => NodeOther "failed to discover peers: {e}") (query_sync_peers cfg discovered);
  if bool_decide (peers_list = []) then Err (NodeOther "no peers with compatible gRPC sync service found")
  else
    view ← map_err NodeStorage (db_read storage);
    state ← map_err NodeStorage (chain_state view);
    let local_work := default 0 (chain_work <$> state) in
    let candidates := omap (candidate_peer cfg local_work) peers_list in
    ok_or (max_by_key (fun c => remote_chain_work c.2) candidates)
      (NodeOther "all peers have less or equal work than local chain - it's nothing to sync").

Definition PEER_DISCOVERY_MAX_RETRIES : Z := 30.

(** The retry loop of [synchronize]; [rounds] are the services known at each attempt. *)
Fixpoint discovery_loop {DB} `{FullNodeStorage DB} (fuel : nat) cfg (storage : DB)
    (rounds : Z -> result StryiNodeError (list ServiceRecord)) (attempt : Z) :
    result StryiNodeError (RemotePeer * RemoteChainInfo) :=
  match find_best_peer cfg storage (rounds attempt) with
  | Ok peer => Ok peer
  | Err err =>
      if PEER_DISCOVERY_MAX_RETRIES <=? attempt
      then Err (NodeOther "peer discovery failed after {} attempts: {}")
      else
        match fuel with
        | O => Err (NodeOther "discovery: out of fuel")
        | Datatypes.S fuel => discovery_loop fuel cfg storage rounds (attempt + 1)
        end
  end.
End Peers.

(** * Synchronisation at start-up *)

Section Synchronize.
Context {X : Externals} {P : PetGraph nat} {I : HashIteration} {PC : Postcard} {DB : Type} `{FullNodeStorage DB}.
Variable schedule : list nat -> list nat.
Implicit Types (storage : DB) (cfg : StryiSyncServiceConfig) (remote_peer : RemotePeer).

(** [build_consensus_constants] *)
Definition build_consensus_constants storage : result StryiNodeError ConsensusConsts :=
  view ← map_err NodeStorage (db_read storage);
  genesis ← map_err (fun _ => NodeOther "get_block_by_height(0): {e}") (get_block_by_height view 0);
  g ← ok_or genesis (NodeOther "genesis block not found in storage");
  genesis_state ← ok_or (genesis_state (header g)) (NodeOther "block at height 0 is not marked as genesis");
  mret (consensus_consts genesis_state).

(** [build_consensus_engine]; [bootstrap] starts a node with nothing else. *)
Definition build_consensus_engine storage : result StryiNodeError (Engine DB) :=
  consensus_constants ← build_consensus_constants storage;
  difficulty_calculator ← map_err (fun _ => NodeOther "invalid pow params in genesis: {e}")
    (DifficultyCalc_new (pow consensus_constants));
  map_err NodeCore (Engine_new consensus_constants (mk_BlockValidator consensus_constants difficulty_calculator) storage).

(** Where the download starts: above the local tip when the peer has it on its chain, above
    the last common ancestor otherwise. *)
Definition sync_start_height storage remote_peer (external_height : Z) (local_tip : Z * BlockHash) :
    result StryiNodeError Z :=
  let peer_includes_local_tip :=
    match request_block_by_height remote_peer local_tip.1 with
    | Ok block => bool_decide (block_hash block = local_tip.2)
    | Err _ => false
    end in
  if peer_includes_local_tip then Ok (wrap 64 (local_tip.1 + 1))
  else lca ← find_lca storage remote_peer external_height local_tip.1; mret (wrap 64 (lca.1 + 1)).

(** The download of [synchronize]. *)
Definition sync_chain (clock : nat -> result string Z) cfg (engine : Engine DB) storage remote_peer
    (external_height : Z) (local_tip : Z * BlockHash) : result StryiNodeError (Engine DB) * DB :=
  match sync_start_height storage remote_peer external_height local_tip with
  | Err e => (Err e, storage)
  | Ok start =>
      match run_ibd schedule clock engine remote_peer start external_height (max_blocks_range_per_request cfg) with
      | (Ok _, engine) => (Ok engine, db engine)
      | (Err e, engine) => (Err e, db engine)
      end
  end.

(** [synchronize]: [rounds] are the services found at each discovery attempt, [now] the
    clock when a genesis is saved, [clock] the clock during the download. *)
Definition synchronize (clock : nat -> result string Z) (now : result string Z) cfg
    (rounds : Z -> result StryiNodeError (list ServiceRecord)) storage : result StryiNodeError (Engine DB) * DB :=
  match (view ← map_err NodeStorage (db_read storage); map_err NodeStorage (chain_state view)) with
  | Err e => (Err e, storage)
  | Ok state =>
      let local_tip := default (0, BlockHash_empty) (latest_block <$> state) in
      match discovery_loop 30 cfg storage rounds 1 with
      | Err e => (Err e, storage)
      | Ok (remote_peer, remote_chain_info) =>
          match ensure_genesis cfg storage now remote_peer with
          | (Err e, storage) => (Err e, storage)
          | (Ok _, storage) =>
              match build_consensus_engine storage with
              | Err e => (Err e, storage)
              | Ok engine =>
                  sync_chain clock cfg engine storage remote_peer (remote_height remote_chain_info) local_tip
              end
          end
      end
  end.
End Synchronize.

(** * The best peer *)

Section BestPeer.
Context {X : Externals}.
Implicit Types (cfg : StryiSyncServiceConfig) (svc : ServiceRecord) (m : MemoryView).

(** A service worth synchronising from, for a node with [local_work]. *)
Definition qualifies cfg (local_work : Z) svc (peer : RemotePeer) (info : RemoteChainInfo) : Prop :=
  service_version svc = sync_protocol_version cfg /\ service_channel svc = Ok peer /\
  request_chain_info peer = Ok info /\ remote_protocol_version info = sync_protocol_version cfg /\
  remote_chain_name info = sync_chain_name cfg /\ local_work < remote_chain_work info.

Lemma candidate_peer_Some cfg local_work svc peer info :
  candidate_peer cfg local_work svc = Some (peer, info) <->
  service_channel svc = Ok peer /\ request_chain_info peer = Ok info /\
  remote_protocol_version info = sync_protocol_version cfg /\ remote_chain_name info = sync_chain_name cfg /\
  local_work < remote_chain_work info.
Proof.
  unfold candidate_peer, validate_peer_chain_invariants, require_chain_info_eq.
  destruct (service_channel svc) as [p|e]; [|split; [done|by intros (? & _)]].
  destruct (request_chain_info p) as [i|e] eqn:Hi.
  2: { split; [done|]. intros ([= ->] & Hi' & _). by rewrite Hi in Hi'. }
  destruct (decide (sync_protocol_version cfg = remote_protocol_version i)) as [Hv|Hv].
  2: { rewrite (bool_decide_eq_false_2 (sync_protocol_version cfg = _)) by done. cbn [ensure mbind result_bind is_ok negb].
       split; [done|]. intros ([= ->] & Hi' & ? & _).
       rewrite Hi in Hi'. injection Hi' as ->. by destruct Hv. }
  rewrite (bool_decide_eq_true_2 (sync_protocol_version cfg = _)) by done. cbn [ensure mbind result_bind].
  destruct (decide (sync_chain_name cfg = remote_chain_name i)) as [Hn|Hn].
  2: { rewrite bool_decide_eq_false_2 by done. cbn [ensure mbind result_bind is_ok negb]. split; [done|]. intros ([= ->] & Hi' & _ & ? & _).
       rewrite Hi in Hi'. injection Hi' as ->. by destruct Hn. }
  rewrite bool_decide_eq_true_2 by done. cbn [ensure is_ok negb].
  destruct (Z.leb_spec (remote_chain_work i) local_work); split.
  - done.
  - intros ([= ->] & Hi' & _ & _ & ?). rewrite Hi in Hi'. injection Hi' as ->. lia.
  - intros [= <- <-]. split_and!; done.
  - intros ([= ->] & Hi' & _). rewrite Hi in Hi'. by injection Hi' as ->.
Qed.

Lemma candidates_elem cfg local_work (known : list ServiceRecord) peer info :
  (peer, info) ∈ omap (candidate_peer cfg local_work) (filter (fun s => service_version s = sync_protocol_version cfg) known) <->
  exists svc, svc ∈ known /\ qualifies cfg local_work svc peer info.
Proof.
  rewrite list_elem_of_omap. unfold qualifies. split.
  - intros (svc & Hin & Hc). apply list_elem_of_filter in Hin as [Hv Hin]. apply candidate_peer_Some in Hc. exists svc. tauto.
  - intros (svc & Hin & Hv & Hc). exists svc. rewrite list_elem_of_filter, candidate_peer_Some. tauto.
Qed.

Definition work_of m : Z := default 0 (chain_work <$> state m).

Lemma find_best_peer_cases cfg m known :
  match find_best_peer cfg m (Ok known) with
  | Ok (peer, info) =>
      (exists svc, svc ∈ known /\ qualifies cfg (work_of m) svc peer info) /\
      (forall svc peer' info', svc ∈ known -> qualifies cfg (work_of m) svc peer' info' ->
        remote_chain_work info' <= remote_chain_work info)
  | Err _ => forall svc peer info, svc ∈ known -> ~ qualifies cfg (work_of m) svc peer info
  end.
Proof.
  unfold find_best_peer, query_sync_peers. cbn [mbind result_bind].
  change (mret ?x) with (Ok (E := StryiNodeError) x). cbn [map_err mbind result_bind].
  pose proof (candidates_elem cfg (work_of m) known) as Hel.
  set (compatible := filter _ known) in *. case_bool_decide as Hnil.
  { intros svc peer info Hin Hq. pose proof (proj2 (Hel peer info) (ex_intro _ svc (conj Hin Hq))) as Hc.
    rewrite Hnil in Hc. cbn in Hc. set_solver. }
  cbn [db_read memory_full_node map_err mbind result_bind].
  change (chain_state m) with (Ok (E := StorageError) (state m)). cbn [map_err mbind result_bind]. fold (work_of m).
  pose proof (max_by_key_spec (fun c : RemotePeer * RemoteChainInfo => remote_chain_work c.2)
    (omap (candidate_peer cfg (work_of m)) compatible)) as Hmax.
  destruct (max_by_key _ _) as [[peer info]|]; cbn [ok_or].
  - destruct Hmax as [Hin Hall]. split; [by apply Hel|]. intros svc peer' info' Hs Hq.
    rewrite Forall_forall in Hall. apply (Hall (peer', info')). apply Hel. by exists svc.
  - intros svc peer info Hin Hq. pose proof (proj2 (Hel peer info) (ex_intro _ svc (conj Hin Hq))) as Hc.
    rewrite Hmax in Hc. set_solver.
Qed.

Lemma discovery_first (fuel : nat) cfg m rounds attempt peer :
  find_best_peer cfg m (rounds attempt) = Ok peer -> discovery_loop fuel cfg m rounds attempt = Ok peer.
Proof. intros Hf. destruct fuel; cbn [discovery_loop]; by rewrite Hf. Qed.

Lemma discovery_finds (fuel : nat) cfg m rounds attempt peer info :
  discovery_loop fuel cfg m rounds attempt = Ok (peer, info) ->
  exists attempt' known svc, rounds attempt' = Ok known /\ svc ∈ known /\ qualifies cfg (work_of m) svc peer info.
Proof.
  revert attempt. induction fuel as [|fuel IH]; intros attempt; cbn [discovery_loop];
    destruct (find_best_peer cfg m (rounds attempt)) as [[p i]|err] eqn:Hf.
  1, 3: intros [= <- <-]; exists attempt; pose proof Hf as Hf'; unfold find_best_peer, query_sync_peers in Hf';
    destruct (rounds attempt) as [known|e]; [|done];
    pose proof (find_best_peer_cases cfg m known) as Hc; rewrite Hf in Hc; destruct Hc as ((svc & Hs & Hq) & _); by exists known, svc.
  - destruct (_ <=? _); done.
  - destruct (_ <=? _); [done|]. apply IH.
Qed.
End BestPeer.

(** * Synchronisation from an honest peer *)

Section SyncChain.
Context {X : Externals} `{!HexLaws} {P : PetGraph nat} `{!PetGraphLaws nat} {I : HashIteration} `{!HashIterationLaws}.
Context {PC : Postcard} `{!PostcardLaws}.
Implicit Types (l bs : list Block) (b g : Block) (m : MemoryView) (cfg : StryiSyncServiceConfig).
Variable schedule : list nat -> list nat.
Hypothesis schedule_permutes : forall idxs, schedule idxs ≡ₚ idxs.

Lemma chain_head l m : records m l -> exists g, head l = Some g /\ l !! 0%nat = Some g /\ is_genesis g = true.
Proof.
  intros R. pose proof (rc_shape _ _ R) as Hs. destruct l as [|g rest]; [done|]. exists g. by destruct Hs as (Hg & _).
Qed.

(** The honest peer's tip. *)
Lemma serving_chain_info cfg m l t :
  refines m l -> last l = Some t -> 0 <= ledger_work l ->
  request_chain_info (serving cfg m) =
    Ok (mk_RemoteChainInfo (height (header t)) (block_hash t) (ledger_work l) (timestamp (header t))
      (wrap 32 (sync_protocol_version cfg)) (sync_chain_name cfg)).
Proof.
  intros R Hl Hpos. destruct (rf_state _ _ R) as (t' & Hl' & Hst). rewrite Hl in Hl'. injection Hl' as <-.
  unfold request_chain_info, serving, get_chain_info. cbn [grpc_chain_info].
  cbn [db_read memory_full_node internal map_err mbind result_bind].
  change (chain_state m) with (Ok (E := StorageError) (state m)). rewrite Hst.
  cbn [internal map_err mbind result_bind ok_or mret result_ret]. unfold chain_info_from_wire.
  cbn [ci_latest_block_hash ci_chain_work ci_height ci_last_update_time ci_protocol_version ci_chain_name].
  cbn [tip_state latest_block chain_work last_update_time position snd fst].
  rewrite (proj1 (hash_string_roundtrip BlockHashKind (block_hash t) "")). cbn [map_err mbind result_bind].
  pose proof (rc_work _ _ (rf_records _ _ R) (length l)) as Hw. rewrite take_ge in Hw by done.
  destruct (work_codecs_roundtrip 0 (ledger_work l) [] []) as (_ & -> & _); [unfold in_uint; lia|done|done].
Qed.

(** The honest peer's genesis. *)
Lemma serving_genesis cfg m l g :
  serves cfg m l -> head l = Some g -> request_genesis (serving cfg m) = Ok g.
Proof.
  intros [R Hty _ Hmax] Hg. destruct (chain_head l m R) as (g' & Hg' & Hl0 & Hgen). rewrite Hg in Hg'. injection Hg' as <-.
  unfold request_genesis, request_block_by_hash, request_blocks_by_hashes, serving.
  cbn [length Nat.ltb Nat.leb grpc_blocks_by_hash]. unfold get_blocks_by_hash. rewrite !list_fmap_singleton. cbn [length].
  rewrite (proj2 (Z.ltb_ge _ _)) by lia. cbn [map_err mbind result_bind].
  assert (stream_items (hashed_block (DB := MemoryView)) (fun _ => m) [Hash_to_string BlockHash_empty] =
    (fun b => Ok (block_to_wire b)) <$> [g]) as ->.
  { unfold stream_items. cbn [imap fmap list_fmap]. f_equal. unfold hashed_block.
    rewrite (proj1 (hash_string_roundtrip BlockHashKind BlockHash_empty "")). cbn [map_err mbind result_bind].
    unfold read_block. change (db_read m) with (Ok (E := StorageError) m). cbn [internal map_err mbind result_bind].
    change (get_block_by_hash m BlockHash_empty) with (Ok (E := StorageError) (blocks m !! BlockHash_empty)).
    rewrite <-(genesis_hash g Hgen), (rc_blocks _ _ R g) by by eapply list_elem_of_lookup_2. done. }
  rewrite (collect_wire _ _ 1).
  - done.
  - done.
  - apply Forall_singleton. rewrite Forall_forall in Hty. apply Hty. by eapply list_elem_of_lookup_2.
  - cbn. lia.
Qed.

(** What the genesis of a chain fixes: the constants and the validator of its nodes. *)
Record chain_rules g (consts : ConsensusConsts) (v : BlockValidator) : Prop := {
  cr_state : genesis_state (header g) = Some (mk_GenesisState consts);
  cr_params : PowParams_validate (pow consts) = Ok tt;
  cr_validator : v = mk_BlockValidator consts (mk_DifficultyCalc (pow consts));
}.

Lemma build_engine_ok m l g consts v :
  refines m l -> Forall block_typed l -> head l = Some g -> chain_rules g consts v ->
  exists e, build_consensus_engine m = Ok e /\ at_chain v e l.
Proof.
  intros R Hty Hg [Hst Hpow ->]. destruct (chain_head l m (rf_records _ _ R)) as (g' & Hg' & Hl0 & _).
  rewrite Hg in Hg'. injection Hg' as <-. unfold build_consensus_engine, build_consensus_constants.
  cbn [db_read memory_full_node map_err mbind result_bind].
  change (get_block_by_height m 0) with (memory_get_block_by_height m 0).
  rewrite (memory_block_at m l 0 g (rf_records _ _ R) (Z.le_refl 0) Hl0). cbn [map_err mbind result_bind ok_or]. rewrite Hst.
  cbn [ok_or mbind result_bind consensus_consts]. change (mret ?x) with (Ok (E := StryiNodeError) x). cbn [mbind result_bind].
  unfold DifficultyCalc_new. rewrite Hpow. cbn [mbind result_bind].
  change (mret ?x) with (Ok (E := StryiCoreError) x). cbn [map_err mbind result_bind].
  destruct (startup_engine m l consts (mk_BlockValidator consts (mk_DifficultyCalc (pow consts))) R Hty) as (x & Hx & Hr).
  rewrite Hx. cbn [map_err]. eexists. split; [reflexivity|]. split_and!; done.
Qed.

(** Once the engine is built on a chain the peer continues, the download reaches the peer's tip. *)
Lemma sync_chain_reaches clock cfg cfg' v e storage m' l bs t :
  at_chain v e l -> last l = Some t -> valid_branch v clock 0 l bs -> refines m' (l ++ bs) ->
  serves cfg' m' (l ++ bs) -> 0 < max_blocks_range_per_request cfg < 2 ^ 32 ->
  exists e', sync_chain schedule clock cfg e storage (serving cfg' m') (Z.of_nat (length (l ++ bs)) - 1) (position t) =
      (Ok e', db e') /\ represents e' (l ++ bs).
Proof.
  intros He Hl Hbs R' Hsv Hmax. pose proof He as (R & _). pose proof (represents_shape _ _ R) as Hs.
  pose proof (last_position l t Hs Hl) as Hp. pose proof (chain_bound _ (rc_shape _ _ (sv_records _ _ _ Hsv))) as Hbd.
  rewrite length_app in Hbd. assert (0 < length l)%nat as Hlen by (destruct l; [done|cbn; lia]).
  unfold sync_chain, sync_start_height, position. cbn [fst snd]. rewrite Hp.
  rewrite (serving_block cfg' m' (l ++ bs) _ t Hsv); [|lia|].
  2: { rewrite lookup_app_l by lia. replace (Z.to_nat (Z.of_nat (length l) - 1)) with (pred (length l)) by lia. by rewrite <-last_lookup. }
  rewrite bool_decide_eq_true_2 by done. rewrite wrap_small by (split; lia).
  replace (Z.of_nat (length l) - 1 + 1) with (Z.of_nat (length l)) by lia.
  destruct (ibd_loop_reaches schedule schedule_permutes cfg' m' v (Z.to_nat (Z.of_nat (length (l ++ bs)) - 1 - Z.of_nat (length l) + 1))
    clock 0 e l bs (max_blocks_range_per_request cfg) He Hbs Hsv Hmax) as (e' & Hr & Hc); [rewrite length_app; lia|].
  unfold run_ibd. rewrite Hr. exists e'. split; [done|apply Hc].
Qed.
End SyncChain.

(** * Properties *)

Section NodeProperties.
Context {X : Externals} `{!HexLaws} {P : PetGraph nat} `{!PetGraphLaws nat} {I : HashIteration} `{!HashIterationLaws}.
Context {PC : Postcard} `{!PostcardLaws}.
Implicit Types (l bs : list Block) (b g : Block) (m : MemoryView) (cfg : StryiSyncServiceConfig).
Variable schedule : list nat -> list nat.
Hypothesis schedule_permutes : forall idxs, schedule idxs ≡ₚ idxs.

Lemma commit_genesis_fresh g md :
  validate_genesis g = Ok tt -> exists m, commit_genesis MemoryView_default g md = (Ok tt, m) /\ refines m [g].
Proof.
  intros Hv. destruct (proj1 (genesis_commits g md) Hv) as (m & Hm & R). exists m.
  unfold commit_genesis. cbn [db_apply_transition memory_full_node]. by rewrite Hm.
Qed.

Lemma save_fresh n g name version (answer : result StryiNodeError unit) (accept : bool) :
  validate_genesis g = Ok tt -> n < 2 ^ 63 -> (if accept then Ok tt else answer) = Ok tt ->
  exists m, confirm_and_save MemoryView_default (Ok n) g name version answer accept = (Ok SavedNow, m) /\ refines m [g].
Proof.
  intros Hv Hn Ha. unfold confirm_and_save, probe_meta, status. rewrite Hv.
  cbn [db_read memory_full_node mbind result_bind].
  change (metadata MemoryView_default) with (Ok (E := StorageError) (@None ChainMetadata)). cbn [mbind result_bind].
  cbn [mret result_ret map_err]. rewrite Ha.
  unfold save_genesis. cbn [map_err mbind result_bind]. unfold i64_try_from. rewrite (proj2 (Z.ltb_lt _ _)) by done.
  cbn [ok_or]. destruct (commit_genesis_fresh g (mk_ChainMetadata STORAGE_SCHEMA_VERSION name version n) Hv) as (m & -> & R).
  by exists m.
Qed.

(** Genesis bootstrap. A candidate that is no valid genesis block is refused and so is one
    the user does not confirm, both without a change to the store. On an empty store a
    confirmed candidate is saved and the store then represents the chain of that block
    alone. On a store that already represents a chain nothing is ever written, and the
    answer is AlreadySaved exactly for the genesis of that chain under the stored chain
    name and protocol version. *)
Theorem confirm_and_save_correct now g name version (answer : result StryiNodeError unit) (accept : bool) :
  (forall m e, validate_genesis g = Err e -> exists e', confirm_and_save m now g name version answer accept = (Err e', m)) /\
  (forall e, validate_genesis g = Ok tt -> answer = Err e ->
    confirm_and_save MemoryView_default now g name version answer false = (Err e, MemoryView_default)) /\
  (forall n, validate_genesis g = Ok tt -> now = Ok n -> n < 2 ^ 63 -> (if accept then Ok tt else answer) = Ok tt ->
    exists m, confirm_and_save MemoryView_default now g name version answer accept = (Ok SavedNow, m) /\ refines m [g]) /\
  (forall m l md, refines m l -> view_metadata m = Some md ->
    let out := confirm_and_save m now g name version answer accept in
    out.2 = m /\
    (out.1 = Ok AlreadySaved <-> validate_genesis g = Ok tt /\ head l = Some g /\
      chain_name md = name /\ protocol_version md = version)).
Proof.
  split_and!.
  - intros m e He. unfold confirm_and_save. rewrite He. by eexists.
  - intros e Hv ->. unfold confirm_and_save. by rewrite Hv.
  - intros n Hv -> Hn Ha. by apply save_fresh.
  - intros m l md R Hmd out. subst out. unfold confirm_and_save.
    destruct (validate_genesis g) as [[]|e] eqn:Hv; [|split; [done|naive_solver]].
    unfold probe_meta, status, verify_saved_genesis. cbn [db_read memory_full_node mbind result_bind map_err].
    change (metadata m) with (Ok (E := StorageError) (view_metadata m)). rewrite Hmd. cbn [mbind result_bind].
    cbn [mret result_ret map_err mbind result_bind ok_or].
    unfold commit_genesis. cbn [db_apply_transition memory_full_node].
    pose proof (proj2 (genesis_commits g (mk_ChainMetadata (schema_version md) name version (created_unix_ts md))) m l md R Hmd) as Hg.
    match goal with |- context [memory_apply_transition m ?t] => destruct (memory_apply_transition m t) as [r m1] end. destruct Hg as [-> Hg]. cbn [schema_version chain_name protocol_version] in Hg.
    destruct r as [r|e]; cbn [fst snd is_ok] in *.
    + split; [done|]. split; [|done]. intros _. destruct Hg as [Hg _]. destruct (Hg eq_refl) as (? & ? & _ & ? & ?). done.
    + split; [done|]. split; [done|]. intros (? & ? & ? & ?). destruct Hg as [_ Hg]. by discriminate Hg.
Qed.

(** The choice of the peer. The peer chosen runs the same protocol version and chain,
    claims more work than the local chain, and no other such peer claims more; and no
    peer is chosen only when none qualifies. *)
Theorem best_peer_selected cfg m known :
  match find_best_peer cfg m (Ok known) with
  | Ok (peer, info) =>
      (exists svc, svc ∈ known /\ qualifies cfg (work_of m) svc peer info) /\
      (forall svc peer' info', svc ∈ known -> qualifies cfg (work_of m) svc peer' info' ->
        remote_chain_work info' <= remote_chain_work info)
  | Err _ => forall svc peer info, svc ∈ known -> ~ qualifies cfg (work_of m) svc peer info
  end.
Proof. apply find_best_peer_cases. Qed.

(** A store to start from: one that represents [l], or an empty one when [l] is a genesis
    block still to be adopted. *)
Definition local_store m l g : Prop :=
  refines m l \/ m = MemoryView_default /\ l = [g] /\ validate_genesis g = Ok tt.

Lemma ensure_genesis_ok cfg cfg' m l l' g m' n :
  local_store m l g -> head l = Some g -> head l' = Some g -> serves cfg' m' l' -> n < 2 ^ 63 ->
  exists m1, ensure_genesis cfg m (Ok n) (serving cfg' m') = (Ok tt, m1) /\ refines m1 l.
Proof.
  intros Hm Hl Hl' Hsv Hn. unfold ensure_genesis. rewrite (serving_genesis cfg' m' l' g Hsv Hl').
  cbn [db_read memory_full_node map_err mbind result_bind].
  change (get_block_by_height m 0) with (memory_get_block_by_height m 0).
  destruct Hm as [R|(-> & -> & Hv)].
  - destruct (chain_head l m (rf_records _ _ R)) as (g' & Hg' & Hl0 & _). rewrite Hl in Hg'. injection Hg' as <-.
    rewrite (memory_block_at m l 0 g (rf_records _ _ R) (Z.le_refl 0) Hl0). cbn [map_err].
    rewrite bool_decide_eq_true_2 by done. by exists m.
  - change (memory_get_block_by_height MemoryView_default 0) with (Ok (E := StorageError) (@None Block)). cbn [map_err].
    destruct (save_fresh n g (sync_chain_name cfg) (sync_protocol_version cfg) (Ok tt) true Hv Hn eq_refl) as (m1 & -> & R).
    by exists m1.
Qed.

Lemma local_tip m l g :
  local_store m l g -> exists t, last l = Some t /\ default (0, BlockHash_empty) (latest_block <$> state m) = position t.
Proof.
  intros [R|(-> & -> & Hv)].
  - destruct (rf_state _ _ R) as (t & Hl & ->). by exists t.
  - exists g. split; [done|]. destruct (commit_genesis_fresh g (mk_ChainMetadata 2 "" 0 0) Hv) as (m & _ & R).
    pose proof (rc_shape _ _ (rf_records _ _ R)) as Hs. unfold position.
    rewrite (last_position [g] g Hs eq_refl), (genesis_hash g) by apply Hs. done.
Qed.

(** C8: start-up synchronisation, end to end. A node with the store of a chain [l], or with
    an empty store when [l] is just a genesis block to adopt, whose discovery finds an
    honest peer that serves a valid continuation of [l], ends with an engine that
    represents the peer's whole chain, over its own store. *)
Theorem synchronize_reaches_peer clock n cfg cfg' rounds m m' info l bs g consts v :
  local_store m l g -> head l = Some g -> Forall block_typed l -> chain_rules g consts v -> n < 2 ^ 63 ->
  discovery_loop 30 cfg m rounds 1 = Ok (serving cfg' m', info) ->
  refines m' (l ++ bs) -> serves cfg' m' (l ++ bs) -> valid_branch v clock 0 l bs ->
  0 < max_blocks_range_per_request cfg < 2 ^ 32 ->
  exists e', synchronize schedule clock (Ok n) cfg rounds m = (Ok e', db e') /\ represents e' (l ++ bs).
Proof.
  intros Hm Hg Hty Hrules Hn Hd R' Hsv Hbs Hmax.
  destruct (discovery_finds 30 cfg m rounds 1 _ _ Hd) as (attempt & known & svc & _ & _ & _ & _ & Hinfo & _).
  destruct (local_tip m l g Hm) as (t & Hl & Htip).
  assert (remote_height info = Z.of_nat (length (l ++ bs)) - 1) as Hheight.
  { destruct (rf_state _ _ R') as (t' & Hl' & _). rewrite (serving_chain_info cfg' m' _ t' R' Hl') in Hinfo.
    - injection Hinfo as <-. apply (last_position _ _ (rc_shape _ _ (sv_records _ _ _ Hsv)) Hl').
    - pose proof (ledger_work_bound (l ++ bs)) as Hw. apply Hw. apply Forall_app. split; [done|].
      exact (valid_branch_typed _ _ _ _ _ Hbs). }
  destruct (ensure_genesis_ok cfg cfg' m l (l ++ bs) g m' n Hm Hg) as (m1 & Hens & R1); [|done..|].
  { destruct l; [done|]. cbn in *. done. }
  destruct (build_engine_ok m1 l g consts v R1 Hty Hg Hrules) as (e & Hbuild & He).
  unfold synchronize. cbn [db_read memory_full_node map_err mbind result_bind].
  change (chain_state m) with (Ok (E := StorageError) (state m)). cbn [map_err].
  rewrite Hd, Hens, Hbuild, Htip, Hheight.
  by apply (sync_chain_reaches schedule schedule_permutes clock cfg cfg' v e m1 m' l bs t).
Qed.
End NodeProperties.

Section NodeWitnesses.
Import Toy ListGraph MapOrder ToyPostcard.

Abbreviation sync_config := (mk_StryiSyncServiceConfig "toy" 1 5).

Lemma confirm_and_save_correct_witness : exists m,
  confirm_and_save MemoryView_default (Ok 5) sync_genesis "toy" 1 (Err (NodeOther "no")) true = (Ok SavedNow, m) /\
  refines m [sync_genesis].
Proof.
  destruct (confirm_and_save_correct (Ok 5) sync_genesis "toy" 1 (Err (NodeOther "no")) true) as (_ & _ & H & _).
  exact (H 5 sync_genesis_valid eq_refl eq_refl eq_refl).
Defined.

(** A peer one block ahead, with its whole store. *)
Lemma peer_store : exists m, refines m [sync_genesis; run_first].
Proof.
  destruct (@next_block_applies externals list_graph list_graph_laws map_order map_order_laws
    (fun idxs => idxs) id_permutes val_validator _ sync_engine [sync_genesis] run_first sync_at_chain run_first_next)
    as (e' & tr & _ & R & _).
  exists (db e'). exact (rp_refines _ _ R).
Qed.

Lemma peer_headers_typed : Forall (fun b => header_typed (header b)) [sync_genesis; run_first].
Proof. apply (bool_decide_unpack _). vm_compute. exact I. Qed.

(** What the peer says of its tip. *)
Definition peer_info : RemoteChainInfo :=
  mk_RemoteChainInfo 1 (block_hash run_first) (ledger_work [sync_genesis; run_first])
    (timestamp (header run_first)) 1 "toy".

Lemma peer_work_positive : (0 <=? ledger_work [sync_genesis; run_first]) = true.
Proof. vm_compute. reflexivity. Qed.

Lemma peer_chain_info m : refines m [sync_genesis; run_first] -> request_chain_info (serving sync_config m) = Ok peer_info.
Proof.
  intros R. refine (eq_trans (serving_chain_info sync_config m _ run_first R eq_refl (proj1 (Z.leb_le _ _) peer_work_positive)) _).
  exact eq_refl.
Qed.

Lemma peer_discovered m :
  refines m [sync_genesis; run_first] ->
  discovery_loop 30 sync_config MemoryView_default (fun _ => Ok [mk_ServiceRecord 1 (Ok (serving sync_config m))]) 1 =
    Ok (serving sync_config m, peer_info).
Proof.
  intros R. apply discovery_first.
  assert (candidate_peer sync_config 0 (mk_ServiceRecord 1 (Ok (serving sync_config m))) = Some (serving sync_config m, peer_info)) as Hc.
  { apply candidate_peer_Some. split; [exact eq_refl|]. split; [exact (peer_chain_info m R)|].
    split; [exact eq_refl|]. split; [exact eq_refl|]. apply Z.ltb_lt. vm_compute. reflexivity. }
  change (ok_or (max_by_key (fun c : RemotePeer * RemoteChainInfo => remote_chain_work c.2)
    (omap (candidate_peer sync_config 0) [mk_ServiceRecord 1 (Ok (serving sync_config m))]))
    (NodeOther "all peers have less or equal work than local chain - it's nothing to sync") = Ok (serving sync_config m, peer_info)).
  cbn [omap list_omap]. rewrite Hc. exact eq_refl.
Qed.

Lemma synchronize_reaches_peer_witness : exists m e',
  synchronize (fun idxs => idxs) (fun _ => Ok 1900000000) (Ok 5) sync_config
    (fun _ => Ok [mk_ServiceRecord 1 (Ok (serving sync_config m))]) MemoryView_default = (Ok e', db e') /\
  represents e' [sync_genesis; run_first].
Proof.
  destruct peer_store as (m & R). exists m.
  refine (synchronize_reaches_peer (fun idxs => idxs) id_permutes (fun _ => Ok 1900000000) 5 sync_config sync_config _
    MemoryView_default m peer_info [sync_genesis] [run_first] sync_genesis val_rules val_validator
    _ _ _ _ _ (peer_discovered m R) R _ _ _).
  - right. split; [exact eq_refl|]. split; [exact eq_refl|exact sync_genesis_valid].
  - exact eq_refl.
  - apply Forall_singleton. exact sync_genesis_typed.
  - split; exact eq_refl.
  - exact eq_refl.
  - split; [exact (rf_records _ _ R)|exact peer_headers_typed|exact eq_refl|exact eq_refl].
  - exact (conj run_first_next I).
  - split; exact eq_refl.
Defined.
End NodeWitnesses.
