(* ===== verification/Runtime.v ===== *)
(** Runtime: a running node: the consensus runtime that feeds blocks to the engine, updates
    the pool and notifies the subscribers of the tip ([node/consensus_runtime.rs]), and the
    event loop around it ([node/event_loop.rs]). The loop takes one event at a time and a
    synchronisation task touches the node only through the runtime, under the engine's
    lock, so an execution is a sequence of such steps. Logging is left out. *)
From S2P Require Import Prelude Bytes Types Externals Petgraph Float64 Hashing Work Merkle Transactions Blocks Storage UtxoProcessor Overlay Transition Difficulty Dependencies Validator ChainIndex Engine Consensus MempoolGraph Mempool MempoolFacts MempoolProps Wire Sync Node.

(** * The consensus runtime *)

Inductive ConsensusOutcome :=
| OutcomeApplied (new_head : Z * BlockHash) (chain_work : Z)
| OutcomeReorganization (new_head : Z * BlockHash) (chain_work : Z) (attached detached : nat)
| OutcomeAlreadyIncludedInChain
| OutcomeAlreadyKnownInForkTree
| OutcomeBuffered
| OutcomeRejected (error : StryiCoreError).

(** The engine, the pool, the tips sent to the subscribers (oldest first), and whether the
    storage handle has been marked as failed. *)
Record ConsensusRuntime {X : Externals} `{G : PetGraphEdit TransactionHash} {DB : Type} := mk_ConsensusRuntime {
  rt_engine : Engine DB;
  rt_mempool : MemPool;
  rt_tips : list BlockHash;
  rt_failed : bool;
}.
Arguments ConsensusRuntime {X H G} DB.
Arguments mk_ConsensusRuntime {X H G DB} _ _ _ _.
Arguments rt_engine {X H G DB} _.
Arguments rt_mempool {X H G DB} _.
Arguments rt_tips {X H G DB} _.
Arguments rt_failed {X H G DB} _.

Section Runtime.
Context {X : Externals} {P : PetGraph nat} {I : HashIteration} `{G : PetGraphEdit TransactionHash} {DB : Type} `{FullNodeStorage DB}.
Variable schedule : list nat -> list nat.
Implicit Types (rt : ConsensusRuntime DB) (block : Block).

(** [publish_transition] *)
Definition publish_transition rt (transition : CommittedTransition) : ConsensusRuntime DB :=
  mk_ConsensusRuntime (rt_engine rt)
    (foldl (fun pool b => update_on_block pool (transactions b)) (rt_mempool rt) (attached transition))
    (rt_tips rt ++ [(committed_head transition).2]) (rt_failed rt).

Definition set_engine rt (e : Engine DB) : ConsensusRuntime DB :=
  mk_ConsensusRuntime e (rt_mempool rt) (rt_tips rt) (rt_failed rt).

(** The outcome of a verdict, and what it publishes. *)
Definition settle rt (verdict : ConsensusVerdict) : ConsensusOutcome * ConsensusRuntime DB :=
  match verdict with
  | Applied t => (OutcomeApplied (committed_head t) (committed_chain_work t), publish_transition rt t)
  | CausedReorganization t =>
      (OutcomeReorganization (committed_head t) (committed_chain_work t) (length (attached t)) (length (committed_detached t)),
       publish_transition rt t)
  | AlreadyIncludedInChain => (OutcomeAlreadyIncludedInChain, rt)
  | AlreadyKnownInForkTree => (OutcomeAlreadyKnownInForkTree, rt)
  | Buffered => (OutcomeBuffered, rt)
  | Rejected error => (OutcomeRejected error, rt)
  end.

Definition is_rejected (outcome : ConsensusOutcome) : bool :=
  match outcome with OutcomeRejected _ => true | _ => false end.

(** [apply_block_batch]: [cancelled i] is the poll of the cancellation token before the
    [i]-th block of the batch, [clock i] the clock while it is processed. *)
Fixpoint apply_block_batch (cancelled : nat -> bool) (clock : nat -> result string Z) (i : nat) rt
    (verdicts : list ConsensusOutcome) (blocks : list Block) :
    result StryiCoreError (list ConsensusOutcome) * ConsensusRuntime DB :=
  match blocks with
  | [] => (Ok verdicts, rt)
  | block :: blocks =>
      if cancelled i then (Ok verdicts, rt)
      else
        match on_block schedule (clock i) block (rt_engine rt) with
        | (Err e, engine) => (Err e, set_engine rt engine)
        | (Ok verdict, engine) =>
            let '(outcome, rt) := settle (set_engine rt engine) verdict in
            let verdicts := verdicts ++ [outcome] in
            if is_rejected outcome then (Ok verdicts, rt)
            else apply_block_batch cancelled clock (Datatypes.S i) rt verdicts blocks
        end
  end.

(** [apply_blocks]: [stopping] when the token is already cancelled before the worker starts.
    A panic of the worker, which also marks the storage as failed, is not modelled. *)
Definition apply_blocks (stopping : bool) cancelled clock rt (blocks : list Block) :
    result StryiNodeError (list ConsensusOutcome) * ConsensusRuntime DB :=
  if stopping then (Err (NodeOther "node is stopping"), rt)
  else
    match apply_block_batch cancelled clock 0 rt [] blocks with
    | (Ok verdicts, rt) => (Ok verdicts, rt)
    | (Err error, rt) =>
        (Err (NodeCore error),
         if core_is_fatal error then mk_ConsensusRuntime (rt_engine rt) (rt_mempool rt) (rt_tips rt) true else rt)
    end.

(** [apply_block] *)
Definition runtime_apply_block (stopping : bool) cancelled clock rt block :
    result StryiNodeError (option ConsensusOutcome) * ConsensusRuntime DB :=
  let '(r, rt) := apply_blocks stopping cancelled clock rt [block] in
  (verdicts ← r; mret (head verdicts), rt).
End Runtime.

(** * The event loop *)

Record ChainTipAnnouncement := mk_ChainTipAnnouncement {
  announced_height : Z;
  announced_tip : BlockHash;
  announced_work : Z;
}.

(** What the node asks the network layer to publish. *)
Inductive NetworkCommand :=
| PublishBlock (block : Block)
| PublishChainTip (announcement : ChainTipAnnouncement).

(** The state of the loop: the runtime, [last_announced_tip], whether a synchronisation holds
    the semaphore, and the commands sent so far. *)
Record EventLoop {X : Externals} `{G : PetGraphEdit TransactionHash} {DB : Type} := mk_EventLoop {
  el_runtime : ConsensusRuntime DB;
  el_announced : option BlockHash;
  el_syncing : bool;
  el_sent : list NetworkCommand;
}.
Arguments EventLoop {X H G} DB.
Arguments mk_EventLoop {X H G DB} _ _ _ _.
Arguments el_runtime {X H G DB} _.
Arguments el_announced {X H G DB} _.
Arguments el_syncing {X H G DB} _.
Arguments el_sent {X H G DB} _.

(** What wakes the loop, with the readings of the clock and the token at that moment. The
    batches of a running synchronisation task and its end are events of their own. *)
Inductive NodeEvent :=
| TipHeartbeat
| MinedBlock (stopping : bool) (now : result string Z) (block : Block)
| NewBlock (stopping : bool) (now : result string Z) (block : Block)
| NewTransaction (utxo_lookup : UtxoLookup) (now : Z) (tx : Transaction)
| ChainTipAnnounced (announcement : ChainTipAnnouncement)
| SyncBatch (stopping : bool) (cancelled : nat -> bool) (clock : nat -> result string Z) (blocks : list Block)
| SyncFinished.

Section EventLoop.
Context {X : Externals} {P : PetGraph nat} {I : HashIteration} `{G : PetGraphEdit TransactionHash} {DB : Type} `{FullNodeStorage DB}.
Variable schedule : list nat -> list nat.
Implicit Types (s : EventLoop DB) (rt : ConsensusRuntime DB).

(** [build_tip_announcement] *)
Definition build_tip_announcement (engine : Engine DB) : option ChainTipAnnouncement :=
  (fun t => mk_ChainTipAnnouncement t.1.1 t.1.2 t.2) <$> engine_tip engine.

Definition send s (command : NetworkCommand) : EventLoop DB :=
  mk_EventLoop (el_runtime s) (el_announced s) (el_syncing s) (el_sent s ++ [command]).
Definition set_runtime s rt : EventLoop DB :=
  mk_EventLoop rt (el_announced s) (el_syncing s) (el_sent s).
Definition set_syncing s (syncing : bool) : EventLoop DB :=
  mk_EventLoop (el_runtime s) (el_announced s) syncing (el_sent s).

(** The heartbeat and [publish_reorg_tip_announcement] both record the tip and publish it. *)
Definition announce s (announcement : ChainTipAnnouncement) : EventLoop DB :=
  send (mk_EventLoop (el_runtime s) (Some (announced_tip announcement)) (el_syncing s) (el_sent s))
    (PublishChainTip announcement).

Definition is_reorganization (outcome : ConsensusOutcome) : bool :=
  match outcome with OutcomeReorganization _ _ _ _ => true | _ => false end.
Definition is_tip_change (outcome : ConsensusOutcome) : bool :=
  match outcome with OutcomeApplied _ _ | OutcomeReorganization _ _ _ _ => true | _ => false end.

(** [should_relay] *)
Definition should_relay (outcome : ConsensusOutcome) : bool :=
  match outcome with
  | OutcomeApplied _ _ | OutcomeBuffered | OutcomeReorganization _ _ _ _ => true
  | _ => false
  end.

Definition announce_tip s : EventLoop DB :=
  match build_tip_announcement (rt_engine (el_runtime s)) with
  | Some announcement => announce s announcement
  | None => s
  end.

(** The start of [run]: nothing is served on a failed storage or a stopping node; otherwise
    the tip is announced at once. *)
Definition start_loop (stopping : bool) rt : result StryiNodeError (EventLoop DB) :=
  if rt_failed rt || stopping then Err (NodeOther "node stopped before serving requests")
  else Ok (announce_tip (mk_EventLoop rt None false [])).

(** The heartbeat of the loop. *)
Definition on_heartbeat s : EventLoop DB :=
  match build_tip_announcement (rt_engine (el_runtime s)) with
  | Some announcement =>
      if bool_decide (el_announced s = Some (announced_tip announcement)) then s else announce s announcement
  | None => s
  end.

(** A block of the local miner. Its coinbase, which the node panics without, is only logged. *)
Definition on_mined_block s (stopping : bool) (now : result string Z) (mined_block : Block) : EventLoop DB :=
  let '(r, rt) := runtime_apply_block schedule stopping (fun _ => false) (fun _ => now) (el_runtime s) mined_block in
  let s := set_runtime s rt in
  match r with
  | Ok (Some verdict) =>
      if is_tip_change verdict then
        let s := send s (PublishBlock mined_block) in
        if is_reorganization verdict then announce_tip s else s
      else s
  | _ => s
  end.

(** A block from the network. *)
Definition on_new_block s (stopping : bool) (now : result string Z) (block : Block) : EventLoop DB :=
  let '(r, rt) := runtime_apply_block schedule stopping (fun _ => false) (fun _ => now) (el_runtime s) block in
  let s := set_runtime s rt in
  match r with
  | Ok (Some verdict) =>
      let s := if is_reorganization verdict then announce_tip s else s in
      if should_relay verdict then send s (PublishBlock block) else s
  | _ => s
  end.

(** A transaction from the network. *)
Definition on_new_transaction s (utxo_lookup : UtxoLookup) (now : Z) (tx : Transaction) : EventLoop DB :=
  let rt := el_runtime s in
  match add_transaction utxo_lookup now (rt_mempool rt) tx with
  | Ok pool => set_runtime s (mk_ConsensusRuntime (rt_engine rt) pool (rt_tips rt) (rt_failed rt))
  | Err _ => s
  end.

(** Another node's new tip: a heavier one starts a synchronisation unless one is running. *)
Definition on_chain_tip s (announcement : ChainTipAnnouncement) : EventLoop DB :=
  let local_work := default 0 (snd <$> engine_tip (rt_engine (el_runtime s))) in
  if announced_work announcement <=? local_work then s
  else if el_syncing s then s
  else set_syncing s true.

(** A batch of a running [sync_from_peer]. *)
Definition on_sync_batch s (stopping : bool) cancelled clock (blocks : list Block) : EventLoop DB :=
  if el_syncing s then
    let '(r, rt) := apply_blocks schedule stopping cancelled clock (el_runtime s) blocks in
    let s := set_runtime s rt in
    match r with
    | Ok verdicts => if existsb is_rejected verdicts then set_syncing s false else s
    | Err _ => set_syncing s false
    end
  else s.

(** One iteration of the loop. *)
Definition node_step s (event : NodeEvent) : EventLoop DB :=
  match event with
  | TipHeartbeat => on_heartbeat s
  | MinedBlock stopping now block => on_mined_block s stopping now block
  | NewBlock stopping now block => on_new_block s stopping now block
  | NewTransaction utxo_lookup now tx => on_new_transaction s utxo_lookup now tx
  | ChainTipAnnounced announcement => on_chain_tip s announcement
  | SyncBatch stopping cancelled clock blocks => on_sync_batch s stopping cancelled clock blocks
  | SyncFinished => set_syncing s false
  end.

Definition node_run s (events : list NodeEvent) : EventLoop DB := foldl node_step s events.
End EventLoop.

(** * Synchronisation of a running node *)

Section SyncFromPeer.
Context {X : Externals} {P : PetGraph nat} {I : HashIteration} {PC : Postcard} `{G : PetGraphEdit TransactionHash}.
Context {DB : Type} `{FullNodeStorage DB}.
Variable schedule : list nat -> list nat.
Implicit Types (cfg : StryiSyncServiceConfig) (rt : ConsensusRuntime DB) (remote_peer : RemotePeer).

(** [prepare_peer_sync], once connected: the peer's height and the first height to download,
    or nothing when the local chain has as much work. *)
Definition prepare_peer_sync cfg (storage : DB) remote_peer : result StryiNodeError (option (Z * Z)) :=
  remote_chain_info ← request_chain_info remote_peer;
  if negb (bool_decide (remote_chain_name remote_chain_info = sync_chain_name cfg))
     || negb (remote_protocol_version remote_chain_info =? sync_protocol_version cfg)
  then Err (NodeOther "peer chain metadata does not match local configuration")
  else
    remote_genesis ← request_genesis remote_peer;
    view ← map_err NodeStorage (db_read storage);
    found ← map_err NodeStorage (get_block_by_height view 0);
    local_genesis ← ok_or found (NodeOther "local genesis is missing");
    if negb (bool_decide (remote_genesis = local_genesis))
    then Err (NodeOther "peer genesis does not match the local chain")
    else
      local_tip ← map_err NodeStorage (tip view);
      local_work ← map_err NodeStorage (total_chain_work view);
      if remote_chain_work remote_chain_info <=? local_work then mret None
      else
        start ← sync_start_height storage remote_peer (remote_height remote_chain_info) local_tip;
        mret (Some (remote_height remote_chain_info, start)).

(** The download loop of [sync_from_peer] while the node is not stopping. *)
Fixpoint sync_loop (fuel : nat) (clock : nat -> result string Z) (fed : nat) rt remote_peer
    (current_height remote_height batch_size : Z) : result StryiNodeError unit * ConsensusRuntime DB :=
  if current_height <=? remote_height then
    match fuel with
    | O => (Err (NodeOther "sync_from_peer: out of fuel"), rt)
    | Datatypes.S fuel =>
        match request_blocks_by_height_range remote_peer current_height remote_height (wrap 32 batch_size) with
        | Err e => (Err e, rt)
        | Ok [] => (Ok tt, rt)
        | Ok blocks =>
            let fetched_count := Z.of_nat (length blocks) in
            match apply_blocks schedule false (fun _ => false) (fun i => clock (fed + i)%nat) rt blocks with
            | (Err e, rt) => (Err e, rt)
            | (Ok verdicts, rt) =>
                if existsb is_rejected verdicts then (Err (NodeOther "Sync block rejected: {error}"), rt)
                else
                  sync_loop fuel clock (fed + length blocks) rt remote_peer
                    (wrap 64 (current_height + fetched_count)) remote_height batch_size
            end
        end
    end
  else (Ok tt, rt).

(** [sync_from_peer] with a connected peer. *)
Definition sync_from_peer clock cfg rt remote_peer : result StryiNodeError unit * ConsensusRuntime DB :=
  match prepare_peer_sync cfg (db (rt_engine rt)) remote_peer with
  | Err e => (Err e, rt)
  | Ok None => (Ok tt, rt)
  | Ok (Some (remote_height, sync_start_height)) =>
      sync_loop (Z.to_nat (remote_height - sync_start_height + 1)) clock 0 rt remote_peer sync_start_height remote_height
        (max_blocks_range_per_request cfg)
  end.
End SyncFromPeer.

(** * Facts *)

Section BatchFacts.
Context {X : Externals} {P : PetGraph nat} {I : HashIteration} `{G : PetGraphEdit TransactionHash} {DB : Type} `{FullNodeStorage DB}.
Variable schedule : list nat -> list nat.
Implicit Types (rt : ConsensusRuntime DB).

Lemma settle_engine rt verdict : rt_engine (settle rt verdict).2 = rt_engine rt.
Proof. by destruct verdict. Qed.

Lemma settle_rejected rt verdict :
  is_rejected (settle rt verdict).1 = match verdict with Rejected _ => true | _ => false end.
Proof. by destruct verdict. Qed.

(** A batch drives the engine as an ingestion does. *)
Lemma batch_engine (clock : nat -> result string Z) (fed i : nat) rt verdicts blocks :
  existsb is_rejected verdicts = false ->
  let out := apply_block_batch schedule (fun _ => false) (fun j => clock (fed + j)%nat) i rt verdicts blocks in
  let ibd := ingest_ibd_batch schedule clock (fed + i) (rt_engine rt) blocks in
  rt_engine out.2 = ibd.2 /\
  match out.1, ibd.1 with
  | Err e, Err e' => e' = NodeCore e
  | Ok vs, Err _ => existsb is_rejected vs = true
  | Ok vs, Ok _ => existsb is_rejected vs = false
  | Err _, Ok _ => False
  end.
Proof.
  revert i rt verdicts. induction blocks as [|b blocks IH]; intros i rt verdicts Hv; [done|].
  cbn [apply_block_batch ingest_ibd_batch].
  destruct (on_block schedule (clock (fed + i)%nat) b (rt_engine rt)) as [[verdict|e] engine]; [|done].
  pose proof (settle_engine (set_engine rt engine) verdict) as He.
  pose proof (settle_rejected (set_engine rt engine) verdict) as Hr.
  destruct (settle (set_engine rt engine) verdict) as [outcome rt1]. cbn [fst snd] in *. cbn [rt_engine set_engine] in He.
  assert (existsb is_rejected (verdicts ++ [outcome]) = is_rejected outcome) as Hex.
  { rewrite existsb_app, Hv. cbn. by rewrite orb_false_r. }
  destruct verdict; rewrite Hr; try (cbn [fst snd]; rewrite Hex; done).
  all: specialize (IH (Datatypes.S i) rt1 (verdicts ++ [outcome])); rewrite Nat.add_succ_r, He in IH; apply IH; by rewrite Hex.
Qed.
End BatchFacts.

Section SyncFacts.
Context {X : Externals} {P : PetGraph nat} {I : HashIteration} {PC : Postcard} `{G : PetGraphEdit TransactionHash}.
Context {DB : Type} `{FullNodeStorage DB}.
Variable schedule : list nat -> list nat.
Implicit Types (rt : ConsensusRuntime DB) (peer : RemotePeer).

(** No more blocks than asked for are ever taken from a stream. *)
Lemma collect_length err (most : Z) out stream bs :
  0 < most < 2 ^ 32 -> Z.of_nat (length out) < most ->
  collect_stream err (fun out => most <=? wrap 32 (Z.of_nat (length out))) out stream = Ok bs ->
  Z.of_nat (length bs) <= most.
Proof.
  intros Hm. revert out. induction stream as [|item stream IH]; intros out Hout; cbn [collect_stream].
  - intros [= <-]. lia.
  - destruct item as [pb|st]; cbn [map_err mbind result_bind]; [|done].
    destruct (block_from_wire pb) as [b|e]; cbn [map_err mbind result_bind]; [|done].
    assert (Z.of_nat (length (out ++ [b])) = Z.of_nat (length out) + 1) as Hl by (rewrite length_app; cbn; lia).
    rewrite wrap_small by (unfold in_uint; lia). destruct (Z.leb_spec most (Z.of_nat (length (out ++ [b])))).
    + intros [= <-]. lia.
    + apply IH. lia.
Qed.

Lemma range_length peer from to max bs :
  0 < max < 2 ^ 32 -> request_blocks_by_height_range peer from to max = Ok bs -> Z.of_nat (length bs) <= max.
Proof.
  intros Hm. unfold request_blocks_by_height_range. destruct (grpc_blocks_by_height _ _); cbn [map_err mbind result_bind]; [|done].
  apply collect_length; [done|cbn; lia].
Qed.

(** The live synchronisation drives the engine as the initial download does, and ends well
    exactly when it does. *)
Lemma sync_loop_engine (fuel : nat) clock fed rt peer from to max :
  0 <= from -> to + max < 2 ^ 64 -> 0 < max < 2 ^ 32 ->
  let out := sync_loop schedule fuel clock fed rt peer from to max in
  let ibd := ibd_loop schedule fuel clock fed (rt_engine rt) peer from to max in
  rt_engine out.2 = ibd.2 /\ is_ok out.1 = is_ok ibd.1.
Proof.
  intros Hfrom Hto Hmax. revert fed rt from Hfrom. induction fuel as [|fuel IH]; intros fed rt from Hfrom; cbn [sync_loop ibd_loop].
  all: destruct (Z.leb_spec from to) as [Hle|Hgt]; [|done].
  1: done.
  rewrite (wrap_small 32 max) by (unfold in_uint; lia).
  destruct (request_blocks_by_height_range peer from to max) as [[|b bs]|e] eqn:Hr; [done| |done].
  pose proof (range_length peer from to max (b :: bs) Hmax Hr) as Hlen.
  pose proof (batch_engine schedule clock fed 0 rt [] (b :: bs) eq_refl) as Hb. rewrite Nat.add_0_r in Hb.
  unfold apply_blocks. destruct (apply_block_batch schedule (fun _ => false) (fun i => clock (fed + i)%nat) 0 rt [] (b :: bs)) as [r rt1].
  destruct (ingest_ibd_batch schedule clock fed (rt_engine rt) (b :: bs)) as [r' e']. cbn [fst snd] in Hb. destruct Hb as [He Hb].
  destruct r as [vs|err].
  - destruct r' as [[]|err']; rewrite Hb; [|done].
    unfold checked_add. rewrite (proj2 (Z.ltb_lt _ _)) by lia. rewrite wrap_small by (unfold in_uint; lia).
    rewrite <-He. apply IH. lia.
  - destruct r' as [[]|err']; [done|]. by destruct (core_is_fatal err).
Qed.
End SyncFacts.

(** * The node's invariant *)

Section Invariant.
Context {X : Externals} {P : PetGraph nat} `{!PetGraphLaws nat} {I : HashIteration} `{!HashIterationLaws}.
Context `{G : PetGraphEdit TransactionHash} `{!PetGraphLaws TransactionHash} `{!PetGraphEditLaws TransactionHash}.
Variable schedule : list nat -> list nat.
Hypothesis schedule_permutes : forall idxs, schedule idxs ≡ₚ idxs.
Implicit Types (rt : ConsensusRuntime MemoryView) (s : EventLoop MemoryView) (l : list Block) (b : Block).

(** The engine represents the chain [l], the pool is consistent, and the last tip the
    subscribers were told of is the tip of [l]. *)
Record runtime_ok rt l : Prop := {
  ro_engine : represents (rt_engine rt) l;
  ro_pool : exists R, pool_ok (rt_mempool rt) R;
  ro_tips h : last (rt_tips rt) = Some h -> exists t, last l = Some t /\ block_hash t = h;
}.

Lemma publish_pool_ok (bs : list Block) p R :
  pool_ok p R -> exists R', pool_ok (foldl (fun pool b => update_on_block pool (transactions b)) p bs) R'.
Proof.
  revert p R. induction bs as [|b bs IH]; intros p R Hp; [by exists R|]. cbn [foldl].
  destruct (pool_step_ok p _ R Hp (step_block p (transactions b))) as [_ [R' Hp']]. by apply (IH _ R').
Qed.

Lemma publish_ok rt l tr :
  represents (rt_engine rt) l -> (exists R, pool_ok (rt_mempool rt) R) ->
  (exists t, last l = Some t /\ block_hash t = (committed_head tr).2) -> runtime_ok (publish_transition rt tr) l.
Proof.
  intros Hr [R Hp] Ht. split; cbn.
  - done.
  - by apply (publish_pool_ok _ _ R).
  - intros h. rewrite last_snoc. by intros [= <-].
Qed.

(** One block through the runtime. *)
Lemma settle_ok rt l b verdict e' :
  runtime_ok rt l -> block_outcome (rt_engine rt) l b (Ok verdict) e' ->
  exists l', runtime_ok (settle (set_engine rt e') verdict).2 l' /\ ledger_work l <= ledger_work l'.
Proof.
  intros [Hr Hp Ht] Ho.
  assert (forall e1, represents e1 l -> runtime_ok (set_engine rt e1) l) as Hkeep by (intros e1 He1; by split).
  destruct verdict as [tr| | | |err|tr]; cbn in Ho |- *.
  - destruct Ho as (R' & Hw & ->). exists (l ++ [b]). split; [|lia]. apply publish_ok; [done..|].
    exists b. split; [by rewrite last_snoc|done].
  - exists l. split; [|lia]. apply Hkeep, Ho.
  - destruct Ho as [-> _]. exists l. split; [|lia]. by apply Hkeep.
  - destruct Ho as [-> _]. exists l. split; [|lia]. by apply Hkeep.
  - subst e'. exists l. split; [|lia]. by apply Hkeep.
  - destruct Ho as (k & bs & Hk & Hl & R' & Hw & ->). eexists. split; [|apply Z.lt_le_incl, Hw]. apply publish_ok; [done..|].
    exists b. split; [by rewrite last_app, Hl|done].
Qed.

Lemma batch_ok cancelled (clock : nat -> result string Z) i rt l verdicts blocks :
  runtime_ok rt l -> all_fresh schedule (rt_engine rt) (timed clock i blocks) ->
  exists l', runtime_ok (apply_block_batch schedule cancelled clock i rt verdicts blocks).2 l' /\ ledger_work l <= ledger_work l'.
Proof.
  revert i rt l verdicts. induction blocks as [|b blocks IH]; intros i rt l verdicts Hok Hf; cbn [apply_block_batch].
  - exists l. split; [done|lia].
  - destruct (cancelled i); [exists l; split; [done|lia]|].
    rewrite timed_cons in Hf. destruct Hf as (Hty & Hfresh & Hf).
    pose proof (on_block_outcome schedule (clock i) schedule_permutes (rt_engine rt) l b (ro_engine _ _ Hok) Hty
      (Hfresh l (ro_engine _ _ Hok))) as Ho.
    destruct (on_block schedule (clock i) b (rt_engine rt)) as [[verdict|err] e']; cbn [fst snd] in *.
    2: { destruct Ho as [-> _]. exists l. split; [|lia]. destruct Hok. by split. }
    destruct (settle_ok rt l b verdict e' Hok Ho) as (l1 & Hok1 & Hw1).
    pose proof (settle_engine (set_engine rt e') verdict) as He.
    destruct (settle (set_engine rt e') verdict) as [outcome rt1]. cbn [fst snd rt_engine set_engine] in *.
    destruct (is_rejected outcome); [exists l1; split; done|].
    destruct (IH (Datatypes.S i) rt1 l1 (verdicts ++ [outcome]) Hok1) as (l' & Hok' & Hw'); [by rewrite He|].
    exists l'. split; [done|lia].
Qed.

Lemma apply_blocks_ok stopping cancelled clock rt l blocks :
  runtime_ok rt l -> all_fresh schedule (rt_engine rt) (timed clock 0 blocks) ->
  exists l', runtime_ok (apply_blocks schedule stopping cancelled clock rt blocks).2 l' /\ ledger_work l <= ledger_work l'.
Proof.
  intros Hok Hf. unfold apply_blocks. destruct stopping; [exists l; split; [done|lia]|].
  destruct (batch_ok cancelled clock 0 rt l [] blocks Hok Hf) as (l' & Hok' & Hw).
  exists l'. split; [|done]. destruct (apply_block_batch _ _ _ _ _ _ _) as [[vs|err] rt1]; cbn [snd] in *; [done|].
  destruct (core_is_fatal err); [|done]. by destruct Hok'.
Qed.

(** What is asked of the events: blocks of machine size whose outputs are new where they
    attach, and transactions that do not spend their own outputs. *)
Definition event_fine s (event : NodeEvent) : Prop :=
  match event with
  | MinedBlock _ now b | NewBlock _ now b =>
      all_fresh schedule (rt_engine (el_runtime s)) [(now, b)]
  | NewTransaction _ _ tx => no_self_spend tx
  | SyncBatch _ _ clock blocks => all_fresh schedule (rt_engine (el_runtime s)) (timed clock 0 blocks)
  | _ => True
  end.

Fixpoint events_fine s (events : list NodeEvent) : Prop :=
  match events with
  | [] => True
  | event :: events => event_fine s event /\ events_fine (node_step schedule s event) events
  end.

Lemma announce_tip_runtime s : el_runtime (announce_tip s) = el_runtime s.
Proof. unfold announce_tip. by destruct (build_tip_announcement _). Qed.

Lemma single_block_ok stopping now rt l b :
  runtime_ok rt l -> all_fresh schedule (rt_engine rt) [(now, b)] ->
  exists l', runtime_ok (runtime_apply_block schedule stopping (fun _ => false) (fun _ => now) rt b).2 l' /\
    ledger_work l <= ledger_work l'.
Proof.
  intros Hok Hf. destruct (apply_blocks_ok stopping (fun _ => false) (fun _ => now) rt l [b] Hok Hf) as (l' & Hok' & Hw).
  exists l'. split; [|done]. unfold runtime_apply_block.
  by destruct (apply_blocks schedule stopping (fun _ => false) (fun _ => now) rt [b]).
Qed.

Lemma node_step_ok s l event :
  runtime_ok (el_runtime s) l -> event_fine s event ->
  exists l', runtime_ok (el_runtime (node_step schedule s event)) l' /\ ledger_work l <= ledger_work l'.
Proof.
  intros Hok Hf. assert (exists l', runtime_ok (el_runtime s) l' /\ ledger_work l <= ledger_work l') as Hsame
    by (exists l; split; [done|lia]).
  destruct event as [|stopping now b|stopping now b|lookup now tx|ann|stopping cancelled clock blocks|]; cbn [node_step].
  - unfold on_heartbeat. destruct (build_tip_announcement _) as [ann|]; [|done]. by case_bool_decide.
  - destruct (single_block_ok stopping now _ l b Hok Hf) as (l' & Hok' & Hw). exists l'. split; [|done]. unfold on_mined_block.
    destruct (runtime_apply_block _ _ _ _ _ _) as [[[v|]|err] rt]; try done.
    destruct (is_tip_change v); [|done]. destruct (is_reorganization v); [|done]. by rewrite announce_tip_runtime.
  - destruct (single_block_ok stopping now _ l b Hok Hf) as (l' & Hok' & Hw). exists l'. split; [|done]. unfold on_new_block.
    destruct (runtime_apply_block _ _ _ _ _ _) as [[[v|]|err] rt]; try done.
    destruct (is_reorganization v), (should_relay v); cbn [send el_runtime]; rewrite ?announce_tip_runtime; done.
  - unfold on_new_transaction. destruct (add_transaction _ _ _ _) as [pool|err] eqn:Hadd; [|done].
    exists l. split; [|lia]. destruct Hok as [Hr [R Hp] Ht]. split; cbn; [done| |done].
    apply (pool_step_ok _ _ R Hp (step_add _ _ _ _ _ Hf Hadd)).
  - unfold on_chain_tip. destruct (_ <=? _); [done|]. by destruct (el_syncing s).
  - unfold on_sync_batch. destruct (el_syncing s); [|done].
    destruct (apply_blocks_ok stopping cancelled clock _ l blocks Hok Hf) as (l' & Hok' & Hw). exists l'. split; [|done].
    destruct (apply_blocks _ _ _ _ _ _) as [[vs|err] rt]; cbn [snd] in *; [|done]. by destruct (existsb _ _).
  - done.
Qed.
End Invariant.

(** * What a batch does *)

Section BatchExact.
Context {X : Externals} {P : PetGraph nat} {I : HashIteration} `{!HashIterationLaws}.
Context `{G : PetGraphEdit TransactionHash} `{!PetGraphLaws TransactionHash} `{!PetGraphEditLaws TransactionHash}.
Variable schedule : list nat -> list nat.
Implicit Types (rt : ConsensusRuntime MemoryView) (p : MemPool).

Definition transition_of (verdict : ConsensusVerdict) : list CommittedTransition :=
  match verdict with Applied t | CausedReorganization t => [t] | _ => [] end.

(** The transitions committed while some blocks are fed. *)
Fixpoint committed (e : Engine MemoryView) (incoming : list (result string Z * Block)) : list CommittedTransition :=
  match incoming with
  | [] => []
  | (now, b) :: incoming =>
      let out := on_block schedule now b e in
      match out.1 with Ok verdict => transition_of verdict | Err _ => [] end ++ committed out.2 incoming
  end.

(** The transactions of the blocks some transitions attached. *)
Definition confirmed (transitions : list CommittedTransition) : list TransactionHash :=
  (fun t => tx_hash (tx_data t)) <$> ((transitions ≫= attached) ≫= transactions).

(** What is left of the pool's transactions without some of them. *)
Definition unconfirmed (hashes : list TransactionHash) p : gmap TransactionHash MemPoolTx :=
  filter (fun kv => kv.1 ∉ hashes) (mp_txs (mp_storage p)).

Lemma filter_twice (m : gmap TransactionHash MemPoolTx) l1 l2 :
  filter (fun kv => kv.1 ∉ l2) (filter (fun kv => kv.1 ∉ l1) m) = filter (fun kv => kv.1 ∉ l1 ++ l2) m.
Proof.
  apply map_eq. intros k. apply option_eq. intros v. rewrite !map_lookup_filter_Some. cbn. rewrite elem_of_app. tauto.
Qed.

Lemma publish_exact (bs : list Block) p R :
  pool_ok p R ->
  mp_txs (mp_storage (foldl (fun pool b => update_on_block pool (transactions b)) p bs)) =
    unconfirmed ((fun t => tx_hash (tx_data t)) <$> (bs ≫= transactions)) p.
Proof.
  unfold unconfirmed. revert p R. induction bs as [|b bs IH]; intros p R Hp; cbn [foldl].
  - cbn. symmetry. apply map_filter_id. intros k v _. cbn. apply not_elem_of_nil.
  - destruct (pool_step_ok p _ R Hp (step_block p (transactions b))) as [_ [R' Hp']].
    rewrite (IH _ R' Hp'), (update_on_block_exact p R (transactions b) Hp), filter_twice.
    cbn [mbind list_bind]. by rewrite fmap_app.
Qed.

Lemma settle_exact rt verdict R :
  pool_ok (rt_mempool rt) R ->
  mp_txs (mp_storage (rt_mempool (settle rt verdict).2)) = unconfirmed (confirmed (transition_of verdict)) (rt_mempool rt) /\
  rt_tips (settle rt verdict).2 = rt_tips rt ++ ((fun t => (committed_head t).2) <$> transition_of verdict) /\
  rt_failed (settle rt verdict).2 = rt_failed rt /\
  exists R', pool_ok (rt_mempool (settle rt verdict).2) R'.
Proof.
  intros Hp. assert (mp_txs (mp_storage (rt_mempool rt)) = unconfirmed (confirmed []) (rt_mempool rt)) as Hnone.
  { symmetry. apply map_filter_id. intros k v _. cbn. apply not_elem_of_nil. }
  destruct verdict as [tr| | | |err|tr]; cbn [settle transition_of fst snd publish_transition rt_mempool rt_tips rt_failed].
  2, 3, 4, 5: rewrite app_nil_r; split_and!; [done..|by exists R].
  all: split_and!; [|done|done|by apply (publish_pool_ok _ _ R)].
  all: rewrite (publish_exact _ _ R Hp); unfold confirmed; cbn [mbind list_bind]; by rewrite app_nil_r.
Qed.

Lemma committed_cons e now b incoming verdict e' :
  on_block schedule now b e = (Ok verdict, e') ->
  committed e ((now, b) :: incoming) = transition_of verdict ++ committed e' incoming.
Proof. intros Hon. cbn [committed]. by rewrite Hon. Qed.

(** The whole effect of a batch whose result is a list of outcomes. *)
Record batch_effect (cancelled : nat -> bool) (clock : nat -> result string Z) (i : nat) rt
    (outcomes : list ConsensusOutcome) (blocks : list Block) rt' : Prop := {
  be_count : (length outcomes <= length blocks)%nat;
  be_engine : rt_engine rt' = feed schedule (rt_engine rt) (timed clock i (take (length outcomes) blocks));
  be_stops : Forall (fun o => is_rejected o = false) (removelast outcomes);
  be_complete : (length outcomes < length blocks)%nat ->
    cancelled (i + length outcomes)%nat = true \/ (exists o, last outcomes = Some o /\ is_rejected o = true);
  be_pool : mp_txs (mp_storage (rt_mempool rt')) =
    unconfirmed (confirmed (committed (rt_engine rt) (timed clock i (take (length outcomes) blocks)))) (rt_mempool rt);
  be_tips : rt_tips rt' = rt_tips rt ++
    ((fun t => (committed_head t).2) <$> committed (rt_engine rt) (timed clock i (take (length outcomes) blocks)));
  be_failed : rt_failed rt' = rt_failed rt;
}.

Lemma batch_effect_nil cancelled clock i rt blocks :
  blocks = [] \/ cancelled i = true -> batch_effect cancelled clock i rt [] blocks rt.
Proof.
  intros Hb. split; cbn [length take timed imap feed removelast committed fmap list_fmap]; try done.
  - lia.
  - destruct Hb as [->|Hc]; [cbn; lia|]. rewrite Nat.add_0_r. by left.
  - symmetry. apply map_filter_id. intros k v _. cbn. apply not_elem_of_nil.
  - by rewrite app_nil_r.
Qed.

Lemma confirmed_app l1 l2 : confirmed (l1 ++ l2) = confirmed l1 ++ confirmed l2.
Proof. unfold confirmed. by rewrite !bind_app, fmap_app. Qed.

(** One more block in front. *)
Lemma batch_effect_cons cancelled clock i rt R b blocks verdict e' outcomes rt' :
  pool_ok (rt_mempool rt) R -> on_block schedule (clock i) b (rt_engine rt) = (Ok verdict, e') ->
  let first := settle (set_engine rt e') verdict in
  (is_rejected first.1 = true /\ outcomes = [] /\ rt' = first.2) \/
  (is_rejected first.1 = false /\ batch_effect cancelled clock (Datatypes.S i) first.2 outcomes blocks rt') ->
  batch_effect cancelled clock i rt (first.1 :: outcomes) (b :: blocks) rt'.
Proof.
  intros Hp Hon first Hrest. pose proof (settle_engine (set_engine rt e') verdict) as He. fold first in He. cbn [rt_engine set_engine] in He.
  destruct (settle_exact (set_engine rt e') verdict R Hp) as (Hpool & Htips & Hfail & _). fold first in Hpool, Htips, Hfail.
  cbn [set_engine rt_tips rt_mempool rt_failed] in Hpool, Htips, Hfail.
  destruct Hrest as [(Hrej & -> & ->)|(Hrej & [Hc Hen Hst Hco Hpo Hti Hfa])].
  - split; cbn [length take removelast]; rewrite ?timed_cons, ?(committed_cons _ _ _ _ _ _ Hon).
    + lia.
    + cbn [feed timed imap]. by rewrite Hon, He.
    + done.
    + intros _. right. by exists first.1.
    + cbn [timed imap committed]. by rewrite app_nil_r.
    + cbn [timed imap committed]. by rewrite app_nil_r.
    + done.
  - split; cbn [length take]; rewrite ?timed_cons, ?(committed_cons _ _ _ _ _ _ Hon).
    + lia.
    + cbn [feed]. by rewrite Hon, Hen, He.
    + destruct outcomes as [|o outcomes]; [done|]. cbn [removelast]. by constructor.
    + intros Hlt. rewrite Nat.add_succ_r. destruct Hco as [Hca|(o & Hl & Ho)]; [lia|by left|]. right.
      exists o. split; [|done]. by destruct outcomes.
    + rewrite Hpo, He, confirmed_app. unfold unconfirmed at 1. rewrite Hpool. unfold unconfirmed. by rewrite filter_twice.
    + rewrite Hti, Htips, He, fmap_app. by rewrite <-app_assoc.
    + by rewrite Hfa.
Qed.

Lemma batch_outcomes cancelled clock i rt R verdicts blocks all rt' :
  pool_ok (rt_mempool rt) R ->
  apply_block_batch schedule cancelled clock i rt verdicts blocks = (Ok all, rt') ->
  exists outcomes, all = verdicts ++ outcomes /\ batch_effect cancelled clock i rt outcomes blocks rt'.
Proof.
  revert i rt R verdicts. induction blocks as [|b blocks IH]; intros i rt R verdicts Hp; cbn [apply_block_batch].
  - intros [= <- <-]. exists []. rewrite app_nil_r. split; [done|]. apply batch_effect_nil. by left.
  - destruct (cancelled i) eqn:Hc.
    { intros [= <- <-]. exists []. rewrite app_nil_r. split; [done|]. apply batch_effect_nil. by right. }
    destruct (on_block schedule (clock i) b (rt_engine rt)) as [[verdict|err] e'] eqn:Hon; [|done].
    pose proof (batch_effect_cons cancelled clock i rt R b blocks verdict e') as Hcons.
    destruct (settle_exact (set_engine rt e') verdict R Hp) as (_ & _ & _ & R1 & Hp1).
    destruct (settle (set_engine rt e') verdict) as [outcome rt1]. cbn [fst snd] in *.
    destruct (is_rejected outcome) eqn:Hr.
    + intros [= <- <-]. exists [outcome]. split; [done|]. apply (Hcons [] rt1 Hp Hon). left. done.
    + intros Hb. destruct (IH _ _ _ _ Hp1 Hb) as (outcomes & -> & He). exists (outcome :: outcomes).
      split; [by rewrite <-app_assoc|]. apply (Hcons outcomes rt' Hp Hon). by right.
Qed.
End BatchExact.

(** * Properties *)

Section RuntimeProperties.
Context {X : Externals} {P : PetGraph nat} `{!PetGraphLaws nat} {I : HashIteration} `{!HashIterationLaws} {PC : Postcard}.
Context `{G : PetGraphEdit TransactionHash} `{!PetGraphLaws TransactionHash} `{!PetGraphEditLaws TransactionHash}.
Variable schedule : list nat -> list nat.
Hypothesis schedule_permutes : forall idxs, schedule idxs ≡ₚ idxs.
Implicit Types (rt : ConsensusRuntime MemoryView) (s : EventLoop MemoryView) (l : list Block) (b : Block).

Lemma batch_failed cancelled clock i rt verdicts blocks :
  rt_failed (apply_block_batch schedule cancelled clock i rt verdicts blocks).2 = rt_failed rt.
Proof.
  revert i rt verdicts. induction blocks as [|b blocks IH]; intros i rt verdicts; cbn [apply_block_batch]; [done|].
  destruct (cancelled i); [done|]. destruct (on_block schedule (clock i) b (rt_engine rt)) as [[verdict|err] e']; [|done].
  assert (rt_failed (settle (set_engine rt e') verdict).2 = rt_failed rt) as Hf by by destruct verdict.
  destruct (settle (set_engine rt e') verdict) as [outcome rt1]. cbn [snd] in Hf.
  destruct (is_rejected outcome); [done|]. by rewrite IH.
Qed.

(** C19: a batch of blocks through the consensus runtime. Its blocks are fed in order, one
    outcome each, until a rejection, a cancellation or the end; the engine is the one that
    feeding those blocks gives; the pool loses exactly the transactions of the blocks
    attached on the way, those of detached blocks not coming back; the subscribers are told
    of each new tip in order; and an engine error marks the storage as failed exactly when
    it is fatal. *)
Theorem apply_blocks_exact cancelled clock rt R blocks :
  pool_ok (rt_mempool rt) R ->
  match apply_blocks schedule false cancelled clock rt blocks with
  | (Ok outcomes, rt') => batch_effect schedule cancelled clock 0 rt outcomes blocks rt'
  | (Err e, rt') => exists err, e = NodeCore err /\ rt_failed rt' = core_is_fatal err || rt_failed rt
  end.
Proof.
  intros Hp. unfold apply_blocks. pose proof (batch_failed cancelled clock 0 rt [] blocks) as Hf.
  destruct (apply_block_batch schedule cancelled clock 0 rt [] blocks) as [[all|err] rt'] eqn:Hb; cbn [snd] in Hf.
  - destruct (batch_outcomes schedule cancelled clock 0 rt R [] blocks all rt' Hp Hb) as (outcomes & -> & He). exact He.
  - exists err. split; [done|]. by destruct (core_is_fatal err).
Qed.

(** C5: The node's invariant, over the in-memory store. Events arrive in any order (blocks
    mined or received, transactions, announced tips, batches of a synchronisation,
    heartbeats), such that every block is of machine size and its outputs are new on the
    chain it attaches to, and no transaction spends an output of its own hash
    ([events_fine]). Then the engine always represents a chain whose work never decreases,
    the pool stays consistent, and the last tip the subscribers were told of is the tip of
    that chain. The conditions are not checked by the code; without the first one a repeated
    payment breaks the engine. *)
Theorem node_invariant s l events :
  runtime_ok (el_runtime s) l -> events_fine schedule s events ->
  exists l', runtime_ok (el_runtime (node_run schedule s events)) l' /\ ledger_work l <= ledger_work l'.
Proof.
  unfold node_run. revert s l. induction events as [|event events IH]; intros s l Hok Hf; cbn [foldl].
  - exists l. split; [done|lia].
  - destruct Hf as [He Hf]. destruct (node_step_ok schedule schedule_permutes s l event Hok He) as (l1 & Hok1 & Hw1).
    destruct (IH _ l1 Hok1 Hf) as (l' & Hok' & Hw'). exists l'. split; [done|lia].
Qed.

(** Synchronising a running node is the initial download with a pool attached: from any
    peer, on the same answers and clock, both leave the same engine and both succeed or
    both fail. *)
Theorem live_sync_matches_ibd clock rt peer from to max :
  0 <= from -> to + max < 2 ^ 64 -> 0 < max < 2 ^ 32 ->
  let out := sync_loop schedule (Z.to_nat (to - from + 1)) clock 0 rt peer from to max in
  let ibd := run_ibd schedule clock (rt_engine rt) peer from to max in
  rt_engine out.2 = ibd.2 /\ is_ok out.1 = is_ok ibd.1.
Proof. intros Hfrom Hto Hmax. by apply sync_loop_engine. Qed.

(** The index of a represented chain has its heaviest block for a tip. *)
Lemma represents_heaviest (e : Engine MemoryView) l : represents e l -> tip_heaviest (chain_index e).
Proof.
  intros R. pose proof (rp_index _ _ R) as Hx. destruct (ic_tip _ _ Hx) as (t & Hl & Ht).
  pose proof (last_lookup_nat _ _ Hl) as Hlt. unfold tip_heaviest. rewrite Ht. split.
  - exists (entry_at l (length l - 1) t). split; [|done || split].
    + cbn [tip_hash]. by apply indexes_entry.
    + done.
    + cbn. apply lookup_lt_Some in Hlt. by rewrite take_ge by lia.
  - intros h en Hen. apply (ic_entries _ _ Hx) in Hen as (i & b & Hi & -> & ->). cbn.
    rewrite <-(take_drop (Datatypes.S i) l) at 2. rewrite ledger_work_app.
    pose proof (ledger_work_bound (drop (Datatypes.S i) l) (Forall_drop _ _ _ (rp_typed _ _ R))). lia.
Qed.

(** A block received from the network whose parent is neither on the selected chain nor
    the tip of a tracked fork is relayed to the other peers, whatever it contains: the
    engine answers Buffered without validating or keeping it, and the loop relays what is
    buffered. *)
Theorem unvalidated_block_relayed s l now b :
  represents (rt_engine (el_runtime s)) l -> is_genesis b = false ->
  block_hash b ∉ (block_hash <$> l) -> previous_block_hash (header b) ∉ (block_hash <$> l) ->
  forks (rt_engine (el_runtime s)) = ∅ ->
  on_new_block schedule s false now b = send s (PublishBlock b).
Proof.
  intros R Hg Hh Hp Hf. set (e := rt_engine (el_runtime s)) in *.
  assert (forall h, h ∉ (block_hash <$> l) -> index_has (chain_index e) h = false) as Hnot.
  { intros h Hn. destruct (index_has (chain_index e) h) eqn:Hi; [|done].
    by apply (indexes_has _ _ _ (rp_index _ _ R)) in Hi. }
  assert (on_block schedule now b e = (Ok Buffered, e)) as Hon.
  { apply (unknown_parent_is_dropped schedule now e b); [done|by apply Hnot| | |by apply Hnot| |].
    - unfold forks_has. apply bool_decide_eq_false. rewrite Hf, lookup_empty. by intros [? [=]].
    - destruct (has_block (forks e) (block_hash b)) eqn:Hb; [|done].
      apply has_block_true in Hb as (tip & entry & He & _). by rewrite Hf, lookup_empty in He.
    - by rewrite Hf.
    - apply (represents_heaviest e l R). }
  unfold on_new_block, runtime_apply_block, apply_blocks. cbn [apply_block_batch]. fold e. rewrite Hon.
  cbn [settle set_engine app is_rejected mbind result_bind head mret result_ret is_reorganization should_relay].
  unfold e. destruct s as [[e1 p tips f] ann sy se]. reflexivity.
Qed.
End RuntimeProperties.

Section RuntimeWitnesses.
Import Toy ListGraph MapOrder ToyPostcard MempoolProps.Examples.

Local Existing Instances externals map_order map_order_laws list_graph list_graph_laws list_graph_edit list_graph_edit_laws postcard.

(** A node at its genesis with an empty pool. *)
Definition runtime_start : ConsensusRuntime MemoryView := mk_ConsensusRuntime run_engine pool_empty [] false.
Definition node_start : EventLoop MemoryView := mk_EventLoop runtime_start None false [].

Lemma pool_empty_ok : exists R, pool_ok (rt_mempool runtime_start) R.
Proof. exists (fun _ _ => False). exact pool_empty_good. Qed.

Lemma runtime_start_ok : runtime_ok runtime_start [toy_genesis].
Proof.
  split.
  - exact run_engine_represents.
  - exact pool_empty_ok.
  - intros h Hh. discriminate Hh.
Qed.

Definition node_events : list NodeEvent :=
  [NewTransaction pool_lookup 1000 pool_parent; TipHeartbeat; NewBlock false (Ok 1900000000) run_first].

Lemma run_first_all_fresh : all_fresh (fun idxs => idxs) run_engine [(Ok 1900000000, run_first)].
Proof. exact (conj run_first_typed (conj run_first_fresh I)). Qed.

Lemma add_keeps_engine (s : EventLoop MemoryView) lookup now tx :
  rt_engine (el_runtime (on_new_transaction s lookup now tx)) = rt_engine (el_runtime s).
Proof. unfold on_new_transaction. by destruct (add_transaction _ _ _ _). Qed.

Lemma heartbeat_keeps_engine (s : EventLoop MemoryView) : rt_engine (el_runtime (on_heartbeat s)) = rt_engine (el_runtime s).
Proof. unfold on_heartbeat. destruct (build_tip_announcement _) as [ann|]; [|done]. by case_bool_decide. Qed.

Lemma node_invariant_witness : exists l',
  runtime_ok (el_runtime (node_run (fun idxs => idxs) node_start node_events)) l' /\ ledger_work [toy_genesis] <= ledger_work l'.
Proof.
  apply (node_invariant (fun idxs => idxs) id_permutes node_start [toy_genesis] node_events runtime_start_ok).
  split; [exact no_self_parent|]. split; [exact I|]. split; [|exact I].
  cbn [event_fine node_step]. rewrite heartbeat_keeps_engine, add_keeps_engine. exact run_first_all_fresh.
Defined.

Lemma apply_blocks_exact_witness : exists R, pool_ok (rt_mempool runtime_start) R /\
  match apply_blocks (fun idxs => idxs) false (fun _ => false) (fun _ => Ok 1900000000) runtime_start [run_first] with
  | (Ok outcomes, rt') =>
      batch_effect (fun idxs => idxs) (fun _ => false) (fun _ => Ok 1900000000) 0 runtime_start outcomes [run_first] rt'
  | (Err e, rt') => exists err, e = NodeCore err /\ rt_failed rt' = core_is_fatal err || rt_failed runtime_start
  end.
Proof.
  destruct pool_empty_ok as [R HR]. exists R. split; [exact HR|].
  pose proof (apply_blocks_exact (fun idxs => idxs) (fun _ => false) (fun _ => Ok 1900000000) runtime_start R [run_first] HR) as Hb.
  exact Hb.
Defined.

Lemma live_sync_matches_ibd_witness :
  let out := sync_loop (fun idxs => idxs) (Z.to_nat (9 - 1 + 1)) (fun _ => Ok 1900000000) 0 runtime_start broken_peer 1 9 5 in
  let ibd := run_ibd (fun idxs => idxs) (fun _ => Ok 1900000000) (rt_engine runtime_start) broken_peer 1 9 5 in
  rt_engine out.2 = ibd.2 /\ is_ok out.1 = is_ok ibd.1.
Proof.
  assert (0 <= 1 /\ 9 + 5 < 2 ^ 64 /\ 0 < 5 < 2 ^ 32) as (Hfrom & Hto & Hmax) by lia.
  pose proof (live_sync_matches_ibd (fun idxs => idxs) (fun _ => Ok 1900000000) runtime_start broken_peer 1 9 5 Hfrom Hto Hmax) as Hs.
  exact Hs.
Defined.

Lemma run_orphan_apart : block_hash run_orphan ∉ (block_hash <$> [toy_genesis]) /\
  previous_block_hash (header run_orphan) ∉ (block_hash <$> [toy_genesis]).
Proof. split; apply (bool_decide_unpack _); vm_compute; exact I. Qed.

Lemma unvalidated_block_relayed_witness :
  on_new_block (fun idxs => idxs) node_start false (Ok 1900000000) run_orphan = send node_start (PublishBlock run_orphan).
Proof.
  exact (unvalidated_block_relayed (fun idxs => idxs) node_start [toy_genesis] (Ok 1900000000) run_orphan
    run_engine_represents eq_refl (proj1 run_orphan_apart) (proj2 run_orphan_apart) eq_refl).
Defined.
End RuntimeWitnesses.
