(* ===== verification/Network.v ===== *)
(** Network: the network manager ([crates/stryi_network]): signed service advertisements, the
    peers it tracks, and its handling of commands and of the events of the swarm. libp2p and
    postcard are third-party and are classes; what the swarm answers is an argument of a step. *)
From S2P Require Import Prelude Bytes Types Externals Petgraph Hashing Work Transactions Blocks MempoolGraph Mempool Engine Runtime.

(** * Third-party interfaces *)

(** libp2p's identities, addresses and signed envelopes. *)
Class Libp2p := {
  PeerId : Type;
  PeerId_eq_dec :: EqDecision PeerId;
  PeerId_countable :: Countable PeerId;
  Multiaddr : Type;
  Multiaddr_eq_dec :: EqDecision Multiaddr;
  Multiaddr_empty : Multiaddr;
  (** ed25519 keys, and the public keys of any kind *)
  Keypair : Type;
  Ed25519Key : Type;
  Ed25519Key_eq_dec :: EqDecision Ed25519Key;
  PublicKey : Type;
  PublicKey_eq_dec :: EqDecision PublicKey;
  keypair_public : Keypair -> Ed25519Key;
  public_of_ed25519 : Ed25519Key -> PublicKey;
  try_into_ed25519 : PublicKey -> option Ed25519Key;
  PeerId_from_public_key : PublicKey -> PeerId;
  SignedEnvelope : Type;
  envelope_new : Keypair -> string -> list byte -> list byte -> result string SignedEnvelope;
  payload_and_signing_key : SignedEnvelope -> string -> list byte -> result string (list byte * PublicKey);
  into_protobuf_encoding : SignedEnvelope -> list byte;
  from_protobuf_encoding : list byte -> result string SignedEnvelope;
}.

(** * Services ([services.rs]) *)

Inductive ServiceTransportSecurity := SecurityNone | TlsServerCert (cert_pem : string).

#[export] Instance ServiceTransportSecurity_eq_dec : EqDecision ServiceTransportSecurity.
Proof. solve_decision. Defined.

Record ServiceRecord `{Libp2p} := mk_ServiceRecord {
  service_address : Multiaddr;
  service_owner : PeerId;
  service_kind : string;
  service_version : Z;
  transport_security : ServiceTransportSecurity;
}.

(** [SignedServiceRecord] wraps its envelope. *)
Record SignedServiceRecord `{Libp2p} := mk_SignedServiceRecord { inner : SignedEnvelope }.

Record ServicesResponse `{Libp2p} := mk_ServicesResponse { response_services : list SignedServiceRecord }.

Inductive ServicesInfoRequest `{Libp2p} :=
| ListServices
| PushServices (services : list SignedServiceRecord).

(** [BroadcastBlock] ([model.rs]) *)
Record BroadcastBlock `{Libp2p} := mk_BroadcastBlock { broadcast_block : Block; origin_peer_id : PeerId }.

Arguments mk_ServiceRecord {_} _ _ _ _ _.
Arguments mk_SignedServiceRecord {_} _.
Arguments mk_ServicesResponse {_} _.
Arguments mk_BroadcastBlock {_} _ _.

(** postcard, for what is signed and what is gossiped. Serializing into a vector can fail. *)
Class NetPostcard `{Libp2p} := {
  postcard_service : ServiceRecord -> result string (list byte);
  postcard_service_from : list byte -> result string ServiceRecord;
  postcard_broadcast : BroadcastBlock -> result string (list byte);
  postcard_broadcast_from : list byte -> result string BroadcastBlock;
  postcard_transaction : Transaction -> result string (list byte);
  postcard_transaction_from : list byte -> result string Transaction;
  postcard_tip : ChainTipAnnouncement -> result string (list byte);
  postcard_tip_from : list byte -> result string ChainTipAnnouncement;
}.

(** [gossipsub::PublishError], with the kind the manager looks at. *)
Inductive PublishError := NoPeersSubscribedToTopic | PublishOther (e : string).

(** [StryiNetworkError]: the variants the modelled code returns. *)
Inductive StryiNetworkError :=
| GossipsubPublish (e : PublishError)
| DecodeGossipsubMessageError (e : string)
| SigningError (e : string)
| NetworkOther (msg : string).

Definition is_gossipsub_insufficient_peers (e : StryiNetworkError) : bool :=
  match e with GossipsubPublish NoPeersSubscribedToTopic => true | _ => false end.

Definition SIGNED_SERVICE_RECORD_DOMAIN : string := "stryichain.service".

(** The multicodec prefix [0x71] and the name. *)
Definition SIGNED_SERVICE_PAYLOAD_TYPE : list byte :=
  Byte.x71 :: Stdlib.Strings.String.list_byte_of_string "stryichain/service".

Section Services.
Context `{NetPostcard}.

(** [SignedServiceRecord::sign] *)
Definition sign_service (peer_keypair : Keypair) (service_record : ServiceRecord) :
    result StryiNetworkError SignedServiceRecord :=
  payload ← map_err NetworkOther (postcard_service service_record);
  envelope ← map_err SigningError
    (envelope_new peer_keypair SIGNED_SERVICE_RECORD_DOMAIN SIGNED_SERVICE_PAYLOAD_TYPE payload);
  mret (mk_SignedServiceRecord envelope).

Definition verify_and_decode (s : SignedServiceRecord) (expected_pk : Ed25519Key) :
    result StryiNetworkError ServiceRecord :=
  found ← map_err (fun e => NetworkOther ("read payload: " +:+ e))
    (payload_and_signing_key (inner s) SIGNED_SERVICE_RECORD_DOMAIN SIGNED_SERVICE_PAYLOAD_TYPE);
  let '(payload, signing_key) := found in
  if negb (bool_decide (try_into_ed25519 signing_key = Some expected_pk))
  then Err (NetworkOther "signing key mismatch")
  else
    rec ← map_err NetworkOther (postcard_service_from payload);
    let expected_peer := PeerId_from_public_key (public_of_ed25519 expected_pk) in
    if negb (bool_decide (service_owner rec = expected_peer)) then Err (NetworkOther "owner PeerId mismatch")
    else mret rec.

Definition filter_verified_records (signed : list SignedServiceRecord) (peer_pk : Ed25519Key) : list ServiceRecord :=
  omap (fun ssr => match verify_and_decode ssr peer_pk with Ok rec => Some rec | Err _ => None end) signed.

(** [impl From<SignedServiceRecord> for Vec<u8>], [impl TryFrom<&[u8]> for SignedServiceRecord] *)
Definition service_to_bytes (s : SignedServiceRecord) : list byte := into_protobuf_encoding (inner s).
Definition service_from_bytes (src : list byte) : result StryiNetworkError SignedServiceRecord :=
  map_err (fun e => NetworkOther ("proto decode: " +:+ e))
    (envelope ← from_protobuf_encoding src; mret (mk_SignedServiceRecord envelope)).
End Services.

(** * Peers ([peer.rs]) *)

(** [SystemTime::now()] is the [now] of each call. *)
Record PeerInfo `{Libp2p} := mk_PeerInfo {
  established_at : option Z;
  last_seen : option Z;
  addresses : list Multiaddr;
  services : list SignedServiceRecord;
  public_key : option PublicKey;
  consecutive_ping_failures : Z;
}.

Arguments mk_PeerInfo {_} _ _ _ _ _ _.

Section Peers.
Context `{Libp2p}.
Implicit Types (p : PeerInfo) (peers : gmap PeerId PeerInfo).

(** [PeerInfo::new_now] *)
Definition new_now (now : Z) (remote : option Multiaddr) : PeerInfo :=
  mk_PeerInfo (Some now) None (option_list remote) [] None 0.

Definition mark_seen (now : Z) p : PeerInfo :=
  mk_PeerInfo (established_at p) (Some now) (addresses p) (services p) (public_key p) (consecutive_ping_failures p).

Definition set_addresses p (addrs : list Multiaddr) : PeerInfo :=
  mk_PeerInfo (established_at p) (last_seen p) addrs (services p) (public_key p) (consecutive_ping_failures p).

Definition add_address p (addr : Multiaddr) : PeerInfo :=
  if bool_decide (addr ∈ addresses p) then p else set_addresses p (addresses p ++ [addr]).

Definition merge_addresses p (addrs : list Multiaddr) : PeerInfo := foldl add_address p addrs.

Definition info_set_signed_services (now : Z) p (signed : list SignedServiceRecord) : PeerInfo :=
  mark_seen now (mk_PeerInfo (established_at p) (last_seen p) (addresses p) signed (public_key p) (consecutive_ping_failures p)).

Definition set_ping_failures p (n : Z) : PeerInfo :=
  mk_PeerInfo (established_at p) (last_seen p) (addresses p) (services p) (public_key p) n.

Definition ping_ok (now : Z) p : PeerInfo := mark_seen now (set_ping_failures p 0).

(** The counter is a [usize]. *)
Definition ping_fail p : PeerInfo := set_ping_failures p (wrap 64 (consecutive_ping_failures p + 1)).

(** [entry(peer).or_insert_with(…)] *)
Definition entry_of (now : Z) peers (peer : PeerId) : PeerInfo := default (new_now now None) (peers !! peer).

Definition upsert_connected (now : Z) peers (peer : PeerId) (remote : Multiaddr) : gmap PeerId PeerInfo :=
  match peers !! peer with
  | Some pi =>
      let pi := add_address pi remote in
      <[peer := mk_PeerInfo (Some (default now (established_at pi))) (last_seen pi) (addresses pi) (services pi)
                  (public_key pi) (consecutive_ping_failures pi)]> peers
  | None => <[peer := new_now now (Some remote)]> peers
  end.

Definition upsert_identify (now : Z) peers (peer : PeerId) (listen_addrs : list Multiaddr) (observed : option Multiaddr)
    (key : PublicKey) : gmap PeerId PeerInfo :=
  let pi := merge_addresses (entry_of now peers peer) listen_addrs in
  let pi := match observed with Some obs => add_address pi obs | None => pi end in
  let pi := match public_key pi with
    | None => mk_PeerInfo (established_at pi) (last_seen pi) (addresses pi) (services pi) (Some key) (consecutive_ping_failures pi)
    | Some _ => pi
    end in
  <[peer := mark_seen now pi]> peers.

Definition MAX_SERVICES : nat := 32.

Definition set_signed_services (now : Z) peers (peer : PeerId) (signed : list SignedServiceRecord) : gmap PeerId PeerInfo :=
  <[peer := info_set_signed_services now (entry_of now peers peer) (take MAX_SERVICES signed)]> peers.

Definition ping_success (now : Z) peers (peer : PeerId) : gmap PeerId PeerInfo :=
  <[peer := ping_ok now (entry_of now peers peer)]> peers.

(** Also the new count. *)
Definition ping_failure (now : Z) peers (peer : PeerId) : gmap PeerId PeerInfo * Z :=
  let pi := ping_fail (entry_of now peers peer) in
  (<[peer := pi]> peers, consecutive_ping_failures pi).
End Peers.

(** * The manager ([manager.rs], [event.rs]) *)

Definition BLOCKS_TOPIC_NAME : string := "stryichain-blocks".
Definition TRANSACTIONS_TOPIC_NAME : string := "stryichain-txs".
Definition TIPS_TOPIC_NAME : string := "stryichain-tips".
Definition MAX_PING_FAILURES : Z := 10.

(** [NetworkEvent] *)
Inductive NetworkEvent `{Libp2p} :=
| NetNewBlock (block : BroadcastBlock)
| NetNewTransaction (tx : Transaction)
| PeerConnected (address : Multiaddr)
| PeerDisconnected (address : Multiaddr)
| NetChainTipAnnounced (announcement : ChainTipAnnouncement) (source : PeerId).

(** [NetworkCommand]: the [respond_to] channel of a command is the number of its caller. *)
Inductive ManagerCommand `{Libp2p} :=
| CmdPublishBlock (block : BroadcastBlock)
| CmdPublishTransaction (transaction : Transaction)
| CmdQueryPeersWithService (service : string)
| CmdQueryPeerPublicKey (peer : PeerId)
| CmdAddService (service : ServiceRecord)
| CmdFetchMempoolState
| CmdPublishChainTip (announcement : ChainTipAnnouncement)
| CmdRefreshPeerServices (peer : PeerId).

(** What a caller is answered. *)
Inductive Answer `{Libp2p} :=
| AnswerDone (r : result StryiNetworkError unit)
| AnswerPeers (found : list (PeerId * ServiceRecord))
| AnswerKey (key : option PublicKey)
| AnswerMempool (r : result StryiNetworkError MemPoolSyncData)
| AnswerRefreshed.

(** [libp2p::core::ConnectedPoint] *)
Inductive ConnectedPoint `{Libp2p} :=
| Dialer (address : Multiaddr)
| Listener (send_back_addr : Multiaddr).

(** The swarm events the manager handles; the others are only logged. *)
Inductive SwarmEvent `{Libp2p} :=
| ConnectionEstablished (peer_id : PeerId) (endpoint : ConnectedPoint) (num_established : Z)
| ConnectionClosed (peer_id : PeerId) (endpoint : ConnectedPoint) (num_established : Z)
| MempoolRequestReceived (channel : Z)
| MempoolResponseReceived (request_id : Z) (sync_data : MemPoolSyncData)
| MempoolOutboundFailure (request_id : Z) (error : string)
| ServicesRequestReceived (peer : PeerId) (channel : Z) (request : ServicesInfoRequest)
| ServicesResponseReceived (peer : PeerId) (response : ServicesResponse)
| GossipsubMessage (propagation_source : PeerId) (source : option PeerId) (topic : string) (data : list byte)
| PingEvent (peer : PeerId) (ping : result string unit)
| IdentifyReceived (peer_id : PeerId) (listen_addrs : list Multiaddr) (observed_addr : Multiaddr) (public_key : PublicKey)
| OtherEvent.

(** What the manager does to the outside: events to its subscribers, requests, responses and
    disconnections through the swarm, messages handed to gossipsub, answers to callers. *)
Inductive Output `{Libp2p} :=
| Emit (event : NetworkEvent)
| SendServicesRequest (peer : PeerId) (request : ServicesInfoRequest)
| SendMempoolRequest (peer : PeerId) (request_id : Z)
| RespondServices (channel : Z) (response : ServicesResponse)
| RespondMempool (channel : Z) (state : MemPoolSyncData)
| DisconnectPeer (peer : PeerId)
| Gossip (topic : string) (data : list byte)
| Respond (caller : Z) (answer : Answer).

(** The state of the manager: its identity, [own_services_registry], [connected_peers] and the
    fetches whose request is on its way, by request, with the caller of each. *)
Record StryiNetworkManager `{Libp2p} := mk_StryiNetworkManager {
  manager_keypair : Keypair;
  own_services : list SignedServiceRecord;
  connected_peers : gmap PeerId PeerInfo;
  pending_fetches : gmap Z Z;
}.
Arguments mk_StryiNetworkManager {_} _ _ _ _.

(** What a step finds outside: the clock, the shared pool, gossipsub's answer to a publication,
    the number of the next outbound request, and the random choice of a peer. *)
Record Outside `{Libp2p} {X : Externals} {G : PetGraph TransactionHash} {GE : PetGraphEdit TransactionHash} := mk_Outside {
  now : Z;
  shared_pool : MemPool;
  publish : string -> list byte -> result PublishError unit;
  next_request : Z;
  choose : list PeerId -> option PeerId;
}.
Arguments now {_ _ _ _} _.
Arguments shared_pool {_ _ _ _} _.
Arguments publish {_ _ _ _} _.
Arguments next_request {_ _ _ _} _.
Arguments choose {_ _ _ _} _.

Section Manager.
Context {X : Externals} {I : HashIteration} `{GE : PetGraphEdit TransactionHash} {L : Libp2p} {PN : NetPostcard}.
Implicit Types (n : StryiNetworkManager) (w : Outside) (peers : gmap PeerId PeerInfo).

(** ** Commands *)

Definition set_peers n peers : StryiNetworkManager :=
  mk_StryiNetworkManager (manager_keypair n) (own_services n) peers (pending_fetches n).

Definition set_pending n (pending : gmap Z Z) : StryiNetworkManager :=
  mk_StryiNetworkManager (manager_keypair n) (own_services n) (connected_peers n) pending.

(** [PeerId::from(key.public())] *)
Definition manager_peer_id n : PeerId := PeerId_from_public_key (public_of_ed25519 (keypair_public (manager_keypair n))).

(** The records of one peer: only a peer whose ed25519 key is known can be verified. *)
Definition peer_services (service : string) (entry : PeerId * PeerInfo) : list (PeerId * ServiceRecord) :=
  match public_key entry.2 with
  | None => []
  | Some pk_generic =>
      match try_into_ed25519 pk_generic with
      | None => []
      | Some pk_ed =>
          (fun svc => (entry.1, svc)) <$>
            filter (fun svc => service_kind svc = service) (filter_verified_records (services entry.2) pk_ed)
      end
  end.

(** The answer to [QueryPeersWithService]. *)
Definition query_peers n (service : string) : list (PeerId * ServiceRecord) :=
  mjoin (peer_services service <$> hash_iter (connected_peers n)) ++
  ((fun svc => (manager_peer_id n, svc)) <$>
     filter (fun svc => service_kind svc = service)
       (filter_verified_records (own_services n) (keypair_public (manager_keypair n)))).

(** [push_services_to_peers] *)
Definition push_services_to_peers (peers : list PeerId) (services : list SignedServiceRecord) : list Output :=
  (fun peer => SendServicesRequest peer (PushServices services)) <$> peers.

(** Handing an encoded message to gossipsub. [when_alone] is the result without subscribers
    when no peer is connected. *)
Definition gossip n w (topic : string) (when_alone : result StryiNetworkError unit) (encoded : list byte) :
    result StryiNetworkError unit :=
  match publish w topic encoded with
  | Ok _ => Ok tt
  | Err NoPeersSubscribedToTopic =>
      if bool_decide (connected_peers n = ∅) then when_alone else Err (GossipsubPublish NoPeersSubscribedToTopic)
  | Err e => Err (GossipsubPublish e)
  end.

(** The three publishing commands. *)
Definition publish_command n w (topic what : string) (when_alone : result StryiNetworkError unit)
    (encoded : result string (list byte)) (caller : Z) : list Output :=
  match encoded with
  | Ok encoded => [Gossip topic encoded; Respond caller (AnswerDone (gossip n w topic when_alone encoded))]
  | Err e => [Respond caller (AnswerDone (Err (NetworkOther ("encode " +:+ what +:+ ": " +:+ e))))]
  end.

(** The command branch of [run_loop]. *)
Definition handle_command n w (caller : Z) (command : ManagerCommand) : StryiNetworkManager * list Output :=
  match command with
  | CmdQueryPeersWithService service => (n, [Respond caller (AnswerPeers (query_peers n service))])
  | CmdAddService service =>
      match sign_service (manager_keypair n) service with
      | Ok signed_service =>
          let own := own_services n ++ [signed_service] in
          (mk_StryiNetworkManager (manager_keypair n) own (connected_peers n) (pending_fetches n),
           push_services_to_peers (hash_iter (connected_peers n)).*1 own ++ [Respond caller (AnswerDone (Ok tt))])
      | Err e => (n, [Respond caller (AnswerDone (Err e))])
      end
  | CmdQueryPeerPublicKey peer =>
      (n, [Respond caller (AnswerKey (info ← connected_peers n !! peer; public_key info))])
  | CmdPublishBlock block =>
      (n, publish_command n w BLOCKS_TOPIC_NAME "block" (Ok tt) (postcard_broadcast block) caller)
  | CmdPublishTransaction tx =>
      (n, publish_command n w TRANSACTIONS_TOPIC_NAME "transaction" (Ok tt) (postcard_transaction tx) caller)
  | CmdPublishChainTip announcement =>
      (n, publish_command n w TIPS_TOPIC_NAME "chain tip" (Err (GossipsubPublish NoPeersSubscribedToTopic))
            (postcard_tip announcement) caller)
  | CmdFetchMempoolState =>
      match choose w (hash_iter (connected_peers n)).*1 with
      | Some peer_id =>
          (set_pending n (<[next_request w := caller]> (pending_fetches n)), [SendMempoolRequest peer_id (next_request w)])
      | None =>
          (n, [Respond caller (AnswerMempool (Err (NetworkOther "No connected peers available for mempool sync")))])
      end
  | CmdRefreshPeerServices peer =>
      (n, (if bool_decide (is_Some (connected_peers n !! peer)) then [SendServicesRequest peer ListServices] else [])
            ++ [Respond caller AnswerRefreshed])
  end.

(** ** Events of the swarm *)

Definition remote_addr_from_endpoint (endpoint : ConnectedPoint) : Multiaddr :=
  match endpoint with Dialer address => address | Listener send_back_addr => send_back_addr end.

Definition last_known_peer_addr (peer : PeerInfo) : option Multiaddr := head (addresses peer).

Definition disconnect_addr_from_endpoint (endpoint : ConnectedPoint) (peer : option PeerInfo) : option Multiaddr :=
  let endpoint_addr := remote_addr_from_endpoint endpoint in
  if negb (bool_decide (endpoint_addr = Multiaddr_empty)) then Some endpoint_addr
  else peer ≫= last_known_peer_addr.

(** [handle_gossipsub_event]: what cannot be decoded is dropped. *)
Definition handle_gossipsub_message (propagation_source : PeerId) (source : option PeerId) (topic : string) (data : list byte) :
    result StryiNetworkError (list Output) :=
  if String.eqb topic TRANSACTIONS_TOPIC_NAME then
    tx ← map_err DecodeGossipsubMessageError (postcard_transaction_from data);
    mret [Emit (NetNewTransaction tx)]
  else if String.eqb topic BLOCKS_TOPIC_NAME then
    broadcast_block ← map_err DecodeGossipsubMessageError (postcard_broadcast_from data);
    mret [Emit (NetNewBlock broadcast_block)]
  else if String.eqb topic TIPS_TOPIC_NAME then
    announcement ← map_err DecodeGossipsubMessageError (postcard_tip_from data);
    mret [Emit (NetChainTipAnnounced announcement (default propagation_source source))]
  else mret [].

(** [handle_services_info_request]; a failure to respond is only logged. *)
Definition handle_services_info_request n w (peer : PeerId) (channel : Z) (request : ServicesInfoRequest) :
    StryiNetworkManager * list Output :=
  let response := RespondServices channel (mk_ServicesResponse (own_services n)) in
  match request with
  | ListServices => (n, [response])
  | PushServices services => (set_peers n (set_signed_services (now w) (connected_peers n) peer services), [response])
  end.

(** [handle_mempool_request] *)
Definition handle_mempool_request w (channel : Z) : list Output :=
  [RespondMempool channel (get_sync_state (now w) (shared_pool w))].

(** The caller waiting for a request is answered once. *)
Definition finish_fetch n (request_id : Z) (answer : result StryiNetworkError MemPoolSyncData) :
    StryiNetworkManager * list Output :=
  match pending_fetches n !! request_id with
  | Some caller => (set_pending n (delete request_id (pending_fetches n)), [Respond caller (AnswerMempool answer)])
  | None => (n, [])
  end.

(** [process_event] *)
Definition process_event n w (event : SwarmEvent) : StryiNetworkManager * list Output :=
  match event with
  | ConnectionEstablished peer_id endpoint num_established =>
      let remote := remote_addr_from_endpoint endpoint in
      (set_peers n (upsert_connected (now w) (connected_peers n) peer_id remote),
       if num_established =? 1 then [Emit (PeerConnected remote)] else [])
  | ConnectionClosed peer_id endpoint num_established =>
      if num_established =? 0 then
        (set_peers n (delete peer_id (connected_peers n)),
         match disconnect_addr_from_endpoint endpoint (connected_peers n !! peer_id) with
         | Some addr => [Emit (PeerDisconnected addr)]
         | None => []
         end)
      else (n, [])
  | MempoolRequestReceived channel => (n, handle_mempool_request w channel)
  | MempoolResponseReceived request_id sync_data => finish_fetch n request_id (Ok sync_data)
  | MempoolOutboundFailure request_id error =>
      finish_fetch n request_id (Err (NetworkOther ("Mempool fetch failed: " +:+ error)))
  | ServicesRequestReceived peer channel request => handle_services_info_request n w peer channel request
  | ServicesResponseReceived peer response =>
      (set_peers n (set_signed_services (now w) (connected_peers n) peer (response_services response)), [])
  | GossipsubMessage propagation_source source topic data =>
      (n, match handle_gossipsub_message propagation_source source topic data with Ok outputs => outputs | Err _ => [] end)
  | PingEvent peer (Ok _) => (set_peers n (ping_success (now w) (connected_peers n) peer), [])
  | PingEvent peer (Err _) =>
      let '(peers, failures) := ping_failure (now w) (connected_peers n) peer in
      (set_peers n peers, if MAX_PING_FAILURES <=? failures then [DisconnectPeer peer] else [])
  | IdentifyReceived peer_id listen_addrs observed_addr key =>
      (set_peers n (upsert_identify (now w) (connected_peers n) peer_id listen_addrs (Some observed_addr) key),
       [SendServicesRequest peer_id ListServices])
  | OtherEvent => (n, [])
  end.

(** ** The loop *)

(** What [select!] takes: [None] when the command channel is closed. *)
Inductive ManagerInput :=
| Cancelled
| CommandReceived (command : option (Z * ManagerCommand))
| SwarmReceived (event : SwarmEvent).

(** [run_loop], with what it does outside, oldest first. *)
Fixpoint run_loop n (inputs : list (Outside * ManagerInput)) : StryiNetworkManager * list Output :=
  match inputs with
  | [] => (n, [])
  | (w, input) :: inputs =>
      match input with
      | Cancelled | CommandReceived None => (n, [])
      | CommandReceived (Some (caller, command)) =>
          let '(n, outputs) := handle_command n w caller command in
          let '(n, later) := run_loop n inputs in
          (n, outputs ++ later)
      | SwarmReceived event =>
          let '(n, outputs) := process_event n w event in
          let '(n, later) := run_loop n inputs in
          (n, outputs ++ later)
      end
  end.

(** [StryiNetworkManager::new] *)
Definition manager_new (keypair : Keypair) : StryiNetworkManager := mk_StryiNetworkManager keypair [] ∅ ∅.
End Manager.

(** [RendezvousMode] and the part of [StryiNetworkManagerConfig] that decides whom to dial. *)
Inductive RendezvousMode := RendezvousServer | RendezvousClient.

Record StryiNetworkManagerConfig := mk_StryiNetworkManagerConfig {
  rendezvous_mode : RendezvousMode;
  listen_addr : string;
  rendezvous_server_addr : option string;
}.

(** The address [StryiNetworkManager::new] dials; [parse] is [str::parse::<Multiaddr>]. *)
Definition rendezvous_dial `{Libp2p} (parse : string -> result string Multiaddr) (config : StryiNetworkManagerConfig) :
    option Multiaddr :=
  match rendezvous_mode config with
  | RendezvousServer => None
  | RendezvousClient =>
      match rendezvous_server_addr config with
      | None => None
      | Some srv_addr =>
          if String.eqb srv_addr "" then None
          else if String.eqb srv_addr (listen_addr config) then None
          else match parse srv_addr with Ok ma => Some ma | Err _ => None end
      end
  end.
