(* ===== verification/NetworkProps.v ===== *)
(** NetworkProps: what the network manager guarantees: services are attributed to the peer
    that signed them, the peer table keeps its bounds and follows the connections, a fetch of
    the pool is answered once, and what one node publishes another receives. *)
From S2P Require Import Prelude Bytes Types Externals Petgraph Hashing Work Transactions Blocks Transition MempoolGraph Mempool Engine Consensus Wire RocksStore Runtime Network.

(** * The behaviour of the third-party code *)

Class Libp2pLaws `{Libp2p} : Prop := {
  envelope_opens kp d t p e :
    envelope_new kp d t p = Ok e -> payload_and_signing_key e d t = Ok (p, public_of_ed25519 (keypair_public kp));
  ed25519_public pk k : try_into_ed25519 pk = Some k <-> pk = public_of_ed25519 k;
  protobuf_roundtrip e : from_protobuf_encoding (into_protobuf_encoding e) = Ok e;
}.

(** Deserialization inverts serialization. *)
Class NetPostcardLaws `{NetPostcard} : Prop := {
  service_inv x b : postcard_service x = Ok b -> postcard_service_from b = Ok x;
  broadcast_inv x b : postcard_broadcast x = Ok b -> postcard_broadcast_from b = Ok x;
  transaction_inv x b : postcard_transaction x = Ok b -> postcard_transaction_from b = Ok x;
  tip_inv x b : postcard_tip x = Ok b -> postcard_tip_from b = Ok x;
}.

Section Signed.
Context `{Libp2pLaws} `{!NetPostcard} `{!NetPostcardLaws}.

Lemma verify_owner s k r :
  verify_and_decode s k = Ok r -> service_owner r = PeerId_from_public_key (public_of_ed25519 k).
Proof.
  unfold verify_and_decode. destruct (payload_and_signing_key _ _ _) as [[payload key]|]; [|done]. cbn [map_err mbind result_bind].
  destruct (negb _); [done|]. intros Hv. res_inv. destruct (negb _) eqn:Ho; [done|]. injection Hv as <-. by bool_inv.
Qed.

(** A service advertisement is bound to its signer. What a node signs survives the wire,
    and verifies under that node's key to the same record when the record names the node as
    its owner, and to no record otherwise; under any other key it is refused. *)
Theorem signed_service_roundtrip kp record s :
  sign_service kp record = Ok s ->
  service_from_bytes (service_to_bytes s) = Ok s /\
  verify_and_decode s (keypair_public kp) =
    (if decide (service_owner record = PeerId_from_public_key (public_of_ed25519 (keypair_public kp)))
     then Ok record else Err (NetworkOther "owner PeerId mismatch")) /\
  (forall pk, pk <> keypair_public kp -> verify_and_decode s pk = Err (NetworkOther "signing key mismatch")).
Proof.
  unfold sign_service. intros Hs. res_inv. split.
  { unfold service_from_bytes, service_to_bytes. cbn [inner]. by rewrite protobuf_roundtrip. }
  match goal with H : postcard_service _ = _ |- _ => apply service_inv in H as Hp end.
  match goal with H : envelope_new _ _ _ _ = _ |- _ => apply envelope_opens in H as He end.
  assert (try_into_ed25519 (public_of_ed25519 (keypair_public kp)) = Some (keypair_public kp)) as Hk by (by apply ed25519_public).
  unfold verify_and_decode. cbn [inner]. rewrite He. cbn [map_err mbind result_bind]. rewrite Hk. split.
  - rewrite bool_decide_eq_true_2 by done. cbn [negb]. rewrite Hp. cbn [map_err mbind result_bind]. case_decide as Ho.
    + by rewrite bool_decide_eq_true_2.
    + by rewrite bool_decide_eq_false_2.
  - intros pk Hpk. rewrite bool_decide_eq_false_2; [done|]. congruence.
Qed.

Lemma elem_of_verified signed k r : r ∈ filter_verified_records signed k <-> exists s, s ∈ signed /\ verify_and_decode s k = Ok r.
Proof.
  unfold filter_verified_records. rewrite list_elem_of_omap. split.
  - intros (s & Hs & Hv). destruct (verify_and_decode s k) eqn:He; simplify_eq. by exists s.
  - intros (s & Hs & Hv). exists s. by rewrite Hv.
Qed.
End Signed.

(** * The peer table *)

Section Peers.
Context `{Libp2p}.
Implicit Types (p : PeerInfo) (peers : gmap PeerId PeerInfo).

(** An entry of the table: its key belongs to the peer, and its lists keep their bounds. *)
Record info_ok (peer : PeerId) (p : PeerInfo) : Prop := {
  io_key pk : public_key p = Some pk -> PeerId_from_public_key pk = peer;
  io_services : (length (services p) <= MAX_SERVICES)%nat;
  io_addresses : NoDup (addresses p);
  io_failures : in_u64 (consecutive_ping_failures p);
}.
Definition peers_ok peers : Prop := map_Forall info_ok peers.

Lemma new_now_ok peer now remote : info_ok peer (new_now now remote).
Proof. split; cbn; [done|unfold MAX_SERVICES; lia|destruct remote; cbn; [apply NoDup_singleton|constructor]|done]. Qed.

Lemma entry_ok peers peer now : peers_ok peers -> info_ok peer (entry_of now peers peer).
Proof. intros Hp. unfold entry_of. destruct (peers !! peer) as [p|] eqn:He; [by apply Hp|apply new_now_ok]. Qed.

Lemma add_address_ok peer p addr : info_ok peer p -> info_ok peer (add_address p addr).
Proof.
  intros []. unfold add_address. case_bool_decide as Ha; [by split|]. split; cbn; try done.
  apply NoDup_app. split_and!; [done|set_solver|apply NoDup_singleton].
Qed.

Lemma merge_addresses_ok peer p addrs : info_ok peer p -> info_ok peer (merge_addresses p addrs).
Proof. unfold merge_addresses. revert p. induction addrs as [|a addrs IH]; intros p Hp; [done|]. by apply IH, add_address_ok. Qed.

Lemma mark_seen_ok peer now p : info_ok peer p -> info_ok peer (mark_seen now p).
Proof. by intros []. Qed.

(** Every operation of the table keeps it well formed. *)
Lemma upsert_connected_ok now peers peer remote : peers_ok peers -> peers_ok (upsert_connected now peers peer remote).
Proof.
  intros Hp. unfold upsert_connected. destruct (peers !! peer) as [p|] eqn:He; apply map_Forall_insert_2; try done; [|apply new_now_ok].
  pose proof (add_address_ok peer p remote (Hp _ _ He)) as []. by split.
Qed.

Lemma upsert_identify_ok now peers peer addrs observed key :
  peers_ok peers -> PeerId_from_public_key key = peer -> peers_ok (upsert_identify now peers peer addrs observed key).
Proof.
  intros Hp Hk. unfold upsert_identify. apply map_Forall_insert_2; [|done]. apply mark_seen_ok.
  pose proof (merge_addresses_ok peer _ addrs (entry_ok peers peer now Hp)) as Hm.
  assert (info_ok peer (match observed with Some obs => add_address (merge_addresses (entry_of now peers peer) addrs) obs
    | None => merge_addresses (entry_of now peers peer) addrs end)) as Ho by (destruct observed; [by apply add_address_ok|done]).
  destruct (public_key _) eqn:Hpk; [done|]. destruct Ho. split; cbn; try done. by intros pk [= <-].
Qed.

Lemma set_signed_services_ok now peers peer signed : peers_ok peers -> peers_ok (set_signed_services now peers peer signed).
Proof.
  intros Hp. apply map_Forall_insert_2; [|done]. pose proof (entry_ok peers peer now Hp) as []. split; try done.
  cbn [services info_set_signed_services mark_seen]. rewrite length_take. lia.
Qed.

Lemma ping_success_ok now peers peer : peers_ok peers -> peers_ok (ping_success now peers peer).
Proof. intros Hp. apply map_Forall_insert_2; [|done]. pose proof (entry_ok peers peer now Hp) as []. by split. Qed.

Lemma ping_failure_ok now peers peer : peers_ok peers -> peers_ok (ping_failure now peers peer).1.
Proof.
  intros Hp. apply map_Forall_insert_2; [|done]. pose proof (entry_ok peers peer now Hp) as []. split; cbn; try done. by apply wrap_range.
Qed.
End Peers.

(** * The manager *)

Section Manager.
Context {X : Externals} {I : HashIteration} `{!HashIterationLaws} `{GE : PetGraphEdit TransactionHash}
  {L : Libp2p} `{!Libp2pLaws} {PN : NetPostcard} `{!NetPostcardLaws}.
Implicit Types (n : StryiNetworkManager) (w : Outside) (inputs : list (Outside * ManagerInput)).

(** The identify protocol reports the key of the peer it talks to. *)
Definition honest_event (event : SwarmEvent) : Prop :=
  match event with IdentifyReceived peer _ _ key => PeerId_from_public_key key = peer | _ => True end.
Definition honest_input (input : ManagerInput) : Prop :=
  match input with SwarmReceived event => honest_event event | _ => True end.

Lemma handle_command_peers n w caller command : connected_peers (handle_command n w caller command).1 = connected_peers n.
Proof.
  destruct command; cbn [handle_command]; try done.
  - by destruct (sign_service _ _).
  - by destruct (choose w _).
Qed.

Lemma process_event_ok n w event :
  peers_ok (connected_peers n) -> honest_event event -> peers_ok (connected_peers (process_event n w event).1).
Proof.
  intros Hp Hh. destruct event as [? ? k|? ? k|?|id ?|id ?|? ? request|? ?|? ? ? ?|? ping|? ? ? ?|]; cbn [process_event honest_event] in *; try done.
  - by apply upsert_connected_ok.
  - destruct (k =? 0); [by apply map_Forall_delete|done].
  - unfold finish_fetch. by destruct (pending_fetches n !! id).
  - unfold finish_fetch. by destruct (pending_fetches n !! id).
  - destruct request; [done|by apply set_signed_services_ok].
  - by apply set_signed_services_ok.
  - destruct ping; [by apply ping_success_ok|]. pose proof (ping_failure_ok (now w) (connected_peers n) peer Hp) as Hf.
    by destruct (ping_failure _ _ _).
  - by apply upsert_identify_ok.
Qed.

(** An invariant of every command and event is one of every run. *)
Lemma run_invariant (J : StryiNetworkManager -> Prop) (Q : Outside -> ManagerInput -> Prop) n inputs :
  (forall n w caller command, J n -> Q w (CommandReceived (Some (caller, command))) -> J (handle_command n w caller command).1) ->
  (forall n w event, J n -> Q w (SwarmReceived event) -> J (process_event n w event).1) ->
  J n -> Forall (fun x => Q x.1 x.2) inputs -> J (run_loop n inputs).1.
Proof.
  intros Hc He Hn Hall. revert n Hn. induction Hall as [|[w input] inputs Hq Hall IH]; intros n Hn; cbn [run_loop fst snd] in *; [done|].
  destruct input as [|[[caller command]|]|event]; try done.
  - pose proof (Hc n w caller command Hn Hq) as Hn'. destruct (handle_command _ _ _ _) as [n' o]. specialize (IH n' Hn').
    by destruct (run_loop n' inputs).
  - pose proof (He n w event Hn Hq) as Hn'. destruct (process_event _ _ _) as [n' o]. specialize (IH n' Hn').
    by destruct (run_loop n' inputs).
Qed.

Lemma run_peers_ok keypair inputs :
  Forall (fun x => honest_input x.2) inputs -> peers_ok (connected_peers (run_loop (manager_new keypair) inputs).1).
Proof.
  intros Hall. apply (run_invariant (fun n => peers_ok (connected_peers n)) (fun _ i => honest_input i)); [| |apply map_Forall_empty|done].
  - intros n w caller command Hn _. by rewrite handle_command_peers.
  - intros n w event Hn Hh. by apply process_event_ok.
Qed.

(** The peer table under any sequence of commands and events: every peer's stored key is
    its own, it keeps at most 32 advertisements, each of its addresses once, and a failure
    count within its machine word, as long as the identify protocol reports true keys. *)
Theorem peer_table_invariant keypair inputs :
  Forall (fun x => honest_input x.2) inputs -> peers_ok (connected_peers (run_loop (manager_new keypair) inputs).1).
Proof. apply run_peers_ok. Qed.

(** ** Queries *)

Lemma elem_of_peer_services service peer info p r :
  (p, r) ∈ peer_services service (peer, info) <->
    p = peer /\ service_kind r = service /\
    exists k s, public_key info = Some (public_of_ed25519 k) /\ s ∈ services info /\ verify_and_decode s k = Ok r.
Proof.
  unfold peer_services. cbn [fst snd]. split.
  - destruct (public_key info) as [pk|]; [|set_solver]. destruct (try_into_ed25519 pk) as [k|] eqn:Hk; [|set_solver].
    apply ed25519_public in Hk as ->. rewrite list_elem_of_fmap. intros (r' & [= -> ->] & [Hkind Hr]%list_elem_of_filter).
    apply elem_of_verified in Hr as (s & Hs & Hv). split_and!; [done..|]. by exists k, s.
  - intros (-> & Hkind & k & s & -> & Hs & Hv). rewrite (proj2 (ed25519_public _ k)) by done.
    apply list_elem_of_fmap. exists r. split; [done|]. apply list_elem_of_filter. split; [done|]. apply elem_of_verified. by exists s.
Qed.

(** A service query is answered exactly. On a well-formed table, a record is listed for a
    peer if and only if it has the kind asked for and a signature of that very peer covers
    it, on an advertisement the peer sent, or one of the node's own; and the record names
    that peer as the owner, so nobody can advertise a service for somebody else. *)
Theorem query_answer_exact n service p r :
  peers_ok (connected_peers n) ->
  (p, r) ∈ query_peers n service <->
    service_kind r = service /\ service_owner r = p /\
    ((exists info k s, connected_peers n !! p = Some info /\ public_key info = Some (public_of_ed25519 k) /\
        s ∈ services info /\ verify_and_decode s k = Ok r) \/
     (p = manager_peer_id n /\ exists s, s ∈ own_services n /\ verify_and_decode s (keypair_public (manager_keypair n)) = Ok r)).
Proof.
  intros Hok. unfold query_peers. rewrite elem_of_app, list_elem_of_join. split.
  - intros [(l & Hp & Hl)|Hown].
    + apply list_elem_of_fmap in Hl as ([peer info] & -> & Hin). apply elem_of_hash_iter in Hin.
      apply elem_of_peer_services in Hp as (-> & Hkind & k & s & Hk & Hs & Hv). split_and!; [done| |left; by exists info, k, s].
      rewrite (verify_owner _ _ _ Hv). exact (io_key _ _ (Hok _ _ Hin) _ Hk).
    + apply list_elem_of_fmap in Hown as (r' & [= -> ->] & [Hkind Hr]%list_elem_of_filter).
      apply elem_of_verified in Hr as (s & Hs & Hv). split_and!; [done|by apply (verify_owner _ _ _ Hv)|right; split; [done|by exists s]].
  - intros (Hkind & Ho & [(info & k & s & Hin & Hk & Hs & Hv)|(-> & s & Hs & Hv)]).
    + left. exists (peer_services service (p, info)). split; [apply elem_of_peer_services; split_and!; [done..|]; by exists k, s|].
      apply list_elem_of_fmap. exists (p, info). split; [done|]. by apply elem_of_hash_iter.
    + right. apply list_elem_of_fmap. exists r. split; [done|]. apply list_elem_of_filter. split; [done|].
      apply elem_of_verified. by exists s.
Qed.

(** ** Fetches of the pool *)

(** How often the caller [c] is answered, has a request on its way, and asks. *)
Definition is_answer (c : Z) (o : Output) : bool :=
  match o with Respond c' (AnswerMempool _) => c' =? c | _ => false end.
Definition answers_to (c : Z) (outputs : list Output) : nat := length (filter (fun o => is_answer c o = true) outputs).
Definition waiting (c : Z) n : nat := size (filter (fun kv => kv.2 = c) (pending_fetches n)).
Definition fetch_of (input : ManagerInput) : option Z :=
  match input with CommandReceived (Some (c, CmdFetchMempoolState)) => Some c | _ => None end.
Definition fetches_by (c : Z) inputs : nat := length (filter (fun x => fetch_of x.2 = Some c) inputs).
Definition fetch_ids inputs : list Z := omap (fun x => _ ← fetch_of x.2; Some (next_request x.1)) inputs.
Definition goes_on (input : ManagerInput) : Prop := input <> Cancelled /\ input <> CommandReceived None.

Lemma answers_app c o1 o2 : answers_to c (o1 ++ o2) = (answers_to c o1 + answers_to c o2)%nat.
Proof. unfold answers_to. by rewrite filter_app, length_app. Qed.

Lemma answers_none c outputs : Forall (fun o => is_answer c o = false) outputs -> answers_to c outputs = 0%nat.
Proof.
  unfold answers_to. induction 1 as [|o l Ho _ IH]; [done|]. rewrite filter_cons_False by (by rewrite Ho). exact IH.
Qed.

Lemma answers_one c caller a : answers_to c [Respond caller (AnswerMempool a)] = if decide (caller = c) then 1%nat else 0%nat.
Proof.
  unfold answers_to. rewrite filter_cons, filter_nil. cbn [is_answer]. destruct (Z.eqb_spec caller c) as [->|Hne].
  - by rewrite !decide_True.
  - by rewrite !decide_False.
Qed.

Lemma waiting_insert c n id caller :
  pending_fetches n !! id = None ->
  waiting c (set_pending n (<[id := caller]> (pending_fetches n))) = (waiting c n + if decide (caller = c) then 1 else 0)%nat.
Proof.
  intros Hid. unfold waiting. cbn [set_pending pending_fetches]. rewrite map_filter_insert. cbn. case_decide.
  - rewrite map_size_insert_None; [lia|]. apply map_lookup_filter_None. by left.
  - rewrite delete_id by done. lia.
Qed.

Lemma waiting_delete c n id caller :
  pending_fetches n !! id = Some caller ->
  (waiting c (set_pending n (delete id (pending_fetches n))) + if decide (caller = c) then 1 else 0)%nat = waiting c n.
Proof.
  intros Hid. unfold waiting. cbn [set_pending pending_fetches]. rewrite map_filter_delete. case_decide as Hc.
  - rewrite map_size_delete_Some by (exists caller; by apply map_lookup_filter_Some).
    assert (size (filter (fun kv => kv.2 = c) (pending_fetches n)) <> 0%nat); [|lia].
    apply map_size_non_empty_iff. intros He. assert (filter (fun kv => kv.2 = c) (pending_fetches n) !! id = Some caller) as Hl by (by apply map_lookup_filter_Some).
    by rewrite He, lookup_empty in Hl.
  - rewrite delete_id; [lia|]. apply map_lookup_filter_None. right. intros x Hx Hxc. cbn in Hxc. congruence.
Qed.

(** One command keeps the balance of a caller. *)
Lemma command_balance n w caller command c :
  pending_fetches n !! next_request w = None \/ fetch_of (CommandReceived (Some (caller, command))) = None ->
  let '(n', outputs) := handle_command n w caller command in
  (answers_to c outputs + waiting c n' = waiting c n + if decide (fetch_of (CommandReceived (Some (caller, command))) = Some c) then 1 else 0)%nat.
Proof.
  intros Hid. destruct command; cbn [handle_command fetch_of];
    try (rewrite decide_False by done; rewrite answers_none by (repeat constructor); cbn; lia).
  - unfold publish_command. destruct (postcard_broadcast _); rewrite decide_False, answers_none by (first [done|repeat constructor]); lia.
  - unfold publish_command. destruct (postcard_transaction _); rewrite decide_False, answers_none by (first [done|repeat constructor]); lia.
  - destruct (sign_service _ _); rewrite decide_False by done; (rewrite answers_none; [cbn; unfold waiting; cbn; lia|]); [|repeat constructor].
    apply Forall_app. split; [|repeat constructor]. apply Forall_fmap, Forall_true. done.
  - destruct Hid as [Hid|Hid]; [|done]. destruct (choose w _) as [peer|].
    + rewrite answers_none, waiting_insert by (first [done|repeat constructor]). cbn. repeat case_decide; simplify_eq; lia.
    + rewrite answers_one. repeat case_decide; simplify_eq; lia.
  - unfold publish_command. destruct (postcard_tip _); rewrite decide_False, answers_none by (first [done|repeat constructor]); lia.
  - rewrite decide_False by done. rewrite answers_none; [lia|]. case_bool_decide; repeat constructor.
Qed.

(** One event too: an answer takes its request out of the table. *)
Lemma event_balance n w event c :
  let '(n', outputs) := process_event n w event in
  (answers_to c outputs + waiting c n' = waiting c n)%nat.
Proof.
  assert (forall id answer, let '(n', outputs) := finish_fetch n id answer in (answers_to c outputs + waiting c n' = waiting c n)%nat) as Hf.
  { intros id answer. unfold finish_fetch. destruct (pending_fetches n !! id) as [caller|] eqn:Hid; [|done].
    pose proof (waiting_delete c n id caller Hid) as Hw. rewrite <-Hw, answers_one. lia. }
  destruct event as [? ? k|? ep k|?|id ?|id ?|? ? request|? ?|src so topic data|? ping|? ? ? ?|]; cbn [process_event]; try apply Hf; try done.
  - rewrite answers_none; [done|]. destruct (k =? 1); repeat constructor.
  - destruct (k =? 0); [|done]. rewrite answers_none; [done|]. destruct (disconnect_addr_from_endpoint _ _); repeat constructor.
  - destruct request; cbn [handle_services_info_request]; by rewrite answers_none by (repeat constructor).
  - rewrite answers_none; [done|]. unfold handle_gossipsub_message.
    repeat case_match; simplify_eq; res_inv; repeat constructor.
  - destruct ping; [done|]. destruct (ping_failure _ _ _) as [ps k]. rewrite answers_none; [done|]. case_match; repeat constructor.
Qed.

Lemma command_ids n w caller command id :
  id ∈ dom (pending_fetches (handle_command n w caller command).1) ->
  id ∈ dom (pending_fetches n) \/ (id = next_request w /\ fetch_of (CommandReceived (Some (caller, command))) = Some caller).
Proof.
  destruct command; cbn [handle_command fetch_of fst]; auto.
  - by destruct (sign_service _ _); auto.
  - destruct (choose w _); cbn [fst set_pending pending_fetches]; [|auto]. rewrite dom_insert_L. set_solver.
Qed.

Lemma event_ids n w event : dom (pending_fetches (process_event n w event).1) ⊆ dom (pending_fetches n).
Proof.
  destruct event as [| ? ? k| |id ?|id ?|? ? request| | |? ping| |]; cbn [process_event fst set_peers pending_fetches]; try done.
  - by destruct (k =? 0).
  - unfold finish_fetch. destruct (pending_fetches n !! id); [cbn; rewrite dom_delete_L; set_solver|done].
  - unfold finish_fetch. destruct (pending_fetches n !! id); [cbn; rewrite dom_delete_L; set_solver|done].
  - by destruct request.
  - destruct ping; [done|]. by destruct (ping_failure _ _ _).
Qed.

Lemma run_balance n inputs c :
  Forall (fun x => goes_on x.2) inputs -> NoDup (fetch_ids inputs) -> (forall id, id ∈ fetch_ids inputs -> id ∉ dom (pending_fetches n)) ->
  let '(n', outputs) := run_loop n inputs in
  (answers_to c outputs + waiting c n' = waiting c n + fetches_by c inputs)%nat.
Proof.
  intros Hall. revert n. induction Hall as [|[w input] inputs [Hc Hn] Hall IH]; intros n Hnd Hfresh; cbn [run_loop].
  { cbn. unfold answers_to. cbn. lia. }
  destruct input as [|[[caller command]|]|event]; try done; clear Hc Hn.
  - assert (fetches_by c ((w, CommandReceived (Some (caller, command))) :: inputs) =
      ((if decide (fetch_of (CommandReceived (Some (caller, command))) = Some c) then 1 else 0) + fetches_by c inputs)%nat) as ->.
    { unfold fetches_by. rewrite filter_cons. cbn [snd]. by case_decide. }
    assert (fetch_ids ((w, CommandReceived (Some (caller, command))) :: inputs) =
      (match fetch_of (CommandReceived (Some (caller, command))) with Some _ => [next_request w] | None => [] end) ++ fetch_ids inputs) as Hids.
    { unfold fetch_ids. cbn [omap list_omap fst snd]. by destruct (fetch_of _). }
    rewrite Hids in Hnd, Hfresh. apply NoDup_app in Hnd as (_ & Hdis & Hnd).
    pose proof (command_balance n w caller command c) as Hb. pose proof (command_ids n w caller command) as Hd.
    assert (pending_fetches n !! next_request w = None \/ fetch_of (CommandReceived (Some (caller, command))) = None) as Hid.
    { destruct (fetch_of _); [left|by right]. apply not_elem_of_dom, Hfresh. set_solver. }
    specialize (Hb Hid). destruct (handle_command n w caller command) as [n1 o1]. cbn [fst] in Hd.
    specialize (IH n1 Hnd). destruct (run_loop n1 inputs) as [n2 o2]. rewrite answers_app. rewrite <-Nat.add_assoc, IH; [lia|].
    intros id Hin Hp. destruct (Hd id Hp) as [Ho|[-> Ho]]; [apply (Hfresh id); [set_solver|done]|].
    rewrite Ho in Hdis. apply (Hdis (next_request w)); [set_solver|done].
  - pose proof (event_balance n w event c) as Hb. pose proof (event_ids n w event) as Hd.
    destruct (process_event n w event) as [n1 o1]. cbn [fst] in Hd. specialize (IH n1 Hnd).
    destruct (run_loop n1 inputs) as [n2 o2]. rewrite answers_app. rewrite <-Nat.add_assoc, IH; [|intros id Hin; specialize (Hfresh id Hin); set_solver].
    assert (fetches_by c ((w, SwarmReceived event) :: inputs) = fetches_by c inputs) as -> by done. lia.
Qed.

(** C35: A fetch of the pool is answered exactly once. In a run from the start in which the
    swarm numbers its requests distinctly, whatever peers do, the answers a caller has got
    plus its requests still on their way are the fetches it asked for: none is lost and none
    is answered twice. The response to a request on its way settles it, the caller gets the
    data of the response; the failure of the request settles it too, the caller gets an error
    with the reason; and either, when it names no request on its way, changes nothing. *)
Theorem fetches_answered_once keypair inputs c :
  Forall (fun x => goes_on x.2) inputs -> NoDup (fetch_ids inputs) ->
  let '(n, outputs) := run_loop (manager_new keypair) inputs in
  (answers_to c outputs + waiting c n = fetches_by c inputs)%nat /\
  forall w id,
    (pending_fetches n !! id = Some c ->
      (forall data, process_event n w (MempoolResponseReceived id data) =
        (set_pending n (delete id (pending_fetches n)), [Respond c (AnswerMempool (Ok data))])) /\
      (forall error, process_event n w (MempoolOutboundFailure id error) =
        (set_pending n (delete id (pending_fetches n)),
         [Respond c (AnswerMempool (Err (NetworkOther ("Mempool fetch failed: " +:+ error))))]))) /\
    (pending_fetches n !! id = None ->
      (forall data, process_event n w (MempoolResponseReceived id data) = (n, [])) /\
      (forall error, process_event n w (MempoolOutboundFailure id error) = (n, []))).
Proof.
  intros Hall Hnd. pose proof (run_balance (manager_new keypair) inputs c Hall Hnd) as Hb.
  destruct (run_loop _ _) as [n outputs]. split.
  - rewrite Hb; [done|]. intros id _. cbn. by rewrite dom_empty_L.
  - intros w id. split; intros Hid; (split; intros x); cbn; unfold finish_fetch; by rewrite Hid.
Qed.

(** ** Gossip *)

(** The command that publishes an event, and the event a receiver is to see. *)
Inductive announces : ManagerCommand -> PeerId -> NetworkEvent -> Prop :=
| announces_block b source : announces (CmdPublishBlock b) source (NetNewBlock b)
| announces_transaction t source : announces (CmdPublishTransaction t) source (NetNewTransaction t)
| announces_tip a source : announces (CmdPublishChainTip a) source (NetChainTipAnnounced a source).

(** What one node publishes another receives. If a publishing command hands a message to
    gossipsub, a manager that gets this message from there emits exactly the published block,
    transaction or tip, with the sender as the source of a tip; and the publisher's caller gets gossipsub's verdict, except that a block
    or a transaction published by a node without any peer counts as done. *)
Theorem gossip_roundtrip n w caller command topic data n' w' relay source event :
  announces command source event -> Gossip topic data ∈ (handle_command n w caller command).2 ->
  process_event n' w' (GossipsubMessage relay (Some source) topic data) = (n', [Emit event]) /\
  (handle_command n w caller command).2 = [Gossip topic data; Respond caller (AnswerDone (
    match publish w topic data with
    | Ok _ => Ok tt
    | Err NoPeersSubscribedToTopic =>
        if bool_decide (connected_peers n = ∅) && negb (String.eqb topic TIPS_TOPIC_NAME) then Ok tt
        else Err (GossipsubPublish NoPeersSubscribedToTopic)
    | Err e => Err (GossipsubPublish e)
    end))].
Proof.
  intros Ha Hin. destruct Ha as [b source|t source|a source]; cbn [handle_command snd] in *; unfold publish_command in *;
    match type of Hin with context [match ?enc with _ => _ end] => destruct enc as [bytes|] eqn:He end;
    repeat (apply elem_of_cons in Hin as [Hin|Hin]; [try discriminate Hin|]); try (by apply not_elem_of_nil in Hin);
    injection Hin as -> ->; unfold gossip; (split; [|destruct (publish w _ bytes) as [|[]]; [done| |done]; by case_bool_decide]);
    unfold process_event, handle_gossipsub_message; cbn [String.eqb Ascii.eqb Bool.eqb BLOCKS_TOPIC_NAME TRANSACTIONS_TOPIC_NAME TIPS_TOPIC_NAME].
  - by rewrite (broadcast_inv _ _ He).
  - by rewrite (transaction_inv _ _ He).
  - by rewrite (tip_inv _ _ He).
Qed.

(** ** Connections *)

(** The peer an event touches without being the news of its connection. *)
Definition about (event : SwarmEvent) : option PeerId :=
  match event with
  | ServicesRequestReceived peer _ (PushServices _) => Some peer
  | ServicesResponseReceived peer _ => Some peer
  | PingEvent peer _ => Some peer
  | IdentifyReceived peer _ _ _ => Some peer
  | _ => None
  end.

(** The peers with an open connection. *)
Definition connect (open : gset PeerId) (input : ManagerInput) : gset PeerId :=
  match input with
  | SwarmReceived (ConnectionEstablished peer _ _) => {[ peer ]} ∪ open
  | SwarmReceived (ConnectionClosed peer _ k) => if k =? 0 then open ∖ {[ peer ]} else open
  | _ => open
  end.

(** Other events concern connected peers. *)
Fixpoint timely (open : gset PeerId) inputs : Prop :=
  match inputs with
  | [] => True
  | (_, input) :: inputs =>
      match input with SwarmReceived event => forall peer, about event = Some peer -> peer ∈ open | _ => True end /\
      timely (connect open input) inputs
  end.

(** The failures of a peer since its last answer to a ping. *)
Definition streak (peer : PeerId) (k : Z) (input : ManagerInput) : Z :=
  match input with
  | SwarmReceived (PingEvent peer' ping) => if decide (peer' = peer) then (match ping with Ok _ => 0 | Err _ => k + 1 end) else k
  | SwarmReceived (ConnectionClosed peer' _ 0) => if decide (peer' = peer) then 0 else k
  | _ => k
  end.

Definition failures_of n (peer : PeerId) : Z := default 0 (consecutive_ping_failures <$> connected_peers n !! peer).

Lemma merge_failures p addrs : consecutive_ping_failures (merge_addresses p addrs) = consecutive_ping_failures p.
Proof.
  unfold merge_addresses. revert p. induction addrs as [|a addrs IH]; intros p; [done|]. cbn [foldl]. rewrite IH.
  unfold add_address. by case_bool_decide.
Qed.

Lemma entry_failures n now peer : consecutive_ping_failures (entry_of now (connected_peers n) peer) = failures_of n peer.
Proof. unfold entry_of, failures_of. by destruct (connected_peers n !! peer). Qed.

(** A table updated at one peer. *)
Lemma failures_insert n peers peer info peer' :
  peers = <[peer := info]> (connected_peers n) ->
  failures_of (set_peers n peers) peer' = if decide (peer = peer') then consecutive_ping_failures info else failures_of n peer'.
Proof.
  intros ->. unfold failures_of. cbn [set_peers connected_peers]. case_decide as Hp; [subst; by rewrite lookup_insert_eq|].
  by rewrite lookup_insert_ne.
Qed.

Lemma event_failures n w event peer :
  0 <= failures_of n peer < 2 ^ 64 - 1 -> failures_of (process_event n w event).1 peer = streak peer (failures_of n peer) (SwarmReceived event).
Proof.
  intros Hk. destruct event as [peer' ep k|peer' ep k|?|id ?|id ?|peer' ? request|peer' r|? ? ? ?|peer' ping|peer' addrs obs key|];
    cbn [process_event fst streak]; try done.
  - unfold upsert_connected. destruct (connected_peers n !! peer') as [info|] eqn:He; erewrite failures_insert by reflexivity; case_decide as Hp; try done; subst.
    + unfold add_address. case_bool_decide; cbn; unfold failures_of; by rewrite He.
    + unfold failures_of. by rewrite He.
  - destruct (Z.eqb_spec k 0) as [->|Hne]; [|destruct k; done]. cbn [fst]. unfold failures_of. cbn [set_peers connected_peers].
    case_decide as Hp; [subst; by rewrite lookup_delete_eq|]. by rewrite lookup_delete_ne.
  - unfold finish_fetch. by destruct (pending_fetches n !! id).
  - unfold finish_fetch. by destruct (pending_fetches n !! id).
  - destruct request; cbn [handle_services_info_request fst]; [done|]. erewrite failures_insert by reflexivity. case_decide; [|done].
    subst. cbn. apply entry_failures.
  - erewrite failures_insert by reflexivity. case_decide; [|done]. subst. cbn. apply entry_failures.
  - destruct ping; cbn [fst].
    + erewrite failures_insert by reflexivity. by case_decide.
    + unfold ping_failure. cbn [fst]. erewrite failures_insert by reflexivity. case_decide; [|done]. subst.
      cbn. rewrite entry_failures. apply wrap_small. unfold in_uint. lia.
  - erewrite failures_insert by reflexivity. case_decide; [|done]. subst.
    set (p := add_address _ _). assert (consecutive_ping_failures p = failures_of n peer) as <-.
    { unfold p, add_address. case_bool_decide; cbn; rewrite merge_failures; apply entry_failures. }
    by destruct (public_key p).
Qed.

Lemma event_dom n w event open :
  dom (connected_peers n) = open -> (forall peer, about event = Some peer -> peer ∈ open) ->
  dom (connected_peers (process_event n w event).1) = connect open (SwarmReceived event).
Proof.
  intros <- Ha. destruct event as [peer' ep k|peer' ep k|?|id ?|id ?|peer' ? request|peer' r|? ? ? ?|peer' ping|peer' addrs obs key|];
    cbn [process_event fst connect about] in *; try done.
  - unfold upsert_connected. destruct (connected_peers n !! peer'); cbn; by rewrite dom_insert_L.
  - destruct (k =? 0); [|done]. cbn. by rewrite dom_delete_L.
  - unfold finish_fetch. by destruct (pending_fetches n !! id).
  - unfold finish_fetch. by destruct (pending_fetches n !! id).
  - destruct request; [done|]. cbn. unfold set_signed_services. rewrite dom_insert_L. specialize (Ha _ eq_refl). set_solver.
  - cbn. unfold set_signed_services. rewrite dom_insert_L. specialize (Ha _ eq_refl). set_solver.
  - specialize (Ha _ eq_refl). destruct ping; cbn; unfold ping_success; rewrite dom_insert_L; set_solver.
  - cbn. unfold upsert_identify. rewrite dom_insert_L. specialize (Ha _ eq_refl). set_solver.
Qed.

Lemma streak_range peer k input : 0 <= k -> 0 <= streak peer k input <= k + 1.
Proof. intros Hk. destruct input as [|?|[]]; cbn [streak]; repeat case_match; lia. Qed.

Lemma run_connections n inputs open peer :
  Forall (fun x => goes_on x.2) inputs -> dom (connected_peers n) = open -> timely open inputs ->
  0 <= failures_of n peer -> failures_of n peer + Z.of_nat (length inputs) < 2 ^ 64 ->
  let n' := (run_loop n inputs).1 in
  dom (connected_peers n') = foldl connect open (snd <$> inputs) /\
  failures_of n' peer = foldl (streak peer) (failures_of n peer) (snd <$> inputs).
Proof.
  intros Hall. revert n open. induction Hall as [|[w input] inputs [Hc Hn] Hall IH]; intros n open Hd Ht Hpos Hlen; [done|].
  cbn [length] in Hlen. destruct Ht as [Ha Ht]. cbn [run_loop fmap list_fmap foldl snd] in *.
  destruct input as [|[[caller command]|]|event]; try done; clear Hc Hn.
  - pose proof (handle_command_peers n w caller command) as Hp. destruct (handle_command n w caller command) as [n1 o1]. cbn [fst] in Hp.
    assert (failures_of n1 peer = failures_of n peer) as Hf by (unfold failures_of; by rewrite Hp).
    specialize (IH n1 open ltac:(by rewrite Hp) Ht ltac:(lia) ltac:(lia)). cbn [connect streak]. rewrite Hf in IH. by destruct (run_loop n1 inputs).
  - pose proof (event_failures n w event peer ltac:(lia)) as Hf. pose proof (event_dom n w event open Hd Ha) as Hd'.
    destruct (process_event n w event) as [n1 o1]. cbn [fst] in Hf, Hd'. pose proof (streak_range peer (failures_of n peer) (SwarmReceived event) Hpos).
    specialize (IH n1 _ Hd' Ht ltac:(lia) ltac:(lia)). rewrite Hf in IH. by destruct (run_loop n1 inputs).
Qed.

(** C34: the peer table follows the connections. In a run from the start in which the swarm
    reports nothing about a peer without a connection, the peers of the table are those with
    an open connection; the failure count of each is the number of its failed pings since the
    last good one; and a failed ping disconnects the peer exactly from the tenth in a row. *)
Theorem peers_follow_connections keypair inputs peer :
  Forall (fun x => goes_on x.2) inputs -> timely ∅ inputs -> Z.of_nat (length inputs) < 2 ^ 64 - 1 ->
  let n := (run_loop (manager_new keypair) inputs).1 in
  let failures := foldl (streak peer) 0 (snd <$> inputs) in
  dom (connected_peers n) = foldl connect ∅ (snd <$> inputs) /\
  failures_of n peer = failures /\
  forall w e, DisconnectPeer peer ∈ (process_event n w (PingEvent peer (Err e))).2 <-> 10 <= failures + 1.
Proof.
  intros Hall Ht Hlen n failures.
  assert (failures_of (manager_new keypair) peer = 0) as Hz by (unfold failures_of; cbn; by rewrite lookup_empty).
  destruct (run_connections (manager_new keypair) inputs ∅ peer Hall) as [Hd Hf]; [cbn; by rewrite dom_empty_L|done|lia|lia|].
  assert (0 <= failures <= Z.of_nat (length inputs)) as Hr.
  { unfold failures. clear. assert (forall k, 0 <= k -> 0 <= foldl (streak peer) k (snd <$> inputs) <= k + Z.of_nat (length inputs)) as Hg; [|apply (Hg 0); lia].
    induction inputs as [|[w i] l IH]; intros k Hk; cbn [fmap list_fmap foldl length snd]; [lia|].
    pose proof (streak_range peer k i Hk). specialize (IH (streak peer k i)). lia. }
  split_and!; [done|done|]. intros w e. cbn [process_event]. unfold ping_failure. cbn [snd].
  change (connected_peers n) with (connected_peers n). cbn [ping_fail set_ping_failures consecutive_ping_failures].
  rewrite entry_failures. change (failures_of n peer) with (failures_of (run_loop (manager_new keypair) inputs).1 peer). rewrite Hf.
  change (foldl (streak peer) (failures_of (manager_new keypair) peer) (snd <$> inputs)) with failures.
  rewrite wrap_small by (unfold in_uint; lia). unfold MAX_PING_FAILURES. destruct (Z.leb_spec 10 (failures + 1)); split; (set_unfold; naive_solver lia).
Qed.

(** A late event about a peer that is gone brings it back into the table. *)
Lemma late_event_revives_peer n w w' peer endpoint response :
  let closed := (process_event n w (ConnectionClosed peer endpoint 0)).1 in
  connected_peers closed !! peer = None /\
  is_Some (connected_peers (process_event closed w' (ServicesResponseReceived peer response)).1 !! peer).
Proof.
  cbn. split; [by rewrite lookup_delete_eq|]. unfold set_signed_services. rewrite lookup_insert_eq. by eexists.
Qed.
End Manager.

(** * A concrete network *)

Module ToyNetwork.
Import Toy ToyPostcard ToyRocks ListGraph.

(** Numbers as keys; the other kind of public key is on the right. *)
#[export] Instance toy_libp2p : Libp2p := {|
  PeerId := Z;
  Multiaddr := string;
  Multiaddr_empty := "";
  Keypair := Z;
  Ed25519Key := Z;
  PublicKey := Z + Z;
  keypair_public k := k;
  public_of_ed25519 := inl;
  try_into_ed25519 k := match k with inl k => Some k | inr _ => None end;
  PeerId_from_public_key k := match k with inl k => 2 * k | inr k => 2 * k + 1 end;
  SignedEnvelope := Z * string * list byte * list byte;
  envelope_new kp d t p := Ok (kp, d, t, p);
  payload_and_signing_key e d t :=
    if bool_decide (e.1.1.2 = d /\ e.1.2 = t) then Ok (e.2, inl e.1.1.1) else Err "unexpected payload type";
  into_protobuf_encoding := to_bytes;
  from_protobuf_encoding := from_bytes;
|}.

#[export] Instance toy_libp2p_laws : Libp2pLaws.
Proof.
  split.
  - intros kp d t p e [= <-]. cbn. by rewrite bool_decide_eq_true_2.
  - intros [k'|k'] k; cbn; naive_solver.
  - intros e. apply from_to_bytes.
Qed.

#[export] Instance security_countable : Countable ServiceTransportSecurity :=
  inj_countable' (fun s => match s with SecurityNone => None | TlsServerCert c => Some c end)
    (fun o => match o with None => SecurityNone | Some c => TlsServerCert c end) ltac:(by intros []).
#[export] Instance service_eq_dec : EqDecision ServiceRecord.
Proof. solve_decision. Defined.
#[export] Instance service_countable : Countable ServiceRecord :=
  inj_countable' (fun s => (service_address s : string, service_owner s : Z, service_kind s, service_version s, transport_security s))
    (fun '(a, b, c, d, e) => mk_ServiceRecord (a : Multiaddr) (b : PeerId) c d e) ltac:(by intros []).
#[export] Instance broadcast_eq_dec : EqDecision BroadcastBlock.
Proof. solve_decision. Defined.
#[export] Instance broadcast_countable : Countable BroadcastBlock :=
  inj_countable' (fun b => (broadcast_block b, origin_peer_id b : Z)) (fun '(a, b) => mk_BroadcastBlock a (b : PeerId)) ltac:(by intros []).
#[export] Instance tip_eq_dec : EqDecision ChainTipAnnouncement.
Proof. solve_decision. Defined.
#[export] Instance tip_countable : Countable ChainTipAnnouncement :=
  inj_countable' (fun a => (announced_height a, announced_tip a, announced_work a)) (fun '(a, b, c) => mk_ChainTipAnnouncement a b c) ltac:(by intros []).

#[export] Instance toy_net_postcard : NetPostcard := {|
  postcard_service x := Ok (to_bytes x);
  postcard_service_from := from_bytes;
  postcard_broadcast x := Ok (to_bytes x);
  postcard_broadcast_from := from_bytes;
  postcard_transaction x := Ok (to_bytes x);
  postcard_transaction_from := from_bytes;
  postcard_tip x := Ok (to_bytes x);
  postcard_tip_from := from_bytes;
|}.
#[export] Instance toy_net_postcard_laws : NetPostcardLaws.
Proof. split; intros x b [= <-]; apply from_to_bytes. Qed.
End ToyNetwork.

Section NetworkWitnesses.
Import Toy ListGraph MapOrder ToyNetwork.
Local Existing Instances externals map_order map_order_laws list_graph list_graph_laws list_graph_edit list_graph_edit_laws.

Definition outside (t id : Z) : Outside :=
  mk_Outside _ _ _ _ t (MemPool_new MemPoolConfig_default) (fun _ _ => Ok tt) id (fun l => head l).

Definition toy_key (k : Z) : @Keypair toy_libp2p := k.

(** A peer that connects, is identified, and advertises a service of its own and a false one. *)
Definition sync_service : ServiceRecord := mk_ServiceRecord ("/ip4/10.0.0.7" : Multiaddr) (14 : PeerId) "grpc-sync" 1 SecurityNone.
Definition signed (kp : Z) : SignedServiceRecord :=
  match sign_service (toy_key kp) sync_service with Ok s => s | Err _ => mk_SignedServiceRecord ((0, "", [], []) : SignedEnvelope) end.
Definition net_peer : PeerId := 14.
Definition net_inputs : list (Outside * ManagerInput) :=
  [(outside 1 0, SwarmReceived (ConnectionEstablished net_peer (Dialer ("/ip4/10.0.0.7" : Multiaddr)) 1));
   (outside 2 0, SwarmReceived (IdentifyReceived net_peer [] ("/ip4/10.0.0.7" : Multiaddr) (inl 7 : PublicKey)));
   (outside 3 0, SwarmReceived (ServicesResponseReceived net_peer (mk_ServicesResponse [signed 8; signed 7])));
   (outside 4 0, CommandReceived (Some (5, CmdFetchMempoolState)))].
Definition net_manager : StryiNetworkManager := (run_loop (manager_new (toy_key 3)) net_inputs).1.

Lemma signed_service_ok : verify_and_decode (signed 7) (keypair_public (toy_key 7)) = Ok sync_service.
Proof. vm_compute. reflexivity. Qed.

Lemma signed_service_roundtrip_witness : verify_and_decode (signed 7) (keypair_public (toy_key 7)) = Ok sync_service.
Proof. exact (proj1 (proj2 (signed_service_roundtrip (toy_key 7) sync_service (signed 7) eq_refl))). Defined.

Lemma net_honest : Forall (fun x => honest_input x.2) net_inputs.
Proof. repeat constructor. Qed.

Lemma peer_table_invariant_witness : peers_ok (connected_peers net_manager).
Proof. exact (peer_table_invariant (toy_key 3) net_inputs net_honest). Defined.

Definition net_info : PeerInfo := default (new_now 0 None) (connected_peers net_manager !! net_peer).
Lemma net_info_ok : connected_peers net_manager !! net_peer = Some net_info.
Proof. vm_compute. reflexivity. Qed.
Lemma net_info_key : public_key net_info = Some (public_of_ed25519 (keypair_public (toy_key 7))).
Proof. vm_compute. reflexivity. Qed.
Lemma net_info_services : services net_info = [signed 8; signed 7].
Proof. vm_compute. reflexivity. Qed.

Lemma query_answer_exact_witness : (net_peer, sync_service) ∈ query_peers net_manager "grpc-sync".
Proof.
  apply (query_answer_exact net_manager "grpc-sync" net_peer sync_service (run_peers_ok (toy_key 3) net_inputs net_honest)).
  split; [exact eq_refl|]. split; [exact eq_refl|]. left. exists net_info, (keypair_public (toy_key 7)), (signed 7).
  split; [exact net_info_ok|]. split; [exact net_info_key|]. split.
  - rewrite net_info_services. apply list_elem_of_further, list_elem_of_here.
  - exact signed_service_ok.
Defined.

Lemma fetches_answered_once_witness :
  answers_to 5 (run_loop (manager_new (toy_key 3)) net_inputs).2 = 0%nat /\ waiting 5 net_manager = 1%nat.
Proof.
  pose proof (fetches_answered_once (toy_key 3) net_inputs 5) as Hf. unfold net_manager.
  destruct (run_loop _ _) as [n outputs] eqn:Hr. destruct Hf as [Hb _].
  - repeat constructor; discriminate.
  - apply NoDup_singleton.
  - assert (outputs = (run_loop (manager_new (toy_key 3)) net_inputs).2) as Ho by (rewrite Hr; reflexivity).
    assert (answers_to 5 outputs = 0%nat) as Ha by (rewrite Ho; vm_compute; reflexivity).
    cbn [fst snd]. split; [exact Ha|]. rewrite Ha in Hb. exact Hb.
Defined.

Definition net_relay : @PeerId toy_libp2p := 4.
Definition net_tip : ChainTipAnnouncement := mk_ChainTipAnnouncement 7 BlockHash_empty 9.

Lemma gossip_roundtrip_witness :
  exists data, process_event net_manager (outside 1 0) (GossipsubMessage net_relay (Some net_peer) TIPS_TOPIC_NAME data) =
    (net_manager, [Emit (NetChainTipAnnounced net_tip net_peer)]).
Proof.
  exists (ToyPostcard.to_bytes net_tip).
  apply (gossip_roundtrip net_manager (outside 1 0) 5 (CmdPublishChainTip net_tip) TIPS_TOPIC_NAME
    (ToyPostcard.to_bytes net_tip) net_manager (outside 1 0) net_relay net_peer).
  - constructor.
  - apply list_elem_of_here.
Defined.

Lemma peers_follow_connections_witness :
  dom (connected_peers net_manager) = {[ net_peer ]} /\ failures_of net_manager net_peer = 0.
Proof.
  destruct (peers_follow_connections (toy_key 3) net_inputs net_peer) as (Hd & Hf & _).
  - repeat constructor; discriminate.
  - split; [intros peer H; discriminate H|]. split; [intros peer [= <-]; apply (bool_decide_unpack _); vm_compute; exact Logic.I|].
    split; [intros peer [= <-]; apply (bool_decide_unpack _); vm_compute; exact Logic.I|]. split; exact Logic.I.
  - reflexivity.
  - split; [|exact Hf]. unfold net_manager. rewrite Hd. apply (bool_decide_unpack _). vm_compute. exact Logic.I.
Defined.
End NetworkWitnesses.
