(* ===== verification/Http.v ===== *)
(** Http: the HTTP API of a node ([crates/stryi_node/src/http]) and the readiness gate in
    front of it ([middleware/ready.rs]). A handler is a function of the request and of the
    service's state; base64, postcard and serde_json are third-party and are a class. A worker
    thread that panics, tracing and compression are left out. *)
From S2P Require Import Prelude Bytes Types Externals Petgraph Hashing Transactions Blocks Storage Transition MempoolGraph Mempool Engine.
From stdpp Require Import pretty.
From Stdlib Require Import Ascii.
#[local] Open Scope Z_scope.

(** * Third-party interfaces *)

(** The values of serde_json; the numbers of the API are integers. *)
Inductive Json :=
| JNull
| JBool (b : bool)
| JNumber (n : Z)
| JString (s : string)
| JArray (items : list Json)
| JObject (fields : list (string * Json)).

Class HttpCodecs := {
  base64_encode : list byte -> string;
  base64_decode : string -> result string (list byte);
  postcard_tx_from : list byte -> result string Transaction;
  block_to_value : Block -> result string Json;
}.

(** * Errors ([error.rs]) *)

Inductive BadTxReason :=
| Base64Decode | Deserialize | RecoverPublicKey | BadInvalidSignature | InvalidTransaction
| DuplicateTx | BadDoubleSpend | BadInsufficientFee | BadPoolFull.

(** The serialized names: serde's snake case of the variants. *)
Definition reason_name (r : BadTxReason) : string :=
  match r with
  | Base64Decode => "base64_decode"
  | Deserialize => "deserialize"
  | RecoverPublicKey => "recover_public_key"
  | BadInvalidSignature => "invalid_signature"
  | InvalidTransaction => "invalid_transaction"
  | DuplicateTx => "duplicate_tx"
  | BadDoubleSpend => "double_spend"
  | BadInsufficientFee => "insufficient_fee"
  | BadPoolFull => "pool_full"
  end.

Inductive BlockIdentifier := ByHeight (height : Z) | ByHash (hash : BlockHash).

Inductive ResourceKind :=
| ResBlock (identifier : BlockIdentifier)
| ResTransaction (hash : TransactionHash)
| ResAccount (address : AccountAddress)
| ResUtxo (outpoint : OutPoint).

Inductive StryiNodeHttpApiError :=
| BadTransaction (reason : BadTxReason) (message : option string)
| InvalidResourceId (resource_kind requested message : string)
| ResourceNotFound (resource : ResourceKind)
| Unexpected (internal : string).

(** ** Integers in decimal *)

Definition digit_value (c : Ascii.ascii) : option Z :=
  let n := Z.of_nat (Ascii.nat_of_ascii c) - 48 in
  if (0 <=? n) && (n <=? 9) then Some n else None.

Fixpoint parse_digits (acc : Z) (s : string) : option Z :=
  match s with
  | EmptyString => Some acc
  | String c s =>
      d ← digit_value c;
      if acc * 10 + d <? 2 ^ 64 then parse_digits (acc * 10 + d) s else None
  end.

(** [str::parse::<u64>]: digits with an optional plus sign, within range. *)
Definition parse_u64 (s : string) : option Z :=
  match s with
  | EmptyString => None
  | String c rest =>
      if Ascii.eqb c "+"%char then (if String.eqb rest "" then None else parse_digits 0 rest)
      else parse_digits 0 s
  end.

(** [Display] of a [u64]. *)
Definition u64_to_string (n : Z) : string := pretty (Z.to_N n).

(** The texts of the errors that parsing a hash gives. *)
Definition hash_error_text (e : StryiCoreError) : string :=
  match e with
  | InvalidPrefix _ _ => "Unexpected prefix while trying decode hash. Actual : {actual:?}, expected : {expected:?}"
  | InvalidHex _ => "Error while decoding hex value : {0:?}"
  | InvalidLength _ _ => "Unexpected buffer length trying decode hash. Actual : {actual:?}, expected : {expected:?}"
  | e => core_error_text e
  end.

(** [Display] of a storage error. *)
Definition storage_error_text (e : StorageError) : string :=
  match e with
  | UtxoNotFound _ => "UTXO {0:?} not found"
  | BlockNotFound _ => "Block {0} not found"
  | HeightMissing _ => "No block at height {0}"
  | Uninitialized => "Storage is not initialized"
  | InvalidRange _ _ => "Invalid range: start={start}, end={end}"
  | InvalidTransition msg => "Invalid chain transition: " +:+ msg
  | UnsupportedSchema _ => "Unsupported storage schema {0}"
  | Corruption msg => "Storage corruption: " +:+ msg
  | Backend operation source => "Storage operation " +:+ operation +:+ " failed: " +:+ source
  | Commit source => "Storage commit failed: " +:+ source
  | Unhealthy => "Storage stopped after a previous failure"
  end.

(** [Display] of a validation error of the pool. *)
Definition validation_error_text (e : MempoolValidationError) : string :=
  match e with
  | LookupFailed source => "Cannot read transaction inputs: " +:+ storage_error_text source
  | MissingOutPoint _ => "Missing UTXO for outpoint: {0:?}"
  | InsufficientSum _ _ => "Input sum ({inputs}) is smaller than output sum ({outputs})"
  | SignatureFailed text => "Signature verification failed: " +:+ text
  | OwnershipMismatch _ _ _ => "Ownership mismatch on input {input_index}: expected {expected}, got {actual}"
  | InvalidOutpointIndex _ => "Invalid outpoint index: {0:?}"
  | PotentialRbf _ => "Potential RBF transaction"
  | NonPaymentTx _ => "Mempool works only for Payment transactions, not Coinbase/Genesis, transaction hash: {0}"
  end.

Section Errors.
Context {X : Externals}.

(** [Display for BlockIdentifier] *)
Definition identifier_to_string (i : BlockIdentifier) : string :=
  match i with ByHeight h => u64_to_string h | ByHash h => Hash_to_string h end.

(** [ResourceKind::as_str]; an address is shortened to its first seven and last six
    characters. *)
Definition as_str (r : ResourceKind) : string :=
  match r with
  | ResBlock identifier => "Block " +:+ identifier_to_string identifier
  | ResAccount hash =>
      let hash_str := Hash_to_string hash in
      "Account " +:+ str_take hash_str 7 +:+ "..." +:+ str_from hash_str (String.length hash_str - 6)
  | ResTransaction hash => "Transaction " +:+ Hash_to_string hash
  | ResUtxo outpoint => "Utxo " +:+ Hash_to_string (txid outpoint) +:+ ":" +:+ u64_to_string (vout outpoint)
  end.

Definition kind_tag (r : ResourceKind) : string :=
  match r with ResBlock _ => "block" | ResTransaction _ => "transaction" | ResAccount _ => "account" | ResUtxo _ => "utxo" end.

(** [TryFrom<&str> for BlockIdentifier] *)
Definition identifier_try_from (v : string) : result StryiNodeHttpApiError BlockIdentifier :=
  match parse_u64 v with
  | Some height => Ok (ByHeight height)
  | None =>
      match from_hash_string BlockHashKind v with
      | Ok h => Ok (ByHash h)
      | Err _ => Err (InvalidResourceId (as_str (ResBlock (ByHeight 0))) v
                       "Expected block height (u64) or block hash in StryiChain's format (Bx...)")
      end
  end.

(** [into_status_and_json] *)
Definition into_status_and_json (e : StryiNodeHttpApiError) : Z * Json :=
  match e with
  | BadTransaction reason message =>
      (400, JObject [("error", JString "bad_transaction");
                     ("message", JString (default "The transaction is invalid." message));
                     ("details", JObject [("reason", JString (reason_name reason))])])
  | InvalidResourceId resource_kind requested message =>
      (400, JObject [("error", JString "invalid_resource_id"); ("message", JString message);
                     ("details", JObject [("resource", JObject [("kind", JString resource_kind)]);
                                          ("requested", JString requested)])])
  | ResourceNotFound resource =>
      (404, JObject [("error", JString "resource_not_found"); ("message", JString (as_str resource +:+ " was not found."));
                     ("details", JObject [("resource", JObject [("kind", JString (kind_tag resource));
                                                                ("label", JString (as_str resource))])])])
  | Unexpected _ =>
      (500, JObject [("error", JString "unexpected_error"); ("message", JString "An unexpected error occurred.")])
  end.

(** [Display] of an error of the pool. *)
Definition mempool_error_text (e : MemPoolError) : string :=
  match e with
  | PoolFull _ => "Pool is full ({size} transactions)"
  | DuplicateTransaction hash => "Duplicate transaction " +:+ Hash_to_string hash
  | InsufficientFee _ _ => "Insufficient fee (required: {required}, provided: {actual})"
  | DoubleSpend _ => "Double spend detected: outpoint {0:?} is already used in mempool"
  | ValidationError _ => "Cannot validate transaction: {0:?}"
  | MempoolStorage (inl source) => "Storage error: " +:+ storage_error_text source
  | MempoolStorage (inr text) => "Storage error: " +:+ text
  end.

(** [map_mempool] ([tx.rs]) *)
Definition map_mempool (err : MemPoolError) : StryiNodeHttpApiError :=
  match err with
  | DuplicateTransaction _ => BadTransaction DuplicateTx (Some "Such transaction already in mempool")
  | DoubleSpend _ => BadTransaction BadDoubleSpend (Some "Double spend detected: {:?}")
  | PoolFull _ => BadTransaction BadPoolFull (Some "mempool is full")
  | InsufficientFee required actual =>
      BadTransaction BadInsufficientFee
        (Some ("required " +:+ u64_to_string required +:+ ", provided " +:+ u64_to_string actual))
  | ValidationError (SignatureFailed _) => BadTransaction BadInvalidSignature None
  | ValidationError inner => BadTransaction InvalidTransaction (Some (validation_error_text inner))
  | other => Unexpected (mempool_error_text other)
  end.
End Errors.

(** * Answers ([model.rs]) *)

Record NodeStateBody := mk_NodeStateBody {
  ns_chain_name : string;
  ns_api_version : Z;
  ns_height : Z;
  ns_latest_block_hash : string;
  ns_chain_work : Z;
  ns_last_update_time : Z;
}.

Record UtxoEntry := mk_UtxoEntry { ue_txid : TransactionHash; ue_vout : Z; ue_value : Z }.

Record AddressBalanceResponse := mk_AddressBalanceResponse {
  ab_address : string;
  ab_balance : Z;
  ab_utxos : list UtxoEntry;
}.

Record BlockResponse := mk_BlockResponse { br_hash : BlockHash; br_block : Json }.

Inductive TransactionQueryStatus := Pending | Confirmed.
Inductive TransactionKindResponse := KindCoinbase | KindGenesis | KindPayment.

Record OutPointResponse := mk_OutPointResponse { op_txid : TransactionHash; op_vout : Z }.
Record TransactionInputResponse := mk_TransactionInputResponse { ir_previous_output : OutPointResponse; ir_sequence : Z }.
Record TransactionOutputResponse := mk_TransactionOutputResponse { or_value : Z; or_recipient : AccountAddress }.

Record TransactionDataResponse := mk_TransactionDataResponse {
  dr_version : Z;
  dr_kind : TransactionKindResponse;
  dr_inputs : list TransactionInputResponse;
  dr_outputs : list TransactionOutputResponse;
}.

Record TransactionResponse := mk_TransactionResponse { tr_data : TransactionDataResponse; tr_signature : string }.

Record TransactionQueryResponse := mk_TransactionQueryResponse {
  tq_status : TransactionQueryStatus;
  tq_tx_hash : TransactionHash;
  tq_transaction : TransactionResponse;
  tq_block_hash : option BlockHash;
  tq_block_height : option Z;
  tq_tx_index : option Z;
}.

(** The [From] conversions. *)
Definition kind_response (k : TransactionKind) : TransactionKindResponse :=
  match k with Coinbase _ _ => KindCoinbase | Genesis => KindGenesis | Payment => KindPayment end.

Definition outpoint_response (o : OutPoint) : OutPointResponse := mk_OutPointResponse (txid o) (vout o).

Definition input_response (i : TransactionIn) : TransactionInputResponse :=
  mk_TransactionInputResponse (outpoint_response (previous_output i)) (sequence i).

Definition output_response (o : TransactionOut) : TransactionOutputResponse :=
  mk_TransactionOutputResponse (value o) (recipient o).

Definition transaction_response `{HttpCodecs} (t : Transaction) : TransactionResponse :=
  let data := tx_data t in
  mk_TransactionResponse
    (mk_TransactionDataResponse (tx_version data) (kind_response (kind data)) (input_response <$> inputs data)
       (output_response <$> outputs data))
    (base64_encode (arr (signature t))).

(** * The service ([mod.rs]) *)

(** The part of [StryiHttpServiceConfig] that answers show. *)
Record StryiHttpServiceConfig := mk_StryiHttpServiceConfig { http_chain_name : string; http_api_version : Z }.

Section Service.
Context {X : Externals} {I : HashIteration} `{G : PetGraphEdit TransactionHash} {HC : HttpCodecs}.
Context {DB : Type} `{FullNodeStorage DB}.

Record StryiHttpService := mk_StryiHttpService {
  http_config : StryiHttpServiceConfig;
  http_mempool : MemPool;
  http_storage : DB;
}.
Implicit Types (svc : StryiHttpService).

(** A read of the storage whose failure is hidden from the client. *)
Definition internal {A} (r : result StorageError A) : result StryiNodeHttpApiError A :=
  map_err (fun e => Unexpected (storage_error_text e)) r.

(** ** Handlers *)

(** [send_tx] ([tx.rs]): the answer, the pool, and what [TxBroadcaster::publish_tx] hands to
    the network. *)
Definition send_tx (utxo_lookup : UtxoLookup) (now : Z) svc (raw_tx : string) :
    result StryiNodeHttpApiError string * StryiHttpService * list Transaction :=
  match
    raw ← map_err (fun _ => BadTransaction Base64Decode (Some "Cannot decode transaction (base64)")) (base64_decode raw_tx);
    tx ← map_err (fun _ => BadTransaction Deserialize (Some "Cannot deserialize transaction (postcard)")) (postcard_tx_from raw);
    author_verifying_key ← map_err (fun _ => BadTransaction RecoverPublicKey (Some "Cannot recover public key from transaction"))
      (recover_public_key tx);
    _ ← map_err (fun _ => BadTransaction BadInvalidSignature (Some "Invalid transaction signature"))
      (verify_signature tx author_verifying_key);
    pool ← map_err map_mempool (add_transaction utxo_lookup now (http_mempool svc) tx);
    mret (tx, pool)
  with
  | Ok (tx, pool) => (Ok "Transaction accepted", mk_StryiHttpService (http_config svc) pool (http_storage svc), [tx])
  | Err e => (Err e, svc, [])
  end.

(** [get_tx] ([tx.rs]) *)
Definition get_tx svc (hash : string) : result StryiNodeHttpApiError TransactionQueryResponse :=
  tx_hash ← map_err (fun e => InvalidResourceId "transaction" hash (hash_error_text e))
    (from_hash_string TransactionHasher hash);
  view ← internal (db_read (http_storage svc));
  confirmed ← internal (get_transaction view tx_hash);
  match confirmed with
  | Some record =>
      mret (mk_TransactionQueryResponse Confirmed tx_hash (transaction_response (transaction record))
        (Some (location_block_hash (location record))) (Some (location_block_height (location record)))
        (Some (tx_index (location record))))
  | None =>
      match mempool_get_transaction (http_mempool svc) tx_hash with
      | Some tx => mret (mk_TransactionQueryResponse Pending tx_hash (transaction_response tx) None None None)
      | None => Err (ResourceNotFound (ResTransaction tx_hash))
      end
  end.

(** [get_block] ([blocks.rs]) *)
Definition get_block svc (param : string) : result StryiNodeHttpApiError BlockResponse :=
  identifier ←
    match parse_u64 param with
    | Some height => Ok (ByHeight height)
    | None =>
        hash ← map_err (fun e => InvalidResourceId "block" param (hash_error_text e)) (from_hash_string BlockHashKind param);
        mret (ByHash hash)
    end;
  store ← internal (db_read (http_storage svc));
  found ← internal
    match identifier with
    | ByHeight height => get_block_by_height store height
    | ByHash hash => get_block_by_hash store hash
    end;
  block ← ok_or found (ResourceNotFound (ResBlock identifier));
  json ← map_err Unexpected (block_to_value block);
  mret (mk_BlockResponse (match identifier with ByHeight _ => block_hash block | ByHash hash => hash end) json).

(** [get_balance] ([address.rs]) *)
Definition get_balance svc (addr : string) : result StryiNodeHttpApiError AddressBalanceResponse :=
  address ← map_err (fun e => InvalidResourceId "account" addr (hash_error_text e)) (from_hash_string AddressHasher addr);
  view ← internal (db_read (http_storage svc));
  utxo_map ← internal (get_utxos_for_address view address);
  let entries := hash_iter utxo_map in
  mret (mk_AddressBalanceResponse (Hash_to_string address)
    (foldl (fun balance kv => saturating_add 64 balance (utxo_value kv.2)) 0 entries)
    ((fun kv => mk_UtxoEntry (txid kv.1) (vout kv.1) (utxo_value kv.2)) <$> entries)).

(** [get_nodestate] ([misc.rs]): a failure is status 500 without a body. *)
Definition get_nodestate svc : result Z NodeStateBody :=
  state ← map_err (fun _ => 500) (
    view ← db_read (http_storage svc);
    found ← chain_state view;
    ok_or found Uninitialized);
  let '(height, hash) := latest_block state in
  mret (mk_NodeStateBody (http_chain_name (http_config svc)) (http_api_version (http_config svc)) height
    (Hash_to_string hash) (chain_work state) (last_update_time state)).

(** [lookup_mempool_utxos] ([main.rs]): the outputs a pool transaction may spend, from one
    snapshot; missing ones are left out. *)
Definition lookup_mempool_utxos (storage : DB) (outpoints : list OutPoint) : result StorageError (gmap OutPoint UTXO) :=
  view ← db_read storage;
  fold_res (fun utxos outpoint =>
    found ← get_utxo view outpoint;
    mret (match found with Some utxo => <[outpoint := utxo]> utxos | None => utxos end)) ∅ outpoints.
End Service.

Arguments StryiHttpService {_ _} DB.

(** * The readiness gate ([middleware/ready.rs]) *)

(** [ReadyGate::call]: the wrapped service is not called before the flag is set. *)
Definition gate_call {Req Res : Type} (ready : bool) (not_ready : Res) (inner : Req -> Res) (req : Req) : Res :=
  if negb ready then not_ready else inner req.
