(* ===== verification/HttpProps.v ===== *)
(** HttpProps: what the HTTP API answers: identifiers are parsed as they are printed, answers
    about blocks, transactions and balances are those of the selected chain, a transaction is
    accepted exactly when the pool takes it, and the backend makes no difference. *)
From S2P Require Import Prelude Bytes Types Externals Petgraph Hashing Work Transactions Blocks Storage UtxoProcessor Overlay Transition TxIndex Dependencies Validator Engine Consensus MempoolGraph Mempool MempoolFacts MempoolProps Wire Rocks Simulation RocksStore RocksWrites RocksNode Http.
From stdpp Require Import pretty.
#[local] Open Scope Z_scope.

(** * Identifiers *)

Section Decimal.

Lemma parse_digits_range acc s n : 0 <= acc < 2 ^ 64 -> parse_digits acc s = Some n -> in_u64 n.
Proof.
  revert acc. induction s as [|c s IH]; intros acc Hacc; cbn [parse_digits]; [by intros [= <-]|].
  destruct (digit_value c) as [d|] eqn:Hd; cbn [mbind option_bind]; [|done].
  assert (0 <= d) as Hd0 by (unfold digit_value in Hd; destruct (_ && _) eqn:Hb; [|done]; injection Hd as <-; bool_inv; lia).
  destruct (Z.ltb_spec (acc * 10 + d) (2 ^ 64)); [|done]. apply IH. lia.
Qed.

Lemma parse_u64_range s n : parse_u64 s = Some n -> in_u64 n.
Proof.
  unfold parse_u64. destruct s as [|c s]; [done|]. destruct (Ascii.eqb c _); [destruct (String.eqb s ""); [done|]|];
    apply parse_digits_range; lia.
Qed.

Lemma digit_char n : (n < 10)%N -> digit_value (pretty_N_char n) = Some (Z.of_N n).
Proof. intros Hn. destruct n as [|p]; [done|]. do 4 (try destruct p as [p|p|]; try done; try lia). Qed.

Lemma parse_pretty_go x s : (0 < x)%N -> Z.of_N x < 2 ^ 64 ->
  parse_digits 0 (pretty_N_go x s) = parse_digits (Z.of_N x) s.
Proof.
  revert s. induction (N.lt_wf_0 x) as [x _ IH]. intros s Hx Hlt. rewrite pretty_N_go_step by done.
  pose proof (N.div_mod x 10 ltac:(lia)) as Hdm. pose proof (N.mod_lt x 10 ltac:(lia)) as Hm.
  assert (parse_digits (Z.of_N (x / 10)) (String (pretty_N_char (x `mod` 10)) s) = parse_digits (Z.of_N x) s) as Hstep.
  { cbn [parse_digits]. rewrite digit_char by done. cbn [mbind option_bind].
    replace (Z.of_N (x / 10) * 10 + Z.of_N (x `mod` 10)) with (Z.of_N x) by lia.
    by rewrite (proj2 (Z.ltb_lt _ _)) by done. }
  destruct (decide (x / 10 = 0)%N) as [Hz|Hz].
  - rewrite Hz in Hstep |- *. by rewrite pretty_N_go_0.
  - pose proof (N.div_lt x 10 Hx ltac:(lia)) as Hd. set (y := (x / 10)%N) in *. clearbody y.
    rewrite IH; [done|done|lia|lia].
Qed.

(** A number is read back from its digits. *)
Lemma parse_u64_to_string n : in_u64 n -> parse_u64 (u64_to_string n) = Some n.
Proof.
  intros Hn. unfold u64_to_string, pretty, pretty_N. unfold in_uint in Hn. case_decide as Hz.
  { assert (n = 0) as -> by lia. done. }
  assert (parse_digits 0 (pretty_N_go (Z.to_N n) "") = Some n) as Hp
    by (rewrite parse_pretty_go by lia; cbn [parse_digits]; f_equal; lia).
  destruct (pretty_N_go (Z.to_N n) "") as [|c s] eqn:Hs; [cbn in Hp; injection Hp as <-; lia|].
  unfold parse_u64. destruct (Ascii.eqb c _) eqn:Hc; [|done]. apply Ascii.eqb_eq in Hc as ->. by cbn in Hp.
Qed.
End Decimal.

Section Identifiers.
Context {X : Externals} `{!HexLaws}.

Lemma parsed_hash_text {K} (h : Hash K) : from_hash_string K (Hash_to_string h) = Ok h.
Proof.
  unfold from_hash_string, Hash_to_string, starts_with. rewrite Hashing.prefix_app, str_from_app. cbn [negb].
  rewrite hex_decode_encode. cbn [map_err mbind result_bind]. by apply Hash_try_from_Ok.
Qed.

Lemma hash_no_number (h : BlockHash) : parse_u64 (Hash_to_string h) = None.
Proof. done. Qed.

(** An identifier of a block survives its text: the parser gives back the height or the
    hash that was printed, and never takes a hash for a height. *)
Theorem block_identifier_roundtrip i :
  match i with ByHeight h => in_u64 h | ByHash _ => True end -> identifier_try_from (identifier_to_string i) = Ok i.
Proof.
  unfold identifier_try_from. destruct i as [n|h]; cbn [identifier_to_string]; intros Hi.
  - by rewrite parse_u64_to_string.
  - by rewrite hash_no_number, parsed_hash_text.
Qed.
End Identifiers.

(** * Answers about the chain *)

Section Answers.
Context {X : Externals} `{!HexLaws} {I : HashIteration} `{!HashIterationLaws} `{G : PetGraphEdit TransactionHash} {HC : HttpCodecs}.
Implicit Types (svc : StryiHttpService MemoryView) (m : MemoryView) (l : list Block).

(** The answer for a confirmed transaction, and for one of the pool. *)
Definition confirmed_answer (hash : TransactionHash) (c : ConfirmedTransaction) : TransactionQueryResponse :=
  mk_TransactionQueryResponse Confirmed hash (transaction_response (transaction c))
    (Some (location_block_hash (location c))) (Some (location_block_height (location c))) (Some (tx_index (location c))).

Definition pending_answer (hash : TransactionHash) (t : Transaction) : TransactionQueryResponse :=
  mk_TransactionQueryResponse Pending hash (transaction_response t) None None None.

Lemma get_tx_found svc hash r :
  get_transaction (http_storage svc) hash = Ok r ->
  get_tx svc (Hash_to_string hash) =
    match r, mempool_get_transaction (http_mempool svc) hash with
    | Some c, _ => Ok (confirmed_answer hash c)
    | None, Some t => Ok (pending_answer hash t)
    | None, None => Err (ResourceNotFound (ResTransaction hash))
    end.
Proof.
  intros Hr. unfold get_tx. rewrite parsed_hash_text. cbn [map_err mbind result_bind].
  cbn [db_read memory_full_node internal map_err mbind result_bind].
  change (@get_transaction _ _ (http_storage svc) hash) with (get_transaction (http_storage svc) hash).
  cbn [snapshot_read memory_full_node]. rewrite Hr. cbn [internal map_err mbind result_bind].
  destruct r as [c|]; [done|]. by destruct (mempool_get_transaction _ _).
Qed.

(** C26: A query for a transaction is answered exactly. On an in-memory store with any history
    of transitions from an empty one in which no transaction is put on the chain twice and
    the outputs of appended blocks are new, a transaction on the selected chain is reported
    as confirmed, with the block, height and position where it stands; one that is only in
    the pool as pending; and the answer is not found exactly when it is in neither. (When a
    repeated payment is detached again, the index forgets the first one too.) *)
Theorem get_tx_exact svc l hash :
  history (http_storage svc) l ->
  match get_tx svc (Hash_to_string hash) with
  | Ok r =>
      (exists c, confirmed_on l hash c /\ r = confirmed_answer hash c) \/
      ((forall c, ~ confirmed_on l hash c) /\
       exists t, mempool_get_transaction (http_mempool svc) hash = Some t /\ r = pending_answer hash t)
  | Err e =>
      e = ResourceNotFound (ResTransaction hash) /\ (forall c, ~ confirmed_on l hash c) /\
      mempool_get_transaction (http_mempool svc) hash = None
  end.
Proof.
  intros [R Hc]%history_indexed. destruct (get_transaction_total _ _ hash R) as [r Hr].
  rewrite (get_tx_found svc hash r Hr). pose proof (fun c => get_transaction_exact _ l hash c R Hc) as He.
  destruct r as [c|].
  - left. exists c. split; [by apply He|done].
  - assert (forall c, ~ confirmed_on l hash c) as Hno by (intros c Hon; apply He in Hon; congruence).
    destruct (mempool_get_transaction _ _) as [t|]; [|done]. right. split; [done|]. by exists t.
Qed.

(** ** Blocks *)

Lemma memory_block_found m l h :
  refines m l -> in_u64 h -> memory_get_block_by_height m h = Ok (l !! Z.to_nat h).
Proof.
  intros R Hh. pose proof (rf_records _ _ R) as C. unfold memory_get_block_by_height.
  rewrite (rc_heights _ _ C). unfold height_lookup. unfold in_uint in Hh. rewrite decide_True by lia.
  destruct (l !! Z.to_nat h) as [b|] eqn:Hb; [|done]. cbn [fmap option_fmap option_map].
  rewrite (rc_blocks _ _ C) by (by apply (list_elem_of_lookup_2 _ (Z.to_nat h))). done.
Qed.

(** A query for a block is answered exactly: a height gives the block of the selected
    chain there with its hash, or not found beyond the tip; and the hash of a block of the
    chain gives the same answer as its height. *)
Theorem get_block_exact svc l h :
  refines (http_storage svc) l -> in_u64 h ->
  match l !! Z.to_nat h with
  | Some b =>
      get_block svc (u64_to_string h) =
        (json ← map_err Unexpected (block_to_value b); mret (mk_BlockResponse (block_hash b) json)) /\
      get_block svc (Hash_to_string (block_hash b)) = get_block svc (u64_to_string h)
  | None => get_block svc (u64_to_string h) = Err (ResourceNotFound (ResBlock (ByHeight h)))
  end.
Proof.
  intros R Hh. assert (get_block svc (u64_to_string h) =
    (b ← ok_or (l !! Z.to_nat h) (ResourceNotFound (ResBlock (ByHeight h)));
     json ← map_err Unexpected (block_to_value b); mret (mk_BlockResponse (block_hash b) json))) as Hg.
  { unfold get_block. rewrite parse_u64_to_string by done. cbn [mbind result_bind].
    cbn [db_read memory_full_node internal map_err mbind result_bind snapshot_read].
    cbn [get_block_by_height read_blocks memory_read memory_block_storage].
    rewrite (memory_block_found _ _ _ R Hh). done. }
  rewrite Hg. destruct (l !! Z.to_nat h) as [b|] eqn:Hb; [|done]. split; [done|].
  unfold get_block. rewrite hash_no_number, parsed_hash_text. cbn [map_err mbind result_bind mret result_ret].
  cbn [db_read memory_full_node internal map_err mbind result_bind snapshot_read].
  cbn [get_block_by_hash read_blocks memory_read memory_block_storage].
  rewrite (rc_blocks _ _ (rf_records _ _ R)) by (by apply (list_elem_of_lookup_2 _ (Z.to_nat h))). done.
Qed.

(** ** Balances *)

(** What an address owns. *)
Definition owned_by (address : AccountAddress) (view : gmap OutPoint UTXO) : gmap OutPoint UTXO :=
  filter (fun kv => owner kv.2 = address) view.

Lemma saturating_total (entries : list (OutPoint * UTXO)) acc :
  0 <= acc -> Forall (fun kv => 0 <= utxo_value kv.2) entries ->
  foldl (fun balance kv => saturating_add 64 balance (utxo_value kv.2)) (Z.min acc (uint_max 64)) entries =
    Z.min (acc + zsum ((fun kv => utxo_value kv.2) <$> entries)) (uint_max 64).
Proof.
  intros Hacc Hall. revert acc Hacc. induction Hall as [|e entries He Hall IH]; intros acc Hacc; cbn [foldl fmap list_fmap].
  { f_equal. unfold zsum. cbn. lia. }
  rewrite zsum_cons. replace (saturating_add 64 (Z.min acc (uint_max 64)) (utxo_value e.2)) with (Z.min (acc + utxo_value e.2) (uint_max 64)).
  - rewrite IH by lia. f_equal. lia.
  - unfold saturating_add, uint_max. lia.
Qed.

(** A balance is exact. An address is told every unspent output it owns on the selected
    chain, once each, and the sum of their values, up to the largest 64-bit integer. *)
Theorem get_balance_exact svc l address :
  refines (http_storage svc) l -> nonneg_values (ledger_view l) ->
  exists r, get_balance svc (Hash_to_string address) = Ok r /\ ab_address r = Hash_to_string address /\
    ab_balance r = Z.min (total_value (owned_by address (ledger_view l))) (uint_max 64) /\
    ab_utxos r ≡ₚ ((fun kv => mk_UtxoEntry (txid kv.1) (vout kv.1) (utxo_value kv.2)) <$>
                     map_to_list (owned_by address (ledger_view l))).
Proof.
  intros R Hnn. unfold get_balance. rewrite parsed_hash_text. cbn [map_err mbind result_bind].
  cbn [db_read memory_full_node internal map_err mbind result_bind snapshot_read].
  cbn [get_utxos_for_address read_utxos memory_read memory_utxo_storage].
  unfold memory_get_utxos_for_address. cbn [internal map_err mbind result_bind]. rewrite (rf_utxos _ _ R).
  change (filter _ (ledger_view l)) with (owned_by address (ledger_view l)).
  eexists. split; [reflexivity|]. cbn [ab_address ab_balance ab_utxos]. split_and!; [done| |by rewrite hash_iter_perm].
  assert (Forall (fun kv => 0 <= utxo_value kv.2) (hash_iter (owned_by address (ledger_view l)))) as Hall.
  { apply Forall_forall. intros [op u] [Hu _]%elem_of_hash_iter%map_lookup_filter_Some. by apply (Hnn op). }
  pose proof (saturating_total _ 0 (Z.le_refl 0) Hall) as Hs. change (Z.min 0 (uint_max 64)) with 0 in Hs. rewrite Hs.
  f_equal. unfold total_value, map_zsum. rewrite <-list_fmap_compose. by rewrite hash_iter_perm.
Qed.

(** ** Submission *)

Lemma scan_no_lookup s t author utxos inputs acc e :
  fold_res (scan_input s t author utxos) acc inputs <> Err (LookupFailed e).
Proof.
  revert acc. induction inputs as [|i inputs IH]; intros acc; cbn [fold_res]; [done|].
  destruct (scan_input s t author utxos acc i) as [acc'|e'] eqn:Hs; [by apply IH|]. intros [= ->].
  unfold scan_input, resolve_input, ensure, ok_or in Hs.
  repeat (case_match; cbn [mbind result_bind mret result_ret] in Hs; try discriminate Hs).
Qed.

Lemma validate_lookup utxo_lookup t s e :
  (forall ops, exists r, utxo_lookup ops = Ok r) -> mempool_validate utxo_lookup t s <> Err (LookupFailed e).
Proof.
  intros Hl. unfold mempool_validate. destruct (negb _); [done|]. destruct (recover_public_key t); [|done]. cbn [map_err mbind result_bind].
  assert (forall ops, exists u : gmap OutPoint UTXO, (if bool_decide (ops = []) then Ok ∅ else
    map_err (fun err => match err with UtxoNotFound outpoint => MissingOutPoint outpoint | other => LookupFailed other end)
      (utxo_lookup ops)) = Ok u) as Hu.
  { intros ops. destruct (bool_decide _); [by eexists|]. destruct (Hl ops) as [r ->]. by eexists. }
  destruct (Hu (filter (fun op => get_creating_tx s op = None) (spent_outpoints t))) as [u ->]. cbn [mbind result_bind].
  destruct (fold_res _ _ _) as [scan|err] eqn:Hs; cbn [mbind result_bind].
  - repeat case_match; done.
  - intros [= ->]. by apply scan_no_lookup in Hs.
Qed.

(** When the lookup never fails, neither does the pool's own machinery. *)
Lemma add_transaction_reason utxo_lookup now p t e :
  (forall ops, exists r, utxo_lookup ops = Ok r) -> add_transaction utxo_lookup now p t = Err e ->
  (into_status_and_json (map_mempool e)).1 = 400.
Proof.
  intros Hl. unfold add_transaction. destruct (storage_exists _ _); [by intros [= <-]|]. destruct (_ <=? _); [by intros [= <-]|].
  pose proof (validate_lookup utxo_lookup t (mp_storage p)) as Hv.
  destruct (mempool_validate utxo_lookup t (mp_storage p)) as [u|err]; cbn [mbind result_bind].
  2: assert (forall e, err <> LookupFailed e) as Hne by (intros e' ->; by apply (Hv e' Hl)).
  2: destruct err; try (by intros [= <-]); [by destruct (Hne source)|]; cbn [mbind result_bind].
  all: unfold resolve_conflicts; repeat (case_match; cbn [map_err mbind result_bind mret result_ret]; try discriminate; try (by intros [= <-])).
Qed.

Lemma lookup_total m ops : exists r, lookup_mempool_utxos m ops = Ok r.
Proof.
  unfold lookup_mempool_utxos. cbn [db_read memory_full_node mbind result_bind].
  generalize (∅ : gmap OutPoint UTXO) as acc. induction ops as [|op ops IH]; intros acc; cbn [fold_res]; [by eexists|].
  cbn [get_utxo read_utxos snapshot_read memory_full_node memory_read memory_utxo_storage mbind result_bind mret result_ret]. apply IH.
Qed.

Lemma add_transaction_stores utxo_lookup now p t p' :
  add_transaction utxo_lookup now p t = Ok p' -> mempool_get_transaction p' (tx_hash (tx_data t)) = Some t.
Proof.
  unfold add_transaction. destruct (storage_exists _ _); [done|]. destruct (_ <=? _); [done|]. intros Ha.
  apply bind_Ok in Ha as (u & _ & Ha). apply bind_Ok in Ha as (c & _ & Ha). injection Ha as <-.
  unfold mempool_get_transaction, storage_get, storage_insert. cbn. by rewrite lookup_insert_eq.
Qed.

(** C25: a submission is answered truthfully. An accepted transaction is what the request
    encodes, carries a valid signature, has entered the pool and is handed to the network;
    asked about right after, it is pending with the same contents, unless the chain already
    has it. A refused one changes nothing and is not published, and the client is always
    told that the request was bad: reading the chain never fails here. *)
Theorem send_tx_correct svc now raw l :
  refines (http_storage svc) l ->
  let '(answer, svc', published) := send_tx (lookup_mempool_utxos (http_storage svc)) now svc raw in
  match answer with
  | Ok _ => exists bytes t vk,
      base64_decode raw = Ok bytes /\ postcard_tx_from bytes = Ok t /\
      recover_public_key t = Ok vk /\ verify_signature t vk = Ok tt /\ published = [t] /\
      add_transaction (lookup_mempool_utxos (http_storage svc)) now (http_mempool svc) t = Ok (http_mempool svc') /\
      http_storage svc' = http_storage svc /\
      let hash := tx_hash (tx_data t) in
      (get_transaction (http_storage svc) hash = Ok None -> get_tx svc' (Hash_to_string hash) = Ok (pending_answer hash t))
  | Err e => svc' = svc /\ published = [] /\ (into_status_and_json e).1 = 400
  end.
Proof.
  intros R. unfold send_tx.
  destruct (base64_decode raw) as [bytes|] eqn:Hb; cbn [map_err mbind result_bind]; [|done].
  destruct (postcard_tx_from bytes) as [t|] eqn:Ht; cbn [map_err mbind result_bind]; [|done].
  destruct (recover_public_key t) as [vk|] eqn:Hk; cbn [map_err mbind result_bind]; [|done].
  destruct (verify_signature t vk) as [[]|] eqn:Hs; cbn [map_err mbind result_bind]; [|done].
  destruct (add_transaction _ now (http_mempool svc) t) as [pool|e] eqn:Ha; cbn [map_err mbind result_bind mret result_ret].
  - exists bytes, t, vk. split_and!; try done. cbn [http_storage http_mempool]. intros Hn.
    pose proof (add_transaction_stores _ _ _ _ _ Ha) as Hst.
    match goal with |- get_tx ?s _ = _ => rewrite (get_tx_found s (tx_hash (tx_data t)) None Hn) end.
    cbn [http_mempool]. by rewrite Hst.
  - split_and!; [done|done|]. eapply add_transaction_reason; [|exact Ha]. apply lookup_total.
Qed.
End Answers.

(** * The backend makes no difference *)

Section Backends.
Context {X : Externals} {I : HashIteration} `{!HashIterationLaws} {R : RocksDB} {PC : StorePostcard} {RL : RocksDBLaws} `{!StorePostcardLaws}.
Context `{G : PetGraphEdit TransactionHash} {HC : HttpCodecs}.
Implicit Types (svc : StryiHttpService StryiStorage) (m : MemoryView).

(** The same service over another database. *)
Definition over {DB1 DB2} `{FullNodeStorage DB1} `{FullNodeStorage DB2} (svc : StryiHttpService DB1) (d : DB2) : StryiHttpService DB2 :=
  mk_StryiHttpService (http_config svc) (http_mempool svc) d.

(** Status 500: the client learns nothing else. *)
Definition hidden (e : StryiNodeHttpApiError) : Prop := (into_status_and_json e).1 = 500.

Lemma internal_sim {A} (P : A -> A -> Prop) (r1 r2 : result StorageError A) :
  sim fatal P r1 r2 -> sim hidden P (internal r1) (internal r2).
Proof. by apply sim_map_err. Qed.

Lemma same_opt_eq {A} (P : A -> Prop) (bad : StorageError -> Prop) r1 r2 : sim bad (same_opt P) r1 r2 -> sim bad eq r1 r2.
Proof. apply sim_weaken; [done|]. by intros a b [? _]. Qed.

(** Reading a snapshot. *)
Lemma snapshot_sim {A B} svc m (Q : A -> B -> Prop) f g :
  tables_hold (http_storage svc) m ->
  (forall v, view_sim (started_on (reader v)) v m -> sim hidden Q (f v) (g m)) ->
  sim hidden Q (internal (db_read (http_storage svc)) ≫= f) (internal (db_read m) ≫= g).
Proof.
  intros Hh Hf. cbn. unfold storage_read. destruct (failed (http_storage svc)) eqn:Hfl; cbn [internal map_err mbind result_bind].
  - by apply sim_bad.
  - apply Hf. apply (tables_snapshot (http_storage svc)); [done|]. unfold storage_read. by rewrite Hfl.
Qed.

Lemma get_tx_sim svc m q : tables_hold (http_storage svc) m -> sim hidden eq (get_tx svc q) (get_tx (over svc m) q).
Proof.
  intros Hh. unfold get_tx. destruct (from_hash_string TransactionHasher q) as [h|]; [|by left]. cbn [map_err mbind result_bind].
  apply snapshot_sim; [done|]. intros v Hv. eapply sim_bind.
  - apply internal_sim. apply (transaction_read v m h). apply Hv.
  - intros c c' ->. apply sim_refl. apply _.
Qed.

Lemma get_balance_sim svc m q : tables_hold (http_storage svc) m -> sim hidden eq (get_balance svc q) (get_balance (over svc m) q).
Proof.
  intros Hh. unfold get_balance. destruct (from_hash_string AddressHasher q) as [a|]; [|by left]. cbn [map_err mbind result_bind].
  apply snapshot_sim; [done|]. intros v Hv. eapply sim_bind.
  - apply internal_sim. apply (address_utxos_read v m a). apply Hv.
  - intros c c' ->. apply sim_refl. apply _.
Qed.

Lemma get_block_sim svc m q : tables_hold (http_storage svc) m -> sim hidden eq (get_block svc q) (get_block (over svc m) q).
Proof.
  intros Hh. unfold get_block.
  assert (forall i, (match i with ByHeight h => in_u64 h | ByHash _ => True end) ->
    sim hidden eq
      (store ← internal (db_read (http_storage svc));
       found ← internal (match i with ByHeight height => get_block_by_height store height | ByHash hash => get_block_by_hash store hash end);
       block ← ok_or found (ResourceNotFound (ResBlock i));
       json ← map_err Unexpected (block_to_value block);
       mret (mk_BlockResponse (match i with ByHeight _ => block_hash block | ByHash hash => hash end) json))
      (store ← internal (db_read m);
       found ← internal (match i with ByHeight height => get_block_by_height store height | ByHash hash => get_block_by_hash store hash end);
       block ← ok_or found (ResourceNotFound (ResBlock i));
       json ← map_err Unexpected (block_to_value block);
       mret (mk_BlockResponse (match i with ByHeight _ => block_hash block | ByHash hash => hash end) json))) as Hi.
  { intros i Hty. apply snapshot_sim; [done|]. intros v Hv. pose proof (view_reads _ v m Hv) as Hr. eapply sim_bind.
    - apply internal_sim, (same_opt_eq height_typed). destruct i as [h|h]; [by apply (rs_block_at _ _ Hr)|apply (rs_block _ _ Hr)].
    - intros c c' ->. apply sim_refl. apply _. }
  destruct (parse_u64 q) as [h|] eqn:Hq; cbn [mbind result_bind].
  - apply (Hi (ByHeight h)). by apply parse_u64_range in Hq.
  - destruct (from_hash_string BlockHashKind q) as [h|]; [|by left]. by apply (Hi (ByHash h)).
Qed.

Lemma get_nodestate_sim svc m : tables_hold (http_storage svc) m -> sim (eq 500) eq (get_nodestate svc) (get_nodestate (over svc m)).
Proof.
  intros Hh. unfold get_nodestate. apply (sim_bind _ eq); [|intros st st' ->; apply (sim_refl _ eq)].
  apply (sim_map_err fatal); [done|]. apply (sim_bind _ read_sim); [by apply (ns_read _ rocks_node_sim)|]. intros v v' Hv.
  apply (sim_bind _ (same_opt state_typed)); [apply (rs_state _ _ Hv)|]. intros st st' [-> _]. apply (sim_refl _ eq).
Qed.

Lemma lookup_sim svc m ops :
  tables_hold (http_storage svc) m ->
  sim fatal eq (lookup_mempool_utxos (http_storage svc) ops) (lookup_mempool_utxos m ops).
Proof.
  intros Hh. apply (sim_bind _ read_sim); [by apply (ns_read _ rocks_node_sim)|]. intros v v' Hv.
  apply (sim_fold _ eq (fun _ => True)); [|by apply Forall_true|done]. intros a b op _ ->.
  apply (sim_bind _ eq); [apply (rs_utxo _ _ (rs_chain _ _ Hv))|]. intros f f' ->. apply (sim_refl _ eq).
Qed.

Lemma pool_validate_sim (l1 l2 : UtxoLookup) t s :
  (forall ops, sim fatal eq (l1 ops) (l2 ops)) ->
  sim (fun e => exists x, e = LookupFailed x) eq (mempool_validate l1 t s) (mempool_validate l2 t s).
Proof.
  intros Hl. unfold mempool_validate. destruct (negb _); [by left|]. destruct (recover_public_key t); [|by left].
  cbn [map_err mbind result_bind]. apply (sim_bind _ eq); [|intros u u' ->; apply (sim_refl _ eq)].
  destruct (bool_decide _); [done|]. eapply (sim_map_err fatal); [|apply Hl]. intros [] He; try done; by eexists.
Qed.

Lemma add_transaction_sim (l1 l2 : UtxoLookup) now p t :
  (forall ops, sim fatal eq (l1 ops) (l2 ops)) ->
  sim (fun e => hidden (map_mempool e)) eq (add_transaction l1 now p t) (add_transaction l2 now p t).
Proof.
  intros Hl. unfold add_transaction. destruct (storage_exists _ _); [by left|]. destruct (_ <=? _); [by left|].
  apply (sim_bind _ eq); [|intros u u' ->; apply (sim_refl _ eq)].
  pose proof (pool_validate_sim l1 l2 t (mp_storage p) Hl) as Hv.
  destruct (mempool_validate l1 _ _) as [u|e], (mempool_validate l2 _ _) as [u'|e']; cbn in Hv; [done|done| |].
  - destruct Hv as [x ->]. done.
  - destruct Hv as [->|[x ->]]; [apply (sim_refl _ eq)|]. by apply sim_bad.
Qed.

Lemma send_tx_sim svc m now raw :
  tables_hold (http_storage svc) m ->
  let '(answer, svc', published) := send_tx (lookup_mempool_utxos (http_storage svc)) now svc raw in
  let '(answer2, svc2, published2) := send_tx (lookup_mempool_utxos m) now (over svc m) raw in
  (answer = answer2 /\ over svc' m = svc2 /\ http_storage svc' = http_storage svc /\ published = published2) \/
  (exists e, answer = Err e /\ hidden e /\ svc' = svc /\ published = []).
Proof.
  intros Hh. unfold send_tx. destruct (base64_decode raw) as [bytes|]; cbn [map_err mbind result_bind]; [|by left].
  destruct (postcard_tx_from bytes) as [t|]; cbn [map_err mbind result_bind]; [|by left].
  destruct (recover_public_key t) as [vk|]; cbn [map_err mbind result_bind]; [|by left].
  destruct (verify_signature t vk); cbn [map_err mbind result_bind]; [|by left]. cbn [http_mempool over].
  pose proof (add_transaction_sim _ _ now (http_mempool svc) t (fun ops => lookup_sim svc m ops Hh)) as Ha.
  destruct (add_transaction _ now _ t) as [p1|e1], (add_transaction (lookup_mempool_utxos m) now _ t) as [p2|e2];
    cbn [map_err mbind result_bind mret result_ret sim] in Ha |- *.
  - subst p2. by left.
  - done.
  - right. by exists (map_mempool e1).
  - destruct Ha as [->|Ha]; [by left|right; by exists (map_mempool e1)].
Qed.

(** C27: the API of a node on RocksDB answers as that of the in-memory backend. As long as the
    tables hold a state, every query and every submission gets the answer it would get on
    that state, with the same effect on the pool and the same publication; or it is refused
    with status 500, and then nothing has changed. *)
Theorem rocks_http_answers svc m now :
  tables_hold (http_storage svc) m ->
  (forall q, sim hidden eq (get_tx svc q) (get_tx (over svc m) q) /\
    sim hidden eq (get_block svc q) (get_block (over svc m) q) /\
    sim hidden eq (get_balance svc q) (get_balance (over svc m) q)) /\
  sim (eq 500) eq (get_nodestate svc) (get_nodestate (over svc m)) /\
  (forall raw,
    let '(answer, svc', published) := send_tx (lookup_mempool_utxos (http_storage svc)) now svc raw in
    let '(answer2, svc2, published2) := send_tx (lookup_mempool_utxos m) now (over svc m) raw in
    (answer = answer2 /\ over svc' m = svc2 /\ http_storage svc' = http_storage svc /\ published = published2) \/
    (exists e, answer = Err e /\ hidden e /\ svc' = svc /\ published = [])).
Proof.
  intros Hh. split; [|split; [by apply get_nodestate_sim|intros raw; by apply send_tx_sim]].
  intros q. split_and!; [by apply get_tx_sim|by apply get_block_sim|by apply get_balance_sim].
Qed.
End Backends.

(** * A concrete service *)

Section HttpWitnesses.
Import Toy ListGraph MapOrder ToyPostcard ToyRocks MempoolProps.Examples.
Local Existing Instances externals hex_laws map_order map_order_laws list_graph list_graph_laws list_graph_edit list_graph_edit_laws.

(** Hexadecimal digits for base64. *)
Definition toy_codecs : HttpCodecs := {|
  base64_encode := hex_encode;
  base64_decode := hex_decode;
  postcard_tx_from := from_bytes;
  block_to_value b := Ok (JNumber (height (header b)));
|}.
Local Existing Instance toy_codecs.

(** A chain whose genesis pays the owner, a pool, and a payment of what the owner has. *)
Definition http_genesis : Block :=
  new_genesis 1 {[ pool_owner := 100000 ]}
    (mk_GenesisState (mk_ConsensusConsts (mk_PowParams 10 3600 5 9) 1000 10 10)).
Definition http_store : MemoryView := (memory_apply_transition MemoryView_default (TGenesis http_genesis toy_metadata)).2.
Definition http_service : StryiHttpService MemoryView :=
  mk_StryiHttpService (mk_StryiHttpServiceConfig "toy" 1) pool_empty http_store.
Definition genesis_payment : option Transaction := head (transactions http_genesis).
Definition http_payment : Transaction :=
  pool_pay (match genesis_payment with Some t => [mk_OutPoint (pay_hash t) 0] | None => [] end) [90000].
Definition http_request : string := hex_encode (to_bytes http_payment).

Lemma http_genesis_valid : validate_genesis http_genesis = Ok tt.
Proof.
  assert (is_ok (validate_genesis http_genesis) = true) as H by (vm_compute; reflexivity).
  destruct (validate_genesis http_genesis) as [[]|]; [reflexivity|discriminate H].
Qed.

Lemma http_store_history : history http_store [http_genesis].
Proof.
  destruct (genesis_init http_genesis toy_metadata (proj1 (validate_genesis_iff _) http_genesis_valid)) as (m & Hm & R & _).
  assert (memory_apply_transition MemoryView_default (TGenesis http_genesis toy_metadata) =
    (Ok (mk_ChainTransitionResult (0, block_hash http_genesis) 0 []), m)) as Ht
    by (unfold memory_apply_transition, update; by rewrite Hm).
  unfold http_store. rewrite Ht. apply (history_genesis _ toy_metadata _ _ Ht).
  assert (forall hash x, location_on [http_genesis] hash x -> x = mk_TransactionIndexData (block_hash http_genesis) 0 0) as Hl.
  { intros hash x (i & b & j & t & Hi & Hj & _ & ->). apply list_lookup_singleton_Some in Hi as [-> <-].
    destruct j as [|j]; [reflexivity|]. change (([] : list Transaction) !! j = Some t) in Hj. rewrite lookup_nil in Hj. discriminate Hj. }
  intros hash x y Hx Hy. rewrite (Hl _ _ Hx), (Hl _ _ Hy). reflexivity.
Qed.

Lemma http_store_refines : refines http_store [http_genesis].
Proof. exact (proj1 (history_indexed _ _ http_store_history)). Qed.

Lemma block_identifier_roundtrip_witness : identifier_try_from "42" = Ok (ByHeight 42).
Proof. apply (block_identifier_roundtrip (ByHeight 42)). split; reflexivity || discriminate. Defined.

Lemma get_tx_exact_witness :
  exists t, genesis_payment = Some t /\
    forall e, get_tx http_service (Hash_to_string (pay_hash t)) <> Err e.
Proof.
  destruct genesis_payment as [t|] eqn:Ht; [|discriminate Ht]. exists t. split; [reflexivity|]. intros e He.
  pose proof (get_tx_exact http_service [http_genesis] (pay_hash t) http_store_history) as H. rewrite He in H.
  destruct H as (_ & H & _).
  apply (H (mk_ConfirmedTransaction t (mk_TransactionIndexData (block_hash http_genesis) 0 0))).
  exists 0%nat, http_genesis, 0%nat. split; [reflexivity|]. split; [|split; reflexivity].
  injection Ht as <-. reflexivity.
Defined.

Lemma get_block_exact_witness :
  get_block http_service (Hash_to_string (block_hash http_genesis)) = get_block http_service "0".
Proof. apply (get_block_exact http_service [http_genesis] 0 http_store_refines). split; reflexivity || discriminate. Defined.

Lemma get_balance_exact_witness :
  exists r, get_balance http_service (Hash_to_string pool_owner) = Ok r /\ ab_balance r = 100000.
Proof.
  destruct (get_balance_exact http_service [http_genesis] pool_owner http_store_refines) as (r & Hr & _ & Hb & _).
  - apply (bool_decide_unpack _). vm_compute. exact I.
  - exists r. split; [exact Hr|]. rewrite Hb. vm_compute. reflexivity.
Defined.

Lemma http_payment_accepted : is_ok (send_tx (lookup_mempool_utxos http_store) 1000 http_service http_request).1.1 = true.
Proof. vm_compute. reflexivity. Qed.

Lemma send_tx_correct_witness :
  exists text t svc', send_tx (lookup_mempool_utxos http_store) 1000 http_service http_request = (Ok text, svc', [t]) /\
    add_transaction (lookup_mempool_utxos http_store) 1000 pool_empty t = Ok (http_mempool svc').
Proof.
  pose proof (send_tx_correct http_service 1000 http_request [http_genesis] http_store_refines) as H.
  pose proof http_payment_accepted as Ha. change (http_storage http_service) with http_store in H.
  destruct (send_tx _ 1000 http_service http_request) as [[[text|e] svc'] published] eqn:Hs; [|discriminate Ha].
  destruct H as (bytes & t & vk & _ & _ & _ & _ & -> & Hadd & _). exists text, t, svc'. exact (conj eq_refl Hadd).
Defined.

(** What a client with a malformed identifier is told: the text of the parser's error. *)
Lemma bad_identifier_text :
  get_block http_service "forty-two" = Err (InvalidResourceId "block" "forty-two"
    "Unexpected prefix while trying decode hash. Actual : {actual:?}, expected : {expected:?}").
Proof. vm_compute. reflexivity. Qed.

Definition rocks_service : StryiHttpService StryiStorage :=
  mk_StryiHttpService (mk_StryiHttpServiceConfig "toy" 1) pool_empty rocks_store.

Lemma rocks_answers_ok : is_ok (get_block rocks_service "0") = true.
Proof. vm_compute. reflexivity. Qed.

Lemma rocks_http_answers_witness : get_block rocks_service "0" = get_block (over rocks_service run_store) "0".
Proof.
  destruct (rocks_http_answers rocks_service run_store 1000 (proj1 rocks_store_holds)) as [H _].
  destruct (H "0") as (_ & Hb & _). pose proof rocks_answers_ok as Ha.
  destruct (get_block rocks_service "0") as [r|e]; [|discriminate Ha].
  destruct (get_block (over rocks_service run_store) "0") as [r'|e']; [|destruct Hb]. cbn [sim] in Hb. rewrite Hb. reflexivity.
Defined.
End HttpWitnesses.
