(* ===== verification/Seeds.v ===== *)
(** Seeds: the seeds of the generator of test chains ([stryi_devkit/src/chaingen/seed.rs]) and
    the schedule that looks them up ([seed_schedule.rs]), with the binary search of the
    standard library. *)
From S2P Require Import Prelude.

(** * Binary search ([slice::binary_search_by])

    The loop halves the part still open, so the length of the slice is enough fuel
    ([binary_search_by_spec]). *)

Section BinarySearch.
Context {A : Type}.
Implicit Types (f : A -> comparison) (l : list A).

Fixpoint search_loop (fuel size base : nat) f l : nat :=
  match fuel with
  | O => base
  | S fuel =>
      if (size <=? 1)%nat then base
      else
        let half := (size / 2)%nat in
        let mid := (base + half)%nat in
        let base := match f <$> l !! mid with Some Gt => base | _ => mid end in
        search_loop fuel (size - half) base f l
  end.

(** The position of a match, or the position where one would be inserted. *)
Definition binary_search_by f l : result nat nat :=
  if bool_decide (l = []) then Err 0%nat
  else
    let base := search_loop (length l) (length l) 0 f l in
    match f <$> l !! base with
    | Some Eq => Ok base
    | Some Lt => Err (base + 1)%nat
    | _ => Err base
    end.

(** [slice::partition_point] *)
Definition partition_point (pred : A -> bool) l : nat :=
  match binary_search_by (fun x => if pred x then Lt else Gt) l with Ok i | Err i => i end.

(** The slice is ordered for the comparison: first [Lt], then [Eq], then [Gt]. *)
Definition ordered_for f l : Prop :=
  forall i j x y, (i <= j)%nat -> l !! i = Some x -> l !! j = Some y ->
    (f y = Lt -> f x = Lt) /\ (f x = Gt -> f y = Gt).

Lemma search_loop_spec f l fuel size base :
  ordered_for f l -> (size <= fuel)%nat -> (0 < size)%nat -> (base + size <= length l)%nat ->
  (base = 0%nat \/ exists x, l !! base = Some x /\ f x <> Gt) ->
  (forall i x, (base + size <= i)%nat -> l !! i = Some x -> f x = Gt) ->
  let r := search_loop fuel size base f l in
  (r < length l)%nat /\ (r = 0%nat \/ exists x, l !! r = Some x /\ f x <> Gt) /\
  forall i x, (r < i)%nat -> l !! i = Some x -> f x = Gt.
Proof.
  intros Hord. revert size base. induction fuel as [|fuel IH]; intros size base Hf Hs Hb Hbase Hend; [lia|].
  cbn [search_loop]. destruct (Nat.leb_spec size 1) as [H1|H1]; cbv zeta.
  { split; [lia|]. split; [done|]. intros i x Hi. apply Hend. lia. }
  pose proof (Nat.div_lt size 2 ltac:(lia) ltac:(lia)) as Hdiv.
  assert (0 < size / 2)%nat as Hpos by (apply Nat.div_str_pos; lia).
  pose proof (Nat.Div0.mul_div_le size 2) as Htwo.
  set (half := (size / 2)%nat) in *.
  destruct (lookup_lt_is_Some_2 l (base + half)%nat) as [y Hy]; [lia|]. rewrite Hy. cbn [fmap option_fmap option_map].
  assert (forall b, (b = base \/ b = base + half)%nat -> (size - half <= fuel)%nat /\ (0 < size - half)%nat /\
    (b + (size - half) <= length l)%nat) as Hnum by lia.
  destruct (f y) eqn:Hfy.
  1, 2: apply IH; [apply (Hnum (base + half)%nat); lia..| |].
  1, 3: right; exists y; split; [done|congruence].
  1, 2: intros i x Hi; apply Hend; lia.
  apply IH; [apply (Hnum base); lia..|done|].
  - intros i x Hi Hx. apply (proj2 (Hord (base + half)%nat i y x ltac:(lia) Hy Hx) Hfy).
Qed.

Lemma binary_search_by_spec f l :
  ordered_for f l ->
  match binary_search_by f l with
  | Ok i => exists x, l !! i = Some x /\ f x = Eq
  | Err i => (i <= length l)%nat /\
      (forall j x, (j < i)%nat -> l !! j = Some x -> f x = Lt) /\
      (forall j x, (i <= j)%nat -> l !! j = Some x -> f x = Gt)
  end.
Proof.
  intros Hord. unfold binary_search_by. case_bool_decide as Hnil.
  { subst l. split; [done|]. split; [intros j x Hj; lia|]. intros j x _ Hx. by rewrite lookup_nil in Hx. }
  assert (0 < length l)%nat as Hlen by (destruct l; [done|cbn; lia]).
  destruct (search_loop_spec f l (length l) (length l) 0 Hord) as (Hr & Hnot & Hgt); [lia|lia|lia|by left| |].
  { intros i x Hi Hx. apply lookup_lt_Some in Hx. lia. }
  set (r := search_loop _ _ _ _ _) in *. cbv zeta. destruct (lookup_lt_is_Some_2 l r Hr) as [x Hx].
  rewrite Hx. cbn [fmap option_fmap option_map]. destruct (f x) eqn:Hfx.
  - by exists x.
  - split; [lia|]. split.
    + intros j y Hj Hy. apply (proj1 (Hord j r y x ltac:(lia) Hy Hx) Hfx).
    + intros j y Hj. apply Hgt. lia.
  - destruct Hnot as [Hz|(x' & Hx' & Hne)]; [|congruence]. split; [lia|]. split; [intros j y Hj; lia|].
    intros j y Hj Hy. apply (proj2 (Hord r j x y ltac:(lia) Hx Hy) Hfx).
Qed.
End BinarySearch.

(** * Seeds ([seed.rs]) *)

Record SeedRange := mk_SeedRange { range_height : Z; range_value : Z }.

Inductive SeedValue :=
| Single (v : Z)
| Ranged (ranges : list SeedRange).

(** One iteration of the loop of [validate]: [prev] is the range before. *)
Definition validate_range (num_blocks : Z) (prev r : SeedRange) : result string SeedRange :=
  if range_value r =? 0 then Err "seed range value must be >= 1 (at index {})"%string
  else if range_height r <? 1 then Err "seed range height must be >= 1 (at index {}, got {})"%string
  else if num_blocks <? range_height r then Err "seed range height {} exceeds num_blocks {} (at index {})"%string
  else if range_height r <=? range_height prev then
    Err "seed range heights must be strictly increasing (prev={} at index {}, got {} at index {})"%string
  else Ok r.

(** [validate] *)
Definition validate_seed (seed : SeedValue) (num_blocks : Z) : result string unit :=
  match seed with
  | Single v => if v =? 0 then Err "seed value must be >= 1"%string else Ok tt
  | Ranged ranges =>
      if num_blocks =? 0 then
        Err "seed ranges are not allowed when num_blocks == 0 (no post-genesis blocks)"%string
      else
        match ranges with
        | [] => Err "seed ranges cannot be empty"%string
        | first :: rest =>
            if negb (range_height first =? 1) then Err "first seed range height must be 1 (got {})"%string
            else if range_value first =? 0 then Err "seed range value must be >= 1 (at index 0)"%string
            else if num_blocks <? range_height first then
              Err "seed range height {} exceeds num_blocks {} (at index 0)"%string
            else
              _ ← fold_res (validate_range num_blocks) first rest;
              mret tt
        end
  end.

(** * The schedule ([seed_schedule.rs]) *)

Record SeedSchedule := mk_SeedSchedule { schedule_ranges : list (Z * Z) }.

(** [sort_unstable_by_key]: equal keys, which a validated seed has not, may come in any order. *)
Definition switch_le (a b : Z * Z) : Prop := a.1 <= b.1.
#[export] Instance switch_le_dec a b : Decision (switch_le a b).
Proof. unfold switch_le. apply _. Defined.

#[export] Instance switch_le_trans : Transitive switch_le.
Proof. intros a b c. unfold switch_le. lia. Qed.
#[export] Instance switch_le_total : Total switch_le.
Proof. intros a b. unfold switch_le. lia. Qed.

(** [SeedSchedule::new] *)
Definition SeedSchedule_new (seed : SeedValue) : SeedSchedule :=
  match seed with
  | Single v => mk_SeedSchedule [(1, v)]
  | Ranged v => mk_SeedSchedule (merge_sort switch_le ((fun r => (range_height r, range_value r)) <$> v))
  end.

(** [seed_at]; [None] is the panic of indexing an empty schedule. *)
Definition seed_at (s : SeedSchedule) (height : Z) : option Z :=
  let idx := partition_point (fun e => e.1 <=? height) (schedule_ranges s) in
  snd <$> schedule_ranges s !! (if (idx =? 0)%nat then 0%nat else (idx - 1)%nat).

(** [is_switch_height] *)
Definition is_switch_height (s : SeedSchedule) (height : Z) : bool :=
  is_ok (binary_search_by (fun e => e.1 ?= height) (schedule_ranges s)).

(** * What a schedule promises *)

(** The switches of a seed, and the seed active at a height: that of the last switch at or
    below it. *)
Definition switches (seed : SeedValue) : list (Z * Z) :=
  match seed with
  | Single v => [(1, v)]
  | Ranged ranges => (fun r => (range_height r, range_value r)) <$> ranges
  end.

Definition active_switch (seed : SeedValue) (height : Z) : option (Z * Z) :=
  last (filter (fun e => e.1 <= height) (switches seed)).

Lemma validate_ranges_sorted num_blocks first rest r :
  fold_res (validate_range num_blocks) first rest = Ok r ->
  StronglySorted (fun a b => range_height a < range_height b) (first :: rest).
Proof.
  intros H. apply Sorted_StronglySorted; [intros a b c; lia|]. revert first H.
  induction rest as [|x rest IH]; intros first H; [by repeat constructor|].
  cbn [fold_res] in H. apply bind_Ok in H as (x' & Hx & H). unfold validate_range in Hx.
  repeat case_match; try done. injection Hx as <-. constructor; [by apply IH|]. constructor. lia.
Qed.

(** The switches of a validated seed start at height one and are strictly increasing. *)
Lemma validated_switches seed num_blocks :
  validate_seed seed num_blocks = Ok tt ->
  StronglySorted (fun a b => a.1 < b.1) (switches seed) /\ exists v rest, switches seed = (1, v) :: rest.
Proof.
  destruct seed as [v|ranges]; cbn [validate_seed switches]; intros H.
  { split; [by repeat constructor|by eexists _, _]. }
  destruct (num_blocks =? 0); [done|]. destruct ranges as [|first rest]; [done|].
  destruct (Z.eqb_spec (range_height first) 1) as [Hh|]; [|done]. cbn [negb] in H.
  destruct (range_value first =? 0); [done|]. destruct (num_blocks <? range_height first); [done|].
  apply bind_Ok in H as (r & Hr & _). apply validate_ranges_sorted in Hr. split; [|cbn; rewrite Hh; by eexists _, _].
  clear -Hr. induction Hr as [|a l Hs IH Hall]; cbn; constructor; [done|]. apply Forall_fmap.
  eapply Forall_impl; [exact Hall|]. done.
Qed.

Lemma schedule_of_switches seed num_blocks :
  validate_seed seed num_blocks = Ok tt -> schedule_ranges (SeedSchedule_new seed) = switches seed.
Proof.
  intros H. apply validated_switches in H as [Hs _]. destruct seed as [v|ranges]; [done|]. cbn in *.
  set (l := _ <$> ranges) in *. apply (StronglySorted_unique_strong switch_le).
  - intros x y Hx Hy H1 H2. rewrite merge_sort_Permutation in Hx. unfold switch_le in *.
    apply list_elem_of_lookup in Hx as [i Hi], Hy as [j Hj].
    destruct (Nat.lt_trichotomy i j) as [Hij|[->|Hij]]; [|congruence|].
    + pose proof (StronglySorted_lookup_lt _ _ _ _ _ _ Hs Hi Hj Hij). cbn in *. lia.
    + pose proof (StronglySorted_lookup_lt _ _ _ _ _ _ Hs Hj Hi Hij). cbn in *. lia.
  - by apply StronglySorted_merge_sort; apply _.
  - clear -Hs. induction Hs as [|a l Hs IH Hall]; constructor; [done|].
    eapply Forall_impl; [exact Hall|]. unfold switch_le. cbn. lia.
  - apply merge_sort_Permutation.
Qed.

(** A strictly increasing list is ordered for a comparison of its keys. *)
Lemma switches_ordered (l : list (Z * Z)) f :
  StronglySorted (fun a b => a.1 < b.1) l ->
  (forall a b : Z * Z, a.1 <= b.1 -> (f b = Lt -> f a = Lt) /\ (f a = Gt -> f b = Gt)) -> ordered_for f l.
Proof.
  intros Hs Hf i j x y Hij Hx Hy. apply Hf. destruct (decide (i = j)) as [->|Hne].
  - replace x with y by congruence. lia.
  - pose proof (StronglySorted_lookup_lt _ _ _ _ _ _ Hs Hx Hy ltac:(lia)). cbn in *. lia.
Qed.

Lemma filter_keeps {A} (P : A -> Prop) `{!forall x, Decision (P x)} l : Forall P l -> filter P l = l.
Proof. induction 1 as [|x l Hx _ IH]; [done|]. by rewrite filter_cons_True, IH. Qed.

Lemma filter_drops {A} (P : A -> Prop) `{!forall x, Decision (P x)} l : Forall (fun x => ~ P x) l -> filter P l = [].
Proof. induction 1 as [|x l Hx _ IH]; [done|]. by rewrite filter_cons_False, IH. Qed.

(** The position found splits the switches: below it those at or below the height. *)
Lemma partition_split (l : list (Z * Z)) height :
  StronglySorted (fun a b => a.1 < b.1) l ->
  let idx := partition_point (fun e => e.1 <=? height) l in
  (idx <= length l)%nat /\ take idx l = filter (fun e => e.1 <= height) l.
Proof.
  intros Hs. cbv zeta. unfold partition_point. set (f := fun e : Z * Z => if e.1 <=? height then Lt else Gt).
  pose proof (binary_search_by_spec f l) as Hspec. destruct (binary_search_by f l) as [i|i].
  { destruct Hspec as (x & _ & Hx); [|subst f; cbn in Hx; by destruct (x.1 <=? height)].
    apply switches_ordered; [done|]. intros a b Hab. subst f. cbn.
    destruct (Z.leb_spec a.1 height), (Z.leb_spec b.1 height); split; try done; lia. }
  destruct Hspec as (Hi & Hlt & Hgt).
  { apply switches_ordered; [done|]. intros a b Hab. subst f. cbn.
    destruct (Z.leb_spec a.1 height), (Z.leb_spec b.1 height); split; try done; lia. }
  split; [done|]. rewrite <-(take_drop i l) at 2. rewrite filter_app.
  rewrite filter_keeps, filter_drops, app_nil_r; [done| |].
  - apply Forall_lookup. intros j x Hx. rewrite lookup_drop in Hx. specialize (Hgt _ _ (Nat.le_add_r i j) Hx).
    subst f. cbn in Hgt. destruct (Z.leb_spec x.1 height); [done|lia].
  - apply Forall_lookup. intros j x Hx. apply lookup_take_Some in Hx as [Hx Hj]. specialize (Hlt _ _ Hj Hx).
    subst f. cbn in Hlt. by destruct (Z.leb_spec x.1 height).
Qed.

(** * The schedule of a validated seed *)

(** The seed at a height of a validated seed. *)
Lemma seed_at_active seed num_blocks height :
  validate_seed seed num_blocks = Ok tt -> 1 <= height ->
  seed_at (SeedSchedule_new seed) height = snd <$> active_switch seed height /\ is_Some (active_switch seed height).
Proof.
  intros Hv Hh. destruct (validated_switches _ _ Hv) as (Hs & v & rest & Hsw).
  unfold seed_at, active_switch. rewrite (schedule_of_switches _ _ Hv).
  destruct (partition_split (switches seed) height Hs) as [Hlen Hsplit]. cbv zeta in *.
  set (idx := partition_point _ _) in *. rewrite <-Hsplit.
  assert (idx <> 0%nat) as Hidx.
  { intros Hz. rewrite Hz, Hsw, filter_cons_True in Hsplit by (cbn; lia). done. }
  rewrite (proj2 (Nat.eqb_neq _ _) Hidx). destruct (lookup_lt_is_Some_2 (switches seed) (idx - 1)%nat) as [x Hx]; [lia|].
  assert (last (take idx (switches seed)) = Some x) as ->.
  { rewrite last_lookup, length_take, Nat.min_l, lookup_take, decide_True by lia.
    by replace (pred idx) with (idx - 1)%nat by lia. }
  rewrite Hx. split; [done|by exists x].
Qed.

(** For a validated seed and a height of at least one, the schedule answers: the seed at a
    height is that of the last switch at or below it, and a height is a switch height exactly
    when the seed lists it. *)
Theorem schedule_exact seed num_blocks height :
  validate_seed seed num_blocks = Ok tt -> 1 <= height ->
  seed_at (SeedSchedule_new seed) height = snd <$> active_switch seed height /\
  is_Some (active_switch seed height) /\
  (is_switch_height (SeedSchedule_new seed) height = true <-> height ∈ (switches seed).*1).
Proof.
  intros Hv Hh. destruct (seed_at_active _ _ _ Hv Hh) as [Hat Hsome]. split; [done|]. split; [done|].
  destruct (validated_switches _ _ Hv) as (Hs & _). unfold is_switch_height. rewrite (schedule_of_switches _ _ Hv).
  assert (ordered_for (fun e : Z * Z => e.1 ?= height) (switches seed)) as Hord.
  { apply switches_ordered; [done|]. intros a b Hab. rewrite !Z.compare_lt_iff, !Z.compare_gt_iff. lia. }
  apply binary_search_by_spec in Hord. destruct (binary_search_by _ _) as [i|i]; cbn [is_ok].
  - destruct Hord as (y & Hy & Heq). apply Z.compare_eq_iff in Heq. split; [|done]. intros _.
    apply list_elem_of_fmap. exists y. split; [done|]. by eapply list_elem_of_lookup_2.
  - destruct Hord as (_ & Hlt & Hgt). split; [done|]. intros Hin. exfalso.
    apply list_elem_of_fmap in Hin as (y & -> & Hy). apply list_elem_of_lookup in Hy as [j Hy].
    destruct (Nat.lt_ge_cases j i) as [Hj|Hj]; [specialize (Hlt _ _ Hj Hy)|specialize (Hgt _ _ Hj Hy)];
      cbn in *; rewrite Z.compare_refl in *; done.
Qed.

Lemma schedule_exact_witness :
  seed_at (SeedSchedule_new (Ranged [mk_SeedRange 1 10; mk_SeedRange 100 11])) 99 = Some 10.
Proof.
  exact (proj1 (schedule_exact (Ranged [mk_SeedRange 1 10; mk_SeedRange 100 11]) 200 99 eq_refl ltac:(lia))).
Defined.

(** The schedule of the generator works on heights of the chain; a seed is validated against the
    number of blocks to generate. On a chain that has blocks already, a switch validated as part
    of the run can be passed before the run starts. *)
Example switches_count_from_genesis :
  let seed := Ranged [mk_SeedRange 1 10; mk_SeedRange 5 11] in
  validate_seed seed 10 = Ok tt /\ seed_at (SeedSchedule_new seed) (20 + 1) = Some 11.
Proof. split; reflexivity. Qed.
