(* ===== verification/Strategy.v ===== *)
(** Strategy: the generator of test chains, its randomness and clock, its data
    ([stryi_devkit/src/chaingen/utxo.rs]) and the adaptive choice of what each transaction
    looks like ([chaingen/strategy.rs]). *)
From S2P Require Import Prelude Bytes Types Transactions Float64.
From Stdlib Require Import Floats.SpecFloat.

(** * Single precision

    [f32]: 24 bits of precision, exponents below 128. A decimal literal is the correctly
    rounded quotient of its digits. *)
Abbreviation f32 := spec_float.
Definition f32_of_uint (n : Z) : f32 := binary_normalize 24 128 n 0 false.
Definition f32_div (x y : f32) : f32 := SFdiv 24 128 x y.
Definition f32_add (x y : f32) : f32 := SFadd 24 128 x y.
Definition f32_percent (n : Z) : f32 := f32_div (f32_of_uint n) (f32_of_uint 100).
Definition f64_percent (n : Z) : f64 := f64_div (f64_of_uint n) (f64_of_uint 100).

(** * Computations of the generator

    A computation reads a random source and the monotonic clock, and fails with a message or
    with a panic. *)

(** The methods of [rand] the generator calls. *)
Class RandomSource (R : Type) := {
  rng_bool : f64 -> R -> bool * R;
  rng_f32 : R -> f32 * R;
  rng_range : Z -> Z -> R -> Z * R;
  rng_choose {A} : list A -> R -> option A * R;
  rng_sample {A} : list A -> nat -> R -> list A * R;
}.

(** A draw from a range lies in it, [choose] takes an element of the slice unless it is
    empty, and [sample] takes distinct positions. *)
Class RandomSourceLaws (R : Type) `{RandomSource R} : Prop := {
  rng_range_in lo hi r : lo <= hi -> lo <= (rng_range lo hi r).1 <= hi;
  rng_choose_nil {A} r : (rng_choose (@nil A) r).1 = None;
  rng_choose_elem {A} (l : list A) r : l <> [] -> exists x, (rng_choose l r).1 = Some x /\ x ∈ l;
  rng_sample_length {A} (l : list A) n r : length (rng_sample l n r).1 = (n `min` length l)%nat;
  rng_sample_sub {A} (l : list A) n r : (rng_sample l n r).1 ⊆+ l;
}.

Inductive GenError :=
| Failed (message : string)
| Panicked (message : string).

Definition in_context (message : string) (e : GenError) : GenError :=
  match e with
  | Failed _ => Failed message
  | Panicked panic => Panicked panic
  end.

(** The random source, and for each reading of the clock to come whether it is past the
    deadline of the run; the list is empty when no later reading is. *)
Record World (R : Type) := mk_World { world_rng : R; world_late : list bool }.
Arguments mk_World {R}.
Arguments world_rng {R} _.
Arguments world_late {R} _.

Definition gen (R A : Type) : Type := World R -> result GenError (A * World R).

#[export] Instance gen_ret R : MRet (gen R) := fun A a w => Ok (a, w).
#[export] Instance gen_bind R : MBind (gen R) :=
  fun A B k m w => match m w with Ok (a, w') => k a w' | Err e => Err e end.

Section Draws.
Context {R : Type} `{RandomSource R}.

Definition gen_lift {A} (r : result GenError A) : gen R A :=
  fun w => match r with Ok a => Ok (a, w) | Err e => Err e end.

(** Messages of [Result<_, String>] carried by [?]. *)
Definition gen_try {A} (r : result string A) : gen R A := gen_lift (map_err Failed r).

(** [map_err] on a computation, with a message that holds the one before; a panic passes. *)
Definition gen_context {A} (message : string) (m : gen R A) : gen R A := fun w => map_err (in_context message) (m w).

Definition draw {A} (f : R -> A * R) : gen R A :=
  fun w => let '(a, r) := f (world_rng w) in Ok (a, mk_World r (world_late w)).

Definition random_bool (p : f64) : gen R bool := draw (rng_bool p).
Definition random_f32 : gen R f32 := draw rng_f32.
(** [random_range(lo..=hi)]: an empty range panics. *)
Definition random_range (lo hi : Z) : gen R Z :=
  if lo <=? hi then draw (rng_range lo hi) else gen_lift (Err (Panicked "cannot sample empty range")).
Definition choose {A} (l : list A) : gen R (option A) := draw (rng_choose l).
Definition sample {A} (l : list A) (n : Z) : gen R (list A) := draw (rng_sample l (Z.to_nat n)).

(** [check_generation_deadline] of [chaingen/mod.rs]: [deadline] says that the run has one,
    [height] is the last height saved. *)
Definition check_generation_deadline (deadline : bool) (height : option Z) : gen R unit :=
  fun w =>
    if deadline then
      match world_late w with
      | true :: late =>
          Err (Failed match height with
                      | Some _ => "generation time limit exceeded; last successfully saved height: {height}"
                      | None => "generation time limit exceeded during initialization"
                      end)
      | late => Ok (tt, mk_World (world_rng w) (tail late))
      end
    else Ok (tt, w).
End Draws.

(** * Data ([utxo.rs], [txgen.rs]) *)

Inductive UtxoSelectionCriteria := Oldest | Newest | Largest | Smallest.

Record UtxoInfo := mk_UtxoInfo {
  info_outpoint : OutPoint;
  info_value : Z;
  height_created : Z;
  info_is_coinbase : bool;
}.

Inductive TransactionPattern := Simple | Consolidation | Splitting | Complex.

#[export] Instance UtxoSelectionCriteria_eq_dec : EqDecision UtxoSelectionCriteria.
Proof. solve_decision. Defined.
#[export] Instance UtxoInfo_eq_dec : EqDecision UtxoInfo.
Proof. solve_decision. Defined.
#[export] Instance TransactionPattern_eq_dec : EqDecision TransactionPattern.
Proof. solve_decision. Defined.

Record TransactionGenerationParams := mk_TransactionGenerationParams {
  min_output_value : Z;
  fee_policy : FeePolicy;
  max_inputs : Z;
  max_outputs : Z;
}.

(** [TransactionGenerationParams::default] *)
Definition params_default : TransactionGenerationParams :=
  mk_TransactionGenerationParams 10000 FeePolicy_default 8 8.

(** * The strategy *)

Record TxGenerationStrategy := mk_TxGenerationStrategy {
  successful_txs : Z;
  target_txs : Z;
  attempts : Z;
  max_attempts : Z;
}.

(** [TxGenerationStrategy::new] *)
Definition TxGenerationStrategy_new (target_txs : Z) : TxGenerationStrategy :=
  mk_TxGenerationStrategy 0 target_txs 0 (Z.max (saturating_mul 64 target_txs 3) 10).

Definition record_success (s : TxGenerationStrategy) : TxGenerationStrategy :=
  let n := wrap 64 (successful_txs s + 1) in
  mk_TxGenerationStrategy n (target_txs s) (if n <? target_txs s then 0 else attempts s) (max_attempts s).

Definition record_fail (s : TxGenerationStrategy) : TxGenerationStrategy :=
  mk_TxGenerationStrategy (successful_txs s) (target_txs s) (wrap 64 (attempts s + 1)) (max_attempts s).

Definition progress (s : TxGenerationStrategy) : f32 :=
  f32_div (f32_of_uint (successful_txs s)) (f32_of_uint (Z.max (target_txs s) 1)).

(** [should_continue], with its two assertions. *)
Definition should_continue (s : TxGenerationStrategy) : result GenError bool :=
  if max_attempts s <? attempts s
  then Err (Panicked "attempts count shall never outreach the limit `max_attempts`")
  else if target_txs s <? successful_txs s
  then Err (Panicked "should never be generated more transactions than `target_txs`")
  else Ok ((attempts s <? max_attempts s) && (successful_txs s <? target_txs s)).

Section Choices.
Context {R : Type} `{RandomSource R}.
Implicit Types (s : TxGenerationStrategy) (params : TransactionGenerationParams).

(** The early phase: more UTXOs. *)
Definition early_pattern (can_split_effectively can_complex can_consolidate : bool) (roll : f32) : TransactionPattern :=
  if negb can_split_effectively then
    if SFltb roll (f32_percent 40) then Simple
    else if SFltb roll (f32_percent 70) then (if can_complex then Complex else Simple)
    else if can_consolidate then Consolidation else Simple
  else
    if SFltb roll (f32_percent 40) then Splitting
    else if SFltb roll (f32_percent 65) then Simple
    else if SFltb roll (f32_percent 85) then (if can_complex then Complex else Simple)
    else if can_consolidate then Consolidation else Simple.

(** The middle phase: a mix. *)
Definition middle_pattern (can_split_effectively can_complex can_consolidate : bool) (boost roll : f32) : TransactionPattern :=
  if SFltb roll (f32_percent 30) then Simple
  else if SFltb roll (f32_add (f32_percent 55) boost) then (if can_consolidate then Consolidation else Simple)
  else if SFltb roll (f32_add (f32_percent 75) boost) then (if can_split_effectively then Splitting else Simple)
  else if can_complex then Complex else Simple.

(** The late phase: fewer UTXOs. *)
Definition late_pattern (can_split_effectively can_complex can_consolidate : bool) (boost roll : f32) : TransactionPattern :=
  if SFltb roll (f32_add (f32_percent 45) boost) then (if can_consolidate then Consolidation else Simple)
  else if SFltb roll (f32_add (f32_percent 75) boost) then Simple
  else if SFltb roll (f32_add (f32_percent 90) boost) then (if can_complex then Complex else Simple)
  else if can_split_effectively then Splitting else Simple.

(** [choose_pattern] *)
Definition choose_pattern s (available_utxos : Z) params : gen R TransactionPattern :=
  let p := progress s in
  let failure_rate :=
    if 0 <? attempts s then f32_div (f32_of_uint (attempts s)) (f32_of_uint (max_attempts s)) else f32_percent 0 in
  if SFleb (f32_percent 50) failure_rate then
    mret (if 2 <=? available_utxos then Consolidation else Simple)
  else if SFleb (f32_percent 30) failure_rate then
    if 2 <=? available_utxos then
      b ← random_bool (f64_percent 80);
      mret (if b : bool then Consolidation else Simple)
    else mret Simple
  else if available_utxos <? 2 then
    b ← random_bool (f64_percent 70);
    mret (if b : bool then Splitting else Simple)
  else
    let can_consolidate := 2 <=? available_utxos in
    let can_complex := 2 <=? available_utxos in
    let can_split_effectively := 2 <=? max_outputs params in
    let should_favor_consolidation := max_inputs params / 2 <=? available_utxos in
    if SFltb p (f32_percent 30) then
      roll ← random_f32;
      mret (early_pattern can_split_effectively can_complex can_consolidate roll)
    else if SFltb p (f32_percent 70) then
      roll ← random_f32;
      let boost := if should_favor_consolidation then f32_percent 10 else f32_percent 0 in
      mret (middle_pattern can_split_effectively can_complex can_consolidate boost roll)
    else
      roll ← random_f32;
      let boost := if should_favor_consolidation then f32_percent 15 else f32_percent 0 in
      mret (late_pattern can_split_effectively can_complex can_consolidate boost roll).

(** [usize::clamp] *)
Definition clamp (x lo hi : Z) : Z := if x <? lo then lo else if hi <? x then hi else x.

(** [choose_utxo_strategy] *)
Definition choose_utxo_strategy s (pattern : TransactionPattern) (available_utxos : Z) params :
    gen R (UtxoSelectionCriteria * Z) :=
  let p := progress s in
  match pattern with
  | Simple =>
      if SFltb (f32_percent 60) p then
        b ← random_bool (f64_percent 30);
        mret (if b : bool then Smallest else Largest, 1)
      else mret (Largest, 1)
  | Splitting =>
      b ← random_bool (f64_percent 80);
      mret (if b : bool then Largest else Newest, 1)
  | Consolidation =>
      let max_reasonable_inputs := Z.min (max_inputs params) available_utxos in
      let count :=
        if SFltb p (f32_percent 30) then clamp max_reasonable_inputs 3 6
        else if SFltb p (f32_percent 70) then clamp max_reasonable_inputs 4 7
        else max_reasonable_inputs in
      b ← random_bool (f64_percent 70);
      mret (if b : bool then Smallest else Oldest, count)
  | Complex =>
      let max_reasonable_inputs := Z.min (max_inputs params) available_utxos in
      let optimal_end := Z.min 5 max_reasonable_inputs in
      count ←
        (if SFltb p (f32_percent 50) then
           let sweet_spot := (2 + optimal_end) / 2 in
           b ← random_bool (f64_percent 60);
           if b : bool then mret sweet_spot else random_range 2 optimal_end
         else random_range 2 max_reasonable_inputs);
      b1 ← random_bool (f64_percent 40);
      if b1 : bool then mret (Largest, count)
      else
        b2 ← random_bool (f64_percent 50);
        if b2 : bool then mret (Newest, count)
        else
          b3 ← random_bool (f64_percent 67);
          mret (if b3 : bool then Smallest else Oldest, count)
  end.
End Choices.

(** * Computations that always answer

    [answers m Q]: whatever the random source yields, [m] neither fails nor panics, reads the
    clock no further, and its result satisfies [Q]. *)

Definition answers {R A : Type} (m : gen R A) (Q : A -> Prop) : Prop :=
  forall w, exists a w', m w = Ok (a, w') /\ world_late w' = world_late w /\ Q a.

Section Answers.
Context {R : Type} `{RandomSourceLaws R}.

Lemma answers_ret {A} (a : A) (Q : A -> Prop) : Q a -> answers (R := R) (mret a) Q.
Proof. intros Ha w. by exists a, w. Qed.

Lemma answers_bind {A B} (m : gen R A) (k : A -> gen R B) P Q :
  answers m P -> (forall a, P a -> answers (k a) Q) -> answers (m ≫= k) Q.
Proof.
  intros Hm Hk w. destruct (Hm w) as (a & w1 & H1 & Hl1 & Ha). destruct (Hk a Ha w1) as (b & w2 & H2 & Hl2 & Hb).
  exists b, w2. unfold mbind, gen_bind. rewrite H1. split; [done|]. split; [congruence|done].
Qed.

Lemma answers_weaken {A} (m : gen R A) P Q : answers m P -> (forall a, P a -> Q a) -> answers m Q.
Proof. intros Hm HPQ w. destruct (Hm w) as (a & w' & ? & ? & ?). exists a, w'. eauto. Qed.

Lemma answers_draw {A} (f : R -> A * R) (Q : A -> Prop) : (forall r, Q (f r).1) -> answers (draw f) Q.
Proof.
  intros Hf w. unfold draw. specialize (Hf (world_rng w)). destruct (f (world_rng w)) as [a r].
  by exists a, (mk_World r (world_late w)).
Qed.

Lemma answers_bool p : answers (R := R) (random_bool p) (fun _ => True).
Proof. by apply answers_draw. Qed.

Lemma answers_f32 : answers (R := R) random_f32 (fun _ => True).
Proof. by apply answers_draw. Qed.

Lemma answers_range lo hi : lo <= hi -> answers (R := R) (random_range lo hi) (fun v => lo <= v <= hi).
Proof.
  intros Hle. unfold random_range. rewrite (proj2 (Z.leb_le _ _) Hle). apply answers_draw.
  intros r. by apply rng_range_in.
Qed.

Lemma answers_choose {A} (l : list A) :
  answers (R := R) (choose l) (fun o => match o with Some x => x ∈ l | None => l = [] end).
Proof.
  apply answers_draw. intros r. destruct l as [|y l]; [by rewrite rng_choose_nil|].
  destruct (rng_choose_elem (y :: l) r) as (x & -> & Hx); done.
Qed.

Lemma answers_sample {A} (l : list A) n : 0 <= n <= Z.of_nat (length l) ->
  answers (R := R) (sample l n) (fun k => Z.of_nat (length k) = n /\ k ⊆+ l).
Proof.
  intros Hn. apply answers_draw. intros r. split; [|apply rng_sample_sub]. rewrite rng_sample_length. lia.
Qed.
End Answers.

(** One step of a computation that always answers. *)
Tactic Notation "answer" uconstr(H) := eapply answers_bind; [refine H|cbv beta].

(** * The strategy *)

Section StrategyFacts.
Context {R : Type} `{RandomSourceLaws R}.
Implicit Types (s : TxGenerationStrategy) (params : TransactionGenerationParams).

(** A pattern is chosen whatever happens, and one that combines inputs only when there are
    two of them. *)
Lemma choose_pattern_answers s available params :
  answers (R := R) (choose_pattern s available params)
    (fun p => match p with Consolidation | Complex => 2 <= available | Simple | Splitting => True end).
Proof.
  unfold choose_pattern. cbv zeta. destruct (SFleb (f32_percent 50) _).
  { apply answers_ret. by destruct (Z.leb_spec 2 available). }
  destruct (SFleb (f32_percent 30) _).
  { destruct (Z.leb_spec 2 available); [|by apply answers_ret]. answer (answers_bool _). intros [] _; by apply answers_ret. }
  destruct (Z.ltb_spec available 2) as [Hlt|Hge].
  { answer (answers_bool _). intros [] _; by apply answers_ret. }
  assert (forall p, match p with Consolidation | Complex => 2 <= available | Simple | Splitting => True end) as Hall by by intros [].
  repeat case_match; answer (answers_f32); intros roll _; apply answers_ret, Hall.
Qed.

(** A selection is chosen for every pattern that was; it asks for one UTXO, or for at least two. *)
Lemma choose_utxo_strategy_answers s pattern available params :
  2 <= max_inputs params ->
  match pattern with Consolidation | Complex => 2 <= available | Simple | Splitting => True end ->
  answers (R := R) (choose_utxo_strategy s pattern available params)
    (fun c => match pattern with Consolidation | Complex => 2 <= c.2 | Simple | Splitting => c.2 = 1 end).
Proof.
  intros Hmax Hav. unfold choose_utxo_strategy. cbv zeta. destruct pattern.
  - case_match; [|by apply answers_ret]. answer (answers_bool _). intros b _. by apply answers_ret.
  - answer (answers_bool _). intros b _. apply answers_ret. cbn. unfold clamp. repeat case_match; lia.
  - answer (answers_bool _). intros b _. by apply answers_ret.
  - eapply (answers_bind _ _ (fun count => 2 <= count)).
    + case_match; [|eapply answers_weaken; [apply answers_range; lia|cbv beta; lia]].
      answer (answers_bool _). intros [] _.
      * apply answers_ret. apply Z.div_le_lower_bound; lia.
      * eapply answers_weaken; [apply answers_range; lia|cbv beta; lia].
    + intros count Hcount. answer (answers_bool _). intros [] _; [by apply answers_ret|].
      answer (answers_bool _). intros [] _; [by apply answers_ret|]. answer (answers_bool _). intros b _. by apply answers_ret.
Qed.
End StrategyFacts.

(** * A concrete source of randomness *)

(** A counter, which every draw advances. *)
Module CounterSource.
#[export] Instance counter : RandomSource Z := {|
  rng_bool _ r := (Z.odd r, r + 1);
  rng_f32 r := (f32_percent (r mod 100), r + 1);
  rng_range lo hi r := (lo + r mod (hi - lo + 1), r + 1);
  rng_choose A l r := (l !! Z.to_nat (r mod Z.of_nat (length l)), r + 1);
  rng_sample A l n r := (take n l, r + 1);
|}.

#[export] Instance counter_laws : RandomSourceLaws Z.
Proof.
  split; cbn [rng_range rng_choose rng_sample counter fst].
  - intros lo hi r Hle. pose proof (Z.mod_pos_bound r (hi - lo + 1) ltac:(lia)). lia.
  - done.
  - intros A l r Hl. assert (0 < length l)%nat by (destruct l; [done|cbn; lia]).
    pose proof (Z.mod_pos_bound r (Z.of_nat (length l)) ltac:(lia)).
    destruct (lookup_lt_is_Some_2 l (Z.to_nat (r mod Z.of_nat (length l)))) as [x Hx]; [lia|]. rewrite Hx.
    exists x. split; [done|]. by eapply list_elem_of_lookup_2.
  - intros A l n r. apply length_take.
  - intros A l n r. apply sublist_submseteq, sublist_take.
Qed.
End CounterSource.
