(* ===== verification/Txgen.v ===== *)
(** Txgen: the payments of the generator of test chains ([stryi_devkit/src/chaingen/txgen.rs]).
    The release build wraps on overflow, and so does the model. *)
From S2P Require Import Prelude Bytes Types Externals Hashing Transactions Wallet Strategy.

(** [iter().sum::<u64>()] *)
Definition wrapping_sum (l : list Z) : Z := foldl (fun total x => wrap 64 (total + x)) 0 l.

(** [min_viable_output] *)
Definition min_viable_output (params : TransactionGenerationParams) : Z :=
  let future_spend_cost := estimate_fee (fee_policy params) 1 1 in
  let base_minimum := wrap 64 (future_spend_cost + min_output_value params) in
  wrap 64 (base_minimum + base_minimum / 2).

(** The input that spends a UTXO, and the data of a generated payment. *)
Definition spend_info (utxo : UtxoInfo) : TransactionIn := mk_TransactionIn (info_outpoint utxo) 0.
Definition payment_data (inputs : list TransactionIn) (outputs : list TransactionOut) : TransactionData :=
  mk_TransactionData 0 Payment inputs outputs.

(** The loop that finds how many viable outputs a value can carry: it stops at the first
    number that does not fit. *)
Fixpoint viable_outputs (fee : Z -> Z) (min_viable total : Z) (max_possible_outputs : Z) (candidates : list Z) : Z :=
  match candidates with
  | [] => max_possible_outputs
  | num_outputs :: candidates =>
      if total <=? fee num_outputs then max_possible_outputs
      else if wrap 64 (min_viable * num_outputs) <=? total - fee num_outputs
      then viable_outputs fee min_viable total num_outputs candidates
      else max_possible_outputs
  end.

Section Txgen.
Context {X : Externals} {R : Type} `{RandomSource R}.
Implicit Types (params : TransactionGenerationParams) (receiver_pool : list AccountAddress).

(** The value of output [i] out of [num_outputs]: the last takes what remains, another a
    random value that leaves enough for those after it. *)
Definition output_value (num_outputs min_viable i remaining : Z) : gen R (option Z) :=
  if i =? num_outputs - 1 then mret (Some remaining)
  else
    let outputs_left := num_outputs - i - 1 in
    let reserved_for_remaining := saturating_mul 64 min_viable outputs_left in
    let available_for_this := saturating_sub remaining reserved_for_remaining in
    if available_for_this <? min_viable then mret None
    else
      let fair_share := remaining / (num_outputs - i) in
      let max_val := Z.min fair_share available_for_this in
      if max_val <=? min_viable then mret (Some min_viable)
      else v ← random_range min_viable max_val; mret (Some v).

(** The loop over the receivers. *)
Fixpoint distribute (num_outputs min_viable i remaining : Z) (receivers : list AccountAddress)
    (outputs : list TransactionOut) : gen R (option (list TransactionOut)) :=
  match receivers with
  | [] => mret (Some outputs)
  | receiver :: receivers =>
      v ← output_value num_outputs min_viable i remaining;
      match v with
      | None => mret None
      | Some v =>
          distribute num_outputs min_viable (i + 1) (saturating_sub remaining v) receivers
            (outputs ++ [mk_TransactionOut v receiver])
      end
  end.

(** [generate_simple_tx] *)
Definition generate_simple_tx (utxo_to_spend : UtxoInfo) receiver_pool params :
    gen R (option (TransactionData * list TransactionOut)) :=
  receiver ← choose receiver_pool;
  match receiver with
  | None => mret None
  | Some receiver =>
      let fee := estimate_fee (fee_policy params) 1 1 in
      if info_value utxo_to_spend <=? fee then mret None
      else
        let output_value := info_value utxo_to_spend - fee in
        if output_value <? min_viable_output params then mret None
        else
          let outputs := [mk_TransactionOut output_value receiver] in
          mret (Some (payment_data [spend_info utxo_to_spend] outputs, outputs))
  end.

(** [generate_consolidation_tx] *)
Definition generate_consolidation_tx (utxos_to_spend : list UtxoInfo) receiver_pool params :
    gen R (option (TransactionData * list TransactionOut)) :=
  if (length utxos_to_spend <? 2)%nat then mret None
  else
    let utxos_to_use := take (Z.to_nat (max_inputs params)) utxos_to_spend in
    let num_inputs := Z.of_nat (length utxos_to_use) in
    receiver ← choose receiver_pool;
    match receiver with
    | None => mret None
    | Some receiver =>
        let total_input := wrapping_sum (info_value <$> utxos_to_use) in
        let fee := estimate_fee (fee_policy params) num_inputs 1 in
        if total_input <=? fee then mret None
        else
          let output_value := total_input - fee in
          if output_value <? min_viable_output params then mret None
          else
            let outputs := [mk_TransactionOut output_value receiver] in
            mret (Some (payment_data (spend_info <$> utxos_to_use) outputs, outputs))
    end.

(** [generate_splitting_tx] *)
Definition generate_splitting_tx (utxo_to_spend : UtxoInfo) receiver_pool params :
    gen R (option (TransactionData * list TransactionOut)) :=
  let min_viable := min_viable_output params in
  let fee_of := estimate_fee (fee_policy params) 1 in
  let max_split_outputs := Z.min (Z.min 4 (max_outputs params)) (Z.of_nat (length receiver_pool)) in
  if max_split_outputs <? 2 then mret None
  else
    let max_possible_outputs :=
      viable_outputs fee_of min_viable (info_value utxo_to_spend) 0 (seqZ 2 (max_split_outputs - 1)) in
    if max_possible_outputs <? 2 then mret None
    else
      num_outputs ← random_range 2 max_possible_outputs;
      let fee := fee_of num_outputs in
      if info_value utxo_to_spend <=? fee then mret None
      else
        let available_for_outputs := info_value utxo_to_spend - fee in
        if available_for_outputs <? wrap 64 (min_viable * num_outputs) then mret None
        else
          receivers ← sample receiver_pool num_outputs;
          distributed ← distribute num_outputs min_viable 0 available_for_outputs receivers [];
          match distributed with
          | None => mret None
          | Some outputs =>
              if negb (wrapping_sum (value <$> outputs) =? available_for_outputs) then mret None
              else mret (Some (payment_data [spend_info utxo_to_spend] outputs, outputs))
          end.

(** [generate_complex_tx] *)
Definition generate_complex_tx (utxos_to_spend : list UtxoInfo) receiver_pool params :
    gen R (option (TransactionData * list TransactionOut)) :=
  if (length utxos_to_spend <? 2)%nat then mret None
  else
    let utxos_to_use := take (Z.to_nat (max_inputs params)) utxos_to_spend in
    let num_inputs := Z.of_nat (length utxos_to_use) in
    let total_input := wrapping_sum (info_value <$> utxos_to_use) in
    let min_viable := min_viable_output params in
    let fee_of := estimate_fee (fee_policy params) num_inputs in
    let max_complex_outputs := Z.min (Z.min 5 (max_outputs params)) (Z.of_nat (length receiver_pool)) in
    if max_complex_outputs <? 2 then mret None
    else
      let max_possible_outputs :=
        viable_outputs fee_of min_viable total_input 0 (seqZ 2 (max_complex_outputs - 1)) in
      if max_possible_outputs <? 2 then mret None
      else
        num_outputs ← random_range 2 max_possible_outputs;
        let fee := fee_of num_outputs in
        if total_input <=? fee then mret None
        else
          let available_for_outputs := total_input - fee in
          if available_for_outputs <? wrap 64 (min_viable * num_outputs) then mret None
          else
            receivers ← sample receiver_pool num_outputs;
            distributed ← distribute num_outputs min_viable 0 available_for_outputs receivers [];
            match distributed with
            | None => mret None
            | Some outputs =>
                if negb (wrapping_sum (value <$> outputs) =? available_for_outputs) then mret None
                else mret (Some (payment_data (spend_info <$> utxos_to_use) outputs, outputs))
            end.

(** [generate_transaction] *)
Definition generate_transaction (signing_key : SigningKey) (pattern : TransactionPattern)
    (utxos_to_spend : list UtxoInfo) receiver_pool params : gen R (option Transaction) :=
  generated ←
    match pattern with
    | Simple =>
        match utxos_to_spend with
        | [] => mret None
        | utxo :: _ => generate_simple_tx utxo receiver_pool params
        end
    | Consolidation =>
        if (length utxos_to_spend <? 2)%nat then mret None
        else generate_consolidation_tx utxos_to_spend receiver_pool params
    | Splitting =>
        match utxos_to_spend with
        | [] => mret None
        | utxo :: _ => generate_splitting_tx utxo receiver_pool params
        end
    | Complex =>
        if (length utxos_to_spend <? 2)%nat then mret None
        else generate_complex_tx utxos_to_spend receiver_pool params
    end;
  mret (option_map (fun g => sign g.1 signing_key) generated).
End Txgen.

(** * What a generated payment is *)

(** The worth of some UTXOs. *)
Definition infos_total (l : list UtxoInfo) : Z := zsum (info_value <$> l).

(** UTXOs whose values add up without overflow. *)
Definition infos_fit (l : list UtxoInfo) : Prop :=
  Forall (fun u => 0 <= info_value u) l /\ infos_total l < 2 ^ 62.

(** Parameters of a realistic size. *)
Record params_small (params : TransactionGenerationParams) : Prop := {
  ps_policy : policy_small (fee_policy params);
  ps_min_output : 0 <= min_output_value params <= 2 ^ 40;
}.

(** A total pays the fee of [n] inputs and [m] outputs and leaves [m] viable outputs. *)
Definition affordable (params : TransactionGenerationParams) (n m total : Z) : Prop :=
  estimate_fee (fee_policy params) n m < total /\
  m * min_viable_output params <= total - estimate_fee (fee_policy params) n m.

(** The UTXOs a pattern spends. *)
Definition infos_used (params : TransactionGenerationParams) (pattern : TransactionPattern) (utxos : list UtxoInfo) :
    list UtxoInfo :=
  match pattern with
  | Simple | Splitting => take 1 utxos
  | Consolidation | Complex => take (Z.to_nat (max_inputs params)) utxos
  end.

(** When a pattern can be built: enough UTXOs and receivers, and a total that carries the
    least number of outputs of the pattern. *)
Definition viable (params : TransactionGenerationParams) (pattern : TransactionPattern) (utxos : list UtxoInfo)
    (receiver_pool : list AccountAddress) : Prop :=
  let used := infos_used params pattern utxos in
  let payable m := affordable params (Z.of_nat (length used)) m (infos_total used) in
  match pattern with
  | Simple => utxos <> [] /\ receiver_pool <> [] /\ payable 1
  | Consolidation => (2 <= length utxos)%nat /\ receiver_pool <> [] /\ payable 1
  | Splitting => utxos <> [] /\ 2 <= max_outputs params /\ (2 <= length receiver_pool)%nat /\ payable 2
  | Complex => (2 <= length utxos)%nat /\ 2 <= max_outputs params /\ (2 <= length receiver_pool)%nat /\ payable 2
  end.

(** A payment signed by [key] that spends exactly [used], loses exactly the estimated fee, and
    pays viable outputs to different positions of the pool. *)
Definition payment_of `{Externals} (params : TransactionGenerationParams) (key : SigningKey)
    (receiver_pool : list AccountAddress) (used : list UtxoInfo) (t : Transaction) : Prop :=
  exists outs, t = sign (payment_data (spend_info <$> used) outs) key /\ outs <> [] /\
    infos_total used =
      zsum (value <$> outs) + estimate_fee (fee_policy params) (Z.of_nat (length used)) (Z.of_nat (length outs)) /\
    Forall (fun o => min_viable_output params <= value o) outs /\
    (recipient <$> outs) ⊆+ receiver_pool.

Lemma wrapping_sum_small l : Forall (fun x => 0 <= x) l -> zsum l < 2 ^ 64 -> wrapping_sum l = zsum l.
Proof.
  unfold wrapping_sum. intros Hl Hs. enough (forall acc, 0 <= acc -> acc + zsum l < 2 ^ 64 ->
    foldl (fun total x => wrap 64 (total + x)) acc l = acc + zsum l) as Hf by (rewrite Hf by lia; lia).
  clear Hs. induction Hl as [|x l Hx Hl IH]; intros acc Ha Hs; cbn [foldl].
  { change (zsum []) with 0. lia. }
  rewrite zsum_cons in *. pose proof (zsum_nonneg _ Hl). rewrite wrap64_small by lia. rewrite IH by lia. lia.
Qed.

Lemma infos_fit_take l n : infos_fit l -> infos_fit (take n l).
Proof.
  intros [Hv Ht]. rewrite <-(take_drop n l) in Hv, Ht. apply Forall_app in Hv as [Hv Hd].
  unfold infos_total in *. rewrite fmap_app, zsum_app in Ht.
  pose proof (zsum_nonneg (info_value <$> drop n l) (proj2 (Forall_fmap _ _ _) Hd)). split; [done|]. unfold infos_total. lia.
Qed.

Lemma infos_sum l : infos_fit l -> wrapping_sum (info_value <$> l) = infos_total l /\ 0 <= infos_total l < 2 ^ 62.
Proof.
  intros [Hv Ht]. assert (Forall (fun x => 0 <= x) (info_value <$> l)) as Hf by by apply Forall_fmap.
  pose proof (zsum_nonneg _ Hf). unfold infos_total in *. split; [apply wrapping_sum_small; [done|lia]|lia].
Qed.

Section Params.
Context (params : TransactionGenerationParams) (Hparams : params_small params).
Local Notation mv := (min_viable_output params).

Lemma min_viable_small : 0 <= mv <= 2 ^ 50.
Proof.
  destruct Hparams as [Hp Hm]. unfold min_viable_output. cbv zeta.
  assert (0 <= estimate_fee (fee_policy params) 1 1 <= 2 ^ 29) as Hfee.
  { destruct (estimate_fee_ideal (fee_policy params) 1 1 Hp) as [-> Hf]; [lia|lia|].
    destruct Hp. unfold ideal_fee, BASE_SIZE, VEC_LEN_OVERHEAD, SINGLE_INPUT_SIZE, SINGLE_OUTPUT_SIZE in *. lia. }
  set (f := estimate_fee _ _ _) in *. rewrite (wrap64_small (f + _)) by lia.
  pose proof (Z.div_le_upper_bound (f + min_output_value params) 2 (f + min_output_value params) ltac:(lia) ltac:(lia)).
  pose proof (Z.div_pos (f + min_output_value params) 2 ltac:(lia) ltac:(lia)). rewrite wrap64_small by lia. lia.
Qed.

Lemma fee_nonneg n m : 0 <= estimate_fee (fee_policy params) n m.
Proof. unfold estimate_fee. cbv zeta. apply (wrap_range 64). lia. Qed.

Lemma viable_product m : 0 <= m <= 2 ^ 8 -> wrap 64 (mv * m) = m * mv.
Proof. intros Hm. pose proof min_viable_small. rewrite wrap64_small by nia. lia. Qed.

(** The loop finds a number of outputs whenever the least one fits, and only numbers that fit. *)
Lemma viable_outputs_spec n total best low k :
  0 <= low -> low + Z.of_nat k <= 2 ^ 8 ->
  let r := viable_outputs (estimate_fee (fee_policy params) n) mv total best (seqZ low (Z.of_nat k)) in
  (r = best \/ low <= r < low + Z.of_nat k) /\
  (forall m, low <= m <= r -> m < low + Z.of_nat k -> r <> best -> affordable params n m total) /\
  ((0 < k)%nat -> affordable params n low total -> low <= r \/ r <> best).
Proof.
  revert best low. induction k as [|k IH]; intros best low Hlow Hk; cbv zeta.
  { cbn. split; [by left|]. split; [intros m Hm Hlt; lia|lia]. }
  rewrite seqZ_cons by lia. cbn [viable_outputs]. replace (Z.pred (Z.of_nat (S k))) with (Z.of_nat k) by lia.
  replace (Z.succ low) with (low + 1) by lia.
  rewrite viable_product by lia. unfold affordable.
  destruct (Z.leb_spec total (estimate_fee (fee_policy params) n low)) as [Hle|Hgt].
  { split; [by left|]. split; [done|intros _ [Hx _]; lia]. }
  destruct (Z.leb_spec (low * mv) (total - estimate_fee (fee_policy params) n low)) as [Hle|Hlt].
  2: { split; [by left|]. split; [done|intros _ [_ Hx]; lia]. }
  destruct (IH low (low + 1)) as (Hr & Hall & _); [lia|lia|]. cbv zeta in *.
  set (r := viable_outputs _ _ _ _ _) in *. split; [right; lia|]. split.
  - intros m Hm Hlt Hne. destruct (decide (m = low)) as [->|Hml]; [done|]. apply Hall; lia.
  - intros _ _. left. lia.
Qed.
End Params.

(** * Distribution *)

Section Distribution.
Context {X : Externals} {R : Type} `{RandomSourceLaws R}.
Context (params : TransactionGenerationParams) (Hparams : params_small params).
Local Notation mv := (min_viable_output params).
Implicit Types (receiver_pool : list AccountAddress).

Lemma output_value_answers n i remaining :
  0 <= i < n -> n <= 2 ^ 8 -> (n - i) * mv <= remaining < 2 ^ 63 ->
  answers (R := R) (output_value n mv i remaining)
    (fun o => exists v, o = Some v /\ mv <= v <= remaining /\ (n - i - 1) * mv <= remaining - v /\
      (i = n - 1 -> v = remaining)).
Proof.
  intros Hi Hn Hrem. pose proof (min_viable_small params Hparams) as Hmv. unfold output_value.
  destruct (Z.eqb_spec i (n - 1)) as [->|Hlast].
  { apply answers_ret. exists remaining. replace (n - (n - 1) - 1) with 0 by lia. split_and!; [done|nia|lia|lia|done]. }
  cbv zeta. unfold saturating_mul, saturating_sub. assert (uint_max 64 = 2 ^ 64 - 1) as Hmax by done.
  set (left := n - i - 1) in *. assert (0 < left <= 2 ^ 8) as Hleft by lia.
  rewrite (Z.min_l (mv * left)) by nia. replace (n - i) with (left + 1) in * by lia.
  rewrite (Z.max_l (remaining - mv * left)) by nia.
  destruct (Z.ltb_spec (remaining - mv * left) mv) as [Hlt|_]; [nia|].
  assert (mv <= remaining / (left + 1)) as Hfair by (apply Z.div_le_lower_bound; nia).
  destruct (Z.leb_spec (Z.min (remaining / (left + 1)) (remaining - mv * left)) mv) as [Hle|Hgt].
  - apply answers_ret. exists mv. split_and!; [done|lia|nia|nia|lia].
  - answer (answers_range _ _ _); [lia|]. intros v Hv. apply answers_ret. exists v.
    split_and!; [done|lia|nia|nia|lia].
Qed.

Lemma distribute_answers n i remaining receivers outputs :
  0 <= i -> Z.of_nat (length receivers) = n - i -> n <= 2 ^ 8 -> receivers <> [] ->
  (n - i) * mv <= remaining < 2 ^ 63 ->
  answers (R := R) (distribute n mv i remaining receivers outputs)
    (fun o => exists new, o = Some (outputs ++ new) /\ recipient <$> new = receivers /\
      zsum (value <$> new) = remaining /\ Forall (fun o => mv <= value o) new).
Proof.
  revert i remaining outputs. induction receivers as [|r rs IH]; intros i remaining outputs Hi Hlen Hn Hne Hrem; [done|].
  cbn [distribute length] in *. answer (output_value_answers n i remaining _ Hn Hrem); [lia|].
  intros o (v & -> & Hv & Hrest & Hlast). unfold saturating_sub. rewrite Z.max_l by lia.
  destruct rs as [|r' rs].
  - cbn [distribute]. apply answers_ret. exists [mk_TransactionOut v r]. split; [done|]. split; [done|].
    cbn in Hlen. rewrite <-Hlast by lia. split; [change (v + 0 = v); lia|]. apply Forall_singleton. cbn [value]. lia.
  - eapply answers_weaken.
    + apply (IH (i + 1) (remaining - v)); [lia|lia|done|done|]. pose proof (min_viable_small params Hparams).
      replace (n - (i + 1)) with (n - i - 1) by lia. lia.
    + intros o (new & -> & Hrec & Hsum & Hall). exists (mk_TransactionOut v r :: new).
      rewrite <-app_assoc. split; [done|]. rewrite !fmap_cons, zsum_cons. cbn [value recipient].
      split_and!; [by rewrite Hrec|lia|apply Forall_cons; split; [cbn [value]; lia|done]].
Qed.

(** Both multi-output patterns: a number of outputs, receivers, the values, and the check of
    their sum. *)
Definition spread total fee_of receiver_pool ins max_possible : gen R (option (TransactionData * list TransactionOut)) :=
  num_outputs ← random_range 2 max_possible;
  let fee := fee_of num_outputs in
  if total <=? fee then mret None
  else
    let available := total - fee in
    if available <? wrap 64 (mv * num_outputs) then mret None
    else
      receivers ← sample receiver_pool num_outputs;
      distributed ← distribute num_outputs mv 0 available receivers [];
      match distributed with
      | None => mret None
      | Some outputs =>
          if negb (wrapping_sum (value <$> outputs) =? available) then mret None
          else mret (Some (payment_data ins outputs, outputs))
      end.

Lemma spread_answers n total receiver_pool ins limit :
  let fee_of := estimate_fee (fee_policy params) n in
  let most := viable_outputs fee_of mv total 0 (seqZ 2 (Z.min limit (Z.of_nat (length receiver_pool)) - 1)) in
  2 <= Z.min limit (Z.of_nat (length receiver_pool)) -> limit <= 8 -> total < 2 ^ 62 ->
  (2 <= most <-> affordable params n 2 total) /\
  (2 <= most -> answers (spread total fee_of receiver_pool ins most) (fun o => exists outs,
     o = Some (payment_data ins outs, outs) /\ outs <> [] /\ total = zsum (value <$> outs) + fee_of (Z.of_nat (length outs)) /\
     Forall (fun o => mv <= value o) outs /\ (recipient <$> outs) ⊆+ receiver_pool)).
Proof.
  intros fee_of most Hlim Hmax Htotal. set (top := Z.min limit _) in *.
  destruct (viable_outputs_spec params Hparams n total 0 2 (Z.to_nat (top - 1))) as (Hr & Hall & Hsome); [lia|lia|].
  rewrite !Z2Nat.id in * by lia. cbv zeta in *. fold fee_of in Hr, Hall, Hsome. fold most in Hr, Hall, Hsome. split.
  { split; [intros Hm; apply Hall; lia|]. intros Haff. destruct (Hsome ltac:(lia) Haff); lia. }
  intros Hm. unfold spread. answer (answers_range _ _ Hm). intros k Hk.
  destruct (Hall k) as [Hfee Haff]; [lia|lia|lia|]. fold fee_of in Hfee, Haff. cbv zeta.
  pose proof (fee_nonneg params n k) as Hf0. fold fee_of in Hf0.
  destruct (Z.leb_spec total (fee_of k)) as [?|_]; [lia|]. rewrite (viable_product params Hparams k) by lia.
  destruct (Z.ltb_spec (total - fee_of k) (k * mv)) as [?|_]; [lia|].
  answer (answers_sample receiver_pool k _); [lia|]. intros receivers [Hlen Hsub].
  answer (distribute_answers k 0 (total - fee_of k) receivers [] _ _ _ _ _); [lia|lia|lia|by intros ->; cbn in Hlen; lia|lia|].
  intros o (outs & -> & Hrec & Hsum & Hviable). cbn [app].
  pose proof (min_viable_small params Hparams) as Hmv. rewrite wrapping_sum_small.
  - rewrite Hsum, Z.eqb_refl. cbn [negb]. apply answers_ret. exists outs. rewrite Hrec.
    assert (Z.of_nat (length outs) = k) as -> by (by rewrite <-Hlen, <-Hrec, length_fmap).
    split_and!; [done|intros ->; cbn in Hrec; rewrite <-Hrec in Hlen; cbn in Hlen; lia|lia|done|done].
  - apply Forall_fmap. eapply Forall_impl; [exact Hviable|]. cbn. lia.
  - lia.
Qed.
End Distribution.

(** * Generated payments *)

Section Generated.
Context {X : Externals} {R : Type} `{RandomSourceLaws R}.
Context (params : TransactionGenerationParams) (Hparams : params_small params).
Implicit Types (receiver_pool : list AccountAddress).

(** What a generating function returns for UTXOs whose total pays [m] outputs or more. *)
Definition built receiver_pool used (o : option (TransactionData * list TransactionOut)) : Prop :=
  exists outs, o = Some (payment_data (spend_info <$> used) outs, outs) /\ outs <> [] /\
    infos_total used =
      zsum (value <$> outs) + estimate_fee (fee_policy params) (Z.of_nat (length used)) (Z.of_nat (length outs)) /\
    Forall (fun o => min_viable_output params <= value o) outs /\ (recipient <$> outs) ⊆+ receiver_pool.

(** The common end of the single-output patterns. *)
Lemma single_output n total receiver receiver_pool used :
  receiver ∈ receiver_pool -> infos_total used = total -> Z.of_nat (length used) = n ->
  let fee := estimate_fee (fee_policy params) n 1 in
  let o := if total <=? fee then None
           else if total - fee <? min_viable_output params then None
           else Some (payment_data (spend_info <$> used) [mk_TransactionOut (total - fee) receiver],
                      [mk_TransactionOut (total - fee) receiver]) in
  (is_Some o <-> affordable params n 1 total) /\ (is_Some o -> built receiver_pool used o).
Proof.
  intros Hr Ht Hn fee. unfold affordable. fold fee. destruct (Z.leb_spec total fee).
  { split; [split; [by intros []|lia]|by intros []]. }
  destruct (Z.ltb_spec (total - fee) (min_viable_output params)).
  { split; [split; [by intros []|lia]|by intros []]. }
  split; [split; [lia|by eexists]|]. intros _. eexists. split; [done|]. split; [done|].
  rewrite Ht, Hn. change (Z.of_nat (length [_])) with 1. fold fee.
  change (zsum _) with (total - fee + 0). split; [lia|]. split.
  - apply Forall_singleton. done.
  - apply singleton_submseteq_l. done.
Qed.

Lemma infos_total_one u : infos_total [u] = info_value u.
Proof. unfold infos_total. cbn. lia. Qed.

(** What [generate_transaction] does before it signs. *)
Definition generate_data (pattern : TransactionPattern) utxos receiver_pool :
    gen R (option (TransactionData * list TransactionOut)) :=
  match pattern with
  | Simple => match utxos with [] => mret None | u :: _ => generate_simple_tx u receiver_pool params end
  | Consolidation => if (length utxos <? 2)%nat then mret None else generate_consolidation_tx utxos receiver_pool params
  | Splitting => match utxos with [] => mret None | u :: _ => generate_splitting_tx u receiver_pool params end
  | Complex => if (length utxos <? 2)%nat then mret None else generate_complex_tx utxos receiver_pool params
  end.

Lemma simple_answers u utxos receiver_pool :
  infos_fit (u :: utxos) ->
  answers (R := R) (generate_simple_tx u receiver_pool params) (fun o =>
    (is_Some o <-> viable params Simple (u :: utxos) receiver_pool) /\ (is_Some o -> built receiver_pool [u] o)).
Proof.
  intros Hfit. unfold generate_simple_tx. answer (answers_choose receiver_pool). intros [r|] Hr.
  - cbv zeta. destruct (single_output 1 (info_value u) r receiver_pool [u] Hr (infos_total_one u) eq_refl) as [Hs Hb].
    cbv zeta in *. unfold viable. cbn [infos_used firstn]. rewrite infos_total_one. change (Z.of_nat (length [u])) with 1.
    assert (receiver_pool <> []) as Hne by (by intros ->; apply not_elem_of_nil in Hr).
    destruct (info_value u <=? _); [|destruct (_ <? min_viable_output params)]; apply answers_ret; rewrite Hs; naive_solver.
  - subst. apply answers_ret. split; [split; [by intros []|by intros (_ & ? & _)]|by intros []].
Qed.

Lemma consolidation_answers utxos receiver_pool :
  infos_fit utxos -> (2 <= length utxos)%nat ->
  let used := infos_used params Consolidation utxos in
  answers (R := R) (generate_consolidation_tx utxos receiver_pool params) (fun o =>
    (is_Some o <-> viable params Consolidation utxos receiver_pool) /\ (is_Some o -> built receiver_pool used o)).
Proof.
  intros Hfit Hlen used. unfold generate_consolidation_tx. destruct (Nat.ltb_spec (length utxos) 2); [lia|].
  cbv zeta. change (take (Z.to_nat (max_inputs params)) utxos) with used. destruct (infos_sum used) as [-> _]; [by apply infos_fit_take|].
  answer (answers_choose receiver_pool). intros [r|] Hr.
  - destruct (single_output _ _ r receiver_pool used Hr eq_refl eq_refl) as [Hs Hb]. cbv zeta in *.
    unfold viable. fold used. assert (receiver_pool <> []) as Hne by (by intros ->; apply not_elem_of_nil in Hr).
    destruct (infos_total used <=? _); [|destruct (_ <? min_viable_output params)]; apply answers_ret; rewrite Hs; naive_solver.
  - subst. apply answers_ret. split; [split; [by intros []|by intros (_ & ? & _)]|by intros []].
Qed.

Lemma splitting_answers u utxos receiver_pool :
  infos_fit (u :: utxos) ->
  answers (R := R) (generate_splitting_tx u receiver_pool params) (fun o =>
    (is_Some o <-> viable params Splitting (u :: utxos) receiver_pool) /\ (is_Some o -> built receiver_pool [u] o)).
Proof.
  intros Hfit. assert (infos_fit [u]) as Hu by exact (infos_fit_take (u :: utxos) 1 Hfit).
  apply infos_sum in Hu as [_ Hu]. rewrite infos_total_one in Hu.
  unfold generate_splitting_tx, viable. cbv zeta. cbn [infos_used firstn]. rewrite infos_total_one. change (Z.of_nat (length [u])) with 1.
  destruct (Z.ltb_spec (Z.min (Z.min 4 (max_outputs params)) (Z.of_nat (length receiver_pool))) 2) as [Hlt|Hge].
  { apply answers_ret. split; [split; [by intros []|intros; lia]|by intros []]. }
  destruct (spread_answers (R := R) params Hparams 1 (info_value u) receiver_pool [spend_info u] (Z.min 4 (max_outputs params)))
    as [Hiff Hans]; [done|lia|lia|]. cbv zeta in *. set (most := viable_outputs _ _ _ _ _) in *.
  destruct (Z.ltb_spec most 2) as [Hm|Hm].
  { apply answers_ret. split; [split; [by intros []|intros (_ & _ & _ & Ha)]|by intros []]. apply Hiff in Ha. lia. }
  eapply answers_weaken; [exact (Hans Hm)|]. cbv beta. intros o (outs & -> & Hne & Hsum & Hv & Hsub). split.
  - split; [|by eexists]. intros _. split_and!; [done|lia|lia|by apply Hiff].
  - intros _. exists outs. split_and!; [done|done|by rewrite infos_total_one|done|done].
Qed.

Lemma complex_answers utxos receiver_pool :
  infos_fit utxos -> (2 <= length utxos)%nat ->
  let used := infos_used params Complex utxos in
  answers (R := R) (generate_complex_tx utxos receiver_pool params) (fun o =>
    (is_Some o <-> viable params Complex utxos receiver_pool) /\ (is_Some o -> built receiver_pool used o)).
Proof.
  intros Hfit Hlen used. unfold generate_complex_tx. destruct (Nat.ltb_spec (length utxos) 2); [lia|].
  cbv zeta. change (take (Z.to_nat (max_inputs params)) utxos) with used. destruct (infos_sum used) as [-> Ht]; [by apply infos_fit_take|]. unfold viable. cbv zeta. fold used.
  destruct (Z.ltb_spec (Z.min (Z.min 5 (max_outputs params)) (Z.of_nat (length receiver_pool))) 2) as [Hlt|Hge].
  { apply answers_ret. split; [split; [by intros []|intros; lia]|by intros []]. }
  destruct (spread_answers (R := R) params Hparams (Z.of_nat (length used)) (infos_total used) receiver_pool
    (spend_info <$> used) (Z.min 5 (max_outputs params))) as [Hiff Hans]; [done|lia|lia|]. cbv zeta in *.
  set (most := viable_outputs _ _ _ _ _) in *. destruct (Z.ltb_spec most 2) as [Hm|Hm].
  { apply answers_ret. split; [split; [by intros []|intros (_ & _ & _ & Ha)]|by intros []]. apply Hiff in Ha. lia. }
  eapply answers_weaken; [exact (Hans Hm)|]. cbv beta. intros o (outs & -> & Hne & Hsum & Hv & Hsub). split.
  - split; [|by eexists]. intros _. split_and!; [done|lia|lia|by apply Hiff].
  - intros _. exists outs. done.
Qed.

Lemma generate_data_answers pattern utxos receiver_pool :
  infos_fit utxos ->
  let used := infos_used params pattern utxos in
  answers (generate_data pattern utxos receiver_pool) (fun o =>
    (is_Some o <-> viable params pattern utxos receiver_pool) /\ (is_Some o -> built receiver_pool used o)).
Proof.
  intros Hfit used. unfold generate_data. destruct pattern.
  - destruct utxos as [|u utxos]; [|by apply simple_answers].
    apply answers_ret. split; [split; [by intros []|by intros [? _]]|by intros []].
  - destruct (Nat.ltb_spec (length utxos) 2); [|by apply consolidation_answers].
    apply answers_ret. split; [split; [by intros []|intros [? _]; lia]|by intros []].
  - destruct utxos as [|u utxos]; [|by apply splitting_answers].
    apply answers_ret. split; [split; [by intros []|by intros [? _]]|by intros []].
  - destruct (Nat.ltb_spec (length utxos) 2); [|by apply complex_answers].
    apply answers_ret. split; [split; [by intros []|intros [? _]; lia]|by intros []].
Qed.

(** Whatever the random source yields, a payment is generated exactly when the pattern is
    viable. *)
Lemma generate_transaction_answers key pattern utxos receiver_pool :
  infos_fit utxos ->
  answers (R := R) (generate_transaction key pattern utxos receiver_pool params) (fun o =>
    (is_Some o <-> viable params pattern utxos receiver_pool) /\
    forall t, o = Some t -> payment_of params key receiver_pool (infos_used params pattern utxos) t).
Proof.
  intros Hfit. unfold generate_transaction. answer (generate_data_answers pattern utxos receiver_pool Hfit).
  intros o [Hiff Hb]. apply answers_ret. split; [rewrite <-Hiff; destruct o; split; intros [? ?]; (done || by eexists)|].
  intros t Ht. destruct o as [g|]; [|done]. destruct Hb as (outs & [= ->] & ?); [by eexists|].
  injection Ht as <-. by exists outs.
Qed.
End Generated.
