(* ===== verification/Accounts.v ===== *)
(** Accounts: private keys ([stryi_core/src/private_key.rs]), and the state of the generator of
    test chains: the funding account ([stryi_devkit/src/chaingen/funding_account.rs]), the
    generated accounts and their UTXOs ([chaingen/state.rs]), the payment that funds them
    ([chaingen/txgen.rs]). *)
From S2P Require Import Prelude Bytes Types Externals Hashing Transactions Blocks Storage UtxoProcessor Engine Wallet Strategy Txgen.
From stdpp Require Import pretty.
From Stdlib Require Import Zpow_facts.
#[local] Open Scope Z_scope.

(** * Private keys *)

(** [k256]: the 32 bytes of a key, the key of a slice, and the key drawn from the standard
    random source seeded with a number. *)
Class KeyBytes `{Externals} := {
  key_to_bytes : SigningKey -> list byte;
  key_from_slice : list byte -> result string SigningKey;
  seeded_key : Z -> SigningKey;
}.

(** Keys survive their byte form, and only 32 bytes make a key. *)
Class KeyBytesLaws `{KeyBytes} : Prop := {
  key_from_to_bytes k : key_from_slice (key_to_bytes k) = Ok k;
  key_from_slice_length l k : key_from_slice l = Ok k -> length l = 32%nat;
}.

(** Keys of one byte. *)
Module ToyKeys.
Import Toy.
#[export] Instance toy_keys : KeyBytes := {|
  key_to_bytes k := (k : byte) :: replicate 31 Byte.x00;
  key_from_slice l :=
    match l with
    | k :: rest => if bool_decide (rest = replicate 31 Byte.x00) then Ok (k : byte) else Err "crypto error"%string
    | [] => Err "crypto error"%string
    end;
  seeded_key z := byte_of z;
|}.

#[export] Instance toy_keys_laws : KeyBytesLaws.
Proof.
  split; [done|]. intros [|k' rest] k; cbn [key_from_slice toy_keys]; [done|]. case_bool_decide as Hr; [|done].
  intros _. by rewrite Hr.
Qed.
End ToyKeys.

Record PrivateKey `{Externals} := mk_PrivateKey { into_inner : SigningKey }.
Arguments mk_PrivateKey {_} _.
Arguments into_inner {_} _.

Section PrivateKeys.
Context {X : Externals} {K : KeyBytes}.

(** [Display]; serialization writes the same text. *)
Definition PrivateKey_to_string (k : PrivateKey) : string := hex_encode (key_to_bytes (into_inner k)).

(** [TryFrom<String>]; deserialization reads the same text. *)
Definition PrivateKey_try_from (s : string) : result StryiCoreError PrivateKey :=
  bytes ← map_err InvalidHex (hex_decode s);
  inner ← map_err InvalidPrivateKey (key_from_slice bytes);
  mret (mk_PrivateKey inner).

(** [PartialEq]: the bytes decide. *)
Definition PrivateKey_eqb (a b : PrivateKey) : bool :=
  bool_decide (key_to_bytes (into_inner a) = key_to_bytes (into_inner b)).

(** A key is read back from its text, and only text of 32 bytes reads as a key. *)
Lemma private_key_roundtrip `{!HexLaws} `{!KeyBytesLaws} k : PrivateKey_try_from (PrivateKey_to_string k) = Ok k.
Proof.
  unfold PrivateKey_try_from, PrivateKey_to_string. rewrite hex_decode_encode. cbn [map_err mbind result_bind].
  rewrite key_from_to_bytes. by destruct k.
Qed.

Lemma private_key_text_length `{!HexLaws} `{!KeyBytesLaws} s k : PrivateKey_try_from s = Ok k -> String.length s = 64%nat.
Proof.
  unfold PrivateKey_try_from. intros (bytes & Hb%map_err_Ok & Hk)%bind_Ok.
  apply bind_Ok in Hk as (inner & Hk%map_err_Ok & _). apply key_from_slice_length in Hk.
  apply hex_decode_length in Hb. lia.
Qed.
End PrivateKeys.

(** * The funding account *)

Record FundAccount `{Externals} := mk_FundAccount {
  funder_address : AccountAddress;
  fund_private_key : PrivateKey;
  fund_utxos : gmap OutPoint UTXO;
}.
Arguments mk_FundAccount {_} _ _ _.
Arguments funder_address {_} _.
Arguments fund_private_key {_} _.
Arguments fund_utxos {_} _.

Definition MINIMAL_TOTAL_AVAILABLE_BALANCE_FUNDING_ACCOUNT : Z := 1000000.

(** The wrapping sum over a map of UTXOs, which no order changes. *)
Definition utxos_sum (utxos : gmap OutPoint UTXO) : Z := wrapping_sum (utxo_value <$> (map_to_list utxos).*2).

Section Funding.
Context {X : Externals} {DB : Type} `{FullNodeStorage DB}.

(** [FundAccount::load_from_private_key] *)
Definition load_from_private_key (private_key : PrivateKey) (storage : DB) : result string FundAccount :=
  let funder_address := from_public_key (verifying_key (into_inner private_key)) in
  view ← map_err (fun _ => "{e}"%string) (db_read storage);
  utxos ← map_err (fun _ => "failed to load funder UTXOs from storage: {e}"%string)
    (get_utxos_for_address view funder_address);
  if bool_decide (utxos = ∅) then
    Err "Provided funding key, apparently, has no available balance in chain for distribution."%string
  else if utxos_sum utxos <? MINIMAL_TOTAL_AVAILABLE_BALANCE_FUNDING_ACCOUNT then
    Err "Funder account has not enough balance to be funder. It has {} out of {} minimal"%string
  else Ok (mk_FundAccount funder_address private_key utxos).

(** [FundAccount::total_balance] *)
Definition total_balance (f : FundAccount) : Z := utxos_sum (fund_utxos f).
End Funding.

(** * The state *)

(** The two index maps keep the order of insertion. *)
Record GenerationState `{Externals} := mk_GenerationState {
  accounts : list (AccountAddress * SigningKey);
  fund_account : FundAccount;
  account_utxos : list (AccountAddress * list UtxoInfo);
}.
Arguments mk_GenerationState {_} _ _ _.
Arguments accounts {_} _.
Arguments fund_account {_} _.
Arguments account_utxos {_} _.

(** [IndexMap::insert] replaces the value of a key in place. *)
Fixpoint index_map_insert {V} (m : list (AccountAddress * V)) (k : AccountAddress) (v : V) : list (AccountAddress * V) :=
  match m with
  | [] => [(k, v)]
  | (k', v') :: m => if bool_decide (k' = k) then (k, v) :: m else (k', v') :: index_map_insert m k v
  end.

(** [IndexMap::get] *)
Definition index_map_get {V} (m : list (AccountAddress * V)) (k : AccountAddress) : option V :=
  snd <$> find (fun e => bool_decide (e.1 = k)) m.

(** [entry(owner).or_default().insert(new_utxo)] *)
Fixpoint insert_info (m : list (AccountAddress * list UtxoInfo)) (owner : AccountAddress) (u : UtxoInfo) :
    list (AccountAddress * list UtxoInfo) :=
  match m with
  | [] => [(owner, [u])]
  | (a, us) :: m =>
      if bool_decide (a = owner) then (a, if bool_decide (u ∈ us) then us else us ++ [u]) :: m
      else (a, us) :: insert_info m owner u
  end.

(** The orders of addresses and outpoints: bytes first, then positions. *)
Definition address_le (a b : AccountAddress) : Prop := bytes_le (arr (hash_data a)) (arr (hash_data b)) = true.
Definition outpoint_le (a b : OutPoint) : Prop :=
  if bool_decide (txid a = txid b) then vout a <= vout b
  else bytes_le (arr (hash_data (txid a))) (arr (hash_data (txid b))) = true.

#[export] Instance address_le_dec a b : Decision (address_le a b).
Proof. unfold address_le. apply _. Defined.
#[export] Instance outpoint_le_dec a b : Decision (outpoint_le a b).
Proof. unfold outpoint_le. destruct (bool_decide _); apply _. Defined.

(** The orders of the lists of the generator. *)
Definition fewest_first (a b : AccountAddress * nat) : Prop :=
  (a.2 < b.2)%nat \/ (a.2 = b.2 /\ address_le a.1 b.1).
#[export] Instance fewest_first_dec a b : Decision (fewest_first a b).
Proof. unfold fewest_first. apply _. Defined.
Definition most_first {V} (a b : AccountAddress * V * list UtxoInfo) : Prop :=
  (length b.2 < length a.2)%nat \/ (length a.2 = length b.2 /\ address_le a.1.1 b.1.1).
#[export] Instance most_first_dec {V} (a b : AccountAddress * V * list UtxoInfo) : Decision (most_first a b).
Proof. unfold most_first. apply _. Defined.
Definition info_outpoint_le (a b : UtxoInfo) : Prop := outpoint_le (info_outpoint a) (info_outpoint b).
#[export] Instance info_outpoint_le_dec a b : Decision (info_outpoint_le a b).
Proof. unfold info_outpoint_le. apply _. Defined.
Definition recipient_le (a b : TransactionOut) : Prop := address_le (recipient a) (recipient b).
#[export] Instance recipient_le_dec a b : Decision (recipient_le a b).
Proof. unfold recipient_le. apply _. Defined.

(** The order of a selection criterion. *)
Definition criteria_le (criteria : UtxoSelectionCriteria) (a b : UtxoInfo) : Prop :=
  match criteria with
  | Oldest => height_created a <= height_created b
  | Newest => height_created b <= height_created a
  | Largest => info_value b <= info_value a
  | Smallest => info_value a <= info_value b
  end.
#[export] Instance criteria_le_dec criteria a b : Decision (criteria_le criteria a b).
Proof. unfold criteria_le. destruct criteria; apply _. Defined.

Section State.
Context {X : Externals} {K : KeyBytes} {R : Type} `{RandomSource R}.
Implicit Types (st : GenerationState).

(** [u64::wrapping_pow] *)
Definition wrapping_pow (base exponent : Z) : Z := Zpow_mod base exponent (2 ^ 64).

(** The seed of account [i]. *)
Definition account_seed (base_seed start_height : Z) (i : nat) : Z :=
  let base_seed := wrapping_pow base_seed (if start_height =? 0 then 1 else wrap 32 start_height) in
  wrap 64 (base_seed + Z.of_nat i).

(** The power of an even seed vanishes from height 64 on: the accounts then depend on neither
    the seed nor the height. *)
Lemma even_seed_vanishes base_seed start_height i :
  Z.even base_seed = true -> 64 <= start_height < 2 ^ 32 ->
  account_seed base_seed start_height i = wrap 64 (Z.of_nat i).
Proof.
  intros [k ->]%Zeven_bool_iff%Zeven_ex_iff Hh. unfold account_seed, wrapping_pow.
  rewrite (proj2 (Z.eqb_neq start_height 0)) by lia. unfold wrap at 2. rewrite (Z.mod_small start_height) by lia.
  rewrite Zpow_mod_correct by done. rewrite Z.pow_mul_l.
  replace start_height with (64 + (start_height - 64)) at 1 by lia. rewrite Z.pow_add_r by lia.
  rewrite <-!Z.mul_assoc, Z.mul_comm, Z.mod_mul by done. done.
Qed.

(** The loop of [generate_accounts]. *)
Fixpoint accounts_loop (deadline : bool) (base_seed start_height : Z) (indexes : list nat)
    (accounts : list (AccountAddress * SigningKey)) : gen R (list (AccountAddress * SigningKey)) :=
  match indexes with
  | [] => mret accounts
  | i :: indexes =>
      _ ← check_generation_deadline deadline (Some start_height);
      let signing_key := seeded_key (account_seed base_seed start_height i) in
      let account_address := from_public_key (verifying_key signing_key) in
      accounts_loop deadline base_seed start_height indexes (index_map_insert accounts account_address signing_key)
  end.

(** [generate_accounts] *)
Definition generate_accounts (amount : nat) (base_seed start_height : Z) (deadline : bool) :
    gen R (list (AccountAddress * SigningKey)) :=
  _ ← check_generation_deadline deadline (Some start_height);
  accounts ← accounts_loop deadline base_seed start_height (seq 0 amount) [];
  _ ← check_generation_deadline deadline (Some start_height);
  mret accounts.

(** [new_with_random_accounts] *)
Definition new_with_random_accounts (n : nat) (fund_account : FundAccount) (base_seed start_height : Z)
    (deadline : bool) : gen R GenerationState :=
  accounts ← generate_accounts n base_seed start_height deadline;
  mret (mk_GenerationState accounts fund_account []).

(** [get_best_receivers] *)
Definition get_best_receivers st (n : nat) : option (list AccountAddress) :=
  if bool_decide (accounts st = []) || (n =? 0)%nat then Some []
  else if (length (accounts st) <? n)%nat then None
  else
    let addr_counts := (fun e => (e.1, length (default [] (index_map_get (account_utxos st) e.1)))) <$> accounts st in
    Some (fst <$> take n (merge_sort fewest_first addr_counts)).

(** [get_top_accounts_with_utxos] *)
Definition get_top_accounts_with_utxos st (n : nat) : list (AccountAddress * SigningKey * list UtxoInfo) :=
  let accounts_with_utxos :=
    omap (fun e =>
      signing_key ← index_map_get (accounts st) e.1;
      Some (e.1, signing_key, merge_sort info_outpoint_le e.2))
      (filter (fun e => e.2 <> []) (account_utxos st)) in
  take n (merge_sort most_first accounts_with_utxos).

(** [select_utxos_by_criteria]; the sort is stable. *)
Definition select_utxos_by_criteria (utxos : list UtxoInfo) (criteria : UtxoSelectionCriteria) (count : Z) :
    list UtxoInfo :=
  if bool_decide (utxos = []) || (count =? 0) then []
  else take (Z.to_nat count) (merge_sort (criteria_le criteria) utxos).

(** The outputs of a transaction as the generator records them. *)
Definition created_infos (height : Z) (t : Transaction) : list (AccountAddress * UtxoInfo) :=
  let tx_id := tx_hash (tx_data t) in
  let is_coinbase := is_coinbase t in
  imap (fun idx output =>
    (recipient output,
     mk_UtxoInfo (mk_OutPoint tx_id (wrap 32 (Z.of_nat idx))) (value output) height is_coinbase)) (outputs (tx_data t)).

(** [GenerationState::apply_block] *)
Definition state_apply_block st (block : Block) : GenerationState :=
  let height := height (header block) in
  let txs := transactions block in
  let spent_outpoints := txs ≫= fun t => previous_output <$> inputs (tx_data t) in
  let account_utxos :=
    if bool_decide (spent_outpoints = []) then account_utxos st
    else
      let spent_set := list_to_set (C := gset OutPoint) spent_outpoints in
      (fun e => (e.1, filter (fun u => info_outpoint u ∉ spent_set) e.2)) <$> account_utxos st in
  let account_utxos :=
    foldl (fun acc t => foldl (fun acc e => insert_info acc e.1 e.2) acc (created_infos height t)) account_utxos txs in
  mk_GenerationState (accounts st) (fund_account st) account_utxos.

(** * The distributing transaction *)

(** [generate_distributing_transaction]; dividing among no accounts panics. *)
Definition generate_distributing_transaction st : result GenError Transaction :=
  if negb (bool_decide (account_utxos st = [])) then
    Err (Failed "No UTXOs on generated addresses must be present before the distribution block")
  else
    let fund_account := fund_account st in
    let utxos := fund_utxos fund_account in
    let total_balance := total_balance fund_account in
    let account_num := Z.of_nat (length (accounts st)) in
    let num_inputs := Z.of_nat (size utxos) in
    let actual_fee := estimate_fee FeePolicy_default num_inputs account_num in
    if total_balance <=? actual_fee then Err (Failed "Insufficient balance to cover transaction fee")
    else
      let distributable := total_balance - actual_fee in
      if account_num =? 0 then Err (Panicked "attempt to divide by zero")
      else
        let balance_per_account := distributable / account_num in
        let balance_per_account := balance_per_account / 10 * 10 in
        let distributed := wrap 64 (balance_per_account * account_num) in
        let leftover := wrap 64 (distributable - distributed) in
        if balance_per_account <? min_output_value params_default then
          Err (Failed "Distribution amount per account below minimum viable output")
        else
          let inputs := (fun outpoint => mk_TransactionIn outpoint 0) <$> (merge_sort outpoint_le (map_to_list utxos).*1) in
          let outputs := merge_sort recipient_le ((fun e => mk_TransactionOut balance_per_account e.1) <$> accounts st) in
          let outputs :=
            match outputs with
            | first :: rest =>
                if 0 <? leftover then mk_TransactionOut (wrap 64 (value first + leftover)) (recipient first) :: rest
                else outputs
            | [] => outputs
            end in
          Ok (sign (payment_data inputs outputs) (into_inner (fund_private_key fund_account))).
End State.

(** * The state and the UTXO set *)

Section Sync.
Context {X : Externals}.
Implicit Types (st : GenerationState) (m : gmap OutPoint UTXO) (us : list (AccountAddress * list UtxoInfo)).

(** Every recorded UTXO with its owner. *)
Definition tracked us : list (AccountAddress * UtxoInfo) := us ≫= fun e => pair e.1 <$> e.2.
Definition tracked_ops us : list OutPoint := (fun e => info_outpoint e.2) <$> tracked us.

(** The recorded UTXOs are outputs of the chain, once each and with their owners and values,
    and those of the generated accounts are all recorded. *)
Record in_sync st m : Prop := {
  sy_sound a u : (a, u) ∈ tracked (account_utxos st) ->
    exists x, m !! info_outpoint u = Some x /\ owner x = a /\ utxo_value x = info_value u;
  sy_distinct : NoDup (tracked_ops (account_utxos st));
  sy_keys : NoDup (account_utxos st).*1;
  sy_complete op x : m !! op = Some x -> owner x ∈ (accounts st).*1 ->
    exists u, (owner x, u) ∈ tracked (account_utxos st) /\ info_outpoint u = op;
}.

Lemma elem_of_tracked us a u : (a, u) ∈ tracked us <-> exists l, (a, l) ∈ us /\ u ∈ l.
Proof.
  unfold tracked. rewrite list_elem_of_bind. split.
  - intros ([a' l] & Hin & Hl). apply list_elem_of_fmap in Hin as (u' & [= -> ->] & Hu). by exists l.
  - intros (l & Hl & Hu). exists (a, l). split; [|done]. cbn. by apply list_elem_of_fmap_2.
Qed.

Lemma tracked_filter us (P : UtxoInfo -> Prop) `{!forall u, Decision (P u)} :
  tracked ((fun e => (e.1, filter P e.2)) <$> us) = filter (fun e => P e.2) (tracked us).
Proof.
  unfold tracked. induction us as [|[a l] us IH]; [done|]. rewrite fmap_cons. cbn [mbind list_bind fst snd].
  rewrite filter_app, <-IH. f_equal. clear. induction l as [|u l IH]; [done|]. rewrite fmap_cons.
  destruct (decide (P u)).
  - by rewrite !filter_cons_True, fmap_cons, IH.
  - by rewrite !filter_cons_False, IH.
Qed.

Lemma insert_info_tracked us o u :
  info_outpoint u ∉ tracked_ops us -> tracked (insert_info us o u) ≡ₚ (o, u) :: tracked us.
Proof.
  unfold tracked_ops. induction us as [|[a l] us IH]; intros Hu; [done|].
  unfold tracked in *. cbn [insert_info mbind list_bind fst snd] in *. rewrite fmap_app in Hu.
  case_bool_decide as Ha.
  - subst a. rewrite bool_decide_eq_false_2.
    + cbn [mbind list_bind fst snd]. rewrite fmap_app. cbn [fmap list_fmap]. rewrite <-app_assoc. cbn [app].
      by rewrite <-Permutation_middle.
    + intros Hin. apply Hu, elem_of_app. left. apply list_elem_of_fmap. exists (o, u). split; [done|].
      by apply list_elem_of_fmap_2.
  - cbn [mbind list_bind fst snd]. rewrite IH; [by rewrite Permutation_middle|].
    intros Hin. apply Hu, elem_of_app. by right.
Qed.

Lemma insert_info_keys us o u k : k ∈ (insert_info us o u).*1 <-> k ∈ us.*1 \/ k = o.
Proof.
  induction us as [|[a l] us IH]; cbn; [set_solver|]. case_bool_decide as Ha; cbn; [set_solver|].
  rewrite !elem_of_cons, IH. tauto.
Qed.

Lemma insert_info_nodup us o u : NoDup us.*1 -> NoDup (insert_info us o u).*1.
Proof.
  induction us as [|[a l] us IH]; cbn; intros Hnd; [by repeat constructor; apply not_elem_of_nil|].
  apply NoDup_cons in Hnd as [Ha Hnd]. case_bool_decide as Hao; cbn; [by constructor|].
  constructor; [|by apply IH]. rewrite insert_info_keys. intros [?|?]; done.
Qed.

Lemma insert_infos_tracked us l :
  NoDup ((fun e => info_outpoint e.2) <$> l) ->
  (forall e : AccountAddress * UtxoInfo, e ∈ l -> info_outpoint e.2 ∉ tracked_ops us) ->
  tracked (foldl (fun acc e => insert_info acc e.1 e.2) us l) ≡ₚ l ++ tracked us.
Proof.
  revert us. induction l as [|[o u] l IH]; intros us Hnd Hout; [done|].
  rewrite fmap_cons in Hnd. apply NoDup_cons in Hnd as [Hu Hnd]. cbn [foldl fst snd] in *.
  assert (tracked (insert_info us o u) ≡ₚ (o, u) :: tracked us) as Hp by (apply insert_info_tracked, (Hout (o, u)); by left).
  rewrite IH; [rewrite Hp; cbn [app]; by rewrite Permutation_middle|done|]. intros e He. unfold tracked_ops. rewrite Hp, fmap_cons. cbn [snd].
  apply not_elem_of_cons. split; [|apply Hout; by right]. intros Heq. apply Hu. rewrite <-Heq.
  by apply (list_elem_of_fmap_2 (fun e => info_outpoint e.2)).
Qed.

Lemma insert_infos_nodup us l : NoDup us.*1 -> NoDup (foldl (fun acc (e : AccountAddress * UtxoInfo) => insert_info acc e.1 e.2) us l).*1.
Proof. revert us. induction l as [|e l IH]; intros us Hnd; [done|]. cbn [foldl]. by apply IH, insert_info_nodup. Qed.

(** All outputs of a block as the generator records them. *)
Definition block_infos (b : Block) : list (AccountAddress * UtxoInfo) :=
  transactions b ≫= created_infos (height (header b)).

Lemma created_infos_ops h t : (fun e => info_outpoint e.2) <$> created_infos h t = (tx_created t).*1.
Proof. unfold created_infos, tx_created. by rewrite !fmap_imap. Qed.

Lemma block_infos_ops b : (fun e => info_outpoint e.2) <$> block_infos b = (created_list (transactions b)).*1.
Proof.
  unfold block_infos, created_list. induction (transactions b) as [|t ts IH]; [done|].
  cbn [mbind list_bind]. by rewrite !fmap_app, created_infos_ops, <-IH.
Qed.

(** A recorded output and the UTXO the chain has for it. *)
Lemma block_infos_created b op x :
  (op, x) ∈ created_list (transactions b) <->
  exists u, (owner x, u) ∈ block_infos b /\ info_outpoint u = op /\ info_value u = utxo_value x /\
    utxo_txid x = txid op /\ utxo_vout x = vout op.
Proof.
  unfold block_infos, created_list. rewrite list_elem_of_bind. setoid_rewrite list_elem_of_bind. split.
  - intros (t & Hin & Ht). unfold tx_created in Hin. apply elem_of_lookup_imap in Hin as (i & o & [= -> ->] & Ho).
    eexists. cbn. split; [exists t; split; [|done]; apply elem_of_lookup_imap; by exists i, o|]. done.
  - intros (u & (t & Hin & Ht) & <- & Hv & Htx & Hvo). exists t. split; [|done].
    unfold created_infos in Hin. apply elem_of_lookup_imap in Hin as (i & o & Heq & Ho). injection Heq as Hown ->.
    apply elem_of_lookup_imap. exists i, o. split; [|done]. cbn in *. destruct x as [x1 x2 x3 x4]; cbn in *. by subst.
Qed.

Lemma state_fold us h ts :
  foldl (fun acc t => foldl (fun acc e => insert_info acc e.1 e.2) acc (created_infos h t)) us ts =
  foldl (fun acc e => insert_info acc e.1 e.2) us (ts ≫= created_infos h).
Proof. revert us. induction ts as [|t ts IH]; intros us; [done|]. cbn [foldl mbind list_bind]. by rewrite foldl_app, IH. Qed.

Lemma filter_all {A : Type} (P : A -> Prop) `{!forall x, Decision (P x)} (l : list A) : (forall x, x ∈ l -> P x) -> filter P l = l.
Proof.
  induction l as [|x l IH]; intros Hall; [done|]. rewrite filter_cons_True by (apply Hall; by left).
  f_equal. apply IH. intros y Hy. apply Hall. by right.
Qed.

(** Blocks whose other transactions have no inputs and that spend nothing they create. *)
Record plain_block (m : gmap OutPoint UTXO) (b : Block) : Prop := {
  pb_inputs t : t ∈ transactions b -> is_payment t = false -> inputs (tx_data t) = [];
  pb_external op : op ∈ spent_list (transactions b) -> op ∉ (created_list (transactions b)).*1;
  pb_distinct : NoDup (created_list (transactions b)).*1;
  pb_fresh op : op ∈ (created_list (transactions b)).*1 -> m !! op = None \/ op ∈ spent_list (transactions b);
}.

Lemma plain_spent m b : plain_block m b ->
  (transactions b ≫= fun t => previous_output <$> inputs (tx_data t)) = spent_list (transactions b).
Proof.
  intros [Hi _ _ _]. revert Hi. unfold spent_list. induction (transactions b) as [|t ts IH]; intros Hi; [done|].
  cbn [mbind list_bind]. rewrite IH by (intros t' Ht'; apply Hi; by right). f_equal. unfold spent_by.
  destruct (is_payment t) eqn:Hp; [done|]. by rewrite Hi by (done || by left).
Qed.

(** The records after a block: its outputs, and what was there and is not spent. *)
Lemma apply_block_tracked st b m : in_sync st m -> plain_block m b ->
  tracked (account_utxos (state_apply_block st b)) ≡ₚ
    block_infos b ++ filter (fun e => info_outpoint e.2 ∉ spent_list (transactions b)) (tracked (account_utxos st)).
Proof.
  intros Hs Hb. unfold state_apply_block. cbn [account_utxos]. rewrite (plain_spent _ _ Hb), state_fold. fold (block_infos b).
  set (us := if bool_decide _ then _ else _).
  assert (tracked us = filter (fun e => info_outpoint e.2 ∉ spent_list (transactions b)) (tracked (account_utxos st))) as Hus.
  { subst us. case_bool_decide as Hnil.
    - rewrite Hnil. symmetry. apply filter_all. intros e _. apply not_elem_of_nil.
    - rewrite tracked_filter. apply list_filter_iff. intros e. by rewrite elem_of_list_to_set. }
  rewrite insert_infos_tracked; [by rewrite Hus|rewrite block_infos_ops; apply Hb|].
  intros [a u] He Hin. cbn [snd] in Hin. unfold tracked_ops in Hin. rewrite Hus in Hin.
  apply list_elem_of_fmap in Hin as ([a' u'] & Heq & Hin). cbn [snd] in Heq. apply list_elem_of_filter in Hin as [Hns Hin].
  cbn [snd] in Hns. apply (sy_sound _ _ Hs) in Hin as (x & Hx & _).
  assert (info_outpoint u ∈ (created_list (transactions b)).*1) as Hc.
  { rewrite <-block_infos_ops. by apply (list_elem_of_fmap_2 (fun e : AccountAddress * UtxoInfo => info_outpoint e.2) _ (a, u)). }
  destruct (pb_fresh _ _ Hb _ Hc) as [Hn|Hsp]; rewrite Heq in *; [congruence|done].
Qed.

(** The UTXO set after a plain block. *)
Lemma plain_lookup m b undo m' op x : plain_block m b -> applied_view b m undo m' ->
  m' !! op = Some x <-> (op, x) ∈ created_list (transactions b) \/
    (op ∉ (created_list (transactions b)).*1 /\ op ∉ spent_list (transactions b) /\ m !! op = Some x).
Proof.
  intros Hb Ha. unfold applied_view in Ha. rewrite block_effect_external in Ha by apply Hb.
  destruct Ha as (_ & _ & _ & _ & ->). rewrite put_all_nodup, (right_id_L ∅ (∪)) by apply Hb.

  assert (forall y, list_to_map (M := gmap OutPoint UTXO) (created_list (transactions b)) !! op = Some y <-> (op, y) ∈ created_list (transactions b)) as Hl.
  { intros y. symmetry. apply elem_of_list_to_map. apply Hb. }
  rewrite lookup_union_Some_raw, remove_all_lookup, Hl, <-not_elem_of_list_to_map. case_decide; naive_solver.
Qed.

(** A block applied to the chain and to the state of the generator keeps them in step: what
    the generator records is unspent, owned and valued as it says, once each, and nothing of the
    generated accounts is missing. *)
Theorem apply_block_in_sync st b m undo m' :
  in_sync st m -> plain_block m b -> applied_view b m undo m' -> in_sync (state_apply_block st b) m'.
Proof.
  intros Hs Hb Ha. pose proof (apply_block_tracked _ _ _ Hs Hb) as Ht.
  assert (forall a u, (a, u) ∈ tracked (account_utxos (state_apply_block st b)) <->
    (a, u) ∈ block_infos b \/ (info_outpoint u ∉ spent_list (transactions b) /\ (a, u) ∈ tracked (account_utxos st))) as Hin.
  { intros a u. by rewrite Ht, elem_of_app, list_elem_of_filter. }
  split.
  - intros a u Hau. apply Hin in Hau as [Hau|[Hns Hau]].
    + set (x := mk_UTXO (txid (info_outpoint u)) (vout (info_outpoint u)) (info_value u) a). exists x. split; [|done].
      apply (plain_lookup m b undo); [done..|]. left. apply block_infos_created. by exists u.
    + destruct (sy_sound _ _ Hs _ _ Hau) as (x & Hx & Hxo & Hxv). exists x. split; [|done].
      apply (plain_lookup m b undo); [done..|]. right. split_and!; [|done|done].
      intros Hc. destruct (pb_fresh _ _ Hb _ Hc); [congruence|done].
  - unfold tracked_ops. rewrite Ht, fmap_app, block_infos_ops. apply NoDup_app. split; [apply Hb|]. split.
    + intros op Hc Hop. apply list_elem_of_fmap in Hop as ([a u] & -> & Hop). apply list_elem_of_filter in Hop as [Hns Hop].
      cbn [snd] in *. apply (sy_sound _ _ Hs) in Hop as (x & Hx & _). destruct (pb_fresh _ _ Hb _ Hc); [congruence|done].
    + pose proof (sy_distinct _ _ Hs) as Hnd. unfold tracked_ops in Hnd. eapply sublist_NoDup; [exact Hnd|].
      apply fmap_sublist, sublist_filter.
  - unfold state_apply_block. cbn [account_utxos]. rewrite state_fold. apply insert_infos_nodup.
    case_bool_decide; [apply Hs|]. rewrite <-list_fmap_compose. apply Hs.
  - intros op x Hx Ho. cbn [state_apply_block accounts] in Ho. apply (plain_lookup m b undo) in Hx as [Hx|(Hnc & Hns & Hx)]; [| |done|done].
    + apply block_infos_created in Hx as (u & Hu & Hop & _). exists u. split; [|done]. apply Hin. by left.
    + destruct (sy_complete _ _ Hs _ _ Hx Ho) as (u & Hu & Hop). exists u. split; [|done]. apply Hin. right. by rewrite Hop.
Qed.
End Sync.

(** * The distributing transaction *)

Section Distributing.
Context {X : Externals}.
Implicit Types (st : GenerationState).

Lemma map_zsum_sum m : nonneg_values m -> total_value m < 2 ^ 64 -> utxos_sum m = total_value m.
Proof.
  intros Hv Ht. apply wrapping_sum_small; [|done]. apply Forall_fmap, Forall_fmap, Forall_forall. intros [op u] Hin.
  apply elem_of_map_to_list in Hin. by apply (map_Forall_lookup_1 _ _ _ _ Hv Hin).
Qed.

(** What a distributing transaction is: every UTXO of the funder spent, one output for each
    account in the order of addresses, equal but for the first, which takes the remainder. *)
Record distributes (f : FundAccount) (receivers : list AccountAddress) (share leftover : Z) (t : Transaction) : Prop := {
  ds_signed : exists ins outs, t = sign (payment_data ins outs) (into_inner (fund_private_key f));
  ds_inputs : previous_output <$> inputs (tx_data t) ≡ₚ (map_to_list (fund_utxos f)).*1;
  ds_recipients : recipient <$> outputs (tx_data t) ≡ₚ receivers;
  ds_values : exists first rest, value <$> outputs (tx_data t) = first :: rest /\ first = share + leftover /\
    Forall (fun v => v = share) rest;
}.

Lemma sign_data d (k : SigningKey) : tx_data (sign d k) = d.
Proof. unfold sign. by destruct (sign_prehash_recoverable _ _). Qed.

Lemma zsum_const v l : Forall (fun x => x = v) l -> zsum l = v * Z.of_nat (length l).
Proof. induction 1 as [|x l -> _ IH]; [cbn; lia|]. rewrite zsum_cons, IH. cbn [length]. lia. Qed.

(** The distributing transaction is built exactly when the funds pay its fee and ten thousand
    to each account; it then spends all the funds, loses exactly the estimated fee, and pays
    every generated account an equal share, in tens, but for the first address, which
    receives the remainder too. *)
Theorem distributing_transaction_exact st :
  account_utxos st = [] -> accounts st <> [] -> nonneg_values (fund_utxos (fund_account st)) ->
  total_value (fund_utxos (fund_account st)) < 2 ^ 62 ->
  let total := total_value (fund_utxos (fund_account st)) in
  let n := Z.of_nat (length (accounts st)) in
  let fee := estimate_fee FeePolicy_default (Z.of_nat (size (fund_utxos (fund_account st)))) n in
  if fee + 10000 * n <=? total then
    exists t share leftover, generate_distributing_transaction st = Ok t /\
      distributes (fund_account st) (accounts st).*1 share leftover t /\
      10000 <= share /\ share mod 10 = 0 /\ 0 <= leftover < 10 * n /\ share * n + leftover + fee = total
  else exists msg, generate_distributing_transaction st = Err (Failed msg).
Proof.
  intros Hus Hacc Hv Ht total n fee. assert (0 < n) as Hn by (subst n; destruct (accounts st); [done|cbn; lia]).
  assert (0 <= fee) as Hfee by apply (fee_nonneg params_default).
  assert (0 <= total) as Htot by (by apply map_zsum_nonneg).
  unfold generate_distributing_transaction, total_balance. rewrite Hus, bool_decide_eq_true_2 by done. cbn [negb]. cbv zeta.
  rewrite map_zsum_sum by (done || lia). fold total n fee.
  destruct (Z.leb_spec total fee) as [Hle|Hgt].
  { destruct (Z.leb_spec (fee + 10000 * n) total); [lia|by eexists]. }
  rewrite (proj2 (Z.eqb_neq n 0)) by lia. set (each := (total - fee) / n).
  pose proof (Z.mul_div_le (total - fee) n Hn) as Heach. fold each in Heach.
  pose proof (Z.mod_pos_bound (total - fee) n Hn) as Hmod. pose proof (Z.div_mod (total - fee) n ltac:(lia)) as Hdm. fold each in Hdm.
  assert (0 <= each) as Hep by (apply Z.div_pos; lia).
  set (share := each / 10 * 10). pose proof (Z.div_mod each 10 ltac:(lia)) as Hd10. pose proof (Z.mod_pos_bound each 10 ltac:(lia)) as Hm10.
  assert (0 <= share <= each /\ each - share < 10) as [Hshare Hround] by (subst share; lia).
  assert (share mod 10 = 0) as Htens by (apply Z.mod_mul; done).
  rewrite (wrap64_small (share * n)) by nia. rewrite (wrap64_small (total - fee - share * n)) by nia.
  set (leftover := total - fee - share * n). change (min_output_value params_default) with 10000.
  destruct (Z.ltb_spec share 10000) as [Hlow|Hok].
  { destruct (Z.leb_spec (fee + 10000 * n) total); [|by eexists]. exfalso.
    assert (10000 <= each) as Hbig by (apply Z.div_le_lower_bound; lia).
    assert (1000 <= each / 10) by (apply Z.div_le_lower_bound; lia). subst share. lia. }
  destruct (Z.leb_spec (fee + 10000 * n) total); [|nia].
  set (outs := merge_sort recipient_le _).
  assert (outs ≡ₚ (fun e => mk_TransactionOut share e.1) <$> accounts st) as Hperm by apply merge_sort_Permutation.
  assert (Forall (fun v => v = share) (value <$> outs)) as Hvals.
  { rewrite Hperm, <-list_fmap_compose. apply Forall_fmap, Forall_forall. done. }
  assert (recipient <$> outs ≡ₚ (accounts st).*1) as Hrec by (by rewrite Hperm, <-list_fmap_compose).
  assert (length outs = length (accounts st)) as Hlen by (by rewrite Hperm, length_fmap).
  destruct outs as [|o outs]; [exfalso; destruct (accounts st); [done|discriminate]|].
  rewrite fmap_cons in Hvals. apply Forall_cons in Hvals as [Ho Hvals]. cbn in Ho.
  eexists _, share, leftover. split; [done|]. split.
  - split.
    + by eexists _, _.
    + rewrite sign_data. cbn [payment_data inputs]. rewrite <-list_fmap_compose.
      rewrite (list_fmap_ext _ id) by done. by rewrite list_fmap_id, merge_sort_Permutation.
    + rewrite sign_data. cbn [payment_data outputs]. destruct (0 <? leftover); exact Hrec.
    + rewrite sign_data. cbn [payment_data outputs]. destruct (Z.ltb_spec 0 leftover); rewrite fmap_cons; eexists _, _; (split; [done|]).
      * cbn [value]. rewrite Ho. split; [|done]. apply wrap64_small. nia.
      * split; [|done]. subst leftover. nia.
  - split_and!; [done|done|subst leftover; nia|subst leftover; nia|subst leftover; lia].
Qed.
End Distributing.
