(* ===== verification/Backup.v ===== *)
(** Backup: the file in which the generator of test chains saves the keys of its accounts before
    any balance is paid to them ([save_accounts] of [stryi_devkit/src/chaingen/state.rs]). *)
From S2P Require Import Prelude Bytes Types Externals Hashing Strategy Accounts.
From stdpp Require Import pretty.
From Stdlib Require Import Ascii.
#[local] Open Scope Z_scope.

(** * The output directory

    The files of the directory by name, and how its operations fail when they do: a write can
    stop after some bytes. *)

Record Directory := mk_Directory {
  is_dir : bool;
  create_fault : string -> bool;
  write_fault : string -> option nat;
  open_fault : string -> bool;
  read_fault : string -> bool;
  sync_fault : string -> bool;
  directory_fault : bool;
}.

Abbreviation files := (gmap string string).

Section Backup.
Context {X : Externals} {K : KeyBytes}.
Variables (d : Directory) (start_height end_height : Z).

(** A line for each account: its address and its key. *)
Fixpoint backup_text (l : list (AccountAddress * SigningKey)) : string :=
  match l with
  | [] => ""
  | (address, signing_key) :: l =>
      Hash_to_string address +:+ ":" +:+ PrivateKey_to_string (mk_PrivateKey signing_key) +:+ String "010"%char (backup_text l)
  end.

(** The names tried, by suffix. *)
Definition backup_name (suffix : nat) : string :=
  let file_name := "CHAINGEN_ACCOUNTS_" +:+ pretty start_height +:+ "_" +:+ pretty end_height in
  match suffix with
  | O => file_name +:+ ".txt"
  | S _ => file_name +:+ "_" +:+ pretty suffix +:+ ".txt"
  end.

(** The loop: a file is created where there is none, and otherwise reused if it holds the whole
    text. [None] is the exhaustion of the fuel, which [backup_total] excludes. *)
Fixpoint backup_loop (buffer : string) (fuel suffix : nat) (fs : files) : option (result string string * files) :=
  match fuel with
  | O => None
  | S fuel =>
      let file_path := backup_name suffix in
      if create_fault d file_path then Some (Err "Unable to create key backup {}: {e}", fs)
      else
        match fs !! file_path with
        | None =>
            match write_fault d file_path with
            | None => Some (Ok file_path, <[ file_path := buffer ]> fs)
            | Some n => Some (Err "Unable to write key backup {}: {e}", <[ file_path := String.substring 0 n buffer ]> fs)
            end
        | Some saved =>
            if open_fault d file_path then Some (Err "Unable to open key backup {}: {e}", fs)
            else if read_fault d file_path then Some (Err "Unable to read key backup {}: {e}", fs)
            else if bool_decide (saved = buffer) then Some (Ok file_path, fs)
            else backup_loop buffer fuel (suffix + 1) fs
        end
  end.

(** [save_accounts]; at most every file of the directory is in the way, so their number and one
    is enough fuel. *)
Definition save_accounts (st : GenerationState) (fs : files) : option (result string unit * files) :=
  if negb (is_dir d) then Some (Err "Provided path ({}) is either not a path, or not a valid dir", fs)
  else
    match backup_loop (backup_text (accounts st)) (size fs + 1) 0 fs with
    | None => None
    | Some (Err e, fs) => Some (Err e, fs)
    | Some (Ok file_path, fs) =>
        if sync_fault d file_path then Some (Err "Unable to sync key backup {}: {e}", fs)
        else if directory_fault d then Some (Err "Unable to sync backup directory {}: {e}", fs)
        else Some (Ok tt, fs)
    end.

(** ** Names *)

Lemma append_left (a b c : string) : a +:+ b = a +:+ c -> b = c.
Proof. induction a as [|x a IH]; [done|]. intros [= H]. by apply IH. Qed.

Lemma append_cancel (a b t : string) : a +:+ t = b +:+ t -> a = b.
Proof.
  revert b. induction a as [|x a IH]; intros [|y b] Ht; [done| | |].
  1, 2: exfalso; apply (f_equal String.length) in Ht; rewrite !str_length_app in Ht; cbn in Ht; lia.
  injection Ht as -> H. f_equal. by apply IH.
Qed.

#[local] Instance backup_name_inj : Inj (=) (=) backup_name.
Proof.
  intros [|n] [|m]; unfold backup_name; cbv zeta; intros Hn; [done| | |].
  - apply append_left in Hn. done.
  - apply append_left in Hn. done.
  - apply append_left, append_left, append_cancel in Hn. by apply (inj pretty) in Hn.
Qed.

(** What a call leaves of the directory: nothing that was there changes, and at most one file of
    the series is new. *)
Definition preserves (fs fs' : files) : Prop :=
  fs' = fs \/ exists n text, fs !! backup_name n = None /\ fs' = <[ backup_name n := text ]> fs.

Lemma backup_loop_spec buffer fuel suffix fs :
  (forall n, (n < suffix)%nat -> is_Some (fs !! backup_name n)) -> (size fs < fuel + suffix)%nat ->
  exists r fs', backup_loop buffer fuel suffix fs = Some (r, fs') /\ preserves fs fs' /\
    forall name, r = Ok name -> (exists n, name = backup_name n) /\ fs' !! name = Some buffer.
Proof.
  revert suffix. induction fuel as [|fuel IH]; intros suffix Hbefore Hsize; cbn [backup_loop].
  { exfalso. assert (NoDup (backup_name <$> seq 0 suffix)) as Hnd by (apply NoDup_fmap_2; [apply _|apply NoDup_seq]).
    assert ((list_to_set (backup_name <$> seq 0 suffix) : gset string) ⊆ dom fs) as Hsub.
    { intros name (n & -> & Hn%elem_of_seq)%elem_of_list_to_set%list_elem_of_fmap. apply elem_of_dom, Hbefore. lia. }
    apply subseteq_size in Hsub. rewrite size_list_to_set, length_fmap, length_seq, size_dom in Hsub by done. lia. }
  assert (forall e, exists r fs', Some (Err e : result string string, fs) = Some (r, fs') /\ preserves fs fs' /\
    forall name, r = Ok name -> (exists n, name = backup_name n) /\ fs' !! name = Some buffer) as Hfail
    by (intros e; exists (Err e), fs; split_and!; [done|by left|done]).
  destruct (create_fault d _); [apply Hfail|]. destruct (fs !! backup_name suffix) as [saved|] eqn:Hname.
  - destruct (open_fault d _); [apply Hfail|]. destruct (read_fault d _); [apply Hfail|]. case_bool_decide as Heq.
    + exists (Ok (backup_name suffix)), fs. split_and!; [done|by left|]. intros name [= <-]. subst saved. split; [by exists suffix|done].
    + apply IH; [|lia]. intros n Hn. destruct (decide (n = suffix)) as [->|Hne]; [by eexists|apply Hbefore; lia].
  - destruct (write_fault d _) as [n|].
    + eexists (Err _), _. split_and!; [done| |done]. right. by exists suffix, (String.substring 0 n buffer).
    + eexists (Ok _), _. split_and!; [done|right; by exists suffix, buffer|]. intros name [= <-]. split; [by exists suffix|].
      apply lookup_insert_eq.
Qed.

(** C32: Saving the keys ends, whatever the directory holds and whichever of its operations fail.
    No file that was there is changed, and at most one file of the series is new; a success
    means that one of them holds the address and the key of every account. *)
Theorem backup_preserves st fs :
  exists r fs', save_accounts st fs = Some (r, fs') /\
    (forall name text, fs !! name = Some text -> fs' !! name = Some text) /\ (size fs' <= size fs + 1)%nat /\
    (r = Ok tt -> exists n, fs' !! backup_name n = Some (backup_text (accounts st))).
Proof.
  assert (forall fs', preserves fs fs' ->
    (forall name text, fs !! name = Some text -> fs' !! name = Some text) /\ (size fs' <= size fs + 1)%nat) as Hkeep.
  { intros fs' [->|(n & text & Hn & ->)]; [split; [done|lia]|]. split.
    - intros name text' Ht. rewrite lookup_insert_ne; [done|]. intros <-. congruence.
    - rewrite map_size_insert_None by done. lia. }
  unfold save_accounts. destruct (is_dir d); cbn [negb].
  2: { eexists _, fs. split; [done|]. split_and!; [apply Hkeep; by left..|done]. }
  destruct (backup_loop_spec (backup_text (accounts st)) (size fs + 1) 0 fs) as (r & fs' & -> & Hp & Hok); [lia|lia|].
  apply Hkeep in Hp as [Hp Hsize]. destruct r as [name|e]; [|by exists (Err e), fs'].
  destruct (Hok name eq_refl) as [[n ->] Hn].
  destruct (sync_fault d _); [by eexists _, fs'|]. destruct (directory_fault d); [by eexists _, fs'|].
  exists (Ok tt), fs'. split_and!; [done|done|done|]. intros _. by exists n.
Qed.
End Backup.

(** * A directory that holds an unfinished backup *)

Section BackupExample.
Import Toy ToyKeys.

Definition open_directory : Directory :=
  mk_Directory true (fun _ => false) (fun _ => None) (fun _ => false) (fun _ => false) (fun _ => false) false.
Definition saved_state : GenerationState :=
  mk_GenerationState [(from_public_key (X := externals) Byte.x07, Byte.x07)]
    (mk_FundAccount (from_public_key (X := externals) Byte.x01) (mk_PrivateKey Byte.x01) ∅) [].
Definition unfinished : files := {[ "CHAINGEN_ACCOUNTS_0_5.txt" := "partial" ]}.

(** The first save goes to the next name, and a second one finds it. *)
Example backup_is_reused :
  let save := save_accounts open_directory 0 5 saved_state in
  match save unfinished with
  | Some (Ok _, fs) =>
      bool_decide (fs !! "CHAINGEN_ACCOUNTS_0_5_1.txt" = Some (backup_text (accounts saved_state))) &&
      match save fs with Some (Ok _, again) => bool_decide (again = fs) | _ => false end
  | _ => false
  end = true.
Proof. vm_compute. reflexivity. Qed.
End BackupExample.
