(* ===== verification/Chaingen.v ===== *)
(** Chaingen: the generator of test chains ([stryi_devkit/src/chaingen]): configuration
    ([config.rs]), start-up ([init.rs]), the blocks ([blockgen.rs]) and the run ([mod.rs]).
    Logging is left out. *)
From S2P Require Import Prelude Bytes Types Externals Petgraph Hashing Work Merkle Transactions Blocks Storage UtxoProcessor Transition Difficulty Dependencies Validator ChainIndex Engine Rocks Wallet Node Seeds Strategy Txgen Accounts.
#[local] Open Scope Z_scope.

(** * Configuration *)

Record ChainSettings := mk_ChainSettings {
  num_blocks : Z;
  max_generation_time_secs : option Z;
  seed : SeedValue;
  output_path : string;
  genesis_path : string;
  settings_chain_name : option string;
  settings_protocol_version : option Z;
}.

Record BlocksSettings `{Externals} := mk_BlocksSettings {
  funding_key : PrivateKey;
  average_block_time_secs : Z;
  settings_miner_address : AccountAddress;
  min_transactions_per_block : Z;
  max_transactions_per_block : Z;
  active_addresses_count : Z;
}.
Arguments mk_BlocksSettings {_} _ _ _ _ _ _.
Arguments funding_key {_} _.
Arguments average_block_time_secs {_} _.
Arguments settings_miner_address {_} _.
Arguments min_transactions_per_block {_} _.
Arguments max_transactions_per_block {_} _.
Arguments active_addresses_count {_} _.

Record ChainGenConfig `{Externals} := mk_ChainGenConfig { config_chain : ChainSettings; config_blocks : BlocksSettings }.
Arguments mk_ChainGenConfig {_} _ _.
Arguments config_chain {_} _.
Arguments config_blocks {_} _.

Definition MIN_ACTIVE_ADDRESSES : Z := 10.

Section Config.
Context {X : Externals}.

(** [ChainGenConfig::validate]: [in_clock_range] says that the monotonic clock can be
    advanced by so many seconds, [is_file] asks the file system. *)
Definition validate_config (in_clock_range : Z -> bool) (is_file : string -> bool) (c : ChainGenConfig) :
    result string unit :=
  let chain := config_chain c in
  let blocks := config_blocks c in
  _ ← ensure (negb (num_blocks chain =? 0)) "num_blocks must be > 0"%string;
  _ ← ensure (negb (num_blocks chain <? 2)) "`num_blocks` must be at least 2 blocks for proper generation."%string;
  _ ← match max_generation_time_secs chain with
      | None => Ok tt
      | Some seconds =>
          _ ← ensure (negb (seconds =? 0)) "max_generation_time_secs must be > 0"%string;
          ensure (in_clock_range seconds) "max_generation_time_secs is too large to form a deadline"%string
      end;
  _ ← ensure (negb (average_block_time_secs blocks =? 0)) "average_block_time_secs must be > 0"%string;
  _ ← ensure (negb (max_transactions_per_block blocks <? min_transactions_per_block blocks))
    "min_transactions_per_block cannot be greater than max_transactions_per_block"%string;
  _ ← ensure (negb (min_transactions_per_block blocks <? 2))
    "min_transactions_per_block must be >= 2, since the first transaction slot is always reserved for a coinbase."%string;
  _ ← ensure (negb (active_addresses_count blocks <? MIN_ACTIVE_ADDRESSES)) "active_addresses_count must be >= {}"%string;
  _ ← ensure (negb (wrap 32 (active_addresses_count blocks * 3) <? wrap 32 (min_transactions_per_block blocks * 2)))
    "active_addresses_count is too low for the requested min_transactions_per_block, try doing at least x1.5 of min_transactions_per_block"%string;
  _ ← validate_seed (seed chain) (num_blocks chain);
  ensure (is_file (genesis_path chain)) "genesis_path does not exist or is not a file: {}"%string.
End Config.

(** * The generator

    The storage and the engine share one database; it is the one of the engine. *)

Record ChainGenerator `{Externals} (DB : Type) := mk_ChainGenerator {
  config : ChainGenConfig;
  generation_deadline : bool;
  generator_fund_account : FundAccount;
  pre_generation_height : Z;
  generator_consts : ConsensusConsts;
  generator_calc : DifficultyCalc;
  consensus_engine : Engine DB;
}.
Arguments mk_ChainGenerator {_ DB} _ _ _ _ _ _ _.
Arguments config {_ DB} _.
Arguments generation_deadline {_ DB} _.
Arguments generator_fund_account {_ DB} _.
Arguments pre_generation_height {_ DB} _.
Arguments generator_consts {_ DB} _.
Arguments generator_calc {_ DB} _.
Arguments consensus_engine {_ DB} _.

(** [SeedableRng::seed_from_u64] of the ChaCha generator. *)
Class SeededSource (R : Type) := { rng_from_seed : Z -> R }.

Module SeededCounter.
#[export] Instance seeded_counter : SeededSource Z := {| rng_from_seed s := s |}.
End SeededCounter.

(** * Start-up ([init.rs]) *)

Section Init.
Context {X : Externals} {DB : Type} `{FullNodeStorage DB} {R : Type} `{RandomSource R}.

(** [genesis_metadata] *)
Definition genesis_metadata (c : ChainGenConfig) (now : result string Z) : result string ChainMetadata :=
  now_secs ← map_err (fun _ => "cannot read local clock: {e}"%string) now;
  created ← ok_or (i64_try_from now_secs) "local clock exceeds metadata range"%string;
  mret (mk_ChainMetadata STORAGE_SCHEMA_VERSION (default "dev"%string (settings_chain_name (config_chain c)))
    (default 1 (settings_protocol_version (config_chain c))) created).

(** [open_storage]: [opened] is what opening the output directory yields. *)
Definition open_storage (c : ChainGenConfig) (genesis_config : GenesisInitConfig) (now : result string Z)
    (opened : result string DB) : result string DB :=
  let genesis := new_genesis (config_version genesis_config) (wanted_balances genesis_config)
    (config_genesis_state genesis_config) in
  _ ← map_err (fun _ => "{e}"%string) (validate_genesis genesis);
  storage ← map_err (fun _ => "Failed to initialize storage: {e}"%string) opened;
  metadata ← genesis_metadata c now;
  match db_apply_transition storage (TGenesis genesis metadata) with
  | (Ok _, storage) => Ok storage
  | (Err _, _) => Err "Failed to initialize genesis: {e}"%string
  end.

(** [read_chain_state] *)
Definition read_chain_state (storage : DB) : result string (Z * Block * ConsensusConsts) :=
  view ← map_err (fun _ => "{e}"%string) (db_read storage);
  tip ← map_err (fun _ => "Unable to get chain tip: {e}"%string) (tip view);
  found ← map_err (fun _ => "Failed to read genesis block: {e}"%string) (get_block_by_height view 0);
  genesis ← ok_or found "Genesis block not found in storage"%string;
  state ← ok_or (genesis_state (header genesis)) "genesis_state is None in genesis block"%string;
  mret (tip.1, genesis, consensus_consts state).

(** The loop over the genesis outputs. *)
Fixpoint check_genesis_outputs {S : Type} `{UtxoStorage S} (deadline : bool) (chain_height : Z) (view : S)
    (txid : TransactionHash) (vouts : list nat) : gen R unit :=
  match vouts with
  | [] => mret tt
  | vout :: vouts =>
      _ ← check_generation_deadline deadline (Some chain_height);
      utxo ← gen_try (map_err (fun _ => "Failed to get UTXO from storage: {e}"%string)
        (get_utxo view (mk_OutPoint txid (wrap 32 (Z.of_nat vout)))));
      _ ← gen_try (ensure (bool_decide (is_Some utxo)) "Genesis UTXO not found in storage for OutPoint: {:?}"%string);
      check_genesis_outputs deadline chain_height view txid vouts
  end.

(** [validate_genesis_utxos_if_needed] *)
Definition validate_genesis_utxos_if_needed (storage : DB) (genesis : Block) (chain_height : Z) (deadline : bool) :
    gen R unit :=
  if negb (chain_height =? 0) then mret tt
  else
    genesis_tx ← gen_try (ok_or (t ← head (transactions genesis);
        if bool_decide (kind (tx_data t) = Genesis) then Some t else None)
      "Genesis block's first transaction must be of kind Genesis"%string);
    view ← gen_try (map_err (fun _ => "{e}"%string) (db_read storage));
    check_genesis_outputs deadline chain_height view (tx_hash (tx_data genesis_tx))
      (seq 0 (length (outputs (tx_data genesis_tx)))).

(** [init_consensus_engine] *)
Definition init_consensus_engine (storage : DB) (consts : ConsensusConsts) (calc : DifficultyCalc) :
    result string (Engine DB) :=
  map_err (fun _ => "Failed to initialize consensus engine: {e:?}"%string)
    (Engine_new consts (mk_BlockValidator consts calc) storage).

(** [ChainGenerator::initialize]: [in_clock_range] forms the deadline, [directory] creates the
    output directory, [genesis_file] reads and parses the genesis file. *)
Definition initialize (in_clock_range : Z -> bool) (directory : result string unit)
    (genesis_file : result string GenesisInitConfig) (now : result string Z) (opened : result string DB)
    (c : ChainGenConfig) : gen R (ChainGenerator DB) :=
  let deadline := bool_decide (is_Some (max_generation_time_secs (config_chain c))) in
  _ ← gen_try (match max_generation_time_secs (config_chain c) with
               | None => Ok tt
               | Some seconds => ensure (in_clock_range seconds)
                   "max_generation_time_secs exceeds the monotonic clock range"%string
               end);
  _ ← check_generation_deadline deadline None;
  _ ← gen_try directory;
  _ ← check_generation_deadline deadline None;
  genesis_config ← gen_try genesis_file;
  _ ← check_generation_deadline deadline None;
  storage ← gen_try (open_storage c genesis_config now opened);
  _ ← check_generation_deadline deadline None;
  state ← gen_try (read_chain_state storage);
  let '(chain_height, genesis, consts) := state in
  _ ← check_generation_deadline deadline (Some chain_height);
  _ ← validate_genesis_utxos_if_needed storage genesis chain_height deadline;
  _ ← check_generation_deadline deadline (Some chain_height);
  calc ← gen_try (map_err (fun _ => "Invalid pow params in genesis: {e}"%string) (DifficultyCalc_new (pow consts)));
  fund_account ← gen_try (map_err (fun _ => "Failed to load funding account: {e}"%string)
    (load_from_private_key (funding_key (config_blocks c)) storage));
  _ ← check_generation_deadline deadline (Some chain_height);
  engine ← gen_try (init_consensus_engine storage consts calc);
  _ ← check_generation_deadline deadline (Some chain_height);
  mret (mk_ChainGenerator c deadline fund_account chain_height consts calc engine).
End Init.

(** * Blocks ([blockgen.rs]) *)

(** [generation_timestamp] *)
Definition generation_timestamp (parent_timestamp base_time_secs variance_secs median_time now_secs : Z) :
    result string Z :=
  increment ← ok_or (checked_add 64 base_time_secs variance_secs) "generation interval overflow"%string;
  scheduled ← ok_or (checked_add 64 parent_timestamp increment) "generation timestamp overflow"%string;
  minimum ← ok_or (checked_add 64 median_time 1) "median time past leaves no valid timestamp"%string;
  let timestamp := Z.max scheduled minimum in
  if saturating_add 64 now_secs MAX_FUTURE_BLOCK_TIME_SECS <? timestamp
  then Err "generated timestamp exceeds future time limit"%string
  else Ok timestamp.

Definition MINING_ATTEMPT_CAP : positive := 50000000.

(** [find_first] over [n] consecutive numbers: the ordered search, whatever the workers do. *)
Fixpoint find_first (p : Z -> bool) (from : Z) (n : positive) : option Z :=
  match n with
  | xH => if p from then Some from else None
  | xO n =>
      match find_first p from n with
      | Some x => Some x
      | None => find_first p (from + Z.pos n) n
      end
  | xI n =>
      if p from then Some from
      else
        match find_first p (from + 1) n with
        | Some x => Some x
        | None => find_first p (from + 1 + Z.pos n) n
        end
  end.

Section Blocks.
Context {X : Externals} {R : Type} `{RandomSource R}.
Implicit Types (st : GenerationState) (params : TransactionGenerationParams).

(** [mine_block_parallel_ordered]. A search stopped by the deadline ends with a reading of the
    clock past it, so its result is dropped; the readings inside the search are left out. *)
Definition mine_block_parallel_ordered (block : Block) (max_attempts : positive) (deadline : bool) : gen R Block :=
  let last_saved_height := Some (saturating_sub (height (header block)) 1) in
  _ ← check_generation_deadline deadline last_saved_height;
  let threshold := hash_threshold (header block) in
  let found := find_first (fun nonce =>
    meets_threshold (BlockHash_new (to_hash_bytes (set_nonce (header block) nonce))) threshold) 0 max_attempts in
  _ ← check_generation_deadline deadline last_saved_height;
  match found with
  | Some nonce => mret (mk_Block (set_nonce (header block) nonce) (transactions block))
  | None => gen_try (Err "failed to mine block at height {} within {} attempts (hash_threshold: {})"%string)
  end.

(** The coinbase of a generated block. *)
Definition generated_coinbase (height : Z) (parent : BlockHash) (subsidy : Z) (miner : AccountAddress) : Transaction :=
  new_unsigned (mk_TransactionData 0 (Coinbase height parent) [] [mk_TransactionOut subsidy miner]).

(** What the loops of [build_block] change: the strategy, the outpoints spent in the block, and
    its transactions. *)
Record Filling := mk_Filling {
  strategy : TxGenerationStrategy;
  spent_in_block : gset OutPoint;
  filled : list Transaction;
}.

(** The inner loop, over the accounts with the most UTXOs. *)
Fixpoint fill_senders (deadline : bool) (height : Z) params (receivers_pool : list AccountAddress)
    (top_accounts : list (AccountAddress * SigningKey * list UtxoInfo)) (f : Filling) : gen R Filling :=
  match top_accounts with
  | [] => mret f
  | (_, sender_key, sender_utxos) :: top_accounts =>
      _ ← check_generation_deadline deadline (Some (height - 1));
      go ← gen_lift (should_continue (strategy f));
      if negb go then mret f
      else
        let available_utxos := filter (fun utxo => info_outpoint utxo ∉ spent_in_block f) sender_utxos in
        if bool_decide (available_utxos = []) then
          fill_senders deadline height params receivers_pool top_accounts f
        else
          let available := Z.of_nat (length available_utxos) in
          pattern ← choose_pattern (strategy f) available params;
          selection ← choose_utxo_strategy (strategy f) pattern available params;
          let selected_utxos := select_utxos_by_criteria available_utxos selection.1 selection.2 in
          tx ← generate_transaction sender_key pattern selected_utxos receivers_pool params;
          let f :=
            match tx with
            | None => f
            | Some tx =>
                mk_Filling (record_success (strategy f))
                  (list_to_set (info_outpoint <$> selected_utxos) ∪ spent_in_block f) (filled f ++ [tx])
            end in
          fill_senders deadline height params receivers_pool top_accounts f
  end.

(** The outer loop. Each iteration records a failed attempt, and only a success resets the
    attempts, so the fuel of [fill_fuel] is enough ([filling_terminates]). *)
Fixpoint fill_block (fuel : nat) (deadline : bool) (height : Z) params st (receivers_pool : list AccountAddress)
    (f : Filling) : gen R Filling :=
  go ← gen_lift (should_continue (strategy f));
  if negb go then mret f
  else
    match fuel with
    | O => gen_lift (Err (Panicked "fill_block: out of fuel"))
    | S fuel =>
        _ ← check_generation_deadline deadline (Some (height - 1));
        let f := mk_Filling (record_fail (strategy f)) (spent_in_block f) (filled f) in
        let top_accounts :=
          get_top_accounts_with_utxos st (Z.to_nat (target_txs (strategy f) - successful_txs (strategy f))) in
        f ← fill_senders deadline height params receivers_pool top_accounts f;
        fill_block fuel deadline height params st receivers_pool f
    end.

Definition fill_fuel (s : TxGenerationStrategy) : nat :=
  Z.to_nat ((target_txs s - successful_txs s) * (max_attempts s + 1) + (max_attempts s - attempts s)).

Section Builder.
Context {DB : Type} `{FullNodeStorage DB}.
Implicit Types (g : ChainGenerator DB).

(** The parent, the threshold and the median of a block, from one view. *)
Definition generation_context g (parent_height : Z) : gen R (Block * Z * Z) :=
  view ← gen_try (map_err (fun _ => "{e}"%string) (db_read (db (consensus_engine g))));
  found ← gen_try (map_err (fun _ => "cannot read prev block at height {}: {e}"%string)
    (get_block_by_height view parent_height));
  prev ← gen_try (ok_or found "prev block at height {} not found"%string);
  hash_threshold ← gen_try (map_err (fun _ => "cannot compute next hash threshold: {e}"%string)
    (next_hash_threshold (generator_calc g) view (block_hash prev)));
  median_time ← gen_try (map_err (fun _ => "cannot read generation timestamp history: {e}"%string)
    (median_time_past view (block_hash prev)));
  mret (prev, hash_threshold, median_time).

(** [build_distributing_block]; [now] is the reading of the system clock. *)
Definition build_distributing_block g (now : result string Z) st : gen R Block :=
  if negb (bool_decide (account_utxos st = [])) then
    gen_try (Err "Distributor block can only be built as the first generated block"%string)
  else
    let distributor_chain_height := wrap 64 (pre_generation_height g + 1) in
    context ← generation_context g (pre_generation_height g);
    let '(prev_block, hash_threshold, median_time) := context in
    now_secs ← gen_try now;
    timestamp ← gen_try (generation_timestamp (timestamp (header prev_block))
      (average_block_time_secs (config_blocks (config g))) 0 median_time now_secs);
    let coinbase_tx := generated_coinbase distributor_chain_height (block_hash prev_block)
      (block_subsidy (generator_consts g) distributor_chain_height) (settings_miner_address (config_blocks (config g))) in
    dist_tx ← gen_context "Failed to generate distributing transaction: {}" (gen_lift (generate_distributing_transaction st));
    let block := Block_new [coinbase_tx; dist_tx] (block_hash prev_block) distributor_chain_height hash_threshold
      timestamp (version (header prev_block)) in
    mine_block_parallel_ordered block MINING_ATTEMPT_CAP (generation_deadline g).

(** [build_block] *)
Definition build_block g (now : result string Z) (height : Z) st : gen R Block :=
  if (height =? 0) || (height =? 1) then
    gen_try (Err "build_block called with height=0 (genesis) or 1 (distributor)"%string)
  else
    context ← generation_context g (height - 1);
    let '(prev, hash_threshold, median_time) := context in
    let base_time := average_block_time_secs (config_blocks (config g)) in
    variance ← random_range 0 (Z.min base_time 30);
    now_secs ← gen_try now;
    timestamp ← gen_try (generation_timestamp (timestamp (header prev)) base_time variance median_time now_secs);
    let coinbase_tx := generated_coinbase height (block_hash prev)
      (block_subsidy (generator_consts g) height) (settings_miner_address (config_blocks (config g))) in
    total_tx_count ← random_range (min_transactions_per_block (config_blocks (config g)))
      (max_transactions_per_block (config_blocks (config g)));
    let payment_tx_count := saturating_sub total_tx_count 1 in
    if payment_tx_count =? 0 then
      gen_try (Err "block at height {height} must reserve room for at least one payment transaction"%string)
    else
      receivers_pool ← gen_lift (ok_or (get_best_receivers st (length (accounts st)))
        (Panicked "Must be available receivers."));
      let strategy := TxGenerationStrategy_new payment_tx_count in
      f ← fill_block (fill_fuel strategy) (generation_deadline g) height params_default st receivers_pool
        (mk_Filling strategy ∅ [coinbase_tx]);
      let block := Block_new (filled f) (block_hash prev) height hash_threshold timestamp 1 in
      mine_block_parallel_ordered block MINING_ATTEMPT_CAP (generation_deadline g).
End Builder.
End Blocks.

(** * The run ([mod.rs])

    A step of the run reads the world and may change the engine; what the engine has applied
    stays applied when a later step fails. *)

Definition chain_m `{Externals} (R DB A : Type) : Type := World R -> Engine DB -> result GenError (A * World R) * Engine DB.

#[export] Instance chain_ret `{Externals} R DB : MRet (chain_m R DB) := fun A a w e => (Ok (a, w), e).
#[export] Instance chain_bind `{Externals} R DB : MBind (chain_m R DB) :=
  fun A B k m w e =>
    match m w e with
    | (Ok (a, w), e) => k a w e
    | (Err err, e) => (Err err, e)
    end.

Section Run.
Context {X : Externals} {K : KeyBytes} {P : PetGraph nat} {I : HashIteration} {R : Type} `{RandomSource R} `{SeededSource R}.
Context {DB : Type} `{FullNodeStorage DB}.
Implicit Types (g : ChainGenerator DB) (st : GenerationState).

(** A computation that only reads the generator, with the engine as it is now. *)
Definition with_engine {A} g (m : ChainGenerator DB -> gen R A) : chain_m R DB A :=
  fun w e => (m (mk_ChainGenerator (config g) (generation_deadline g) (generator_fund_account g)
    (pre_generation_height g) (generator_consts g) (generator_calc g) e) w, e).
Definition chain_gen {A} (m : gen R A) : chain_m R DB A := fun w e => (m w, e).
Definition set_rng (r : R) : chain_m R DB unit := fun w e => (Ok (tt, mk_World r (world_late w)), e).

(** The scheduling of the validator's workers; the readings of the system clock, by height, for
    the builder and for the validator; the outcomes of the two listings of the UTXOs and of
    the backup of the keys. *)
Variables (schedule : list nat -> list nat) (builder_now validator_now : Z -> result string Z).
Variables (log_utxos_state : bool -> DB -> result string unit) (save_accounts : GenerationState -> Z -> Z -> result string unit).

(** A built block goes to the engine, and anything but its application ends the run. *)
Definition submit_block (failed rejected : string) (block : Block) : chain_m R DB unit :=
  fun w e =>
    match on_block schedule (validator_now (height (header block))) block e with
    | (Ok (Applied _), e) => (Ok (tt, w), e)
    | (Ok (Rejected _), e) => (Err (Failed rejected), e)
    | (Ok _, e) => (Err (Failed "Unexpected ConsensusVerdict"), e)
    | (Err _, e) => (Err (Failed failed), e)
    end.

(** [prepare_generation_state] *)
Definition prepare_generation_state g (seed end_height : Z) : chain_m R DB GenerationState :=
  let deadline := generation_deadline g in
  let height := Some (pre_generation_height g) in
  st ← chain_gen (new_with_random_accounts (Z.to_nat (active_addresses_count (config_blocks (config g))))
    (generator_fund_account g) seed (pre_generation_height g) deadline);
  _ ← with_engine g (fun g => gen_try (log_utxos_state true (db (consensus_engine g))));
  _ ← chain_gen (foldr (fun _ rest => _ ← check_generation_deadline deadline height; rest) (mret tt) (accounts st));
  _ ← chain_gen (check_generation_deadline deadline height);
  _ ← chain_gen (gen_try (save_accounts st (pre_generation_height g) end_height));
  _ ← chain_gen (check_generation_deadline deadline height);
  mret st.

(** [distribute_balances] *)
Definition distribute_balances g st (distributor_height : Z) : chain_m R DB (GenerationState * Z) :=
  distributor ← with_engine g (fun g => build_distributing_block g (builder_now distributor_height) st);
  _ ← chain_gen (check_generation_deadline (generation_deadline g) (Some (pre_generation_height g)));
  _ ← submit_block "Consensus engine failed: {:?}" "Distributor block rejected by consensus: {:?}" distributor;
  _ ← chain_gen (check_generation_deadline (generation_deadline g) (Some distributor_height));
  mret (state_apply_block st distributor, Z.of_nat (length (transactions distributor))).

(** The main loop, over the heights of the normal blocks. *)
Fixpoint generate_blocks g (seeds : SeedSchedule) (heights : list Z) st (tx_count : Z) : chain_m R DB (GenerationState * Z) :=
  match heights with
  | [] => mret (st, tx_count)
  | height :: heights =>
      let deadline := generation_deadline g in
      _ ← chain_gen (check_generation_deadline deadline (Some (height - 1)));
      _ ← (if is_switch_height seeds height then
             current_seed ← chain_gen (gen_lift (ok_or (seed_at seeds height) (Panicked "index out of bounds")));
             set_rng (rng_from_seed current_seed)
           else mret tt);
      block ← with_engine g (fun g => gen_context "failed to build block at chain height {} : {}"
        (build_block g (builder_now height) height st));
      _ ← chain_gen (check_generation_deadline deadline (Some (height - 1)));
      _ ← submit_block "Consensus engine failed at height {}: {:?}" "Block at height {} rejected by consensus: {:?}" block;
      _ ← chain_gen (check_generation_deadline deadline (Some height));
      generate_blocks g seeds heights (state_apply_block st block)
        (wrap 64 (tx_count + Z.of_nat (length (transactions block))))
  end.

(** [ChainGenerator::start]; the random source of the world is replaced by the seeded one. *)
Definition start g : chain_m R DB unit :=
  let deadline := generation_deadline g in
  _ ← chain_gen (check_generation_deadline deadline (Some (pre_generation_height g)));
  let total_to_generate := num_blocks (config_chain (config g)) in
  if total_to_generate =? 0 then mret tt
  else
    let distributor_height := wrap 64 (pre_generation_height g + 1) in
    let normal_blocks := wrap 64 (distributor_height + 1) in
    let end_height := wrap 64 (pre_generation_height g + total_to_generate) in
    let seeds := SeedSchedule_new (seed (config_chain (config g))) in
    current_seed ← chain_gen (gen_lift (ok_or (seed_at seeds distributor_height) (Panicked "index out of bounds")));
    _ ← set_rng (rng_from_seed current_seed);
    st ← prepare_generation_state g current_seed end_height;
    distributed ← distribute_balances g st distributor_height;
    done ← generate_blocks g seeds (seqZ normal_blocks (end_height - normal_blocks + 1)) distributed.1 distributed.2;
    _ ← chain_gen (check_generation_deadline deadline (Some end_height));
    _ ← with_engine g (fun g => gen_try (log_utxos_state false (db (consensus_engine g))));
    _ ← chain_gen (check_generation_deadline deadline (Some end_height));
    mret tt.
End Run.
