(* ===== verification/ChaingenProps.v ===== *)
(** ChaingenProps: what the generator of test chains guarantees. The filling of a block ends
    without a panic, its payments are sound for the chain, the blocks are accepted by every
    validator, and the seeds of the accounts collide. *)
From S2P Require Import Prelude Bytes Types Externals Petgraph Hashing Work Merkle Transactions Blocks Storage UtxoProcessor Transition Difficulty Dependencies Validator Acceptance ChainIndex Engine Rocks Wallet Node Seeds Strategy Txgen Accounts Chaingen.
From Stdlib Require Import Zpow_facts.
#[local] Open Scope Z_scope.

(** * Computations that only the deadline stops

    [guarded deadline m Q]: [m] yields a result that satisfies [Q], or the run has a deadline
    and the failure is its expiry. *)

Definition late_error : GenError :=
  Failed "generation time limit exceeded; last successfully saved height: {height}".

Definition guarded {R A : Type} (deadline : bool) (m : gen R A) (Q : A -> Prop) : Prop :=
  forall w, match m w with
            | Ok (a, _) => Q a
            | Err e => deadline = true /\ e = late_error
            end.

Section Guarded.
Context {R : Type} (deadline : bool).

Lemma guarded_answers {A} (m : gen R A) Q : answers m Q -> guarded deadline m Q.
Proof. intros Hm w. by destruct (Hm w) as (a & w' & -> & _ & Ha). Qed.

Lemma guarded_ret {A} (a : A) (Q : A -> Prop) : Q a -> guarded deadline (mret a : gen R A) Q.
Proof. by intros Ha w. Qed.

Lemma guarded_bind {A B} (m : gen R A) (k : A -> gen R B) P Q :
  guarded deadline m P -> (forall a, P a -> guarded deadline (k a) Q) -> guarded deadline (m ≫= k) Q.
Proof.
  intros Hm Hk w. specialize (Hm w). unfold mbind, gen_bind. destruct (m w) as [[a w']|e]; [|done].
  by apply Hk.
Qed.

Lemma guarded_weaken {A} (m : gen R A) P Q :
  guarded deadline m P -> (forall a, P a -> Q a) -> guarded deadline m Q.
Proof. intros Hm HPQ w. specialize (Hm w). destruct (m w) as [[a w']|e]; auto. Qed.

Lemma guarded_check h : guarded deadline (check_generation_deadline (R := R) deadline (Some h)) (fun _ => True).
Proof. intros w. unfold check_generation_deadline. destruct deadline; [|done]. by destruct (world_late w) as [|[] ?]. Qed.
End Guarded.

Tactic Notation "guard" uconstr(H) := eapply guarded_bind; [refine H|cbv beta].

(** * The ordered search for a nonce *)

Lemma find_first_spec p n from :
  match find_first p from n with
  | Some x => from <= x < from + Z.pos n /\ p x = true /\ forall y, from <= y < x -> p y = false
  | None => forall y, from <= y < from + Z.pos n -> p y = false
  end.
Proof.
  revert from. induction n as [n IH|n IH|]; intros from; cbn [find_first].
  - destruct (p from) eqn:Hp; [split; [lia|split; [done|lia]]|].
    pose proof (IH (from + 1)) as H1. destruct (find_first p (from + 1) n) as [x|].
    { destruct H1 as (Hx & Hpx & Hall). split; [lia|]. split; [done|]. intros y Hy.
      destruct (decide (y = from)) as [->|]; [done|]. apply Hall. lia. }
    pose proof (IH (from + 1 + Z.pos n)) as H2. destruct (find_first p (from + 1 + Z.pos n) n) as [x|].
    + destruct H2 as (Hx & Hpx & Hall). split; [lia|]. split; [done|]. intros y Hy.
      destruct (decide (y = from)) as [->|]; [done|].
      destruct (Z.lt_ge_cases y (from + 1 + Z.pos n)); [apply H1|apply Hall]; lia.
    + intros y Hy. destruct (decide (y = from)) as [->|]; [done|].
      destruct (Z.lt_ge_cases y (from + 1 + Z.pos n)); [apply H1|apply H2]; lia.
  - pose proof (IH from) as H1. destruct (find_first p from n) as [x|].
    { destruct H1 as (Hx & Hpx & Hall). split; [lia|]. done. }
    pose proof (IH (from + Z.pos n)) as H2. destruct (find_first p (from + Z.pos n) n) as [x|].
    + destruct H2 as (Hx & Hpx & Hall). split; [lia|]. split; [done|]. intros y Hy.
      destruct (Z.lt_ge_cases y (from + Z.pos n)); [apply H1|apply Hall]; lia.
    + intros y Hy. destruct (Z.lt_ge_cases y (from + Z.pos n)); [apply H1|apply H2]; lia.
  - destruct (p from) eqn:Hp; [split; [lia|split; [done|lia]]|].
    intros y Hy. by replace y with from by lia.
Qed.

(** * The filling of a block *)

Record strategy_ok (s : TxGenerationStrategy) : Prop := {
  so_done : 0 <= successful_txs s <= target_txs s;
  so_attempts : 0 <= attempts s <= max_attempts s;
  so_width : target_txs s < 2 ^ 62 /\ max_attempts s < 2 ^ 63;
}.

Lemma should_continue_ok s : strategy_ok s ->
  should_continue s = Ok ((attempts s <? max_attempts s) && (successful_txs s <? target_txs s)).
Proof.
  intros [Hd Ha _]. unfold should_continue. destruct (Z.ltb_spec (max_attempts s) (attempts s)); [lia|].
  by destruct (Z.ltb_spec (target_txs s) (successful_txs s)); [lia|].
Qed.

Lemma record_fail_ok s : strategy_ok s -> attempts s < max_attempts s ->
  strategy_ok (record_fail s) /\ attempts (record_fail s) = attempts s + 1.
Proof.
  intros [Hd Ha Hw] Hlt. unfold record_fail. cbn [attempts]. rewrite wrap64_small by lia.
  split; [|done]. split; cbn; [done|lia|done].
Qed.

Lemma record_success_ok s : strategy_ok s -> successful_txs s < target_txs s ->
  strategy_ok (record_success s) /\ successful_txs (record_success s) = successful_txs s + 1 /\
  (attempts (record_success s) = 0 \/
   (successful_txs s + 1 = target_txs s /\ attempts (record_success s) = attempts s)).
Proof.
  intros [Hd Ha Hw] Hlt. unfold record_success. cbn [successful_txs attempts]. rewrite wrap64_small by lia.
  destruct (Z.ltb_spec (successful_txs s + 1) (target_txs s)); (split; [split; cbn; lia|]); split; [done|by left|done|right; lia].
Qed.

Lemma new_strategy_ok target : 0 <= target < 2 ^ 32 -> strategy_ok (TxGenerationStrategy_new target).
Proof.
  intros Ht. unfold TxGenerationStrategy_new, saturating_mul. assert (uint_max 64 = 2 ^ 64 - 1) as Hm by done.
  split; cbn [successful_txs target_txs attempts max_attempts]; lia.
Qed.

(** How one strategy can follow another: more successes, or the same ones after no fewer
    attempts than the later one counts. *)
Definition follows (s s' : TxGenerationStrategy) : Prop :=
  target_txs s' = target_txs s /\ max_attempts s' = max_attempts s /\
  ((successful_txs s' = successful_txs s /\ attempts s' = attempts s) \/
   (successful_txs s < successful_txs s' /\ attempts s' <= attempts s)).

Lemma follows_refl s : follows s s.
Proof. split; [done|]. split; [done|]. by left. Qed.

Lemma follows_trans s1 s2 s3 : follows s1 s2 -> follows s2 s3 -> follows s1 s3.
Proof. unfold follows. lia. Qed.

Lemma follows_success s : strategy_ok s -> successful_txs s < target_txs s -> follows s (record_success s).
Proof.
  intros Hs Hlt. destruct (record_success_ok s Hs Hlt) as (_ & H1 & H2). split; [done|]. split; [done|]. right.
  pose proof (so_attempts _ Hs). lia.
Qed.

(** What an iteration that records a failure and then follows leaves of the fuel. *)
Lemma fuel_drops s s' : strategy_ok s -> attempts s < max_attempts s -> successful_txs s < target_txs s ->
  strategy_ok s' -> follows (record_fail s) s' -> (fill_fuel s' < fill_fuel s)%nat.
Proof.
  intros Hs Ha Hd Hs' Hf. destruct (record_fail_ok s Hs Ha) as [_ Hatt]. unfold follows, fill_fuel in *.
  rewrite Hatt in Hf. cbn [record_fail target_txs max_attempts successful_txs] in Hf.
  pose proof (so_attempts _ Hs) as Hat. pose proof (so_attempts _ Hs') as Hat'.
  pose proof (so_done _ Hs) as Hdn. pose proof (so_done _ Hs') as Hdn'.
  destruct Hf as (Ht & Hm & Hf). rewrite Ht, Hm in *.
  set (left := target_txs s - successful_txs s) in *. set (left' := target_txs s - successful_txs s') in *.
  set (most := max_attempts s) in *.
  assert (0 <= left' * (most + 1)) by (apply Z.mul_nonneg_nonneg; lia).
  destruct Hf as [[Hs1 Ha1]|[Hs1 Ha1]].
  - replace left' with left in * by lia. apply Z2Nat.inj_lt; lia.
  - assert ((left' + 1) * (most + 1) <= left * (most + 1)) by (apply Z.mul_le_mono_nonneg_r; lia).
    apply Z2Nat.inj_lt; lia.
Qed.

(** ** The payments of a block *)

Lemma submseteq_nodup {A : Type} (l k : list A) : l ⊆+ k -> NoDup k -> NoDup l.
Proof. intros [k' ->]%submseteq_Permutation Hnd. by apply NoDup_app in Hnd as [? _]. Qed.

(** A payment of one generated account, from UTXOs the state records for it. *)
Definition generated `{Externals} (st : GenerationState) params pool (t : Transaction) : Prop :=
  exists a key used, (a, key) ∈ accounts st /\ used <> [] /\
    Forall (fun u => (a, u) ∈ tracked (account_utxos st)) used /\ NoDup (info_outpoint <$> used) /\
    payment_of params key pool used t.

(** What the loops keep: a strategy in its bounds, and after the coinbase as many generated
    payments as successes, which spend nothing twice. *)
Record filling_ok `{Externals} (st : GenerationState) params pool cb (f : Filling) : Prop := {
  fo_strategy : strategy_ok (strategy f);
  fo_payments : exists pays, filled f = cb :: pays /\ Forall (generated st params pool) pays /\
    NoDup (spent_list pays) /\ (forall op, op ∈ spent_list pays -> op ∈ spent_in_block f) /\
    Z.of_nat (length pays) = successful_txs (strategy f);
}.

Section Filling.
Context {X : Externals} {R : Type} `{RandomSourceLaws R}.
Context (st : GenerationState) (m : gmap OutPoint UTXO) (Hsync : in_sync st m).
Context (Hvalues : nonneg_values m) (Htotal : total_value m < 2 ^ 62).
Context (params : TransactionGenerationParams) (Hparams : params_small params) (Hinputs : 2 <= max_inputs params).
Context (pool : list AccountAddress) (cb : Transaction) (deadline : bool) (height : Z).

(** Distinct outpoints of the chain are worth no more than the chain. *)
Lemma distinct_values_le ops : NoDup ops -> Forall (fun op => is_Some (m !! op)) ops ->
  zsum (value_at m <$> ops) <= total_value m.
Proof using Hvalues.
  intros Hnd Hall. pose proof (total_remove_all m ops Hnd Hall) as Ht.
  pose proof (map_zsum_nonneg utxo_value _ (nonneg_remove_all m ops Hvalues)) as Hnn. unfold total_value in *. lia.
Qed.

Lemma tracked_values a us : Forall (fun u => (a, u) ∈ tracked (account_utxos st)) us ->
  Forall (fun u => exists x, m !! info_outpoint u = Some x /\ owner x = a /\ utxo_value x = info_value u) us /\
  info_value <$> us = value_at m <$> (info_outpoint <$> us) /\
  Forall (fun op => is_Some (m !! op)) (info_outpoint <$> us).
Proof using Hsync.
  intros Hus. assert (Forall (fun u => exists x, m !! info_outpoint u = Some x /\ owner x = a /\ utxo_value x = info_value u) us) as Hall.
  { eapply Forall_impl; [exact Hus|]. intros u Hu. by apply (sy_sound _ _ Hsync). }
  split; [done|]. split.
  - rewrite <-list_fmap_compose. induction Hall as [|u us (x & Hx & _ & Hv) Hall IH]; [done|].
    apply Forall_cons in Hus as [_ Hus]. rewrite !fmap_cons, IH by done. f_equal. cbn. unfold value_at. by rewrite Hx.
  - apply Forall_fmap. eapply Forall_impl; [exact Hall|]. intros u (x & Hx & _). by exists x.
Qed.

Lemma tracked_fit a us : Forall (fun u => (a, u) ∈ tracked (account_utxos st)) us -> NoDup (info_outpoint <$> us) ->
  infos_fit us.
Proof using Hsync Hvalues Htotal.
  intros Hus Hnd. pose proof (tracked_values a us Hus) as (Hall & Hv & Hsome). split.
  - eapply Forall_impl; [exact Hus|]. cbn. intros u Hu. apply (sy_sound _ _ Hsync) in Hu as (x & Hx & _ & <-).
    by apply (map_Forall_lookup_1 _ _ _ _ Hvalues Hx).
  - unfold infos_total. rewrite Hv. pose proof (distinct_values_le _ Hnd Hsome). lia.
Qed.

(** A sender of the state, with UTXOs of its own. *)
Definition sender_ok (s : AccountAddress * SigningKey * list UtxoInfo) : Prop :=
  s.1 ∈ accounts st /\ Forall (fun u => (s.1.1, u) ∈ tracked (account_utxos st)) s.2 /\ NoDup (info_outpoint <$> s.2).

Lemma index_map_get_elem {V} (l : list (AccountAddress * V)) a v : index_map_get l a = Some v -> (a, v) ∈ l.
Proof.
  unfold index_map_get. intros Hl. destruct (find _ l) as [[a' v']|] eqn:Hf; [|done]. apply find_some in Hf as [Hin Ha].
  apply bool_decide_eq_true_1 in Ha. cbn in *. simplify_eq. by apply list_elem_of_In.
Qed.

Lemma top_senders n : Forall sender_ok (get_top_accounts_with_utxos st n).
Proof using Hsync.
  apply Forall_forall. intros s Hs. unfold get_top_accounts_with_utxos in Hs. apply (elem_of_take _ n) in Hs as (i & Hs & _).
  apply list_elem_of_lookup_2 in Hs. rewrite merge_sort_Permutation in Hs. apply list_elem_of_omap in Hs as ([a l] & Hin & Hs).
  apply list_elem_of_filter in Hin as [_ Hin]. cbn [fst snd] in Hs.
  destruct (index_map_get (accounts st) a) as [key|] eqn:Hk; [|done]. injection Hs as <-. unfold sender_ok. cbn [fst snd].
  split; [by apply index_map_get_elem|]. split.
  - apply Forall_forall. intros u Hu. rewrite merge_sort_Permutation in Hu. apply elem_of_tracked. by exists l.
  - rewrite merge_sort_Permutation. pose proof (sy_distinct _ _ Hsync) as Hnd. unfold tracked_ops, tracked in Hnd.
    apply list_elem_of_split in Hin as (l1 & l2 & Heq). rewrite Heq, bind_app, fmap_app in Hnd.
    apply NoDup_app in Hnd as (_ & _ & Hnd). cbn [mbind list_bind fst snd] in Hnd. rewrite fmap_app in Hnd.
    apply NoDup_app in Hnd as (Hnd & _). by rewrite <-list_fmap_compose in Hnd.
Qed.

Lemma selected_sub us criteria count : select_utxos_by_criteria us criteria count ⊆+ us.
Proof.
  unfold select_utxos_by_criteria. case_match; [apply submseteq_nil_l|].
  rewrite <-(merge_sort_Permutation (criteria_le criteria) us) at 2. apply sublist_submseteq, sublist_take.
Qed.

Lemma used_sub pattern us : infos_used params pattern us ⊆+ us.
Proof. unfold infos_used. destruct pattern; apply sublist_submseteq, sublist_take. Qed.

Lemma spent_by_payment_of key used t : payment_of params key pool used t ->
  spent_by t = info_outpoint <$> used /\ kind (tx_data t) = Payment.
Proof.
  intros (outs & -> & _). unfold spent_by, is_payment. rewrite sign_data. cbn [payment_data kind inputs].
  rewrite bool_decide_eq_true_2 by done. split; [|done]. by rewrite <-list_fmap_compose.
Qed.

(** A payment added to the block. *)
Lemma filling_success f a key selected used t :
  filling_ok st params pool cb f -> successful_txs (strategy f) < target_txs (strategy f) ->
  (a, key) ∈ accounts st -> Forall (fun u => (a, u) ∈ tracked (account_utxos st)) selected ->
  NoDup (info_outpoint <$> selected) -> (forall u, u ∈ selected -> info_outpoint u ∉ spent_in_block f) ->
  used ⊆+ selected -> used <> [] -> payment_of params key pool used t ->
  filling_ok st params pool cb (mk_Filling (record_success (strategy f))
    (list_to_set (info_outpoint <$> selected) ∪ spent_in_block f) (filled f ++ [t])).
Proof.
  intros [Hs (pays & Hf & Hall & Hnd & Hin & Hlen)] Hlt Hkey Hsel Hselnd Hfresh Hsub Hne Hpay.
  destruct (record_success_ok _ Hs Hlt) as (Hs' & Hsucc & _). split; [done|].
  destruct (spent_by_payment_of _ _ _ Hpay) as [Hspent _]. cbn [strategy spent_in_block filled].
  assert (forall u, u ∈ used -> u ∈ selected) as Hused by (intros u Hu; by eapply elem_of_submseteq).
  assert (spent_list (pays ++ [t]) = spent_list pays ++ (info_outpoint <$> used)) as Hlist.
  { unfold spent_list. rewrite bind_app. cbn [mbind list_bind]. by rewrite app_nil_r, Hspent. }
  exists (pays ++ [t]). rewrite Hlist. split; [by rewrite Hf|]. split_and!.
  - apply Forall_app. split; [done|]. apply Forall_singleton. exists a, key, used. split_and!; [done|done| | |done].
    + rewrite Forall_forall in Hsel |- *. intros u Hu. by apply Hsel, Hused.
    + eapply submseteq_nodup; [|exact Hselnd]. by apply fmap_submseteq.
  - apply NoDup_app. split; [done|]. split.
    + intros op Hop Hu. apply list_elem_of_fmap in Hu as (u & -> & Hu). by apply (Hfresh u); [apply Hused|apply Hin].
    + eapply submseteq_nodup; [|exact Hselnd]. by apply fmap_submseteq.
  - intros op Hop. apply elem_of_app in Hop as [Hop|Hop]; apply elem_of_union; [right; by apply Hin|left].
    apply list_elem_of_fmap in Hop as (u & -> & Hu). apply elem_of_list_to_set, list_elem_of_fmap. exists u. by split; [|apply Hused].
  - rewrite length_app, Hsucc. cbn [length]. lia.
Qed.

Lemma fill_senders_guarded senders f :
  Forall sender_ok senders -> filling_ok st params pool cb f ->
  guarded deadline (fill_senders deadline height params pool senders f)
    (fun f' => filling_ok st params pool cb f' /\ follows (strategy f) (strategy f')).
Proof using Hsync Hvalues Htotal Hparams Hinputs H0.
  revert f. induction senders as [|[[a key] us] senders IH]; intros f Hall Hf; cbn [fill_senders].
  { apply guarded_ret. split; [done|apply follows_refl]. }
  apply Forall_cons in Hall as [(Hkey & Hus & Hnd) Hall]. cbn [fst snd] in *.
  guard (guarded_check deadline _). intros _ _. rewrite (should_continue_ok _ (fo_strategy _ _ _ _ _ Hf)).
  eapply guarded_bind with (P := fun go => go = true -> successful_txs (strategy f) < target_txs (strategy f)).
  { intros w. cbn. intros Hgo. apply andb_prop in Hgo as [_ Hgo]. lia. }
  intros [] Hgo; cbn [negb]; [|apply guarded_ret; split; [done|apply follows_refl]]. specialize (Hgo eq_refl).
  set (available := filter _ us). case_bool_decide as Hav; [by apply IH|].
  assert (available ⊆+ us) as Hsub by apply sublist_submseteq, sublist_filter.
  eapply guarded_bind; [apply guarded_answers, choose_pattern_answers|]. cbv beta. intros pattern Hpat.
  eapply guarded_bind; [apply guarded_answers, (choose_utxo_strategy_answers (strategy f) _ _ _ Hinputs Hpat)|].
  cbv beta. intros [criteria count] Hcount. cbn [fst snd]. set (selected := select_utxos_by_criteria _ _ _).
  assert (selected ⊆+ available) as Hsel by apply selected_sub.
  assert (forall u, u ∈ selected -> u ∈ us /\ info_outpoint u ∉ spent_in_block f) as Hin.
  { intros u Hu. eapply elem_of_submseteq in Hu; [|exact Hsel]. apply list_elem_of_filter in Hu as [? ?]. done. }
  assert (Forall (fun u => (a, u) ∈ tracked (account_utxos st)) selected) as Htr.
  { rewrite Forall_forall in Hus |- *. intros u Hu. by apply Hus, Hin. }
  assert (NoDup (info_outpoint <$> selected)) as Hselnd.
  { eapply submseteq_nodup; [|exact Hnd]. apply fmap_submseteq. by etrans. }
  eapply guarded_bind; [apply guarded_answers, (generate_transaction_answers params Hparams key pattern selected pool);
    by apply (tracked_fit a)|]. cbv beta. intros o [Hviable Ho].
  destruct o as [t|]; [|by apply IH].
  assert (infos_used params pattern selected <> []) as Hne.
  { assert (viable params pattern selected pool) as Hv by (apply Hviable; by eexists). unfold viable, infos_used in *.
    destruct pattern; destruct selected as [|u [|u' l]]; cbn in Hv; try (by destruct Hv as [? _]); try done; try lia.
    all: cbn; destruct (Z.to_nat (max_inputs params)) eqn:Hz; [lia|done]. }
  pose proof (filling_success f a key selected _ t Hf Hgo Hkey Htr Hselnd (fun u Hu => proj2 (Hin u Hu))
    (used_sub pattern selected) Hne (Ho t eq_refl)) as Hf'.
  eapply guarded_weaken; [apply (IH _ Hall Hf')|]. cbv beta. intros f' [Hok Hfol]. split; [done|].
  eapply follows_trans; [|exact Hfol]. cbn [strategy]. apply follows_success; [apply Hf|done].
Qed.
End Filling.

Section FillBlock.
Context {X : Externals} {R : Type} `{RandomSourceLaws R}.
Context (st : GenerationState) (m : gmap OutPoint UTXO) (Hsync : in_sync st m).
Context (Hvalues : nonneg_values m) (Htotal : total_value m < 2 ^ 62).
Context (params : TransactionGenerationParams) (Hparams : params_small params) (Hinputs : 2 <= max_inputs params).
Context (pool : list AccountAddress) (cb : Transaction) (deadline : bool) (height : Z).

Lemma fill_block_guarded fuel f :
  filling_ok st params pool cb f -> (fill_fuel (strategy f) <= fuel)%nat ->
  guarded deadline (fill_block fuel deadline height params st pool f)
    (fun f' => filling_ok st params pool cb f' /\ target_txs (strategy f') = target_txs (strategy f) /\
       max_attempts (strategy f') = max_attempts (strategy f) /\
       (successful_txs (strategy f') = target_txs (strategy f') \/ attempts (strategy f') = max_attempts (strategy f'))).
Proof using Hsync Hvalues Htotal Hparams Hinputs H0.
  revert f. induction fuel as [|fuel IH]; intros f Hf Hfuel; cbn [fill_block];
    pose proof (fo_strategy _ _ _ _ _ Hf) as Hs; rewrite (should_continue_ok _ Hs);
    pose proof (so_done _ Hs) as Hd; pose proof (so_attempts _ Hs) as Ha.
  all: eapply guarded_bind with (P := fun go => go = (attempts (strategy f) <? max_attempts (strategy f)) &&
         (successful_txs (strategy f) <? target_txs (strategy f))); [by intros w|]; intros go Hgo.
  all: destruct (Z.ltb_spec (attempts (strategy f)) (max_attempts (strategy f))),
         (Z.ltb_spec (successful_txs (strategy f)) (target_txs (strategy f))); cbn [andb] in Hgo; subst go; cbn [negb].
  1, 5: shelve.
  1-6: apply guarded_ret; split_and!; (done || lia).
  Unshelve.
  - exfalso. unfold fill_fuel in Hfuel.
    assert (0 <= (target_txs (strategy f) - successful_txs (strategy f)) * (max_attempts (strategy f) + 1))
      by (apply Z.mul_nonneg_nonneg; lia). lia.
  - guard (guarded_check deadline _). intros _ _. destruct (record_fail_ok _ Hs ltac:(done)) as [Hs1 Hatt].
    set (f1 := mk_Filling (record_fail (strategy f)) _ _).
    assert (filling_ok st params pool cb f1) as Hf1 by (split; [done|apply Hf]).
    eapply guarded_bind; [apply (fill_senders_guarded st m Hsync Hvalues Htotal params Hparams Hinputs pool cb deadline height _ f1);
      [by apply (top_senders st m)|done]|]. cbv beta. intros f2 [Hf2 Hfol].
    eapply guarded_weaken; [apply (IH f2 Hf2)|].
    + pose proof (fuel_drops (strategy f) (strategy f2) Hs ltac:(done) ltac:(done) (fo_strategy _ _ _ _ _ Hf2) Hfol). lia.
    + cbv beta. intros f3 (Hf3 & Ht & Hm & Hend). split; [done|]. destruct Hfol as (Ht2 & Hm2 & _).
      cbn [strategy f1 record_fail target_txs max_attempts] in *. split; [congruence|]. split; [congruence|done].
Qed.

(** C30: The filling of a block ends with neither a panic nor a failed assertion, unless the deadline
    of the run passes: it has built as many payments as were asked for, or has spent all its
    attempts; every payment is one of a generated account, from recorded UTXOs, and none
    spends what another spends. *)
Theorem filling_terminates target :
  0 <= target < 2 ^ 32 ->
  let s := TxGenerationStrategy_new target in
  guarded deadline (fill_block (fill_fuel s) deadline height params st pool (mk_Filling s ∅ [cb]))
    (fun f => exists pays, filled f = cb :: pays /\ Forall (generated st params pool) pays /\ NoDup (spent_list pays) /\
       Z.of_nat (length pays) = successful_txs (strategy f) /\
       (Z.of_nat (length pays) = target \/ attempts (strategy f) = Z.max (3 * target) 10)).
Proof using Hsync Hvalues Htotal Hparams Hinputs H0.
  intros Htarget s. eapply guarded_weaken.
  - apply (fill_block_guarded _ (mk_Filling s ∅ [cb])); [|done]. split; [by apply new_strategy_ok|].
    exists []. split; [done|]. split; [done|]. split; [apply NoDup_nil_2|]. split; [|done].
    intros op Hop. by apply not_elem_of_nil in Hop.
  - cbv beta. intros f (Hf & Ht & Hm & Hend). destruct Hf as [Hs (pays & Hfill & Hall & Hnd & _ & Hlen)].
    exists pays. split_and!; [done|done|done|done|]. unfold s, TxGenerationStrategy_new in Ht, Hm. cbn in Ht, Hm.
    unfold saturating_mul in Hm. assert (uint_max 64 = 2 ^ 64 - 1) as Hmax by done.
    destruct Hend as [Hend|Hend]; [left; lia|right; lia].
Qed.
End FillBlock.

(** * Generated blocks are accepted *)

Section Inversion.
Context {R : Type}.

Lemma gen_bind_Ok {A B} (m : gen R A) (k : A -> gen R B) w r :
  (m ≫= k) w = Ok r <-> exists a w1, m w = Ok (a, w1) /\ k a w1 = Ok r.
Proof.
  unfold mbind, gen_bind. destruct (m w) as [[a w1]|e]; [|split; [done|by intros (? & ? & ? & ?)]].
  split; [intros Hk; by exists a, w1|by intros (? & ? & [= -> ->] & ?)].
Qed.

Lemma gen_try_Ok {A} (r : result string A) w a w1 : gen_try r w = Ok (a, w1 : World R) <-> r = Ok a /\ w1 = w.
Proof. unfold gen_try, gen_lift. destruct r; cbn; naive_solver. Qed.

Lemma gen_bind_Err {A B} (m : gen R A) (k : A -> gen R B) w err :
  (m ≫= k) w = Err err -> m w = Err err \/ exists a w1, m w = Ok (a, w1) /\ k a w1 = Err err.
Proof.
  unfold mbind, gen_bind. destruct (m w) as [[a w1]|e]; [intros Hk; right; by exists a, w1|].
  intros [= ->]. by left.
Qed.

Lemma gen_try_Err {A} (r : result string A) (w : World R) err : gen_try r w = Err err -> exists msg, err = Failed msg.
Proof. destruct r as [a|e]; [done|]. intros [= <-]. by eexists. Qed.

Lemma check_Err deadline h (w : World R) err :
  check_generation_deadline deadline h w = Err err -> exists msg, err = Failed msg.
Proof. unfold check_generation_deadline. repeat case_match; intros Hx; (done || injection Hx as <-; by eexists). Qed.
End Inversion.

Lemma generation_timestamp_window parent base variance median now t now' :
  generation_timestamp parent base variance median now = Ok t -> now <= now' ->
  median < t <= saturating_add 64 now' MAX_FUTURE_BLOCK_TIME_SECS.
Proof.
  intros Ht Hnow. unfold generation_timestamp in Ht. apply bind_Ok in Ht as (i & _ & Ht). apply bind_Ok in Ht as (s & _ & Ht).
  apply bind_Ok in Ht as (z & Hz & Ht). apply ok_or_Ok, checked_add_Some in Hz as [-> _]. cbv zeta in Ht. unfold saturating_add in *.
  destruct (Z.ltb_spec (Z.min (now + MAX_FUTURE_BLOCK_TIME_SECS) (uint_max 64)) (Z.max s (median + 1))) as [Hb|Hb]; [done|].
  injection Ht as <-. lia.
Qed.

(** What mining leaves of a block: its first nonce that meets the threshold. *)
Lemma mined_block `{Externals} {R : Type} block cap deadline (w : World R) b w' :
  genesis_state (header block) = None ->
  mine_block_parallel_ordered block cap deadline w = Ok (b, w') ->
  exists n, 0 <= n < Z.pos cap /\ b = mk_Block (set_nonce (header block) n) (transactions block) /\
    meets_threshold (block_hash b) (hash_threshold (header b)) = true /\
    forall k, 0 <= k < n ->
      meets_threshold (block_hash (mk_Block (set_nonce (header block) k) (transactions block))) (hash_threshold (header block)) = false.
Proof.
  intros Hg Hm. unfold mine_block_parallel_ordered in Hm. apply gen_bind_Ok in Hm as ([] & w1 & _ & Hm). cbv zeta in Hm.
  apply gen_bind_Ok in Hm as ([] & w2 & _ & Hm). pose proof (find_first_spec (fun nonce =>
    meets_threshold (BlockHash_new (to_hash_bytes (set_nonce (header block) nonce))) (hash_threshold (header block))) cap 0) as Hf.
  destruct (find_first _ 0 cap) as [n|]; [|done]. injection Hm as <- <-. destruct Hf as (Hn & Hmeet & Hless).
  assert (forall k, block_hash (mk_Block (set_nonce (header block) k) (transactions block)) =
    BlockHash_new (to_hash_bytes (set_nonce (header block) k))) as Hh.
  { intros k. unfold block_hash, is_genesis. cbn. by rewrite Hg. }
  exists n. split; [lia|]. split; [done|]. split; [by rewrite Hh|]. intros k Hk. rewrite Hh. by apply Hless.
Qed.

(** A payment a block may carry: sound, of a bounded total, spending something, all of it
    known, and creating no negative output. *)
Record payable `{Externals} (m : gmap OutPoint UTXO) (t : Transaction) : Prop := {
  py_sound : payment_sound m t;
  py_bounded : in_total m t < 2 ^ 62;
  py_spends : spent_by t <> [];
  py_outputs : Forall (fun o => 0 <= value o) (outputs (tx_data t));
  py_known : Forall (fun op => is_Some (m !! op)) (spent_by t);
}.

Section Sound.
Context {X : Externals} {E : EcdsaLaws}.
Context (st : GenerationState) (m : gmap OutPoint UTXO) (Hsync : in_sync st m).
Context (Hvalues : nonneg_values m) (Htotal : total_value m < 2 ^ 62).
Context (params : TransactionGenerationParams) (Hparams : params_small params).
Implicit Types (pool : list AccountAddress).

(** The address of every account is that of its key. *)
Definition accounts_ok : Prop := Forall (fun e => e.1 = from_public_key (verifying_key e.2)) (accounts st).
Context (Haccounts : accounts_ok).

Lemma generated_payable pool t : generated st params pool t -> payable m t.
Proof using Hsync Hvalues Htotal Hparams Haccounts E.
  intros (a & key & used & Hkey & Hne & Htr & Hnd & Hpay).
  destruct (spent_by_payment_of params _ _ _ _ Hpay) as [Hspent Hkind]. destruct Hpay as (outs & -> & _ & Hsum & Hviable & _).
  destruct (tracked_values st m Hsync a used Htr) as (Hall & Hv & Hsome).
  destruct (tracked_fit st m Hsync Hvalues Htotal a used Htr Hnd) as [Hnn Hfit].
  destruct (sign_recovers_data (payment_data (spend_info <$> used) outs) key eq_refl) as [Hd Hrec].
  assert (in_total m (sign (payment_data (spend_info <$> used) outs) key) = infos_total used) as Hin.
  { unfold in_total, infos_total. by rewrite Hspent, Hv. }
  split; rewrite ?Hspent.
  - split; [done|]. split.
    + exists (verifying_key key). split; [done|]. rewrite Hspent. apply Forall_fmap. eapply Forall_impl; [exact Hall|].
      intros u (x & Hx & Ho & _). exists x. split; [done|]. rewrite Ho. unfold accounts_ok in Haccounts.
      rewrite Forall_forall in Haccounts. by apply (Haccounts (a, key)).
    + rewrite Hin, Hsum. unfold out_total. rewrite Hd. cbn [payment_data outputs].
      pose proof (fee_nonneg params (Z.of_nat (length used)) (Z.of_nat (length outs))). lia.
  - lia.
  - by destruct used.
  - rewrite Hd. cbn [payment_data outputs]. pose proof (min_viable_small params Hparams). eapply Forall_impl; [exact Hviable|]. cbn. lia.
  - done.
Qed.

End Sound.

Section Acceptable.
Context {X : Externals} (m : gmap OutPoint UTXO) (Hvalues : nonneg_values m) (Htotal : total_value m < 2 ^ 62).

(** Payments that spend something each, and nothing twice, are distinct. *)
Lemma spending_distinct pays : Forall (payable m) pays -> NoDup (spent_list pays) -> NoDup pays.
Proof.
  induction pays as [|t pays IH]; intros Hne Hnd; [apply NoDup_nil_2|]. apply Forall_cons in Hne as [Ht Hne].
  unfold spent_list in Hnd. cbn [mbind list_bind] in Hnd. apply NoDup_app in Hnd as (_ & Hdis & Hnd).
  apply NoDup_cons. split; [|by apply IH]. intros Hin. pose proof (py_spends _ _ Ht) as Hs.
  destruct (spent_by t) as [|op ops] eqn:Hsp; [done|].
  apply (Hdis op); [by left|]. apply list_elem_of_bind. exists t. rewrite Hsp. split; [by left|done].
Qed.

Lemma payable_known pays op : Forall (payable m) pays -> op ∈ spent_list pays -> is_Some (m !! op).
Proof.
  intros Hall Hop. apply list_elem_of_bind in Hop as (t & Hop & Ht). rewrite Forall_forall in Hall.
  pose proof (py_known _ _ (Hall t Ht)) as Hk. rewrite Forall_forall in Hk. by apply Hk.
Qed.

(** All fees of payments that spend nothing twice. *)
Lemma fees_bounded pays : Forall (payable m) pays -> NoDup (spent_list pays) ->
  0 <= zsum ((fun t => in_total m t - out_total t) <$> pays) /\ zsum (fee m <$> pays) <= total_value m.
Proof using Hvalues.
  intros Hall Hnd. assert (Forall (fun t => 0 <= in_total m t - out_total t /\ fee m t <= in_total m t) pays) as Hfee.
  { eapply Forall_impl; [exact Hall|]. intros t [(Hk & _ & Hle) _ _ Ho _].
    assert (0 <= out_total t) by (by apply zsum_nonneg, Forall_fmap). unfold fee, is_payment. rewrite Hk, bool_decide_eq_true_2 by done. lia. }
  split; [apply zsum_nonneg, Forall_fmap; eapply Forall_impl; [exact Hfee|]; cbn; lia|].
  assert (zsum (fee m <$> pays) <= zsum (in_total m <$> pays)) as Hle.
  { clear -Hfee. induction Hfee as [|t pays [_ Ht] _ IH]; [done|]. rewrite !fmap_cons, !zsum_cons. lia. }
  etrans; [exact Hle|]. change (in_total m) with (fun t => zsum (value_at m <$> spent_by t)).
  rewrite <-spent_list_values. apply (distinct_values_le m Hvalues); [done|]. apply Forall_forall. intros op.
  by apply payable_known.
Qed.

(** A block of a coinbase for the subsidy and payable payments that spend nothing twice is
    acceptable, unless hashes collide. *)
Lemma payable_acceptable rules b cb pays miner :
  transactions b = cb :: pays -> cb = generated_coinbase (height (header b)) (previous_block_hash (header b))
    (block_subsidy rules (height (header b))) miner ->
  Forall (payable m) pays -> NoDup (spent_list pays) ->
  0 <= block_subsidy rules (height (header b)) < 2 ^ 63 ->
  NoDup (created_list (transactions b)).*1 ->
  (forall op, op ∈ spent_list pays -> op ∉ (created_list (transactions b)).*1) ->
  acceptable rules m b cb (mk_TransactionOut (block_subsidy rules (height (header b))) miner) pays.
Proof using Hvalues Htotal.
  intros Htx Hcb Hall Hnd Hsub Hcreated Hext. pose proof (fees_bounded pays Hall Hnd) as [Hfee Hfees].
  assert (spent_list (transactions b) = spent_list pays) as Hspent.
  { rewrite Htx. unfold spent_list. cbn [mbind list_bind]. by rewrite spent_by_other by (by subst cb). }
  split; [split|..]; rewrite ?Hspent; try done.
  - by subst cb.
  - by subst cb.
  - by subst cb.
  - eapply Forall_impl; [exact Hall|]. by intros t [? _ _ _ _].
  - intros op Hop. split; [by eapply payable_known|by apply Hext].
  - cbn [value]. lia.
  - rewrite Htx. apply NoDup_cons. split; [|by apply spending_distinct].
    intros Hin. rewrite Forall_forall in Hall. destruct (py_sound _ _ (Hall cb Hin)) as (Hk & _). by subst cb.
  - unfold outputs_typed. rewrite Htx. apply Forall_cons. split.
    + subst cb. apply Forall_singleton. cbn. lia.
    + eapply Forall_impl; [exact Hall|]. by intros t [_ _ _ ? _].
  - eapply Forall_impl; [exact Hall|]. intros t [_ ? _ _ _]. cbn. lia.
  - lia.
  - lia.
Qed.
End Acceptable.

(** ** The blocks *)

Section Accepted.
Context {X : Externals} {E : EcdsaLaws} {P : PetGraph nat} `{!PetGraphLaws nat} {R : Type} `{RandomSourceLaws R}.
Context {DB : Type} `{FullNodeStorage DB} `{!UtxoReadLaws Snapshot}.
Variable schedule : list nat -> list nat.
Implicit Types (g : ChainGenerator DB) (st : GenerationState) (view : Snapshot).

(** What both builders read, and the header they make of it. *)
Lemma generation_context_Ok g h w prev thr med w1 view :
  db_read (db (consensus_engine g)) = Ok view ->
  generation_context g h w = Ok ((prev, thr, med), w1 : World R) ->
  w1 = w /\ get_block_by_height view h = Ok (Some prev) /\
  next_hash_threshold (generator_calc g) view (block_hash prev) = Ok thr /\
  median_time_past view (block_hash prev) = Ok med.
Proof.
  intros Hview Hc. unfold generation_context in Hc. rewrite Hview in Hc. cbn [map_err] in Hc.
  apply gen_bind_Ok in Hc as (v & w2 & [[= <-] ->]%gen_try_Ok & Hc).
  apply gen_bind_Ok in Hc as (found & w3 & [Hf%map_err_Ok ->]%gen_try_Ok & Hc).
  apply gen_bind_Ok in Hc as (p & w4 & [Hp%ok_or_Ok ->]%gen_try_Ok & Hc).
  apply gen_bind_Ok in Hc as (t & w5 & [Ht%map_err_Ok ->]%gen_try_Ok & Hc).
  apply gen_bind_Ok in Hc as (md & w6 & [Hm%map_err_Ok ->]%gen_try_Ok & Hc).
  injection Hc as <- <- <- <-. by subst found.
Qed.

(** A mined block over such a header follows its parent's branch. *)
Lemma built_follows g h w prev thr med w1 view txs height timestamp vs cap deadline b (w2 w3 : World R) now now' parent base variance :
  db_read (db (consensus_engine g)) = Ok view ->
  generation_context g h w = Ok ((prev, thr, med), w1 : World R) ->
  generation_timestamp parent base variance med now = Ok timestamp -> now <= now' -> calc_typed (generator_calc g) ->
  mine_block_parallel_ordered (Block_new txs (block_hash prev) height thr timestamp vs) cap deadline w2 = Ok (b, w3) ->
  header_follows (generator_calc g) view now' b /\ transactions b = txs /\
  Types.height (header b) = height /\ previous_block_hash (header b) = block_hash prev.
Proof.
  intros Hview Hctx Hts Hnow Hthr Hm. destruct (generation_context_Ok _ _ _ _ _ _ _ _ Hview Hctx) as (_ & _ & Hnext & Hmed).
  apply mined_block in Hm as (n & _ & -> & Hmeet & _); [|done]. split; [|done].
  split; cbn [header transactions set_nonce Block_new previous_block_hash Types.timestamp hash_threshold merkle_root_hash]; try done.
  - exists med. split; [done|]. by eapply generation_timestamp_window.
  - pose proof (next_hash_threshold_range _ _ _ _ Hthr Hnext). cbn; lia.
Qed.

(** What a generated block is. *)
Record block_built g (now' h : Z) st view (b : Block) : Prop := {
  bb_follows : header_follows (generator_calc g) view now' b;
  bb_height : Types.height (header b) = h;
  bb_prev : exists prev, get_block_by_height view (h - 1) = Ok (Some prev) /\ previous_block_hash (header b) = block_hash prev;
  bb_transactions : exists pays, let cb := generated_coinbase h (previous_block_hash (header b))
      (block_subsidy (generator_consts g) h) (settings_miner_address (config_blocks (config g))) in
    transactions b = cb :: pays /\ NoDup (spent_list pays) /\ Z.of_nat (length pays) < 2 ^ 32 /\
    exists pool, Forall (generated st params_default pool) pays;
}.

Lemma default_params_small : params_small params_default.
Proof. split; [split; cbn; lia|cbn; lia]. Qed.

(** The bounds of a validated configuration. *)
Record config_ok (c : ChainGenConfig) : Prop := {
  co_min : 2 <= min_transactions_per_block (config_blocks c);
  co_max : max_transactions_per_block (config_blocks c) < 2 ^ 32;
  co_order : min_transactions_per_block (config_blocks c) <= max_transactions_per_block (config_blocks c);
  co_time : 0 <= average_block_time_secs (config_blocks c);
}.

Section Built.
Context g (h : Z) st view (Hview : db_read (db (consensus_engine g)) = Ok view) (Hsync : in_sync st (utxo_view view)).
Context (Hval : nonneg_values (utxo_view view)) (Htot : total_value (utxo_view view) < 2 ^ 62) (Hcfg : config_ok (config g)).

(** The filling as [build_block] starts it. *)
Lemma fresh_filling deadline pool cb count :
  2 <= count < 2 ^ 32 ->
  let s := TxGenerationStrategy_new (count - 1) in
  guarded (R := R) deadline (fill_block (fill_fuel s) deadline h params_default st pool (mk_Filling s ∅ [cb]))
    (fun f => exists pays, filled f = cb :: pays /\ Forall (generated st params_default pool) pays /\
       NoDup (spent_list pays) /\ Z.of_nat (length pays) < 2 ^ 32).
Proof using Hsync Hval Htot H0.
  intros Hcount s. eapply guarded_weaken.
  - apply (fill_block_guarded st (utxo_view view) Hsync Hval Htot params_default default_params_small ltac:(done) pool cb deadline h
      (fill_fuel s) (mk_Filling s ∅ [cb])); [|done]. split; [apply new_strategy_ok; lia|].
    exists []. split_and!; try done; [apply NoDup_nil_2|]. intros op Hop. by apply not_elem_of_nil in Hop.
  - cbv beta. intros f ([Hs (pays & Hfill & Hall & Hnd & _ & Hlen)] & Ht & _). exists pays. split_and!; try done.
    pose proof (so_done _ Hs). change (target_txs (strategy (mk_Filling s ∅ [cb]))) with (count - 1) in Ht. lia.
Qed.

Lemma draws_count (w w1 : World R) count :
  random_range (min_transactions_per_block (config_blocks (config g)))
    (max_transactions_per_block (config_blocks (config g))) w = Ok (count, w1) -> 2 <= count < 2 ^ 32.
Proof using Hcfg H0.
  intros Hc. destruct Hcfg as [Hmin Hmax Hle _]. destruct (answers_range (R := R) _ _ Hle w) as (a & w' & Ha & _ & Hin).
  assert (a = count) as -> by congruence. lia.
Qed.

Lemma build_block_built now now' (w w' : World R) b :
  build_block g (Ok now) h st w = Ok (b, w') -> calc_typed (generator_calc g) -> now <= now' ->
  block_built g now' h st view b.
Proof using Hview Hsync Hval Htot Hcfg H0.
  intros Hb Hthr Hnow. unfold build_block in Hb. destruct ((h =? 0) || (h =? 1)); [done|].
  apply gen_bind_Ok in Hb as ([[prev thr] med] & w1 & Hctx & Hb).
  apply gen_bind_Ok in Hb as (variance & w2 & Hvar & Hb).
  apply gen_bind_Ok in Hb as (n & w3 & [[= <-] ->]%gen_try_Ok & Hb).
  apply gen_bind_Ok in Hb as (ts & w4 & [Hts ->]%gen_try_Ok & Hb). cbv zeta in Hb.
  apply gen_bind_Ok in Hb as (count & w5 & Hc%draws_count & Hb).
  unfold saturating_sub in Hb. rewrite Z.max_l in Hb by lia. destruct (Z.eqb_spec (count - 1) 0); [lia|].
  apply gen_bind_Ok in Hb as (pool & w6 & Hpool & Hb). apply gen_bind_Ok in Hb as (f & w7 & Hf & Hb).
  set (cb := generated_coinbase h _ _ _) in Hf.
  pose proof (fresh_filling (generation_deadline g) pool cb count Hc w6) as Hg. rewrite Hf in Hg.
  destruct Hg as (pays & Hfill & Hall & Hnd & Hlen).
  destruct (built_follows _ _ _ _ _ _ _ _ _ _ _ _ _ _ _ _ _ _ _ _ _ _ Hview Hctx Hts Hnow Hthr Hb) as (Hfol & Htx & Hh & Hprev).
  destruct (generation_context_Ok _ _ _ _ _ _ _ _ Hview Hctx) as (_ & Hget & _).
  split; [done|done|by exists prev|]. exists pays. rewrite Hprev, Htx, Hfill. split_and!; [done|done|done|by exists pool].
Qed.

(** Building fails with a message, never with a panic. *)
Lemma build_block_error now (w : World R) err : build_block g now h st w = Err err -> exists msg, err = Failed msg.
Proof using Hsync Hval Htot Hcfg H0.
  unfold build_block. destruct ((h =? 0) || (h =? 1)); [apply gen_try_Err|].
  intros [Hc|([[prev thr] med] & w1 & _ & Hb)]%gen_bind_Err.
  { unfold generation_context in Hc. repeat (apply gen_bind_Err in Hc as [Hc|(? & ? & _ & Hc)]; [by apply gen_try_Err in Hc|]). done. }
  apply gen_bind_Err in Hb as [Hb|(variance & w2 & _ & Hb)].
  { unfold random_range in Hb. destruct Hcfg as [_ _ _ Ht]. rewrite (proj2 (Z.leb_le _ _)) in Hb by lia.
    unfold draw in Hb. by destruct (rng_range _ _ _). }
  apply gen_bind_Err in Hb as [Hb|(n & w3 & _ & Hb)]; [by apply gen_try_Err in Hb|].
  apply gen_bind_Err in Hb as [Hb|(ts & w4 & _ & Hb)]; [by apply gen_try_Err in Hb|]. cbv zeta in Hb.
  apply gen_bind_Err in Hb as [Hb|(count & w5 & Hc%draws_count & Hb)].
  { unfold random_range in Hb. destruct Hcfg as [_ _ Hle _]. rewrite (proj2 (Z.leb_le _ _) Hle) in Hb.
    unfold draw in Hb. by destruct (rng_range _ _ _). }
  unfold saturating_sub in Hb. rewrite Z.max_l in Hb by lia. destruct (Z.eqb_spec (count - 1) 0); [lia|].
  apply gen_bind_Err in Hb as [Hb|(pool & w6 & _ & Hb)].
  { exfalso. unfold get_best_receivers in Hb. destruct (bool_decide _ || _); [done|]. by rewrite Nat.ltb_irrefl in Hb. }
  apply gen_bind_Err in Hb as [Hb|(f & w7 & _ & Hb)].
  { match type of Hb with fill_block _ _ _ _ _ ?pool (mk_Filling _ _ [?cb]) _ = _ =>
      pose proof (fresh_filling (generation_deadline g) pool cb count Hc w6) as Hg end.
    rewrite Hb in Hg. destruct Hg as [_ ->]. by eexists. }
  unfold mine_block_parallel_ordered in Hb. apply gen_bind_Err in Hb as [Hb|(? & w8 & _ & Hb)]; [by apply check_Err in Hb|]. cbv zeta in Hb.
  apply gen_bind_Err in Hb as [Hb|(? & w9 & _ & Hb)]; [by apply check_Err in Hb|]. case_match; [done|by apply gen_try_Err in Hb].
Qed.
End Built.

(** A built block is acceptable, unless hashes collide. *)
Lemma built_acceptable g now' h st view b :
  block_built g now' h st view b -> in_sync st (utxo_view view) -> accounts_ok st ->
  nonneg_values (utxo_view view) -> total_value (utxo_view view) < 2 ^ 62 ->
  0 <= block_subsidy (generator_consts g) h < 2 ^ 63 ->
  NoDup (created_list (transactions b)).*1 ->
  (forall op, op ∈ spent_list (transactions b) -> op ∉ (created_list (transactions b)).*1) ->
  exists cb reward pays, acceptable (generator_consts g) (utxo_view view) b cb reward pays.
Proof.
  intros [_ Hh _ (pays & Htx & Hnd & _ & pool & Hall)] Hsync Hacc Hval Htot Hsub Hcreated Hext. cbv zeta in Htx.
  eexists _, _, pays. rewrite <-Hh in Hsub. apply payable_acceptable; [done|done|exact Htx| |..]; try done.
  - by rewrite Hh.
  - eapply Forall_impl; [exact Hall|]. intros t. by apply (generated_payable st _ Hsync Hval Htot _ default_params_small Hacc).
  - intros op Hop. apply Hext. rewrite Htx. unfold spent_list in *. cbn [mbind list_bind]. apply elem_of_app. by right.
Qed.

(** A block the generator builds on a chain it is in step with passes the validation of every
    node with the same chain and rules whose clock is not behind, unless hashes of its
    transactions collide. *)
Theorem generated_block_accepted g now now' h st (w w' : World R) b view v :
  (forall l, schedule l ≡ₚ l) ->
  db_read (db (consensus_engine g)) = Ok view ->
  validator_consts v = generator_consts g -> difficulty_calc v = generator_calc g ->
  in_sync st (utxo_view view) -> accounts_ok st ->
  nonneg_values (utxo_view view) -> total_value (utxo_view view) < 2 ^ 62 ->
  0 <= block_subsidy (generator_consts g) h < 2 ^ 63 -> config_ok (config g) ->
  build_block g (Ok now) h st w = Ok (b, w') -> calc_typed (generator_calc g) -> now <= now' ->
  NoDup (created_list (transactions b)).*1 ->
  (forall op, op ∈ spent_list (transactions b) -> op ∉ (created_list (transactions b)).*1) ->
  validate schedule (Ok now') v b view = Ok tt.
Proof.
  intros Hsch Hview Hconsts Hcalc Hsync Hacc Hval Htot Hsub Hcfg Hb Hthr Hnow Hcreated Hext.
  pose proof (build_block_built g h st view Hview Hsync Hval Htot Hcfg now now' w w' b Hb Hthr Hnow) as Hbuilt.
  destruct (built_acceptable _ _ _ _ _ _ Hbuilt Hsync Hacc Hval Htot Hsub Hcreated Hext) as (cb & reward & pays & Ha).
  apply (block_accepts schedule v b view now' cb reward pays); [done| |by rewrite Hconsts]. rewrite Hcalc. apply Hbuilt.
Qed.

(** The distributing payment is payable when the chain has the funds. *)
Lemma distributing_payable st t m :
  let f := fund_account st in
  map_Forall (fun op u => m !! op = Some u /\ owner u = funder_address f) (fund_utxos f) ->
  funder_address f = from_public_key (verifying_key (into_inner (fund_private_key f))) ->
  nonneg_values m -> total_value m < 2 ^ 62 ->
  generate_distributing_transaction st = Ok t ->
  payable m t /\ NoDup (spent_by t).
Proof.
  intros f Hfund Hkey Hval Htot Hgen.
  assert (account_utxos st = []) as Hus.
  { unfold generate_distributing_transaction in Hgen. by case_bool_decide. }
  assert (accounts st <> []) as Hacc.
  { intros Hnil. unfold generate_distributing_transaction in Hgen. rewrite Hus, Hnil, bool_decide_eq_true_2 in Hgen by done.
    cbn [negb length] in Hgen. cbv zeta in Hgen. by case_match. }
  assert (nonneg_values (fund_utxos f)) as Hfv.
  { intros op u Hu. apply Hfund in Hu as [Hu _]. by apply (map_Forall_lookup_1 _ _ _ _ Hval Hu). }
  set (ops := (map_to_list (fund_utxos f)).*1).
  assert (Forall (fun op => is_Some (m !! op)) ops /\ value_at m <$> ops = utxo_value <$> (map_to_list (fund_utxos f)).*2) as [Hsome Hvals].
  { subst ops. assert (Forall (fun e : OutPoint * UTXO => m !! e.1 = Some e.2) (map_to_list (fund_utxos f))) as Hm.
    { apply Forall_forall. intros [op u] Hin. apply elem_of_map_to_list in Hin. by apply Hfund in Hin as [? _]. }
    split; [apply Forall_fmap; eapply Forall_impl; [exact Hm|]; intros e He; by exists e.2|].
    induction Hm as [|e l He _ IH]; [done|]. rewrite !fmap_cons, IH. f_equal. cbn. unfold value_at. by rewrite He. }
  assert (NoDup ops) as Hnd by apply NoDup_fst_map_to_list.
  assert (total_value (fund_utxos f) = zsum (value_at m <$> ops)) as Hft by (by rewrite Hvals).
  assert (total_value (fund_utxos f) < 2 ^ 62) as Hftot by (rewrite Hft; pose proof (distinct_values_le m Hval ops Hnd Hsome); lia).
  pose proof (distributing_transaction_exact st Hus Hacc Hfv Hftot) as Hexact. cbv zeta in Hexact. fold f in Hexact.
  case_match; [|destruct Hexact as [msg Hmsg]; congruence].
  destruct Hexact as (t' & share & leftover & Ht' & [(ins & outs & Hsig) Hin Hrec (v1 & rest & Hv & Hv1 & Hrest)] & Hshare & _ & Hleft & Hsum).
  assert (t' = t) as -> by congruence. clear Ht'. fold ops in Hin.
  assert (kind (tx_data t) = Payment) as Hk by (rewrite Hsig, sign_data; done).
  assert (spent_by t ≡ₚ ops) as Hspent by (by rewrite spent_by_payment).
  assert (in_total m t = total_value (fund_utxos f)) as Hint by (unfold in_total; by rewrite Hspent, <-Hft).
  set (fee0 := estimate_fee _ _ _) in *. assert (0 <= fee0) as Hfee by apply (fee_nonneg params_default).
  split; [split|by rewrite Hspent].
  - split; [done|]. split.
    + exists (verifying_key (into_inner (fund_private_key f))). split.
      * rewrite Hsig. by apply sign_recovers_data.
      * rewrite Hspent. subst ops. apply Forall_fmap, Forall_forall. intros [op u] He. apply elem_of_map_to_list in He.
        exists u. rewrite <-Hkey. by apply Hfund in He.
    + rewrite Hint. unfold out_total. rewrite Hv, zsum_cons, (zsum_const share) by done.
      assert (length (accounts st) = S (length rest)) as Hlen.
      { apply (f_equal length) in Hv. rewrite length_fmap in Hv. cbn in Hv. rewrite <-Hv, <-(length_fmap recipient), Hrec. by rewrite length_fmap. }
      rewrite Hlen in Hsum. nia.
  - lia.
  - intros Hnil. rewrite Hnil in Hspent. apply Permutation_nil_l in Hspent. rewrite <-Hspent in Hft. change (zsum _) with 0 in Hft. nia.
  - assert (Forall (fun v => 0 <= v) (value <$> outputs (tx_data t))) as Ho; [|exact (proj1 (Forall_fmap _ _ _) Ho)].
    rewrite Hv. apply Forall_cons. split; [lia|]. eapply Forall_impl; [exact Hrest|]. cbn. lia.
  - by rewrite Hspent.
Qed.

(** The funds of the generator are unspent, and its key owns them. *)
Record funded (f : FundAccount) (m : gmap OutPoint UTXO) : Prop := {
  fd_unspent : map_Forall (fun op u => m !! op = Some u /\ owner u = funder_address f) (fund_utxos f);
  fd_key : funder_address f = from_public_key (verifying_key (into_inner (fund_private_key f)));
}.

(** The distributing block follows the chain and is acceptable, unless hashes collide. *)
Lemma distributing_block_built g now now' st (w w' : World R) b view :
  let h := pre_generation_height g + 1 in
  db_read (db (consensus_engine g)) = Ok view -> funded (fund_account st) (utxo_view view) ->
  nonneg_values (utxo_view view) -> total_value (utxo_view view) < 2 ^ 62 ->
  0 <= h < 2 ^ 64 -> 0 <= block_subsidy (generator_consts g) h < 2 ^ 63 ->
  build_distributing_block g (Ok now) st w = Ok (b, w') -> calc_typed (generator_calc g) -> now <= now' ->
  header_follows (generator_calc g) view now' b /\ Types.height (header b) = h /\ length (transactions b) = 2%nat /\
  (exists prev, get_block_by_height view (pre_generation_height g) = Ok (Some prev) /\ previous_block_hash (header b) = block_hash prev) /\
  (NoDup (created_list (transactions b)).*1 ->
   (forall op, op ∈ spent_list (transactions b) -> op ∉ (created_list (transactions b)).*1) ->
   exists cb reward t, acceptable (generator_consts g) (utxo_view view) b cb reward [t]).
Proof.
  intros h Hview [Hfund Hkey] Hval Htot Hh Hsub Hb Hthr Hnow.
  unfold build_distributing_block in Hb. case_bool_decide as Hus; cbn [negb] in Hb; [|done].
  rewrite (wrap64_small (pre_generation_height g + 1)) in Hb by done. fold h in Hb. cbv zeta in Hb.
  apply gen_bind_Ok in Hb as ([[prev thr] med] & w1 & Hctx & Hb).
  apply gen_bind_Ok in Hb as (n & w3 & [[= <-] ->]%gen_try_Ok & Hb).
  apply gen_bind_Ok in Hb as (ts & w4 & [Hts ->]%gen_try_Ok & Hb).
  apply gen_bind_Ok in Hb as (t & w5 & Ht & Hb).
  destruct (built_follows _ _ _ _ _ _ _ _ _ _ _ _ _ _ _ _ _ _ _ _ _ _ Hview Hctx Hts Hnow Hthr Hb) as (Hfol & Htx & Hhh & Hprev).
  destruct (generation_context_Ok _ _ _ _ _ _ _ _ Hview Hctx) as (_ & Hget & _).
  assert (generate_distributing_transaction st = Ok t) as Hgen.
  { unfold gen_context, gen_lift in Ht. destruct (generate_distributing_transaction st) as [t'|]; [|done]. by injection Ht as ->. }
  destruct (distributing_payable st t _ Hfund Hkey Hval Htot Hgen) as [Hpay Hnd].
  assert (spent_list [t] = spent_by t) as Hlist by apply app_nil_r.
  split_and!; [done|done|by rewrite Htx|by exists prev|]. intros Hcreated Hext.
  eexists _, (mk_TransactionOut (block_subsidy (generator_consts g) h) (settings_miner_address (config_blocks (config g)))), t.
  rewrite <-Hhh. apply payable_acceptable; rewrite ?Hhh, ?Hprev, ?Hlist; try done.
  - by apply Forall_singleton.
  - intros op Hop. apply Hext. rewrite Htx. unfold spent_list. cbn [mbind list_bind]. apply elem_of_app. right.
    by rewrite app_nil_r.
Qed.
End Accepted.

(** * A concrete filling *)

Section FillingWitness.
Import Toy CounterSource.

(** One account with one output of five million. *)
Definition paying_state : GenerationState :=
  mk_GenerationState [(val_owner, Byte.x07)] (mk_FundAccount val_owner (mk_PrivateKey Byte.x07) ∅)
    [(val_owner, [mk_UtxoInfo toy_op 5000000 0 false])].
Definition paying_view : gmap OutPoint UTXO := {[ toy_op := mk_UTXO toy_txid 0 5000000 val_owner ]}.

Lemma paying_in_sync : in_sync paying_state paying_view.
Proof.
  assert (tracked (account_utxos paying_state) = [(val_owner, mk_UtxoInfo toy_op 5000000 0 false)]) as Ht by exact eq_refl.
  split; rewrite ?Ht.
  - intros a u [= -> ->]%list_elem_of_singleton. exists (mk_UTXO toy_txid 0 5000000 val_owner). split; [apply lookup_singleton_eq|].
    split; exact eq_refl.
  - unfold tracked_ops. rewrite Ht. apply NoDup_singleton.
  - apply NoDup_singleton.
  - intros op x Hx. unfold paying_view in Hx. revert Hx. intros [<- <-]%lookup_singleton_Some _. exists (mk_UtxoInfo toy_op 5000000 0 false). split; [|exact eq_refl].
    apply list_elem_of_singleton. exact eq_refl.
Qed.

Lemma filling_terminates_witness :
  let s := TxGenerationStrategy_new 2 in
  exists f pays w, fill_block (fill_fuel s) false 3 params_default paying_state [val_owner] (mk_Filling s ∅ [val_coinbase 1000])
      (mk_World 0 []) = Ok (f, w) /\ filled f = val_coinbase 1000 :: pays /\ NoDup (spent_list pays).
Proof.
  intros s. pose proof (filling_terminates paying_state paying_view paying_in_sync) as H.
  assert (nonneg_values paying_view) as Hnn by (apply map_Forall_singleton; cbn; lia).
  assert (total_value paying_view < 2 ^ 62) as Htot by (vm_compute; reflexivity).
  specialize (H Hnn Htot params_default default_params_small ltac:(cbn; lia) [val_owner] (val_coinbase 1000) false 3 2
    ltac:(lia) (mk_World 0 [])).
  cbv zeta in H. fold s in H. destruct (fill_block _ _ _ _ _ _ _ _) as [[f w]|e]; [|destruct H as [H _]; discriminate H].
  destruct H as (pays & Hfill & _ & Hnd & _). exists f, pays, w. exact (conj eq_refl (conj Hfill Hnd)).
Defined.
End FillingWitness.
