(* ===== verification/GenRun.v ===== *)
(** GenRun: a whole run of the generator of test chains, over the in-memory backend. The engine
    never refuses a generated block, and the chain, the engine and the records of the generator
    stay in step; the distributing block starts such a run. *)
From S2P Require Import Prelude Bytes Types Externals Petgraph Hashing Work Merkle Transactions Blocks Storage UtxoProcessor Transition Difficulty Dependencies Validator Acceptance ChainIndex Engine Consensus Wire Sync Rocks Wallet Node Seeds Strategy Txgen Accounts Chaingen ChaingenProps.
#[local] Open Scope Z_scope.

Section Run.
Context {X : Externals} {E : EcdsaLaws} {K : KeyBytes} {P : PetGraph nat} {PL : PetGraphLaws nat} {I : HashIteration} {IL : HashIterationLaws}.
Context {R : Type} `{RandomSourceLaws R} `{SeededSource R}.
Variables (schedule : list nat -> list nat) (builder_now validator_now : Z -> result string Z).
Variables (log_utxos_state : bool -> MemoryView -> result string unit) (save_accounts : GenerationState -> Z -> Z -> result string unit).
Hypothesis schedule_permutes : forall idxs, schedule idxs ≡ₚ idxs.
Implicit Types (g : ChainGenerator MemoryView) (e : Engine MemoryView) (l bs : list Block) (b : Block) (st : GenerationState).

(** The generator with the engine as it is. *)
Definition at_engine g e : ChainGenerator MemoryView :=
  mk_ChainGenerator (config g) (generation_deadline g) (generator_fund_account g) (pre_generation_height g)
    (generator_consts g) (generator_calc g) e.

(** The generator, its engine and its records are in step with the chain [l]. *)
Record generating g e l st : Prop := {
  ge_represents : represents e l;
  ge_forks : forks e = ∅;
  ge_validator : block_validator e = mk_BlockValidator (generator_consts g) (generator_calc g);
  ge_sync : in_sync st (ledger_view l);
  ge_accounts : accounts_ok st;
  ge_values : nonneg_values (ledger_view l);
}.

(** The hash of a block, or an outpoint it creates, is one that exists already. *)
Definition collides e b : Prop :=
  is_Some (blocks (db e) !! block_hash b) \/ ~ NoDup (created_list (transactions b)).*1 \/
  Exists (fun op => op ∈ spent_list (transactions b) \/ is_Some (utxos (db e) !! op)) (created_list (transactions b)).*1.

#[local] Instance collides_dec e b : Decision (collides e b).
Proof. unfold collides. apply _. Defined.

(** What the rules of a run fix: a valid calculator, a bounded configuration, and clocks that
    agree. *)
Record run_ok g : Prop := {
  ro_calc : calc_typed (generator_calc g);
  ro_config : config_ok (config g);
  ro_clocks h now : builder_now h = Ok now -> exists now', validator_now h = Ok now' /\ now <= now';
}.

Lemma no_collision_plain e l b : represents e l -> ~ collides e b ->
  block_hash b ∉ (block_hash <$> l) /\ NoDup (created_list (transactions b)).*1 /\
  (forall op, op ∈ spent_list (transactions b) -> op ∉ (created_list (transactions b)).*1) /\
  (forall op, op ∈ (created_list (transactions b)).*1 -> ledger_view l !! op = None).
Proof.
  intros Hr Hc. unfold collides in Hc. apply Decidable.not_or in Hc as [Hh Hc]. apply Decidable.not_or in Hc as [Hnd Hc].
  apply dec_stable in Hnd. rewrite Exists_exists in Hc. rewrite (rf_utxos _ _ (rp_refines _ _ Hr)) in Hc. split_and!; [|done| |].
  - intros (b' & Heq & Hb')%list_elem_of_fmap. apply Hh. rewrite Heq.
    rewrite (rc_blocks _ _ (rf_records _ _ (rp_refines _ _ Hr))) by done. by eexists.
  - intros op Hop Hin. apply Hc. exists op. split; [done|]. by left.
  - intros op Hin. apply eq_None_not_Some. intros Hs. apply Hc. exists op. split; [done|]. by right.
Qed.

(** A built block that follows the chain extends it: the engine applies it and everything
    stays in step. *)
Lemma accepted_extends g e l st h now' b cb reward pays :
  generating g e l st -> calc_typed (generator_calc g) -> validator_now h = Ok now' ->
  h = Z.of_nat (length l) -> 1 <= h < 2 ^ 64 - 1 ->
  header_follows (generator_calc g) (db e) now' b -> Types.height (header b) = h ->
  (exists prev, last l = Some prev /\ previous_block_hash (header b) = block_hash prev) ->
  acceptable (generator_consts g) (ledger_view l) b cb reward pays -> Z.of_nat (length pays) < 2 ^ 32 ->
  ~ collides e b ->
  exists tr e', on_block schedule (validator_now (Types.height (header b))) b e = (Ok (Applied tr), e') /\
    generating g e' (l ++ [b]) (state_apply_block st b) /\
    total_value (ledger_view (l ++ [b])) <= total_value (ledger_view l) + block_subsidy (generator_consts g) h.
Proof using schedule_permutes PL IL.
  intros G Hct Hnow Hh Hrange Hfol Hbh (prev & Hlast & Hprev) Ha Hlen Hc.
  pose proof (ge_represents _ _ _ _ G) as Hr. destruct (no_collision_plain e l b Hr Hc) as (Hnew & Hnd & Hext & Hfresh).
  pose proof (ac_sound _ _ _ _ _ _ Ha) as Hs. pose proof (bs_transactions _ _ _ _ _ _ Hs) as Htx.
  assert (fresh_outputs b (ledger_view l)) as Hfo.
  { intros op Hop. left. apply Hfresh. rewrite block_effect_external in Hop by done. cbn [fst] in Hop.
    rewrite put_all_dom, dom_empty_L, (left_id_L ∅ (∪)) in Hop. by apply elem_of_list_to_set in Hop. }
  assert (is_genesis b = false) as Hng by apply Hfol.
  assert (continues l b) as Hcont.
  { pose proof (last_position l prev (represents_shape _ _ Hr) Hlast) as Hpos.
    split; [exists prev; split_and!; [done|done|rewrite Hbh; lia]|done| |done|done].
    split_and!; [|lia|rewrite Htx; cbn [length]; lia].
    pose proof (next_hash_threshold_range _ _ _ _ Hct (hf_threshold _ _ _ _ Hfol)) as Ht.
    destruct Hct as (_ & _ & Hmax & _). unfold in_uint in *. lia. }
  assert (utxos (db e) = ledger_view l) as Hview by apply (rp_refines _ _ Hr).
  assert (validate schedule (validator_now (Types.height (header b))) (block_validator e) b (db e) = Ok tt) as Hv.
  { rewrite Hbh, Hnow. apply (block_accepts schedule _ b (db e) now' cb reward pays schedule_permutes).
    - by rewrite (ge_validator _ _ _ _ G).
    - rewrite (ge_validator _ _ _ _ G). cbn [validator_consts]. change (utxo_view (db e)) with (utxos (db e)). by rewrite Hview. }
  destruct (on_block_applies schedule (validator_now (Types.height (header b))) schedule_permutes e l b Hr Hcont) as (e' & tr & Hon & Hr' & Hf' & Hv'); [|done|].
  { intros tip entry Hent. rewrite (ge_forks _ _ _ _ G) in Hent. by rewrite lookup_empty in Hent. }
  assert (block_sound (generator_consts g) (@utxo_view _ _ (@write_read_laws _ _ _ memory_write_laws) (db e)) b cb reward pays) as Hs'
    by (cbn [utxo_view memory_read_laws write_read_laws memory_write_laws]; by rewrite Hview).
  destruct (sound_block_applies _ _ (db e) _ _ _ Hs') as (undo & m' & Happ).
  pose proof (apply_block_Ok _ _ _ _ Happ) as Hav. unfold applied in Hav.
  cbn [utxo_view memory_read_laws write_read_laws memory_write_laws] in Hav. rewrite Hview in Hav.
  assert (utxos m' = ledger_view (l ++ [b])) as Hm' by (rewrite ledger_view_snoc; by eapply applied_view_eq).
  destruct (sound_block_total _ _ (db e) _ _ _ undo m' Hs') as [Hnn Htot];
    [apply Ha|change (nonneg_values (utxos (db e))); rewrite Hview; apply G|exact Happ|].
  cbn [utxo_view memory_read_laws write_read_laws memory_write_laws] in Hnn, Htot.
  rewrite Hm' in Hnn, Htot, Hav. rewrite Hview, Hbh in Htot.
  exists tr, e'. split; [exact Hon|]. split; [|exact Htot]. split; [exact Hr'|rewrite Hf'; apply G|rewrite Hv'; apply G| |apply G|exact Hnn].
  eapply apply_block_in_sync; [apply G| |exact Hav]. split; [|done|done|by intros op Hop; left; apply Hfresh].
  intros t Ht Hp. rewrite Htx in Ht. apply elem_of_cons in Ht as [->|Ht]; [by apply (bs_coinbase_inputs _ _ _ _ _ _ Hs)|].
  pose proof (bs_payments _ _ _ _ _ _ Hs) as Hall. rewrite Forall_forall in Hall. destruct (Hall t Ht) as (Hk & _).
  unfold is_payment in Hp. by rewrite bool_decide_eq_true_2 in Hp.
Qed.

(** Building a block reads the clock of the builder. *)
Lemma build_block_clock g now h st (w : World R) r : build_block g now h st w = Ok r -> exists n, now = Ok n.
Proof.
  unfold build_block. case_match; [done|]. intros Hb.
  apply gen_bind_Ok in Hb as ([[prev thr] med] & w1 & _ & Hb). apply gen_bind_Ok in Hb as (variance & w2 & _ & Hb).
  apply gen_bind_Ok in Hb as (n & w3 & [Hn _]%gen_try_Ok & _). by exists n.
Qed.

Lemma tip_of_height e l h prev :
  represents e l -> 0 <= h -> h + 1 = Z.of_nat (length l) -> get_block_by_height (db e) h = Ok (Some prev) -> last l = Some prev.
Proof.
  intros Hr Hh Hl Hget. destruct (last_is_Some l) as [_ Hlast]. destruct Hlast as [p Hp]; [intros ->; cbn in Hl; lia|].
  rewrite Hp. rewrite last_lookup in Hp. replace (pred (length l)) with (Z.to_nat h) in Hp by lia.
  pose proof (memory_block_at _ l h p (rf_records _ _ (rp_refines _ _ Hr)) Hh Hp) as Hm.
  change (memory_get_block_by_height (db e) h = Ok (Some prev)) in Hget. congruence.
Qed.

(** Building the distributing block reads the clock too. *)
Lemma distributing_block_clock g now st (w : World R) r : build_distributing_block g now st w = Ok r -> exists n, now = Ok n.
Proof.
  unfold build_distributing_block. case_match; [done|]. cbv zeta. intros Hb.
  apply gen_bind_Ok in Hb as ([[prev thr] med] & w1 & _ & Hb). apply gen_bind_Ok in Hb as (n & w3 & [Hn _]%gen_try_Ok & _).
  by exists n.
Qed.

(** The engine applies a block built on its chain, unless hashes collide, and everything stays
    in step. *)
Lemma built_extends g e l st h (w w' : World R) b :
  generating g e l st -> run_ok g -> h = Z.of_nat (length l) -> 1 <= h < 2 ^ 64 - 1 ->
  total_value (ledger_view l) < 2 ^ 62 -> 0 <= block_subsidy (generator_consts g) h < 2 ^ 63 ->
  build_block (at_engine g e) (builder_now h) h st w = Ok (b, w') -> ~ collides e b ->
  exists e', (forall failed rejected (w1 : World R), submit_block schedule validator_now failed rejected b w1 e = (Ok (tt, w1), e')) /\
    generating g e' (l ++ [b]) (state_apply_block st b) /\
    total_value (ledger_view (l ++ [b])) <= total_value (ledger_view l) + block_subsidy (generator_consts g) h.
Proof using schedule_permutes PL IL E H0.
  intros G [Hcalc Hcfg Hclocks] Hh Hrange Htot Hsub Hb Hc.
  destruct (build_block_clock _ _ _ _ _ _ Hb) as [now Hnow]. rewrite Hnow in Hb.
  destruct (Hclocks _ _ Hnow) as (now' & Hnow' & Hle).
  assert (utxos (db e) = ledger_view l) as Hview by apply (rp_refines _ _ (ge_represents _ _ _ _ G)).
  pose proof (build_block_built (at_engine g e) h st (db e) eq_refl) as Hbuilt.
  cbn [utxo_view memory_read_laws] in Hbuilt. rewrite Hview in Hbuilt.
  specialize (Hbuilt (ge_sync _ _ _ _ G) (ge_values _ _ _ _ G) Htot Hcfg now now' w w' b Hb Hcalc Hle).
  destruct (no_collision_plain e l b (ge_represents _ _ _ _ G) Hc) as (_ & Hnd & Hext & _).
  pose proof (built_acceptable (at_engine g e) now' h st (db e) b Hbuilt) as Hacc.
  cbn [utxo_view memory_read_laws] in Hacc. rewrite Hview in Hacc.
  destruct (Hacc (ge_sync _ _ _ _ G) (ge_accounts _ _ _ _ G) (ge_values _ _ _ _ G) Htot Hsub Hnd Hext) as (cb & reward & pays & Ha).
  assert (Z.of_nat (length pays) < 2 ^ 32) as Hlen.
  { destruct (bb_transactions _ _ _ _ _ _ Hbuilt) as (pays' & Htx & _ & Hlen & _).
    rewrite (bs_transactions _ _ _ _ _ _ (ac_sound _ _ _ _ _ _ Ha)) in Htx. by injection Htx as _ <-. }
  assert (exists prev, last l = Some prev /\ previous_block_hash (header b) = block_hash prev) as Hprev.
  { destruct (bb_prev _ _ _ _ _ _ Hbuilt) as (prev & Hget & Hprev). exists prev. split; [|done].
    apply (tip_of_height e l (h - 1)); [apply G|lia|lia|exact Hget]. }
  pose proof (bb_height _ _ _ _ _ _ Hbuilt) as Hbh.
  destruct (accepted_extends g e l st h now' b cb reward pays G Hcalc Hnow' Hh Hrange (bb_follows _ _ _ _ _ _ Hbuilt) Hbh Hprev Ha Hlen Hc)
    as (tr & e' & Hon & G' & Htot').
  exists e'. split; [|done]. intros failed rejected w1. unfold submit_block. by rewrite Hon.
Qed.

(** The engine applies the distributing block, unless hashes collide, and everything stays in
    step. *)
Lemma distributed_extends g e l st (w w' : World R) b :
  let h := Z.of_nat (length l) in
  generating g e l st -> run_ok g -> pre_generation_height g + 1 = h -> 1 <= h < 2 ^ 64 - 1 ->
  funded (fund_account st) (ledger_view l) ->
  total_value (ledger_view l) < 2 ^ 62 -> 0 <= block_subsidy (generator_consts g) h < 2 ^ 63 ->
  build_distributing_block (at_engine g e) (builder_now h) st w = Ok (b, w') -> ~ collides e b ->
  exists e', (forall failed rejected (w1 : World R), submit_block schedule validator_now failed rejected b w1 e = (Ok (tt, w1), e')) /\
    generating g e' (l ++ [b]) (state_apply_block st b) /\
    total_value (ledger_view (l ++ [b])) <= total_value (ledger_view l) + block_subsidy (generator_consts g) h.
Proof using schedule_permutes PL IL E H0.
  intros h G [Hcalc Hcfg Hclocks] Hpre Hrange Hfund Htot Hsub Hb Hc.
  destruct (distributing_block_clock _ _ _ _ _ Hb) as [now Hnow]. rewrite Hnow in Hb.
  destruct (Hclocks _ _ Hnow) as (now' & Hnow' & Hle).
  assert (utxos (db e) = ledger_view l) as Hview by apply (rp_refines _ _ (ge_represents _ _ _ _ G)).
  pose proof (distributing_block_built (at_engine g e) now now' st w w' b (db e)) as Hbuilt. cbv zeta in Hbuilt.
  cbn [utxo_view memory_read_laws] in Hbuilt. change (pre_generation_height (at_engine g e)) with (pre_generation_height g) in Hbuilt.
  rewrite Hview, Hpre in Hbuilt.
  destruct (Hbuilt eq_refl Hfund (ge_values _ _ _ _ G) Htot ltac:(lia) Hsub Hb Hcalc Hle) as (Hfol & Hbh & _ & (prev & Hget & Hprev) & Hacc).
  destruct (no_collision_plain e l b (ge_represents _ _ _ _ G) Hc) as (_ & Hnd & Hext & _). destruct (Hacc Hnd Hext) as (cb & reward & t & Ha).
  destruct (accepted_extends g e l st h now' b cb reward [t] G Hcalc Hnow' eq_refl Hrange Hfol Hbh) as (tr & e' & Hon & G' & Htot').
  - exists prev. split; [|done]. apply (tip_of_height e l (pre_generation_height g)); [apply G|lia|lia|exact Hget].
  - exact Ha.
  - cbn. lia.
  - done.
  - exists e'. split; [|done]. intros failed rejected w1. unfold submit_block. by rewrite Hon.
Qed.

(** Why a run stops: the deadline, or the builder's own error on the chain so far. *)
Definition stops g e l st (err : GenError) : Prop :=
  (generation_deadline g = true /\ err = late_error) \/
  exists (w : World R) cause, build_block (at_engine g e) (builder_now (Z.of_nat (length l))) (Z.of_nat (length l)) st w = Err cause /\
    err = in_context "failed to build block at chain height {} : {}" cause.

Lemma check_cases deadline h (w : World R) :
  (exists w', check_generation_deadline deadline (Some h) w = Ok (tt, w')) \/
  (deadline = true /\ check_generation_deadline deadline (Some h) w = Err late_error).
Proof. unfold check_generation_deadline. repeat case_match; subst; eauto. Qed.

(** The world in which the main loop builds the block of a height. *)
Definition build_world (deadline : bool) (seeds : SeedSchedule) (height : Z) (w : World R) : option (World R) :=
  match check_generation_deadline deadline (Some (height - 1)) w with
  | Ok (_, w) =>
      if is_switch_height seeds height
      then s ← seed_at seeds height; Some (mk_World (rng_from_seed s) (world_late w))
      else Some w
  | Err _ => None
  end.

(** The block built next collides. *)
Definition next_collides g (seeds : SeedSchedule) (height : Z) st (w : World R) e : bool :=
  match build_world (generation_deadline g) seeds height w with
  | Some w =>
      match build_block (at_engine g e) (builder_now height) height st w with
      | Ok (b, _) => bool_decide (collides e b)
      | Err _ => false
      end
  | None => false
  end.

(** Some block built by the main loop collides. *)
Definition run_collides g (seeds : SeedSchedule) (from : Z) (n : nat) st tx_count (w : World R) e : bool :=
  existsb (fun k =>
    match generate_blocks schedule builder_now validator_now g seeds (seqZ from (Z.of_nat k)) st tx_count w e with
    | (Ok (st, _, w), e) => next_collides g seeds (from + Z.of_nat k) st w e
    | _ => false
    end) (seq 0 n).

(** What one round of the main loop computes. *)
Lemma round_computes g e st seed num_blocks h (w : World R) :
  validate_seed seed num_blocks = Ok tt -> 1 <= h ->
  let run := generate_blocks schedule builder_now validator_now g (SeedSchedule_new seed) in
  match build_world (generation_deadline g) (SeedSchedule_new seed) h w with
  | None => generation_deadline g = true /\ forall heights tx_count, run (h :: heights) st tx_count w e = (Err late_error, e)
  | Some w1 => forall heights tx_count, run (h :: heights) st tx_count w e =
      match build_block (at_engine g e) (builder_now h) h st w1 with
      | Err err => (Err (in_context "failed to build block at chain height {} : {}" err), e)
      | Ok (b, w2) =>
          match check_generation_deadline (generation_deadline g) (Some (h - 1)) w2 with
          | Err err => (Err err, e)
          | Ok (_, w3) =>
              match submit_block schedule validator_now "Consensus engine failed at height {}: {:?}"
                      "Block at height {} rejected by consensus: {:?}" b w3 e with
              | (Err err, e1) => (Err err, e1)
              | (Ok (_, w4), e1) =>
                  match check_generation_deadline (generation_deadline g) (Some h) w4 with
                  | Err err => (Err err, e1)
                  | Ok (_, w5) => run heights (state_apply_block st b) (wrap 64 (tx_count + Z.of_nat (length (transactions b)))) w5 e1
                  end
              end
          end
      end
  end.
Proof.
  intros Hseed Hh run. unfold run, build_world. cbn [generate_blocks]. unfold mbind, chain_bind, chain_gen.
  pose proof (guarded_check (R := R) (generation_deadline g) (h - 1) w) as Hc.
  destruct (check_generation_deadline _ _ w) as [[[] w1]|err]; [|destruct Hc as [? ->]; split; [done|intros; reflexivity]]. clear Hc.
  destruct (is_switch_height (SeedSchedule_new seed) h).
  2: { intros heights tx_count. unfold mret, chain_ret, with_engine, gen_context, at_engine.
       by destruct (build_block _ _ _ _ w1) as [[? ?]|]. }
  destruct (seed_at_active _ _ h Hseed Hh) as [Hat [s Hs]]. rewrite Hat, Hs. cbn. intros heights tx_count.
  unfold set_rng, with_engine, gen_context, at_engine. by destruct (build_block _ _ _ _ _) as [[? ?]|].
Qed.

(** One round of the main loop. *)
Lemma run_round g e l st seed num_blocks (w : World R) :
  generating g e l st -> run_ok g -> validate_seed seed num_blocks = Ok tt ->
  1 <= Z.of_nat (length l) < 2 ^ 64 - 1 -> total_value (ledger_view l) < 2 ^ 62 ->
  0 <= block_subsidy (generator_consts g) (Z.of_nat (length l)) < 2 ^ 63 ->
  let h := Z.of_nat (length l) in
  let run := generate_blocks schedule builder_now validator_now g (SeedSchedule_new seed) in
  next_collides g (SeedSchedule_new seed) h st w e = false ->
  (exists err bs st1 e1, (length bs <= 1)%nat /\ generating g e1 (l ++ bs) st1 /\ stops g e1 (l ++ bs) st1 err /\
     forall heights tx_count, run (h :: heights) st tx_count w e = (Err err, e1)) \/
  (exists b w1 e1, generating g e1 (l ++ [b]) (state_apply_block st b) /\
     total_value (ledger_view (l ++ [b])) <= total_value (ledger_view l) + block_subsidy (generator_consts g) h /\
     forall heights tx_count, run (h :: heights) st tx_count w e =
       run heights (state_apply_block st b) (wrap 64 (tx_count + Z.of_nat (length (transactions b)))) w1 e1).
Proof using schedule_permutes PL IL E H0.
  intros G Hok Hseed Hh Htot Hsub h run Hcol. unfold next_collides in Hcol.
  pose proof (round_computes g e st seed num_blocks h w Hseed ltac:(lia)) as Hround. cbv zeta in Hround. fold run in Hround.
  pose proof (guarded_check (R := R) (generation_deadline g)) as Hcheck.
  assert (forall err bs st1 e1, (length bs <= 1)%nat -> generating g e1 (l ++ bs) st1 -> stops g e1 (l ++ bs) st1 err ->
    (forall heights tx_count, run (h :: heights) st tx_count w e = (Err err, e1)) ->
    exists err bs st1 e1, (length bs <= 1)%nat /\ generating g e1 (l ++ bs) st1 /\ stops g e1 (l ++ bs) st1 err /\
      forall heights tx_count, run (h :: heights) st tx_count w e = (Err err, e1)) as Hstop by (intros err bs st1 e1; by exists err, bs, st1, e1).
  assert (generating g e (l ++ []) st) as G0 by (by rewrite app_nil_r).
  destruct (build_world _ _ h w) as [w1|]; [|destruct Hround as [Hd Hround]; left; apply (Hstop late_error [] st e); [cbn; lia|done|by left|done]].
  destruct (build_block (at_engine g e) (builder_now h) h st w1) as [[b w2]|err] eqn:Hb.
  2: { left. apply (Hstop (in_context "failed to build block at chain height {} : {}" err) [] st e); [cbn; lia|done| |done]. right. exists w1, err. by rewrite app_nil_r. }
  apply bool_decide_eq_false in Hcol.
  destruct (built_extends g e l st h w1 w2 b G Hok eq_refl Hh Htot Hsub Hb Hcol) as (e' & Hsubmit & G' & Htot').
  pose proof (Hcheck (h - 1) w2) as Hc. destruct (check_generation_deadline _ _ w2) as [[[] w3]|err].
  2: { left. apply (Hstop err [] st e); [cbn; lia|done|by left|done]. }
  rewrite Hsubmit in Hround. clear Hc. pose proof (Hcheck h w3) as Hc. destruct (check_generation_deadline _ _ w3) as [[[] w4]|err].
  - right. by exists b, w4, e'.
  - left. apply (Hstop err [b] (state_apply_block st b) e'); [cbn; lia|done|by left|done].
Qed.

(** The main loop extends its chain, unless a block it builds collides: every block is applied by
    the engine, and the records of the generator agree with the UTXO set at the end. A loop that
    ends early ends at the deadline, or with the error of the builder on the chain reached so
    far. *)
Lemma generate_blocks_extends g seed num_blocks l st tx_count (w : World R) e n r e' :
  generating g e l st -> run_ok g -> validate_seed seed num_blocks = Ok tt ->
  1 <= Z.of_nat (length l) -> Z.of_nat (length l) + Z.of_nat n < 2 ^ 64 ->
  let heights := seqZ (Z.of_nat (length l)) (Z.of_nat n) in
  Forall (fun h => 0 <= block_subsidy (generator_consts g) h) heights ->
  total_value (ledger_view l) + zsum (block_subsidy (generator_consts g) <$> heights) < 2 ^ 62 ->
  run_collides g (SeedSchedule_new seed) (Z.of_nat (length l)) n st tx_count w e = false ->
  generate_blocks schedule builder_now validator_now g (SeedSchedule_new seed) heights st tx_count w e = (r, e') ->
  exists bs st1, generating g e' (l ++ bs) st1 /\
    match r with
    | Ok (st', _, _) => length bs = n /\ st' = st1
    | Err err => (length bs <= n)%nat /\ stops g e' (l ++ bs) st1 err
    end.
Proof using schedule_permutes PL IL E H0.
  intros G Hok Hseed Hl Hn heights. subst heights. revert l st tx_count w e G Hl Hn.
  induction n as [|n IH]; intros l st tx_count w e G Hl Hn Hsub Htot Hcol Hrun.
  { injection Hrun as <- <-. exists [], st. by rewrite app_nil_r. }
  assert (forall k, seqZ (Z.of_nat (length l)) (Z.of_nat (S k)) =
    Z.of_nat (length l) :: seqZ (Z.succ (Z.of_nat (length l))) (Z.of_nat k)) as Hseq.
  { intros k. rewrite (seqZ_cons _ (Z.of_nat (S k))) by lia. by replace (Z.pred (Z.of_nat (S k))) with (Z.of_nat k) by lia. }
  rewrite Hseq in Hsub, Htot, Hrun. apply Forall_cons in Hsub as [Hs Hsub]. rewrite fmap_cons, zsum_cons in Htot.
  assert (0 <= total_value (ledger_view l)) as Hpos by (apply (map_zsum_nonneg utxo_value), G).
  assert (0 <= zsum (block_subsidy (generator_consts g) <$> seqZ (Z.succ (Z.of_nat (length l))) (Z.of_nat n))) as Hrest
    by (by apply zsum_nonneg, Forall_fmap).
  unfold run_collides in Hcol. cbn [seq existsb] in Hcol. apply orb_false_iff in Hcol as [Hcol0 Hcol].
  cbn [seqZ generate_blocks] in Hcol0. rewrite Z.add_0_r in Hcol0.
  destruct (run_round g e l st seed num_blocks w G Hok Hseed ltac:(lia) ltac:(lia) ltac:(lia) Hcol0)
    as [(err & bs & st1 & e1 & Hlen & G1 & Hstop & Hround)|(b & w1 & e1 & G1 & Htot1 & Hround)]; rewrite Hround in Hrun.
  { injection Hrun as <- <-. exists bs, st1. split_and!; [done|lia|done]. }
  assert (Z.of_nat (length (l ++ [b])) = Z.succ (Z.of_nat (length l))) as Hsnoc by (rewrite length_app; cbn; lia).
  rewrite <-Hsnoc in Hrun, Hsub, Htot.
  assert (run_collides g (SeedSchedule_new seed) (Z.of_nat (length (l ++ [b]))) n (state_apply_block st b)
    (wrap 64 (tx_count + Z.of_nat (length (transactions b)))) w1 e1 = false) as Hcol1.
  { rewrite Hsnoc. unfold run_collides. rewrite <-not_true_iff_false, existsb_exists in Hcol |- *.
    intros (k & Hk%in_seq & Hx). apply Hcol. exists (S k). rewrite in_seq. split; [lia|]. rewrite Hseq, Hround.
    by replace (Z.of_nat (length l) + Z.of_nat (S k)) with (Z.succ (Z.of_nat (length l)) + Z.of_nat k) by lia. }
  destruct (IH _ _ _ _ _ G1 ltac:(lia) ltac:(lia) Hsub ltac:(lia) Hcol1 Hrun) as (bs & st1 & G2 & Hr).
  exists (b :: bs), st1. rewrite cons_middle, (assoc_L (++)). split; [done|].
  cbn [length]. destruct r as [[[st' ?] ?]|err]; destruct Hr as [Hlen Hr]; (split; [lia|done]).
Qed.

(** ** The whole run *)

(** The addresses of the accounts a seed generates. *)
Definition seed_addresses g (seed : Z) : list AccountAddress :=
  (fun i => from_public_key (verifying_key (seeded_key (account_seed seed (pre_generation_height g) i)))) <$>
    seq 0 (Z.to_nat (active_addresses_count (config_blocks (config g)))).

(** The state a run starts from. *)
Record fresh_state g (seed : Z) st : Prop := {
  fs_empty : account_utxos st = [];
  fs_fund : fund_account st = generator_fund_account g;
  fs_accounts : accounts_ok st;
  fs_addresses a : a ∈ (accounts st).*1 -> a ∈ seed_addresses g seed;
}.

Lemma index_map_insert_elem {V} (m : list (AccountAddress * V)) a v x :
  x ∈ index_map_insert m a v -> x ∈ m \/ x = (a, v).
Proof.
  induction m as [|[k w] m IH]; cbn [index_map_insert]; [rewrite list_elem_of_singleton; by right|].
  case_bool_decide; rewrite !elem_of_cons; [naive_solver|]. intros [->|Hx]; [by left; left|]. destruct (IH Hx); auto.
Qed.

Lemma accounts_loop_guarded deadline base_seed height (Q : AccountAddress * SigningKey -> Prop) idxs accts :
  (forall i, i ∈ idxs -> let k := seeded_key (account_seed base_seed height i) in Q (from_public_key (verifying_key k), k)) ->
  Forall Q accts ->
  guarded (R := R) deadline (accounts_loop deadline base_seed height idxs accts) (Forall Q).
Proof.
  revert accts. induction idxs as [|i idxs IH]; intros accts Hq Hall; [by apply guarded_ret|]. cbn [accounts_loop].
  eapply guarded_bind; [apply guarded_check|]. intros _ _. cbv zeta. apply IH; [intros j Hj; apply Hq; by right|].
  rewrite Forall_forall in *. intros x [Hx| ->]%index_map_insert_elem; [by apply Hall|]. apply Hq. by left.
Qed.

Lemma fresh_accounts g seed :
  guarded (R := R) (generation_deadline g)
    (new_with_random_accounts (Z.to_nat (active_addresses_count (config_blocks (config g)))) (generator_fund_account g)
      seed (pre_generation_height g) (generation_deadline g)) (fresh_state g seed).
Proof.
  unfold new_with_random_accounts, generate_accounts.
  set (Q := fun e : AccountAddress * SigningKey => e.1 = from_public_key (verifying_key e.2) /\ e.1 ∈ seed_addresses g seed).
  eapply (guarded_bind _ _ _ (Forall Q)).
  - eapply guarded_bind; [apply guarded_check|]. intros _ _. eapply (guarded_bind _ _ _ (Forall Q)).
    + apply accounts_loop_guarded; [|done]. intros j Hj. split; [done|]. apply list_elem_of_fmap. by exists j.
    + intros accts Hall. eapply guarded_bind; [apply guarded_check|]. intros _ _. by apply guarded_ret.
  - intros accts Hall. apply guarded_ret. split; [done|done| |].
    + unfold accounts_ok. eapply Forall_impl; [exact Hall|]. by intros x [? _].
    + cbn [accounts]. intros a (x & -> & Hx)%list_elem_of_fmap. rewrite Forall_forall in Hall. by apply Hall.
Qed.

(** Why a run stops before its first block: the deadline, or the error of a listing or of the
    backup of the keys. *)
Definition outside_error (deadline : bool) (err : GenError) : Prop :=
  (deadline = true /\ err = late_error) \/
  (exists msg, err = Failed msg /\
    ((exists first m, log_utxos_state first m = Err msg) \/ exists st h1 h2, save_accounts st h1 h2 = Err msg)).

Lemma checks_guarded {A} deadline h (l : list A) :
  guarded (R := R) deadline (foldr (fun _ rest => _ ← check_generation_deadline deadline (Some h); rest) (mret tt) l) (fun _ => True).
Proof. induction l as [|x l IH]; [by apply guarded_ret|]. eapply guarded_bind; [apply guarded_check|]. by intros _ _. Qed.

Lemma prepare_cases g seed end_height (w : World R) e :
  match prepare_generation_state log_utxos_state save_accounts g seed end_height w e with
  | (Ok (st, _), e1) => e1 = e /\ fresh_state g seed st
  | (Err err, e1) => e1 = e /\ outside_error (generation_deadline g) err
  end.
Proof.
  unfold prepare_generation_state, mbind, chain_bind, chain_gen, with_engine. cbv zeta.
  pose proof (fresh_accounts g seed w) as Hf. destruct (new_with_random_accounts _ _ _ _ _ w) as [[st w1]|err]; [|by split; [|left]].
  destruct (log_utxos_state true _) as [[]|msg] eqn:Hlog; cbn [gen_try gen_lift map_err];
    [|split; [done|right; exists msg; split; [done|left; eauto]]].
  pose proof (checks_guarded (generation_deadline g) (pre_generation_height g) (accounts st) w1) as Hc.
  unfold mbind in Hc. match type of Hc with context [foldr ?f ?b ?l w1] => destruct (foldr f b l w1) as [[? w2]|err] end;
    [|by split; [|left]]. clear Hc.
  pose proof (guarded_check (R := R) (generation_deadline g) (pre_generation_height g)) as Hcheck.
  pose proof (Hcheck w2) as Hc. destruct (check_generation_deadline _ _ w2) as [[? w3]|err]; [|by split; [|left]]. clear Hc.
  destruct (save_accounts st _ _) as [[]|msg] eqn:Hsave; cbn [gen_try gen_lift map_err];
    [|split; [done|right; exists msg; split; [done|right; eauto]]].
  pose proof (Hcheck w3) as Hc. by destruct (check_generation_deadline _ _ w3) as [[? w4]|err]; [|split; [|left]].
Qed.

(** Why a whole run stops: from outside, or with the error of a builder on the chain so far. *)
Definition start_stops g e l (err : GenError) : Prop :=
  outside_error (generation_deadline g) err \/
  (exists st (w : World R), build_distributing_block (at_engine g e) (builder_now (Z.of_nat (length l))) st w = Err err) \/
  exists st, stops g e l st err.

(** The distributing block collides. *)
Definition distributing_collides g st (height : Z) (w : World R) e : bool :=
  match build_distributing_block (at_engine g e) (builder_now height) st w with
  | Ok (b, _) => bool_decide (collides e b)
  | Err _ => false
  end.

(** Some block built by a whole run collides: the distributing block, or one after it. *)
Definition start_collides g (w : World R) e : bool :=
  let seeds := SeedSchedule_new (seed (config_chain (config g))) in
  let n := num_blocks (config_chain (config g)) in
  let height := pre_generation_height g + 1 in
  match check_generation_deadline (generation_deadline g) (Some (pre_generation_height g)) w, seed_at seeds height with
  | Ok (_, w), Some s =>
      match prepare_generation_state log_utxos_state save_accounts g s (pre_generation_height g + n)
              (mk_World (rng_from_seed s) (world_late w)) e with
      | (Ok (st, w), e) =>
          distributing_collides g st height w e ||
          match distribute_balances schedule builder_now validator_now g st height w e with
          | (Ok (st, tx_count, w), e) => run_collides g seeds (height + 1) (Z.to_nat n - 1) st tx_count w e
          | _ => false
          end
      | _ => false
      end
  | _, _ => false
  end.

(** The distribution, from the state a run starts from. *)
Lemma distribute_extends g e l s st (w : World R) r e1 :
  let h := Z.of_nat (length l) in
  generating g e l st -> fresh_state g s st -> run_ok g -> pre_generation_height g + 1 = h -> 1 <= h < 2 ^ 64 - 1 ->
  funded (generator_fund_account g) (ledger_view l) ->
  total_value (ledger_view l) < 2 ^ 62 -> 0 <= block_subsidy (generator_consts g) h < 2 ^ 63 ->
  distributing_collides g st h w e = false ->
  distribute_balances schedule builder_now validator_now g st h w e = (r, e1) ->
  exists bs st1, (length bs <= 1)%nat /\ generating g e1 (l ++ bs) st1 /\
    match r with
    | Ok (st', _, _) => exists b, bs = [b] /\ st' = st1 /\
        total_value (ledger_view (l ++ [b])) <= total_value (ledger_view l) + block_subsidy (generator_consts g) h
    | Err err => start_stops g e1 (l ++ bs) err
    end.
Proof using schedule_permutes PL IL E H0.
  intros h G Hfresh Hok Hpre Hh Hfund Htot Hsub Hcol. rewrite <-(fs_fund _ _ _ Hfresh) in Hfund. unfold distributing_collides in Hcol.
  unfold distribute_balances, mbind, chain_bind, chain_gen. unfold with_engine at 1. fold (at_engine g e).
  assert (generating g e (l ++ []) st) as G0 by (by rewrite app_nil_r).
  destruct (build_distributing_block (at_engine g e) (builder_now h) st w) as [[b w1]|err] eqn:Hb.
  2: { intros [= <- <-]. exists [], st. split_and!; [cbn; lia|done|]. right. left. exists st, w. by rewrite app_nil_r. }
  apply bool_decide_eq_false in Hcol. pose proof (guarded_check (R := R) (generation_deadline g)) as Hcheck.
  pose proof (Hcheck (pre_generation_height g) w1) as Hc. destruct (check_generation_deadline _ _ w1) as [[[] w2]|err].
  2: { intros [= <- <-]. exists [], st. split_and!; [cbn; lia|done|by left; left]. }
  clear Hc. destruct (distributed_extends g e l st w w1 b G Hok Hpre Hh Hfund Htot Hsub Hb Hcol) as (e' & Hsubmit & G' & Htot').
  rewrite Hsubmit. pose proof (Hcheck h w2) as Hc. destruct (check_generation_deadline _ _ w2) as [[[] w3]|err];
    intros [= <- <-]; exists [b], (state_apply_block st b); (split_and!; [cbn; lia|done|]).
  - by exists b.
  - by left; left.
Qed.

(** The state a run starts from is in step with a chain that holds nothing of its accounts. *)
Lemma fresh_generating g e l s st :
  represents e l -> forks e = ∅ -> block_validator e = mk_BlockValidator (generator_consts g) (generator_calc g) ->
  nonneg_values (ledger_view l) -> fresh_state g s st ->
  (forall op x, ledger_view l !! op = Some x -> owner x ∉ seed_addresses g s) -> generating g e l st.
Proof.
  intros Hr Hforks Hval Hnn Hst Hfresh. split; [done|done|done| |apply Hst|done]. pose proof (fs_empty _ _ _ Hst) as Hus. split.
  - rewrite Hus. intros a u Hu. by apply not_elem_of_nil in Hu.
  - rewrite Hus. apply NoDup_nil_2.
  - rewrite Hus. apply NoDup_nil_2.
  - intros op x Hx Ho. exfalso. by apply (Hfresh op x Hx), (fs_addresses _ _ _ Hst).
Qed.

(** The end of a run leaves the engine alone. *)
Lemma end_cases g h (w : World R) e :
  let finish : chain_m R MemoryView unit :=
    _ ← chain_gen (check_generation_deadline (generation_deadline g) (Some h));
    _ ← with_engine g (fun g => gen_try (log_utxos_state false (db (consensus_engine g))));
    _ ← chain_gen (check_generation_deadline (generation_deadline g) (Some h));
    mret tt in
  match finish w e with
  | (Ok _, e1) => e1 = e
  | (Err err, e1) => e1 = e /\ outside_error (generation_deadline g) err
  end.
Proof.
  unfold mbind, chain_bind, chain_gen, with_engine. cbv zeta.
  pose proof (guarded_check (R := R) (generation_deadline g) h) as Hcheck.
  pose proof (Hcheck w) as Hc. destruct (check_generation_deadline _ _ w) as [[[] w1]|err]; [|by split; [|left]]. clear Hc.
  destruct (log_utxos_state false _) as [[]|msg] eqn:Hlog; cbn [gen_try gen_lift map_err];
    [|split; [done|right; exists msg; split; [done|left; eauto]]].
  pose proof (Hcheck w1) as Hc. by destruct (check_generation_deadline _ _ w1) as [[[] w2]|err]; [|split; [|left]].
Qed.

(** The blocks of a run, from the state it starts from. *)
Lemma blocks_extend g e l seed num_blocks s st (w : World R) n r e' :
  let seeds := SeedSchedule_new seed in
  let heights := seqZ (Z.of_nat (length l)) (Z.of_nat (S n)) in
  let blocks : chain_m R MemoryView (GenerationState * Z) :=
    distributed ← distribute_balances schedule builder_now validator_now g st (Z.of_nat (length l));
    generate_blocks schedule builder_now validator_now g seeds (seqZ (Z.of_nat (length l) + 1) (Z.of_nat n)) distributed.1 distributed.2 in
  generating g e l st -> fresh_state g s st -> run_ok g -> validate_seed seed num_blocks = Ok tt ->
  pre_generation_height g + 1 = Z.of_nat (length l) -> 1 <= Z.of_nat (length l) ->
  Z.of_nat (length l) + Z.of_nat (S n) < 2 ^ 64 - 1 -> funded (generator_fund_account g) (ledger_view l) ->
  Forall (fun h => 0 <= block_subsidy (generator_consts g) h) heights ->
  total_value (ledger_view l) + zsum (block_subsidy (generator_consts g) <$> heights) < 2 ^ 62 ->
  distributing_collides g st (Z.of_nat (length l)) w e = false ->
  match distribute_balances schedule builder_now validator_now g st (Z.of_nat (length l)) w e with
  | (Ok (st, tx_count, w), e) => run_collides g seeds (Z.of_nat (length l) + 1) n st tx_count w e
  | _ => false
  end = false ->
  blocks w e = (r, e') ->
  exists bs, represents e' (l ++ bs) /\ nonneg_values (ledger_view (l ++ bs)) /\
    match r with
    | Ok _ => length bs = S n
    | Err err => (length bs <= S n)%nat /\ start_stops g e' (l ++ bs) err
    end.
Proof using schedule_permutes PL IL E H0.
  intros seeds heights blocks G Hst Hok Hseed Hpre Hl Hmax Hfund Hsub Htot Hcol0. unfold blocks, mbind, chain_bind.
  subst heights. rewrite (seqZ_cons (Z.of_nat (length l))) in Hsub, Htot by lia.
  replace (Z.pred (Z.of_nat (S n))) with (Z.of_nat n) in * by lia. apply Forall_cons in Hsub as [Hs0 Hsub]. rewrite fmap_cons, zsum_cons in Htot.
  assert (0 <= total_value (ledger_view l)) as Hpos by (apply (map_zsum_nonneg utxo_value), G).
  assert (0 <= zsum (block_subsidy (generator_consts g) <$> seqZ (Z.succ (Z.of_nat (length l))) (Z.of_nat n))) as Hrest
    by (by apply zsum_nonneg, Forall_fmap).
  destruct (distribute_balances _ _ _ g st _ w e) as [r1 e1] eqn:Hd.
  destruct (distribute_extends g e l s st w r1 e1 G Hst Hok Hpre ltac:(lia) Hfund ltac:(lia) ltac:(lia) Hcol0 Hd) as (bs & st1 & Hbs & G1 & Hr1).
  destruct r1 as [[[st1' count] w4]|err].
  2: { intros _ [= <- <-]. exists bs. split_and!; [apply G1|apply G1|lia|done]. }
  destruct Hr1 as (b & -> & -> & Htot1). cbn [fst snd].
  assert (Z.of_nat (length (l ++ [b])) = Z.succ (Z.of_nat (length l))) as Hsnoc by (rewrite length_app; cbn; lia).
  replace (Z.of_nat (length l) + 1) with (Z.of_nat (length (l ++ [b]))) by lia. rewrite <-Hsnoc in Hsub, Htot, Hrest.
  intros Hcol1 Hrun.
  destruct (generate_blocks_extends g _ _ (l ++ [b]) st1 count w4 e1 n r e' G1 Hok Hseed ltac:(lia) ltac:(lia) Hsub ltac:(lia) Hcol1 Hrun)
    as (bs & st2 & G2 & Hr2).
  rewrite <-(assoc_L (++)) in G2. exists ([b] ++ bs). split; [apply G2|]. split; [apply G2|]. cbn [length app].
  destruct r as [[[st2' count2] w5]|err]; destruct Hr2 as [Hlen Hstop]; [lia|].
  split; [lia|]. right. right. exists st2. by rewrite cons_middle, (assoc_L (++)).
Qed.

(** C9: A run of the generator over the in-memory backend extends its chain. Every block it
    builds, first the one that distributes its funds and then the filled ones, is applied by its
    engine; a run that ends well has added as many blocks as configured, and the engine holds the
    chain with them. A run that ends early ends at the deadline, with a failure of a listing or of
    the backup of the keys, or with the error of the builder on the chain reached so far: the
    engine never refuses a generated block.
    This is for a run that starts so: the engine tracks no fork and validates with the
    generator's own rules, in a valid configuration, and whenever the builder reads its clock
    the validator reads a time that is not earlier; the generator is at the tip of the chain,
    its seeds are a valid schedule for the number of blocks, and it has room below the
    greatest height; its funds are unspent and its key owns them; no output on the chain
    belongs to an account of the first seed, so it is not a second run with that seed; values
    and subsidies are not negative, and all the value there is and will be stays below 2^62;
    and no built block collides with what is there by its hash or by an outpoint it creates. *)
Theorem start_extends_chain g l (w : World R) e r e' :
  let seeds := SeedSchedule_new (seed (config_chain (config g))) in
  let n := num_blocks (config_chain (config g)) in
  let heights := seqZ (Z.of_nat (length l)) n in
  represents e l -> forks e = ∅ -> block_validator e = mk_BlockValidator (generator_consts g) (generator_calc g) ->
  nonneg_values (ledger_view l) -> run_ok g -> validate_seed (seed (config_chain (config g))) n = Ok tt ->
  pre_generation_height g + 1 = Z.of_nat (length l) -> 1 <= Z.of_nat (length l) -> 0 <= n ->
  Z.of_nat (length l) + n < 2 ^ 64 - 1 ->
  funded (generator_fund_account g) (ledger_view l) ->
  (forall s op x, seed_at seeds (Z.of_nat (length l)) = Some s -> ledger_view l !! op = Some x -> owner x ∉ seed_addresses g s) ->
  Forall (fun h => 0 <= block_subsidy (generator_consts g) h) heights ->
  total_value (ledger_view l) + zsum (block_subsidy (generator_consts g) <$> heights) < 2 ^ 62 ->
  start_collides g w e = false ->
  start schedule builder_now validator_now log_utxos_state save_accounts g w e = (r, e') ->
  exists bs, represents e' (l ++ bs) /\ nonneg_values (ledger_view (l ++ bs)) /\
    match r with
    | Ok _ => Z.of_nat (length bs) = n
    | Err err => Z.of_nat (length bs) <= n /\ start_stops g e' (l ++ bs) err
    end.
Proof using schedule_permutes PL IL E H0.
  intros seeds n heights Hr Hforks Hval Hnn Hok Hseed Hpre Hl Hn Hmax Hfund Hfresh Hsub Htot. unfold start_collides.
  assert (forall err, outside_error (generation_deadline g) err -> exists bs, represents e (l ++ bs) /\
    nonneg_values (ledger_view (l ++ bs)) /\ Z.of_nat (length bs) <= n /\ start_stops g e (l ++ bs) err) as Hout.
  { intros err Herr. exists []. rewrite app_nil_r. split_and!; [done|done|done|by left]. }
  unfold start, mbind, chain_bind, chain_gen. cbv zeta. fold n. fold seeds. rewrite Hpre.
  pose proof (guarded_check (R := R) (generation_deadline g) (pre_generation_height g) w) as Hc.
  destruct (check_generation_deadline _ _ w) as [[[] w1]|err].
  2: { intros _ [= <- <-]. apply Hout. by left. }
  clear Hc. destruct (Z.eqb_spec n 0) as [Hz|Hz].
  { intros _ [= <- <-]. exists []. rewrite app_nil_r. split_and!; [done|done|by rewrite Hz]. }
  rewrite !(wrap64_small) by lia. destruct (seed_at_active _ _ (Z.of_nat (length l)) Hseed Hl) as [Hat [[sh s] Hs]].
  rewrite Hs in Hat. fold seeds in Hat. cbn [fmap option_fmap option_map snd] in Hat.
  rewrite Hat. cbn [ok_or gen_lift]. unfold set_rng at 1.
  match goal with |- context [prepare_generation_state _ _ g s ?h ?w2 e] =>
    pose proof (prepare_cases g s h w2 e) as Hprep; destruct (prepare_generation_state _ _ g s h w2 e) as [[[st w3]|err] e1] end;
    destruct Hprep as [-> Hst]; [|intros _ [= <- <-]; by apply Hout].
  intros [Hcol0 Hcol1]%orb_false_iff.
  pose proof (fresh_generating g e l s st Hr Hforks Hval Hnn Hst (fun op x => Hfresh s op x Hat)) as G.
  replace (pre_generation_height g + n - (Z.of_nat (length l) + 1) + 1) with (Z.of_nat (Z.to_nat n - 1)) by lia.
  subst heights. replace n with (Z.of_nat (S (Z.to_nat n - 1))) in Hsub, Htot, Hmax by lia.
  pose proof (fun r e1 => blocks_extend g e l _ _ s st w3 _ r e1 G Hst Hok Hseed Hpre Hl Hmax Hfund Hsub Htot Hcol0 Hcol1) as Hblocks.
  unfold mbind, chain_bind in Hblocks. fold seeds in Hblocks. clear Hcol0 Hcol1.
  assert (forall bs, length bs = S (Z.to_nat n - 1) -> Z.of_nat (length (bs : list Block)) = n) as Hcount by lia.
  destruct (distribute_balances _ _ _ g st _ w3 e) as [[[[st1 count] w4]|err] e1].
  2: { intros [= <- <-]. destruct (Hblocks _ _ eq_refl) as (bs & ? & ? & ? & ?). exists bs. split_and!; [done|done|lia|done]. }
  destruct (generate_blocks _ _ _ g seeds _ _ _ w4 e1) as [r2 e2].
  destruct (Hblocks _ _ eq_refl) as (bs & Hr2 & Hnn2 & Hres). clear Hblocks. destruct r2 as [[[st2 count2] w5]|err].
  2: { intros [= <- <-]. exists bs. split_and!; [done|done|lia|apply Hres]. }
  pose proof (end_cases g (pre_generation_height g + n) w5 e2) as Hend.
  unfold mbind, chain_bind, chain_gen in Hend. cbv zeta in Hend. intros Hfin. rewrite Hfin in Hend. exists bs.
  destruct r as [[[] w6]|err]; [subst e'|destruct Hend as [-> Herr]]; (split_and!; [done|done|try lia..]).
  by left.
Qed.
End Run.

(** * A concrete run *)

Section RunWitnesses.
Import Toy ListGraph MapOrder CounterSource ToyKeys SeededCounter.
Local Existing Instances externals ecdsa_laws map_order map_order_laws list_graph list_graph_laws.

(** A chain whose genesis pays the funding key, the engine on it, and a run of three blocks. *)
Definition funded_genesis : Block :=
  new_genesis 1 {[ val_owner := 10000000 ]} (mk_GenesisState val_rules).
Definition funded_store : MemoryView := (memory_apply_transition MemoryView_default (TGenesis funded_genesis toy_metadata)).2.
Definition funded_engine : Engine MemoryView :=
  mk_Engine val_rules val_validator funded_store ∅ (index_insert ChainIndex_new funded_genesis (ledger_work [funded_genesis])).
Definition run_config : ChainGenConfig :=
  mk_ChainGenConfig (mk_ChainSettings 2 None (Single 20) "chain" "genesis.json" None None)
    (mk_BlocksSettings (mk_PrivateKey Byte.x07) 30 val_owner 2 2 1).
Definition run_generator : ChainGenerator MemoryView :=
  mk_ChainGenerator run_config false (mk_FundAccount val_owner (mk_PrivateKey Byte.x07) (utxos funded_store)) 0
    val_rules (mk_DifficultyCalc (pow val_rules)) funded_engine.
Definition toy_clock (h : Z) : result string Z := Ok 1900000000.

Abbreviation toy_run := (start (fun idxs => idxs) toy_clock toy_clock (fun _ _ => Ok tt) (fun _ _ _ => Ok tt)
  run_generator (mk_World 0 []) funded_engine).

Lemma funded_genesis_valid : validate_genesis funded_genesis = Ok tt.
Proof.
  assert (is_ok (validate_genesis funded_genesis) = true) as H by (vm_compute; reflexivity).
  destruct (validate_genesis funded_genesis) as [[]|]; [reflexivity|discriminate H].
Qed.

Lemma funded_store_refines : refines funded_store [funded_genesis].
Proof.
  destruct (genesis_init funded_genesis toy_metadata (proj1 (validate_genesis_iff _) funded_genesis_valid)) as (m & Hm & R & _).
  unfold funded_store, memory_apply_transition, update. rewrite Hm. exact R.
Qed.

Lemma funded_engine_represents : represents funded_engine [funded_genesis].
Proof.
  split.
  - exact funded_store_refines.
  - apply indexes_first.
  - apply Forall_singleton. split_and!; apply (bool_decide_unpack _); vm_compute; exact I.
  - cbn [forks funded_engine]. intros tip entry He. rewrite lookup_empty in He. discriminate He.
Qed.

Lemma run_settings_ok : run_ok toy_clock toy_clock run_generator.
Proof.
  split.
  - split_and!; first [reflexivity|vm_compute; discriminate|split; [vm_compute; discriminate|vm_compute; reflexivity]].
  - split; cbn; lia.
  - intros h now [= <-]. exists 1900000000. split; [reflexivity|lia].
Qed.
Lemma toy_run_plain : start_collides (fun idxs => idxs) toy_clock toy_clock (fun _ _ => Ok tt) (fun _ _ _ => Ok tt)
  run_generator (mk_World 0 []) funded_engine = false.
Proof. vm_cast_no_check (@eq_refl bool false). Qed.

Lemma start_extends_chain_witness :
  let '(r, e) := toy_run in exists bs, represents e (funded_genesis :: bs) /\ (is_ok r = true -> length bs = 2%nat).
Proof.
  destruct toy_run as [r e] eqn:Hrun.
  destruct (start_extends_chain (fun idxs => idxs) toy_clock toy_clock (fun _ _ => Ok tt) (fun _ _ _ => Ok tt) id_permutes
    run_generator [funded_genesis] (mk_World 0 []) funded_engine r e) as (bs & Hr & _ & Hres).
  - exact funded_engine_represents.
  - reflexivity.
  - reflexivity.
  - apply (bool_decide_unpack _). vm_compute. exact I.
  - exact run_settings_ok.
  - reflexivity.
  - reflexivity.
  - cbn. lia.
  - cbn. lia.
  - cbn. lia.
  - split; [|reflexivity]. apply (bool_decide_unpack _). vm_compute. exact I.
  - intros s op x Hs. vm_compute in Hs. injection Hs as <-. revert op x.
    assert (map_Forall (fun _ x => owner x ∉ seed_addresses run_generator 20) (ledger_view [funded_genesis])) as Hall
      by (apply (bool_decide_unpack _); vm_compute; exact I).
    intros op x Hx. exact (map_Forall_lookup_1 _ _ _ _ Hall Hx).
  - apply (bool_decide_unpack _). vm_compute. exact I.
  - vm_compute. reflexivity.
  - exact toy_run_plain.
  - exact Hrun.
  - exists bs. split; [exact Hr|]. intros Hok. destruct r as [[]|]; [|discriminate Hok]. cbn in Hres. lia.
Defined.
End RunWitnesses.
