(* ===== verification/WalletFile.v ===== *)
(** WalletFile: the file of keys of the wallet ([stryi_wallet/src/keys.rs]) and the commands that
    change it ([cmd_init], [cmd_generate], [cmd_import], [cmd_list], [cmd_delete] and [cmd_rename]
    of [stryi_wallet/src/cmd.rs]). Terminal output is left out; [serde_json] is a class. *)
From S2P Require Import Prelude Bytes Types Externals Hashing Accounts.
From Stdlib Require Import Ascii.
#[local] Open Scope Z_scope.

(** * Data *)

Record KeyEntry `{Externals} := mk_KeyEntry { label : string; private_key : PrivateKey; address : string }.
Arguments mk_KeyEntry {_} _ _ _.
Arguments label {_} _.
Arguments private_key {_} _.
Arguments address {_} _.

Record WalletFile `{Externals} := mk_WalletFile { keys : list KeyEntry }.
Arguments mk_WalletFile {_} _.
Arguments keys {_} _.

(** [serde_json]: the text of a wallet, and the wallet of a text. *)
Class WalletJson `{Externals} := {
  to_string_pretty : WalletFile -> result string string;
  from_str : string -> result string WalletFile;
}.

(** A wallet is always serialized, and read back from its text. *)
Class WalletJsonLaws `{WalletJson} : Prop := {
  wallet_text w : exists text, to_string_pretty w = Ok text /\ from_str text = Ok w;
}.

(** How the operations on the file fail, when they do: a write can stop after some bytes of the
    file it has emptied. *)
Record DiskFaults := mk_DiskFaults {
  read_fails : bool;
  mkdir_fails : bool;
  create_fails : bool;
  write_stops : option nat;
}.

Definition healthy : DiskFaults := mk_DiskFaults false false false None.

(** * Commands

    A command reads and writes the content of the file at [wallet_path], if there is one, and
    ends with a value or with the text of an error. *)

Definition WalletIO (A : Type) : Type := option string -> result string A * option string.

#[export] Instance wallet_ret : MRet WalletIO := fun A a file => (Ok a, file).
#[export] Instance wallet_bind : MBind WalletIO := fun A B k m file =>
  match m file with
  | (Ok a, file') => k a file'
  | (Err e, file') => (Err e, file')
  end.

Definition lift {A} (r : result string A) : WalletIO A := fun file => (r, file).
Definition bail {A} (text : string) : WalletIO A := lift (Err text).

(** [Path::exists] *)
Definition path_exists : WalletIO bool := fun file => (Ok (bool_decide (is_Some file)), file).

Section Keys.
Context {X : Externals} {K : KeyBytes} {J : WalletJson} (d : DiskFaults).
Implicit Types (wallet : WalletFile) (entry : KeyEntry) (signing_key : SigningKey).

(** The text of the address of a key. *)
Definition key_address (k : PrivateKey) : string := Hash_to_string (from_public_key (verifying_key (into_inner k))).

(** [generate_keypair], given the random key. *)
Definition generate_keypair (label : string) signing_key : KeyEntry :=
  mk_KeyEntry label (mk_PrivateKey signing_key) (key_address (mk_PrivateKey signing_key)).

Definition import_key (hex_key label : string) : result string KeyEntry :=
  private_key ← map_err (fun _ => "invalid private key hex") (PrivateKey_try_from hex_key);
  mret (mk_KeyEntry label private_key (key_address private_key)).

(** [fs::read_to_string] *)
Definition read_to_string : WalletIO string := fun file =>
  match file with
  | Some data => if read_fails d then (Err "read failed", file) else (Ok data, file)
  | None => (Err "No such file or directory", file)
  end.

(** [fs::write] opens the file and empties it before it writes. *)
Definition fs_write (text : string) : WalletIO unit := fun file =>
  if create_fails d then (Err "open failed", file)
  else
    match write_stops d with
    | Some n => (Err "write failed", Some (String.substring 0 n text))
    | None => (Ok tt, Some text)
    end.

Definition with_context {A} (text : string) (m : WalletIO A) : WalletIO A := fun file =>
  let '(r, file) := m file in (map_err (fun _ => text) r, file).

Definition load_wallet : WalletIO WalletFile :=
  data ← with_context "cannot read wallet file at {}" read_to_string;
  with_context "failed to parse wallet JSON" (lift (from_str data)).

Definition require_wallet : WalletIO WalletFile :=
  with_context "no wallet found. Try to run `stryi-wallet init` first" load_wallet.

Definition save_wallet wallet : WalletIO unit :=
  _ ← with_context "cannot create directory {}" (lift (ensure (negb (mkdir_fails d)) "mkdir failed"));
  json ← with_context "failed to serialize wallet" (lift (to_string_pretty wallet));
  with_context "cannot write wallet file at {}" (fs_write json).

(** The position and the entry of the first key with an address. *)
Definition position (address_str : string) (l : list KeyEntry) : option (nat * KeyEntry) :=
  list_find (fun k => address k = address_str) l.

Definition find_key_by_address wallet (address_str : string) : result string KeyEntry :=
  ok_or (snd <$> position address_str (keys wallet))
    (if bool_decide (keys wallet = []) then "wallet is empty - run `stryi-wallet generate` first"
     else "address {} not found in wallet. Available: {}").

Definition cmd_init signing_key : WalletIO unit :=
  found ← path_exists;
  if (found : bool) then bail "wallet file already exists at {}. Use `generate` to add more keys."
  else save_wallet (mk_WalletFile [generate_keypair "default" signing_key]).

Definition cmd_generate (label : string) signing_key : WalletIO unit :=
  wallet ← require_wallet;
  save_wallet (mk_WalletFile (keys wallet ++ [generate_keypair label signing_key])).

Definition cmd_import (hex_key label : string) : WalletIO unit :=
  found ← path_exists;
  wallet ← (if (found : bool) then load_wallet else mret (mk_WalletFile []));
  entry ← lift (import_key hex_key label);
  save_wallet (mk_WalletFile (keys wallet ++ [entry])).

(** [cmd_list]: the rows of the table. *)
Definition cmd_list (show_keys : bool) : WalletIO (list (nat * string * string * option string)) :=
  wallet ← require_wallet;
  mret (imap (fun i entry => (S i, label entry, address entry,
                              if show_keys then Some (PrivateKey_to_string (private_key entry)) else None)) (keys wallet)).

Definition cmd_delete (addr : AccountAddress) : WalletIO unit :=
  wallet ← require_wallet;
  found ← lift (ok_or (position (Hash_to_string addr) (keys wallet)) "address {} not found in wallet");
  save_wallet (mk_WalletFile (base.delete found.1 (keys wallet))).

Definition relabel (new_label : string) entry : KeyEntry := mk_KeyEntry new_label (private_key entry) (address entry).

Definition cmd_rename (addr : AccountAddress) (new_label : string) : WalletIO unit :=
  wallet ← require_wallet;
  found ← lift (ok_or (position (Hash_to_string addr) (keys wallet)) "address {} not found in wallet");
  save_wallet (mk_WalletFile (alter (relabel new_label) found.1 (keys wallet))).

(** ** Sequences of commands *)

Inductive WalletCommand :=
| Init signing_key
| Generate (label : string) signing_key
| Import (hex_key label : string)
| Delete (addr : AccountAddress)
| Rename (addr : AccountAddress) (new_label : string).

Definition run_command (c : WalletCommand) : WalletIO unit :=
  match c with
  | Init k => cmd_init k
  | Generate label k => cmd_generate label k
  | Import hex_key label => cmd_import hex_key label
  | Delete addr => cmd_delete addr
  | Rename addr new_label => cmd_rename addr new_label
  end.
End Keys.

(** Commands one after the other, each with the faults it meets. *)
Definition run_commands `{WalletJson} `{!KeyBytes} (file : option string) (l : list (DiskFaults * WalletCommand)) : option string :=
  foldl (fun file dc => (run_command dc.1 dc.2 file).2) file l.

(** * The specification: a list of keys *)

Section Spec.
Context {X : Externals} {K : KeyBytes} {J : WalletJson} `{!WalletJsonLaws}.
Implicit Types (l : list KeyEntry) (file : option string) (c : WalletCommand).

(** What a command makes of the list, when it is possible. *)
Definition wallet_step (st : option (list KeyEntry)) c : option (list KeyEntry) :=
  match c, st with
  | Init k, None => Some [generate_keypair "default" k]
  | Generate label k, Some l => Some (l ++ [generate_keypair label k])
  | Import hex_key label, _ =>
      match import_key hex_key label with Ok entry => Some (default [] st ++ [entry]) | Err _ => None end
  | Delete addr, Some l => found ← position (Hash_to_string addr) l; Some (base.delete found.1 l)
  | Rename addr new_label, Some l => found ← position (Hash_to_string addr) l; Some (alter (relabel new_label) found.1 l)
  | _, _ => None
  end.

(** The file is that of a list of keys, or there is neither. *)
Definition holds file (st : option (list KeyEntry)) : Prop :=
  match file, st with
  | None, None => True
  | Some text, Some l => from_str text = Ok (mk_WalletFile l)
  | _, _ => False
  end.

(** A write stopped and left the beginning of a text. *)
Definition torn (d : DiskFaults) file : Prop :=
  exists n text, write_stops d = Some n /\ file = Some (String.substring 0 n text).

(** What a command may do to the file: the step of the specification, or nothing, unless a write
    stops. It fails only when the specification or the disk says so. *)
Definition refines_step d c file (st : option (list KeyEntry)) (out : result string unit * option string) : Prop :=
  match out.1 with
  | Ok _ => exists l, wallet_step st c = Some l /\ holds out.2 (Some l)
  | Err _ => (out.2 = file \/ torn d out.2) /\ (d = healthy -> wallet_step st c = None)
  end.

Lemma save_refines d c file st l : wallet_step st c = Some l -> refines_step d c file st (save_wallet d (mk_WalletFile l) file).
Proof.
  intros Hs. unfold refines_step, save_wallet, with_context, fs_write, lift, mbind, wallet_bind. destruct (wallet_text (mk_WalletFile l)) as (text & Ht & Hf).
  destruct d as [rd md cr [n|]]; destruct md, cr; cbn; rewrite ?Ht; cbn.
  all: first [ by (split; [by left|]) | by (split; [right; by exists n, text|]) | by exists l ].
Qed.

Lemma load_cases d file st : holds file st ->
  (exists l, st = Some l /\ load_wallet d file = (Ok (mk_WalletFile l), file)) \/
  (exists e, load_wallet d file = (Err e, file) /\ (d = healthy -> st = None)).
Proof.
  unfold load_wallet, with_context, read_to_string, lift, mbind, wallet_bind. destruct file as [text|], st as [l|]; cbn; [|done|done|].
  - intros Hh. destruct (read_fails d) eqn:Hr; cbn; [right|left].
    + eexists. split; [done|]. intros ->. discriminate Hr.
    + exists l. split; [done|]. by rewrite Hh.
  - intros _. right. by eexists.
Qed.

Lemma require_cases d file st : holds file st ->
  (exists l, st = Some l /\ require_wallet d file = (Ok (mk_WalletFile l), file)) \/
  (exists e, require_wallet d file = (Err e, file) /\ (d = healthy -> st = None)).
Proof.
  intros Hh. unfold require_wallet, with_context. destruct (load_cases d file st Hh) as [(l & -> & ->)|(e & -> & Hd)]; cbn.
  - left. by exists l.
  - right. by eexists.
Qed.

(** Runs the actions that only look at the file. *)
#[local] Ltac io_step := unfold mbind, wallet_bind, path_exists, bail, lift; cbv beta iota; cbn [keys].

(** A command that first needs the wallet. *)
Lemma require_refines d c file st k :
  holds file st -> (st = None -> wallet_step st c = None) ->
  (forall l, st = Some l -> refines_step d c file st (k (mk_WalletFile l) file)) ->
  refines_step d c file st ((require_wallet d ≫= k) file).
Proof.
  intros Hh Hnone Hk. io_step. destruct (require_cases d file st Hh) as [(l & -> & ->)|(e & -> & Hd)]; [by apply Hk|].
  split; [by left|]. intros Hok. apply Hnone, Hd, Hok.
Qed.

(** A command that changes the first entry of an address. *)
Lemma found_refines d c file l (addr : AccountAddress) (change : nat * KeyEntry -> list KeyEntry) :
  wallet_step (Some l) c = change <$> position (Hash_to_string addr) l ->
  refines_step d c file (Some l)
    ((lift (ok_or (position (Hash_to_string addr) l) "address {} not found in wallet") ≫=
      fun found => save_wallet d (mk_WalletFile (change found))) file).
Proof.
  intros Hs. io_step. destruct (position _ l) as [found|]; cbn [ok_or].
  - by apply save_refines.
  - by split; [left|].
Qed.

(** Every command refines its step. *)
Lemma command_refines d c file st : holds file st -> refines_step d c file st (run_command d c file).
Proof.
  intros Hh. destruct c as [k|lbl k|hex lbl|addr|addr lbl]; cbn [run_command].
  - unfold cmd_init. io_step. case_bool_decide as Hex.
    + split; [by left|]. intros _. destruct file, st; [done|done|done|by destruct Hex].
    + destruct file as [text|]; [by destruct Hex|]. destruct st; [done|]. by apply save_refines.
  - apply require_refines; [done|by intros ->|]. intros l ->. by apply save_refines.
  - unfold cmd_import. io_step. set (m := if bool_decide _ then _ else _).
    assert ((m file = (Ok (mk_WalletFile (default [] st)), file)) \/ (exists e, m file = (Err e, file) /\ d <> healthy)) as Hm.
    { unfold m. case_bool_decide as Hex.
      - destruct (load_cases d file st Hh) as [(l & -> & Hl)|(e & Hl & Hd)]; [by left|right]. exists e. split; [done|].
        intros Hok. rewrite (Hd Hok) in Hh. destruct file; [done|by destruct Hex].
      - left. destruct file; [by destruct Hex|]. by destruct st. }
    destruct Hm as [->|(e & -> & Hd)]; [|by split; [left|]]. destruct (import_key hex lbl) as [entry|e] eqn:Hi.
    + apply save_refines. cbn [wallet_step]. by rewrite Hi.
    + split; [by left|]. intros _. cbn [wallet_step]. by rewrite Hi.
  - apply require_refines; [done|by intros ->|]. intros l ->. apply (found_refines d _ file l addr). cbn [wallet_step]. by destruct (position _ l).
  - apply require_refines; [done|by intros ->|]. intros l ->. apply (found_refines d _ file l addr). cbn [wallet_step]. by destruct (position _ l).
Qed.

(** ** Keys and their addresses *)

(** The address of an entry is that of its key. *)
Definition entry_ok (entry : KeyEntry) : Prop := address entry = key_address (private_key entry).

Lemma import_ok hex lbl entry : import_key hex lbl = Ok entry -> entry_ok entry.
Proof. unfold import_key. intros (k & _ & Hk)%bind_Ok. by injection Hk as <-. Qed.

Lemma position_Some a l i entry : position a l = Some (i, entry) -> l !! i = Some entry /\ address entry = a.
Proof. unfold position. by intros (Hi & Ha & _)%list_find_Some. Qed.

(** The same key under the same address, whatever its label. *)
Definition same_key (a b : KeyEntry) : Prop := private_key a = private_key b /\ address a = address b.

Lemma step_entries st c l : wallet_step st c = Some l -> Forall entry_ok (default [] st) -> Forall entry_ok l.
Proof.
  intros Hs Hall. destruct c as [k|lbl k|hex lbl|addr|addr lbl], st as [l0|]; cbn in Hs, Hall; try done.
  - injection Hs as <-. by repeat constructor.
  - injection Hs as <-. apply Forall_app. split; [done|by repeat constructor].
  - destruct (import_key hex lbl) as [entry|] eqn:Hi; [|done]. injection Hs as <-. apply Forall_app. split; [done|].
    constructor; [by eapply import_ok|done].
  - destruct (import_key hex lbl) as [entry|] eqn:Hi; [|done]. injection Hs as <-.
    constructor; [by eapply import_ok|done].
  - destruct (position _ l0) as [[i entry]|]; [|done]. injection Hs as <-. by apply Forall_delete.
  - destruct (position _ l0) as [[i entry]|]; [|done]. injection Hs as <-. by apply Forall_alter.
Qed.

(** Only the deletion of its address takes a key out of the list. *)
Lemma step_keeps st c l entry :
  wallet_step st c = Some l -> entry ∈ default [] st ->
  (forall addr, c = Delete addr -> Hash_to_string addr <> address entry) ->
  exists entry', entry' ∈ l /\ same_key entry entry'.
Proof.
  intros Hs He Hkeep. assert (entry ∈ l -> exists entry', entry' ∈ l /\ same_key entry entry') as Hsame by (intros; by exists entry).
  destruct c as [k|lbl k|hex lbl|addr|addr lbl], st as [l0|]; cbn in Hs, He; try done; try (by apply not_elem_of_nil in He).
  - injection Hs as <-. apply Hsame. set_solver.
  - destruct (import_key hex lbl) as [e|] eqn:Hi; [|done]. injection Hs as <-. apply Hsame. set_solver.
  - destruct (position _ l0) as [[i e]|] eqn:Hp; [|done]. injection Hs as <-. apply position_Some in Hp as [Hi Ha]. apply Hsame.
    cbn [fst]. rewrite delete_take_drop. rewrite <-(take_drop_middle l0 i e Hi) in He.
    apply elem_of_app in He as [He|[->|He]%elem_of_cons]; [set_solver| |set_solver].
    exfalso. by apply (Hkeep addr).
  - destruct (position _ l0) as [[i e]|] eqn:Hp; [|done]. injection Hs as <-. apply position_Some in Hp as [Hi Ha]. cbn [fst].
    apply list_elem_of_lookup in He as [j Hj]. destruct (decide (i = j)) as [<-|Hne].
    + exists (relabel lbl entry). split; [|done]. apply (list_elem_of_lookup_2 _ i). by rewrite list_lookup_alter_eq, Hj.
    + apply Hsame, (list_elem_of_lookup_2 _ j). by rewrite list_lookup_alter_ne.
Qed.

(** A command without a stopped write keeps a file of a list of keys. *)
Lemma command_keeps d c file st :
  holds file st -> Forall entry_ok (default [] st) -> write_stops d = None ->
  exists st', holds (run_command d c file).2 st' /\ Forall entry_ok (default [] st') /\ (is_Some st -> is_Some st') /\
    forall entry, entry ∈ default [] st -> (forall addr, c = Delete addr -> Hash_to_string addr <> address entry) ->
      exists entry', entry' ∈ default [] st' /\ same_key entry entry'.
Proof.
  intros Hh Hall Hw. pose proof (command_refines d c file st Hh) as Hr. unfold refines_step in Hr.
  destruct (run_command d c file) as [[[]|e] file']; cbn [fst snd] in Hr |- *.
  - destruct Hr as (l & Hs & Hl). exists (Some l). split_and!; [done|by eapply step_entries|done|].
    intros entry He Hkeep. by eapply step_keeps.
  - destruct Hr as [[->|(n & text & Hn & _)] _]; [|congruence]. exists st. split_and!; [done|done|done|]. intros entry He _. by exists entry.
Qed.

Lemma run_keeps file st cs :
  holds file st -> Forall entry_ok (default [] st) -> Forall (fun dc => write_stops dc.1 = None) cs ->
  exists st', holds (run_commands file cs) st' /\ Forall entry_ok (default [] st') /\ (is_Some st -> is_Some st') /\
    forall entry, entry ∈ default [] st -> (forall addr, Delete addr ∈ cs.*2 -> Hash_to_string addr <> address entry) ->
      exists entry', entry' ∈ default [] st' /\ same_key entry entry'.
Proof.
  revert file st. induction cs as [|[d c] cs IH]; intros file st Hh Hall Hw.
  { exists st. split_and!; [done|done|done|]. intros entry He _. by exists entry. }
  apply Forall_cons in Hw as [Hd Hw]. destruct (command_keeps d c file st Hh Hall Hd) as (st1 & Hh1 & Hall1 & Hs1 & Hk1).
  destruct (IH _ st1 Hh1 Hall1 Hw) as (st2 & Hh2 & Hall2 & Hs2 & Hk2). exists st2. split_and!; [done|done|by eauto|].
  intros entry He Hkeep. destruct (Hk1 entry He) as (e1 & He1 & [Hp1 Ha1]).
  { intros addr ->. apply Hkeep. by left. }
  destruct (Hk2 e1 He1) as (e2 & He2 & [Hp2 Ha2]).
  { intros addr Hin. rewrite <-Ha1. apply Hkeep. by right. }
  exists e2. split; [done|]. split; congruence.
Qed.

Lemma find_present l entry :
  entry ∈ l -> Forall entry_ok l ->
  exists found, find_key_by_address (mk_WalletFile l) (address entry) = Ok found /\ key_address (private_key found) = address entry.
Proof.
  intros He Hall. unfold find_key_by_address. cbn [keys]. destruct (position (address entry) l) as [[i found]|] eqn:Hp.
  - exists found. split; [done|]. apply position_Some in Hp as [Hi <-]. symmetry. by apply (Forall_lookup_1 _ _ _ _ Hall Hi).
  - unfold position in Hp. apply list_find_None in Hp. rewrite Forall_forall in Hp. by destruct (Hp entry He).
Qed.

(** C33: A key is lost only by deleting its address. Start from no file, or from a file whose
    entries carry the addresses of their keys, and run any commands, each with any failures of
    the disk but a write that stops half-way. Afterwards the file, if any, loads; its entries
    still carry the addresses of their keys; and a key whose address no command deleted is still
    there, and the search for its address finds a key with that address. *)
Theorem keys_survive file st cs :
  holds file st -> Forall entry_ok (default [] st) -> Forall (fun dc => write_stops dc.1 = None) cs ->
  let file' := run_commands file cs in
  (is_Some file -> is_Some file') /\
  (is_Some file' -> exists wallet, load_wallet healthy file' = (Ok wallet, file') /\ Forall entry_ok (keys wallet) /\
    forall entry, entry ∈ default [] st ->
      (forall addr, Delete addr ∈ cs.*2 -> Hash_to_string addr <> address entry) ->
      (exists entry', entry' ∈ keys wallet /\ same_key entry entry') /\
      exists found, find_key_by_address wallet (address entry) = Ok found /\ key_address (private_key found) = address entry).
Proof.
  intros Hh Hall Hw. cbv zeta. destruct (run_keeps file st cs Hh Hall Hw) as (st' & Hh' & Hall' & Hs & Hk).
  set (file' := run_commands file cs) in *. split.
  - intros [text ->]. destruct st as [l|]; [|done]. destruct Hs as [l' ->]; [by eexists|]. by destruct file'.
  - intros [text Ht]. rewrite Ht in Hh' |- *. destruct st' as [l|]; [|done]. exists (mk_WalletFile l).
    split; [|split; [done|]].
    + unfold load_wallet, with_context, read_to_string, lift, mbind, wallet_bind. cbn. by rewrite Hh'.
    + intros entry He Hkeep. destruct (Hk entry He Hkeep) as (e & Hin & Hp & Ha). split; [by exists e|].
      rewrite Ha. by apply find_present.
Qed.
End Spec.

(** * A concrete codec *)

Module ToyWallet.
Import Toy ToyKeys.

(** Every character after an [a], and a [b] at the end. *)
Fixpoint enc (s rest : string) : string :=
  match s with
  | EmptyString => String "b"%char rest
  | String c s => String "a"%char (String c (enc s rest))
  end.

Fixpoint dec (s : string) : option (string * string) :=
  match s with
  | String t s =>
      if Ascii.eqb t "b"%char then Some (""%string, s)
      else match s with String c s => found ← dec s; Some (String c found.1, found.2) | EmptyString => None end
  | EmptyString => None
  end.

Lemma dec_enc s rest : dec (enc s rest) = Some (s, rest).
Proof. induction s as [|c s IH]; [done|]. cbn [enc dec Ascii.eqb]. cbn. by rewrite IH. Qed.

Fixpoint enc_entries (l : list KeyEntry) : string :=
  match l with
  | [] => "."%string
  | e :: l => String "e"%char (enc (label e) (enc (PrivateKey_to_string (private_key e)) (enc (address e) (enc_entries l))))
  end.

Fixpoint dec_entries (fuel : nat) (s : string) : option (list KeyEntry) :=
  match fuel, s with
  | S fuel, String t s =>
      if Ascii.eqb t "."%char then Some []
      else
        label ← dec s; key ← dec label.2; address ← dec key.2; l ← dec_entries fuel address.2;
        match PrivateKey_try_from key.1 with Ok k => Some (mk_KeyEntry label.1 k address.1 :: l) | Err _ => None end
  | _, _ => None
  end.

Lemma dec_enc_entries l fuel : (length l < fuel)%nat -> dec_entries fuel (enc_entries l) = Some l.
Proof.
  revert fuel. induction l as [|[lbl k a] l IH]; intros [|fuel] Hf; cbn in Hf; [lia|done|lia|].
  cbn [enc_entries dec_entries label private_key address]. change (Ascii.eqb "e"%char "."%char) with false. cbn [negb].
  rewrite dec_enc. cbn [mbind option_bind snd]. rewrite dec_enc. cbn [mbind option_bind snd]. rewrite dec_enc. cbn [mbind option_bind fst snd].
  rewrite IH by lia. cbn [mbind option_bind]. by rewrite private_key_roundtrip.
Qed.

Lemma enc_length s rest : (String.length rest < String.length (enc s rest))%nat.
Proof. induction s as [|c s IH]; cbn [enc String.length]; lia. Qed.

Lemma enc_entries_length l : (length l < String.length (enc_entries l))%nat.
Proof.
  induction l as [|e l IH]; [cbn; lia|]. cbn [enc_entries String.length length].
  pose proof (enc_length (address e) (enc_entries l)).
  pose proof (enc_length (PrivateKey_to_string (private_key e)) (enc (address e) (enc_entries l))).
  pose proof (enc_length (label e) (enc (PrivateKey_to_string (private_key e)) (enc (address e) (enc_entries l)))). lia.
Qed.

#[export] Instance toy_json : WalletJson := {|
  to_string_pretty w := Ok (enc_entries (keys w));
  from_str s := match dec_entries (String.length s) s with Some l => Ok (mk_WalletFile l) | None => Err "invalid"%string end;
|}.

#[export] Instance toy_json_laws : WalletJsonLaws.
Proof.
  split. intros [l]. exists (enc_entries l). split; [done|]. cbn [from_str toy_json keys].
  by rewrite dec_enc_entries by apply enc_entries_length.
Qed.

(** A wallet with one key, and commands: a second key, a failing read, a new name, and the
    deletion of the second key. *)
Definition first_entry : KeyEntry := generate_keypair "default" Byte.x07.
Definition first_file : option string := Some (enc_entries [first_entry]).
Definition other_address : AccountAddress := from_public_key (X := externals) Byte.x08.
Definition some_commands : list (DiskFaults * WalletCommand) :=
  [(healthy, Generate "second" Byte.x08);
   (mk_DiskFaults true false false None, Generate "third" Byte.x09);
   (healthy, Rename (from_public_key (X := externals) Byte.x07) "savings");
   (healthy, Delete other_address)].

Lemma first_file_holds : holds first_file (Some [first_entry]).
Proof. unfold holds, first_file. cbn [from_str toy_json]. by rewrite dec_enc_entries by apply enc_entries_length. Qed.

Lemma deleted_only addr : Delete addr ∈ some_commands.*2 -> addr = other_address.
Proof.
  unfold some_commands. cbn [fmap list_fmap snd]. intros Ha.
  repeat (apply elem_of_cons in Ha as [Ha|Ha]; [first [discriminate Ha|injection Ha as Ha; exact Ha]|]). by apply not_elem_of_nil in Ha.
Qed.

Lemma keys_survive_witness :
  exists wallet found, load_wallet healthy (run_commands first_file some_commands) = (Ok wallet, run_commands first_file some_commands) /\
    find_key_by_address wallet (address first_entry) = Ok found /\ key_address (private_key found) = address first_entry.
Proof.
  destruct (keys_survive first_file (Some [first_entry]) some_commands first_file_holds) as [Hs Hf].
  - repeat constructor.
  - repeat constructor.
  - destruct (Hf (Hs (ex_intro _ _ eq_refl))) as (wallet & Hl & _ & Hk).
    destruct (Hk first_entry) as (_ & found & Hfound).
    + left.
    + intros addr Ha. assert (Hash_to_string other_address <> address first_entry) as Hne by (apply (bool_decide_unpack _); vm_compute; exact I).
      rewrite (deleted_only addr Ha). exact Hne.
    + exists wallet, found. split; [exact Hl|exact Hfound].
Defined.

(** [fs::write] empties the file before it writes: when the write of a new key stops, the keys
    that were there are gone as well. *)
Lemma stopped_write_loses_keys :
  let file := (run_command (mk_DiskFaults false false false (Some 0%nat)) (Generate "second" Byte.x08) first_file).2 in
  is_ok (load_wallet healthy first_file).1 && negb (is_ok (load_wallet healthy file).1) = true.
Proof. vm_compute. reflexivity. Qed.
End ToyWallet.
