(* ===== verification/WalletClient.v ===== *)
(** WalletClient: the requests of the wallet to a node ([stryi_wallet/src/api_client.rs]), the
    wait for a confirmation ([tx_wait.rs]), the commands that use them ([cmd.rs]) and the
    classification of identifiers ([main.rs]). The HTTP stack, JSON and the clock are classes;
    terminal output is what a command answers. *)
From S2P Require Import Prelude Bytes Types Externals Hashing Transactions Wallet Accounts Http WalletFile.
From Stdlib Require Import Ascii.
#[local] Open Scope Z_scope.

(** * Data of the API that differ from the node's own *)

Record BlockQueryResponse := mk_BlockQueryResponse { bq_hash : string; bq_block : Json }.

Record TransactionQueryReply := mk_TransactionQueryReply {
  status : TransactionQueryStatus;
  reply_tx_hash : TransactionHash;
  reply_transaction : TransactionResponse;
  reply_block_hash : option string;
  reply_block_height : option Z;
  reply_tx_index : option Z;
}.

(** * Third-party interfaces *)

(** A response: its status, and its text unless reading it fails. *)
Record Response := mk_Response { response_status : Z; response_text : option string }.

(** [reqwest]: a request changes the world it is sent to. *)
Class HttpClient (W : Type) := {
  http_get : string -> W -> result string Response * W;
  http_post : string -> string -> W -> result string Response * W;
  canonical_reason : Z -> string;
}.

(** The JSON texts of the API. *)
Class ApiJson := {
  balance_from : string -> result string AddressBalanceResponse;
  nodestate_from : string -> result string NodeStateBody;
  block_query_from : string -> result string BlockQueryResponse;
  transaction_from : string -> result string TransactionQueryReply;
  send_request : string -> string;
  block_from_value : Json -> result string Block;
}.

(** The clock of the world, in nanoseconds, and [tokio::time::sleep]. *)
Class Clock (W : Type) := { now : W -> Z; sleep : Z -> W -> W }.

Definition milliseconds (n : Z) : Z := n * 1000000.

(** * Client actions *)

Section Client.
Context {X : Externals} {K : KeyBytes} {J : WalletJson} {HC : HttpCodecs} {AJ : ApiJson}.
Context {W : Type} {HW : HttpClient W} {CW : Clock W}.

Definition ClientIO (A : Type) : Type := W -> result string A * W.

#[export] Instance client_ret : MRet ClientIO := fun A a w => (Ok a, w).
#[export] Instance client_bind : MBind ClientIO := fun A B k m w =>
  match m w with
  | (Ok a, w') => k a w'
  | (Err e, w') => (Err e, w')
  end.

Definition return_result {A} (r : result string A) : ClientIO A := fun w => (r, w).
Definition context {A} (text : string) (m : ClientIO A) : ClientIO A := fun w =>
  let '(r, w) := m w in (map_err (fun _ => text) r, w).
Definition pause (duration : Z) : ClientIO unit := fun w => (Ok tt, sleep duration w).

(** ** [NodeClient] *)

(** [trim_end_matches('/')] *)
Fixpoint trim_slashes (s : string) : string :=
  match s with
  | EmptyString => EmptyString
  | String c s =>
      let s := trim_slashes s in
      if Ascii.eqb c "/"%char && String.eqb s "" then "" else String c s
  end.

(** [NodeClient::new]: the base URL. *)
Definition NodeClient_new (base_url : string) : string := trim_slashes base_url.

Definition is_success (status : Z) : bool := (200 <=? status) && (status <? 300).

(** [Display] of a status. *)
Definition status_to_string (status : Z) : string := u64_to_string status +:+ " " +:+ canonical_reason status.

Definition ensure_success (response : Response) (method url : string) : result string Response :=
  if is_success (response_status response) then Ok response
  else Err (method +:+ " " +:+ url +:+ " returned " +:+ status_to_string (response_status response) +:+ ": " +:+
            default "" (response_text response)).

(** [Response::json] *)
Definition json {A} (from : string -> result string A) (response : Response) : result string A :=
  text ← ok_or (response_text response) "error decoding response body"; from text.

(** A GET request and the JSON of its answer. *)
Definition get_json {A} (url : string) (from : string -> result string A) (text : string) : ClientIO A :=
  response ← context "failed to connect to node" (http_get url);
  response ← return_result (ensure_success response "GET" url);
  context text (return_result (json from response)).

Definition balance_url (base_url address : string) : string := base_url +:+ "/api/address/" +:+ address +:+ "/balance".
Definition transaction_url (base_url tx_hash : string) : string := base_url +:+ "/api/tx/" +:+ tx_hash.
Definition send_url (base_url : string) : string := base_url +:+ "/api/tx".

Definition client_get_balance (base_url address : string) : ClientIO AddressBalanceResponse :=
  get_json (balance_url base_url address) balance_from "failed to parse balance response".

Definition client_get_nodestate (base_url : string) : ClientIO NodeStateBody :=
  get_json (base_url +:+ "/api/nodestate") nodestate_from "failed to parse nodestate response".

Definition client_get_block (base_url identifier : string) : ClientIO BlockQueryResponse :=
  get_json (base_url +:+ "/api/block/" +:+ identifier) block_query_from "failed to parse block response".

Definition client_get_transaction (base_url tx_hash : string) : ClientIO TransactionQueryReply :=
  get_json (transaction_url base_url tx_hash) transaction_from "failed to parse transaction response".

Definition send_transaction (base_url raw_tx_base64 : string) : ClientIO string :=
  response ← context "failed to connect to node" (http_post (send_url base_url) (send_request raw_tx_base64));
  response ← return_result (ensure_success response "POST" (send_url base_url));
  return_result (ok_or (response_text response) "failed to read send_transaction response").

(** ** Waiting for a confirmation ([tx_wait.rs]) *)

Definition TX_CONFIRMATION_POLL_INTERVAL : Z := milliseconds 1000.
Definition TX_CONFIRMATION_TIMEOUT : Z := milliseconds 30000.

(** [str::contains] *)
Fixpoint str_contains (s part : string) : bool :=
  String.prefix part s || match s with EmptyString => false | String _ s => str_contains s part end.

Definition is_transaction_not_found (error : string) : bool := str_contains error "returned 404".

Definition timed_out (started : Z) (w : W) : bool := TX_CONFIRMATION_TIMEOUT <=? now w - started.

(** What the loop makes of an answer: nothing, which means another round, or its own end. *)
Definition wait_verdict (started : Z) (response : result string TransactionQueryReply) (w : W) :
    option (result string TransactionQueryReply) :=
  match response with
  | Ok response =>
      match status response with
      | Confirmed => Some (Ok response)
      | Pending => if timed_out started w then Some (Err "timed out waiting for transaction {} confirmation after {:?}") else None
      end
  | Err e =>
      if is_transaction_not_found e then
        if timed_out started w then Some (Err "timed out waiting for transaction {} confirmation after {:?}") else None
      else Some (Err "failed to fetch transaction {} while waiting for confirmation: {e}")
  end.

(** The loop; [None] is the exhaustion of the fuel, which [wait_ends] excludes. *)
Fixpoint wait_loop (fuel : nat) (base_url tx_hash_str : string) (started : Z) (w : W) :
    option (result string TransactionQueryReply * W) :=
  match fuel with
  | O => None
  | S fuel =>
      let '(response, w) := client_get_transaction base_url tx_hash_str w in
      match wait_verdict started response w with
      | Some r => Some (r, w)
      | None => wait_loop fuel base_url tx_hash_str started (sleep TX_CONFIRMATION_POLL_INTERVAL w)
      end
  end.

(** One poll at once and one after each second of the timeout. *)
Definition wait_fuel : nat := 31.

Definition wait_for_tx_confirmation (base_url : string) (tx_hash : TransactionHash) : ClientIO TransactionQueryReply := fun w =>
  default (Err "out of fuel", w) (wait_loop wait_fuel base_url (Hash_to_string tx_hash) (now w) w).

(** ** Payments ([cmd_send]) *)

(** [serialize_for_submission] *)
Definition serialize_for_submission (tx : Transaction) : string := base64_encode (postcard_tx tx).

Definition spendable (u : UtxoEntry) : SpendableUtxo := mk_SpendableUtxo (mk_OutPoint (ue_txid u) (ue_vout u)) (ue_value u).

(** The balances shown after a confirmation: [from], then [to]. *)
Fixpoint report_balances (base_url : string) (addresses : list AccountAddress) (balance_failed : bool) : ClientIO bool :=
  match addresses with
  | [] => mret balance_failed
  | address :: addresses => fun w =>
      let '(r, w) := client_get_balance base_url (Hash_to_string address) w in
      report_balances base_url addresses (balance_failed || negb (is_ok r)) w
  end.

Definition confirm_transaction_and_print_balances (base_url : string) (tx_hash : TransactionHash)
    (from to : AccountAddress) : ClientIO unit :=
  _ ← wait_for_tx_confirmation base_url tx_hash;
  _ ← pause (milliseconds 500);
  _ ← pause (milliseconds 1000);
  balance_failed ← report_balances base_url [from; to] false;
  if (balance_failed : bool)
  then return_result (Err "transaction {} was confirmed, but one or more balance queries failed")
  else mret tt.

(** [cmd_send], on the file of the keys: it only reads the file. *)
Definition cmd_send (d : DiskFaults) (file : option string) (node_url : string) (from to : AccountAddress)
    (amount : Z) (wait : bool) : ClientIO unit :=
  let from_str := Hash_to_string from in
  wallet ← return_result (require_wallet d file).1;
  key_entry ← return_result (find_key_by_address wallet from_str);
  let client := NodeClient_new node_url in
  balance_resp ← client_get_balance client from_str;
  if bool_decide (ab_utxos balance_resp = []) then return_result (Err "no UTXOs available for address {}")
  else
    let available := spendable <$> ab_utxos balance_resp in
    tx ← return_result (build_payment (into_inner (private_key key_entry)) available to amount FeePolicy_default);
    _ ← send_transaction client (serialize_for_submission tx);
    if (wait : bool) then confirm_transaction_and_print_balances client (tx_hash (tx_data tx)) from to else mret tt.

(** ** Queries *)

(** The rows of [cmd_balance_all]: a failed query is a row of its own. *)
Fixpoint balance_rows (base_url : string) (l : list KeyEntry) (w : W) : list (string * result string Z) * W :=
  match l with
  | [] => ([], w)
  | key :: l =>
      let '(r, w) := client_get_balance base_url (address key) w in
      let '(rows, w) := balance_rows base_url l w in
      ((label key, ab_balance <$> r) :: rows, w)
  end.

Definition cmd_balance_all (d : DiskFaults) (file : option string) (node_url : string) : ClientIO (list (string * result string Z)) :=
  wallet ← return_result (require_wallet d file).1;
  (fun w => let '(rows, w) := balance_rows (NodeClient_new node_url) (keys wallet) w in (Ok rows, w)) : ClientIO _.

Definition cmd_nodestate (node_url : string) : ClientIO NodeStateBody := client_get_nodestate (NodeClient_new node_url).

(** The loop of the commands that take several identifiers: one answer each, whatever becomes of
    the others. *)
Fixpoint query_many {A} (query : string -> ClientIO A) (identifiers : list string) (w : W) : list (string * result string A) * W :=
  match identifiers with
  | [] => ([], w)
  | raw :: identifiers =>
      let '(r, w) := query raw w in
      let '(rest, w) := query_many query identifiers w in
      ((raw, r) :: rest, w)
  end.

(** Whether such a command succeeds: no query failed. *)
Definition batch_result {A} (text : string) (answers : list (string * result string A)) : result string unit :=
  ensure (forallb (fun a => is_ok a.2) answers) text.

Definition balance_query (node_url raw : string) : ClientIO AddressBalanceResponse :=
  address ← return_result (map_err (fun _ => "invalid address") (from_hash_string AddressHasher raw));
  client_get_balance (NodeClient_new node_url) (Hash_to_string address).

Definition cmd_balance_many (node_url : string) (addresses : list string) : ClientIO unit := fun w =>
  let '(answers, w) := query_many (balance_query node_url) addresses w in
  (batch_result "one or more balance queries failed: {}" answers, w).

(** [shorten_middle] ([output.rs]): how hashes and addresses are shown. *)
Definition shorten_middle (value : string) : string :=
  let HEAD := 12%nat in
  let TAIL := 8%nat in
  if (String.length value <=? HEAD + TAIL + 1)%nat then value
  else str_take value HEAD +:+ "..." +:+ str_from value (String.length value - TAIL).

(** ** Identifiers ([classify_identifier]) *)

Inductive QueryId := Height (h : Z) | BlockHashId (s : string) | TxHashId (s : string) | Unknown (s : string).

Definition classify_identifier (input : string) : QueryId :=
  match parse_u64 input with
  | Some h => Height h
  | None =>
      if starts_with input "Bx" then BlockHashId input
      else if starts_with input "Tx" then TxHashId input
      else Unknown input
  end.

Definition block_query_from_identifier (identifier : string) : result string string :=
  match classify_identifier identifier with
  | TxHashId _ => Err "'{}' is a transaction hash. Use `tx {}` instead."
  | Unknown _ => Err "unrecognized identifier '{}'. Expected a block height (e.g. 42) or block hash (Bx...)"
  | Height h => Ok (u64_to_string h)
  | BlockHashId h => _ ← map_err (fun _ => "invalid block hash") (from_hash_string BlockHashKind h); mret h
  end.

Definition block_query (node_url identifier : string) : ClientIO (string * Block) :=
  query ← return_result (block_query_from_identifier identifier);
  resp ← client_get_block (NodeClient_new node_url) query;
  block ← context "failed to deserialize block data" (return_result (block_from_value (bq_block resp)));
  mret (bq_hash resp, block).

Definition cmd_block_many (node_url : string) (identifiers : list string) : ClientIO unit := fun w =>
  let '(answers, w) := query_many (block_query node_url) identifiers w in
  (batch_result "one or more block queries failed: {}" answers, w).

Definition tx_query (node_url identifier : string) : ClientIO TransactionQueryReply :=
  tx_hash ← return_result (map_err (fun _ => "invalid transaction hash") (from_hash_string TransactionHasher identifier));
  client_get_transaction (NodeClient_new node_url) (Hash_to_string tx_hash).

Definition cmd_tx_many (node_url : string) (identifiers : list string) : ClientIO unit := fun w =>
  let '(answers, w) := query_many (tx_query node_url) identifiers w in
  (batch_result "one or more tx queries failed: {}" answers, w).
End Client.

(** * The wait ends *)

(** Time does not run backwards, and a sleep lasts at least as long as it should. *)
Class ClockLaws (W : Type) `{HttpClient W} `{Clock W} : Prop := {
  get_takes_time url w : now w <= now (http_get url w).2;
  sleep_lasts duration w : now w + duration <= now (sleep duration w);
}.

Section Wait.
Context {X : Externals} {AJ : ApiJson} {W : Type} `{HW : HttpClient W} `{CW : Clock W} `{!ClockLaws W}.
Variables (base_url : string) (tx_hash : TransactionHash).
Implicit Types (w : W).

(** What the node answers, and the world after it. *)
Abbreviation poll := (client_get_transaction base_url (Hash_to_string tx_hash)).

(** The world at each poll, when no earlier one ends the wait. *)
Definition rounds (n : nat) w : W := Nat.iter n (fun w => sleep TX_CONFIRMATION_POLL_INTERVAL (poll w).2) w.

(** The node knows the transaction as pending, or not at all. *)
Definition unconfirmed (answer : result string TransactionQueryReply) : Prop :=
  match answer with Ok reply => status reply = Pending | Err e => is_transaction_not_found e = true end.

Lemma poll_takes_time w : now w <= now (poll w).2.
Proof.
  unfold client_get_transaction, get_json, mbind, client_bind, context.
  pose proof (get_takes_time (transaction_url base_url (Hash_to_string tx_hash)) w) as Ht.
  destruct (http_get _ w) as [[response|e] w']; cbn [map_err snd] in *; [|done].
  unfold return_result. destruct (ensure_success _ _ _); done.
Qed.

Lemma rounds_shift n w : rounds (S n) w = rounds n (sleep TX_CONFIRMATION_POLL_INTERVAL (poll w).2).
Proof. unfold rounds. by rewrite Nat.iter_succ_r. Qed.

Lemma verdict_None started answer w :
  wait_verdict started answer w = None <-> unconfirmed answer /\ now w - started < TX_CONFIRMATION_TIMEOUT.
Proof.
  unfold wait_verdict, unconfirmed, timed_out. destruct answer as [reply|e].
  - destruct (status reply); [|naive_solver]. destruct (Z.leb_spec TX_CONFIRMATION_TIMEOUT (now w - started)); naive_solver lia.
  - destruct (is_transaction_not_found e); [|naive_solver].
    destruct (Z.leb_spec TX_CONFIRMATION_TIMEOUT (now w - started)); naive_solver lia.
Qed.

Lemma verdict_Some started answer w r :
  wait_verdict started answer w = Some r ->
  match r with
  | Ok reply => answer = Ok reply /\ status reply = Confirmed
  | Err _ => (exists e, answer = Err e /\ is_transaction_not_found e = false) \/
             (unconfirmed answer /\ TX_CONFIRMATION_TIMEOUT <= now w - started)
  end.
Proof.
  unfold wait_verdict, unconfirmed, timed_out. intros Hv. destruct answer as [reply|e].
  - destruct (status reply) eqn:Hs; [|by injection Hv as <-]. destruct (Z.leb_spec TX_CONFIRMATION_TIMEOUT (now w - started)); [|done].
    injection Hv as <-. by right.
  - destruct (is_transaction_not_found e) eqn:He; [|injection Hv as <-; left; by exists e].
    destruct (Z.leb_spec TX_CONFIRMATION_TIMEOUT (now w - started)); [|done]. injection Hv as <-. by right.
Qed.

(** With the time passed so far, the fuel left is enough. *)
Lemma wait_loop_ends fuel started w :
  TX_CONFIRMATION_TIMEOUT <= now w - started + Z.of_nat fuel * TX_CONFIRMATION_POLL_INTERVAL ->
  exists n r, (n <= fuel)%nat /\
    wait_loop (S fuel) base_url (Hash_to_string tx_hash) started w = Some (r, (poll (rounds n w)).2) /\
    (forall i, (i < n)%nat -> wait_verdict started (poll (rounds i w)).1 (poll (rounds i w)).2 = None) /\
    wait_verdict started (poll (rounds n w)).1 (poll (rounds n w)).2 = Some r.
Proof.
  revert w. induction fuel as [|fuel IH]; intros w Hf; cbn [wait_loop]; pose proof (poll_takes_time w) as Ht;
    destruct (poll w) as [answer w1] eqn:Hp; cbn [snd] in Ht; destruct (wait_verdict started answer w1) as [r|] eqn:Hv.
  - exists 0%nat, r. cbn [rounds Nat.iter nat_rect]. change (rounds 0 w) with w. rewrite Hp. split_and!; [lia|done|lia|done].
  - exfalso. apply verdict_None in Hv as [_ Hv]. lia.
  - exists 0%nat, r. change (rounds 0 w) with w. rewrite Hp. split_and!; [lia|done|lia|done].
  - pose proof (sleep_lasts TX_CONFIRMATION_POLL_INTERVAL w1) as Hs.
    destruct (IH (sleep TX_CONFIRMATION_POLL_INTERVAL w1)) as (n & r & Hn & Hw & Hno & Hr); [lia|].
    exists (S n), r. rewrite rounds_shift, Hp. cbn [snd]. split_and!; [lia|exact Hw| |exact Hr].
    intros [|i] Hi; [change (rounds 0 w) with w; by rewrite Hp|]. rewrite rounds_shift, Hp. cbn [snd]. apply Hno. lia.
Qed.

(** C31: Waiting for a confirmation ends within thirty-one polls, whatever the node answers. Every
    poll but the last found the transaction pending or unknown. The wait succeeds only with the
    answer of a last poll that found it confirmed; it fails only when the last poll failed in
    another way, or found it unconfirmed after thirty seconds. *)
Theorem wait_ends w :
  exists n r w', (n < wait_fuel)%nat /\ wait_loop wait_fuel base_url (Hash_to_string tx_hash) (now w) w = Some (r, w') /\
    wait_for_tx_confirmation base_url tx_hash w = (r, w') /\ w' = (poll (rounds n w)).2 /\
    (forall i, (i < n)%nat -> unconfirmed (poll (rounds i w)).1) /\
    match r with
    | Ok reply => (poll (rounds n w)).1 = Ok reply /\ status reply = Confirmed
    | Err _ => (exists e, (poll (rounds n w)).1 = Err e /\ is_transaction_not_found e = false) \/
               (unconfirmed (poll (rounds n w)).1 /\ TX_CONFIRMATION_TIMEOUT <= now w' - now w)
    end.
Proof.
  destruct (wait_loop_ends 30 (now w) w) as (n & r & Hn & Hw & Hno & Hr).
  { unfold TX_CONFIRMATION_TIMEOUT, TX_CONFIRMATION_POLL_INTERVAL, milliseconds. lia. }
  exists n, r, (poll (rounds n w)).2. unfold wait_for_tx_confirmation. change wait_fuel with 31%nat. rewrite Hw.
  split_and!; [lia|done|done|done| |].
  - intros i Hi. by apply (verdict_None (now w) _ (poll (rounds i w)).2), Hno.
  - by apply verdict_Some in Hr.
Qed.
End Wait.

(** * A world that confirms after some time *)

Module ToyWorld.
Import Toy.

(** The world is the time since the start; every request takes a tenth of a second. *)
Definition toy_reply : TransactionQueryReply :=
  let d := mk_TransactionData 0 Payment [] [] in
  mk_TransactionQueryReply Confirmed (tx_hash (X := externals) d)
    (mk_TransactionResponse (mk_TransactionDataResponse 0 KindPayment [] []) "") (Some "Bx00") (Some 1) (Some 0).

Definition refuse {A} (text : string) : result string A := Err "unexpected".

#[export] Instance toy_api : ApiJson := {|
  balance_from := refuse;
  nodestate_from := refuse;
  block_query_from := refuse;
  transaction_from text := if String.eqb text "confirmed" then Ok toy_reply else Err "unexpected";
  send_request raw := raw;
  block_from_value _ := Err "unexpected";
|}.

(** The node confirms at a given time, if at all. *)
Definition toy_http (confirmed_at : Z) : HttpClient Z := {|
  http_get url w :=
    (Ok (if confirmed_at <=? w then mk_Response 200 (Some "confirmed") else mk_Response 404 (Some "unknown")), w + milliseconds 100);
  http_post url body w := (Err "closed", w);
  canonical_reason status := if status =? 404 then "Not Found" else "";
|}.

#[export] Instance toy_clock : Clock Z := {| now w := w; sleep duration w := w + duration |}.

Lemma toy_clock_laws confirmed_at : @ClockLaws Z (toy_http confirmed_at) toy_clock.
Proof. split; intros; cbn; unfold milliseconds; lia. Qed.

(** The outcome and the time of a wait for some transaction. *)
Definition toy_wait (confirmed_at : Z) : result string TransactionQueryReply * Z :=
  wait_for_tx_confirmation (HW := toy_http confirmed_at) "http://node" (tx_hash (X := externals) (mk_TransactionData 0 Payment [] [])) 0.

Lemma wait_ends_witness :
  exists n r w', (n < wait_fuel)%nat /\ toy_wait (milliseconds 3000) = (r, w').
Proof.
  destruct (@wait_ends externals toy_api Z (toy_http (milliseconds 3000)) toy_clock (toy_clock_laws _) "http://node"
              (tx_hash (X := externals) (mk_TransactionData 0 Payment [] [])) 0) as (n & r & w' & Hn & _ & Hw & _).
  exists n, r, w'. split; [exact Hn|exact Hw].
Defined.

(** Confirmed by the fourth poll; never confirmed, the wait is given up at the twenty-ninth, the
    first after thirty seconds. *)
Lemma wait_examples :
  let '(r1, t1) := toy_wait (milliseconds 3000) in
  let '(r2, t2) := toy_wait (milliseconds 99000) in
  is_ok r1 && (t1 =? milliseconds 3400) && negb (is_ok r2) && (t2 =? milliseconds 30900) = true.
Proof. vm_compute. reflexivity. Qed.
End ToyWorld.
