(* ===== verification/Repl.v ===== *)
(** Repl: the interactive mode of the wallet ([stryi_wallet/src/repl.rs]): completion, prompts,
    the arguments of the commands and their dispatch; and its command line ([main.rs]). Terminal output, colours and the history
    file are left out; what the user types is ASCII text. *)
From S2P Require Import Prelude Bytes Types Externals Hashing Transactions Wallet Accounts Http WalletFile WalletClient.
From Stdlib Require Import Ascii.
#[local] Open Scope Z_scope.

(** * Text *)

(** [char::is_whitespace] on ASCII. *)
Definition is_whitespace (c : ascii) : bool :=
  let n := nat_of_ascii c in ((9 <=? n) && (n <=? 13) || (n =? 32))%nat.

Fixpoint trim_start (s : string) : string :=
  match s with
  | String c rest => if is_whitespace c then trim_start rest else s
  | EmptyString => EmptyString
  end.

Fixpoint trim_end (s : string) : string :=
  match s with
  | String c rest => let rest := trim_end rest in if is_whitespace c && String.eqb rest "" then "" else String c rest
  | EmptyString => EmptyString
  end.

Definition trim (s : string) : string := trim_start (trim_end s).

(** [split_whitespace], with the word read so far. *)
Fixpoint split_words (word s : string) : list string :=
  match s with
  | EmptyString => if String.eqb word "" then [] else [word]
  | String c s =>
      if is_whitespace c then (if String.eqb word "" then [] else [word]) ++ split_words "" s
      else split_words (word +:+ String c "") s
  end.
Definition split_whitespace (s : string) : list string := split_words "" s.

(** [to_lowercase] on ASCII. *)
Fixpoint to_lowercase (s : string) : string :=
  match s with
  | EmptyString => EmptyString
  | String c s =>
      let n := nat_of_ascii c in
      String (if ((65 <=? n) && (n <=? 90))%nat then ascii_of_nat (n + 32) else c) (to_lowercase s)
  end.

(** * Completion and suggestions *)

Definition REPL_COMMANDS : list string :=
  ["init"; "generate"; "import"; "list"; "keys"; "delete"; "rename"; "balance"; "send"; "block"; "tx"; "nodestate"; "help";
   "clear"; "exit"].

(** [hint] *)
Definition hint (line : string) (pos : nat) : option string :=
  let prefix := str_take line pos in
  if (pos =? 0)%nat || str_contains prefix " " then None
  else (fun found => str_from found.2 pos) <$> list_find (fun c => starts_with c prefix = true /\ c <> prefix) REPL_COMMANDS.

(** [complete] *)
Definition complete (line : string) (pos : nat) : nat * list string :=
  let prefix := str_take line pos in
  if str_contains prefix " " then (pos, [])
  else if String.eqb prefix "" then (0%nat, [])
  else
    let matches := filter (fun c => starts_with c prefix = true) REPL_COMMANDS in
    (0%nat, if bool_decide (matches = []) then filter (fun c => str_contains c prefix = true) REPL_COMMANDS else matches).

(** [strsim::levenshtein] *)
Class StrSim := { levenshtein : string -> string -> nat }.

Definition closer `{StrSim} (input : string) (best : option (string * nat)) (cmd : string) : option (string * nat) :=
  let dist := levenshtein input cmd in
  if ((dist <=? 2) && match best with None => true | Some b => dist <? b.2 end)%nat then Some (cmd, dist) else best.

Definition fuzzy_suggest `{StrSim} (input : string) : option string := fst <$> foldl (closer input) None REPL_COMMANDS.

(** * Arguments of [send] *)

Definition wait_flags : list string := ["wait"; "--wait"; "--wait-for-confirmation"].
Definition no_wait_flags : list string := ["no-wait"; "--no-wait"; "--no-wait-for-confirmation"].

(** The loop over the arguments. *)
Definition send_arg (acc : list string * option bool) (value : string) : result string (list string * option bool) :=
  let '(positionals, wait_override) := acc in
  if bool_decide (value ∈ wait_flags) then
    (if bool_decide (wait_override = Some false) then Err "conflicting confirmation flags. Use only one of `--wait` or `--no-wait`."
     else Ok (positionals, Some true))
  else if bool_decide (value ∈ no_wait_flags) then
    (if bool_decide (wait_override = Some true) then Err "conflicting confirmation flags. Use only one of `--wait` or `--no-wait`."
     else Ok (positionals, Some false))
  else Ok (positionals ++ [value], wait_override).

Definition parse_send_args (values : list string) : result string (list string * bool) :=
  acc ← fold_res send_arg ([], None) values;
  let '(positionals, wait_override) := acc in
  if (3 <? length positionals)%nat then Err "unexpected extra argument '{}'. Usage: send [from] [to] [amount]"
  else Ok (positionals, default true wait_override).

(** * Commands *)

Section Repl.
Context {X : Externals} {K : KeyBytes} {J : WalletJson} {HC : HttpCodecs} {AJ : ApiJson}.
Context {W : Type} {HW : HttpClient W} {CW : Clock W}.

(** The lines that standard input still has, the content of the wallet file and the world. *)
Record ReplState := mk_ReplState { input : list string; file : option string; world : W }.

Definition ReplIO (A : Type) : Type := ReplState -> result string A * ReplState.

#[export] Instance repl_ret : MRet ReplIO := fun A a st => (Ok a, st).
#[export] Instance repl_bind : MBind ReplIO := fun A B k m st =>
  match m st with
  | (Ok a, st') => k a st'
  | (Err e, st') => (Err e, st')
  end.

Definition from_result {A} (r : result string A) : ReplIO A := fun st => (r, st).

Definition on_file {A} (m : WalletIO A) : ReplIO A := fun st =>
  let '(r, file) := m (file st) in (r, mk_ReplState (input st) file (world st)).

Definition on_world {A} (m : ClientIO (W := W) A) : ReplIO A := fun st =>
  let '(r, w) := m (world st) in (r, mk_ReplState (input st) (file st) w).

(** An action on the world that also reads the file. *)
Definition with_file {A} (m : option string -> ClientIO (W := W) A) : ReplIO A := fun st => on_world (m (file st)) st.

(** [stdin().read_line]: nothing at the end of the input. *)
Definition read_line : ReplIO string := fun st =>
  match input st with
  | [] => (Ok "", st)
  | line :: rest => (Ok line, mk_ReplState rest (file st) (world st))
  end.

Context (d : DiskFaults).

(** ** Prompts *)

Definition prompt_line (default : option string) : ReplIO string :=
  buf ← read_line;
  let val := trim buf in
  if String.eqb val "" then from_result (ok_or default "{} is required") else mret val.

Definition prompt_confirm : ReplIO bool :=
  buf ← read_line;
  mret (bool_decide (to_lowercase (trim buf) ∈ ["y"; "yes"])).

(** [wallet_address_from_selection]: the address of a key by its number. *)
Definition wallet_address_from_selection (file : option string) (input : string) : option string :=
  match (load_wallet d file).1 with
  | Ok wallet =>
      idx ← parse_u64 input;
      offset ← checked_sub idx 1;
      address <$> keys wallet !! Z.to_nat offset
  | Err _ => None
  end.

Definition prompt_select_address : ReplIO string := fun st =>
  match (load_wallet d (file st)).1 with
  | Ok wallet =>
      if bool_decide (keys wallet = []) then prompt_line None st
      else
        (input ← prompt_line None;
         mret (default input (wallet_address_from_selection (file st) input))) st
  | Err _ => prompt_line None st
  end.

(** ** [CommandInput] *)

Definition value (values : list string) (index : nat) (default : option string) : ReplIO string :=
  match values !! index with
  | Some value => mret value
  | None => prompt_line default
  end.

Definition wallet_address (values : list string) (index : nat) (invalid_msg : string) : ReplIO (string * AccountAddress) := fun st =>
  (raw ← match values !! index with
         | Some value => mret (default value (wallet_address_from_selection (file st) value))
         | None => prompt_select_address
         end;
   address ← from_result (map_err (fun _ => invalid_msg) (from_hash_string AddressHasher raw));
   mret (raw, address)) st.

(** [CommandInput::parse] of an amount. *)
Definition parse_amount (values : list string) (index : nat) : ReplIO Z :=
  raw ← value values index None;
  from_result (ok_or (parse_u64 raw) "invalid amount: {e}").

(** ** Handlers *)

Definition handle_generate (values : list string) (signing_key : SigningKey) : ReplIO unit :=
  label ← value values 0 (Some "default");
  on_file (cmd_generate d label signing_key).

Definition handle_import (values : list string) : ReplIO unit :=
  key ← value values 0 None;
  label ← value values 1 (Some "imported");
  on_file (cmd_import d key label).

Definition handle_delete (values : list string) : ReplIO unit :=
  found ← wallet_address values 0 "invalid address";
  confirmed ← prompt_confirm;
  if (confirmed : bool) then on_file (cmd_delete d found.2) else mret tt.

Definition handle_rename (values : list string) : ReplIO unit :=
  found ← wallet_address values 0 "invalid address";
  new_label ← value values 1 None;
  on_file (cmd_rename d found.2 new_label).

Definition handle_send (node_url : string) (values : list string) : ReplIO unit :=
  args ← from_result (parse_send_args values);
  let '(positionals, wait_for_confirmation) := args in
  from ← wallet_address positionals 0 "invalid 'from' address";
  to ← wallet_address positionals 1 "invalid 'to' address";
  amount ← parse_amount positionals 2;
  _ ← (fun st => let '(_, w) := client_get_balance (NodeClient_new node_url) from.1 (world st) in
                 (Ok tt, mk_ReplState (input st) (file st) w)) : ReplIO unit;
  confirmed ← prompt_confirm;
  if (confirmed : bool)
  then with_file (fun file => cmd_send d file node_url from.2 to.2 amount wait_for_confirmation)
  else mret tt.

Definition handle_balance (node_url : string) (values : list string) : ReplIO unit :=
  if bool_decide (values = [])
  then (_ ← with_file (fun file => cmd_balance_all d file node_url); mret tt)
  else on_world (cmd_balance_many node_url values).

Definition handle_block (node_url : string) (values : list string) : ReplIO unit :=
  ids ← (if bool_decide (values = []) then (id ← value values 0 None; mret [id]) else mret values);
  on_world (cmd_block_many node_url ids).

Definition handle_tx (node_url : string) (values : list string) : ReplIO unit :=
  ids ← (if bool_decide (values = []) then (id ← value values 0 None; mret [id]) else mret values);
  on_world (cmd_tx_many node_url ids).

(** [dispatch_repl]: whether to exit. [signing_key] is the random key that a command may draw;
    help and suggestions are only printed. *)
Definition dispatch_repl (node_url line : string) (signing_key : SigningKey) : ReplIO bool :=
  match split_whitespace line with
  | [] => mret false
  | cmd :: args =>
      if bool_decide (cmd ∈ ["exit"; "quit"; "q"]) then mret true
      else
        _ ← (if bool_decide (cmd = "help") then mret tt
             else if bool_decide (cmd = "init") then on_file (cmd_init d signing_key)
             else if bool_decide (cmd = "generate") then handle_generate args signing_key
             else if bool_decide (cmd = "import") then handle_import args
             else if bool_decide (cmd = "list") then (_ ← on_file (cmd_list d false); mret tt)
             else if bool_decide (cmd = "keys") then (_ ← on_file (cmd_list d true); mret tt)
             else if bool_decide (cmd = "rename") then handle_rename args
             else if bool_decide (cmd = "delete") then handle_delete args
             else if bool_decide (cmd = "balance") then handle_balance node_url args
             else if bool_decide (cmd = "send") then handle_send node_url args
             else if bool_decide (cmd = "block") then handle_block node_url args
             else if bool_decide (cmd = "tx") then handle_tx node_url args
             else if bool_decide (cmd = "nodestate") then (_ ← on_world (cmd_nodestate node_url); mret tt)
             else mret tt : ReplIO unit);
        mret false
  end.

(** * The command line ([main.rs]) *)

Inductive Command :=
| CmdInit
| CmdGenerate (label : string)
| CmdImport (key label : string)
| CmdList (show_keys : bool)
| CmdBalance (addresses : list string)
| CmdSend (from to : string) (amount : Z) (wait : bool)
| CmdDelete (address : string)
| CmdRename (address label : string)
| CmdBlock (ids : list string)
| CmdTx (ids : list string)
| CmdNodeState.

(** An address among the arguments. *)
Definition address_argument (raw invalid_msg : string) : ReplIO AccountAddress :=
  from_result (map_err (fun _ => invalid_msg) (from_hash_string AddressHasher raw)).

(** [main], once the arguments are parsed: a command without the interactive mode. *)
Definition run_main (node_url : string) (cmd : Command) (signing_key : SigningKey) : ReplIO unit :=
  match cmd with
  | CmdInit => on_file (cmd_init d signing_key)
  | CmdGenerate label => on_file (cmd_generate d label signing_key)
  | CmdImport key label => on_file (cmd_import d key label)
  | CmdList show_keys => _ ← on_file (cmd_list d show_keys); mret tt
  | CmdBalance addresses => handle_balance node_url addresses
  | CmdDelete address => addr ← address_argument address "invalid address"; on_file (cmd_delete d addr)
  | CmdRename address label => addr ← address_argument address "invalid address"; on_file (cmd_rename d addr label)
  | CmdBlock ids => on_world (cmd_block_many node_url ids)
  | CmdTx ids => on_world (cmd_tx_many node_url ids)
  | CmdSend from to amount wait =>
      from_addr ← address_argument from "invalid 'from' address";
      to_addr ← address_argument to "invalid 'to' address";
      with_file (fun file => cmd_send d file node_url from_addr to_addr amount wait)
  | CmdNodeState => _ ← on_world (cmd_nodestate node_url); mret tt
  end.
End Repl.

(** ** The session *)

(** What [rustyline] gives for a prompt. *)
Inductive Readline := Line (line : string) | Interrupted | ReadFailed.

Section Session.
Context {X : Externals} {K : KeyBytes} {J : WalletJson} {HC : HttpCodecs} {AJ : ApiJson}.
Context {W : Type} {HW : HttpClient W} {CW : Clock W}.

(** The loop of [run_interactive]: each prompt with the faults of the disk and the random key of
    its command. A failed command is reported and the loop goes on. *)
Fixpoint run_interactive (node_url : string) (prompts : list (Readline * DiskFaults * SigningKey)) (st : ReplState (W := W)) : ReplState (W := W) :=
  match prompts with
  | [] => st
  | (Line line, d, signing_key) :: prompts =>
      let line := trim line in
      if bool_decide (line ∈ [""; "clear"; "cls"]) then run_interactive node_url prompts st
      else
        let '(r, st) := dispatch_repl d node_url line signing_key st in
        match r with
        | Ok true => st
        | _ => run_interactive node_url prompts st
        end
  | (Interrupted, _, _) :: prompts => run_interactive node_url prompts st
  | (ReadFailed, _, _) :: _ => st
  end.
End Session.

(** * What the commands do to the file of the keys *)

Section ReplFile.
Context {X : Externals} {K : KeyBytes} {J : WalletJson} {HC : HttpCodecs} {AJ : ApiJson}.
Context {W : Type} {HW : HttpClient W} {CW : Clock W} (d : DiskFaults).
Implicit Types (st : ReplState (W := W)).

(** A confirmation among the lines read. *)
Definition confirms (line : string) : Prop := to_lowercase (trim line) ∈ ["y"; "yes"].

(** An action leaves the file alone, or does to it what one command does; a deletion was
    confirmed by a line that the action has read. *)
Definition at_most_one {A} (m : ReplIO (W := W) A) : Prop :=
  forall st, let '(_, st') := m st in
    exists read, input st = read ++ input st' /\
      (file st' = file st \/
       exists c, file st' = (run_command d c (file st)).2 /\ forall addr, c = Delete addr -> exists line, line ∈ read /\ confirms line).

(** An action that only looks at the file. *)
Definition keeps_file {A} (m : ReplIO (W := W) A) : Prop :=
  forall st, let '(_, st') := m st in file st' = file st /\ exists read, input st = read ++ input st'.

Lemma keeps_ret {A} (a : A) : keeps_file (mret a).
Proof. intros st. split; [done|by exists []]. Qed.

Lemma keeps_result {A} (r : result string A) : keeps_file (from_result r).
Proof. intros st. split; [done|by exists []]. Qed.

Lemma keeps_world {A} (m : ClientIO (W := W) A) : keeps_file (on_world m).
Proof. intros st. unfold on_world. destruct (m (world st)) as [r w]. split; [done|by exists []]. Qed.

Lemma keeps_with_file {A} (m : option string -> ClientIO (W := W) A) : keeps_file (with_file m).
Proof. intros st. apply (keeps_world (m (file st))). Qed.

Lemma keeps_read : keeps_file read_line.
Proof. intros st. unfold read_line. destruct (input st) as [|line rest] eqn:Hi; [split; [done|by exists []]|]. split; [done|]. by exists [line]. Qed.

Lemma keeps_bind {A B} (m : ReplIO A) (k : A -> ReplIO B) : keeps_file m -> (forall a, keeps_file (k a)) -> keeps_file (m ≫= k).
Proof.
  intros Hm Hk st. unfold mbind, repl_bind. specialize (Hm st). destruct (m st) as [[a|e] st1]; [|done].
  destruct Hm as [Hf (read1 & Hr1)]. specialize (Hk a st1). destruct (k a st1) as [r st2]. destruct Hk as [Hf2 (read2 & Hr2)].
  split; [congruence|]. exists (read1 ++ read2). by rewrite Hr1, Hr2, app_assoc.
Qed.

Lemma one_of_kept {A} (m : ReplIO A) : keeps_file m -> at_most_one m.
Proof.
  intros Hm st. specialize (Hm st). destruct (m st) as [r st']. destruct Hm as [Hf (read & Hr)]. exists read. split; [done|by left].
Qed.

Lemma one_after {A B} (m : ReplIO A) (k : A -> ReplIO B) : keeps_file m -> (forall a, at_most_one (k a)) -> at_most_one (m ≫= k).
Proof.
  intros Hm Hk st. unfold mbind, repl_bind. specialize (Hm st). destruct (m st) as [[a|e] st1]; destruct Hm as [Hf (read1 & Hr1)].
  - specialize (Hk a st1). destruct (k a st1) as [r st2]. destruct Hk as (read2 & Hr2 & Hor). exists (read1 ++ read2).
    split; [by rewrite Hr1, Hr2, app_assoc|]. destruct Hor as [Heq|(c & Hc & Hd)]; [left; congruence|right].
    exists c. rewrite <-Hf. split; [done|]. intros addr Ha. destruct (Hd addr Ha) as (line & Hl & Hyes). exists line. split; [set_solver|done].
  - exists read1. split; [done|by left].
Qed.

Lemma one_before {A B} (m : ReplIO A) (k : A -> ReplIO B) : at_most_one m -> (forall a, keeps_file (k a)) -> at_most_one (m ≫= k).
Proof.
  intros Hm Hk st. unfold mbind, repl_bind. specialize (Hm st). destruct (m st) as [[a|e] st1]; [|done].
  destruct Hm as (read1 & Hr1 & Hor). specialize (Hk a st1). destruct (k a st1) as [r st2]. destruct Hk as [Hf (read2 & Hr2)].
  exists (read1 ++ read2). split; [by rewrite Hr1, Hr2, app_assoc|]. rewrite Hf.
  destruct Hor as [Heq|(c & Hc & Hd)]; [by left|right]. exists c. split; [done|]. intros addr Ha.
  destruct (Hd addr Ha) as (line & Hl & Hyes). exists line. split; [set_solver|done].
Qed.

(** A command of the file, other than a deletion. *)
Lemma one_command c : (forall addr, c <> Delete addr) -> at_most_one (on_file (run_command d c)).
Proof.
  intros Hc st. unfold on_file. destruct (run_command d c (file st)) as [r file'] eqn:Hr. exists []. split; [done|]. right.
  exists c. cbn [Repl.file]. rewrite Hr. split; [done|]. intros addr ->. by destruct (Hc addr).
Qed.

Lemma load_keeps file' : (load_wallet d file').2 = file' /\ (require_wallet d file').2 = file'.
Proof.
  assert ((load_wallet d file').2 = file') as Hl.
  { unfold load_wallet, with_context, read_to_string, lift, mbind, wallet_bind. destruct file' as [text|]; [|done].
    by destruct (read_fails d). }
  split; [done|]. unfold require_wallet, with_context. by destruct (load_wallet d file') as [r f].
Qed.

Lemma keeps_list show : keeps_file (on_file (cmd_list d show)).
Proof.
  intros st. unfold on_file, cmd_list, mbind, wallet_bind. pose proof (proj2 (load_keeps (file st))) as Hf.
  destruct (require_wallet d (file st)) as [[wallet|e] f]; cbn in *; (split; [done|by exists []]).
Qed.

Lemma keeps_prompt default : keeps_file (prompt_line default).
Proof. apply keeps_bind; [apply keeps_read|]. intros buf. cbv zeta. destruct (String.eqb _ _); [apply keeps_result|apply keeps_ret]. Qed.

Lemma keeps_value values index default : keeps_file (value values index default).
Proof. unfold value. destruct (values !! index); [apply keeps_ret|apply keeps_prompt]. Qed.

Lemma keeps_select : keeps_file (prompt_select_address d).
Proof.
  intros st. unfold prompt_select_address. destruct (load_wallet d (file st)).1 as [wallet|e]; [|apply keeps_prompt].
  case_bool_decide; [apply keeps_prompt|]. apply keeps_bind; [apply keeps_prompt|]. intros a. apply keeps_ret.
Qed.

Lemma keeps_address values index text : keeps_file (wallet_address d values index text).
Proof.
  intros st. unfold wallet_address. apply keeps_bind.
  - destruct (values !! index); [apply keeps_ret|apply keeps_select].
  - intros raw. apply keeps_bind; [apply keeps_result|]. intros a. apply keeps_ret.
Qed.

Lemma keeps_confirm : keeps_file prompt_confirm.
Proof. apply keeps_bind; [apply keeps_read|]. intros buf. apply keeps_ret. Qed.

(** A confirmation was read. *)
Lemma confirm_reads st st' : prompt_confirm st = (Ok true, st') -> exists line rest, input st = line :: rest /\ confirms line.
Proof.
  unfold prompt_confirm, read_line, mbind, repl_bind. destruct (input st) as [|line rest] eqn:Hi.
  - intros [=].
  - intros [= Hb _]. exists line, rest. split; [done|]. by apply bool_decide_eq_true in Hb.
Qed.

Lemma one_delete values : at_most_one (handle_delete d values).
Proof.
  apply one_after; [apply keeps_address|]. intros [raw addr] st. cbn [snd]. unfold mbind, repl_bind.
  pose proof (keeps_confirm st) as Hk. destruct (prompt_confirm st) as [[[]|e] st1] eqn:Hc; destruct Hk as [Hf (read & Hr)].
  - pose proof Hc as Hc'. apply confirm_reads in Hc' as (line & rest & Hi & Hyes). unfold on_file.
    destruct (cmd_delete d addr (file st1)) as [r f] eqn:Hd. exists read. split; [done|]. right. exists (Delete addr).
    cbn [run_command Repl.file]. rewrite <-Hf, Hd. split; [done|]. intros addr' _. exists line. split; [|done].
    unfold prompt_confirm, read_line, mbind, repl_bind in Hc. rewrite Hi in Hc. injection Hc as _ <-. cbn [input] in Hr.
    rewrite Hi in Hr. apply (app_inv_tail rest [line]) in Hr. subst read. by left.
  - exists read. split; [done|by left].
  - exists read. split; [done|by left].
Qed.

#[local] Hint Resolve keeps_ret keeps_result keeps_world keeps_with_file keeps_prompt keeps_value keeps_address keeps_confirm keeps_list
  keeps_bind one_after one_before one_of_kept one_delete : repl.

Lemma keeps_send node_url values : keeps_file (handle_send d node_url values).
Proof.
  unfold handle_send. apply keeps_bind; [auto with repl|]. intros [positionals wait]. apply keeps_bind; [auto with repl|]. intros from.
  apply keeps_bind; [auto with repl|]. intros to. apply keeps_bind; [apply keeps_bind; auto with repl|]. intros amount. apply keeps_bind.
  - intros st. destruct (client_get_balance _ _ _). split; [done|by exists []].
  - intros _. apply keeps_bind; [auto with repl|]. intros []; auto with repl.
Qed.

Lemma keeps_queries node_url values :
  keeps_file (handle_balance d node_url values) /\ keeps_file (handle_block node_url values) /\ keeps_file (handle_tx node_url values).
Proof. split_and!; unfold handle_balance, handle_block, handle_tx; case_bool_decide; auto 8 with repl. Qed.

(** One line of the session. *)
Lemma dispatch_one node_url line k : at_most_one (dispatch_repl d node_url line k).
Proof.
  unfold dispatch_repl. destruct (split_whitespace line) as [|cmd args]; [auto with repl|]. case_bool_decide; [auto with repl|].
  apply one_before; [|auto with repl]. destruct (keeps_queries node_url args) as (Hb & Hbl & Ht). pose proof (keeps_send node_url args).
  repeat case_bool_decide; auto with repl.
  - apply (one_command (Init k)). done.
  - apply one_after; [auto with repl|]. intros label. by apply (one_command (Generate label k)).
  - apply one_after; [auto with repl|]. intros key. apply one_after; [auto with repl|]. intros label. by apply (one_command (Import key label)).
  - apply one_after; [auto with repl|]. intros found. apply one_after; [auto with repl|]. intros label. by apply (one_command (Rename found.2 label)).
Qed.
End ReplFile.

(** * Sessions *)

Section Sessions.
Context {X : Externals} {K : KeyBytes} {J : WalletJson} {HC : HttpCodecs} {AJ : ApiJson}.
Context {W : Type} {HW : HttpClient W} {CW : Clock W}.
Implicit Types (st : ReplState (W := W)).

#[export] Instance confirms_dec line : Decision (confirms line).
Proof. unfold confirms. apply _. Defined.

Definition is_delete (c : WalletCommand) : Prop := match c with Delete _ => True | _ => False end.
#[export] Instance is_delete_dec c : Decision (is_delete c).
Proof. destruct c; apply _. Defined.

(** How many commands delete, and how many lines confirm. *)
Definition deletions (cs : list (DiskFaults * WalletCommand)) : nat := length (filter (fun dc => is_delete dc.2) cs).
Definition confirmations (lines : list string) : nat := length (filter confirms lines).

Lemma confirmations_app l1 l2 : confirmations (l1 ++ l2) = (confirmations l1 + confirmations l2)%nat.
Proof. unfold confirmations. by rewrite filter_app, length_app. Qed.

Lemma confirmations_in line l : line ∈ l -> confirms line -> (1 <= confirmations l)%nat.
Proof.
  intros Hl Hc. unfold confirmations. assert (line ∈ filter confirms l) as Hin by by apply list_elem_of_filter.
  destruct (filter confirms l); [by apply not_elem_of_nil in Hin|cbn; lia].
Qed.

(** A session does to the file of the keys what some commands do, each with the faults that the
    disk has at its prompt, and deletes no more keys than there are confirmations. *)
Theorem session_refines node_url prompts st :
  exists cs, file (run_interactive node_url prompts st) = run_commands (file st) cs /\
    cs.*1 `sublist_of` prompts.*1.*2 /\ (deletions cs <= confirmations (input st))%nat.
Proof.
  revert st. induction prompts as [|[[r d] k] prompts IH]; intros st; cbn [run_interactive].
  { exists []. split_and!; [done|constructor|cbn; lia]. }
  assert (forall st', exists cs, file (run_interactive node_url prompts st') = run_commands (file st') cs /\
    cs.*1 `sublist_of` d :: prompts.*1.*2 /\ (deletions cs <= confirmations (input st'))%nat) as Hlater.
  { intros st'. destruct (IH st') as (cs & Hf & Hs & Hd). exists cs. split_and!; [done|by apply sublist_cons|done]. }
  destruct r as [line| |]; cbn [fmap list_fmap fst snd].
  2: by apply Hlater.
  2: by exists []; split_and!; [done|apply sublist_nil_l|cbn; lia].
  cbv zeta. case_bool_decide; [by apply Hlater|]. pose proof (dispatch_one d node_url (trim line) k st) as Hone.
  destruct (dispatch_repl d node_url (trim line) k st) as [r st']. destruct Hone as (read & Hread & Hor).
  assert (exists cs, file (match r with Ok true => st' | _ => run_interactive node_url prompts st' end) = run_commands (file st') cs /\
    cs.*1 `sublist_of` prompts.*1.*2 /\ (deletions cs <= confirmations (input st'))%nat) as (cs & Hcs & Hsub & Hdel).
  { destruct r as [[]|e]; [|by apply IH..]. exists []. split_and!; [done|apply sublist_nil_l|cbn; lia]. }
  rewrite Hcs, Hread, confirmations_app. destruct Hor as [->|(c & -> & Hc)].
  - exists cs. split_and!; [done|by apply sublist_cons|lia].
  - exists ((d, c) :: cs). split_and!; [done|by apply sublist_skip|]. unfold deletions in *.
    destruct (decide (is_delete c)) as [Hdc|Hdc]; [rewrite filter_cons_True by done|rewrite filter_cons_False by done; lia].
    destruct c; try done. destruct (Hc addr eq_refl) as (l & Hl & Hyes). pose proof (confirmations_in l read Hl Hyes). cbn [length]. lia.
Qed.
End Sessions.

(** * Arguments *)

Section Arguments.

Definition has_flag (flags values : list string) : bool := existsb (fun v => bool_decide (v ∈ flags)) values.
Definition positionals_of (values : list string) : list string := filter (fun v => v ∉ wait_flags ++ no_wait_flags) values.

Lemma flags_disjoint v : v ∈ wait_flags -> v ∉ no_wait_flags.
Proof.
  assert (Forall (fun v => v ∉ no_wait_flags) wait_flags) as Hall by (apply (bool_decide_unpack _); vm_compute; exact I).
  rewrite Forall_forall in Hall. apply Hall.
Qed.

Lemma positionals_cons v values :
  positionals_of (v :: values) =
    if bool_decide (v ∈ wait_flags) || bool_decide (v ∈ no_wait_flags) then positionals_of values else v :: positionals_of values.
Proof.
  unfold positionals_of. rewrite filter_cons. repeat case_bool_decide; cbn [orb]; case_decide as Hd; try done; set_solver.
Qed.

(** One argument. *)
Lemma send_arg_cases v ps o :
  send_arg (ps, o) v =
    if bool_decide (v ∈ wait_flags) then
      match o with Some false => Err "conflicting confirmation flags. Use only one of `--wait` or `--no-wait`." | _ => Ok (ps, Some true) end
    else if bool_decide (v ∈ no_wait_flags) then
      match o with Some true => Err "conflicting confirmation flags. Use only one of `--wait` or `--no-wait`." | _ => Ok (ps, Some false) end
    else Ok (ps ++ [v], o).
Proof. unfold send_arg. by destruct o as [[]|]. Qed.

Definition flag_is (b : bool) (o : option bool) : bool := match o with Some x => Bool.eqb x b | None => false end.

(** The flags seen so far and those to come. *)
Lemma send_args_fold values ps o :
  let waits := flag_is true o || has_flag wait_flags values in
  let no_waits := flag_is false o || has_flag no_wait_flags values in
  if waits && no_waits then exists e, fold_res send_arg (ps, o) values = Err e
  else fold_res send_arg (ps, o) values = Ok (ps ++ positionals_of values, if waits then Some true else if no_waits then Some false else None).
Proof.
  revert ps o. induction values as [|v values IH]; intros ps o; cbv zeta.
  { cbn [has_flag existsb fold_res positionals_of]. rewrite app_nil_r. by destruct o as [[]|]. }
  rewrite positionals_cons. cbn [fold_res]. rewrite send_arg_cases. unfold has_flag in *. cbn [existsb].
  pose proof (flags_disjoint v) as Hdis. destruct (decide (v ∈ wait_flags)) as [Hw|Hw].
  { rewrite !(bool_decide_eq_true_2 (v ∈ wait_flags)), !(bool_decide_eq_false_2 (v ∈ no_wait_flags)) by auto.
    specialize (IH ps (Some true)). destruct o as [[]|]; cbn in IH |- *; try exact IH. by eexists. }
  rewrite !(bool_decide_eq_false_2 (v ∈ wait_flags)) by done. destruct (decide (v ∈ no_wait_flags)) as [Hn|Hn].
  { rewrite !(bool_decide_eq_true_2 (v ∈ no_wait_flags)) by done. specialize (IH ps (Some false)).
    destruct o as [[]|]; cbn in IH |- *; rewrite ?andb_true_r in *; try exact IH. by eexists. }
  rewrite !(bool_decide_eq_false_2 (v ∈ no_wait_flags)) by done. specialize (IH (ps ++ [v]) o). cbv zeta in IH.
  rewrite <-app_assoc in IH. exact IH.
Qed.
End Arguments.

(** [send] takes at most three arguments besides its flags, and flags of one kind only; it waits
    for the confirmation unless told not to. *)
Theorem parse_send_args_correct values :
  let waits := has_flag wait_flags values in
  let no_waits := has_flag no_wait_flags values in
  if waits && no_waits || (3 <? length (positionals_of values))%nat then exists e, parse_send_args values = Err e
  else parse_send_args values = Ok (positionals_of values, negb no_waits).
Proof.
  cbv zeta. unfold parse_send_args. pose proof (send_args_fold values [] None) as Hf. cbv zeta in Hf. cbn [flag_is orb] in Hf.
  destruct (has_flag wait_flags values), (has_flag no_wait_flags values); cbn [andb orb negb] in *.
  1: destruct Hf as [e ->]; by eexists.
  all: rewrite Hf; cbn [mbind result_bind app]; destruct (3 <? _)%nat; [by eexists|done].
Qed.

(** * Suggestions *)

Section Suggestions.
Context `{StrSim} (typed : string).

(** The best of the commands so far: the first of the nearest, no further than two. *)
Definition nearest (l : list string) (best : option (string * nat)) : Prop :=
  match best with
  | None => Forall (fun x => (2 < levenshtein typed x)%nat) l
  | Some (c, n) => n = levenshtein typed c /\ (n <= 2)%nat /\ exists pre post, l = pre ++ c :: post /\
      Forall (fun x => (n < levenshtein typed x)%nat) pre /\ Forall (fun x => (n <= levenshtein typed x)%nat) post
  end.

Lemma closer_nearest l best cmd : nearest l best -> nearest (l ++ [cmd]) (closer typed best cmd).
Proof.
  unfold closer. cbv zeta. destruct best as [[c n]|]; cbn [nearest snd].
  - intros (Hn & H2 & pre & post & -> & Hpre & Hpost). destruct (_ && _) eqn:Ht.
    + apply andb_true_iff in Ht as [Ht1%Nat.leb_le Ht2%Nat.ltb_lt]. split; [done|]. split; [lia|]. exists (pre ++ c :: post), []. split; [done|]. split; [|constructor].
      apply Forall_app. split; [|constructor; [lia|]].
      * eapply Forall_impl; [exact Hpre|]. cbn. lia.
      * eapply Forall_impl; [exact Hpost|]. cbn. lia.
    + split; [done|]. split; [done|]. exists pre, (post ++ [cmd]). split; [by rewrite <-app_assoc|]. split; [done|].
      apply Forall_app. split; [done|]. repeat constructor. apply andb_false_iff in Ht as [Ht%Nat.leb_gt|Ht%Nat.ltb_ge]; lia.
  - intros Hall. destruct (_ && _) eqn:Ht.
    + apply andb_true_iff in Ht as [Ht%Nat.leb_le _]. split; [done|]. split; [lia|]. exists l, []. split_and!; [done| |constructor]. eapply Forall_impl; [exact Hall|]. cbn. lia.
    + apply Forall_app. split; [done|]. repeat constructor. rewrite andb_true_r in Ht. apply Nat.leb_gt in Ht. lia.
Qed.

(** A suggestion is the first of the nearest commands, and at most two edits away; there is none
    only when no command is that near. *)
Theorem fuzzy_suggest_nearest :
  match fuzzy_suggest typed with
  | Some c => exists pre post, REPL_COMMANDS = pre ++ c :: post /\ (levenshtein typed c <= 2)%nat /\
      Forall (fun x => (levenshtein typed c < levenshtein typed x)%nat) pre /\
      Forall (fun x => (levenshtein typed c <= levenshtein typed x)%nat) post
  | None => Forall (fun x => (2 < levenshtein typed x)%nat) REPL_COMMANDS
  end.
Proof.
  unfold fuzzy_suggest. assert (forall l l0 best, nearest l0 best -> nearest (l0 ++ l) (foldl (closer typed) best l)) as Hfold.
  { intros l. induction l as [|c l IH]; intros l0 best Hb; cbn [foldl]; [by rewrite app_nil_r|].
    rewrite cons_middle, app_assoc. apply IH. by apply closer_nearest. }
  pose proof (Hfold REPL_COMMANDS [] None) as Hn. cbn [app] in Hn. specialize (Hn (Forall_nil_2 _)).
  destruct (foldl (closer typed) None REPL_COMMANDS) as [[c n]|]; cbn [fmap option_fmap option_map fst]; [|exact Hn].
  destruct Hn as (-> & H2 & pre & post & Hl & Hpre & Hpost). by exists pre, post.
Qed.
End Suggestions.

(** * A session *)

Module ReplExamples.
Import Toy ToyKeys ToyWallet ToyWorld.

Definition toy_base64 : HttpCodecs := {|
  base64_encode := hex_encode;
  base64_decode := hex_decode;
  postcard_tx_from _ := Err "unexpected";
  block_to_value b := Err "unexpected";
|}.
#[local] Existing Instance toy_base64.
#[local] Instance toy_link : HttpClient Z := toy_http 0.

(** Two keys are made; deleting the first is refused, then confirmed. *)
Definition typed_lines : list (Readline * DiskFaults * SigningKey) :=
  [(Line " init ", healthy, Byte.x07 : SigningKey); (Interrupted, healthy, Byte.x00 : SigningKey);
   (Line "generate  second", healthy, Byte.x08 : SigningKey); (Line "delete 1", healthy, Byte.x00 : SigningKey);
   (Line "delete 1", healthy, Byte.x00 : SigningKey); (Line "q", healthy, Byte.x00 : SigningKey);
   (Line "generate third", healthy, Byte.x09 : SigningKey)].

Lemma session_example :
  let st := run_interactive "n" typed_lines (mk_ReplState ["no"; " YES "] None 0) in
  match (cmd_list healthy false (file st)).1 with
  | Ok rows => bool_decide (rows.*1.*1 = [(1%nat, "second")])
  | Err _ => false
  end = true.
Proof. vm_compute. reflexivity. Qed.

(** The arguments of [send] in the test of the source. *)
Lemma send_args_examples :
  parse_send_args ["wait"; "1"] = Ok (["1"], true) /\ parse_send_args ["--no-wait"; "1"] = Ok (["1"], false) /\
  is_ok (parse_send_args ["--wait"; "--no-wait"; "1"]) = false /\ is_ok (parse_send_args ["1"; "2"; "3"; "4"]) = false.
Proof. vm_compute. repeat split. Qed.
End ReplExamples.
