(* ===== verification/WalletNode.v ===== *)
(** WalletNode: the wallet and the node together. The wallet's requests reach the handlers of the
    HTTP API (Http.v) over a link that delivers them; a payment that the wallet sends from the
    coins the node reports enters the pool of the node. *)
From S2P Require Import Prelude Bytes Types Externals Petgraph Hashing Work Transactions Blocks Storage UtxoProcessor Overlay Transition TxIndex Engine Consensus MempoolGraph Mempool MempoolFacts MempoolProps Wallet Accounts Wire Http HttpProps WalletFile WalletClient.
#[local] Open Scope Z_scope.

(** * The link *)

(** The texts the node answers with. *)
Class NodeJson := {
  balance_to : AddressBalanceResponse -> string;
  transaction_to : TransactionQueryResponse -> string;
  error_to : Json -> string;
}.

Section Link.
Context {X : Externals} {I : HashIteration} `{G : PetGraphEdit TransactionHash} {HC : HttpCodecs} {AJ : ApiJson} {NJ : NodeJson}.

(** The wallet's view of an answer about a transaction: the hash of a block is a text. *)
Definition reply_of (r : TransactionQueryResponse) : TransactionQueryReply :=
  mk_TransactionQueryReply (tq_status r) (tq_tx_hash r) (tq_transaction r) (Hash_to_string <$> tq_block_hash r)
    (tq_block_height r) (tq_tx_index r).

(** The wallet reads what the node writes. *)
Class LinkLaws : Prop := {
  balance_link r : balance_from (balance_to r) = Ok r;
  transaction_link r : transaction_from (transaction_to r) = Ok (reply_of r);
  base64_link bytes : base64_decode (base64_encode bytes) = Ok bytes;
  postcard_link t : postcard_tx_from (postcard_tx t) = Ok t;
}.

(** The response to a handler's answer. *)
Definition respond {A} (to : A -> string) (r : result StryiNodeHttpApiError A) : Response :=
  match r with
  | Ok a => mk_Response 200 (Some (to a))
  | Err e => let '(status, body) := into_status_and_json e in mk_Response status (Some (error_to body))
  end.

Context {W : Type} `{HW : HttpClient W}.
Abbreviation Node := (StryiHttpService MemoryView).

(** Requests to [base_url] are answered by the handlers of the node. *)
Record serves (base_url : string) (node : W -> Node) (time : W -> Z) : Prop := {
  sv_balance address w : exists w',
    http_get (balance_url base_url address) w = (Ok (respond balance_to (get_balance (node w) address)), w') /\ node w' = node w;
  sv_transaction hash w : exists w',
    http_get (transaction_url base_url hash) w = (Ok (respond transaction_to (get_tx (node w) hash)), w') /\ node w' = node w;
  sv_send raw w : exists w',
    let '(answer, svc, _) := send_tx (lookup_mempool_utxos (http_storage (node w))) (time w) (node w) raw in
    http_post (send_url base_url) (send_request raw) w = (Ok (respond id answer), w') /\ node w' = svc;
}.

(** ** What the client's methods answer *)

Context `{!LinkLaws} (base_url : string) (node : W -> Node) (time : W -> Z) (Hserves : serves base_url node time).

Lemma respond_Ok {A B} (to : A -> string) (from : string -> result string B) (a : A) (b : B) method url :
  from (to a) = Ok b ->
  (response ← ensure_success (respond to (Ok a)) method url; json from response) = Ok b.
Proof. intros Hf. exact Hf. Qed.

Lemma balance_answer address w r :
  get_balance (node w) address = Ok r ->
  exists w', client_get_balance base_url address w = (Ok r, w') /\ node w' = node w.
Proof.
  intros Hr. destruct (sv_balance _ _ _ Hserves address w) as (w' & Hw & Hn). exists w'. split; [|done].
  unfold client_get_balance, get_json, mbind, client_bind, context. rewrite Hw, Hr. cbn. by rewrite balance_link.
Qed.

Lemma transaction_answer hash w r :
  get_tx (node w) hash = Ok r ->
  exists w', client_get_transaction base_url hash w = (Ok (reply_of r), w') /\ node w' = node w.
Proof.
  intros Hr. destruct (sv_transaction _ _ _ Hserves hash w) as (w' & Hw & Hn). exists w'. split; [|done].
  unfold client_get_transaction, get_json, mbind, client_bind, context. rewrite Hw, Hr. cbn. by rewrite transaction_link.
Qed.

Lemma send_answer raw w text svc published :
  send_tx (lookup_mempool_utxos (http_storage (node w))) (time w) (node w) raw = (Ok text, svc, published) ->
  exists w', send_transaction base_url raw w = (Ok text, w') /\ node w' = svc.
Proof.
  intros Hs. destruct (sv_send _ _ _ Hserves raw w) as (w' & Hw). rewrite Hs in Hw. destruct Hw as [Hw Hn]. exists w'. split; [|done].
  unfold send_transaction, mbind, client_bind, context. by rewrite Hw.
Qed.
End Link.

(** * A payment of unspent coins is valid for the pool *)

Section Payable.
Context {X : Externals} `{!EcdsaLaws} {I : HashIteration} `{!HashIterationLaws} `{G : PetGraphEdit TransactionHash}.
Context `{!PetGraphLaws TransactionHash} `{!PetGraphEditLaws TransactionHash}.
Implicit Types (m : MemoryView) (s : TransactionStorage) (t : Transaction).

(** What the lookup of the node answers about some outpoints. *)
Definition found_utxos m (ops : list OutPoint) (acc : gmap OutPoint UTXO) : gmap OutPoint UTXO :=
  foldl (fun acc op => match utxos m !! op with Some utxo => <[op := utxo]> acc | None => acc end) acc ops.

Lemma lookup_found m ops : lookup_mempool_utxos m ops = Ok (found_utxos m ops ∅).
Proof.
  unfold lookup_mempool_utxos. cbn [db_read memory_full_node mbind result_bind].
  generalize (∅ : gmap OutPoint UTXO) as acc. induction ops as [|op ops IH]; intros acc; cbn [fold_res]; [done|].
  cbn [get_utxo read_utxos snapshot_read memory_full_node memory_read memory_utxo_storage mbind result_bind mret result_ret]. apply IH.
Qed.

Lemma found_lookup m ops acc op u : utxos m !! op = Some u -> op ∈ ops \/ acc !! op = Some u -> found_utxos m ops acc !! op = Some u.
Proof.
  intros Hu. unfold found_utxos. revert acc. induction ops as [|o ops IH]; intros acc; cbn [foldl]; [set_solver|].
  intros Hor. apply IH. destruct (decide (o = op)) as [->|Hne].
  - right. by rewrite Hu, lookup_insert_eq.
  - destruct Hor as [[->|Hin]%elem_of_cons|Hacc]; [done|by left|right]. destruct (utxos m !! o); [by rewrite lookup_insert_ne|done].
Qed.

(** Scanning inputs that refer to unspent outputs of one owner. *)
Lemma scan_pays s t author external inputs (us : list UTXO) acc :
  Forall2 (fun i u => get_creating_tx s (previous_output i) = None /\ get_spending_tx s (previous_output i) = None /\
                      external !! previous_output i = Some u /\ owner u = author) inputs us ->
  exists acc', fold_res (scan_input s t author external) acc inputs = Ok acc' /\ scan_rbf acc' = scan_rbf acc /\
    scan_total acc' = foldl (saturating_add 64) (scan_total acc) (utxo_value <$> us) /\ scan_utxos acc' = scan_utxos acc ++ us.
Proof.
  intros Hall. revert acc. induction Hall as [|i u inputs us (Hc & Hs & He & Ho) Hall IH]; intros acc; cbn [fold_res].
  { exists acc. by rewrite app_nil_r. }
  unfold scan_input at 2. cbv zeta. unfold resolve_input. rewrite Hc, Hs, He. cbn [ok_or mbind result_bind].
  rewrite bool_decide_eq_true_2 by done. cbn [ensure mbind result_bind mret result_ret].
  edestruct IH as (acc' & -> & Hr & Ht & Hus). exists acc'. cbn in Hr, Ht, Hus. split_and!; [done|done|done|].
  by rewrite Hus, <-app_assoc.
Qed.

Lemma saturating_sum l acc :
  Forall (fun v => 0 <= v) l -> 0 <= acc -> acc + zsum l < 2 ^ 64 -> foldl (saturating_add 64) acc l = acc + zsum l.
Proof.
  intros Hall. revert acc. induction Hall as [|v l Hv Hall IH]; intros acc Hacc Hlt; cbn [foldl]; [unfold zsum; cbn; lia|].
  rewrite zsum_cons in Hlt |- *. pose proof (zsum_nonneg _ Hall).
  replace (saturating_add 64 acc v) with (acc + v) by (unfold saturating_add, uint_max; lia). rewrite IH by lia. lia.
Qed.

(** A payment of unspent outputs of its author, which the pool neither makes nor spends, is
    valid for the pool. *)
Lemma unspent_inputs_valid m s t vk us :
  kind (tx_data t) = Payment -> recover_public_key t = Ok vk ->
  Forall2 (fun i u => get_creating_tx s (previous_output i) = None /\ get_spending_tx s (previous_output i) = None /\
                      utxos m !! previous_output i = Some u /\ owner u = from_public_key vk) (inputs (tx_data t)) us ->
  Forall (fun u => 0 <= utxo_value u) us -> zsum (utxo_value <$> us) < 2 ^ 62 ->
  Forall (fun o => 0 <= value o) (outputs (tx_data t)) ->
  zsum (value <$> outputs (tx_data t)) <= zsum (utxo_value <$> us) ->
  mempool_validate (lookup_mempool_utxos m) t s = Ok us.
Proof.
  intros Hk Hrec Hin Hus Hsum Hout Hle. unfold mempool_validate. unfold is_payment. rewrite bool_decide_eq_true_2 by done. cbn [negb].
  rewrite Hrec. cbn [map_err mbind result_bind].
  assert (Hext : filter (fun op => get_creating_tx s op = None) (spent_outpoints t) = spent_outpoints t).
  { unfold spent_outpoints. clear -Hin. induction Hin as [|i u ins us [Hc _] _ IH]; [done|]. cbn [fmap list_fmap].
    rewrite filter_cons_True by done. by f_equal. }
  rewrite Hext.
  assert (exists external, (if bool_decide (spent_outpoints t = []) then Ok ∅ else
      map_err (fun err => match err with UtxoNotFound outpoint => MissingOutPoint outpoint | other => LookupFailed other end)
        (lookup_mempool_utxos m (spent_outpoints t))) = Ok external /\
    forall op u, op ∈ spent_outpoints t -> utxos m !! op = Some u -> external !! op = Some u) as (external & -> & Hexternal).
  { case_bool_decide as Hnil; [exists ∅; rewrite Hnil; split; [done|set_solver]|]. rewrite lookup_found. cbn [map_err].
    eexists. split; [done|]. intros op u Hop Hu. apply found_lookup; [done|by left]. }
  cbn [mbind result_bind].
  assert (Forall2 (fun i u => get_creating_tx s (previous_output i) = None /\ get_spending_tx s (previous_output i) = None /\
            external !! previous_output i = Some u /\ owner u = from_public_key vk) (inputs (tx_data t)) us) as Hin'.
  { apply Forall2_same_length_lookup. apply Forall2_same_length_lookup in Hin as [Hlen Hin]. split; [done|]. intros j i u Hi Hu.
    destruct (Hin j i u Hi Hu) as (Hc & Hs & He & Ho). split_and!; [done|done| |done]. apply Hexternal; [|done].
    apply list_elem_of_fmap. exists i. split; [done|]. by apply list_elem_of_lookup_2 in Hi. }
  destruct (scan_pays s t _ external _ us (mk_InputScan 0 0 [] false) Hin') as (acc & -> & Hrbf & Htot & Husc).
  cbn [mbind result_bind]. cbn in Hrbf, Htot, Husc. rewrite Hrbf, Husc, Htot.
  assert (Forall (fun v => 0 <= v) (utxo_value <$> us)) as Hnn by by apply Forall_fmap.
  assert (Forall (fun v => 0 <= v) (value <$> outputs (tx_data t))) as Hnn2 by by apply Forall_fmap.
  rewrite saturating_sum by (done || lia).
  pose proof (zsum_nonneg _ Hnn2). unfold sum_u64. rewrite wrap64_small by lia.
  destruct (Z.ltb_spec (0 + zsum (utxo_value <$> us)) (zsum (value <$> outputs (tx_data t)))); [lia|done].
Qed.

(** With no conflict and room, such a payment enters the pool. *)
Lemma valid_payment_enters lookup now p t us :
  mp_txs (mp_storage p) !! tx_hash (tx_data t) = None -> storage_len (mp_storage p) < max_size (mp_config p) ->
  mempool_validate lookup t (mp_storage p) = Ok us ->
  (forall op, op ∈ spent_outpoints t -> get_spending_tx (mp_storage p) op = None) ->
  exists p', add_transaction lookup now p t = Ok p'.
Proof.
  intros Hnew Hroom Hv Hfree. unfold add_transaction, storage_exists. rewrite bool_decide_eq_false_2 by (rewrite Hnew; by intros [? ?]).
  destruct (Z.leb_spec (max_size (mp_config p)) (storage_len (mp_storage p))); [lia|]. rewrite Hv. cbn [mbind result_bind]. cbv zeta.
  assert (find_conflicts t (mp_storage p) = ∅) as ->.
  { apply elem_of_equiv_empty_L. intros c Hc. apply find_conflicts_spec in Hc as (op & Hop & Hc). unfold get_spending_tx in Hfree. rewrite Hfree in Hc by done. done. }
  rewrite bool_decide_eq_true_2 by done. cbn [negb mbind result_bind]. by eexists.
Qed.
End Payable.

(** * The payment *)

Section Payment.
Context {X : Externals} `{!EcdsaLaws} `{!HexLaws} {I : HashIteration} `{!HashIterationLaws} `{G : PetGraphEdit TransactionHash}.
Context `{!PetGraphLaws TransactionHash} `{!PetGraphEditLaws TransactionHash}.
Context {K : KeyBytes} {J : WalletJson} {HC : HttpCodecs} {AJ : ApiJson} {NJ : NodeJson} `{!LinkLaws}.
Context {W : Type} `{HW : HttpClient W} `{CW : Clock W}.
Variables (node_url : string) (node : W -> StryiHttpService MemoryView) (time : W -> Z).
Context (Hserves : serves (NodeClient_new node_url) node time).
Implicit Types (w : W) (l : list Block) (from to : AccountAddress) (t : Transaction).

(** The coins of an address, as the wallet counts them. *)
Definition coin_of (kv : OutPoint * UTXO) : SpendableUtxo := mk_SpendableUtxo kv.1 (utxo_value kv.2).

(** What an address owns, small enough for 64 bits. *)
Record spendable_coins (owned : gmap OutPoint UTXO) : Prop := {
  sc_values : nonneg_values owned;
  sc_total : total_value owned < 2 ^ 62;
  sc_count : Z.of_nat (size owned) <= 2 ^ 24;
}.

Lemma coins_of_owned owned (coins : list SpendableUtxo) :
  spendable_coins owned -> coins ≡ₚ (coin_of <$> map_to_list owned) ->
  coins_fit coins /\ coins_total coins = total_value owned /\ length coins = size owned.
Proof.
  intros [Hv Ht Hc] Hp. assert (coins_total coins = total_value owned) as Htot.
  { unfold coins_total, total_value, map_zsum. rewrite Hp, <-!list_fmap_compose. done. }
  assert (length coins = size owned) as Hlen by (rewrite Hp, length_fmap; apply length_map_to_list).
  split; [|done]. split; [|lia|lia]. rewrite Hp. apply Forall_fmap, Forall_forall. intros [op u] Hin%elem_of_map_to_list.
  by apply (Hv op).
Qed.

(** The pool takes no part in the coins: it neither spends nor makes them, and holds no
    transaction under the hash of a payment of some of them. *)
Record untouched (p : MemPool) (owned : gmap OutPoint UTXO) : Prop := {
  ut_free op : is_Some (owned !! op) -> get_spending_tx (mp_storage p) op = None /\ get_creating_tx (mp_storage p) op = None;
  ut_new t : spent_outpoints t <> [] -> (forall op, op ∈ spent_outpoints t -> is_Some (owned !! op)) ->
    mp_txs (mp_storage p) !! tx_hash (tx_data t) = None;
  ut_room : storage_len (mp_storage p) < max_size (mp_config p);
}.

(** Choosing an output for every coin. *)
Lemma choose_outputs (P : SpendableUtxo -> UTXO -> Prop) (coins : list SpendableUtxo) :
  (forall c, c ∈ coins -> exists u, P c u) -> exists us, Forall2 P coins us.
Proof.
  induction coins as [|c coins IH]; intros Hex; [by exists []|]. destruct (Hex c) as [u Hu]; [by left|].
  destruct IH as [us Hus]; [intros c' Hc'; apply Hex; by right|]. exists (u :: us). by constructor.
Qed.

(** The coin stands for an unspent output of the address. *)
Definition backed (owned : gmap OutPoint UTXO) (c : SpendableUtxo) (u : UTXO) : Prop :=
  owned !! su_outpoint c = Some u /\ utxo_value u = su_value c.

Lemma coins_backed owned (coins : list SpendableUtxo) c :
  coins ⊆ coin_of <$> map_to_list owned -> c ∈ coins -> exists u, backed owned c u.
Proof.
  intros Hsub Hc. apply Hsub in Hc. apply list_elem_of_fmap in Hc as ([op u] & -> & Hin%elem_of_map_to_list). by exists u.
Qed.

(** A payment of backed coins of its author enters the pool. *)
Lemma backed_payment_enters m l (p : MemPool) now key from (owned := owned_by from (ledger_view l)) coins outs us :
  refines m l -> from_public_key (verifying_key key) = from -> spendable_coins owned -> untouched p owned ->
  Forall2 (backed owned) coins us -> coins <> [] -> coins_fit coins ->
  Forall (fun o => 0 <= value o) outs -> zsum (value <$> outs) <= coins_total coins ->
  let t := sign (mk_TransactionData 0 Payment ((fun utxo => mk_TransactionIn (su_outpoint utxo) 0) <$> coins) outs) key in
  (forall op, op ∈ spent_outpoints t -> is_Some (owned !! op)) /\
  exists p', add_transaction (lookup_mempool_utxos m) now p t = Ok p'.
Proof.
  intros R Hkey Hown Hpool Hus Hne Hfit Houts Hsum. cbv zeta.
  match goal with |- context [sign ?d key] => set (t := sign d key); pose proof (sign_recovers_data d key eq_refl) as [Hd Hrec] end.
  fold t in Hd, Hrec.
  assert (spent_outpoints t = su_outpoint <$> coins) as Hspent.
  { unfold spent_outpoints. rewrite Hd. cbn [inputs]. by rewrite <-list_fmap_compose. }
  assert (forall op, op ∈ spent_outpoints t -> is_Some (owned !! op)) as Hin.
  { intros op Hop. rewrite Hspent in Hop. apply list_elem_of_fmap in Hop as (c & -> & Hc). apply list_elem_of_lookup in Hc as [i Hi].
    destruct (Forall2_lookup_l _ _ _ _ _ Hus Hi) as (u & _ & [Hu _]). by exists u. }
  split; [exact Hin|].
  assert (zsum (utxo_value <$> us) = coins_total coins) as Htot.
  { unfold coins_total. f_equal. clear -Hus. induction Hus as [|c u ? ? [_ Hv] _ IH]; [done|]. cbn [fmap list_fmap]. by rewrite Hv, IH. }
  apply (valid_payment_enters _ now p t us).
  - apply (ut_new _ _ Hpool); [|done]. rewrite Hspent. by destruct coins.
  - apply (ut_room _ _ Hpool).
  - apply (unspent_inputs_valid m _ t (verifying_key key)); [by rewrite Hd|done| | | | |].
    + rewrite Hd. cbn [inputs]. apply Forall2_fmap_l. eapply Forall2_impl; [exact Hus|]. intros c u [Hu _]. cbn [previous_output].
      destruct (ut_free _ _ Hpool (su_outpoint c)) as [Hs Hc]; [by exists u|]. apply map_lookup_filter_Some in Hu as [Hu Ho]. cbn in Ho.
      rewrite (rf_utxos _ _ R). by rewrite Hkey.
    + clear -Hus Hown. induction Hus as [|c u ? ? [Hu _] _ IH]; constructor; [|done]. by apply (sc_values _ Hown (su_outpoint c)).
    + rewrite Htot. apply Hfit.
    + by rewrite Hd.
    + rewrite Hd, Htot. exact Hsum.
  - intros op Hop. by apply (ut_free _ _ Hpool), Hin.
Qed.

(** The payment that the wallet builds from the coins a node reports enters the pool. *)
Lemma built_payment_enters m l (p : MemPool) now key from to amount (coins : list SpendableUtxo) :
  refines m l -> from_public_key (verifying_key key) = from ->
  let owned := owned_by from (ledger_view l) in
  spendable_coins owned -> untouched p owned -> 0 <= amount < 2 ^ 62 ->
  coins ≡ₚ (coin_of <$> map_to_list owned) -> coins <> [] ->
  amount + ideal_fee FeePolicy_default (Z.of_nat (size owned)) 1 <= total_value owned ->
  exists t p', build_payment key coins to amount FeePolicy_default = Ok t /\
    recover_public_key t = Ok (verifying_key key) /\ verify_signature t (verifying_key key) = Ok tt /\
    (exists change, outputs (tx_data t) = mk_TransactionOut amount to :: change /\ Forall (fun o => recipient o = from) change) /\
    (forall op, op ∈ spent_outpoints t -> is_Some (owned !! op)) /\
    add_transaction (lookup_mempool_utxos m) now p t = Ok p'.
Proof.
  intros R Hkey owned Hown Hpool Hamount Hp Hne Hcover. destruct (coins_of_owned owned coins Hown Hp) as (Hfit & Htot & Hlen).
  pose proof WalletExamples.policy_default_small as Hpol. set (sorted := merge_sort largest_first coins).
  assert (sorted ≡ₚ coins) as Hsorted by apply merge_sort_Permutation.
  destruct (build_payment_cases FeePolicy_default Hpol amount Hamount key coins to Hfit Hne) as (k & Hk & _ & Hend & Hcase).
  fold sorted in Hend, Hcase. set (sel := take k sorted) in *.
  assert (coins_fit sel) as Hsel by (apply (coins_fit_app _ (drop k sorted)); unfold sel; by rewrite take_drop, Hsorted).
  assert (covers FeePolicy_default amount sel 1) as Hcov.
  { destruct Hend as [->|Hend].
    - unfold sel. rewrite take_ge by (by rewrite Hsorted). unfold covers, coins_total.
      rewrite (Permutation_length Hsorted), Hlen. rewrite Hsorted. fold (coins_total coins). lia.
    - unfold covers in *. pose proof (ideal_fee_outputs FeePolicy_default Hpol (Z.of_nat (length sel))). lia. }
  destruct Hcase as [[_ Hok]|[Hno _]]; [|done].
  destruct (payment_outputs_spec FeePolicy_default Hpol amount Hamount (from_public_key (verifying_key key)) to sel Hsel Hcov)
    as (change & Hout & Hch & Hfee & _). set (outs := payment_outputs _ _ _ _ _) in *.
  destruct (choose_outputs (backed owned) sel) as [us Hus].
  { intros c Hc. apply (coins_backed owned sel); [|done]. intros x Hx. rewrite <-Hp, <-Hsorted, <-(take_drop k sorted).
    apply elem_of_app. by left. }
  assert (sel <> []) as Hnil.
  { intros Hs. apply (f_equal length) in Hs. unfold sel in Hs. rewrite length_take, Hsorted in Hs. cbn in Hs. lia. }
  destruct (backed_payment_enters m l p now key from sel outs us R Hkey Hown Hpool Hus Hnil Hsel) as (Hin & p' & Ha).
  - rewrite Hout. constructor; [cbn; lia|]. destruct Hch as [->|(r & -> & Hr)]; [constructor|].
    constructor; [cbn; unfold DUST_THRESHOLD in Hr; lia|constructor].
  - destruct (estimate_fee_ideal FeePolicy_default (Z.of_nat (length sel)) (Z.of_nat (length outs)) Hpol) as [_ Hf].
    + destruct Hsel as [_ _ Hc]. lia.
    + rewrite Hout. destruct Hch as [->|(r & -> & _)]; cbn; lia.
    + lia.
  - destruct (sign_recover_roundtrip (mk_TransactionData 0 Payment ((fun utxo => mk_TransactionIn (su_outpoint utxo) 0) <$> sel) outs)
      key eq_refl) as (Hd & Hver & Hrec).
    eexists _, p'. split; [exact Hok|]. split_and!; [exact Hrec|exact Hver| |exact Hin|exact Ha]. exists change. rewrite Hd. cbn [outputs].
    split; [exact Hout|]. rewrite <-Hkey. destruct Hch as [->|(r & -> & _)]; by repeat constructor.
Qed.
(** What the node makes of it when it is submitted. *)
Lemma submitted_payment lookup now (svc : StryiHttpService MemoryView) t vk p' :
  recover_public_key t = Ok vk -> verify_signature t vk = Ok tt -> add_transaction lookup now (http_mempool svc) t = Ok p' ->
  send_tx lookup now svc (serialize_for_submission t) =
    (Ok "Transaction accepted", mk_StryiHttpService (http_config svc) p' (http_storage svc), [t]).
Proof.
  intros Hrec Hver Ha. unfold send_tx, serialize_for_submission. rewrite base64_link. cbn [map_err mbind result_bind].
  rewrite postcard_link. cbn [map_err mbind result_bind]. rewrite Hrec. cbn [map_err mbind result_bind]. rewrite Hver.
  cbn [map_err mbind result_bind]. rewrite Ha. done.
Qed.

(** The coins of the answer to a query for a balance. *)
Lemma answered_coins owned (r : AddressBalanceResponse) :
  ab_utxos r ≡ₚ ((fun kv => mk_UtxoEntry (txid kv.1) (vout kv.1) (utxo_value kv.2)) <$> map_to_list owned) ->
  spendable <$> ab_utxos r ≡ₚ (coin_of <$> map_to_list owned).
Proof. intros ->. rewrite <-list_fmap_compose. apply reflexive_eq, list_fmap_ext. by intros _ [[h v] u] _. Qed.

(** C10: A payment sent from the wallet enters the pool of the node. Take a wallet file whose
    entries carry the addresses of their keys, with a key for the sender; a node whose
    in-memory store refines a chain, and which answers the wallet's requests with its
    handlers. If what the sender owns on the chain covers the amount and the fee of one
    output, it is at most 2^24 coins worth less than 2^62 together, and the pool is not full
    and takes no part in these coins, then [cmd_send] succeeds: afterwards the pool holds a
    transaction that pays the recipient the amount out of coins of the sender and returns the
    rest to the sender, the store is as it was, and a query for the transaction finds it
    pending unless the chain already has it. That the pool takes no part means that it
    neither spends nor makes the coins, and that no payment of the coins has the hash of a
    transaction it holds, an assumption about the hash when the pool is not empty. *)
Theorem send_reaches_pool d file wallet from to amount l w :
  (require_wallet d file).1 = Ok wallet -> Forall entry_ok (keys wallet) -> Hash_to_string from ∈ address <$> keys wallet ->
  refines (http_storage (node w)) l -> nonneg_values (ledger_view l) ->
  let owned := owned_by from (ledger_view l) in
  spendable_coins owned -> untouched (http_mempool (node w)) owned -> 0 <= amount < 2 ^ 62 ->
  amount + ideal_fee FeePolicy_default (Z.of_nat (size owned)) 1 <= total_value owned ->
  exists t w', cmd_send d file node_url from to amount false w = (Ok tt, w') /\
    let hash := tx_hash (tx_data t) in
    mempool_get_transaction (http_mempool (node w')) hash = Some t /\ http_storage (node w') = http_storage (node w) /\
    (forall op, op ∈ spent_outpoints t -> is_Some (owned !! op)) /\
    (exists change, outputs (tx_data t) = mk_TransactionOut amount to :: change /\ Forall (fun o => recipient o = from) change) /\
    (get_transaction (http_storage (node w)) hash = Ok None ->
      exists w'', client_get_transaction (NodeClient_new node_url) (Hash_to_string hash) w' = (Ok (reply_of (pending_answer hash t)), w'')).
Proof.
  destruct wallet as [entries]. intros Hw Hentries Hfrom R Hnn owned Hown Hpool Hamount Hcover.
  cbn [keys] in Hentries, Hfrom. apply list_elem_of_fmap in Hfrom as (entry & Hfrom & Hentry).
  destruct (find_present entries entry Hentry Hentries) as (found & Hfound & Hkey). rewrite <-Hfrom in Hfound, Hkey.
  assert (from_public_key (verifying_key (into_inner (private_key found))) = from) as Hpk.
  { assert (@Ok StryiCoreError _ (from_public_key (verifying_key (into_inner (private_key found)))) = Ok from) as Hx; [|by injection Hx].
    rewrite <-!(parsed_hash_text). unfold key_address in Hkey. by rewrite Hkey. }
  destruct (get_balance_exact (node w) l from R Hnn) as (r & Hr & _ & _ & Hutxos). fold owned in Hutxos. apply answered_coins in Hutxos.
  destruct (balance_answer _ node time Hserves _ w r Hr) as (w1 & Hw1 & Hn1).
  destruct (coins_of_owned owned _ Hown Hutxos) as (_ & Htot & Hlen).
  assert (spendable <$> ab_utxos r <> []) as Hne.
  { intros Hnil. rewrite Hnil in Htot, Hlen. rewrite <-Hlen, <-Htot in Hcover.
    change (coins_total []) with 0 in Hcover. 
    assert (0 < ideal_fee FeePolicy_default (Z.of_nat (length (@nil SpendableUtxo))) 1) by (vm_compute; reflexivity). lia. }
  destruct (built_payment_enters (http_storage (node w)) l (http_mempool (node w)) (time w1) _ from to amount _ R Hpk Hown Hpool Hamount Hutxos Hne Hcover)
    as (t & p' & Hbuild & Hrec & Hver & Hout & Hin & Ha).
  pose proof (submitted_payment _ _ _ t _ p' Hrec Hver Ha) as Hsent. rewrite <-Hn1 in Hsent.
  destruct (send_answer _ node time Hserves _ w1 _ _ _ Hsent) as (w2 & Hw2 & Hn2).
  exists t, w2. split.
  - unfold cmd_send, mbind, client_bind, return_result. rewrite Hw, Hfound, Hw1.
    rewrite bool_decide_eq_false_2 by (intros He; apply Hne; by rewrite He). rewrite Hbuild, Hw2. done.
  - rewrite Hn2. cbn [http_mempool http_storage]. rewrite Hn1. pose proof (add_transaction_stores _ _ _ _ _ Ha) as Hst.
    split_and!; [exact Hst|done|exact Hin|exact Hout|]. intros Hnone.
    assert (get_tx (node w2) (Hash_to_string (tx_hash (tx_data t))) = Ok (pending_answer (tx_hash (tx_data t)) t)) as Hget.
    { rewrite (get_tx_found (node w2) _ None); rewrite Hn2; cbn [http_mempool http_storage]; [by rewrite Hst|by rewrite Hn1]. }
    destruct (transaction_answer _ node time Hserves _ w2 _ Hget) as (w3 & Hw3 & _). by exists w3.
Qed.
End Payment.

(** * Identifiers of blocks *)

Section Queries.
Context {X : Externals} `{!HexLaws}.

(** What the wallet sends as the identifier of a block is the same one for the node. *)
Lemma block_query_understood s q :
  block_query_from_identifier s = Ok q -> exists i, identifier_try_from s = Ok i /\ identifier_try_from q = Ok i.
Proof.
  unfold block_query_from_identifier, classify_identifier. destruct (parse_u64 s) as [h|] eqn:Hs.
  - intros [= <-]. exists (ByHeight h). unfold identifier_try_from. rewrite Hs. split; [done|].
    by rewrite parse_u64_to_string by (by eapply parse_u64_range).
  - destruct (starts_with s "Bx"); [|by destruct (starts_with s "Tx")].
    destruct (from_hash_string BlockHashKind s) as [h|e] eqn:Hh; [|done]. intros [= <-]. exists (ByHash h).
    unfold identifier_try_from. by rewrite Hs, Hh.
Qed.
End Queries.

(** * A concrete link *)

Module ToyLink.
Import Toy ToyKeys ToyPostcard ToyWallet ListGraph MapOrder.

(** ** Reading what [Toy.serialize] writes *)

Definition byte_bits (b : byte) : list bool :=
  let '(b0, (b1, (b2, (b3, (b4, (b5, (b6, b7))))))) := Byte.to_bits b in [b0; b1; b2; b3; b4; b5; b6; b7].

Definition unpack (l : list byte) : list bool := l ≫= byte_bits.

Fixpoint bits_to_pos (l : list bool) : option positive :=
  match l with
  | [] => None
  | b :: l =>
      match bits_to_pos l with
      | Some p => Some (if b then p~1 else p~0)%positive
      | None => if b then Some 1%positive else None
      end
  end.

Lemma bits_to_pos_bits p k : bits_to_pos (pos_bits p ++ replicate k false) = Some p.
Proof.
  induction p as [p IH|p IH|]; cbn [pos_bits app bits_to_pos]; [by rewrite IH..|].
  assert (bits_to_pos (replicate k false) = None) as ->; [|done]. induction k as [|k IH]; [done|]. cbn. by rewrite IH.
Qed.

Lemma short_bits (l : list bool) : (length l < 8)%nat ->
  byte_bits (byte_of (foldr (fun (b : bool) acc => 2 * acc + (if b then 1 else 0)) 0 l)) = l ++ replicate (8 - length l) false.
Proof.
  intros Hl. do 8 (destruct l as [|[] l]; [vm_compute; reflexivity| |]). all: cbn in Hl; lia.
Qed.

Lemma unpack_pack l : exists k, unpack (pack_bits l) = l ++ replicate k false.
Proof.
  induction l as [l IH] using (induction_ltof1 _ length). unfold ltof in IH.
  destruct l as [|a [|b [|c [|d [|e [|f [|g [|h l]]]]]]]]; try (eexists; cbn [pack_bits]; unfold unpack; cbn [mbind list_bind];
    rewrite short_bits by (cbn; lia); by rewrite app_nil_r).
  destruct (IH l) as [k Hk]; [cbn; lia|]. exists k. cbn [pack_bits]. unfold unpack in *. cbn [mbind list_bind]. rewrite Hk.
  unfold byte_bits. by rewrite Byte.to_bits_of_bits.
Qed.

Definition unserialize {A} `{Countable A} (l : list byte) : result string A :=
  match bits_to_pos (unpack l) with Some p => ok_or (decode p) "bad value" | None => Err "bad value" end.

Lemma unserialize_serialize {A} `{Countable A} (x : A) : unserialize (serialize x) = Ok x.
Proof.
  unfold unserialize, serialize. destruct (unpack_pack (pos_bits (encode x))) as [k ->]. by rewrite bits_to_pos_bits, decode_encode.
Qed.

(** ** Texts of the API *)

Definition to_text {A} `{Countable A} (x : A) : string := hex_encode (serialize x).
Definition from_text {A} `{Countable A} (s : string) : result string A := hex_decode s ≫= unserialize.

Lemma from_to_text {A} `{Countable A} (x : A) : from_text (to_text x) = Ok x.
Proof. unfold from_text, to_text. rewrite hex_decode_encode. apply unserialize_serialize. Qed.

Definition balance_tuple (r : AddressBalanceResponse) :=
  (ab_address r, ab_balance r, (fun u => (ue_txid u, ue_vout u, ue_value u)) <$> ab_utxos r).
Definition tuple_balance '(a, b, l) : AddressBalanceResponse :=
  mk_AddressBalanceResponse a b ((fun '(t, v, x) => mk_UtxoEntry t v x) <$> l).

Lemma fmap_back {A B} (f : A -> B) (g : B -> A) (l : list A) : (forall x, g (f x) = x) -> g <$> (f <$> l) = l.
Proof. intros Hgf. induction l as [|x l IH]; [done|]. cbn [fmap list_fmap] in *. by rewrite Hgf, IH. Qed.

Lemma balance_tuple_back r : tuple_balance (balance_tuple r) = r.
Proof. destruct r as [a b l]. unfold tuple_balance, balance_tuple. cbn [ab_address ab_balance ab_utxos]. f_equal. apply fmap_back. by intros []. Qed.

Definition kind_tuple (k : TransactionKindResponse) : option bool :=
  match k with KindCoinbase => Some true | KindGenesis => Some false | KindPayment => None end.
Definition tuple_kind (k : option bool) : TransactionKindResponse :=
  match k with Some true => KindCoinbase | Some false => KindGenesis | None => KindPayment end.

Definition data_tuple (d : TransactionDataResponse) :=
  (dr_version d, kind_tuple (dr_kind d),
   (fun i => (op_txid (ir_previous_output i), op_vout (ir_previous_output i), ir_sequence i)) <$> dr_inputs d,
   (fun o => (or_value o, or_recipient o)) <$> dr_outputs d).
Definition tuple_data '(v, k, ins, outs) : TransactionDataResponse :=
  mk_TransactionDataResponse v (tuple_kind k)
    ((fun '(t, n, x) => mk_TransactionInputResponse (mk_OutPointResponse t n) x) <$> ins)
    ((fun '(x, a) => mk_TransactionOutputResponse x a) <$> outs).

Lemma data_tuple_back d : tuple_data (data_tuple d) = d.
Proof.
  destruct d as [v k ins outs]. unfold tuple_data, data_tuple. cbn [dr_version dr_kind dr_inputs dr_outputs]. f_equal.
  - by destruct k.
  - apply fmap_back. by intros [[]].
  - apply fmap_back. by intros [].
Qed.

Definition status_bit (s : TransactionQueryStatus) : bool := match s with Pending => false | Confirmed => true end.

Definition query_tuple (r : TransactionQueryResponse) :=
  (status_bit (tq_status r), tq_tx_hash r, data_tuple (tr_data (tq_transaction r)), tr_signature (tq_transaction r),
   tq_block_hash r, tq_block_height r, tq_tx_index r).
Definition tuple_query '(s, h, d, sig, bh, height, i) : TransactionQueryResponse :=
  mk_TransactionQueryResponse (if (s : bool) then Confirmed else Pending) h (mk_TransactionResponse (tuple_data d) sig) bh height i.

Lemma query_tuple_back r : tuple_query (query_tuple r) = r.
Proof.
  destruct r as [s h [d sig] bh height i]. unfold tuple_query, query_tuple. cbn [tq_status tq_tx_hash tq_transaction tr_data tr_signature tq_block_hash tq_block_height tq_tx_index].
  rewrite data_tuple_back. by destruct s.
Qed.

(** ** A node behind a link *)

Definition link_codecs : HttpCodecs := {|
  base64_encode := hex_encode;
  base64_decode := hex_decode;
  postcard_tx_from := unserialize;
  block_to_value b := Ok (JNumber (height (header b)));
|}.
#[local] Existing Instance link_codecs.

Definition link_json : NodeJson := {|
  balance_to r := to_text (balance_tuple r);
  transaction_to r := to_text (query_tuple r);
  error_to _ := "error";
|}.
#[local] Existing Instance link_json.

Definition link_api : ApiJson := {|
  balance_from s := tuple_balance <$> from_text s;
  nodestate_from _ := Err "unexpected";
  block_query_from _ := Err "unexpected";
  transaction_from s := (fun q => reply_of (tuple_query q)) <$> from_text s;
  send_request raw := raw;
  block_from_value _ := Err "unexpected";
|}.
#[local] Existing Instance link_api.

Lemma link_laws : LinkLaws.
Proof.
  split.
  - intros r. cbn [balance_from balance_to link_api link_json]. rewrite from_to_text. cbn [fmap result_fmap]. by rewrite balance_tuple_back.
  - intros r. cbn [transaction_from transaction_to link_api link_json]. rewrite from_to_text. cbn [fmap result_fmap]. by rewrite query_tuple_back.
  - intros bytes. apply hex_decode_encode.
  - intros t. apply unserialize_serialize.
Qed.

Abbreviation Node := (StryiHttpService MemoryView).
#[local] Existing Instances list_graph list_graph_laws list_graph_edit list_graph_edit_laws.

(** The address in a path that ends in [/balance]. *)
Definition before_balance (s : string) : string := String.substring 0 (String.length s - 8) s.

Definition link_http : HttpClient Node := {|
  http_get url svc :=
    (Ok (if starts_with url "n/api/address/" then respond balance_to (get_balance svc (before_balance (str_from url 14)))
         else respond transaction_to (get_tx svc (str_from url 9))), svc);
  http_post url raw svc :=
    let '(answer, svc', _) := send_tx (lookup_mempool_utxos (http_storage svc)) 1000 svc raw in
    (Ok (respond id answer), svc');
  canonical_reason _ := "";
|}.
#[local] Existing Instance link_http.

Lemma substring_start (a b : string) : String.substring 0 (String.length a) (a +:+ b) = a.
Proof.
  induction a as [|c a IH]; [by destruct b|].
  change (String c (String.substring 0 (String.length a) (a +:+ b)) = String c a). by rewrite IH.
Qed.

Lemma link_serves : serves (NodeClient_new "n") (fun svc : Node => svc) (fun _ => 1000).
Proof.
  split.
  - intros a svc. exists svc. split; [|reflexivity]. unfold balance_url. cbn [http_get link_http].
    change (NodeClient_new "n") with "n". change ("n" +:+ "/api/address/" +:+ a +:+ "/balance") with ("n/api/address/" +:+ (a +:+ "/balance")).
    unfold starts_with. rewrite Hashing.prefix_app. change 14%nat with (String.length "n/api/address/"). rewrite str_from_app.
    unfold before_balance. rewrite str_length_app. cbn [String.length]. rewrite Nat.add_sub. by rewrite substring_start.
  - intros h svc. exists svc. split; [|reflexivity]. unfold transaction_url. cbn [http_get link_http].
    change (NodeClient_new "n") with "n". change ("n" +:+ "/api/tx/" +:+ h) with ("n/api/tx/" +:+ h).
    change (starts_with ("n/api/tx/" +:+ h) "n/api/address/") with false. cbv iota.
    change 9%nat with (String.length "n/api/tx/"). by rewrite str_from_app.
  - intros raw svc. cbn [http_post link_http send_request link_api].
    destruct (send_tx _ _ svc raw) as [[answer svc'] published]. exists svc'. split; reflexivity.
Qed.

Definition link_clock : Clock Node := {| now _ := 0; sleep _ svc := svc |}.
#[local] Existing Instance link_clock.

(** ** A payment of the coin of the genesis block *)

Import MempoolProps.Examples.

Definition payer_file : option string := Some (enc_entries [generate_keypair "savings" Byte.x07]).
Definition payer_wallet : WalletFile := mk_WalletFile [generate_keypair "savings" Byte.x07].

Lemma payer_loads : (require_wallet healthy payer_file).1 = Ok payer_wallet.
Proof.
  assert (holds payer_file (Some [generate_keypair "savings" Byte.x07])) as Hh.
  { unfold holds, payer_file. cbn [from_str toy_json]. by rewrite dec_enc_entries by apply enc_entries_length. }
  destruct (require_cases healthy _ _ Hh) as [(l & Hl & ->)|(e & _ & Hd)].
  - injection Hl as <-. reflexivity.
  - discriminate (Hd eq_refl).
Qed.

(** What the payer owns: the output of the genesis block. *)
Definition payer_coins : gmap OutPoint UTXO := owned_by pool_owner (ledger_view [http_genesis]).

Lemma payer_spendable : spendable_coins payer_coins.
Proof. split; [apply (bool_decide_unpack _); vm_compute; exact I|vm_compute; reflexivity|vm_compute; discriminate]. Qed.

Lemma payer_untouched : untouched pool_empty payer_coins.
Proof. split; [intros op _; split; reflexivity|intros t _ _; reflexivity|vm_compute; reflexivity]. Qed.

Lemma payer_covers : 50000 + ideal_fee FeePolicy_default (Z.of_nat (size payer_coins)) 1 <= total_value payer_coins.
Proof. apply Z.leb_le. vm_compute. reflexivity. Qed.

Lemma genesis_values : nonneg_values (ledger_view [http_genesis]).
Proof. apply (bool_decide_unpack _). vm_compute. exact I. Qed.

Lemma send_reaches_pool_witness :
  exists t svc, cmd_send healthy payer_file "n" pool_owner other_address 50000 false http_service = (Ok tt, svc) /\
    mempool_get_transaction (http_mempool svc) (tx_hash (tx_data t)) = Some t /\
    (value <$> head (outputs (tx_data t))) = Some 50000.
Proof.
  destruct (@send_reaches_pool externals ecdsa_laws hex_laws map_order map_order_laws list_graph list_graph_edit list_graph_laws
    list_graph_edit_laws toy_json link_codecs link_api link_json link_laws Node link_http link_clock "n" (fun svc => svc) (fun _ => 1000) link_serves
    healthy payer_file payer_wallet pool_owner other_address 50000 [http_genesis] http_service payer_loads)
    as (t & svc & Hsend & Hpool & _ & _ & (change & Hout & _) & _).
  - repeat constructor.
  - left.
  - exact http_store_refines.
  - exact genesis_values.
  - exact payer_spendable.
  - exact payer_untouched.
  - split; [discriminate|reflexivity].
  - exact payer_covers.
  - exists t, svc. split; [exact Hsend|]. split; [exact Hpool|]. rewrite Hout. reflexivity.
Defined.
End ToyLink.
